(* ===== verification/_CoqProject ===== *)
-Q . S2P
Prelude.v
ConsensusTypes.v
VoteCounter.v
VoteCounterFacts.v
Tendermint.v
TendermintSpec.v
TendermintRefine.v
TendermintSafety.v
ConsensusWitness.v
Felt.v
BitArray.v
BitArrayFacts.v
BitArrayCodec.v
TrieNode.v
Trie.v
TrieSpec.v
TrieTrace.v
BitArrayTheorems.v
TrieRep.v
TrieNodeFacts.v
TrieFacts.v
TrieTheorems.v
TrieFrame.v
MemDB.v
MemDBFacts.v
TrieDB.v
TrieDBFacts.v
TrieCollect.v
TrieCommit.v
TrieProof.v
TrieProofFacts.v
TrieWitness.v
PathDB.v
PathDBFacts.v
PathTree.v
PathSpec.v
PathJournal.v
PathJournalFacts.v
PathWitness.v
FeltArith.v
Poseidon.v
Pedersen.v
PoseidonFacts.v
Transaction.v
TransactionFacts.v
StateDiff.v
Block.v
CommitmentFacts.v
BlockFacts.v
HashWitness.v
Class.v
ClassFacts.v
State.v
StateUpdate.v
StateTree.v
StateTries.v
StateObjects.v
StateCommit.v
StateFlush.v
StateHistory.v
StateRefine.v
StateErrors.v
StateQuery.v
StateChain.v
StateWitness.v
Bloom.v
BloomFacts.v
EventFilter.v
EventFacts.v
EventIndex.v
EventPages.v
EventWitness.v
Mempool.v
MempoolFacts.v
WalCodec.v
WalStore.v
WalIndexFacts.v
WalStoreFacts.v
Driver.v
DriverWitness.v
