(* ===== verification/Prelude.v ===== *)
(** * Verification of juno, a Starknet full node

    The development models the consensus of the node (state machine, vote
    counter, write-ahead log and driver), the Merkle-Patricia tries and the
    databases that hold its state, the hashes of transactions, classes and blocks,
    the state with its history, and the filters and queries of events, and proves
    what makes them correct.

    ** The program and its model

    [src/consensus/types]: messages, timeouts, actions and log entries.
    [ConsensusTypes]: one record or inductive type for each Go type; the hash of a
    value is the class [Hashable].

    [src/consensus/votecounter]: the votes of every round of the current height
    and of future heights.  [VoteCounter] has the counter as a record and its
    methods as functions, with the Go maps as [gmap] and voting powers as 64-bit
    integers that wrap; [VoteCounterFacts] has the sets of voters and the proofs.

    [src/consensus/tendermint]: the state machine of one node.  [Tendermint]
    has the state, the eight rules ([upon...] and [do...]), the timeouts, the
    handlers ([Process...]) and the loop that applies rules, as computations of
    the monad [SE].  [TendermintSpec] is the algorithm of the Tendermint paper as
    a transition system with its invariants; a transition names what it receives,
    and votes and proposals only come from there.  [TendermintRefine] proves that
    the handlers perform its transitions, [TendermintSafety] has the theorems on
    runs, [ConsensusWitness] applies them to a network of four validators.

    [src/consensus/walstore]: the log of the driver.  [WalCodec] has the
    records and their bytes, with the proof that they are read back, [WalStore]
    the index of live entries, the writer with the offset that is synced, the
    repair of the tail of a file, the store, the watermark and the recovery; the
    directory, with the bytes of its files, is part of the state.
    [WalIndexFacts] and [WalStoreFacts] have the proofs.

    [src/consensus/driver/driver.go]: the loop that feeds the state machine and
    executes its actions.  [Driver] records what it does in a trace of effects
    and proves their order, [DriverWitness] has concrete lives of a node.

    [src/core/trie2/trieutils/bitarray.go]: paths of at most 255 bits in four
    64-bit words.  [BitArray] has every operation on the words, [BitArrayFacts]
    what the words mean, [BitArrayCodec] the conversions from and to bytes,
    [BitArrayTheorems] the theorems.

    [src/core/trie2/trienode]: nodes, flags, encoding, node sets.  [TrieNode]
    and [TrieNodeFacts]; [Felt] has field elements and bytes.

    [src/core/trie2]: the trie.  [Trie] has get, insert, delete, hashing, the
    tracer, the collector and Commit over a database that is a parameter.
    [TrieSpec] is the specification: the canonical tree of a map and its hash.
    [TrieRep] relates nodes, some of them only present as hashes in the database,
    to trees; [TrieNodeFacts], [TrieFacts], [TrieTheorems] and [TrieFrame] have the
    proofs, [TrieTrace] the events an operation leaves in the tracer,
    [TrieWitness] concrete tries.

    [src/db/memory], [src/db/buffer_batch.go], [src/db/dbutils]: the key-value
    store in memory, its iterators and batches.  [MemDB] has the operations and
    the class [KVStore] of what a client may rely on, [MemDBFacts] its laws.

    [src/core/trie2/trieutils], [src/core/trie2/triedb/rawdb]: keys and accessors of
    stored nodes and the raw database.  [TrieDB] and [TrieDBFacts].  [TrieCollect]
    says which nodes a commit writes and removes, [TrieCommit] composes the trie,
    the raw database and the store.

    [src/core/trie2/triedb/pathdb]: the database that keeps the last states in
    memory.  [PathDB] has node sets, buffer, cache, layers and the layer tree, on
    a heap of objects; [PathJournal] the journal and the opening of a database.
    [PathDBFacts] and [PathTree] prove the disk layer and the chains of layers.
    [PathSpec] has the specification, a history of versions without forks, and
    the refinement,
    [PathJournalFacts] the opening; [PathWitness] has concrete databases.

    [src/core/trie2/proof.go]: membership proofs.  [TrieProof] has the prover and
    the verifier, [TrieProofFacts] the proofs, [TrieWitness] examples.

    [src/core/crypto]: hash functions.  [FeltArith] is the arithmetic of field
    elements as a class, with the integers modulo the Stark prime as an instance,
    and the proof that it is a prime.  [Poseidon] has the permutation, the
    array hashes and both digests, [Pedersen] the tables of multiples and the sum
    over windows; [PoseidonFacts] the proofs of both.

    [src/core/transaction.go], [version.go], [state_update.go], [receipt.go],
    [block.go]: what is hashed into a block.  [Transaction] has the transactions
    and their hashes, [StateDiff] the changes of a block and their hash, [Block]
    the commitments over temporary tries, the block hashes and their verification.
    [TransactionFacts], [StateDiff], [CommitmentFacts] and [BlockFacts] have
    the proofs, [HashWitness] concrete blocks and a known answer of Poseidon.

    [src/core/class.go], [src/core/crypto/blake2s]: [Class] has Sierra and compiled
    classes, their hashes with Poseidon and Blake2s and the stored records,
    [ClassFacts] the proofs.

    [src/core/state]: the state of the chain.  [State] has the records of
    contracts, the accessors of the tables and the reads at a block, [StateUpdate]
    the objects of contracts, updates and reverts with the batch they fill.
    [StateTree] is the specification: the maps of contracts, classes and storage,
    the tree of a map, and what an update makes of them.  [StateTries],
    [StateObjects], [StateCommit] and [StateFlush] prove the steps of an update,
    [StateRefine] the refinement, [StateErrors] what a failing update leaves,
    [StateHistory], [StateQuery] and [StateChain] the history over chains of
    blocks; [StateWitness] has two blocks on an empty database.

    [src/core/aggregated_bloom_filter*.go], [running_event_filter.go],
    [src/blockchain/event_*.go] and [aggregated_bloom_filter_cache.go]: filters and
    queries of events.  [Bloom] has the filters of blocks and the windows of 8192
    blocks, in memory and encoded, [EventFilter] the running filter with its
    storage, reorgs and initialisation, the matcher, the cache, the iterator over
    blocks and the queries with their tokens.  [BloomFacts] proves the windows and
    their codec, [EventIndex] that the running filter follows the chain,
    [EventFacts] that the iterator yields the blocks that may match, [EventPages]
    that the pages of a query are all matching events; [EventWitness] has concrete
    bit sets and a chain of two blocks.

    [src/mempool/mempool.go], [db_utils.go]: the transactions that wait.  [Mempool]
    has the linked list in memory on a heap of nodes, the list in the database,
    the channel between them with the goroutine that writes and the checks of a
    push; [MempoolFacts] the proofs and concrete pools.

    ** Conventions

    Integers are [Z] with the wrap of their Go type written out.  A fallible
    computation returns [Ok], [Err], [Panic] or [NoFuel]; a stateful one is a
    function of the monad [SE].  Theorems about results exclude [Panic] and
    [NoFuel], so the fuel is proved to be enough: twelve iterations of
    [processLoop] (each rule can fire a bounded number of times), twice the
    height and three calls for an operation on a trie of that height, the length
    of the blob for a decoder, one unit for every input and every start of a
    height for [listen], the number of layers of the heap for a chain of layers,
    the number of blocks or windows of a range for the loops over events.

    Code outside the repository is a parameter with its documented behaviour as
    a hypothesis: the arithmetic of field elements and of the curve, Keccak and
    Blake2s, the hashes of the tries, the values and validators the node is given,
    Pebble's batch reader and its format of log files, the outcome of every call of
    the file system, the codec of classes, bit sets, Bloom filters and the cache of windows.  The accessors
    that decode stored blocks are a class that event queries are proved against.
    Every theorem with a hypothesis is applied to a concrete input in a file of
    witnesses.

    ** What the theorems show

    Consensus: the handlers refine the algorithm and terminate, receiving exactly
    the messages of the event; no two votes of one kind in a round, votes respect
    the lock, precommits and decisions have two thirds of the votes, each of them
    received or the validator's own, heights are decided in order; the counter
    counts every voter once and two quorums intersect.  A message decides a value
    of its own round only, and what is accepted is logged before anything else.

    Log and driver: a store that is opened on the directory has the entries of the
    store; only when a write failed and its file was not repaired it may have the
    records of that write too, all of them.  A flush is atomic, broadcasts and
    commits come after the flush of what was logged before; a replay logs nothing.

    Tries: a trie behaves as a map, its root hash is a function of that map, a
    failed operation changes nothing; a trie that is committed through the raw
    database and opened again from its root hash is the same map.  The proofs the
    prover makes are accepted, and a value the verifier returns is the trie's.

    Path database: any sequence of updates of the newest version, commits and
    reads returns what a history of versions prescribes, whatever is buffered,
    flushed, cached or evicted; the journal restores the history.  Updates of an
    older version (forks) and roots that are used twice are not covered.

    Hashes and blocks: the permutation of Poseidon is injective, Pedersen with
    its tables is the sum that defines it; the hashed contents of a transaction,
    the changes of a state diff, a list of leaves up to trailing zeros, and the
    contents of a verified block of version 0.13.4 or later are determined by
    their hash.  (A state diff does not tell deployed from replaced contracts, nor
    declared from migrated classes, by its hash.)  No hash is
    assumed to be injective: the hypothesis is that the arrays and nodes that are
    hashed for the two objects do not collide with one another.  The theorems on
    stored tries and on the state assume that no inner node hashes to zero, which
    the code takes for a missing hash ([TrieRep.hash_nonzero]).

    State: an update fills a batch that, once written, makes the database hold the
    state the update prescribes, an update or a revert that fails writes nothing,
    and queries about an older block return the values after that block.

    Events: after any blocks were added and reverted the running filter and the
    stored windows have the bits of the chain, a start without a snapshot rebuilds
    them, and the pages of a query are exactly the matching events, in order.

    Mempool: the list in memory is a queue; a new pool on the database of a closed
    one loads accepted transactions only and in order, for different hashes and
    whatever the pace of the writer: all of them when the channel to the writer
    was never full, and a push that found it full loses two at most.

    Store: a batch that is written is the sequence of its operations, an iterator
    lists the keys of its prefix in order.

    Some theorems and examples state behaviour that is not intended: a decision that is
    missed, a restarted proposer that contradicts itself, actions executed twice,
    nodes marked as deleted by a failed operation, keys cut to the height, a proof
    that is accepted although nodes are missing, a state that is not found after
    opening the database, a fork that cannot be read, a stored window of filters
    that stops the chain after a reorg, a mempool that never finishes loading after
    a transaction was pushed twice.

    ** Not modelled

    Logging, metrics and locks; the parallel branches of the hasher and the
    collector, which compute what the sequential ones do; the verifier of range
    proofs, the hash scheme of the trie database, the older trie and state that
    trie2 and the state replace, the storage of blocks, the pruner but for its
    check of queries, the mempool over the network, the shards of proposals; peer-to-peer streams,
    RPC, the virtual machine, migrations and the other parts of the node: they
    call third-party code, other programs or the network throughout. *)
From stdpp Require Import prelude gmap list sorting.
From Stdlib Require Import ZArith Lia.

Local Open Scope Z_scope.

(** ** Machine integers

    A Go integer is a [Z] kept in the range of its type.  Every arithmetic
    operation of the source that can leave the range is followed by the wrap of
    its type. *)

Definition u8 (x : Z) : Z := x mod 2 ^ 8.
Definition u16 (x : Z) : Z := x mod 2 ^ 16.
Definition u64 (x : Z) : Z := x mod 2 ^ 64.

(** Two's complement [int] of 64 bits. *)
Definition i64 (x : Z) : Z := (x + 2 ^ 63) mod 2 ^ 64 - 2 ^ 63.

(** Go shifts on [uint64]: a count of 64 or more gives zero. *)
Definition shl64 (x n : Z) : Z := u64 (Z.shiftl x n).
Definition shr64 (x n : Z) : Z := Z.shiftr x n.

Definition maxUint64 : Z := 2 ^ 64 - 1.
Definition maxUint8 : Z := 2 ^ 8 - 1.

Abbreviation is_u8 x := (0 <= x < 2 ^ 8).
Abbreviation is_u64 x := (0 <= x < 2 ^ 64).
Abbreviation is_i64 x := (- 2 ^ 63 <= x < 2 ^ 63).

(** ** Outcomes of Go code

    [Ok] is a normal return, [Err] a returned non-nil [error], [Panic] a
    run-time panic (nil dereference, index out of range, explicit [panic]) and
    [NoFuel] the exhaustion of the fuel of a loop of the model. *)

Inductive outcome (E A : Type) : Type :=
| Ok (a : A)
| Err (e : E)
| Panic
| NoFuel.

Arguments Ok {E A} a.
Arguments Err {E A} e.
Arguments Panic {E A}.
Arguments NoFuel {E A}.

(** Code that mutates a state and may fail.  The state is returned on the
    failing paths too: a Go function that has mutated its receiver before it
    returns an error leaves the mutation in place. *)

Definition SE (S E A : Type) : Type := S -> outcome E A * S.

#[export] Instance SE_ret S E : MRet (SE S E) := fun _ a s => (Ok a, s).
#[export] Instance SE_bind S E : MBind (SE S E) := fun _ _ k m s =>
  match m s with
  | (Ok a, s') => k a s'
  | (Err e, s') => (Err e, s')
  | (Panic, s') => (Panic, s')
  | (NoFuel, s') => (NoFuel, s')
  end.

Definition get_state {S E} : SE S E S := fun s => (Ok s, s).
Definition put_state {S E} (s : S) : SE S E unit := fun _ => (Ok tt, s).
Definition modify {S E} (f : S -> S) : SE S E unit := fun s => (Ok tt, f s).
Definition gets {S E A} (f : S -> A) : SE S E A := fun s => (Ok (f s), s).
Definition fail {S E A} (e : E) : SE S E A := fun s => (Err e, s).
Definition panic {S E A} : SE S E A := fun s => (Panic, s).
Definition out_of_fuel {S E A} : SE S E A := fun s => (NoFuel, s).

(** A pure outcome in the monad. *)
Definition lift {S E A} (o : outcome E A) : SE S E A := fun s => (o, s).

(** Dereference of a Go pointer. *)
Definition deref {S E A} (p : option A) : SE S E A :=
  match p with Some a => mret a | None => panic end.

#[export] Instance outcome_ret E : MRet (outcome E) := fun _ a => Ok a.
#[export] Instance outcome_bind E : MBind (outcome E) := fun _ _ k o =>
  match o with
  | Ok a => k a
  | Err e => Err e
  | Panic => Panic
  | NoFuel => NoFuel
  end.

(** ** Lemmas on machine integers *)

Create HintDb juno.
Create Rewrite HintDb juno.

Lemma u64_small x : is_u64 x -> u64 x = x.
Proof. intros; unfold u64; apply Z.mod_small; lia. Qed.

Lemma u8_small x : is_u8 x -> u8 x = x.
Proof. intros; unfold u8; apply Z.mod_small; lia. Qed.

Lemma u16_small x : 0 <= x < 2 ^ 16 -> u16 x = x.
Proof. intros; unfold u16; apply Z.mod_small; lia. Qed.

Lemma i64_small x : is_i64 x -> i64 x = x.
Proof. intros; unfold i64; rewrite Z.mod_small; lia. Qed.

Lemma u64_range x : is_u64 (u64 x).
Proof. unfold u64; apply Z.mod_pos_bound; lia. Qed.

Lemma u8_range x : is_u8 (u8 x).
Proof. unfold u8; apply Z.mod_pos_bound; lia. Qed.

Lemma i64_range x : is_i64 (i64 x).
Proof.
  unfold i64; pose proof (Z.mod_pos_bound (x + 2 ^ 63) (2 ^ 64)); lia.
Qed.

#[export] Hint Rewrite u64_small u8_small u16_small i64_small using lia : juno.
#[export] Hint Resolve u64_range u8_range i64_range : juno.

(** ** Bits of integers *)

Lemma testbit_high n x i :
  0 <= x < 2 ^ n -> n <= i -> Z.testbit x i = false.
Proof.
  intros Hx Hi.
  destruct (Z.neg_nonneg_cases n) as [Hn|Hn].
  { rewrite Z.pow_neg_r in Hx by lia; lia. }
  rewrite <- (Z.mod_small x (2 ^ n)) by lia.
  apply Z.mod_pow2_bits_high; lia.
Qed.

Lemma testbit_bound n x :
  0 <= n -> 0 <= x -> (forall i, n <= i -> Z.testbit x i = false) -> x < 2 ^ n.
Proof.
  intros Hn Hx Hb.
  destruct (Z.eq_dec x 0) as [->|]; [apply Z.pow_pos_nonneg; lia|].
  apply Z.log2_lt_pow2; [lia|].
  destruct (Z.lt_ge_cases (Z.log2 x) n); [done|].
  pose proof (Z.bit_log2 x ltac:(lia)) as Hl. rewrite Hb in Hl; [discriminate|lia].
Qed.

Lemma testbit_mod_pow2 x n i :
  0 <= n -> 0 <= i -> Z.testbit (x mod 2 ^ n) i = (i <? n) && Z.testbit x i.
Proof.
  intros Hn Hi. destruct (Z.ltb_spec i n).
  - by rewrite Z.mod_pow2_bits_low.
  - by rewrite Z.mod_pow2_bits_high.
Qed.

Lemma testbit_u64 x i :
  0 <= i -> Z.testbit (u64 x) i = (i <? 64) && Z.testbit x i.
Proof. intros; unfold u64; rewrite testbit_mod_pow2; [done|lia|lia]. Qed.

Lemma testbit_shl64 x n i :
  0 <= i -> Z.testbit (shl64 x n) i = (i <? 64) && Z.testbit x (i - n).
Proof. intros; unfold shl64; rewrite testbit_u64, Z.shiftl_spec; done. Qed.

Lemma testbit_shr64 x n i :
  0 <= i -> Z.testbit (shr64 x n) i = Z.testbit x (i + n).
Proof. intros; unfold shr64; rewrite Z.shiftr_spec; done. Qed.

Lemma testbit_ones n i :
  0 <= n -> 0 <= i -> Z.testbit (2 ^ n - 1) i = (i <? n).
Proof.
  intros Hn Hi. replace (2 ^ n - 1) with (Z.ones n)
    by (rewrite Z.ones_equiv; lia).
  destruct (Z.ltb_spec i n); [apply Z.ones_spec_low | apply Z.ones_spec_high]; lia.
Qed.

Lemma testbit_neg_idx x i : i < 0 -> Z.testbit x i = false.
Proof. apply Z.testbit_neg_r. Qed.

(** [land] with a mask of ones shifted down: the form the source uses to keep
    the low [n] bits of a word. *)
Lemma land_mask64 x n :
  0 <= n <= 64 -> Z.land x (shr64 maxUint64 (64 - n)) = x mod 2 ^ n.
Proof.
  intros Hn. apply Z.bits_inj'; intros i Hi.
  unfold maxUint64.
  rewrite Z.land_spec, testbit_shr64, testbit_ones, testbit_mod_pow2 by lia.
  destruct (Z.ltb_spec i n), (Z.ltb_spec (i + (64 - n)) 64); try lia;
    by rewrite ?andb_true_r, ?andb_false_r.
Qed.

Lemma shl64_range x n : is_u64 (shl64 x n).
Proof. apply u64_range. Qed.

Lemma shr64_range x n : 0 <= n -> is_u64 x -> is_u64 (shr64 x n).
Proof.
  intros Hn Hx. unfold shr64. rewrite Z.shiftr_div_pow2 by lia.
  pose proof (Z.pow_pos_nonneg 2 n). split; [apply Z.div_pos; lia|].
  apply Z.div_lt_upper_bound; nia.
Qed.

Lemma lor_range n x y :
  0 <= n -> 0 <= x < 2 ^ n -> 0 <= y < 2 ^ n -> 0 <= Z.lor x y < 2 ^ n.
Proof.
  intros Hn Hx Hy. split; [apply Z.lor_nonneg; lia|].
  apply testbit_bound; [lia|apply Z.lor_nonneg; lia|].
  intros i Hi. by rewrite Z.lor_spec, !(testbit_high n) by lia.
Qed.

Lemma land_range n x y :
  0 <= n -> 0 <= x < 2 ^ n -> 0 <= y -> 0 <= Z.land x y < 2 ^ n.
Proof.
  intros Hn Hx Hy. split; [apply Z.land_nonneg; lia|].
  apply testbit_bound; [lia|apply Z.land_nonneg; lia|].
  intros i Hi. by rewrite Z.land_spec, (testbit_high n) by lia.
Qed.

Lemma lxor_range n x y :
  0 <= n -> 0 <= x < 2 ^ n -> 0 <= y < 2 ^ n -> 0 <= Z.lxor x y < 2 ^ n.
Proof.
  intros Hn Hx Hy. split; [apply Z.lxor_nonneg; lia|].
  apply testbit_bound; [lia|apply Z.lxor_nonneg; lia|].
  intros i Hi. by rewrite Z.lxor_spec, !(testbit_high n) by lia.
Qed.

#[export] Hint Resolve shl64_range shr64_range : juno.
#[export] Hint Extern 1 (0 <= Z.lor _ _ < _) => apply lor_range : juno.
#[export] Hint Extern 1 (0 <= Z.land _ _ < _) => apply land_range : juno.
#[export] Hint Extern 1 (0 <= Z.lxor _ _ < _) => apply lxor_range : juno.

(** Case analysis on every boolean comparison of integers in the goal. *)
Ltac bool_cases :=
  repeat match goal with
  | |- context [?a <? ?b] => destruct (Z.ltb_spec a b); try lia
  | |- context [?a <=? ?b] => destruct (Z.leb_spec a b); try lia
  | |- context [?a =? ?b] => destruct (Z.eqb_spec a b); try lia
  end.

(** Split a boolean conjunction in a hypothesis. *)
Ltac bool_hyps :=
  repeat match goal with
  | H : _ && _ = true |- _ => apply andb_prop in H as [? ?]
  | H : negb _ = true |- _ => apply negb_true_iff in H
  | H : (_ <? _) = true |- _ => apply Z.ltb_lt in H
  | H : (_ <? _) = false |- _ => apply Z.ltb_ge in H
  | H : (_ <=? _) = true |- _ => apply Z.leb_le in H
  | H : (_ <=? _) = false |- _ => apply Z.leb_gt in H
  | H : (_ =? _) = true |- _ => apply Z.eqb_eq in H
  | H : (_ =? _) = false |- _ => apply Z.eqb_neq in H
  end.

(** ** Sorting *)

(** [sort.Slice] with a function [less]. *)
Fixpoint sorted_insert {A} (less : A -> A -> bool) (x : A) (l : list A) : list A :=
  match l with
  | [] => [x]
  | y :: l' => if less y x then y :: sorted_insert less x l' else x :: l
  end.

Definition sort_slice {A} (less : A -> A -> bool) (l : list A) : list A :=
  foldr (sorted_insert less) [] l.

Section sorting.
Context {A : Type} (less : A -> A -> bool) (lt : A -> A -> Prop) (ok : A -> Prop).
Hypothesis less_lt : forall x y, ok x -> ok y -> less x y = true <-> lt x y.
Hypothesis lt_trans : forall x y z, lt x y -> lt y z -> lt x z.
Hypothesis lt_total : forall x y, ok x -> ok y -> x ≠ y -> lt x y \/ lt y x.

Lemma sorted_insert_perm x l : sorted_insert less x l ≡ₚ x :: l.
Proof.
  induction l as [|y l IH]; simpl; [done|]. destruct (less y x); [|done]. rewrite IH. by apply perm_swap.
Qed.

Lemma sort_slice_perm l : sort_slice less l ≡ₚ l.
Proof. induction l as [|x l IH]; simpl; [done|]. by rewrite sorted_insert_perm, IH. Qed.

Lemma sorted_insert_sorted x l :
  ok x -> Forall ok l -> x ∉ l -> StronglySorted lt l -> StronglySorted lt (sorted_insert less x l).
Proof.
  intros Hx Hok Hni Hs. induction Hs as [|y l Hs IH Hy]; simpl; [by repeat constructor|].
  apply Forall_cons in Hok as [Hoy Hok]. apply not_elem_of_cons in Hni as [Hne Hni].
  destruct (less y x) eqn:E.
  - constructor; [by apply IH|]. rewrite sorted_insert_perm. constructor; [by apply less_lt|done].
  - assert (Hlt : lt x y).
    { destruct (lt_total x y) as [?|Hyx]; [done..|]. apply (less_lt y x) in Hyx; [congruence|done|done]. }
    constructor; [by constructor|]. constructor; [done|]. eapply Forall_impl; [done|].
    intros z. by apply lt_trans.
Qed.

Lemma sort_slice_sorted l : Forall ok l -> NoDup l -> StronglySorted lt (sort_slice less l).
Proof.
  induction l as [|x l IH]; intros Hok Hd; simpl; [constructor|].
  apply Forall_cons in Hok as [Hx Hok]. apply NoDup_cons in Hd as [Hni Hd].
  apply sorted_insert_sorted; [done| | |by apply IH].
  - by rewrite sort_slice_perm.
  - by rewrite sort_slice_perm.
Qed.

End sorting.

(** Sorting a list with equal elements. *)
Section sorting_le.
Context {A : Type} (less : A -> A -> bool) (ok : A -> Prop).
Hypothesis less_asym : forall x y, ok x -> ok y -> less x y = true -> less y x = false.
Hypothesis le_trans : forall x y z, ok x -> ok y -> ok z ->
  less y x = false -> less z y = false -> less z x = false.

Lemma sort_slice_le l : Forall ok l -> StronglySorted (fun x y => less y x = false) (sort_slice less l).
Proof.
  induction 1 as [|x l Hx Hl IH]; simpl; [constructor|].
  assert (Hok : Forall ok (sort_slice less l)) by (by rewrite sort_slice_perm). revert Hok.
  induction IH as [|y l' Hs IH Hy]; simpl; intros Hok; [by repeat constructor|].
  apply Forall_cons in Hok as [Hoy Hok]. destruct (less y x) eqn:E.
  - constructor; [by apply IH|]. rewrite sorted_insert_perm. constructor; [by apply less_asym|done].
  - constructor; [by constructor|]. constructor; [done|].
    apply Forall_forall. intros z Hz. eapply Forall_forall in Hy; [|done].
    eapply Forall_forall in Hok; [|done]. by apply (le_trans x y z).
Qed.

End sorting_le.

(** Sorting commutes with a map that preserves the order. *)
Lemma sort_slice_fmap {A B} (f : A -> B) (less : A -> A -> bool) (less' : B -> B -> bool) (ok : A -> Prop) l :
  (forall x y, ok x -> ok y -> less' (f x) (f y) = less x y) -> Forall ok l ->
  sort_slice less' (f <$> l) = f <$> sort_slice less l.
Proof.
  intros Hf. induction 1 as [|x l Hx Hl IH]; [done|]. cbn [fmap list_fmap sort_slice foldr].
  fold (sort_slice less' (f <$> l)). fold (sort_slice less l). rewrite IH. clear IH.
  assert (Hok : Forall ok (sort_slice less l)) by (by rewrite sort_slice_perm).
  induction Hok as [|y l' Hy _ IH]; [done|]. cbn [fmap list_fmap sorted_insert]. rewrite Hf by done.
  destruct (less y x); [|done]. cbn [fmap list_fmap]. f_equal. exact IH.
Qed.

(** ** Total correctness of computations

    [wp m Q s]: started in [s], [m] returns normally (no error, no panic, no
    exhausted fuel) with a result and a final state that satisfy [Q]. *)

Definition wp {S E A} (m : SE S E A) (Q : A -> S -> Prop) (s : S) : Prop :=
  match m s with
  | (Ok a, s') => Q a s'
  | _ => False
  end.

Section wp.
Context {S E : Type}.

Lemma wp_elim {A} (m : SE S E A) Q s :
  wp m Q s -> exists a s', m s = (Ok a, s') /\ Q a s'.
Proof. unfold wp. destruct (m s) as [[] s']; try done. eauto. Qed.

Lemma wp_intro {A} (m : SE S E A) (Q : A -> S -> Prop) s a s' :
  m s = (Ok a, s') -> Q a s' -> wp m Q s.
Proof. unfold wp. by intros ->. Qed.

(** The result of a computation that is known to return. *)
Lemma wp_result {A} (m : SE S E A) Q s a s' :
  wp m Q s -> m s = (Ok a, s') -> Q a s'.
Proof. unfold wp. intros HQ E1. by rewrite E1 in HQ. Qed.

Lemma wp_mono {A} (m : SE S E A) (Q R : A -> S -> Prop) s :
  wp m Q s -> (forall a s', Q a s' -> R a s') -> wp m R s.
Proof. unfold wp. destruct (m s) as [[] s']; naive_solver. Qed.

Lemma wp_bind {A B} (m : SE S E A) (k : A -> SE S E B) Q s :
  wp m (fun a s' => wp (k a) Q s') s -> wp (m ≫= k) Q s.
Proof. unfold wp, mbind, SE_bind. by destruct (m s) as [[] s']. Qed.

Lemma wp_ret {A} (a : A) (Q : A -> S -> Prop) s : Q a s -> wp (mret a : SE S E A) Q s.
Proof. done. Qed.

Lemma wp_get (Q : S -> S -> Prop) s : Q s s -> wp (get_state : SE S E S) Q s.
Proof. done. Qed.

Lemma wp_gets {A} (g : S -> A) (Q : A -> S -> Prop) s :
  Q (g s) s -> wp (gets g : SE S E A) Q s.
Proof. done. Qed.

Lemma wp_modify (g : S -> S) (Q : unit -> S -> Prop) s :
  Q tt (g s) -> wp (modify g : SE S E unit) Q s.
Proof. done. Qed.

Lemma wp_lift {A} (o : outcome E A) (Q : A -> S -> Prop) s a : o = Ok a -> Q a s -> wp (lift o : SE S E A) Q s.
Proof. intros ->. by apply wp_intro. Qed.

Lemma wp_deref {A} (o : option A) (Q : A -> S -> Prop) s a :
  o = Some a -> Q a s -> wp (deref o : SE S E A) Q s.
Proof. by intros ->. Qed.

End wp.

#[global] Opaque wp.

(** [wpe m Q R s]: as [wp], but [m] may also return an error, in a state that
    satisfies [R]. *)
Definition wpe {S E A} (m : SE S E A) (Q : A -> S -> Prop) (R : E -> S -> Prop) (s : S) : Prop :=
  match m s with
  | (Ok a, s') => Q a s'
  | (Err e, s') => R e s'
  | _ => False
  end.

Lemma wpe_bind {S E A B} (m : SE S E A) (k : A -> SE S E B) Q R s :
  wpe m (fun a s' => wpe (k a) Q R s') R s -> wpe (m ≫= k) Q R s.
Proof. unfold wpe, mbind, SE_bind. by destruct (m s) as [[] s']. Qed.

Lemma wpe_wp {S E A} (m : SE S E A) (Q : A -> S -> Prop) (R : E -> S -> Prop) s :
  wp m Q s -> wpe m Q R s.
Proof. intros (a & s' & E1 & HQ)%wp_elim. unfold wpe. by rewrite E1. Qed.

Lemma wpe_mono {S E A} (m : SE S E A) (Q Q' : A -> S -> Prop) (R R' : E -> S -> Prop) s :
  wpe m Q R s -> (forall a s', Q a s' -> Q' a s') -> (forall e s', R e s' -> R' e s') -> wpe m Q' R' s.
Proof. unfold wpe. destruct (m s) as [[] s']; naive_solver. Qed.

Lemma wpe_elim {S E A} (m : SE S E A) (Q : A -> S -> Prop) (R : E -> S -> Prop) s o s' :
  wpe m Q R s -> m s = (o, s') -> (exists a, o = Ok a /\ Q a s') \/ (exists e, o = Err e /\ R e s').
Proof. unfold wpe. intros HQ E1. rewrite E1 in HQ. destruct o; naive_solver. Qed.

(** One step of symbolic execution. *)
Ltac wp_step :=
  match goal with
  | |- wp (_ ≫= _) _ _ => apply wp_bind
  | |- wp (mret _) _ _ => apply wp_ret
  | |- wp get_state _ _ => apply wp_get
  | |- wp (gets _) _ _ => apply wp_gets
  | |- wp (modify _) _ _ => apply wp_modify
  | |- wp (if ?b then _ else _) _ _ => destruct b eqn:?
  end; cbv beta.

Ltac wp_steps := repeat wp_step.
