(* ===== verification/ConsensusTypes.v ===== *)
(** * Types shared by the consensus components

    The messages of [src/consensus/types], the actions of
    [src/consensus/types/actions] and the write-ahead-log entries of
    [src/consensus/types/wal].  Values [V], their hashes [H] and validator
    addresses [A] are type parameters of the Go code and stay parameters here.
    A Go pointer that may be nil is an [option]. *)
From stdpp Require Import prelude gmap.
From Stdlib Require Import ZArith.
From S2P Require Import Prelude.

Local Open Scope Z_scope.

(** ** [types.go] and [state.go] *)

(** [Hashable]: the hash of a value is used as its identifier. *)
Class Hashable (V H : Type) := Hash : V -> H.

(** [Step] is a [uint8]; the state machine uses three of its values. *)
Definition StepPropose : Z := 0.
Definition StepPrevote : Z := 1.
Definition StepPrecommit : Z := 2.

(** ** [messages.go] *)

Record MessageHeader (A : Type) := mkHeader {
  Height : Z; (* [uint] *)
  Round : Z; (* [int] *)
  Sender : A;
}.
Arguments mkHeader {A} _ _ _.
Arguments Height {A} _.
Arguments Round {A} _.
Arguments Sender {A} _.

Record Proposal (V A : Type) := mkProposal {
  proposal_header : MessageHeader A;
  ValidRound : Z;
  Value : option V;
}.
Arguments mkProposal {V A} _ _ _.
Arguments proposal_header {V A} _.
Arguments ValidRound {V A} _.
Arguments Value {V A} _.

(** [Prevote] and [Precommit] are both declared as [Vote]. *)
Record Vote (H A : Type) := mkVote {
  vote_header : MessageHeader A;
  ID : option H;
}.
Arguments mkVote {H A} _ _.
Arguments vote_header {H A} _.
Arguments ID {H A} _.

(** ** [timeout.go] *)

Record Timeout := mkTimeout {
  tm_Step : Z;
  tm_Height : Z;
  tm_Round : Z;
}.

#[export] Instance Timeout_eq_dec : EqDecision Timeout.
Proof. solve_decision. Defined.

(** ** [wal/wal.go]

    A [*wal.Start] is a pointer to a height.  The state machine builds it from
    the address of its own height field; an entry decoded from the log points
    to a height of its own. *)

Inductive heightPtr : Type :=
| OwnHeight
| AtHeight (h : Z).

Inductive walEntry (V H A : Type) : Type :=
| WALStart (p : heightPtr)
| WALProposal (p : Proposal V A)
| WALPrevote (p : Vote H A)
| WALPrecommit (p : Vote H A)
| WALTimeout (tm : Timeout).
Arguments WALStart {V H A} _.
Arguments WALProposal {V H A} _.
Arguments WALPrevote {V H A} _.
Arguments WALPrecommit {V H A} _.
Arguments WALTimeout {V H A} _.

(** The height an entry refers to.  [own] is the current content of the state
    machine's height field: a [Start] entry built by the state machine reads
    it at the time the entry is used. *)
Definition GetHeight {V H A} (own : Z) (e : walEntry V H A) : Z :=
  match e with
  | WALStart OwnHeight => own
  | WALStart (AtHeight h) => h
  | WALProposal p => Height (proposal_header p)
  | WALPrevote p => Height (vote_header p)
  | WALPrecommit p => Height (vote_header p)
  | WALTimeout tm => tm_Height tm
  end.

(** ** [actions/actions.go] *)

Inductive Action (V H A : Type) : Type :=
| WriteWAL (e : walEntry V H A)
| BroadcastProposal (p : Proposal V A)
| BroadcastPrevote (v : Vote H A)
| BroadcastPrecommit (v : Vote H A)
| ScheduleTimeout (tm : Timeout)
| Commit (p : Proposal V A)
| TriggerSync (start stop : Z).
Arguments WriteWAL {V H A} _.
Arguments BroadcastProposal {V H A} _.
Arguments BroadcastPrevote {V H A} _.
Arguments BroadcastPrecommit {V H A} _.
Arguments ScheduleTimeout {V H A} _.
Arguments Commit {V H A} _.
Arguments TriggerSync {V H A} _ _.

Definition RequiresWALFlush {V H A} (a : Action V H A) : bool :=
  match a with
  | WriteWAL _ => false
  | BroadcastProposal _ => true
  | BroadcastPrevote _ => true
  | BroadcastPrecommit _ => true
  | ScheduleTimeout _ => false
  | Commit _ => true
  | TriggerSync _ _ => false
  end.
