(* ===== verification/VoteCounter.v ===== *)
(** * Vote counting

    [src/consensus/votecounter]: the ballots of a set of voters
    ([ballot.go]), the votes and the proposal of a round ([round_data.go])
    and the counter over all rounds of the current and of future heights
    ([vote_counter.go]).

    A Go map from rounds to [*roundData] is a [gmap] of records; the pointer
    returned by [getRoundData] is the pair of a height and a round, through
    which the record is read and written back. *)
From stdpp Require Import prelude gmap.
From Stdlib Require Import ZArith Lia.
From S2P Require Import Prelude ConsensusTypes.

Local Open Scope Z_scope.

(** [VoteType]: the index into the two-element arrays of the ballots. *)
Inductive VoteType := Prevote | Precommit.

#[export] Instance VoteType_eq_dec : EqDecision VoteType.
Proof. solve_decision. Defined.

(** Access to a two-element array indexed by vote type. *)
Definition at_type {T} (x : T * T) (vt : VoteType) : T :=
  match vt with Prevote => x.1 | Precommit => x.2 end.

Definition set_type {T} (x : T * T) (vt : VoteType) (v : T) : T * T :=
  match vt with Prevote => (v, x.2) | Precommit => (x.1, v) end.

(** The validator set is an interface implemented outside the counter. *)
Class Validators (A : Type) := {
  TotalVotingPower : Z -> Z;
  ValidatorVotingPower : Z -> A -> Z;
  Proposer : Z -> Z -> A;
}.

Section definitions.
Context {V H A : Type} `{Countable H} `{Countable A}.

(** ** [ballot.go] *)

Record ballotSet := mkBallotSet {
  ballots : gmap A (bool * bool);
  perVoteType : Z * Z;
  total : Z;
}.

Definition newBallotSet : ballotSet := mkBallotSet ∅ (0, 0) 0.

Definition ballot_add (b : ballotSet) (addr : A) (addrPower : Z) (vt : VoteType)
  : bool * ballotSet :=
  let b1 :=
    match ballots b !! addr with
    | Some _ => b
    | None => mkBallotSet (<[addr := (false, false)]> (ballots b)) (perVoteType b)
                (u64 (total b + addrPower))
    end in
  let bal := default (false, false) (ballots b1 !! addr) in
  if at_type bal vt then (false, b1)
  else (true,
        mkBallotSet (<[addr := set_type bal vt true]> (ballots b1))
          (set_type (perVoteType b1) vt (u64 (at_type (perVoteType b1) vt + addrPower)))
          (total b1)).

(** ** [round_data.go] *)

Record roundData := mkRoundData {
  proposal : option (Proposal V A);
  uncountedProposerPower : Z;
  perIDVotes : gmap H ballotSet;
  nilVotes : ballotSet;
  allVotes : ballotSet;
}.

Definition newRoundData : roundData :=
  mkRoundData None 0 ∅ newBallotSet newBallotSet.

Definition setProposal (r : roundData) (p : Proposal V A) (votingPower : Z)
  : bool * roundData :=
  match proposal r with
  | Some _ => (false, r)
  | None =>
      let proposerNotVoted :=
        match ballots (allVotes r) !! Sender (proposal_header p) with
        | None => true
        | Some bal => negb (at_type bal Prevote) && negb (at_type bal Precommit)
        end in
      (true,
       mkRoundData (Some p)
         (if proposerNotVoted then votingPower else uncountedProposerPower r)
         (perIDVotes r) (nilVotes r) (allVotes r))
  end.

(** The ballots of the votes for one identifier, or of the nil votes. *)
Definition perVote (r : roundData) (id : option H) : option ballotSet :=
  match id with
  | Some i => perIDVotes r !! i
  | None => Some (nilVotes r)
  end.

Definition addVote (r : roundData) (vote : Vote H A) (votingPower : Z)
    (vt : VoteType) : bool * roundData :=
  let sender := Sender (vote_header vote) in
  let pv := default newBallotSet (perVote r (ID vote)) in
  let uncounted :=
    if (0 <? uncountedProposerPower r) &&
       match proposal r with
       | Some p => bool_decide (Sender (proposal_header p) = sender)
       | None => false
       end
    then 0 else uncountedProposerPower r in
  let '(_, allVotes') := ballot_add (allVotes r) sender votingPower vt in
  let '(added, pv') := ballot_add pv sender votingPower vt in
  (added,
   match ID vote with
   | Some i => mkRoundData (proposal r) uncounted (<[i := pv']> (perIDVotes r))
                 (nilVotes r) allVotes'
   | None => mkRoundData (proposal r) uncounted (perIDVotes r) pv' allVotes'
   end).

Definition countVote (r : roundData) (vt : VoteType) (id : option H) : Z :=
  match perVote r id with
  | None => 0
  | Some b => at_type (perVoteType b) vt
  end.

Definition countAny (r : roundData) (vt : VoteType) : Z :=
  at_type (perVoteType (allVotes r)) vt.

Definition countFutureMessageSenders (r : roundData) : Z :=
  u64 (total (allVotes r) + uncountedProposerPower r).

(** ** [vote_counter.go] *)

(** At most this much voting power may be faulty. *)
Definition f (totalVotingPower : Z) : Z := u64 (totalVotingPower - 1) / 3.

Definition q (totalVotingPower : Z) : Z :=
  let d := u64 (totalVotingPower * 2) in
  let q := d / 3 in
  let r := d mod 3 in
  if 0 <? r then u64 (q + 1) else q.

Record VoteCounter := mkVoteCounter {
  currentHeight : Z;
  totalVotingPower : Z;
  faultyVotingPower : Z;
  quorumVotingPower : Z;
  roundMap : gmap Z roundData;
  futureMessages : gmap Z (gmap Z roundData);
}.

Context `{!Validators A}.

Definition New (height : Z) : VoteCounter :=
  let t := TotalVotingPower height in
  mkVoteCounter height t (f t) (q t) ∅ ∅.

Definition StartNewHeight (v : VoteCounter) : VoteCounter :=
  let h := u64 (currentHeight v + 1) in
  let t := TotalVotingPower h in
  match futureMessages v !! h with
  | None => mkVoteCounter h t (f t) (q t) ∅ (futureMessages v)
  | Some rs => mkVoteCounter h t (f t) (q t) rs (delete h (futureMessages v))
  end.

(** [getOrCreateRoundData]: the map with the entry present, and the entry. *)
Definition getOrCreateRoundData (rs : gmap Z roundData) (round : Z)
  : roundData * gmap Z roundData :=
  match rs !! round with
  | Some e => (e, rs)
  | None => (newRoundData, <[round := newRoundData]> rs)
  end.

Definition getRoundData (v : VoteCounter) (height round : Z)
  : option roundData * VoteCounter :=
  if height <? currentHeight v then (None, v)
  else if height =? currentHeight v then
    let '(e, rs) := getOrCreateRoundData (roundMap v) round in
    (Some e, mkVoteCounter (currentHeight v) (totalVotingPower v)
               (faultyVotingPower v) (quorumVotingPower v) rs (futureMessages v))
  else
    let '(e, rs) :=
      getOrCreateRoundData (default ∅ (futureMessages v !! height)) round in
    (Some e, mkVoteCounter (currentHeight v) (totalVotingPower v)
               (faultyVotingPower v) (quorumVotingPower v) (roundMap v)
               (<[height := rs]> (futureMessages v))).

(** Writing through the pointer [getRoundData] returned. *)
Definition putRoundData (v : VoteCounter) (height round : Z) (r : roundData)
  : VoteCounter :=
  if height =? currentHeight v then
    mkVoteCounter (currentHeight v) (totalVotingPower v)
      (faultyVotingPower v) (quorumVotingPower v)
      (<[round := r]> (roundMap v)) (futureMessages v)
  else
    mkVoteCounter (currentHeight v) (totalVotingPower v)
      (faultyVotingPower v) (quorumVotingPower v) (roundMap v)
      (<[height := <[round := r]> (default ∅ (futureMessages v !! height))]>
         (futureMessages v)).

Definition AddProposal (v : VoteCounter) (p : Proposal V A) : bool * VoteCounter :=
  let hd := proposal_header p in
  let '(o, v1) := getRoundData v (Height hd) (Round hd) in
  match o with
  | None => (false, v1)
  | Some r =>
      if bool_decide (Sender hd = Proposer (Height hd) (Round hd)) then
        let votingPower := ValidatorVotingPower (Height hd) (Sender hd) in
        let '(ok, r') := setProposal r p votingPower in
        (ok, putRoundData v1 (Height hd) (Round hd) r')
      else (false, v1)
  end.

(** The common body of [AddPrevote] and [AddPrecommit]. *)
Definition AddVote (v : VoteCounter) (vote : Vote H A) (vt : VoteType)
  : bool * VoteCounter :=
  let hd := vote_header vote in
  let '(o, v1) := getRoundData v (Height hd) (Round hd) in
  match o with
  | None => (false, v1)
  | Some r =>
      let votingPower := ValidatorVotingPower (Height hd) (Sender hd) in
      let '(ok, r') := addVote r vote votingPower vt in
      (ok, putRoundData v1 (Height hd) (Round hd) r')
  end.

Definition AddPrevote (v : VoteCounter) (p : Vote H A) := AddVote v p Prevote.
Definition AddPrecommit (v : VoteCounter) (p : Vote H A) := AddVote v p Precommit.

Definition GetProposal (v : VoteCounter) (round : Z) : option (Proposal V A) :=
  match roundMap v !! round with
  | None => None
  | Some r => proposal r
  end.

Definition HasQuorumForVote (v : VoteCounter) (round : Z) (vt : VoteType)
    (id : option H) : bool :=
  match roundMap v !! round with
  | None => false
  | Some r => quorumVotingPower v <=? countVote r vt id
  end.

Definition HasQuorumForAny (v : VoteCounter) (round : Z) (vt : VoteType) : bool :=
  match roundMap v !! round with
  | None => false
  | Some r => quorumVotingPower v <=? countAny r vt
  end.

Definition HasFuturePrecommitQuorum (v : VoteCounter) (height round : Z)
    (id : option H) : bool * VoteCounter :=
  let '(o, v1) := getRoundData v height round in
  match o with
  | None => (false, v1)
  | Some r => (quorumVotingPower v1 <=? countVote r Precommit id, v1)
  end.

Definition HasNonFaultyFutureMessage (v : VoteCounter) (round : Z) : bool :=
  match roundMap v !! round with
  | None => false
  | Some r => faultyVotingPower v <? countFutureMessageSenders r
  end.

Definition RoundProposer (v : VoteCounter) (round : Z) : A :=
  Proposer (currentHeight v) round.

End definitions.
