(* ===== verification/VoteCounterFacts.v ===== *)
(** * Correctness of the vote counter

    Voting power of sets of validators, the invariant that every counter of
    [VoteCounter] is the power of a set of distinct voters, the thresholds and
    quorum intersection. *)
From stdpp Require Import prelude gmap fin_maps fin_map_dom.
From Stdlib Require Import ZArith Lia.
From S2P Require Import Prelude ConsensusTypes VoteCounter.

Local Open Scope Z_scope.

(** ** Voting power of a set of validators *)

Section power.
Context `{Countable A}.

Definition psum_list (power : A -> Z) (l : list A) : Z :=
  foldr (fun a acc => power a + acc) 0 l.

Definition psum (power : A -> Z) (X : gset A) : Z :=
  psum_list power (elements X).

Lemma psum_list_app power l k :
  psum_list power (l ++ k) = psum_list power l + psum_list power k.
Proof. induction l; simpl; lia. Qed.

#[global] Instance psum_list_perm power : Proper ((≡ₚ) ==> (=)) (psum_list power).
Proof. induction 1; simpl; lia. Qed.

Lemma psum_empty power : psum power ∅ = 0.
Proof. unfold psum. by rewrite elements_empty. Qed.

Lemma psum_disj_union power X Y :
  X ## Y -> psum power (X ∪ Y) = psum power X + psum power Y.
Proof.
  intros HXY. unfold psum. rewrite elements_disj_union by done.
  apply psum_list_app.
Qed.

Lemma psum_singleton power a : psum power {[a]} = power a.
Proof. unfold psum. rewrite elements_singleton. simpl. lia. Qed.

Lemma psum_insert power a X :
  a ∉ X -> psum power ({[a]} ∪ X) = power a + psum power X.
Proof.
  intros. rewrite psum_disj_union by set_solver. by rewrite psum_singleton.
Qed.

Lemma psum_nonneg power X : (forall a, 0 <= power a) -> 0 <= psum power X.
Proof.
  intros Hp. unfold psum.
  induction (elements X) as [|a l IH]; simpl; [lia|specialize (Hp a); lia].
Qed.

Lemma psum_subset power X Y :
  (forall a, 0 <= power a) -> X ⊆ Y -> psum power X <= psum power Y.
Proof.
  intros Hp HXY. rewrite (union_difference_L X Y) by done.
  rewrite psum_disj_union by set_solver.
  pose proof (psum_nonneg power (Y ∖ X) Hp). lia.
Qed.

Lemma psum_incl_excl power X Y :
  psum power (X ∪ Y) + psum power (X ∩ Y) = psum power X + psum power Y.
Proof.
  assert (HY : Y = (Y ∖ X) ∪ (X ∩ Y)).
  { apply set_eq. intros x. destruct (decide (x ∈ X)); set_solver. }
  assert (HU : X ∪ Y = X ∪ (Y ∖ X)).
  { apply set_eq. intros x. destruct (decide (x ∈ X)); set_solver. }
  rewrite HU. replace (psum power Y) with (psum power ((Y ∖ X) ∪ (X ∩ Y)))
    by (by rewrite <- HY).
  rewrite !psum_disj_union by set_solver. lia.
Qed.

End power.

Arguments psum : simpl never.

(** ** Laws of the validator set

    The powers are [uint]s, and the total is at least the power of any set of
    distinct validators: this is what [TotalVotingPower] "represents N" means.
    The thresholds double the total, so it has to fit in 63 bits. *)

Class ValidatorsLaws (A : Type) `{Countable A} `{!Validators A} : Prop := {
  power_nonneg h a : 0 <= ValidatorVotingPower h a;
  total_positive h : 0 < TotalVotingPower h;
  total_bounded h : TotalVotingPower h < 2 ^ 63;
  total_covers h X : psum (ValidatorVotingPower h) X <= TotalVotingPower h;
}.

(** ** The thresholds *)

(** [f] is the floor of (n-1)/3 and [q] the ceiling of 2n/3. *)
Lemma thresholds_exact n :
  0 < n < 2 ^ 63 ->
  f n = (n - 1) / 3 /\ q n = (2 * n + 2) / 3.
Proof.
  intros Hn. unfold f, q. rewrite !u64_small by lia.
  split; [done|].
  destruct (Z.ltb_spec 0 ((n * 2) mod 3)); [rewrite u64_small|]; Z.to_euclidean_division_equations; lia.
Qed.

Section facts.
Context {V H A : Type} `{Countable H} `{Countable A}.

Implicit Types (b : ballotSet (A:=A)) (r : roundData (V:=V) (H:=H) (A:=A)).

(** ** Ballots *)

Definition voters (b : ballotSet (A:=A)) (vt : VoteType) : gset A :=
  dom (filter (fun kv => at_type kv.2 vt = true) (ballots b)).

Lemma elem_of_voters b vt a :
  a ∈ voters b vt <-> exists bal, ballots b !! a = Some bal /\ at_type bal vt = true.
Proof.
  unfold voters. rewrite elem_of_dom. unfold is_Some.
  setoid_rewrite map_lookup_filter_Some. simpl. done.
Qed.

(** The counters are the powers of the sets of voters, modulo the width of the
    counter, and only senders of a vote have a ballot. *)
Record ballot_ok (power : A -> Z) (b : ballotSet (A:=A)) : Prop := {
  ballot_ok_type vt : at_type (perVoteType b) vt = u64 (psum power (voters b vt));
  ballot_ok_total : total b = u64 (psum power (dom (ballots b)));
  ballot_ok_dom : dom (ballots b) = voters b Prevote ∪ voters b Precommit;
}.

Lemma newBallotSet_ok power : ballot_ok power newBallotSet.
Proof.
  split; intros.
  - unfold voters; simpl. rewrite map_filter_empty, dom_empty_L, psum_empty.
    by destruct vt.
  - simpl. by rewrite dom_empty_L, psum_empty.
  - unfold voters; simpl. rewrite !map_filter_empty, !dom_empty_L. set_solver.
Qed.

(** What a ballot set is after a vote of [a], whatever its state before. *)
Lemma ballot_add_voters b a p vt added b' :
  ballot_add b a p vt = (added, b') ->
  voters b' vt = {[a]} ∪ voters b vt /\
  (forall vt', vt' ≠ vt -> voters b' vt' = voters b vt') /\
  dom (ballots b') = {[a]} ∪ dom (ballots b) /\
  added = bool_decide (a ∉ voters b vt).
Proof.
  intros E. unfold ballot_add in E.
  destruct (ballots b !! a) as [bal|] eqn:Ea; simpl in E.
  - rewrite Ea in E; simpl in E. destruct (at_type bal vt) eqn:Eb; simplify_eq/=.
    + assert (Hin : a ∈ voters b' vt) by (apply elem_of_voters; eauto).
      assert (a ∈ dom (ballots b')) by (apply elem_of_dom; eauto).
      split_and!; [set_solver|done|set_solver|].
      by rewrite bool_decide_false by set_solver.
    + assert (Hnin : a ∉ voters b vt).
      { rewrite elem_of_voters. intros (bal' & ? & ?). simplify_eq. congruence. }
      split_and!.
      * apply set_eq. intros x. rewrite elem_of_union, elem_of_singleton, !elem_of_voters.
        simpl. destruct (decide (x = a)) as [->|Hx].
        -- rewrite lookup_insert_eq. split; [by left|]. intros _. eexists. split; [done|].
           by destruct vt.
        -- rewrite lookup_insert_ne by done. naive_solver.
      * intros vt' Hvt. apply set_eq. intros x. rewrite !elem_of_voters. simpl.
        destruct (decide (x = a)) as [->|Hx].
        -- rewrite lookup_insert_eq, Ea. destruct vt, vt'; naive_solver.
        -- by rewrite lookup_insert_ne.
      * simpl. by rewrite dom_insert_L.
      * by rewrite bool_decide_true.
  - rewrite lookup_insert_eq in E; simpl in E.
    replace (at_type (false, false) vt) with false in E by (by destruct vt).
    simplify_eq/=.
    assert (Hnin : a ∉ voters b vt).
    { rewrite elem_of_voters. intros (bal' & ? & ?). simplify_eq. }
    split_and!.
    + apply set_eq. intros x. rewrite elem_of_union, elem_of_singleton, !elem_of_voters.
      simpl. destruct (decide (x = a)) as [->|Hx].
      * rewrite lookup_insert_eq. split; [by left|]. intros _. eexists. split; [done|].
        by destruct vt.
      * rewrite !lookup_insert_ne by done. naive_solver.
    + intros vt' Hvt. apply set_eq. intros x. rewrite !elem_of_voters. simpl.
      destruct (decide (x = a)) as [->|Hx].
      * rewrite lookup_insert_eq, Ea. destruct vt, vt'; naive_solver.
      * by rewrite !lookup_insert_ne.
    + rewrite !dom_insert_L. set_solver.
    + by rewrite bool_decide_true.
Qed.

Lemma psum_u64_insert (power : A -> Z) a (X : gset A) :
  a ∉ X -> u64 (u64 (psum power X) + power a) = u64 (psum power ({[a]} ∪ X)).
Proof.
  intros Ha. rewrite psum_insert by done. unfold u64.
  rewrite Zplus_mod_idemp_l. f_equal. lia.
Qed.

(** C-level effect of [ballot_add] on the counters. *)
Lemma ballot_add_counters b a p vt added b' :
  ballot_add b a p vt = (added, b') ->
  at_type (perVoteType b') vt =
    (if added then u64 (at_type (perVoteType b) vt + p) else at_type (perVoteType b) vt) /\
  (forall vt', vt' ≠ vt -> at_type (perVoteType b') vt' = at_type (perVoteType b) vt') /\
  total b' = match ballots b !! a with
             | Some _ => total b | None => u64 (total b + p) end.
Proof.
  intros E. unfold ballot_add in E.
  destruct (ballots b !! a) as [bal|] eqn:Ea; simpl in E.
  - rewrite Ea in E; simpl in E.
    destruct (at_type bal vt); simplify_eq/=; split_and!; try done;
      intros; destruct vt; try done; destruct vt'; done.
  - rewrite lookup_insert_eq in E; simpl in E.
    replace (at_type (false, false) vt) with false in E by (by destruct vt).
    simplify_eq/=; split_and!; try done;
      intros; destruct vt; try done; destruct vt'; done.
Qed.

Lemma ballot_add_ok power b a vt added b' :
  ballot_ok power b -> ballot_add b a (power a) vt = (added, b') -> ballot_ok power b'.
Proof.
  intros [Ht Htot Hdom] E.
  destruct (ballot_add_voters _ _ _ _ _ _ E) as (Hv & Hv' & Hd & Hadd).
  destruct (ballot_add_counters _ _ _ _ _ _ E) as (Hc & Hc' & Hctot).
  split.
  - intros vt'. destruct (decide (vt' = vt)) as [->|Hne].
    + rewrite Hc, Hv, Hadd. case_bool_decide.
      * rewrite Ht. by apply psum_u64_insert.
      * rewrite Ht. do 2 f_equal. set_solver.
    + by rewrite Hc', Hv' by done.
  - rewrite Hctot, Hd. destruct (ballots b !! a) eqn:Ea.
    + rewrite Htot. do 2 f_equal. apply mk_is_Some, elem_of_dom in Ea. set_solver.
    + rewrite Htot. apply psum_u64_insert. by apply not_elem_of_dom.
  - rewrite Hd, Hdom. destruct vt; rewrite Hv, Hv' by done; set_solver.
Qed.

(** A vote that is already counted changes nothing and is refused. *)
Lemma ballot_add_again b a p vt :
  a ∈ voters b vt -> ballot_add b a p vt = (false, b).
Proof.
  rewrite elem_of_voters. intros (bal & Ha & Hb). unfold ballot_add.
  rewrite Ha. simpl. by rewrite Ha; simpl; rewrite Hb.
Qed.

(** ** Rounds *)

(** The distinct senders of any message of the round. *)
Definition senders (r : roundData (V:=V) (H:=H) (A:=A)) : gset A :=
  dom (ballots (allVotes r)) ∪
  match proposal r with Some p => {[ Sender (proposal_header p) ]} | None => ∅ end.

Definition id_voters (r : roundData (V:=V) (H:=H) (A:=A)) (vt : VoteType)
    (id : option H) : gset A :=
  match perVote r id with Some b => voters b vt | None => ∅ end.

Record round_ok (power : A -> Z) (r : roundData (V:=V) (H:=H) (A:=A)) : Prop := {
  round_ok_all : ballot_ok power (allVotes r);
  round_ok_id id b : perVote r id = Some b -> ballot_ok power b;
  round_ok_union vt a :
    a ∈ voters (allVotes r) vt <-> exists id, a ∈ id_voters r vt id;
  round_ok_uncounted :
    uncountedProposerPower r =
      match proposal r with
      | None => 0
      | Some p => if decide (Sender (proposal_header p) ∈ dom (ballots (allVotes r)))
                  then 0 else power (Sender (proposal_header p))
      end;
}.

Lemma voters_newBallotSet vt : voters newBallotSet vt = ∅.
Proof. unfold voters; simpl. by rewrite map_filter_empty, dom_empty_L. Qed.

Lemma newRoundData_ok power : round_ok power newRoundData.
Proof.
  split.
  - apply newBallotSet_ok.
  - intros [i|] b Hb; simpl in Hb; [by rewrite lookup_empty in Hb|].
    simplify_eq. apply newBallotSet_ok.
  - intros vt a. simpl. rewrite voters_newBallotSet. split; [set_solver|].
    intros [[i|] Hi]; unfold id_voters in Hi; simpl in Hi.
    + rewrite lookup_empty in Hi. set_solver.
    + by rewrite voters_newBallotSet in Hi.
  - done.
Qed.

Lemma setProposal_ok power r p ok r' :
  round_ok power r ->
  setProposal r p (power (Sender (proposal_header p))) = (ok, r') ->
  round_ok power r'.
Proof.
  intros [Ha Hid Hu Hc] E. unfold setProposal in E.
  destruct (proposal r) eqn:Ep; [simplify_eq; by split; rewrite ?Ep|].
  simplify_eq. split; simpl; try done.
  set (s := Sender (proposal_header p)).
  destruct (ballots (allVotes r) !! s) as [bal|] eqn:Eb.
  - assert (Hs : s ∈ dom (ballots (allVotes r))) by (apply elem_of_dom; eauto).
    rewrite decide_True by done.
    rewrite (ballot_ok_dom _ _ Ha), elem_of_union, !elem_of_voters in Hs.
    destruct Hs as [(b' & ? & Hb')|(b' & ? & Hb')]; simplify_eq/=; rewrite Hb'; simpl;
      by rewrite ?andb_false_r.
  - by rewrite decide_False by (by apply not_elem_of_dom).
Qed.

Definition vote_set (r : roundData (V:=V) (H:=H) (A:=A)) (vote : Vote H A) :=
  default newBallotSet (perVote r (ID vote)).

(** The effect of [addVote] on the sets of voters. *)
Lemma addVote_spec r vote p vt ok r' :
  addVote r vote p vt = (ok, r') ->
  let s := Sender (vote_header vote) in
  exists all' pv' ok0,
    ballot_add (allVotes r) s p vt = (ok0, all') /\
    ballot_add (vote_set r vote) s p vt = (ok, pv') /\
    allVotes r' = all' /\ proposal r' = proposal r /\
    (forall id, perVote r' id =
       if decide (id = ID vote) then Some pv' else perVote r id) /\
    uncountedProposerPower r' =
      if (0 <? uncountedProposerPower r) &&
         match proposal r with
         | Some p => bool_decide (Sender (proposal_header p) = s)
         | None => false
         end
      then 0 else uncountedProposerPower r.
Proof.
  intros E. unfold addVote in E. fold (vote_set r vote) in E.
  destruct (ballot_add (allVotes r) _ _ _) as [ok0 all'] eqn:E1.
  destruct (ballot_add (vote_set r vote) _ _ _) as [ok' pv'] eqn:E2.
  simpl. exists all', pv', ok0. destruct (ID vote) as [i|] eqn:Ei; simplify_eq; simpl.
  - split_and!; try done. intros [j|]; simpl; [|done].
    rewrite lookup_insert. repeat case_decide; congruence.
  - split_and!; try done. intros [j|]; simpl; done.
Qed.

Lemma id_voters_vote_set r vote vt :
  voters (vote_set r vote) vt = id_voters r vt (ID vote).
Proof.
  unfold vote_set, id_voters. destruct (perVote r (ID vote)); simpl; [done|].
  apply voters_newBallotSet.
Qed.

(** Voters after a vote, for every identifier and type. *)
Lemma addVote_id_voters r vote p vt ok r' :
  addVote r vote p vt = (ok, r') ->
  (forall vt' id, id_voters r' vt' id =
     if decide (vt' = vt /\ id = ID vote)
     then {[ Sender (vote_header vote) ]} ∪ id_voters r vt' id else id_voters r vt' id) /\
  voters (allVotes r') vt = {[ Sender (vote_header vote) ]} ∪ voters (allVotes r) vt /\
  (forall vt', vt' ≠ vt -> voters (allVotes r') vt' = voters (allVotes r) vt') /\
  dom (ballots (allVotes r')) =
    {[ Sender (vote_header vote) ]} ∪ dom (ballots (allVotes r)) /\
  ok = bool_decide (Sender (vote_header vote) ∉ id_voters r vt (ID vote)).
Proof.
  intros E. apply addVote_spec in E as (all' & pv' & ok0 & E1 & E2 & Ha & _ & Hpv & _).
  apply ballot_add_voters in E1 as (A1 & A2 & A3 & A4).
  apply ballot_add_voters in E2 as (B1 & B2 & B3 & B4).
  rewrite id_voters_vote_set in B1, B4.
  rewrite Ha. split_and!; try done.
  intros vt' id. unfold id_voters at 1. rewrite Hpv.
  destruct (decide (id = ID vote)) as [->|];
    destruct (decide (vt' = vt /\ _)) as [[-> ?]|Hn]; try done.
  rewrite B2 by naive_solver. apply id_voters_vote_set.
Qed.

Lemma addVote_ok power r vote vt ok r' :
  (forall a, 0 <= power a) ->
  round_ok power r ->
  addVote r vote (power (Sender (vote_header vote))) vt = (ok, r') ->
  round_ok power r'.
Proof.
  intros Hp [Ha Hid Hu Hc] E.
  pose proof (addVote_id_voters _ _ _ _ _ _ E) as (Iv & Av & Av' & Ad & _).
  apply addVote_spec in E as (all' & pv' & ok0 & E1 & E2 & <- & Hpr & Hpv & Hunc).
  split.
  - eauto using ballot_add_ok.
  - intros id b. rewrite Hpv. case_decide; [|by apply Hid].
    intros [= <-]. eapply ballot_add_ok; [|done]. unfold vote_set.
    destruct (perVote r (ID vote)) eqn:Epv; simpl; [by eapply Hid|apply newBallotSet_ok].
  - intros vt' a. destruct (decide (vt' = vt)) as [->|Hne].
    + rewrite Av, elem_of_union, elem_of_singleton, Hu. split.
      * intros [->|[id Hin]].
        -- exists (ID vote). rewrite Iv, decide_True by done. set_solver.
        -- exists id. rewrite Iv. case_decide; set_solver.
      * intros [id Hin]. rewrite Iv in Hin. case_decide; [set_solver|]. eauto.
    + rewrite Av', Hu by done. apply exist_proper. intros id. rewrite Iv.
      case_decide; [naive_solver|done].
  - rewrite Hunc, Hpr, Hc, Ad. set (s := Sender (vote_header vote)).
    destruct (proposal r) as [p|]; simpl; [|by rewrite ?andb_false_r].
    set (ps := Sender (proposal_header p)). pose proof (Hp ps) as Hps.
    destruct (decide (ps = s)) as [->|Hne].
    + rewrite bool_decide_true, andb_true_r by done.
      rewrite (decide_True (P := s ∈ {[s]} ∪ _)) by set_solver.
      destruct (decide (s ∈ _)); bool_cases.
    + rewrite bool_decide_false, andb_false_r by done.
      destruct (decide (ps ∈ dom _)); [rewrite decide_True|rewrite decide_False];
        by set_solver.
Qed.

(** The power counted for an identifier is that of its voters. *)
Lemma countVote_voters power r vt id :
  round_ok power r -> countVote r vt id = u64 (psum power (id_voters r vt id)).
Proof.
  intros Hr. unfold countVote, id_voters. destruct (perVote r id) eqn:E.
  - by apply ballot_ok_type, (round_ok_id _ _ Hr id).
  - by rewrite psum_empty.
Qed.

Lemma countFutureMessageSenders_senders power r :
  round_ok power r -> countFutureMessageSenders r = u64 (psum power (senders r)).
Proof.
  intros [Ha _ _ Hc]. unfold countFutureMessageSenders, senders. rewrite Hc.
  rewrite (ballot_ok_total _ _ Ha).
  destruct (proposal r) as [p|]; [case_decide|].
  - replace (dom (ballots (allVotes r)) ∪ {[Sender (proposal_header p)]})
      with (dom (ballots (allVotes r))) by set_solver.
    rewrite Z.add_0_r. by apply Z.mod_mod.
  - rewrite union_comm_L. by apply psum_u64_insert.
  - rewrite union_empty_r_L, Z.add_0_r. by apply Z.mod_mod.
Qed.

End facts.

(** ** The counter *)

Section counter.
Context {V H A : Type} `{Countable H} `{Countable A} `{!Validators A}.

Implicit Types (v : VoteCounter (V:=V) (H:=H) (A:=A)).

(** The record of a round of the current or of a future height. *)
Definition slot (v : VoteCounter (V:=V) (H:=H) (A:=A)) (h r : Z) :=
  if h <? currentHeight v then None
  else if h =? currentHeight v then roundMap v !! r
  else default ∅ (futureMessages v !! h) !! r.

Definition same_params v v' : Prop :=
  currentHeight v' = currentHeight v /\ totalVotingPower v' = totalVotingPower v /\
  faultyVotingPower v' = faultyVotingPower v /\ quorumVotingPower v' = quorumVotingPower v.

Lemma getRoundData_slot v (h r : Z) o v1 :
  getRoundData v h r = (o, v1) ->
  same_params v v1 /\
  (h < currentHeight v -> o = None /\ v1 = v) /\
  (currentHeight v <= h ->
     o = Some (default newRoundData (slot v h r)) /\
     forall h' (r' : Z), slot v1 h' r' =
       if decide (h' = h /\ r' = r) then o else slot v h' r').
Proof.
  intros E. unfold getRoundData, getOrCreateRoundData in E.
  destruct (Z.ltb_spec h (currentHeight v)).
  { simplify_eq. split; [done|]. split; [done|intros; lia]. }
  split; [by unfold same_params; destruct (h =? _); repeat case_match; simplify_eq|].
  split; [intros; lia|]. intros _. unfold slot.
  destruct (Z.ltb_spec h (currentHeight v)); [lia|].
  destruct (Z.eqb_spec h (currentHeight v)) as [->|Hne].
  - destruct (roundMap v !! r) eqn:Er; simplify_eq/=; split; try done; intros h' r';
      destruct (decide (_ /\ _)) as [[-> ->]|Hn]; bool_cases; try done.
    + by rewrite lookup_insert_eq.
    + rewrite lookup_insert_ne by naive_solver. done.
  - destruct (default ∅ (futureMessages v !! h) !! r) eqn:Er;
      simplify_eq/=; split; try done; intros h' r';
      destruct (decide (_ /\ _)) as [[-> ->]|Hn]; bool_cases; try done;
      rewrite ?lookup_insert_eq; simpl; rewrite ?lookup_insert_eq; try done;
      (destruct (decide (h' = h)) as [->|];
       [rewrite lookup_insert_eq; simpl; rewrite ?lookup_insert_ne by naive_solver
       |rewrite lookup_insert_ne by done]); done.
Qed.

Lemma putRoundData_slot v (h r : Z) rd :
  currentHeight v <= h ->
  same_params v (putRoundData v h r rd) /\
  forall h' (r' : Z), slot (putRoundData v h r rd) h' r' =
    if decide (h' = h /\ r' = r) then Some rd else slot v h' r'.
Proof.
  intros Hh. unfold putRoundData. split; [by destruct (h =? _)|].
  intros h' r'. unfold slot.
  destruct (Z.eqb_spec h (currentHeight v)) as [->|Hne]; simpl;
    destruct (decide (_ /\ _)) as [[-> ->]|Hn]; bool_cases; try done.
  - by rewrite lookup_insert_eq.
  - by rewrite lookup_insert_ne by naive_solver.
  - by rewrite lookup_insert_eq; simpl; rewrite lookup_insert_eq.
  - destruct (decide (h' = h)) as [->|].
    + rewrite lookup_insert_eq; simpl. by rewrite lookup_insert_ne by naive_solver.
    + by rewrite lookup_insert_ne.
Qed.

Lemma StartNewHeight_slot v (h r : Z) :
  currentHeight v < 2 ^ 64 - 1 -> 0 <= currentHeight v ->
  slot (StartNewHeight v) h r = if h <=? currentHeight v then None else slot v h r.
Proof.
  intros Hmax Hmin. unfold StartNewHeight. rewrite u64_small by lia. unfold slot.
  destruct (futureMessages v !! (currentHeight v + 1)) eqn:E; simpl; bool_cases;
    simplify_eq/=; try done.
  - by rewrite E.
  - by rewrite lookup_delete_ne by lia.
  - by rewrite E.
Qed.

(** The record a message for height [h] and round [r] is added to. *)
Definition slot_or_new v (h r : Z) := default newRoundData (slot v h r).

Lemma AddProposal_slot v p ok v' :
  AddProposal v p = (ok, v') ->
  let hd := proposal_header p in
  same_params v v' /\
  (Height hd < currentHeight v -> ok = false /\ v' = v) /\
  (currentHeight v <= Height hd -> exists rd',
     (if decide (Sender hd = Proposer (Height hd) (Round hd))
      then setProposal (slot_or_new v (Height hd) (Round hd)) p
             (ValidatorVotingPower (Height hd) (Sender hd))
      else (false, slot_or_new v (Height hd) (Round hd))) = (ok, rd') /\
     forall h' (r' : Z), slot v' h' r' =
       if decide (h' = Height hd /\ r' = Round hd) then Some rd' else slot v h' r').
Proof.
  intros E. simpl. unfold AddProposal in E. simpl in E.
  destruct (getRoundData v _ _) as [o v1] eqn:Eg.
  destruct (getRoundData_slot _ _ _ _ _ Eg) as (Hs & Hlt & Hge).
  destruct (Z.lt_ge_cases (Height (proposal_header p)) (currentHeight v)) as [Hh|Hh].
  { destruct (Hlt Hh) as [-> ->]. simplify_eq. split; [done|]. split; [done|lia]. }
  destruct (Hge Hh) as [-> Hslot]. clear Hlt Hge.
  case_bool_decide as Hp; [rewrite decide_True by done|rewrite decide_False by done].
  - destruct (setProposal _ _ _) as [ok0 rd'] eqn:Es. simplify_eq.
    destruct (putRoundData_slot v1 (Height (proposal_header p)) (Round (proposal_header p)) rd')
      as [Hs' Hput]; [unfold same_params in Hs; lia|].
    split; [unfold same_params in *; naive_solver congruence|]. split; [intros; lia|].
    intros _. exists rd'. split; [done|]. intros h' r'. rewrite Hput, Hslot.
    by repeat case_decide.
  - simplify_eq. split; [done|]. split; [intros; lia|]. intros _. by eexists.
Qed.

Lemma AddVote_slot v vote vt ok v' :
  AddVote v vote vt = (ok, v') ->
  let hd := vote_header vote in
  same_params v v' /\
  (Height hd < currentHeight v -> ok = false /\ v' = v) /\
  (currentHeight v <= Height hd -> exists rd',
     addVote (slot_or_new v (Height hd) (Round hd)) vote
       (ValidatorVotingPower (Height hd) (Sender hd)) vt = (ok, rd') /\
     forall h' (r' : Z), slot v' h' r' =
       if decide (h' = Height hd /\ r' = Round hd) then Some rd' else slot v h' r').
Proof.
  intros E. simpl. unfold AddVote in E. simpl in E.
  destruct (getRoundData v _ _) as [o v1] eqn:Eg.
  destruct (getRoundData_slot _ _ _ _ _ Eg) as (Hs & Hlt & Hge).
  destruct (Z.lt_ge_cases (Height (vote_header vote)) (currentHeight v)) as [Hh|Hh].
  { destruct (Hlt Hh) as [-> ->]. simplify_eq. split; [done|]. split; [done|lia]. }
  destruct (Hge Hh) as [-> Hslot]. clear Hlt Hge.
  destruct (addVote _ _ _ _) as [ok0 rd'] eqn:Es. simplify_eq.
  destruct (putRoundData_slot v1 (Height (vote_header vote)) (Round (vote_header vote)) rd')
    as [Hs' Hput]; [unfold same_params in Hs; lia|].
  split; [unfold same_params in *; naive_solver congruence|]. split; [intros; lia|].
  intros _. exists rd'. split; [done|]. intros h' r'. rewrite Hput, Hslot.
  by repeat case_decide.
Qed.

Lemma HasFuturePrecommitQuorum_slot v (h r : Z) id ok v' :
  HasFuturePrecommitQuorum v h r id = (ok, v') ->
  same_params v v' /\
  forall h' (r' : Z), slot v' h' r' =
    if decide (h' = h /\ r' = r /\ currentHeight v <= h)
    then Some (slot_or_new v h r) else slot v h' r'.
Proof.
  intros E. unfold HasFuturePrecommitQuorum in E.
  destruct (getRoundData v _ _) as [o v1] eqn:Eg.
  destruct (getRoundData_slot _ _ _ _ _ Eg) as (Hs & Hlt & Hge).
  destruct (Z.lt_ge_cases h (currentHeight v)) as [Hh|Hh].
  - destruct (Hlt Hh) as [-> ->]. simplify_eq. split; [done|]. intros h' r'.
    rewrite decide_False by lia. done.
  - destruct (Hge Hh) as [-> Hslot]. simplify_eq. split; [done|]. intros h' r'.
    rewrite Hslot. repeat case_decide; naive_solver.
Qed.

(** ** The invariant of the counter *)

Record slot_ok (h r : Z) (rd : roundData (V:=V) (H:=H) (A:=A)) : Prop := {
  slot_ok_round : round_ok (ValidatorVotingPower h) rd;
  slot_ok_proposal p : proposal rd = Some p ->
    proposal_header p = mkHeader h r (Proposer h r);
}.

Record counter_ok v : Prop := {
  counter_ok_total : totalVotingPower v = TotalVotingPower (currentHeight v);
  counter_ok_faulty : faultyVotingPower v = f (TotalVotingPower (currentHeight v));
  counter_ok_quorum : quorumVotingPower v = q (TotalVotingPower (currentHeight v));
  counter_ok_slots h r rd : slot v h r = Some rd -> slot_ok h r rd;
}.

Lemma newRoundData_slot_ok h r : slot_ok h r newRoundData.
Proof. split; [apply newRoundData_ok|done]. Qed.

Lemma slot_or_new_ok v h r : counter_ok v -> slot_ok h r (slot_or_new v h r).
Proof.
  intros Hv. unfold slot_or_new. destruct (slot v h r) eqn:E; simpl.
  - by eapply counter_ok_slots.
  - apply newRoundData_slot_ok.
Qed.

Lemma New_counter_ok h : counter_ok (New h).
Proof.
  split; try done. intros h' r rd. unfold slot, New; simpl.
  bool_cases; rewrite ?lookup_empty; simpl; rewrite ?lookup_empty; done.
Qed.

(** Operations that keep the parameters and only touch slots. *)
Lemma counter_ok_update v v' :
  counter_ok v -> same_params v v' ->
  (forall h r rd, slot v' h r = Some rd -> slot_ok h r rd) -> counter_ok v'.
Proof.
  intros [H1' H2' H3' H4'] (E1 & E2 & E3 & E4) Hs. split; congruence || done.
Qed.

Context `{!ValidatorsLaws A}.

Lemma AddProposal_counter_ok v p ok v' :
  counter_ok v -> AddProposal v p = (ok, v') -> counter_ok v'.
Proof.
  intros Hv E. apply AddProposal_slot in E as (Hs & Hlt & Hge).
  destruct (Z.lt_ge_cases (Height (proposal_header p)) (currentHeight v)) as [Hh|Hh];
    [by destruct (Hlt Hh) as [_ ->]|].
  destruct (Hge Hh) as (rd' & Hset & Hslot).
  eapply counter_ok_update; [done..|]. intros h r rd. rewrite Hslot.
  destruct (decide (_ /\ _)) as [[-> ->]|]; [|by apply counter_ok_slots].
  intros [= <-]. pose proof (slot_or_new_ok v (Height (proposal_header p)) (Round (proposal_header p)) Hv) as [Ho Hp].
  destruct (decide (Sender _ = _)) as [Hse|]; [|simplify_eq; by split].
  split; [by eapply setProposal_ok|].
  intros p'. unfold setProposal in Hset. destruct (proposal (slot_or_new _ _ _)) eqn:Ep.
  - simplify_eq. intros Hp'. apply Hp. congruence.
  - simplify_eq; simpl. intros [= <-]. rewrite <- Hse. by destruct (proposal_header p).
Qed.

Lemma AddVote_counter_ok v vote vt ok v' :
  counter_ok v -> AddVote v vote vt = (ok, v') -> counter_ok v'.
Proof.
  intros Hv E. apply AddVote_slot in E as (Hs & Hlt & Hge).
  destruct (Z.lt_ge_cases (Height (vote_header vote)) (currentHeight v)) as [Hh|Hh];
    [by destruct (Hlt Hh) as [_ ->]|].
  destruct (Hge Hh) as (rd' & Hset & Hslot).
  eapply counter_ok_update; [done..|]. intros h r rd. rewrite Hslot.
  destruct (decide (_ /\ _)) as [[-> ->]|]; [|by apply counter_ok_slots].
  intros [= <-]. pose proof (slot_or_new_ok v (Height (vote_header vote)) (Round (vote_header vote)) Hv) as [Ho Hp].
  split; [by eapply addVote_ok; [apply power_nonneg|..]|].
  intros p'. apply addVote_spec in Hset as (? & ? & ? & _ & _ & _ & -> & _). apply Hp.
Qed.

Lemma HasFuturePrecommitQuorum_counter_ok v h r id ok v' :
  counter_ok v -> HasFuturePrecommitQuorum v h r id = (ok, v') -> counter_ok v'.
Proof.
  intros Hv E. apply HasFuturePrecommitQuorum_slot in E as [Hs Hslot].
  eapply counter_ok_update; [done..|]. intros h' r' rd. rewrite Hslot.
  destruct (decide (_ /\ _)) as [(-> & -> & _)|]; [|by apply counter_ok_slots].
  intros [= <-]. by apply slot_or_new_ok.
Qed.

Lemma StartNewHeight_counter_ok v :
  0 <= currentHeight v < 2 ^ 64 - 1 -> counter_ok v -> counter_ok (StartNewHeight v).
Proof.
  intros Hh Hv. split.
  1-3: unfold StartNewHeight; by case_match.
  intros h r rd. rewrite StartNewHeight_slot by lia.
  destruct (h <=? _); [done|]. by apply counter_ok_slots.
Qed.

(** ** Quorums *)

(** The validators whose vote of a type for [id] is counted for a round. *)
Definition round_voters v (h r : Z) (vt : VoteType) (id : option H) : gset A :=
  match slot v h r with Some rd => id_voters rd vt id | None => ∅ end.

Lemma power_bound h (X : gset A) : is_u64 (psum (ValidatorVotingPower h) X).
Proof.
  pose proof (total_bounded h). pose proof (total_covers h X).
  pose proof (psum_nonneg (ValidatorVotingPower h) X (power_nonneg h)). lia.
Qed.

Lemma slot_current v (r : Z) : slot v (currentHeight v) r = roundMap v !! r.
Proof. unfold slot. by rewrite Z.ltb_irrefl, Z.eqb_refl. Qed.

Lemma q_positive h : 0 < q (TotalVotingPower h).
Proof.
  pose proof (total_positive h). pose proof (total_bounded h).
  destruct (thresholds_exact (TotalVotingPower h)) as [_ ->]; [lia|].
  Z.to_euclidean_division_equations; lia.
Qed.

Lemma HasQuorumForVote_voters v r vt id :
  counter_ok v ->
  HasQuorumForVote v r vt id = true <->
  q (TotalVotingPower (currentHeight v)) <=
    psum (ValidatorVotingPower (currentHeight v)) (round_voters v (currentHeight v) r vt id).
Proof.
  intros Hv. unfold HasQuorumForVote, round_voters.
  rewrite slot_current, (counter_ok_quorum _ Hv).
  pose proof (counter_ok_slots _ Hv (currentHeight v) r) as Hs.
  rewrite slot_current in Hs.
  destruct (roundMap v !! r) as [rd|].
  - destruct (Hs _ eq_refl) as [Hr _].
    rewrite (countVote_voters _ _ _ _ Hr), u64_small by apply power_bound.
    apply Z.leb_le.
  - rewrite psum_empty. pose proof (q_positive (currentHeight v)). split; [done|lia].
Qed.

(** Quorums grow: a counter that has seen more votes keeps its quorums. *)
Lemma HasQuorumForVote_mono v v' r vt id :
  counter_ok v -> counter_ok v' -> currentHeight v' = currentHeight v ->
  round_voters v (currentHeight v) r vt id ⊆ round_voters v' (currentHeight v) r vt id ->
  HasQuorumForVote v r vt id = true -> HasQuorumForVote v' r vt id = true.
Proof.
  intros Hv Hv' Hh Hsub. rewrite !HasQuorumForVote_voters by done. rewrite Hh.
  pose proof (psum_subset _ _ _ (power_nonneg (currentHeight v)) Hsub). lia.
Qed.

(** ** Runs of the counter

    A run is a sequence of calls.  The counter is then a function of the
    messages received: the voters of a round are the distinct senders of its
    votes. *)

Inductive counter_op : Type :=
| OpProposal (p : Proposal V A)
| OpVote (vt : VoteType) (vote : Vote H A)
| OpStartNewHeight
| OpFutureQuorum (h r : Z) (id : option H).

Definition apply_op v (op : counter_op) : VoteCounter (V:=V) (H:=H) (A:=A) :=
  match op with
  | OpProposal p => (AddProposal v p).2
  | OpVote vt vote => (AddVote v vote vt).2
  | OpStartNewHeight => StartNewHeight v
  | OpFutureQuorum h r id => (HasFuturePrecommitQuorum v h r id).2
  end.

Definition run_counter (h0 : Z) (ops : list counter_op) := foldl apply_op (New h0) ops.

Definition is_new_height (op : counter_op) : bool :=
  match op with OpStartNewHeight => true | _ => false end.

Definition height_after (h0 : Z) (ops : list counter_op) : Z :=
  h0 + Z.of_nat (length (List.filter is_new_height ops)).

(** The senders of the votes of a run for an identifier. *)
Definition votes_for (ops : list counter_op) (h r : Z) (vt : VoteType) (id : option H)
  : gset A :=
  list_to_set (omap (fun op =>
    match op with
    | OpVote vt' vote =>
        if decide (Height (vote_header vote) = h /\ Round (vote_header vote) = r /\
                   vt' = vt /\ ID vote = id)
        then Some (Sender (vote_header vote)) else None
    | _ => None
    end) ops).

(** The senders of any vote, or of a proposal by the round's proposer. *)
Definition senders_in (ops : list counter_op) (h r : Z) : gset A :=
  list_to_set (omap (fun op =>
    match op with
    | OpVote _ vote =>
        if decide (Height (vote_header vote) = h /\ Round (vote_header vote) = r)
        then Some (Sender (vote_header vote)) else None
    | OpProposal p =>
        if decide (Height (proposal_header p) = h /\ Round (proposal_header p) = r /\
                   Sender (proposal_header p) = Proposer h r)
        then Some (Sender (proposal_header p)) else None
    | _ => None
    end) ops).

Definition round_senders v (h r : Z) : gset A :=
  match slot v h r with Some rd => senders rd | None => ∅ end.

Lemma height_after_snoc h0 ops op :
  height_after h0 (ops ++ [op]) = height_after h0 ops + (if is_new_height op then 1 else 0).
Proof.
  unfold height_after. rewrite List.filter_app, length_app. simpl.
  destruct (is_new_height op); simpl; lia.
Qed.

Lemma height_after_ge h0 ops : h0 <= height_after h0 ops.
Proof. unfold height_after. lia. Qed.

Lemma votes_for_snoc ops op h r vt id :
  votes_for (ops ++ [op]) h r vt id = votes_for ops h r vt id ∪ votes_for [op] h r vt id.
Proof. unfold votes_for. by rewrite omap_app, list_to_set_app_L. Qed.

Lemma senders_in_snoc ops op h r :
  senders_in (ops ++ [op]) h r = senders_in ops h r ∪ senders_in [op] h r.
Proof. unfold senders_in. by rewrite omap_app, list_to_set_app_L. Qed.

Lemma round_voters_or_new v h r vt id :
  round_voters v h r vt id = id_voters (slot_or_new v h r) vt id.
Proof.
  unfold round_voters, slot_or_new. destruct (slot v h r); simpl; [done|].
  unfold id_voters. destruct id; simpl; [by rewrite lookup_empty|].
  by rewrite voters_newBallotSet.
Qed.

Lemma round_senders_or_new v h r : round_senders v h r = senders (slot_or_new v h r).
Proof.
  unfold round_senders, slot_or_new, senders. destruct (slot v h r); simpl; [done|].
  rewrite dom_empty_L. set_solver.
Qed.

Lemma AddVote_sets v vote vt0 h (r : Z) :
  currentHeight v <= h ->
  (forall vt id, round_voters (AddVote v vote vt0).2 h r vt id =
     round_voters v h r vt id ∪ votes_for [OpVote vt0 vote] h r vt id) /\
  round_senders (AddVote v vote vt0).2 h r =
    round_senders v h r ∪ senders_in [OpVote vt0 vote] h r.
Proof.
  intros Hcur. destruct (AddVote v vote vt0) as [ok v'] eqn:E. simpl.
  apply AddVote_slot in E as (Hs & Hlt & Hge). unfold votes_for, senders_in; simpl.
  setoid_rewrite round_voters_or_new. setoid_rewrite round_senders_or_new.
  destruct (Z.lt_ge_cases (Height (vote_header vote)) (currentHeight v)) as [Hh|Hh].
  { destruct (Hlt Hh) as [_ ->].
    split; intros; rewrite decide_False by (intros; lia); set_solver. }
  destruct (Hge Hh) as (rd' & Hadd & Hslot).
  pose proof (addVote_id_voters _ _ _ _ _ _ Hadd) as (Iv & _ & _ & Ad & _).
  assert (Hrd : slot_or_new v' h r =
    if decide (h = Height (vote_header vote) /\ r = Round (vote_header vote))
    then rd' else slot_or_new v h r).
  { unfold slot_or_new. rewrite Hslot. by destruct (decide (h = _ /\ _)). }
  rewrite Hrd. destruct (decide (h = _ /\ _)) as [[-> ->]|Hne].
  - split.
    + intros vt id. rewrite Iv.
      destruct (decide (vt = vt0 /\ id = ID vote)) as [[-> ->]|];
        [rewrite decide_True by done|rewrite decide_False by naive_solver];
        simpl; set_solver.
    + rewrite decide_True by done. simpl. unfold senders. rewrite Ad.
      apply addVote_spec in Hadd as (_ & _ & _ & _ & _ & _ & -> & _). set_solver.
  - split; intros; rewrite decide_False by naive_solver; set_solver.
Qed.

Lemma setProposal_sets h r rd p ok rd' :
  slot_ok h r rd ->
  Sender (proposal_header p) = Proposer h r ->
  setProposal rd p (ValidatorVotingPower h (Sender (proposal_header p))) = (ok, rd') ->
  (forall vt id, id_voters rd' vt id = id_voters rd vt id) /\
  senders rd' = senders rd ∪ {[ Sender (proposal_header p) ]}.
Proof.
  intros [_ Hp] Hsend E. unfold setProposal in E. unfold senders.
  destruct (proposal rd) as [p0|] eqn:Ep; simplify_eq; simpl.
  - split; [done|]. rewrite Ep, (Hp _ eq_refl). simpl. rewrite Hsend. set_solver.
  - split; [done|]. set_solver.
Qed.

Lemma AddProposal_sets v p h (r : Z) :
  counter_ok v -> currentHeight v <= h ->
  (forall vt id, round_voters (AddProposal v p).2 h r vt id = round_voters v h r vt id) /\
  round_senders (AddProposal v p).2 h r =
    round_senders v h r ∪ senders_in [OpProposal p] h r.
Proof.
  intros Hv Hcur. destruct (AddProposal v p) as [ok v'] eqn:E. simpl.
  apply AddProposal_slot in E as (Hs & Hlt & Hge). unfold senders_in; simpl.
  setoid_rewrite round_voters_or_new. setoid_rewrite round_senders_or_new.
  destruct (Z.lt_ge_cases (Height (proposal_header p)) (currentHeight v)) as [Hh|Hh].
  { destruct (Hlt Hh) as [_ ->]. split; [done|].
    rewrite decide_False by (intros; lia). set_solver. }
  destruct (Hge Hh) as (rd' & Hset & Hslot).
  assert (Hrd : slot_or_new v' h r =
    if decide (h = Height (proposal_header p) /\ r = Round (proposal_header p))
    then rd' else slot_or_new v h r).
  { unfold slot_or_new. rewrite Hslot. by destruct (decide (h = _ /\ _)). }
  rewrite Hrd. destruct (decide (h = _ /\ _)) as [[-> ->]|Hne].
  - destruct (decide (Sender _ = _)) as [Hse|Hse].
    + rewrite decide_True by done. simpl.
      destruct (setProposal_sets _ _ _ _ _ _ (slot_or_new_ok v _ _ Hv) Hse Hset)
        as [Hids ->]. split; [done|]. by rewrite union_empty_r_L.
    + rewrite decide_False by naive_solver. injection Hset as _ <-.
      split; [done|]. simpl. by rewrite union_empty_r_L.
  - split; [done|]. rewrite decide_False by naive_solver. simpl. by rewrite union_empty_r_L.
Qed.

Lemma HasFuturePrecommitQuorum_sets v h0 r0 id0 h (r : Z) :
  (forall vt id, round_voters (HasFuturePrecommitQuorum v h0 r0 id0).2 h r vt id =
     round_voters v h r vt id) /\
  round_senders (HasFuturePrecommitQuorum v h0 r0 id0).2 h r = round_senders v h r.
Proof.
  destruct (HasFuturePrecommitQuorum _ _ _ _) as [ok v'] eqn:E. simpl.
  apply HasFuturePrecommitQuorum_slot in E as [_ Hslot].
  setoid_rewrite round_voters_or_new. rewrite !round_senders_or_new.
  assert (slot_or_new v' h r = slot_or_new v h r) as ->; [|done].
  unfold slot_or_new. rewrite Hslot.
  by destruct (decide _) as [(-> & -> & _)|]; unfold slot_or_new.
Qed.

Lemma StartNewHeight_sets v h (r : Z) :
  0 <= currentHeight v < 2 ^ 64 - 1 -> currentHeight v < h ->
  (forall vt id, round_voters (StartNewHeight v) h r vt id = round_voters v h r vt id) /\
  round_senders (StartNewHeight v) h r = round_senders v h r.
Proof.
  intros Hh Hcur. unfold round_voters, round_senders.
  setoid_rewrite StartNewHeight_slot; [|lia..].
  destruct (Z.leb_spec h (currentHeight v)); [lia|done].
Qed.

Lemma StartNewHeight_height v :
  0 <= currentHeight v < 2 ^ 64 - 1 ->
  currentHeight (StartNewHeight v) = currentHeight v + 1.
Proof. intros. unfold StartNewHeight. rewrite u64_small by lia. by case_match. Qed.

Lemma votes_for_other op h r vt id :
  match op with OpVote _ _ => False | _ => True end -> votes_for [op] h r vt id = ∅.
Proof. by destruct op. Qed.

(** One call keeps the invariant and adds exactly the sender of its message. *)
Lemma apply_op_spec v op :
  counter_ok v -> 0 <= currentHeight v ->
  currentHeight v + (if is_new_height op then 1 else 0) < 2 ^ 64 ->
  let v' := apply_op v op in
  counter_ok v' /\
  currentHeight v' = currentHeight v + (if is_new_height op then 1 else 0) /\
  forall h r, currentHeight v' <= h ->
    (forall vt id, round_voters v' h r vt id =
       round_voters v h r vt id ∪ votes_for [op] h r vt id) /\
    round_senders v' h r = round_senders v h r ∪ senders_in [op] h r.
Proof.
  intros Hok Hh Hmax. destruct op as [p|vt' vote| |h' r' id']; simpl in *.
  - pose proof (AddProposal_counter_ok v p _ _ Hok (surjective_pairing _)).
    destruct (AddProposal_slot v p _ _ (surjective_pairing _)) as [[Hc _] _].
    split_and!; [done|lia|]. intros h r Hle. rewrite Hc in Hle.
    destruct (AddProposal_sets v p h r) as [H1' ->]; [done..|]. split; [|done].
    intros. rewrite H1', votes_for_other by done. set_solver.
  - pose proof (AddVote_counter_ok v vote vt' _ _ Hok (surjective_pairing _)).
    destruct (AddVote_slot v vote vt' _ _ (surjective_pairing _)) as [[Hc _] _].
    split_and!; [done|lia|]. intros h r Hle. rewrite Hc in Hle. by apply AddVote_sets.
  - rewrite StartNewHeight_height by lia.
    split_and!; [apply StartNewHeight_counter_ok; [lia|done]|lia|].
    intros h r Hle. destruct (StartNewHeight_sets v h r) as [H1' ->]; [lia..|].
    split; [|set_solver]. intros. rewrite H1', votes_for_other by done. set_solver.
  - pose proof (HasFuturePrecommitQuorum_counter_ok v h' r' id' _ _ Hok (surjective_pairing _)).
    destruct (HasFuturePrecommitQuorum_slot v h' r' id' _ _ (surjective_pairing _)) as [[Hc _] _].
    split_and!; [done|lia|]. intros h r Hle.
    destruct (HasFuturePrecommitQuorum_sets v h' r' id' h r) as [H1' ->].
    split; [|set_solver]. intros. rewrite H1', votes_for_other by done. set_solver.
Qed.

Lemma New_sets h0 h (r : Z) :
  (forall vt id, round_voters (New h0) h r vt id = ∅) /\ round_senders (New h0) h r = ∅.
Proof.
  unfold round_voters, round_senders.
  assert (slot (New h0) h r = None) as ->; [|done].
  unfold slot; simpl. bool_cases; rewrite ?lookup_empty; simpl; by rewrite ?lookup_empty.
Qed.

(** The state of the counter after a run. *)
Lemma run_counter_spec h0 ops :
  0 <= h0 -> height_after h0 ops < 2 ^ 64 ->
  let v := run_counter h0 ops in
  counter_ok v /\ currentHeight v = height_after h0 ops /\
  forall h r, currentHeight v <= h ->
    (forall vt id, round_voters v h r vt id = votes_for ops h r vt id) /\
    round_senders v h r = senders_in ops h r.
Proof.
  intros Hh0. induction ops as [|op ops IH] using rev_ind; intros Hmax; simpl.
  - split_and!; [apply New_counter_ok|unfold height_after; simpl; lia|].
    intros h r _. apply New_sets.
  - rewrite height_after_snoc in *. pose proof (height_after_ge h0 ops) as Hge.
    destruct IH as (Hok & Hcur & Hsets); [destruct (is_new_height op); lia|].
    unfold run_counter in *. rewrite foldl_snoc.
    set (v := foldl apply_op (New h0) ops) in *.
    destruct (apply_op_spec v op) as (Hok' & Hcur' & Hsets'); [done|lia..|].
    split_and!; [done|lia|]. intros h r Hle.
    destruct (Hsets' h r Hle) as [H1' ->].
    destruct (Hsets h r) as [H2' ->]; [destruct (is_new_height op); lia|].
    split; [|by rewrite senders_in_snoc]. intros. by rewrite H1', H2', votes_for_snoc.
Qed.

Lemma HasNonFaultyFutureMessage_senders v r :
  counter_ok v ->
  HasNonFaultyFutureMessage v r = true <->
  f (TotalVotingPower (currentHeight v)) <
    psum (ValidatorVotingPower (currentHeight v)) (round_senders v (currentHeight v) r).
Proof.
  intros Hv. unfold HasNonFaultyFutureMessage, round_senders.
  rewrite slot_current, (counter_ok_faulty _ Hv).
  pose proof (counter_ok_slots _ Hv (currentHeight v) r) as Hs.
  rewrite slot_current in Hs.
  destruct (roundMap v !! r) as [rd|].
  - destruct (Hs _ eq_refl) as [Hr _].
    rewrite (countFutureMessageSenders_senders _ _ Hr), u64_small by apply power_bound.
    apply Z.ltb_lt.
  - rewrite psum_empty. split; [done|].
    pose proof (total_positive (currentHeight v)). pose proof (total_bounded (currentHeight v)).
    destruct (thresholds_exact (TotalVotingPower (currentHeight v))) as [-> _]; [lia|].
    Z.to_euclidean_division_equations; lia.
Qed.

(** Adding to a record that already has the vote leaves the record alone. *)
Lemma addVote_again (rd : roundData (V:=V) (H:=H) (A:=A)) vote p vt :
  round_ok (ValidatorVotingPower (Height (vote_header vote))) rd ->
  Sender (vote_header vote) ∈ id_voters rd vt (ID vote) ->
  addVote rd vote p vt = (false, rd).
Proof.
  intros Hr Hin.
  assert (Hall : Sender (vote_header vote) ∈ voters (allVotes rd) vt)
    by (apply (round_ok_union _ _ Hr); eauto).
  unfold addVote. rewrite (ballot_add_again (allVotes rd)) by done.
  rewrite ballot_add_again; [|by fold (vote_set rd vote); rewrite id_voters_vote_set].
  assert (Hunc : (if (0 <? uncountedProposerPower rd) &&
     match proposal rd with
     | Some p => bool_decide (Sender (proposal_header p) = Sender (vote_header vote))
     | None => false end then 0 else uncountedProposerPower rd) = uncountedProposerPower rd).
  { rewrite (round_ok_uncounted _ _ Hr). destruct (proposal rd) as [pr|]; [|done].
    case_decide; [by destruct (_ && _)|].
    rewrite bool_decide_false, andb_false_r; [done|]. intros Heq.
    rewrite Heq, (ballot_ok_dom _ _ (round_ok_all _ _ Hr)) in *.
    destruct vt; set_solver. }
  rewrite Hunc. f_equal. unfold id_voters in Hin.
  destruct (ID vote) as [i|]; simpl in *; [|by destruct rd].
  destruct (perIDVotes rd !! i) eqn:E; [|set_solver]. simpl.
  rewrite insert_id by done. by destruct rd.
Qed.

Lemma putRoundData_getRoundData v (h r : Z) rd v1 :
  getRoundData v h r = (Some rd, v1) -> putRoundData v1 h r rd = v1.
Proof.
  intros E. unfold getRoundData, getOrCreateRoundData in E.
  destruct (h <? currentHeight v); [done|]. unfold putRoundData.
  destruct (h =? currentHeight v) eqn:Eh.
  - destruct (roundMap v !! r) eqn:Er; simplify_eq/=; rewrite Eh; f_equal.
    + by apply insert_id.
    + by rewrite insert_insert_eq.
  - destruct (default ∅ (futureMessages v !! h) !! r) eqn:Er; simplify_eq/=; rewrite Eh; f_equal.
    + rewrite lookup_insert_eq; simpl. rewrite insert_insert_eq. f_equal. by apply insert_id.
    + rewrite lookup_insert_eq; simpl. by rewrite insert_insert_eq, insert_insert_eq.
Qed.

(** ** Properties *)

(** C8: after any sequence of calls the counter reports a quorum for an
    identifier (or for nil) exactly when the distinct validators that sent that
    vote for the current height and the round hold two thirds of the voting
    power; duplicates, votes of other types and heights never count. *)
Theorem quorum_two_thirds h0 ops r vt id :
  0 <= h0 -> height_after h0 ops < 2 ^ 64 ->
  let h := height_after h0 ops in
  HasQuorumForVote (run_counter h0 ops) r vt id = true <->
  2 * TotalVotingPower h <= 3 * psum (ValidatorVotingPower h) (votes_for ops h r vt id).
Proof.
  intros Hh0 Hmax h. destruct (run_counter_spec h0 ops) as (Hok & Hcur & Hsets); [done..|].
  rewrite HasQuorumForVote_voters, Hcur by done.
  destruct (Hsets (height_after h0 ops) r) as [-> _]; [lia|]. fold h.
  pose proof (total_positive h). pose proof (total_bounded h).
  destruct (thresholds_exact (TotalVotingPower h)) as [_ ->]; [lia|].
  Z.to_euclidean_division_equations; lia.
Qed.

(** the rule that lets a node skip to a later round fires exactly when the
    distinct senders of messages of that round (votes, or a proposal of the
    round's proposer) hold at least a third of the voting power, so that at
    least one of them is not faulty. *)
Theorem skip_round_one_third h0 ops r :
  0 <= h0 -> height_after h0 ops < 2 ^ 64 ->
  let h := height_after h0 ops in
  HasNonFaultyFutureMessage (run_counter h0 ops) r = true <->
  TotalVotingPower h <= 3 * psum (ValidatorVotingPower h) (senders_in ops h r).
Proof.
  intros Hh0 Hmax h. destruct (run_counter_spec h0 ops) as (Hok & Hcur & Hsets); [done..|].
  rewrite HasNonFaultyFutureMessage_senders, Hcur by done.
  destruct (Hsets (height_after h0 ops) r) as [_ ->]; [lia|]. fold h.
  pose proof (total_positive h). pose proof (total_bounded h).
  destruct (thresholds_exact (TotalVotingPower h)) as [-> _]; [lia|].
  Z.to_euclidean_division_equations; lia.
Qed.

(** two quorums reported by two nodes at the same height and round, for
    whatever identifiers, share validators with more than the tolerated faulty
    power [f], hence at least one correct validator. *)
Theorem quorum_intersection h0 h1 ops0 ops1 r vt id0 id1 :
  0 <= h0 -> 0 <= h1 -> height_after h0 ops0 < 2 ^ 64 ->
  height_after h1 ops1 = height_after h0 ops0 ->
  HasQuorumForVote (run_counter h0 ops0) r vt id0 = true ->
  HasQuorumForVote (run_counter h1 ops1) r vt id1 = true ->
  let h := height_after h0 ops0 in
  f (TotalVotingPower h) <
    psum (ValidatorVotingPower h) (votes_for ops0 h r vt id0 ∩ votes_for ops1 h r vt id1).
Proof.
  intros Hh0 Hh1 Hmax Heq Q0 Q1 h.
  destruct (run_counter_spec h0 ops0) as (Hok0 & Hcur0 & Hsets0); [done..|].
  destruct (run_counter_spec h1 ops1) as (Hok1 & Hcur1 & Hsets1); [lia..|].
  apply HasQuorumForVote_voters in Q0, Q1; [|done..].
  rewrite Hcur0 in Q0, Hsets0. rewrite Hcur1, Heq in Q1. rewrite Hcur1 in Hsets1.
  destruct (Hsets0 h r) as [HV0 _]; [lia|]. destruct (Hsets1 h r) as [HV1 _]; [lia|].
  fold h in Q0, Q1. rewrite HV0 in Q0. rewrite HV1 in Q1.
  pose proof (psum_incl_excl (ValidatorVotingPower h) (votes_for ops0 h r vt id0)
    (votes_for ops1 h r vt id1)).
  pose proof (total_covers h (votes_for ops0 h r vt id0 ∪ votes_for ops1 h r vt id1)).
  pose proof (total_positive h). pose proof (total_bounded h).
  destruct (thresholds_exact (TotalVotingPower h)) as [-> Hq]; [lia|]. rewrite Hq in *.
  Z.to_euclidean_division_equations; lia.
Qed.

(** A vote delivered a second time is refused and leaves the counter exactly
    as it was, whatever calls came before. *)
Theorem duplicate_vote_ignored h0 ops vote vt ok v' :
  0 <= h0 -> height_after h0 ops < 2 ^ 64 ->
  AddVote (run_counter h0 ops) vote vt = (ok, v') ->
  AddVote v' vote vt = (false, v').
Proof.
  intros Hh0 Hmax E. destruct (run_counter_spec h0 ops) as (Hok & Hcur & _); [done..|].
  pose proof (AddVote_counter_ok _ _ _ _ _ Hok E) as Hok'.
  apply AddVote_slot in E as ([Hc _] & Hlt & Hge).
  unfold AddVote. destruct (getRoundData v' _ _) as [o v1] eqn:Eg.
  destruct (getRoundData_slot _ _ _ _ _ Eg) as (_ & Glt & Gge).
  destruct (Z.lt_ge_cases (Height (vote_header vote)) (currentHeight v')) as [Hh|Hh].
  { by destruct (Glt Hh) as [-> ->]. }
  destruct (Gge Hh) as [-> _]. destruct Hge as (rd' & Hadd & Hslot); [lia|].
  assert (Hs : slot v' (Height (vote_header vote)) (Round (vote_header vote)) = Some rd')
    by (by rewrite Hslot, decide_True).
  rewrite Hs in Eg |- *. simpl in Eg |- *.
  destruct (counter_ok_slots _ Hok' _ _ _ Hs) as [Hr _].
  rewrite addVote_again; [|done|].
  - f_equal. eapply putRoundData_getRoundData in Eg as Ep.
    unfold getRoundData, getOrCreateRoundData in Eg. unfold slot in Hs. rewrite Ep.
    destruct (_ <? _); [done|]. destruct (_ =? _).
    + rewrite Hs in Eg. simplify_eq. by destruct v'.
    + rewrite Hs in Eg. simplify_eq. rewrite insert_id; [by destruct v'|].
      destruct (futureMessages v' !! _); [done|]. simpl in Hs. by rewrite lookup_empty in Hs.
  - apply addVote_id_voters in Hadd as (-> & _). rewrite decide_True by done. set_solver.
Qed.

End counter.
