(* ===== verification/Tendermint.v ===== *)
(** * The Tendermint state machine

    [src/consensus/tendermint]: the state of a validator and the handlers for
    the start of a height, for proposals, votes, timeouts and log entries.

    A method of [*stateMachine] is a computation of the monad [SM] over the
    record [stateMachine]; [Panic] is a nil dereference of the Go code.  The
    application (value proposal and validity) is an interface: it is a
    parameter with a state of its own, since two calls of [Value] may return
    different values.  Logging is left out. *)
From stdpp Require Import prelude gmap.
From Stdlib Require Import ZArith Lia.
From S2P Require Import Prelude ConsensusTypes VoteCounter.

Local Open Scope Z_scope.

(** The application the state machine asks for values and their validity. *)
Class Application (V AS : Type) := {
  app_Value : AS -> V * AS;
  app_Valid : AS -> V -> bool;
}.

Section definitions.
Context {V H A AS : Type} `{!Hashable V H} `{Countable H} `{Countable A}
  `{!Validators A} `{!Application V AS}.

(** ** [tendermint.go] *)

Record state := mkState {
  height : Z;
  round : Z;
  step : Z;
  lockedValue : option V;
  lockedRound : Z;
  validValue : option V;
  validRound : Z;
  timeoutPrevoteScheduled : bool;
  timeoutPrecommitScheduled : bool;
  lockedValueAndOrValidValueSet : bool;
}.

Record stateMachine := mkStateMachine {
  nodeAddr : A;
  st : state;
  voteCounter : VoteCounter (V:=V) (H:=H) (A:=A);
  application : AS;
  isHeightStarted : bool;
  lastTriggerSync : Z;
  lastQuorum : Z;
}.

Abbreviation SM := (SE stateMachine Empty_set).
Abbreviation action := (Action V H A).

Definition New (addr : A) (app : AS) (h : Z) : stateMachine :=
  mkStateMachine addr
    (mkState h 0 StepPropose None (-1) None (-1) false false false)
    (VoteCounter.New h) app false 0 0.

(** Field updates. *)
Definition set_st (s : stateMachine) (x : state) : stateMachine :=
  mkStateMachine (nodeAddr s) x (voteCounter s) (application s) (isHeightStarted s)
    (lastTriggerSync s) (lastQuorum s).

Definition set_voteCounter (s : stateMachine) (v : VoteCounter) : stateMachine :=
  mkStateMachine (nodeAddr s) (st s) v (application s) (isHeightStarted s)
    (lastTriggerSync s) (lastQuorum s).

Definition set_application (s : stateMachine) (app : AS) : stateMachine :=
  mkStateMachine (nodeAddr s) (st s) (voteCounter s) app (isHeightStarted s)
    (lastTriggerSync s) (lastQuorum s).

Definition set_started (s : stateMachine) (b : bool) : stateMachine :=
  mkStateMachine (nodeAddr s) (st s) (voteCounter s) (application s) b
    (lastTriggerSync s) (lastQuorum s).

Definition set_sync (s : stateMachine) (lts lq : Z) : stateMachine :=
  mkStateMachine (nodeAddr s) (st s) (voteCounter s) (application s) (isHeightStarted s)
    lts lq.

Definition set_step (x : state) (z : Z) : state :=
  mkState (height x) (round x) z (lockedValue x) (lockedRound x) (validValue x)
    (validRound x) (timeoutPrevoteScheduled x) (timeoutPrecommitScheduled x)
    (lockedValueAndOrValidValueSet x).

Definition set_locked (x : state) (v : option V) (r : Z) : state :=
  mkState (height x) (round x) (step x) v r (validValue x)
    (validRound x) (timeoutPrevoteScheduled x) (timeoutPrecommitScheduled x)
    (lockedValueAndOrValidValueSet x).

Definition set_valid (x : state) (v : option V) (r : Z) : state :=
  mkState (height x) (round x) (step x) (lockedValue x) (lockedRound x) v r
    (timeoutPrevoteScheduled x) (timeoutPrecommitScheduled x)
    (lockedValueAndOrValidValueSet x).

Definition set_flags (x : state) (pv pc lv : bool) : state :=
  mkState (height x) (round x) (step x) (lockedValue x) (lockedRound x) (validValue x)
    (validRound x) pv pc lv.

Definition set_round (x : state) (r : Z) : state :=
  mkState (height x) r (step x) (lockedValue x) (lockedRound x) (validValue x)
    (validRound x) (timeoutPrevoteScheduled x) (timeoutPrecommitScheduled x)
    (lockedValueAndOrValidValueSet x).

Definition set_height (x : state) (h : Z) : state :=
  mkState h (round x) (step x) (lockedValue x) (lockedRound x) (validValue x)
    (validRound x) (timeoutPrevoteScheduled x) (timeoutPrecommitScheduled x)
    (lockedValueAndOrValidValueSet x).

Definition upd_st (g : state -> state) : SM unit := modify (fun s => set_st s (g (st s))).

(** A call of a method of the vote counter. *)
Definition counter_call {T} (g : VoteCounter (V:=V) (H:=H) (A:=A) -> T * VoteCounter)
  : SM T :=
  fun s => let '(x, v) := g (voteCounter s) in (Ok x, set_voteCounter s v).

Definition resetState (r : Z) : SM unit :=
  upd_st (fun x => set_flags (set_step (set_round x r) StepPropose) false false false).

Definition scheduleTimeout (stp : Z) : SM action :=
  x ← gets st; mret (ScheduleTimeout (mkTimeout stp (height x) (round x))).

Record CachedProposal := mkCached {
  cached : Proposal V A;
  Valid : bool;
  cached_ID : option H;
}.

Definition findProposal (r : Z) : SM (option CachedProposal) :=
  s ← get_state;
  match GetProposal (voteCounter s) r with
  | None => mret None
  | Some p =>
      v ← deref (Value p);
      mret (Some (mkCached p (app_Valid (application s) v) (Some (Hash v))))
  end.

(** ** [broadcast.go] *)

Definition own_header : SM (MessageHeader A) :=
  s ← get_state; mret (mkHeader (height (st s)) (round (st s)) (nodeAddr s)).

Definition sendProposal (value : option V) : SM action :=
  hd ← own_header;
  x ← gets st;
  let p := mkProposal hd (validRound x) value in
  _ ← counter_call (fun v => AddProposal v p);
  mret (BroadcastProposal p).

Definition setStepAndSendPrevote (id : option H) : SM action :=
  hd ← own_header;
  let vote := mkVote hd id in
  _ ← counter_call (fun v => AddPrevote v vote);
  upd_st (fun x => set_step x StepPrevote);;
  mret (BroadcastPrevote vote).

Definition setStepAndSendPrecommit (id : option H) : SM action :=
  hd ← own_header;
  let vote := mkVote hd id in
  _ ← counter_call (fun v => AddPrecommit v vote);
  upd_st (fun x => set_step x StepPrecommit);;
  mret (BroadcastPrecommit vote).

Definition startRound (r : Z) : SM action :=
  resetState r;;
  s ← get_state;
  if bool_decide (RoundProposer (voteCounter s) r = nodeAddr s) then
    proposalValue ←
      match validValue (st s) with
      | Some v => mret v
      | None =>
          let '(v, app) := app_Value (application s) in
          modify (fun s => set_application s app);; mret v
      end;
    sendProposal (Some proposalValue)
  else scheduleTimeout StepPropose.

(** ** The rules *)

(** [rule_first_proposal.go], line 22 of the algorithm. *)
Definition uponFirstProposal (s : stateMachine) (c : CachedProposal) : bool :=
  (ValidRound (cached c) =? -1) && (step (st s) =? StepPropose).

(** The hash of the locked value against the identifier: [*cachedProposal.ID]
    panics on nil. *)
Definition lockedHashIs (lv : V) (id : option H) : SM bool :=
  i ← deref id; mret (bool_decide (Hash lv = i)).

Definition doFirstProposal (c : CachedProposal) : SM action :=
  x ← gets st;
  shouldVoteForValue ←
    (if Valid c then
       if lockedRound x =? -1 then mret true
       else match lockedValue x with
            | Some lv => lockedHashIs lv (cached_ID c)
            | None => mret false
            end
     else mret false);
  setStepAndSendPrevote (if (shouldVoteForValue : bool) then cached_ID c else None).

(** [rule_proposal_and_polka_previous.go], line 28. *)
Definition uponProposalAndPolkaPrevious (s : stateMachine) (c : CachedProposal) : bool :=
  let vr := ValidRound (cached c) in
  let hasQuorum := bool_decide (is_Some (cached_ID c)) &&
    HasQuorumForVote (voteCounter s) vr Prevote (cached_ID c) in
  hasQuorum && (step (st s) =? StepPropose) && (0 <=? vr) && (vr <? round (st s)).

Definition doProposalAndPolkaPrevious (c : CachedProposal) : SM action :=
  x ← gets st;
  shouldVoteForValue ←
    (if Valid c then
       if lockedRound x <=? ValidRound (cached c) then mret true
       else match lockedValue x with
            | Some lv =>
                match cached_ID c with
                | Some _ => lockedHashIs lv (cached_ID c)
                | None => mret false
                end
            | None => mret false
            end
     else mret false);
  setStepAndSendPrevote (if (shouldVoteForValue : bool) then cached_ID c else None).

(** [rule_polka_any.go], line 34. *)
Definition uponPolkaAny (s : stateMachine) : bool :=
  (step (st s) =? StepPrevote) &&
  HasQuorumForAny (voteCounter s) (round (st s)) Prevote &&
  negb (timeoutPrevoteScheduled (st s)).

Definition doPolkaAny : SM action :=
  upd_st (fun x => set_flags x true (timeoutPrecommitScheduled x)
                     (lockedValueAndOrValidValueSet x));;
  scheduleTimeout StepPrevote.

(** [rule_proposal_and_polka_current.go], line 36. *)
Definition uponProposalAndPolkaCurrent (s : stateMachine) (c : CachedProposal) : bool :=
  let hasQuorum := bool_decide (is_Some (cached_ID c)) &&
    HasQuorumForVote (voteCounter s) (round (st s)) Prevote (cached_ID c) in
  hasQuorum && Valid c && (StepPrevote <=? step (st s)) &&
  negb (lockedValueAndOrValidValueSet (st s)).

Definition doProposalAndPolkaCurrent (c : CachedProposal) : SM (option action) :=
  x ← gets st;
  a ← (if step x =? StepPrevote then
         upd_st (fun x => set_locked x (Value (cached c)) (round x));;
         a ← setStepAndSendPrecommit (cached_ID c);
         mret (Some a)
       else mret None);
  upd_st (fun x =>
    set_flags (set_valid x (Value (cached c)) (round x))
      (timeoutPrevoteScheduled x) (timeoutPrecommitScheduled x) true);;
  mret a.

(** [rule_polka_nil.go], line 44. *)
Definition uponPolkaNil (s : stateMachine) : bool :=
  HasQuorumForVote (voteCounter s) (round (st s)) Prevote None &&
  (step (st s) =? StepPrevote).

Definition doPolkaNil : SM action := setStepAndSendPrecommit None.

(** [rule_precommit_any.go], line 47. *)
Definition uponPrecommitAny (s : stateMachine) : bool :=
  HasQuorumForAny (voteCounter s) (round (st s)) Precommit &&
  negb (timeoutPrecommitScheduled (st s)).

Definition doPrecommitAny : SM action :=
  upd_st (fun x => set_flags x (timeoutPrevoteScheduled x) true
                     (lockedValueAndOrValidValueSet x));;
  scheduleTimeout StepPrecommit.

(** [rule_commit_value.go], line 49. *)
Definition uponCommitValue (s : stateMachine) (c : CachedProposal) : bool :=
  bool_decide (is_Some (cached_ID c)) &&
  HasQuorumForVote (voteCounter s) (Round (proposal_header (cached c))) Precommit
    (cached_ID c) &&
  Valid c.

Definition doCommitValue (c : CachedProposal) : SM action :=
  modify (fun s => set_voteCounter s (StartNewHeight (voteCounter s)));;
  upd_st (fun x => set_height x (u64 (height x + 1)));;
  upd_st (fun x => set_valid (set_locked x None (-1)) None (-1));;
  resetState 0;;
  modify (fun s => set_started s false);;
  mret (Commit (cached c)).

(** [rule_skip_round.go], line 55. *)
Definition uponSkipRound (s : stateMachine) (futureR : Z) : bool :=
  (round (st s) <? futureR) && HasNonFaultyFutureMessage (voteCounter s) futureR.

Definition doSkipRound (futureR : Z) : SM action := startRound futureR.

(** ** [process.go] *)

(** [c != nil && upon(c)], with the proposal when it holds. *)
Definition guard (c : option CachedProposal) (upon : CachedProposal -> bool)
  : option CachedProposal :=
  match c with
  | Some x => if upon x then Some x else None
  | None => None
  end.

(** An action and [true]: go on with the loop. *)
Definition continue_with (m : SM action) : SM (option action * bool) :=
  a ← m; mret (Some a, true).

Definition process (recentlyReceivedRound : option Z) : SM (option action * bool) :=
  s ← get_state;
  cachedProposal ← findProposal (round (st s));
  roundCachedProposal ←
    match recentlyReceivedRound with
    | Some r => findProposal r
    | None => mret cachedProposal
    end;
  match guard cachedProposal (uponFirstProposal s) with
  | Some c => continue_with (doFirstProposal c)
  | None =>
  match guard cachedProposal (uponProposalAndPolkaPrevious s) with
  | Some c => continue_with (doProposalAndPolkaPrevious c)
  | None =>
  if uponPolkaAny s then continue_with doPolkaAny else
  match guard cachedProposal (uponProposalAndPolkaCurrent s) with
  | Some c => a ← doProposalAndPolkaCurrent c; mret (a, true)
  | None =>
  if uponPolkaNil s then continue_with doPolkaNil else
  if uponPrecommitAny s then continue_with doPrecommitAny else
  match guard roundCachedProposal (uponCommitValue s) with
  | Some c => a ← doCommitValue c; mret (Some a, false)
  | None =>
  match recentlyReceivedRound with
  | Some r => if uponSkipRound s r then continue_with (doSkipRound r)
              else mret (None, false)
  | None => mret (None, false)
  end end end end end.

Fixpoint processLoop_fuel (fuel : nat) (resultActions : list action)
    (recentlyReceivedRound : option Z) : SM (list action) :=
  match fuel with
  | O => out_of_fuel
  | S k =>
      '(a, shouldContinue) ← process recentlyReceivedRound;
      let acts := match a with
                  | Some x => resultActions ++ [x]
                  | None => resultActions
                  end in
      if (shouldContinue : bool) then processLoop_fuel k acts recentlyReceivedRound
      else mret acts
  end.

(** Twelve iterations are always enough: see [processLoop_total]. *)
Definition processLoop (resultActions : list action) (recentlyReceivedRound : option Z)
  : SM (list action) :=
  processLoop_fuel 12 resultActions recentlyReceivedRound.

Definition ProcessStart (r : Z) : SM (list action) :=
  s ← get_state;
  if isHeightStarted s then mret []
  else
    modify (fun s => set_started s true);;
    a ← startRound r;
    processLoop [WriteWAL (WALStart OwnHeight); a] None.

Definition processMessage (hd : MessageHeader A) (e : walEntry V H A) : SM (list action) :=
  s ← get_state;
  if negb (Height hd =? height (st s)) then mret [WriteWAL e]
  else processLoop [WriteWAL e] (Some (Round hd)).

Definition ProcessProposal (p : Proposal V A) : SM (list action) :=
  added ← counter_call (fun v => AddProposal v p);
  started ← gets isHeightStarted;
  if negb added || negb started then mret []
  else processMessage (proposal_header p) (WALProposal p).

Definition ProcessPrevote (p : Vote H A) : SM (list action) :=
  added ← counter_call (fun v => AddPrevote v p);
  started ← gets isHeightStarted;
  if negb added || negb started then mret []
  else processMessage (vote_header p) (WALPrevote p).

Definition hasFuturePrecommitQuorum (p : Vote H A) : SM bool :=
  s ← get_state;
  if bool_decide (is_Some (ID p)) && (height (st s) <? Height (vote_header p)) &&
     (lastTriggerSync s <? Height (vote_header p))
  then counter_call (fun v =>
         HasFuturePrecommitQuorum v (Height (vote_header p)) (Round (vote_header p)) (ID p))
  else mret false.

Definition triggerSync (p : Vote H A) : SM (list action) :=
  s ← get_state;
  let lq := Z.max (lastQuorum s) (Height (vote_header p)) in
  let start := Z.max (u64 (lastTriggerSync s + 1)) (height (st s)) in
  modify (fun s => set_sync s lq lq);;
  mret [TriggerSync start lq].

Definition ProcessPrecommit (p : Vote H A) : SM (list action) :=
  added ← counter_call (fun v => AddPrecommit v p);
  started ← gets isHeightStarted;
  if negb added || negb started then mret []
  else
    fq ← hasFuturePrecommitQuorum p;
    if (fq : bool) then triggerSync p
    else processMessage (vote_header p) (WALPrecommit p).

Fixpoint processPrecommits (ps : list (Vote H A)) (acts : list action) : SM (list action) :=
  match ps with
  | [] => mret acts
  | p :: ps' => a ← ProcessPrecommit p; processPrecommits ps' (acts ++ a)
  end.

Definition ProcessSync (p : Proposal V A) (precommits : list (Vote H A)) : SM (list action) :=
  acts ← ProcessProposal p; processPrecommits precommits acts.

(** ** [timeout.go] *)

Definition isSameHeightAndRound (s : stateMachine) (tm : Timeout) : bool :=
  (height (st s) =? tm_Height tm) && (round (st s) =? tm_Round tm).

Definition onTimeoutPropose (tm : Timeout) : SM (list action) :=
  s ← get_state;
  if isSameHeightAndRound s tm && (step (st s) =? StepPropose) then
    a ← setStepAndSendPrevote None; mret [WriteWAL (WALTimeout tm); a]
  else mret [].

Definition onTimeoutPrevote (tm : Timeout) : SM (list action) :=
  s ← get_state;
  if isSameHeightAndRound s tm && (step (st s) =? StepPrevote) then
    a ← setStepAndSendPrecommit None; mret [WriteWAL (WALTimeout tm); a]
  else mret [].

Definition onTimeoutPrecommit (tm : Timeout) : SM (list action) :=
  s ← get_state;
  if isSameHeightAndRound s tm then
    a ← startRound (i64 (tm_Round tm + 1)); mret [WriteWAL (WALTimeout tm); a]
  else mret [].

Definition ProcessTimeout (tm : Timeout) : SM (list action) :=
  if tm_Step tm =? StepPropose then
    acts ← onTimeoutPropose tm; processLoop acts None
  else if tm_Step tm =? StepPrevote then
    acts ← onTimeoutPrevote tm; processLoop acts None
  else if tm_Step tm =? StepPrecommit then
    acts ← onTimeoutPrecommit tm; processLoop acts None
  else mret [].

Definition ProcessWAL (e : walEntry V H A) : SM (list action) :=
  match e with
  | WALStart _ => ProcessStart 0
  | WALProposal p => ProcessProposal p
  | WALPrevote p => ProcessPrevote p
  | WALPrecommit p => ProcessPrecommit p
  | WALTimeout tm => ProcessTimeout tm
  end.

(** ** Runs

    The events the driver feeds to the state machine. *)

Inductive event : Type :=
| EvStart (r : Z)
| EvProposal (p : Proposal V A)
| EvPrevote (p : Vote H A)
| EvPrecommit (p : Vote H A)
| EvSync (p : Proposal V A) (precommits : list (Vote H A))
| EvTimeout (tm : Timeout).

Definition handle (ev : event) : SM (list action) :=
  match ev with
  | EvStart r => ProcessStart r
  | EvProposal p => ProcessProposal p
  | EvPrevote p => ProcessPrevote p
  | EvPrecommit p => ProcessPrecommit p
  | EvSync p pcs => ProcessSync p pcs
  | EvTimeout tm => ProcessTimeout tm
  end.

End definitions.
