(* ===== verification/TendermintSpec.v ===== *)
(** * The Tendermint algorithm as a transition system

    The rules of the published algorithm (the pseudo-code quoted in the
    [rule_*.go] files) as an inductive relation on the state of a validator.  A
    transition is labelled with what it receives: a proposal or a vote enters the
    counter only when it is received or is the validator's own, and every rule has
    the conditions of the pseudo-code on the state it is applied to.
    [TendermintRefine] proves that every handler of [Tendermint] is a sequence
    of these transitions, so that safety properties are proved here once, by
    induction on the transitions. *)
From stdpp Require Import prelude gmap.
From Stdlib Require Import ZArith Lia.
From S2P Require Import Prelude ConsensusTypes VoteCounter VoteCounterFacts Tendermint.

Local Open Scope Z_scope.

Section spec.
Context {V H A AS : Type} `{!Hashable V H} `{Countable H} `{Countable A}
  `{!Validators A} `{!Application V AS}.

Abbreviation sm := (stateMachine (V:=V) (H:=H) (A:=A) (AS:=AS)).
Abbreviation act := (Action V H A).
Implicit Types (s : sm).

(** ** Effects *)

Definition own_vote s (id : option H) : Vote H A :=
  mkVote (mkHeader (height (st s)) (round (st s)) (nodeAddr s)) id.

(** Broadcast a vote: it is counted as one's own and the step advances. *)
Definition cast s (vt : VoteType) (id : option H) (stp : Z) : sm :=
  set_st (set_voteCounter s (AddVote (voteCounter s) (own_vote s id) vt).2)
    (set_step (st s) stp).

Definition reset s (r : Z) : sm :=
  set_st s (set_flags (set_step (set_round (st s) r) StepPropose) false false false).

(** Start of a round: the proposer broadcasts its valid value or a fresh one,
    the others wait for the proposal. *)
Inductive new_round s (r : Z) : act -> sm -> Prop :=
| nr_propose value app' p :
    Proposer (currentHeight (voteCounter s)) r = nodeAddr s ->
    (validValue (st s) = Some value /\ app' = application s \/
     validValue (st s) = None /\ app_Value (application s) = (value, app')) ->
    p = mkProposal (mkHeader (height (st s)) r (nodeAddr s)) (validRound (st s)) (Some value) ->
    new_round s r (BroadcastProposal p)
      (set_voteCounter (set_application (reset s r) app') (AddProposal (voteCounter s) p).2)
| nr_wait :
    Proposer (currentHeight (voteCounter s)) r ≠ nodeAddr s ->
    new_round s r (ScheduleTimeout (mkTimeout StepPropose (height (st s)) r)) (reset s r).

(** The proposal of a round, with its value, when the application accepts it. *)
Definition valid_proposal s (r : Z) (p : Proposal V A) (v : V) : Prop :=
  GetProposal (voteCounter s) r = Some p /\ Value p = Some v /\
  app_Valid (application s) v = true.

(** Lines 22 to 33: the proposal of the round is prevoted when the application
    accepts it and the lock allows it, otherwise nil is.  A proposal that names no
    valid round needs a free lock or one on its value, one that names a round
    needs a lock that is not newer than this round, or one on its value. *)
Definition locked_on s (v : V) : bool :=
  match lockedValue (st s) with Some lv => bool_decide (Hash lv = Hash v) | None => false end.

Definition lock_allows s (p : Proposal V A) (v : V) : bool :=
  (if ValidRound p =? -1 then lockedRound (st s) =? -1 else lockedRound (st s) <=? ValidRound p) || locked_on s v.

Definition prevote_id s (p : Proposal V A) (v : V) : option H :=
  if app_Valid (application s) v && lock_allows s p v then Some (Hash v) else None.

(** The proposal of the round can be voted on: it names no valid round, or an
    earlier round with two thirds of prevotes for its value. *)
Definition votable s (p : Proposal V A) (v : V) : Prop :=
  GetProposal (voteCounter s) (round (st s)) = Some p /\ Value p = Some v /\
  (ValidRound p = -1 \/
   0 <= ValidRound p < round (st s) /\
     HasQuorumForVote (voteCounter s) (ValidRound p) Prevote (Some (Hash v)) = true).

(** ** What a validator receives *)

Inductive received : Type :=
| RcvStart (r : Z)
| RcvProposal (p : Proposal V A)
| RcvVote (vt : VoteType) (v : Vote H A)
| RcvTimeout (tm : Timeout).

(** What an event brings, in the order in which it is handled. *)
Definition received_of (ev : event (V:=V) (H:=H) (A:=A)) : list received :=
  match ev with
  | EvStart r => [RcvStart r]
  | EvProposal p => [RcvProposal p]
  | EvPrevote v => [RcvVote Prevote v]
  | EvPrecommit v => [RcvVote Precommit v]
  | EvSync p pcs => RcvProposal p :: (RcvVote Precommit <$> pcs)
  | EvTimeout tm => [RcvTimeout tm]
  end.

(** The log entry of what was received. *)
Definition entry_of (i : received) : walEntry V H A :=
  match i with
  | RcvStart _ => WALStart OwnHeight
  | RcvProposal p => WALProposal p
  | RcvVote Prevote v => WALPrevote v
  | RcvVote Precommit v => WALPrecommit v
  | RcvTimeout tm => WALTimeout tm
  end.

Definition log_entry (i : received) (logged : bool) : list act :=
  if logged then [WriteWAL (entry_of i)] else [].

(** A timeout of the current height and round; those of the first two steps
    have an effect in their step only. *)
Definition timeout_applies s (tm : Timeout) : bool :=
  (height (st s) =? tm_Height tm) && (round (st s) =? tm_Round tm) &&
  ((tm_Step tm =? StepPropose) && (step (st s) =? StepPropose) ||
   (tm_Step tm =? StepPrevote) && (step (st s) =? StepPrevote) ||
   (tm_Step tm =? StepPrecommit)).

Definition set_valid_value s (v : V) : sm :=
  set_st s (set_flags (set_valid (st s) (Some v) (round (st s)))
    (timeoutPrevoteScheduled (st s)) (timeoutPrecommitScheduled (st s)) true).

Definition lock s (v : V) : sm := set_st s (set_locked (st s) (Some v) (round (st s))).

Definition commit s : sm :=
  set_started
    (reset
      (set_st (set_voteCounter s (StartNewHeight (voteCounter s)))
        (set_valid (set_locked (set_height (st s) (u64 (height (st s) + 1))) None (-1))
           None (-1))) 0) false.

(** ** Transitions

    [tstep s i a s']: what is received is [i], the actions are [a].  Nothing but
    what is received, and one's own messages, enters the counter. *)

Inductive tstep s : list received -> list act -> sm -> Prop :=
| t_proposal p logged :
    is_Some (Value p) ->
    (logged = true -> isHeightStarted s = true /\ (AddProposal (voteCounter s) p).1 = true) ->
    tstep s [RcvProposal p] (log_entry (RcvProposal p) logged)
      (set_voteCounter s (AddProposal (voteCounter s) p).2)
| t_vote vt v logged :
    (logged = true -> isHeightStarted s = true /\ (AddVote (voteCounter s) v vt).1 = true) ->
    tstep s [RcvVote vt v] (log_entry (RcvVote vt v) logged)
      (set_voteCounter s (AddVote (voteCounter s) v vt).2)
| t_query h r id :
    (HasFuturePrecommitQuorum (voteCounter s) h r id).1 = false ->
    tstep s [] [] (set_voteCounter s (HasFuturePrecommitQuorum (voteCounter s) h r id).2)
| t_sync (target r : Z) id lq :
    is_u64 target -> height (st s) < target -> lastTriggerSync s < target ->
    (HasFuturePrecommitQuorum (voteCounter s) target r (Some id)).1 = true ->
    lq = Z.max (lastQuorum s) target ->
    tstep s [] [TriggerSync (Z.max (u64 (lastTriggerSync s + 1)) (height (st s))) lq]
      (set_sync (set_voteCounter s (HasFuturePrecommitQuorum (voteCounter s) target r (Some id)).2) lq lq)
| t_start r a s' :
    isHeightStarted s = false -> 0 <= r ->
    new_round (set_started s true) r a s' ->
    tstep s [RcvStart r] [WriteWAL (entry_of (RcvStart r)); a] s'
| t_start_again r :
    isHeightStarted s = true -> tstep s [RcvStart r] [] s
| t_skip r a s' :
    isHeightStarted s = true -> round (st s) < r ->
    HasNonFaultyFutureMessage (voteCounter s) r = true ->
    new_round s r a s' ->
    tstep s [] [a] s'
| t_timeout_propose tm :
    isHeightStarted s = true -> tm = mkTimeout StepPropose (height (st s)) (round (st s)) ->
    step (st s) = StepPropose ->
    tstep s [RcvTimeout tm] [WriteWAL (entry_of (RcvTimeout tm)); BroadcastPrevote (own_vote s None)]
      (cast s Prevote None StepPrevote)
| t_timeout_prevote tm :
    isHeightStarted s = true -> tm = mkTimeout StepPrevote (height (st s)) (round (st s)) ->
    step (st s) = StepPrevote ->
    tstep s [RcvTimeout tm] [WriteWAL (entry_of (RcvTimeout tm)); BroadcastPrecommit (own_vote s None)]
      (cast s Precommit None StepPrecommit)
| t_timeout_precommit tm a s' :
    isHeightStarted s = true -> tm = mkTimeout StepPrecommit (height (st s)) (round (st s)) ->
    new_round s (round (st s) + 1) a s' ->
    tstep s [RcvTimeout tm] [WriteWAL (entry_of (RcvTimeout tm)); a] s'
| t_timeout_stale tm :
    timeout_applies s tm = false -> tstep s [RcvTimeout tm] [] s
| t_prevote p v :
    isHeightStarted s = true -> step (st s) = StepPropose -> votable s p v ->
    tstep s [] [BroadcastPrevote (own_vote s (prevote_id s p v))] (cast s Prevote (prevote_id s p v) StepPrevote)
| t_polka_any :
    isHeightStarted s = true -> step (st s) = StepPrevote ->
    HasQuorumForAny (voteCounter s) (round (st s)) Prevote = true ->
    timeoutPrevoteScheduled (st s) = false ->
    tstep s [] [ScheduleTimeout (mkTimeout StepPrevote (height (st s)) (round (st s)))]
      (set_st s (set_flags (st s) true (timeoutPrecommitScheduled (st s))
                   (lockedValueAndOrValidValueSet (st s))))
| t_lock p v :
    isHeightStarted s = true -> step (st s) = StepPrevote ->
    lockedValueAndOrValidValueSet (st s) = false ->
    valid_proposal s (round (st s)) p v ->
    HasQuorumForVote (voteCounter s) (round (st s)) Prevote (Some (Hash v)) = true ->
    tstep s [] [BroadcastPrecommit (own_vote s (Some (Hash v)))]
      (set_valid_value (cast (lock s v) Precommit (Some (Hash v)) StepPrecommit) v)
| t_valid p v :
    isHeightStarted s = true -> StepPrevote < step (st s) ->
    lockedValueAndOrValidValueSet (st s) = false ->
    valid_proposal s (round (st s)) p v ->
    HasQuorumForVote (voteCounter s) (round (st s)) Prevote (Some (Hash v)) = true ->
    tstep s [] [] (set_valid_value s v)
| t_polka_nil :
    isHeightStarted s = true -> step (st s) = StepPrevote ->
    HasQuorumForVote (voteCounter s) (round (st s)) Prevote None = true ->
    tstep s [] [BroadcastPrecommit (own_vote s None)] (cast s Precommit None StepPrecommit)
| t_precommit_any :
    isHeightStarted s = true ->
    HasQuorumForAny (voteCounter s) (round (st s)) Precommit = true ->
    timeoutPrecommitScheduled (st s) = false ->
    tstep s [] [ScheduleTimeout (mkTimeout StepPrecommit (height (st s)) (round (st s)))]
      (set_st s (set_flags (st s) (timeoutPrevoteScheduled (st s)) true
                   (lockedValueAndOrValidValueSet (st s))))
| t_commit r p v :
    isHeightStarted s = true -> height (st s) < 2 ^ 64 - 1 ->
    valid_proposal s r p v ->
    HasQuorumForVote (voteCounter s) (Round (proposal_header p)) Precommit
      (Some (Hash v)) = true ->
    tstep s [] [Commit p] (commit s).

(** Sequences of transitions, with what is received and the actions emitted. *)
Inductive tsteps : sm -> list received -> list act -> sm -> Prop :=
| ts_refl s : tsteps s [] [] s
| ts_cons s1 i a s2 j b s3 : tstep s1 i a s2 -> tsteps s2 j b s3 -> tsteps s1 (i ++ j) (a ++ b) s3.

Lemma tsteps_one s i a s' : tstep s i a s' -> tsteps s i a s'.
Proof. intros. rewrite <- (app_nil_r a), <- (app_nil_r i). by econstructor; [|constructor]. Qed.

Lemma tsteps_trans s1 i a s2 j b s3 :
  tsteps s1 i a s2 -> tsteps s2 j b s3 -> tsteps s1 (i ++ j) (a ++ b) s3.
Proof.
  induction 1; intros; [done|]. rewrite <- !app_assoc. econstructor; eauto.
Qed.

(** ** Invariant *)

(** Every proposal that is stored carries a value. *)
Definition counter_values (v : VoteCounter (V:=V) (H:=H) (A:=A)) : Prop :=
  forall h r rd p, slot v h r = Some rd -> proposal rd = Some p -> is_Some (Value p).

(** A locked or valid value has a polka: two thirds of prevotes in its round. *)
Definition polka s (ov : option V) (r : Z) : Prop :=
  ov = None /\ r = -1 \/
  exists v, ov = Some v /\ 0 <= r <= round (st s) /\
    HasQuorumForVote (voteCounter s) r Prevote (Some (Hash v)) = true.

Record sm_ok s : Prop := {
  sm_ok_counter : counter_ok (voteCounter s);
  sm_ok_values : counter_values (voteCounter s);
  sm_ok_height : currentHeight (voteCounter s) = height (st s);
  sm_ok_height_range : is_u64 (height (st s));
  sm_ok_round : 0 <= round (st s);
  sm_ok_step : StepPropose <= step (st s) <= StepPrecommit;
  sm_ok_locked : polka s (lockedValue (st s)) (lockedRound (st s));
  sm_ok_valid : polka s (validValue (st s)) (validRound (st s));
  sm_ok_order : lockedRound (st s) <= validRound (st s);
  sm_ok_unstarted : isHeightStarted s = false ->
    round (st s) = 0 /\ step (st s) = StepPropose /\
    lockedRound (st s) = -1 /\ validRound (st s) = -1;
}.

(** What the calls on the counter keep. *)
Lemma apply_op_proposals (v : VoteCounter (V:=V) (H:=H) (A:=A)) op h r rd' p :
  0 <= currentHeight v < 2 ^ 64 - 1 \/ is_new_height op = false ->
  slot (apply_op v op) h r = Some rd' -> proposal rd' = Some p ->
  (exists rd, slot v h r = Some rd /\ proposal rd = Some p) \/ op = OpProposal p.
Proof.
  intros Hh Hs Hp.
  assert (Hnew : forall h r p, proposal (slot_or_new v h r) = Some p ->
    exists rd, slot v h r = Some rd /\ proposal rd = Some p).
  { intros h1 r1 p1. unfold slot_or_new. destruct (slot v h1 r1); simpl; [eauto|done]. }
  destruct op as [p0|vt vote| |h0 r0 id]; simpl in *.
  - destruct (AddProposal_slot v p0 _ _ (surjective_pairing _)) as (_ & Hlt & Hge).
    destruct (Z.lt_ge_cases (Height (proposal_header p0)) (currentHeight v)) as [Hx|Hx].
    { destruct (Hlt Hx) as [_ E]. rewrite E in Hs. eauto. }
    destruct (Hge Hx) as (rd & Hset & Hslot). rewrite Hslot in Hs.
    destruct (decide (h = _ /\ _)) as [[-> ->]|]; [|eauto]. injection Hs as ->.
    destruct (decide (Sender _ = _)); [|injection Hset as _ <-; eauto].
    unfold setProposal in Hset.
    destruct (proposal (slot_or_new _ _ _)) eqn:E; injection Hset as _ <-.
    + left. apply Hnew. congruence.
    + simpl in Hp. injection Hp as ->. by right.
  - destruct (AddVote_slot v vote vt _ _ (surjective_pairing _)) as (_ & Hlt & Hge).
    destruct (Z.lt_ge_cases (Height (vote_header vote)) (currentHeight v)) as [Hx|Hx].
    { destruct (Hlt Hx) as [_ E]. rewrite E in Hs. eauto. }
    destruct (Hge Hx) as (rd & Hadd & Hslot). rewrite Hslot in Hs.
    destruct (decide (h = _ /\ _)) as [[-> ->]|]; [|eauto]. injection Hs as ->.
    apply addVote_spec in Hadd as (_ & _ & _ & _ & _ & _ & E & _). left. apply Hnew. congruence.
  - rewrite StartNewHeight_slot in Hs by naive_solver lia. destruct (h <=? _); [done|eauto].
  - destruct (HasFuturePrecommitQuorum_slot v h0 r0 id _ _ (surjective_pairing _)) as [_ Hslot].
    rewrite Hslot in Hs. destruct (decide _) as [(-> & -> & _)|]; [|eauto].
    injection Hs as <-. left. by apply Hnew.
Qed.

End spec.

(** * Safety of the Tendermint transitions

    The invariant of a validator is kept by every transition of
    [TendermintSpec]; votes are never contradicted; commits are justified. *)

(** The case analysis of a transition. *)
Ltac tcases Ht :=
  destruct Ht as [p logged Hv Hlog|vt v logged Hlog|h r id Hfq|target r id lq Hu Hlt Hlts Hfq Hlq
    |r a s' Hst Hr Hn|r Hst|r a s' Hst Hr Hnf Hn|tm Hst Htm Hstp|tm Hst Htm Hstp|tm a s' Hst Htm Hn|tm Hap
    |p v Hst Hstp Hvo|Hst Hstp Hq Hfl|p v Hst Hstp Hfl Hval Hq|p v Hst Hstp Hfl Hval Hq|Hst Hstp Hq
    |Hst Hq Hfl|r p v Hst Hmax Hval Hq].

Section facts.
Context {V H A AS : Type} `{!Hashable V H} `{Countable H} `{Countable A}
  `{!Validators A} `{!Application V AS} `{!ValidatorsLaws A}.

Abbreviation sm := (stateMachine (V:=V) (H:=H) (A:=A) (AS:=AS)).
Abbreviation act := (Action V H A).
Abbreviation counter := (VoteCounter (V:=V) (H:=H) (A:=A)).
Implicit Types (s : sm).

(** Names for the parts of the invariant. *)
Ltac open_ok Hok :=
  pose proof Hok as [Hcok Hcval Hch Hchr Hrnd Hstep Hlk Hvl Hord Huns].

(** ** What a call on the counter keeps *)

Record counter_grows (v v' : counter) : Prop := {
  grows_height : currentHeight v' = currentHeight v;
  grows_ok : counter_ok v';
  grows_values : counter_values v';
  grows_quorum r vt id : HasQuorumForVote v r vt id = true -> HasQuorumForVote v' r vt id = true;
}.

Lemma apply_op_grows v op :
  counter_ok v -> counter_values v -> is_u64 (currentHeight v) ->
  is_new_height op = false ->
  match op with OpProposal p => is_Some (Value p) | _ => True end ->
  counter_grows v (apply_op v op).
Proof.
  intros Hok Hval Hh Hop Hp.
  destruct (apply_op_spec v op) as (Hok' & Hcur & Hsets); [done|lia|by rewrite Hop; lia|].
  rewrite Hop, Z.add_0_r in Hcur. split; [done..| |].
  - intros h r rd p Hs Hpr.
    destruct (apply_op_proposals v op h r rd p) as [(rd0 & ? & ?)| ->];
      [by right|done|done|by eapply Hval|done].
  - intros r vt id. apply HasQuorumForVote_mono; try done.
    destruct (Hsets (currentHeight v) r) as [-> _]; [lia|]. set_solver.
Qed.

Lemma absorb_vote_grows v vote vt :
  counter_ok v -> counter_values v -> is_u64 (currentHeight v) ->
  counter_grows v (AddVote v vote vt).2.
Proof. intros. by apply (apply_op_grows v (OpVote vt vote)). Qed.

Lemma absorb_proposal_grows v p :
  counter_ok v -> counter_values v -> is_u64 (currentHeight v) -> is_Some (Value p) ->
  counter_grows v (AddProposal v p).2.
Proof. intros. by apply (apply_op_grows v (OpProposal p)). Qed.

(** ** The invariant is kept *)

(** A polka survives when the counter grows and the round does not go back. *)
Lemma polka_grows s s' ov r :
  polka s ov r -> counter_grows (voteCounter s) (voteCounter s') ->
  round (st s) <= round (st s') -> polka s' ov r.
Proof.
  intros [?|(v & ? & ? & ?)] Hg Hr; [by left|right]. exists v.
  split_and!; [done|lia|lia|by apply Hg].
Qed.

Lemma counter_grows_refl v : counter_ok v -> counter_values v -> counter_grows v v.
Proof. by split. Qed.

(** A new state with a grown counter, a round that is not smaller and the same
    lock satisfies the invariant. *)
Lemma sm_ok_grows s s' :
  sm_ok s -> counter_grows (voteCounter s) (voteCounter s') ->
  height (st s') = height (st s) -> round (st s) <= round (st s') ->
  StepPropose <= step (st s') <= StepPrecommit ->
  lockedValue (st s') = lockedValue (st s) -> lockedRound (st s') = lockedRound (st s) ->
  validValue (st s') = validValue (st s) -> validRound (st s') = validRound (st s) ->
  (isHeightStarted s' = false -> isHeightStarted s = false /\ round (st s') = round (st s) /\
     step (st s') = step (st s)) ->
  sm_ok s'.
Proof.
  intros Hok Hg E1 E2 E3 E4 E5 E6 E7 E8. open_ok Hok. split; try (by apply Hg); rewrite ?E1, ?E4, ?E5, ?E6, ?E7; try lia.
  - rewrite (grows_height _ _ Hg). congruence.
  - by eapply polka_grows.
  - by eapply polka_grows.
  - intros Hf. destruct (E8 Hf) as (Hf' & -> & ->). auto.
Qed.

Lemma new_round_ok s r a s' :
  sm_ok s -> isHeightStarted s = true -> round (st s) <= r -> new_round s r a s' -> sm_ok s'.
Proof.
  intros Hok Hst Hr Hn. open_ok Hok.
  destruct Hn as [value app' p _ _ Hp|_]; (eapply sm_ok_grows; [done|..]); simpl;
    rewrite ?Hst; try done; try lia.
  apply absorb_proposal_grows; try done; [by rewrite Hch|by subst].
Qed.

Lemma cast_ok s vt id stp :
  sm_ok s -> isHeightStarted s = true -> StepPropose <= stp <= StepPrecommit ->
  sm_ok (cast s vt id stp).
Proof.
  intros Hok Hst Hstp. open_ok Hok. eapply sm_ok_grows; [done|..]; simpl;
    rewrite ?Hst; try done; try lia.
  apply absorb_vote_grows; try done. by rewrite Hch.
Qed.

Lemma commit_ok s :
  sm_ok s -> height (st s) < 2 ^ 64 - 1 -> sm_ok (commit s).
Proof.
  intros Hok Hmax. open_ok Hok. split; simpl; rewrite ?u64_small by lia; try done; try lia; try (by left).
  - apply StartNewHeight_counter_ok; [lia|done].
  - intros h r rd p. rewrite StartNewHeight_slot by lia.
    destruct (h <=? _); [done|]. apply Hcval.
  - rewrite StartNewHeight_height by lia. lia.
Qed.

(** Setting the valid value keeps the invariant when there is a polka for it. *)
Lemma set_valid_value_ok s v :
  sm_ok s -> isHeightStarted s = true ->
  HasQuorumForVote (voteCounter s) (round (st s)) Prevote (Some (Hash v)) = true ->
  sm_ok (set_valid_value s v).
Proof.
  intros Hok Hst Hq. open_ok Hok. split; simpl; try done.
  - right. exists v. split_and!; [done|simpl; lia|simpl; lia|done].
  - destruct Hlk as [[_ ->]|(? & _ & ? & _)]; lia.
  - by rewrite Hst.
Qed.

Lemma lock_ok s v :
  sm_ok s -> isHeightStarted s = true ->
  HasQuorumForVote (voteCounter s) (round (st s)) Prevote (Some (Hash v)) = true ->
  sm_ok (set_valid_value (cast (lock s v) Precommit (Some (Hash v)) StepPrecommit) v).
Proof.
  intros Hok Hst Hq. pose proof (cast_ok s Precommit (Some (Hash v)) StepPrecommit Hok Hst) as Hc.
  assert (Hg : counter_grows (voteCounter s) (voteCounter (cast s Precommit (Some (Hash v)) StepPrecommit))).
  { open_ok Hok. apply absorb_vote_grows; try done. by rewrite Hch. }
  specialize (Hc ltac:(done)). open_ok Hc. split; simpl in *; try done; try lia.
  - right. exists v. split_and!; [done|simpl; lia|simpl; lia|by apply Hg].
  - right. exists v. split_and!; [done|simpl; lia|simpl; lia|by apply Hg].
  - by rewrite Hst.
Qed.

(** A message that is added to the counter. *)
Lemma sm_ok_op s op :
  sm_ok s -> is_new_height op = false -> match op with OpProposal p => is_Some (Value p) | _ => True end ->
  sm_ok (set_voteCounter s (apply_op (voteCounter s) op)).
Proof.
  intros Hok Hop Hv. open_ok Hok. eapply sm_ok_grows; [done|..]; simpl; try done; try lia.
  apply apply_op_grows; try done. by rewrite Hch.
Qed.

Lemma tstep_ok s i a s' : sm_ok s -> tstep s i a s' -> sm_ok s'.
Proof.
  intros Hok Ht. open_ok Hok. tcases Ht;
    eauto using commit_ok, set_valid_value_ok, lock_ok, new_round_ok with lia;
    try (apply cast_ok; [done|done|unfold StepPropose, StepPrevote, StepPrecommit; lia]).
  - by apply (sm_ok_op s (OpProposal p)).
  - by apply (sm_ok_op s (OpVote vt v)).
  - by apply (sm_ok_op s (OpFutureQuorum h r id)).
  - assert (Hs : sm_ok (set_voteCounter s (HasFuturePrecommitQuorum (voteCounter s) target r (Some id)).2))
      by (by apply (sm_ok_op s (OpFutureQuorum target r (Some id)))).
    clear -Hs. by destruct Hs; split.
  - apply (new_round_ok (set_started s true) r a); [|done| |done]; simpl.
    + split; simpl; done.
    + destruct (Huns Hst). lia.
  - apply (new_round_ok s r a); [done|done|lia|done].
  - apply (new_round_ok s (round (st s) + 1) a); [done|done|lia|done].
  - by split; simpl; rewrite ?Hst.
  - by split; simpl; rewrite ?Hst.
Qed.

Lemma tsteps_ok s i a s' : sm_ok s -> tsteps s i a s' -> sm_ok s'.
Proof. intros Hok Ht. induction Ht; eauto using tstep_ok. Qed.

Lemma New_ok (addr : A) (app : AS) h : is_u64 h -> sm_ok (New addr app h : sm).
Proof.
  intros Hh. split; simpl; try done; try (by left); try lia.
  - apply New_counter_ok.
  - intros h' r rd p. unfold slot, VoteCounter.New; simpl.
    bool_cases; rewrite ?lookup_empty; simpl; rewrite ?lookup_empty; done.
Qed.

(** ** Votes are never contradicted *)

Definition prevotes (tr : list act) : list (Vote H A) :=
  omap (fun a => match a with BroadcastPrevote v => Some v | _ => None end) tr.

Definition precommits (tr : list act) : list (Vote H A) :=
  omap (fun a => match a with BroadcastPrecommit v => Some v | _ => None end) tr.

Definition scheduled (tr : list act) : list Timeout :=
  omap (fun a => match a with ScheduleTimeout tm => Some tm | _ => None end) tr.

Definition ballot_key (v : Vote H A) : Z * Z :=
  (Height (vote_header v), Round (vote_header v)).

(** The vote was cast before the present point of the height and round. *)
Definition past s (v : Vote H A) (stp : Z) : Prop :=
  Height (vote_header v) < height (st s) \/
  Height (vote_header v) = height (st s) /\ isHeightStarted s = true /\
    (Round (vote_header v) < round (st s) \/
     Round (vote_header v) = round (st s) /\ stp <= step (st s)).

Record votes_inv s (tr : list act) : Prop := {
  vi_prevotes v : v ∈ prevotes tr -> past s v StepPrevote /\ Sender (vote_header v) = nodeAddr s;
  vi_precommits v : v ∈ precommits tr -> past s v StepPrecommit /\ Sender (vote_header v) = nodeAddr s;
  vi_prevotes_nodup : NoDup (ballot_key <$> prevotes tr);
  vi_precommits_nodup : NoDup (ballot_key <$> precommits tr);
  vi_timeouts tm : tm ∈ scheduled tr ->
    tm_Height tm < height (st s) \/ tm_Height tm = height (st s) /\ isHeightStarted s = true;
}.

(** The machine only moves forward. *)
Definition advances s s' : Prop :=
  nodeAddr s' = nodeAddr s /\
  (height (st s) < height (st s') \/
   height (st s) = height (st s') /\
     (isHeightStarted s = false \/
      isHeightStarted s' = true /\
        (round (st s) < round (st s') \/
         round (st s) = round (st s') /\ step (st s) <= step (st s')))).

Lemma past_advances s s' v stp : past s v stp -> advances s s' -> past s' v stp.
Proof. unfold past, advances. intuition (try congruence; try lia). Qed.

Lemma tstep_advances s i a s' : sm_ok s -> tstep s i a s' -> advances s s'.
Proof.
  intros Hok Ht. open_ok Hok. tcases Ht;
    unfold advances, StepPropose, StepPrevote, StepPrecommit in *; simpl; split; try done;
    try (by destruct Hn); rewrite ?Hst; try (right; split; [done|]);
    try (destruct (isHeightStarted s) eqn:?; intuition lia).
  - right. destruct Hn; simpl; auto.
  - right. destruct Hn; simpl; rewrite ?Hst; auto 6 with lia.
  - right. destruct Hn; simpl; rewrite ?Hst; auto 6 with lia.
  - rewrite u64_small by lia. lia.
Qed.

(** Emitted votes carry the current height, round and address, and move the
    step past them. *)
Lemma tstep_votes s i a s' :
  sm_ok s -> tstep s i a s' ->
  (prevotes a = [] \/ exists id, prevotes a = [own_vote s id] /\
     isHeightStarted s = true /\ step (st s) < StepPrevote /\
     past s' (own_vote s id) StepPrevote) /\
  (precommits a = [] \/ exists id, precommits a = [own_vote s id] /\
     isHeightStarted s = true /\ step (st s) < StepPrecommit /\
     past s' (own_vote s id) StepPrecommit) /\
  (forall tm, tm ∈ scheduled a -> tm_Height tm = height (st s') /\ isHeightStarted s' = true).
Proof.
  intros Hok Ht. tcases Ht; try destruct Hn; unfold log_entry; try destruct logged;
    unfold past, StepPropose, StepPrevote, StepPrecommit in *; simpl;
    split_and!; try (by left); try (by intros ? ?%elem_of_nil);
    try (right; eexists; split_and!; [done|done|lia|right; simpl; auto with lia]);
    intros tm' ->%list_elem_of_singleton; done.
Qed.

Lemma elem_of_prevotes_app v tr a :
  v ∈ prevotes (tr ++ a) <-> v ∈ prevotes tr \/ v ∈ prevotes a.
Proof. unfold prevotes. by rewrite omap_app, elem_of_app. Qed.

Lemma elem_of_precommits_app v tr a :
  v ∈ precommits (tr ++ a) <-> v ∈ precommits tr \/ v ∈ precommits a.
Proof. unfold precommits. by rewrite omap_app, elem_of_app. Qed.

(** Adding at most one vote that is not in the past keeps the keys distinct. *)
Lemma nodup_snoc_vote s (l : list (Vote H A)) a stp id :
  NoDup (ballot_key <$> l) -> (forall v, v ∈ l -> past s v stp) ->
  a = [own_vote s id] -> step (st s) < stp ->
  NoDup (ballot_key <$> (l ++ a)).
Proof.
  intros Hnd Hpast -> Hstp. rewrite fmap_app. apply NoDup_app. split_and!; [done| |].
  - intros k (v & -> & Hv)%list_elem_of_fmap Hk. apply list_elem_of_singleton in Hk.
    destruct (Hpast v Hv) as [?|(? & ? & [?|[? ?]])];
      unfold ballot_key, own_vote in Hk; simpl in Hk; injection Hk; lia.
  - apply NoDup_singleton.
Qed.

Lemma tstep_votes_inv s tr i a s' :
  sm_ok s -> votes_inv s tr -> tstep s i a s' -> votes_inv s' (tr ++ a).
Proof.
  intros Hok [Hv Hc Hvn Hcn Htm] Ht.
  pose proof (tstep_advances _ _ _ _ Hok Ht) as Hadv.
  destruct (tstep_votes _ _ _ _ Hok Ht) as (Hpv & Hpc & Hsch).
  pose proof (proj1 Hadv) as Hna. split.
  - intros v [Hin|Hin]%elem_of_prevotes_app.
    + destruct (Hv v Hin). split; [by eapply past_advances|congruence].
    + destruct Hpv as [E|(id & E & _ & _ & Hp)]; rewrite E in Hin; [set_solver|].
      apply list_elem_of_singleton in Hin as ->. done.
  - intros v [Hin|Hin]%elem_of_precommits_app.
    + destruct (Hc v Hin). split; [by eapply past_advances|congruence].
    + destruct Hpc as [E|(id & E & _ & _ & Hp)]; rewrite E in Hin; [set_solver|].
      apply list_elem_of_singleton in Hin as ->. done.
  - unfold prevotes in *. rewrite omap_app. destruct Hpv as [E|(id & E & _ & Hs & _)].
    + by rewrite E, app_nil_r.
    + eapply nodup_snoc_vote; [done| |done|done]. intros. by apply Hv.
  - unfold precommits in *. rewrite omap_app. destruct Hpc as [E|(id & E & _ & Hs & _)].
    + by rewrite E, app_nil_r.
    + eapply nodup_snoc_vote; [done| |done|done]. intros. by apply Hc.
  - intros tm. unfold scheduled in *. rewrite omap_app, elem_of_app. intros [Hin|Hin].
    + destruct (Htm tm Hin), Hadv as [_ Hadv]; intuition (try congruence; lia).
    + right. by apply Hsch.
Qed.

Lemma tsteps_votes_inv s tr i a s' :
  sm_ok s -> votes_inv s tr -> tsteps s i a s' -> votes_inv s' (tr ++ a).
Proof.
  intros Hok Hi Ht. revert tr Hok Hi. induction Ht as [|s1 i a s2 j b s3 Hstep _ IH]; intros tr Hok Hi.
  - by rewrite app_nil_r.
  - rewrite app_assoc. apply IH; eauto using tstep_ok, tstep_votes_inv.
Qed.

(** ** The counter holds what was received *)

Abbreviation rcv := (received (V:=V) (H:=H) (A:=A)).

(** A vote or a proposal that was received, or broadcast by the validator. *)
Definition voted (ins : list rcv) (tr : list act) (vt : VoteType) (v : Vote H A) : Prop :=
  RcvVote vt v ∈ ins \/
  match vt with Prevote => BroadcastPrevote v ∈ tr | Precommit => BroadcastPrecommit v ∈ tr end.

Definition proposed (ins : list rcv) (tr : list act) (p : Proposal V A) : Prop :=
  RcvProposal p ∈ ins \/ BroadcastProposal p ∈ tr.

Definition op_source (ins : list rcv) (tr : list act) (op : counter_op (V:=V) (H:=H) (A:=A)) : Prop :=
  match op with OpVote vt v => voted ins tr vt v | OpProposal p => proposed ins tr p | _ => True end.

(** The voters that are counted for the present and for later heights voted so,
    and the stored proposals were proposed. *)
Record heard (ins : list rcv) (tr : list act) s : Prop := {
  hd_votes h r vt id x : height (st s) <= h -> x ∈ round_voters (voteCounter s) h r vt id ->
    voted ins tr vt (mkVote (mkHeader h r x) id);
  hd_proposals h r rd p : slot (voteCounter s) h r = Some rd -> proposal rd = Some p -> proposed ins tr p;
}.

Lemma op_source_app i1 i2 a1 a2 op :
  op_source i1 a1 op \/ op_source i2 a2 op -> op_source (i1 ++ i2) (a1 ++ a2) op.
Proof. unfold op_source, voted, proposed. destruct op as [|[]| |]; rewrite ?elem_of_app; tauto. Qed.

(** A transition makes at most one call on the counter, with a message that was
    received or sent by it. *)
Lemma tstep_op s i a s' :
  tstep s i a s' ->
  voteCounter s' = voteCounter s \/
  exists op, voteCounter s' = apply_op (voteCounter s) op /\ op_source i a op /\
    (is_new_height op = true -> height (st s) < 2 ^ 64 - 1).
Proof.
  intros Ht. tcases Ht; try (by left); try destruct Hn; try (by left); right.
  - exists (OpProposal p). split_and!; [done|left; set_solver|done].
  - exists (OpVote vt v). split_and!; [done|left; set_solver|done].
  - by exists (OpFutureQuorum h r id).
  - by exists (OpFutureQuorum target r (Some id)).
  - exists (OpProposal p). split_and!; [done|right; set_solver|done].
  - exists (OpProposal p). split_and!; [done|right; set_solver|done].
  - exists (OpVote Prevote (own_vote s None)). split_and!; [done|right; set_solver|done].
  - exists (OpVote Precommit (own_vote s None)). split_and!; [done|right; set_solver|done].
  - exists (OpProposal p). split_and!; [done|right; set_solver|done].
  - exists (OpVote Prevote (own_vote s (prevote_id s p v))). split_and!; [done|right; set_solver|done].
  - exists (OpVote Precommit (own_vote s (Some (Hash v)))). split_and!; [done|right; set_solver|done].
  - exists (OpVote Precommit (own_vote s None)). split_and!; [done|right; set_solver|done].
  - by exists OpStartNewHeight.
Qed.

Lemma votes_for_one (op : counter_op (V:=V) (H:=H) (A:=A)) h r vt id (x : A) :
  x ∈ votes_for [op] h r vt id -> op = OpVote vt (mkVote (mkHeader h r x) id).
Proof.
  unfold votes_for. destruct op as [|vt' [[h' r' x'] id']| |]; simpl; try set_solver.
  destruct (decide _) as [(-> & -> & -> & ->)|]; simpl; set_solver.
Qed.

Lemma tstep_heard ins tr s i a s' :
  sm_ok s -> heard ins tr s -> tstep s i a s' -> heard (ins ++ i) (tr ++ a) s'.
Proof.
  intros Hok [Hv Hp] Ht. pose proof (sm_ok_height _ (tstep_ok _ _ _ _ Hok Ht)) as Hh'. open_ok Hok.
  assert (Hold : forall op, op_source ins tr op -> op_source (ins ++ i) (tr ++ a) op) by (intros; apply op_source_app; auto).
  assert (Hle : height (st s) <= height (st s')) by (destruct (tstep_advances _ _ _ _ Hok Ht) as [_ ?]; lia).
  destruct (tstep_op _ _ _ _ Ht) as [Ev|(op & Ev & Hsrc & Hmax)].
  { split; rewrite Ev.
    - intros h r vt id x Hh Hx. apply (Hold (OpVote vt _)), Hv; [lia|done].
    - intros h r rd p Hs Hpr. by eapply (Hold (OpProposal p)), Hp. }
  assert (Hnew : op_source (ins ++ i) (tr ++ a) op) by (apply op_source_app; auto).
  rewrite Ev in Hh'. split; rewrite Ev.
  - intros h r vt id x Hh Hx.
    destruct (apply_op_spec (voteCounter s) op Hcok) as (_ & Hcur & Hsets); [lia|destruct (is_new_height op); lia|].
    destruct (Hsets h r) as [Ers _]; [lia|]. rewrite Ers in Hx. apply elem_of_union in Hx as [Hx|Hx].
    + apply (Hold (OpVote vt _)), Hv; [lia|done].
    + apply votes_for_one in Hx as ->. exact Hnew.
  - intros h r rd p Hs Hpr. apply apply_op_proposals with (p := p) in Hs; [|destruct (is_new_height op); [left|by right]; lia|done].
    destruct Hs as [(rd0 & Hs & Hpr0)| ->]; [by eapply (Hold (OpProposal p)), Hp|exact Hnew].
Qed.

Lemma New_heard (addr : A) (app : AS) h : heard [] [] (New addr app h : sm).
Proof.
  split.
  - intros h' r vt id x _. simpl. destruct (New_sets (H:=H) (V:=V) h h' r) as [-> _]. set_solver.
  - intros h' r rd p. unfold slot; simpl. bool_cases; rewrite ?lookup_empty; simpl; by rewrite ?lookup_empty.
Qed.

Lemma tsteps_heard ins tr s i a s' :
  sm_ok s -> heard ins tr s -> tsteps s i a s' -> heard (ins ++ i) (tr ++ a) s'.
Proof.
  intros Hok Hi Ht. revert ins tr Hok Hi.
  induction Ht as [|s1 i a s2 j b s3 Hstep _ IH]; intros ins tr Hok Hi; [by rewrite !app_nil_r|].
  rewrite !app_assoc. apply IH; eauto using tstep_ok, tstep_heard.
Qed.

(** ** The log holds what was received *)

Definition logged_entries (tr : list act) : list (walEntry V H A) :=
  omap (fun a => match a with WriteWAL e => Some e | _ => None end) tr.

Lemma tstep_logged s i a s' :
  tstep s i a s' -> logged_entries a `sublist_of` (entry_of <$> i).
Proof.
  intros Ht. tcases Ht; try destruct Hn; unfold log_entry; try destruct logged; simpl; try destruct vt;
    repeat constructor.
Qed.

Lemma tsteps_logged s i a s' :
  tsteps s i a s' -> logged_entries a `sublist_of` (entry_of <$> i).
Proof.
  induction 1 as [|s1 i a s2 j b s3 Hstep _ IH]; [constructor|]. unfold logged_entries in *.
  rewrite omap_app, fmap_app. apply sublist_app; [by eapply tstep_logged|done].
Qed.

End facts.
