(* ===== verification/TendermintRefine.v ===== *)
(** * The handlers refine the Tendermint transitions

    Every handler of [Tendermint] returns (no panic, the loop ends within its
    fuel) and performs a sequence of transitions of [TendermintSpec].  The
    safety properties of the handlers follow from those of the transitions. *)
From stdpp Require Import prelude gmap.
From Stdlib Require Import ZArith Lia.
From S2P Require Import Prelude ConsensusTypes VoteCounter VoteCounterFacts.
From S2P Require Import Tendermint TendermintSpec.

Local Open Scope Z_scope.

Section refine.
Context {V H A AS : Type} `{!Hashable V H} `{Countable H} `{Countable A}
  `{!Validators A} `{!Application V AS} `{!ValidatorsLaws A}.

Abbreviation sm := (stateMachine (V:=V) (H:=H) (A:=A) (AS:=AS)).
Abbreviation act := (Action V H A).
Implicit Types (s : sm).

(** ** The effects of the rules' bodies *)

Lemma wp_counter_call {T} (g : VoteCounter (V:=V) (H:=H) (A:=A) -> T * VoteCounter) s Q :
  Q (g (voteCounter s)).1 (set_voteCounter s (g (voteCounter s)).2) ->
  wp (counter_call g) Q s.
Proof.
  intros HQ. eapply wp_intro; [|exact HQ]. unfold counter_call.
  by destruct (g (voteCounter s)).
Qed.

Lemma wp_prevote id s (Q : act -> sm -> Prop) :
  Q (BroadcastPrevote (own_vote s id)) (cast s Prevote id StepPrevote) ->
  wp (setStepAndSendPrevote id) Q s.
Proof.
  intros HQ. unfold setStepAndSendPrevote, own_header, upd_st. wp_steps.
  apply wp_counter_call. wp_steps. done.
Qed.

Lemma wp_precommit id s (Q : act -> sm -> Prop) :
  Q (BroadcastPrecommit (own_vote s id)) (cast s Precommit id StepPrecommit) ->
  wp (setStepAndSendPrecommit id) Q s.
Proof.
  intros HQ. unfold setStepAndSendPrecommit, own_header, upd_st. wp_steps.
  apply wp_counter_call. wp_steps. done.
Qed.

Lemma wp_scheduleTimeout stp s (Q : act -> sm -> Prop) :
  Q (ScheduleTimeout (mkTimeout stp (height (st s)) (round (st s)))) s ->
  wp (scheduleTimeout stp) Q s.
Proof. intros HQ. unfold scheduleTimeout. by wp_steps. Qed.

Lemma wp_startRound r s (Q : act -> sm -> Prop) :
  (forall a s', new_round s r a s' -> Q a s') -> wp (startRound r) Q s.
Proof.
  intros HQ. unfold startRound, resetState, upd_st. wp_steps.
  - unfold RoundProposer in Heqb. simpl in Heqb. apply bool_decide_eq_true_1 in Heqb.
    simpl. destruct (validValue (st s)) as [v|] eqn:Ev.
    + wp_steps. unfold sendProposal, own_header. wp_steps. apply wp_counter_call. wp_steps.
      apply HQ. apply (nr_propose s r v (application s)); [done|by left|done].
    + destruct (app_Value (application s)) as [v app'] eqn:Ea. wp_steps.
      unfold sendProposal, own_header. wp_steps. apply wp_counter_call. wp_steps.
      apply HQ. apply (nr_propose s r v app'); [done|by right|done].
  - apply wp_scheduleTimeout. apply HQ. apply bool_decide_eq_false_1 in Heqb. exact (nr_wait s r Heqb).
Qed.

(** The cached proposal is the stored one, with its value, validity and hash. *)
Definition cached_of s (r : Z) : option CachedProposal :=
  match GetProposal (voteCounter s) r with
  | Some p =>
      match Value p with
      | Some v => Some (mkCached p (app_Valid (application s) v) (Some (Hash v)))
      | None => None
      end
  | None => None
  end.

Lemma GetProposal_slot (v : VoteCounter (V:=V) (H:=H) (A:=A)) r p :
  GetProposal v r = Some p <->
  exists rd, slot v (currentHeight v) r = Some rd /\ proposal rd = Some p.
Proof.
  unfold GetProposal. rewrite slot_current. destruct (roundMap v !! r); naive_solver.
Qed.

Lemma stored_proposal s r p :
  sm_ok s -> GetProposal (voteCounter s) r = Some p ->
  proposal_header p = mkHeader (height (st s)) r (Proposer (height (st s)) r).
Proof.
  intros Hok (rd & Hs & Hp)%GetProposal_slot.
  destruct (counter_ok_slots _ (sm_ok_counter _ Hok) _ _ _ Hs) as [_ Hh].
  rewrite (Hh _ Hp), (sm_ok_height _ Hok). done.
Qed.

Lemma wp_findProposal s r (Q : option CachedProposal -> sm -> Prop) :
  sm_ok s -> Q (cached_of s r) s -> wp (findProposal r) Q s.
Proof.
  intros Hok HQ. unfold findProposal, cached_of in *. wp_steps.
  destruct (GetProposal (voteCounter s) r) as [p|] eqn:Ep; [|by wp_steps].
  apply GetProposal_slot in Ep as (rd & Hs & Hp).
  destruct (sm_ok_values _ Hok _ _ _ _ Hs Hp) as [v Ev]. rewrite Ev in *.
  wp_steps. eapply wp_deref; [done|]. by wp_steps.
Qed.

(** What is known of a cached proposal. *)
Lemma cached_of_inv s r c :
  cached_of s r = Some c ->
  exists v, GetProposal (voteCounter s) r = Some (cached c) /\ Value (cached c) = Some v /\
    cached_ID c = Some (Hash v) /\ Valid c = app_Valid (application s) v.
Proof.
  unfold cached_of. destruct (GetProposal _ _) as [p|]; [|done].
  destruct (Value p) as [v|] eqn:Ev; [|done]. intros [= <-]. simpl. eauto.
Qed.

Lemma guard_Some c (u : CachedProposal (V:=V) (H:=H) (A:=A) -> bool) x :
  guard c u = Some x -> c = Some x /\ u x = true.
Proof. unfold guard. destruct c as [y|]; [|done]. destruct (u y) eqn:E; naive_solver. Qed.

(** ** The measure of the loop *)

Definition mu (rr : option Z) s : Z :=
  (2 - Z.min 2 (step (st s))) +
  (if timeoutPrevoteScheduled (st s) then 0 else 1) +
  (if timeoutPrecommitScheduled (st s) then 0 else 1) +
  (if lockedValueAndOrValidValueSet (st s) then 0 else 1) +
  match rr with Some r => if round (st s) <? r then 6 else 0 | None => 0 end.

(** ** The rules *)

(** The vote that the bodies of lines 22 and 28 send, from their conditions. *)
Lemma prevote_id_ok s p v (b : bool) :
  b = app_Valid (application s) v && lock_allows s p v ->
  (if b then Some (Hash v) else None) = prevote_id s p v.
Proof. by intros ->. Qed.

Lemma wp_doFirstProposal s c (Q : act -> sm -> Prop) :
  cached_of s (round (st s)) = Some c -> uponFirstProposal s c = true ->
  (forall p v, votable s p v ->
     Q (BroadcastPrevote (own_vote s (prevote_id s p v))) (cast s Prevote (prevote_id s p v) StepPrevote)) ->
  wp (doFirstProposal c) Q s.
Proof.
  intros Hc Hu HQ. destruct (cached_of_inv _ _ _ Hc) as (v & Hp & Hv & Hid & Hval).
  unfold uponFirstProposal in Hu. bool_hyps.
  assert (HQb : forall b : bool, b = Valid c && lock_allows s (cached c) v ->
    Q (BroadcastPrevote (own_vote s (if b then cached_ID c else None))) (cast s Prevote (if b then cached_ID c else None) StepPrevote)).
  { intros b Hb. rewrite Hid, (prevote_id_ok s (cached c) v) by (by rewrite <- Hval).
    apply HQ. split_and!; [done|done|by left]. }
  assert (Hvr : (ValidRound (cached c) =? -1) = true) by (by apply Z.eqb_eq).
  unfold lock_allows, locked_on in HQb. rewrite Hvr in HQb.
  unfold doFirstProposal. do 4 wp_step; rewrite ?Heqb in HQb.
  - wp_step; rewrite ?Heqb0 in HQb.
    + wp_steps. by apply wp_prevote, (HQb true).
    + destruct (lockedValue (st s)) as [lv|] eqn:El.
      * unfold lockedHashIs. rewrite Hid. wp_steps. eapply wp_deref; [done|]. wp_steps. rewrite <- Hid.
        by apply wp_prevote, HQb.
      * wp_steps. by apply wp_prevote, (HQb false).
  - wp_steps. by apply wp_prevote, (HQb false).
Qed.

Lemma wp_doProposalAndPolkaPrevious s c (Q : act -> sm -> Prop) :
  cached_of s (round (st s)) = Some c -> uponProposalAndPolkaPrevious s c = true ->
  (forall p v, votable s p v ->
     Q (BroadcastPrevote (own_vote s (prevote_id s p v))) (cast s Prevote (prevote_id s p v) StepPrevote)) ->
  wp (doProposalAndPolkaPrevious c) Q s.
Proof.
  intros Hc Hu HQ. destruct (cached_of_inv _ _ _ Hc) as (v & Hp & Hv & Hid & Hval).
  unfold uponProposalAndPolkaPrevious in Hu. bool_hyps. rewrite Hid in *.
  assert (HQb : forall b : bool, b = Valid c && lock_allows s (cached c) v ->
    Q (BroadcastPrevote (own_vote s (if b then Some (Hash v) else None)))
      (cast s Prevote (if b then Some (Hash v) else None) StepPrevote)).
  { intros b Hb. rewrite (prevote_id_ok s (cached c) v) by (by rewrite <- Hval).
    apply HQ. split_and!; [done|done|right]. split_and!; [lia|lia|done]. }
  assert (Hvr : (ValidRound (cached c) =? -1) = false) by (apply Z.eqb_neq; lia).
  unfold lock_allows, locked_on in HQb. rewrite Hvr in HQb.
  unfold doProposalAndPolkaPrevious. rewrite Hid. do 4 wp_step; rewrite ?Heqb in HQb.
  - wp_step; rewrite ?Heqb0 in HQb.
    + wp_steps. by apply wp_prevote, (HQb true).
    + destruct (lockedValue (st s)) as [lv|] eqn:El.
      * unfold lockedHashIs. wp_steps. eapply wp_deref; [done|]. wp_steps. by apply wp_prevote, HQb.
      * wp_steps. by apply wp_prevote, (HQb false).
  - wp_steps. by apply wp_prevote, (HQb false).
Qed.

(** Line 36: lock and precommit when in the prevote step, and in any case
    record the valid value. *)
Lemma wp_doProposalAndPolkaCurrent s c (Q : option act -> sm -> Prop) :
  cached_of s (round (st s)) = Some c -> uponProposalAndPolkaCurrent s c = true ->
  (forall v, valid_proposal s (round (st s)) (cached c) v ->
     HasQuorumForVote (voteCounter s) (round (st s)) Prevote (Some (Hash v)) = true ->
     StepPrevote <= step (st s) -> lockedValueAndOrValidValueSet (st s) = false ->
     if step (st s) =? StepPrevote
     then Q (Some (BroadcastPrecommit (own_vote s (Some (Hash v)))))
            (set_valid_value (cast (lock s v) Precommit (Some (Hash v)) StepPrecommit) v)
     else Q None (set_valid_value s v)) ->
  wp (doProposalAndPolkaCurrent c) Q s.
Proof.
  intros Hc Hu HQ. destruct (cached_of_inv _ _ _ Hc) as (v & Hp & Hv & Hid & Hval).
  unfold uponProposalAndPolkaCurrent in Hu. bool_hyps. rewrite Hid in *.
  specialize (HQ v). unfold valid_proposal in HQ. rewrite <- Hval in HQ.
  unfold doProposalAndPolkaCurrent, upd_st. rewrite Hid, Hv. do 4 wp_step.
  - do 3 wp_step. apply wp_precommit. wp_steps. by apply HQ.
  - wp_steps. by apply HQ.
Qed.

(** A loop for a message decides in the round of the message. *)
Definition decides (rr : option Z) (p : Proposal V A) : Prop :=
  forall r, rr = Some r -> Round (proposal_header p) = r.

(** The result of one iteration of the loop from [s]. *)
Definition process_post (rr : option Z) s (res : option act * bool) s' : Prop :=
  (res = (None, false) /\ s' = s) \/
  (tstep s [] (option_list res.1) s' /\
   (res.2 = true -> mu rr s' < mu rr s /\ isHeightStarted s' = true /\
      height (st s') = height (st s)) /\
   (res.2 = false -> isHeightStarted s' = false /\ height (st s') = height (st s) + 1 /\
      exists p, res.1 = Some (Commit p) /\ decides rr p)).

Lemma wp_continue_with s (m : SE sm Empty_set act) (Q : option act * bool -> sm -> Prop) :
  wp m (fun a s' => Q (Some a, true) s') s -> wp (continue_with m) Q s.
Proof. intros. unfold continue_with. wp_step. eapply wp_mono; [done|]. intros. by wp_steps. Qed.

(** An iteration that performs a transition and goes on. *)
Lemma process_post_continue rr s oa s' :
  tstep s [] (option_list oa) s' -> mu rr s' < mu rr s -> isHeightStarted s' = true ->
  height (st s') = height (st s) -> process_post rr s (oa, true) s'.
Proof. intros. right. simpl. split_and!; [done|done|done]. Qed.

Lemma mu_cast_prevote rr s id :
  step (st s) = StepPropose -> mu rr (cast s Prevote id StepPrevote) < mu rr s.
Proof. intros Hs. unfold mu. simpl. rewrite Hs. unfold StepPropose, StepPrevote. lia. Qed.

Lemma mu_cast_precommit rr s id :
  step (st s) = StepPrevote -> mu rr (cast s Precommit id StepPrecommit) < mu rr s.
Proof. intros Hs. unfold mu. simpl. rewrite Hs. unfold StepPrecommit, StepPrevote. lia. Qed.

Lemma mu_new_round s r a s' :
  round (st s) < r -> new_round s r a s' -> mu (Some r) s' < mu (Some r) s.
Proof.
  intros Hr Hn. assert (E : mu (Some r) s' = 5).
  { destruct Hn; unfold mu; simpl; rewrite Z.ltb_irrefl; done. }
  rewrite E. unfold mu. destruct (Z.ltb_spec (round (st s)) r); [|lia].
  repeat case_match; lia.
Qed.

Lemma new_round_started s r a s' :
  new_round s r a s' -> isHeightStarted s' = isHeightStarted s /\ height (st s') = height (st s).
Proof. by destruct 1. Qed.

Lemma process_post_prevote rr s p v :
  isHeightStarted s = true -> step (st s) = StepPropose -> votable s p v ->
  process_post rr s (Some (BroadcastPrevote (own_vote s (prevote_id s p v))), true)
    (cast s Prevote (prevote_id s p v) StepPrevote).
Proof.
  intros. apply process_post_continue; [by apply t_prevote|by apply mu_cast_prevote|done|done].
Qed.

Lemma wp_process_current rr s c :
  isHeightStarted s = true -> cached_of s (round (st s)) = Some c ->
  uponProposalAndPolkaCurrent s c = true ->
  wp (a ← doProposalAndPolkaCurrent c; mret (a, true)) (process_post rr s) s.
Proof.
  intros Hst Hc Hu. wp_step. apply wp_doProposalAndPolkaCurrent; [done|done|].
  intros v Hv Hq Hstp Hfl. destruct (Z.eqb_spec (step (st s)) StepPrevote) as [Es|Es]; wp_steps.
  - apply process_post_continue; [by eapply t_lock| |done|done].
    unfold mu; simpl. rewrite Hfl, Es. unfold StepPrevote, StepPrecommit. lia.
  - apply process_post_continue; [eapply t_valid; [done|lia|done|done|done]| |done|done].
    unfold mu; simpl. rewrite Hfl. lia.
Qed.

Lemma wp_process_commit rr s r c :
  sm_ok s -> isHeightStarted s = true -> height (st s) < 2 ^ 64 - 1 ->
  cached_of s r = Some c -> uponCommitValue s c = true -> (rr = Some r \/ rr = None) ->
  wp (a ← doCommitValue c; mret (Some a, false)) (process_post rr s) s.
Proof.
  intros Hok Hst Hmax Hc Hu Hrr. pose proof (sm_ok_height_range _ Hok).
  destruct (cached_of_inv _ _ _ Hc) as (v & Hp & Hv & Hid & Hval).
  unfold uponCommitValue in Hu. bool_hyps. rewrite Hid in *.
  unfold doCommitValue, resetState, upd_st. wp_steps. right. simpl. split_and!; [|done|].
  2:{ rewrite u64_small by lia. intros _. split_and!; [done|done|]. exists (cached c). split; [done|].
      intros r' Er. rewrite (stored_proposal _ _ _ Hok Hp). destruct Hrr; simplify_eq; done. }
  apply (t_commit s r (cached c) v); [done|done|split_and!; [done|done|congruence]|done].
Qed.

(** One iteration: a transition, or nothing to do. *)
Lemma wp_process rr s :
  sm_ok s -> isHeightStarted s = true -> height (st s) < 2 ^ 64 - 1 ->
  wp (process rr) (process_post rr s) s.
Proof.
  intros Hok Hst Hmax. unfold process. do 3 wp_step. apply wp_findProposal; [done|]. wp_step.
  assert (Hrc : exists r0, (rr = Some r0 \/ rr = None) /\ wp (match rr with
     | Some r => findProposal r
     | None => mret (cached_of s (round (st s)))
     end) (fun o s' => o = cached_of s r0 /\ s' = s) s).
  { destruct rr as [r|]; [exists r; split; [by left|by apply wp_findProposal]|].
    exists (round (st s)). split; [by right|by wp_steps]. }
  destruct Hrc as (r0 & Hrr & Hrc). eapply wp_mono; [exact Hrc|]. intros o s' [-> ->].
  destruct (guard _ (uponFirstProposal s)) as [c|] eqn:G1.
  { apply guard_Some in G1 as [Hc Hu]. apply wp_continue_with, wp_doFirstProposal; [done..|].
    intros p v Hj. apply process_post_prevote; [done| |done].
    unfold uponFirstProposal in Hu. by bool_hyps. }
  destruct (guard _ (uponProposalAndPolkaPrevious s)) as [c|] eqn:G2.
  { apply guard_Some in G2 as [Hc Hu].
    apply wp_continue_with, wp_doProposalAndPolkaPrevious; [done..|].
    intros p v Hj. apply process_post_prevote; [done| |done].
    unfold uponProposalAndPolkaPrevious in Hu. by bool_hyps. }
  wp_step.
  { unfold uponPolkaAny in *. bool_hyps. apply wp_continue_with. unfold doPolkaAny, upd_st.
    wp_steps. apply wp_scheduleTimeout.
    apply process_post_continue; [by refine (t_polka_any s _ _ _ _)| |done|done].
    unfold mu; simpl. destruct (timeoutPrevoteScheduled (st s)); [done|lia]. }
  destruct (guard _ (uponProposalAndPolkaCurrent s)) as [c|] eqn:G3.
  { apply guard_Some in G3 as [Hc Hu]. by apply wp_process_current. }
  wp_step.
  { unfold uponPolkaNil in *. bool_hyps. apply wp_continue_with, wp_precommit.
    apply process_post_continue; [by apply t_polka_nil|by apply mu_cast_precommit|done|done]. }
  wp_step.
  { unfold uponPrecommitAny in *. bool_hyps. apply wp_continue_with. unfold doPrecommitAny, upd_st.
    wp_steps. apply wp_scheduleTimeout.
    apply process_post_continue; [by refine (t_precommit_any s _ _ _)| |done|done].
    unfold mu; simpl. destruct (timeoutPrecommitScheduled (st s)); [done|lia]. }
  destruct (guard _ (uponCommitValue s)) as [c|] eqn:G4.
  { apply guard_Some in G4 as [Hc Hu]. by eapply wp_process_commit. }
  destruct rr as [r|]; [|wp_steps; by left].
  wp_step; [|wp_steps; by left].
  unfold uponSkipRound in *. bool_hyps. apply wp_continue_with, wp_startRound.
  intros a s' Hn. destruct (new_round_started _ _ _ _ Hn) as [E1 E2].
  apply process_post_continue; [|by eapply mu_new_round|congruence|done].
  eapply t_skip; eauto.
Qed.

(** ** The loop *)

Lemma mu_range rr s : sm_ok s -> 0 <= mu rr s <= 11.
Proof.
  intros Hok. pose proof (sm_ok_step _ Hok) as Hs. unfold mu, StepPropose, StepPrecommit in *.
  repeat case_match; lia.
Qed.

(** Nothing is left to do: one more iteration changes nothing. *)
Definition quiet (rr : option Z) s : Prop := process rr s = (Ok (None, false), s).

(** How the loop ends: without a rule to apply in the same height, or with a
    commit that ends the height. *)
Definition loop_end (rr : option Z) s (a : list act) s' : Prop :=
  (isHeightStarted s' = true /\ height (st s') = height (st s) /\ quiet rr s') \/
  (isHeightStarted s' = false /\ height (st s') = height (st s) + 1 /\
   exists p, last a = Some (Commit p) /\ decides rr p).

Definition loop_post (rr : option Z) s (acts res : list act) s' : Prop :=
  exists a, res = acts ++ a /\ tsteps s [] a s' /\ loop_end rr s a s'.

Lemma loop_end_cons rr s s1 a b s' :
  height (st s1) = height (st s) -> loop_end rr s1 b s' -> loop_end rr s (a ++ b) s'.
Proof.
  intros E [(? & ? & ?)|(? & ? & p & Hl & Hd)]; [left; split_and!; [done|congruence|done]|right].
  split_and!; [done|congruence|]. exists p. by rewrite last_app, Hl.
Qed.

Lemma wp_processLoop_fuel n rr s acts :
  sm_ok s -> isHeightStarted s = true -> height (st s) < 2 ^ 64 - 1 ->
  mu rr s < Z.of_nat n ->
  wp (processLoop_fuel n acts rr) (loop_post rr s acts) s.
Proof.
  revert s acts. induction n as [|n IH]; intros s acts Hok Hst Hmax Hmu.
  { pose proof (mu_range rr s Hok). lia. }
  simpl. wp_step. destruct (wp_elim _ _ _ (wp_process rr s Hok Hst Hmax)) as (res & s1 & E & Hp).
  apply (wp_intro _ _ _ _ _ E). destruct Hp as [[-> ->]|(Ht & Hc & Hf)].
  { wp_steps. exists []. split_and!; [by rewrite app_nil_r|constructor|by left]. }
  destruct res as [oa [|]]; simpl in *.
  - destruct (Hc eq_refl) as (Hlt & Hst1 & Hh1). eapply wp_mono; [apply IH|].
    + by eapply tstep_ok.
    + done.
    + lia.
    + lia.
    + intros res s' (a & -> & Hts & He). exists (option_list oa ++ a). split_and!.
      * destruct oa; simpl; by rewrite <- ?app_assoc.
      * by apply (ts_cons s [] _ s1 []).
      * by eapply loop_end_cons.
  - destruct (Hf eq_refl) as (Hst1 & Hh1 & p & -> & Hd). wp_steps. exists [Commit p].
    split_and!; [done|by apply tsteps_one|]. right. split_and!; [done..|]. by exists p.
Qed.

Lemma wp_processLoop rr s acts :
  sm_ok s -> isHeightStarted s = true -> height (st s) < 2 ^ 64 - 1 ->
  wp (processLoop acts rr) (loop_post rr s acts) s.
Proof.
  intros Hok Hst Hmax. apply wp_processLoop_fuel; try done.
  pose proof (mu_range rr s Hok). lia.
Qed.

(** ** The handlers *)

(** Events the driver delivers: a proposal carries a value, a timeout is
    delivered while a height is started, the height of a vote is a [uint64]. *)
Definition event_ok s (ev : event (V:=V) (H:=H) (A:=A)) : Prop :=
  match ev with
  | EvStart r => 0 <= r
  | EvProposal p => is_Some (Value p)
  | EvSync p pcs => is_Some (Value p) /\ Forall (fun v => is_u64 (Height (vote_header v))) pcs
  | EvPrevote _ => True
  | EvPrecommit v => is_u64 (Height (vote_header v))
  | EvTimeout tm => isHeightStarted s = true /\ tm_Round tm < 2 ^ 63 - 1
  end.

(** A started height is not the last one a [uint64] can hold. *)
Definition height_left s : Prop := isHeightStarted s = true -> height (st s) < 2 ^ 64 - 1.

Abbreviation rcv := (received (V:=V) (H:=H) (A:=A)).

(** What a handler does: transitions that receive [ins] and stay in the height,
    or that end it with a commit as their last action. *)
Definition handler_post s (ins : list rcv) (acts : list act) s' : Prop :=
  tsteps s ins acts s' /\
  (height (st s') = height (st s) /\ (isHeightStarted s = true -> isHeightStarted s' = true) \/
   isHeightStarted s' = false /\ height (st s') = height (st s) + 1 /\
     exists p, last acts = Some (Commit p)).

Lemma handler_post_loop rr s s1 ins acts res s' :
  tsteps s ins acts s1 -> height (st s1) = height (st s) -> loop_post rr s1 acts res s' ->
  handler_post s ins res s'.
Proof.
  intros Ht E (a & -> & Hts & He). split; [rewrite <- (app_nil_r ins); by eapply tsteps_trans|].
  destruct He as [(? & ? & _)|(? & ? & p & Hl & _)]; [left; by split; [congruence|]|right].
  split_and!; [done|congruence|]. exists p. by rewrite last_app, Hl.
Qed.

(** A log entry, an action, and then the loop. *)
Lemma wp_loop_after rr s s1 ins acts :
  sm_ok s -> tsteps s ins acts s1 -> height (st s1) = height (st s) ->
  isHeightStarted s1 = true -> height (st s) < 2 ^ 64 - 1 ->
  wp (processLoop acts rr) (handler_post s ins) s1.
Proof.
  intros Hok Ht E Hst Hmax. eapply wp_mono; [apply wp_processLoop|]; [by eapply tsteps_ok|done|lia|].
  intros res s' Hp. by eapply handler_post_loop.
Qed.

Lemma wp_ProcessStart s r :
  sm_ok s -> height (st s) < 2 ^ 64 - 1 -> 0 <= r ->
  wp (ProcessStart r) (handler_post s [RcvStart r]) s.
Proof.
  intros Hok Hmax Hr. unfold ProcessStart. do 3 wp_step.
  { wp_steps. split; [by apply tsteps_one, t_start_again|by left]. }
  do 3 wp_step. apply wp_startRound. intros a s' Hn.
  destruct (new_round_started _ _ _ _ Hn) as [E1 E2].
  eapply (wp_loop_after _ s); try done. by eapply tsteps_one, t_start.
Qed.

(** Messages do nothing but being counted while the height is not started. *)
Definition message_post s (ins : list rcv) (acts : list act) s' : Prop :=
  handler_post s ins acts s' /\
  (isHeightStarted s = false -> isHeightStarted s' = false /\ acts = []).

(** A message: it is counted and logged, and the loop runs when it is for this
    height. *)
Lemma wp_processMessage s s1 ins hd e :
  sm_ok s -> height_left s -> tsteps s ins [WriteWAL e] s1 -> height (st s1) = height (st s) ->
  isHeightStarted s = true -> isHeightStarted s1 = true ->
  wp (processMessage hd e) (message_post s ins) s1.
Proof.
  intros Hok Hmax Ht E Hst Hst1. unfold processMessage. do 3 wp_step.
  - wp_steps. split; [|congruence]. split; [done|by left].
  - eapply wp_mono; [eapply (wp_loop_after _ s); eauto|].
    intros ? ? ?. split; [done|congruence].
Qed.

Lemma handler_post_absorb s s1 ins :
  tsteps s ins [] s1 -> height (st s1) = height (st s) ->
  isHeightStarted s1 = isHeightStarted s -> message_post s ins [] s1.
Proof.
  intros. split; [split; [done|left; split; congruence]|]. split; [congruence|done].
Qed.

Lemma wp_ProcessProposal s p :
  sm_ok s -> height_left s -> is_Some (Value p) ->
  wp (ProcessProposal p) (message_post s [RcvProposal p]) s.
Proof.
  intros Hok Hmax Hv. unfold ProcessProposal. wp_step. apply wp_counter_call. do 2 wp_step.
  wp_step; [wp_steps; apply handler_post_absorb; [|done..]; by apply tsteps_one, (t_proposal s p false)|].
  apply orb_false_iff in Heqb as [Ha%negb_false_iff Hst%negb_false_iff].
  apply wp_processMessage; try done. by apply tsteps_one, (t_proposal s p true).
Qed.

Lemma wp_ProcessPrevote s p :
  sm_ok s -> height_left s -> wp (ProcessPrevote p) (message_post s [RcvVote Prevote p]) s.
Proof.
  intros Hok Hmax. unfold ProcessPrevote. wp_step. apply wp_counter_call. do 2 wp_step.
  wp_step; [wp_steps; apply handler_post_absorb; [|done..]; by apply tsteps_one, (t_vote s Prevote p false)|].
  apply orb_false_iff in Heqb as [Ha%negb_false_iff Hst%negb_false_iff].
  apply wp_processMessage; try done. by apply tsteps_one, (t_vote s Prevote p true).
Qed.

(** The query either is not made, or changes the counter and fails, or finds a
    quorum of a later height. *)
Lemma wp_hasFuturePrecommitQuorum s p (Q : bool -> sm -> Prop) :
  (forall s', tsteps s [] [] s' -> height (st s') = height (st s) -> isHeightStarted s' = isHeightStarted s -> Q false s') ->
  (forall id v', ID p = Some id -> height (st s) < Height (vote_header p) -> lastTriggerSync s < Height (vote_header p) ->
     HasFuturePrecommitQuorum (voteCounter s) (Height (vote_header p)) (Round (vote_header p)) (Some id) = (true, v') ->
     Q true (set_voteCounter s v')) ->
  wp (hasFuturePrecommitQuorum p) Q s.
Proof.
  intros HQf HQt. unfold hasFuturePrecommitQuorum. do 3 wp_step.
  - bool_hyps. apply wp_counter_call. destruct (ID p) as [id|] eqn:Eid; [|by apply bool_decide_eq_true_1, is_Some_None in H2].
    destruct (HasFuturePrecommitQuorum _ _ _ _) as [[] v'] eqn:E; simpl; [by eapply HQt|].
    apply HQf; [|done|done]. pose proof (t_query s (Height (vote_header p)) (Round (vote_header p)) (Some id)) as Hq.
    rewrite E in Hq. by apply tsteps_one, Hq.
  - wp_steps. apply HQf; [constructor|done|done].
Qed.

Lemma wp_ProcessPrecommit s p :
  sm_ok s -> height_left s -> is_u64 (Height (vote_header p)) ->
  wp (ProcessPrecommit p) (message_post s [RcvVote Precommit p]) s.
Proof.
  intros Hok Hmax Hu. unfold ProcessPrecommit. wp_step. apply wp_counter_call. do 2 wp_step.
  assert (Ht : forall b, (b = true -> isHeightStarted s = true /\ (AddVote (voteCounter s) p Precommit).1 = true) ->
    tsteps s [RcvVote Precommit p] (log_entry (RcvVote Precommit p) b)
      (set_voteCounter s (AddPrecommit (voteCounter s) p).2)) by (intros b Hb; by apply tsteps_one, (t_vote s Precommit p b)).
  wp_step; [wp_steps; apply handler_post_absorb; [by apply (Ht false)|done..]|].
  apply orb_false_iff in Heqb as [Ha%negb_false_iff Hst%negb_false_iff]. wp_step.
  apply wp_hasFuturePrecommitQuorum.
  - intros s' Ht' Eh Est. cbv beta iota. apply wp_processMessage; try done; [|by rewrite Est].
    exact (tsteps_trans _ _ _ _ _ _ _ (Ht true ltac:(done)) Ht').
  - intros id v' Eid Hlt Hlts Eq. cbv beta iota. unfold triggerSync. wp_steps. split; [|simpl in *; congruence]. split; [|by left].
    refine (tsteps_trans _ _ _ _ [] _ _ (Ht false ltac:(done)) (tsteps_one _ _ _ _ _)).
    pose proof (t_sync (set_voteCounter s (AddPrecommit (voteCounter s) p).2) (Height (vote_header p))
      (Round (vote_header p)) id (Z.max (lastQuorum s) (Height (vote_header p))) Hu Hlt Hlts) as Hs. rewrite Eq in Hs. by apply Hs.
Qed.

Lemma message_post_trans s1 i a s2 j b s3 :
  message_post s1 i a s2 -> message_post s2 j b s3 -> message_post s1 (i ++ j) (a ++ b) s3.
Proof.
  intros [[Ht1 He1] Hu1] [[Ht2 He2] Hu2]. split; [split; [by eapply tsteps_trans|]|].
  - destruct He1 as [[E1 S1]|(S1 & E1 & p & Hp)].
    + destruct He2 as [[E2 S2]|(S2 & E2 & p & Hp)]; [left; split; [congruence|auto]|right].
      split_and!; [done|congruence|]. exists p. by rewrite last_app, Hp.
    + right. destruct (Hu2 S1) as [? ->]. rewrite app_nil_r.
      destruct He2 as [[E2 _]|(_ & _ & ? & ?)]; [|done]. split_and!; [done|congruence|eauto].
  - intros Hf. destruct (Hu1 Hf) as [Hf2 ->]. by destruct (Hu2 Hf2) as [? ->].
Qed.

Lemma message_post_left s i a s' : height_left s -> message_post s i a s' -> height_left s'.
Proof.
  unfold height_left. intros Hl [[_ He] Hu] Hst. destruct (isHeightStarted s) eqn:E.
  - destruct He as [[-> _]|(? & _)]; [auto|congruence].
  - destruct (Hu eq_refl). congruence.
Qed.

Lemma message_post_ok s i a s' : sm_ok s -> message_post s i a s' -> sm_ok s'.
Proof. intros ? [[? _] _]. by eapply tsteps_ok. Qed.

Lemma wp_processPrecommits ps s s1 ins acts :
  Forall (fun v => is_u64 (Height (vote_header v))) ps ->
  sm_ok s1 -> height_left s1 -> message_post s ins acts s1 ->
  wp (processPrecommits ps acts) (message_post s (ins ++ (RcvVote Precommit <$> ps))) s1.
Proof.
  intros Hps. revert s1 ins acts.
  induction Hps as [|p ps Hu Hps IH]; intros s1 ins acts Hok Hl Hp; simpl; [rewrite app_nil_r; by wp_steps|].
  wp_step. eapply wp_mono; [by apply wp_ProcessPrecommit|]. intros a s2 Hp2.
  rewrite cons_middle, app_assoc.
  apply IH; eauto using message_post_ok, message_post_left, message_post_trans.
Qed.

Lemma wp_ProcessSync s p ps :
  sm_ok s -> height_left s -> is_Some (Value p) ->
  Forall (fun v => is_u64 (Height (vote_header v))) ps ->
  wp (ProcessSync p ps) (message_post s (RcvProposal p :: (RcvVote Precommit <$> ps))) s.
Proof.
  intros Hok Hl Hv Hps. unfold ProcessSync. wp_step.
  eapply wp_mono; [by apply wp_ProcessProposal|]. intros a s2 Hp2.
  apply (wp_processPrecommits ps s s2 [RcvProposal p]); eauto using message_post_ok, message_post_left.
Qed.

(** A timeout that does not apply leaves the loop as it is. *)
Lemma wp_timeout_stale s tm :
  sm_ok s -> isHeightStarted s = true -> height_left s -> timeout_applies s tm = false ->
  wp (processLoop [] None) (handler_post s [RcvTimeout tm]) s.
Proof. intros Hok Hst Hl Hap. apply wp_loop_after; auto. by apply tsteps_one, t_timeout_stale. Qed.

Lemma wp_ProcessTimeout s tm :
  sm_ok s -> height_left s -> isHeightStarted s = true -> tm_Round tm < 2 ^ 63 - 1 ->
  wp (ProcessTimeout tm) (handler_post s [RcvTimeout tm]) s.
Proof.
  intros Hok Hl Hst Hr. unfold ProcessTimeout. destruct tm as [stp h r]. cbn [tm_Step tm_Round] in *.
  assert (Hstale : (height (st s) =? h) && (round (st s) =? r) &&
    ((stp =? StepPropose) && (step (st s) =? StepPropose) || (stp =? StepPrevote) && (step (st s) =? StepPrevote) ||
     (stp =? StepPrecommit)) = false -> timeout_applies s (mkTimeout stp h r) = false) by done.
  repeat wp_step; rewrite ?Heqb, ?Heqb0, ?Heqb1 in Hstale.
  - unfold onTimeoutPropose, isSameHeightAndRound. cbn [tm_Height tm_Round]. wp_step. wp_step. wp_step.
    + bool_hyps. subst. wp_step. apply wp_prevote. wp_steps. apply (wp_loop_after _ s); auto.
      by apply tsteps_one, t_timeout_propose.
    + wp_steps. apply wp_timeout_stale; auto. apply Hstale. apply Z.eqb_eq in Heqb as ->.
      cbn [Z.eqb StepPropose StepPrevote StepPrecommit] in *. by rewrite ?andb_true_l, ?andb_false_l, ?orb_false_r.
  - unfold onTimeoutPrevote, isSameHeightAndRound. cbn [tm_Height tm_Round]. wp_step. wp_step. wp_step.
    + bool_hyps. subst. wp_step. apply wp_precommit. wp_steps. apply (wp_loop_after _ s); auto.
      by apply tsteps_one, t_timeout_prevote.
    + wp_steps. apply wp_timeout_stale; auto. apply Hstale. apply Z.eqb_eq in Heqb0 as ->.
      cbn [Z.eqb StepPropose StepPrevote StepPrecommit] in *. by rewrite ?andb_true_l, ?andb_false_l, ?orb_false_r.
  - unfold onTimeoutPrecommit, isSameHeightAndRound. cbn [tm_Height tm_Round]. wp_step. wp_step. wp_step.
    + bool_hyps. subst. pose proof (sm_ok_round _ Hok).
      rewrite i64_small by lia. wp_step. apply wp_startRound. intros a s' Hn.
      destruct (new_round_started _ _ _ _ Hn). wp_steps. apply (wp_loop_after _ s); auto; [|congruence].
      by eapply tsteps_one, t_timeout_precommit.
    + wp_steps. apply wp_timeout_stale; [done..|]. by apply Hstale.
  - split; [|by left]. apply tsteps_one, t_timeout_stale, Hstale. by rewrite !andb_false_l, andb_false_r.
Qed.

Lemma wp_message (m : SE sm Empty_set (list act)) ins s :
  wp m (message_post s ins) s -> wp m (handler_post s ins) s.
Proof. intros Hm. eapply wp_mono; [done|]. by intros ? ? [? _]. Qed.

Lemma wp_handle s ev :
  sm_ok s -> height (st s) < 2 ^ 64 - 1 -> event_ok s ev ->
  wp (handle ev) (handler_post s (received_of ev)) s.
Proof.
  intros Hok Hmax Hev. assert (height_left s) by (by intros ?).
  destruct ev; simpl in *; [by apply wp_ProcessStart|..|apply wp_ProcessTimeout; naive_solver];
    apply wp_message.
  - by apply wp_ProcessProposal.
  - by apply wp_ProcessPrevote.
  - by apply wp_ProcessPrecommit.
  - destruct Hev. by apply wp_ProcessSync.
Qed.

End refine.
