(* ===== verification/TendermintSafety.v ===== *)
(** * Runs of a validator

    A run feeds a fresh state machine the events of the driver one after the
    other and collects the actions it returns.  The theorems state what holds
    of every run: handlers always return, votes are never contradicted, votes
    and commits are justified by quorums, heights are decided one by one. *)
From stdpp Require Import prelude gmap list.
From Stdlib Require Import ZArith Lia Sorted.
From S2P Require Import Prelude ConsensusTypes VoteCounter VoteCounterFacts.
From S2P Require Import Tendermint TendermintSpec TendermintRefine.

Local Open Scope Z_scope.

Section safety.
Context {V H A AS : Type} `{!Hashable V H} `{Countable H} `{Countable A}
  `{!Validators A} `{!Application V AS} `{!ValidatorsLaws A}.

Abbreviation sm := (stateMachine (V:=V) (H:=H) (A:=A) (AS:=AS)).
Abbreviation act := (Action V H A).
Implicit Types (s : sm).

Abbreviation rcv := (received (V:=V) (H:=H) (A:=A)).

(** ** Runs

    [run addr app h ins tr s]: what was received is [ins], the actions returned
    are [tr]. *)

Inductive run (addr : A) (app : AS) (h : Z) : list rcv -> list act -> sm -> Prop :=
| run_new : is_u64 h -> run addr app h [] [] (New addr app h)
| run_event ins tr s ev acts s' :
    run addr app h ins tr s -> event_ok s ev -> height (st s) < 2 ^ 64 - 1 ->
    handle ev s = (Ok acts, s') ->
    run addr app h (ins ++ received_of ev) (tr ++ acts) s'.

Lemma run_handle addr app h ins tr s ev acts s' :
  run addr app h ins tr s -> sm_ok s -> event_ok s ev -> height (st s) < 2 ^ 64 - 1 ->
  handle ev s = (Ok acts, s') -> handler_post s (received_of ev) acts s'.
Proof. intros _ Hok Hev Hh E. by eapply (wp_result _ _ _ _ _ (wp_handle s ev Hok Hh Hev)). Qed.

(** A run is a sequence of transitions from the initial state. *)
Lemma run_tsteps addr app h ins tr s :
  run addr app h ins tr s -> sm_ok s /\ tsteps (New addr app h) ins tr s.
Proof.
  induction 1 as [Hh|ins tr s ev acts s' Hr [Hok Ht] Hev Hh E].
  - split; [by apply New_ok|constructor].
  - destruct (run_handle _ _ _ _ _ _ _ _ _ Hr Hok Hev Hh E) as [Hts _].
    split; [by eapply tsteps_ok|by eapply tsteps_trans].
Qed.

Lemma New_votes_inv addr app h : votes_inv (New addr app h : sm) [].
Proof.
  split; [set_solver| set_solver|apply NoDup_nil_2|apply NoDup_nil_2|set_solver].
Qed.

(** ** Transitions inside a sequence *)

Lemma tsteps_nodeAddr s ins tr s' : sm_ok s -> tsteps s ins tr s' -> nodeAddr s' = nodeAddr s.
Proof.
  intros Hok Ht. induction Ht as [|s1 i a s2 j b s3 Hstep _ IH]; [done|].
  destruct (tstep_advances _ _ _ _ Hok Hstep) as [<- _]. eauto using tstep_ok.
Qed.

Lemma run_height addr app h ins tr s : run addr app h ins tr s -> is_u64 h.
Proof. by induction 1. Qed.

(** An action of a sequence of transitions is emitted by one of them. *)
Lemma tsteps_elem s ins tr s' a :
  tsteps s ins tr s' -> a ∈ tr ->
  exists ins1 tr1 s1 i b s2 ins2 tr2, tsteps s ins1 tr1 s1 /\ tstep s1 i b s2 /\ a ∈ b /\ tsteps s2 ins2 tr2 s' /\
    ins = ins1 ++ i ++ ins2 /\ tr = tr1 ++ b ++ tr2.
Proof.
  induction 1 as [|s1 i b s2 ins2 tr2 s3 Hstep Hts IH]; intros Ha; [set_solver|].
  apply elem_of_app in Ha as [Ha|Ha].
  - exists [], [], s1, i, b, s2, ins2, tr2. split_and!; try done. constructor.
  - destruct (IH Ha) as (i1 & t1 & u1 & i' & b' & u2 & i2 & t2 & H1' & H2' & H3' & H4' & -> & ->).
    exists (i ++ i1), (b ++ t1), u1, i', b', u2, i2, t2. split_and!; try done; [by econstructor|by rewrite <- app_assoc..].
Qed.

(** The values that were decided, in order. *)
Definition commits (tr : list act) : list (Proposal V A) :=
  omap (fun a => match a with Commit p => Some p | _ => None end) tr.

Lemma commits_app a b : commits (a ++ b) = commits a ++ commits b.
Proof. apply omap_app. Qed.

Lemma tstep_commits s i a s' :
  sm_ok s -> tstep s i a s' ->
  commits a = [] /\ height (st s') = height (st s) \/
  exists p, a = [Commit p] /\ Height (proposal_header p) = height (st s) /\
    height (st s') = height (st s) + 1.
Proof.
  intros Hok Ht. tcases Ht; unfold log_entry; try destruct logged; try (left; by split); try (left; by destruct Hn).
  right. exists p. destruct Hval as (Hg & _). rewrite (stored_proposal _ _ _ Hok Hg).
  split_and!; [done|done|]. simpl. pose proof (sm_ok_height_range _ Hok).
  by rewrite u64_small by lia.
Qed.

Lemma tsteps_commits s ins tr s' :
  sm_ok s -> tsteps s ins tr s' ->
  Height ∘ proposal_header <$> commits tr = seqZ (height (st s)) (Z.of_nat (length (commits tr))) /\
  height (st s') = height (st s) + Z.of_nat (length (commits tr)).
Proof.
  intros Hok Ht. induction Ht as [|s1 i a s2 j b s3 Hstep _ IH]; [simpl; split; [done|lia]|].
  destruct (IH (tstep_ok _ _ _ _ Hok Hstep)) as [E1 E2].
  rewrite commits_app.
  destruct (tstep_commits _ _ _ _ Hok Hstep) as [[Ea Eh]|(p & -> & Ep & Eh)].
  - rewrite Ea, app_nil_l, E1, E2, Eh. done.
  - change (commits [Commit p]) with [p]. rewrite fmap_app, length_app, E1, E2, Eh. simpl.
    rewrite Ep. split; [|lia]. rewrite (seqZ_cons (height (st s1))) by lia.
    f_equal. f_equal; lia.
Qed.

(** Quorums in terms of voting power. *)
Lemma quorum_power s r vt id :
  sm_ok s -> HasQuorumForVote (voteCounter s) r vt id = true ->
  2 * TotalVotingPower (height (st s)) <=
    3 * psum (ValidatorVotingPower (height (st s)))
          (round_voters (voteCounter s) (height (st s)) r vt id).
Proof.
  intros Hok Hq. apply HasQuorumForVote_voters in Hq; [|apply Hok].
  rewrite (sm_ok_height _ Hok) in Hq. pose proof (total_positive (height (st s))).
  pose proof (total_bounded (height (st s))).
  destruct (thresholds_exact (TotalVotingPower (height (st s)))) as [_ E]; [lia|].
  rewrite E in Hq. Z.to_euclidean_division_equations; lia.
Qed.

(** ** Synchronisation requests *)

Definition syncs (tr : list act) : list (Z * Z) :=
  omap (fun a => match a with TriggerSync i j => Some (i, j) | _ => None end) tr.

Lemma syncs_app a b : syncs (a ++ b) = syncs a ++ syncs b.
Proof. apply omap_app. Qed.

Definition before (i j : Z * Z) : Prop := i.2 < j.1.

Record sync_inv s (tr : list act) : Prop := {
  sy_same : lastTriggerSync s = lastQuorum s;
  sy_range : is_u64 (lastQuorum s);
  sy_past i : i ∈ syncs tr -> i.1 <= i.2 <= lastQuorum s;
  sy_sorted : StronglySorted before (syncs tr);
}.

Lemma StronglySorted_snoc {T} (R : T -> T -> Prop) l x :
  StronglySorted R l -> (forall y, y ∈ l -> R y x) -> StronglySorted R (l ++ [x]).
Proof.
  induction 1 as [|y l Hl IH Hy]; intros Hx; simpl; [by repeat constructor|].
  constructor; [apply IH; set_solver|]. rewrite Forall_app, Forall_singleton. split; [done|].
  apply Hx. set_solver.
Qed.

Lemma tstep_sync s tr i a s' :
  sm_ok s -> sync_inv s tr -> tstep s i a s' -> sync_inv s' (tr ++ a).
Proof.
  intros Hok [Es Hrg Hp Hsort] Ht. pose proof (sm_ok_height_range _ Hok).
  assert (Hkeep : syncs a = [] -> lastTriggerSync s' = lastTriggerSync s ->
                  lastQuorum s' = lastQuorum s -> sync_inv s' (tr ++ a)).
  { intros E E1 E2. split; rewrite ?syncs_app, ?E, ?app_nil_r, ?E1, ?E2; done. }
  tcases Ht; unfold log_entry in *; try destruct logged; try (by apply Hkeep); try (by apply Hkeep; destruct Hn).
  subst lq. split; simpl; rewrite ?syncs_app; [done|lia| |].
  - simpl. intros j [Hi|Hi]%elem_of_app; [specialize (Hp j Hi); lia|].
    apply list_elem_of_singleton in Hi as ->. simpl. rewrite u64_small by lia. lia.
  - simpl. apply StronglySorted_snoc; [done|]. intros j Hi. unfold before; simpl.
    specialize (Hp j Hi). rewrite u64_small by lia. lia.
Qed.

Lemma tsteps_sync s tr i a s' :
  sm_ok s -> sync_inv s tr -> tsteps s i a s' -> sync_inv s' (tr ++ a).
Proof.
  intros Hok Hi Ht. revert tr Hok Hi. induction Ht as [|s1 i a s2 j b s3 Hstep _ IH]; intros tr Hok Hi.
  - by rewrite app_nil_r.
  - rewrite app_assoc. apply IH; eauto using tstep_ok, tstep_sync.
Qed.

(** ** Properties of runs *)

(** C1: from every state a run reaches, every handler of the state machine
    returns: no nil dereference, and the processing loop reaches its end.  The
    actions it returns are those of a sequence of transitions of the Tendermint
    algorithm that receives exactly the messages of the event; either the height
    and its started flag are kept, or the height is ended by a commit, which is
    then the last action. *)
Theorem handlers_refine_algorithm addr app h ins tr s ev :
  run addr app h ins tr s -> event_ok s ev -> height (st s) < 2 ^ 64 - 1 ->
  exists acts s', handle ev s = (Ok acts, s') /\ tsteps s (received_of ev) acts s' /\
    (height (st s') = height (st s) /\ (isHeightStarted s = true -> isHeightStarted s' = true) \/
     isHeightStarted s' = false /\ height (st s') = height (st s) + 1 /\
       exists p acts', acts = acts' ++ [Commit p] /\ commits acts' = []).
Proof.
  intros Hr Hev Hh. destruct (run_tsteps _ _ _ _ _ _ Hr) as [Hok _].
  destruct (wp_elim _ _ _ (wp_handle s ev Hok Hh Hev)) as (acts & s' & E & Hts & Hend).
  exists acts, s'. split_and!; [done|done|]. destruct Hend as [?|(Hst & Hh' & p & Hl)]; [by left|].
  apply last_Some in Hl as [acts' ->]. right. split_and!; [done..|]. exists p, acts'. split; [done|].
  destruct (tsteps_commits _ _ _ _ Hok Hts) as [_ Hlen].
  rewrite commits_app, length_app in Hlen. simpl in Hlen. apply nil_length_inv. lia.
Qed.

(** C2: a validator never contradicts itself: over a whole run it broadcasts at
    most one prevote and at most one precommit per height and round, all of
    them signed with its own address. *)
Theorem no_equivocation addr app h ins tr s :
  run addr app h ins tr s ->
  NoDup (ballot_key <$> prevotes tr) /\ NoDup (ballot_key <$> precommits tr) /\
  Forall (fun v => Sender (vote_header v) = addr) (prevotes tr ++ precommits tr).
Proof.
  intros Hr. pose proof (run_height _ _ _ _ _ _ Hr) as Hh.
  destruct (run_tsteps _ _ _ _ _ _ Hr) as [Hok Ht].
  destruct (tsteps_votes_inv _ _ _ _ _ (New_ok addr app h Hh) (New_votes_inv _ _ _) Ht)
    as [Hv Hc Hvn Hcn _].
  split_and!; [done..|]. rewrite (tsteps_nodeAddr _ _ _ _ (New_ok addr app h Hh) Ht) in *. simpl in *.
  apply Forall_forall. intros v [Hin|Hin]%elem_of_app; [by apply Hv|by apply Hc].
Qed.

(** [a] is an action of a run, emitted in the state [s1] that the transitions
    reach after [ins1] was received and [tr1] was done, in a transition that
    receives [now]. *)
Definition emitted addr app h (ins : list rcv) (tr : list act) (a : act) (ins1 now : list rcv) (tr1 : list act) s1
  : Prop :=
  tsteps (New addr app h) ins1 tr1 s1 /\ ins1 ++ now `prefix_of` ins /\ (exists l, tr1 ++ l ++ [a] `prefix_of` tr).

(** Validators with two thirds of the voting power sent this vote: each vote was
    received, or is one of the validator's own. *)
Definition two_thirds (ins : list rcv) (tr : list act) (h r : Z) (vt : VoteType) (id : option H) : Prop :=
  exists X : gset A, (forall x, x ∈ X -> voted ins tr vt (mkVote (mkHeader h r x) id)) /\
    2 * TotalVotingPower h <= 3 * psum (ValidatorVotingPower h) X.

Lemma quorum_two_thirds_heard ins tr s r vt id :
  sm_ok s -> heard ins tr s -> HasQuorumForVote (voteCounter s) r vt id = true ->
  two_thirds ins tr (height (st s)) r vt id.
Proof.
  intros Hok Hh Hq. exists (round_voters (voteCounter s) (height (st s)) r vt id).
  split; [intros x; by apply Hh|by apply quorum_power].
Qed.

Lemma stored_proposed ins tr s r p :
  heard ins tr s -> GetProposal (voteCounter s) r = Some p -> proposed ins tr p.
Proof. intros Hh (rd & Hs & Hp)%GetProposal_slot. by eapply (hd_proposals _ _ _ Hh). Qed.

(** An action of a run is emitted by a transition from a state that has heard
    only what was received before. *)
Lemma run_elem addr app h ins tr s a :
  run addr app h ins tr s -> a ∈ tr ->
  exists ins1 now tr1 s1 b s2, emitted addr app h ins tr a ins1 now tr1 s1 /\ sm_ok s1 /\ heard ins1 tr1 s1 /\
    tstep s1 now b s2 /\ a ∈ b.
Proof.
  intros Hr Ha. pose proof (New_ok addr app h (run_height _ _ _ _ _ _ Hr)) as Hn.
  destruct (run_tsteps _ _ _ _ _ _ Hr) as [_ Ht].
  destruct (tsteps_elem _ _ _ _ _ Ht Ha) as (ins1 & tr1 & s1 & i & b & s2 & ins2 & tr2 & H1' & H2' & H3' & _ & -> & ->).
  exists ins1, i, tr1, s1, b, s2. split_and!; try done.
  - split_and!; [done|exists ins2; by rewrite app_assoc|].
    apply list_elem_of_split in H3' as (l1 & l2 & ->). exists l1, (l2 ++ tr2). by rewrite <- !app_assoc.
  - by eapply tsteps_ok.
  - exact (tsteps_heard _ _ _ _ _ _ Hn (New_heard _ _ _) H1').
Qed.

(** Case analysis of the transition that emitted an action. *)
Ltac emitter Hb Ha :=
  destruct Hb as [p0 logged Hv Hlog|vt v0 logged Hlog|h0 r id Hfq|target r id lq Hu Hlt Hlts Hfq Hlq
    |r a0 s0 Hst Hr Hn|r Hst|r a0 s0 Hst Hr Hnf Hn|tm Hst Htm Hstp|tm Hst Htm Hstp|tm a0 s0 Hst Htm Hn|tm Hap
    |p0 v0 Hst Hstp Hvo|Hst Hstp Hq Hfl|p0 v0 Hst Hstp Hfl Hval Hq|p0 v0 Hst Hstp Hfl Hval Hq|Hst Hstp Hq
    |Hst Hq Hfl|r p0 v0 Hst Hmax Hval Hq]; try destruct Hn; unfold log_entry in *; try destruct logged;
  rewrite ?elem_of_cons, ?elem_of_nil in Ha; destruct_or? Ha; try done; try discriminate Ha.

(** C3: every prevote of a run was cast in the propose step of the validator's
    height and round.  It is for nil after the propose timeout; otherwise it
    follows a proposal of the round's proposer, received or the validator's own,
    that names no valid round or an earlier one in which two thirds of the voting
    power sent prevotes for its value, and it is for this value exactly when the
    application accepts it and the lock allows it, and for nil if not. *)
Theorem prevote_respects_lock addr app h ins tr s v :
  run addr app h ins tr s -> BroadcastPrevote v ∈ tr ->
  exists ins1 now tr1 s1, emitted addr app h ins tr (BroadcastPrevote v) ins1 now tr1 s1 /\
    v = own_vote s1 (ID v) /\ step (st s1) = StepPropose /\
    (ID v = None /\ now = [RcvTimeout (mkTimeout StepPropose (height (st s1)) (round (st s1)))] \/
     exists p x, proposed ins1 tr1 p /\
       proposal_header p = mkHeader (height (st s1)) (round (st s1)) (Proposer (height (st s1)) (round (st s1))) /\
       Value p = Some x /\ ID v = prevote_id s1 p x /\
       (ValidRound p = -1 \/ 0 <= ValidRound p < round (st s1) /\
          two_thirds ins1 tr1 (height (st s1)) (ValidRound p) Prevote (Some (Hash x)))).
Proof.
  intros Hrun Ha. destruct (run_elem _ _ _ _ _ _ _ Hrun Ha) as (ins1 & now & tr1 & s1 & b & s2 & He & Hok & Hh & Hb & Hin).
  exists ins1, now, tr1, s1. split; [done|]. emitter Hb Hin; simplify_eq.
  - split_and!; [done|done|by left].
  - split_and!; [done|done|right]. destruct Hvo as (Hg & Hv & Hvr). exists p0, v0.
    split_and!; [by eapply stored_proposed|by apply stored_proposal|done|done|].
    destruct Hvr as [?|[? ?]]; [by left|right]. split; [done|by apply quorum_two_thirds_heard].
Qed.

(** C4: every precommit of a run was cast in the prevote step of the validator's
    height and round.  One for nil follows the prevote timeout or prevotes for
    nil of two thirds of the voting power; one for an identifier is for the value
    of the round's proposal, which the application accepts and for which two
    thirds of the voting power sent prevotes in this round. *)
Theorem precommit_has_polka addr app h ins tr s v :
  run addr app h ins tr s -> BroadcastPrecommit v ∈ tr ->
  exists ins1 now tr1 s1, emitted addr app h ins tr (BroadcastPrecommit v) ins1 now tr1 s1 /\
    v = own_vote s1 (ID v) /\ step (st s1) = StepPrevote /\
    (ID v = None /\ now = [RcvTimeout (mkTimeout StepPrevote (height (st s1)) (round (st s1)))] \/
     two_thirds ins1 tr1 (height (st s1)) (round (st s1)) Prevote (ID v) /\
     (ID v = None \/
      exists p x, proposed ins1 tr1 p /\ valid_proposal s1 (round (st s1)) p x /\ ID v = Some (Hash x))).
Proof.
  intros Hrun Ha. destruct (run_elem _ _ _ _ _ _ _ Hrun Ha) as (ins1 & now & tr1 & s1 & b & s2 & He & Hok & Hh & Hb & Hin).
  exists ins1, now, tr1, s1. split; [done|]. emitter Hb Hin; simplify_eq.
  - split_and!; [done|done|by left].
  - split_and!; [done|done|right]. split; [by apply quorum_two_thirds_heard|right]. exists p0, v0.
    split_and!; [by destruct Hval; eapply stored_proposed|done|done].
  - split_and!; [done|done|right]. split; [by apply quorum_two_thirds_heard|by left].
Qed.

(** C5: every decision of a run is justified: the proposal was received, or is
    the validator's own, and comes from the proposer of its height and round, the
    application accepts its value, and validators with two thirds of the voting
    power sent precommits for it in the proposal's round. *)
Theorem commit_justified addr app h ins tr s p :
  run addr app h ins tr s -> Commit p ∈ tr ->
  exists ins1 now tr1 s1 r x, emitted addr app h ins tr (Commit p) ins1 now tr1 s1 /\
    proposed ins1 tr1 p /\
    proposal_header p = mkHeader (height (st s1)) r (Proposer (height (st s1)) r) /\
    Value p = Some x /\ app_Valid (application s1) x = true /\
    two_thirds ins1 tr1 (height (st s1)) r Precommit (Some (Hash x)).
Proof.
  intros Hrun Ha. destruct (run_elem _ _ _ _ _ _ _ Hrun Ha) as (ins1 & now & tr1 & s1 & b & s2 & He & Hok & Hh & Hb & Hin).
  emitter Hb Hin; simplify_eq. destruct Hval as (Hg & Hv & Hva). pose proof (stored_proposal _ _ _ Hok Hg) as Hhd.
  exists ins1, [], tr1, s1, r, v0. split_and!; [done|by eapply stored_proposed|done|done|done|].
  apply quorum_two_thirds_heard; [done|done|]. by rewrite Hhd in Hq.
Qed.

(** C6: a run decides the heights from its first one upwards, each exactly once
    and without a gap, and its current height is the next one to decide. *)
Theorem heights_decided_in_order addr app h ins tr s :
  run addr app h ins tr s ->
  Height ∘ proposal_header <$> commits tr = seqZ h (Z.of_nat (length (commits tr))) /\
  height (st s) = h + Z.of_nat (length (commits tr)).
Proof.
  intros Hr. destruct (run_tsteps _ _ _ _ _ _ Hr) as [_ Ht].
  apply (tsteps_commits _ _ _ _ (New_ok addr app h (run_height _ _ _ _ _ _ Hr)) Ht).
Qed.

(** in every state of a run, a locked value was prevoted by two thirds of
    the voting power in its locked round, which is not after the current round;
    without a lock the locked round is -1; the same holds of the valid value,
    and the valid round is never before the locked one. *)
Theorem lock_backed_by_polka addr app h ins tr s :
  run addr app h ins tr s ->
  let backed ov r :=
    ov = None /\ r = -1 \/
    exists x, ov = Some x /\ 0 <= r <= round (st s) /\
      2 * TotalVotingPower (height (st s)) <=
        3 * psum (ValidatorVotingPower (height (st s)))
              (round_voters (voteCounter s) (height (st s)) r Prevote (Some (Hash x))) in
  backed (lockedValue (st s)) (lockedRound (st s)) /\
  backed (validValue (st s)) (validRound (st s)) /\
  lockedRound (st s) <= validRound (st s).
Proof.
  intros Hr backed. destruct (run_tsteps _ _ _ _ _ _ Hr) as [Hok _].
  assert (Hb : forall ov r, polka s ov r -> backed ov r).
  { intros ov r [?|(x & ? & ? & ?)]; [by left|]. right. exists x. auto using quorum_power. }
  split_and!; [apply Hb, Hok|apply Hb, Hok|apply Hok].
Qed.

(** C7: the processing loop of a reachable state always ends after at most
    twelve iterations, keeps the actions it was given in front, and stops only
    when no rule applies any more or with a decision. *)
Theorem processLoop_total addr app h ins tr s acts rr :
  run addr app h ins tr s -> isHeightStarted s = true -> height (st s) < 2 ^ 64 - 1 ->
  exists a s', processLoop acts rr s = (Ok (acts ++ a), s') /\ tsteps s [] a s' /\
    (process rr s' = (Ok (None, false), s') \/ exists p, last a = Some (Commit p)).
Proof.
  intros Hr Hst Hh. destruct (run_tsteps _ _ _ _ _ _ Hr) as [Hok _].
  destruct (wp_elim _ _ _ (wp_processLoop rr s acts Hok Hst Hh)) as (res & s' & E & a & -> & Ht & He).
  exists a, s'. split_and!; [done|done|]. destruct He as [(_ & _ & Hq)|(_ & _ & p & Hp & _)]; eauto.
Qed.

(** The decisions of a loop, when it ends with one. *)
Lemma loop_commit rr s acts res s' q :
  sm_ok s -> loop_post rr s acts res s' -> Commit q ∈ res -> Commit q ∈ acts \/ decides rr q.
Proof.
  intros Hok (a & -> & Ht & He) [?|Hq]%elem_of_app; [by left|right].
  destruct (tsteps_commits _ _ _ _ Hok Ht) as [_ Hlen].
  assert (Hc : q ∈ commits a) by (apply list_elem_of_omap; eauto).
  destruct He as [(_ & Eh & _)|(_ & Eh & p & Hl & Hd)].
  - destruct (commits a); [set_solver|simpl in Hlen; lia].
  - apply last_Some in Hl as [a' ->]. rewrite commits_app in *. cbn [commits omap list_omap app] in *.
    rewrite length_app in Hlen. simpl in Hlen. destruct (commits a'); [|simpl in Hlen; lia].
    apply list_elem_of_singleton in Hc as ->. done.
Qed.

Lemma wp_processMessage_round s hd e :
  sm_ok s -> isHeightStarted s = true -> height (st s) < 2 ^ 64 - 1 ->
  wp (processMessage hd e) (fun acts _ => forall q, Commit q ∈ acts -> Round (proposal_header q) = Round hd) s.
Proof.
  intros Hok Hst Hmax. unfold processMessage. do 3 wp_step.
  - wp_steps. intros q. rewrite elem_of_cons, elem_of_nil. by intros [?|?].
  - eapply wp_mono; [by apply wp_processLoop|]. intros res s' Hp q Hq.
    destruct (loop_commit _ _ _ _ _ _ Hok Hp Hq) as [Hin|Hd]; [|by apply Hd].
    by apply list_elem_of_singleton in Hin.
Qed.

(** C9: handling a message decides a value in the round of this message only: a
    quorum of precommits for the current round, or for any other, that is
    complete at the same time is not acted upon. *)
Theorem decision_in_message_round addr app h ins tr s ev acts s' p :
  run addr app h ins tr s -> event_ok s ev -> height (st s) < 2 ^ 64 - 1 ->
  handle ev s = (Ok acts, s') -> Commit p ∈ acts ->
  match ev with
  | EvProposal q => Round (proposal_header p) = Round (proposal_header q)
  | EvPrevote v | EvPrecommit v => Round (proposal_header p) = Round (vote_header v)
  | _ => True
  end.
Proof.
  intros Hr Hev Hmax E Hp. destruct (run_tsteps _ _ _ _ _ _ Hr) as [Hok _].
  assert (Hnil : forall q hd, Commit q ∈ ([] : list act) -> Round (proposal_header q) = Round (A:=A) hd) by (intros q hd; by rewrite elem_of_nil).
  destruct ev as [r|q|v|v|q pcs|tm]; try done; cbn [handle] in E; revert p Hp.
  - refine (wp_result _ (fun acts _ => forall p, Commit p ∈ acts -> _) _ _ _ _ E). unfold ProcessProposal.
    wp_step. apply wp_counter_call. do 2 wp_step. wp_step; [wp_steps; eauto|].
    apply orb_false_iff in Heqb as [_ Hst%negb_false_iff]. apply wp_processMessage_round; [|done|done].
    by apply (sm_ok_op s (OpProposal q)).
  - refine (wp_result _ (fun acts _ => forall p, Commit p ∈ acts -> _) _ _ _ _ E). unfold ProcessPrevote.
    wp_step. apply wp_counter_call. do 2 wp_step. wp_step; [wp_steps; eauto|].
    apply orb_false_iff in Heqb as [_ Hst%negb_false_iff]. apply wp_processMessage_round; [|done|done].
    by apply (sm_ok_op s (OpVote Prevote v)).
  - refine (wp_result _ (fun acts _ => forall p, Commit p ∈ acts -> _) _ _ _ _ E). unfold ProcessPrecommit.
    wp_step. apply wp_counter_call. do 2 wp_step. wp_step; [wp_steps; eauto|].
    apply orb_false_iff in Heqb as [_ Hst%negb_false_iff]. wp_step.
    assert (Hok1 : sm_ok (set_voteCounter s (AddPrecommit (voteCounter s) v).2)) by (by apply (sm_ok_op s (OpVote Precommit v))).
    apply wp_hasFuturePrecommitQuorum.
    + intros s1 Ht Eh Est. apply wp_processMessage_round; [by eapply tsteps_ok|congruence|by rewrite Eh].
    + intros id v' _ _ _ _. cbv beta iota. unfold triggerSync. wp_steps. intros q. rewrite elem_of_cons, elem_of_nil. by intros [?|?].
Qed.

(** What the validator takes notice of: the start of a height that is not started,
    a message that the counter accepts while a height is started (unless it
    completes a quorum of precommits for a later height, which asks for a
    synchronisation instead), and a timeout that applies. *)
Definition future_quorum s (v : Vote H A) : bool :=
  match (hasFuturePrecommitQuorum v s).1 with Ok b => b | _ => false end.

Definition accepted s (i : rcv) : bool :=
  match i with
  | RcvStart _ => negb (isHeightStarted s)
  | RcvProposal p => isHeightStarted s && (AddProposal (voteCounter s) p).1
  | RcvVote Prevote v => isHeightStarted s && (AddPrevote (voteCounter s) v).1
  | RcvVote Precommit v =>
      isHeightStarted s && (AddPrecommit (voteCounter s) v).1 &&
      negb (future_quorum (set_voteCounter s (AddPrecommit (voteCounter s) v).2) v)
  | RcvTimeout tm => timeout_applies s tm
  end.

(** The actions log an entry, if they do, before anything else and once. *)
Definition logs_first (e : walEntry V H A) (logged : bool) (acts : list act) : Prop :=
  if logged then exists rest, acts = WriteWAL e :: rest /\ logged_entries rest = [] else logged_entries acts = [].

Lemma loop_logs_nothing rr s acts res s' : loop_post rr s acts res s' -> exists a, res = acts ++ a /\ logged_entries a = [].
Proof.
  intros (a & -> & Ht & _). exists a. split; [done|]. apply tsteps_logged in Ht. by apply sublist_nil_r in Ht.
Qed.

Lemma wp_loop_logs rr s e (x : list act) logged :
  sm_ok s -> isHeightStarted s = true -> height (st s) < 2 ^ 64 - 1 -> logs_first e logged x ->
  wp (processLoop x rr) (fun acts _ => logs_first e logged acts) s.
Proof.
  intros Hok Hst Hmax Hx. eapply wp_mono; [by apply wp_processLoop|].
  intros res s' (a & -> & Ha)%loop_logs_nothing. unfold logs_first, logged_entries in *.
  destruct logged; [destruct Hx as (rest & -> & Hr); exists (rest ++ a); split; [done|]|]; by rewrite omap_app, ?Hr, ?Hx, Ha.
Qed.

Lemma wp_message_logs s hd e :
  sm_ok s -> isHeightStarted s = true -> height (st s) < 2 ^ 64 - 1 ->
  wp (processMessage hd e) (fun acts _ => logs_first e true acts) s.
Proof.
  intros Hok Hst Hmax. assert (Hx : logs_first e true [WriteWAL e]) by (by exists []).
  unfold processMessage. do 3 wp_step; [by wp_steps|by apply wp_loop_logs].
Qed.

Lemma wp_start_logs s r :
  sm_ok s -> height (st s) < 2 ^ 64 - 1 -> 0 <= r ->
  wp (ProcessStart r) (fun acts _ => logs_first (entry_of (RcvStart r)) (accepted s (RcvStart r)) acts) s.
Proof.
  intros Hok Hmax Hr. unfold ProcessStart, accepted. do 3 wp_step; [by wp_steps|].
  do 3 wp_step. apply wp_startRound. intros a s' Hn. destruct (new_round_started _ _ _ _ Hn) as [E1 E2].
  apply wp_loop_logs; [|by rewrite E1|by rewrite E2|].
  - eapply (tstep_ok s); [done|]. by eapply t_start.
  - eexists. split; [done|]. by destruct Hn.
Qed.

Lemma wp_precommit_logs s v :
  sm_ok s -> height (st s) < 2 ^ 64 - 1 ->
  wp (ProcessPrecommit v)
    (fun acts _ => logs_first (WALPrecommit v) (accepted s (RcvVote Precommit v)) acts) s.
Proof.
  intros Hok Hmax. unfold ProcessPrecommit, accepted. wp_step. apply wp_counter_call. do 2 wp_step.
  set (s1 := set_voteCounter s _). wp_step.
  - wp_steps. cbn. apply orb_true_iff in Heqb as [->%negb_true_iff|E]; [by rewrite andb_false_r|].
    replace (isHeightStarted s) with false; [done|]. by apply negb_true_iff in E.
  - apply orb_false_iff in Heqb as [Ha%negb_false_iff Hst%negb_false_iff]. cbn in Hst. rewrite Hst, Ha. cbn [andb].
    assert (Hok1 : sm_ok s1) by (by apply (sm_ok_op s (OpVote Precommit v))).
    destruct (wp_elim (hasFuturePrecommitQuorum v)
      (fun b s2 => b = false -> sm_ok s2 /\ isHeightStarted s2 = true /\ height (st s2) < 2 ^ 64 - 1) s1) as (b & s2 & E & Hb).
    { apply wp_hasFuturePrecommitQuorum; [|done]. intros s2 Ht Eh Est _. split_and!; [by eapply tsteps_ok|by rewrite Est|by rewrite Eh]. }
    unfold future_quorum. rewrite E. cbn [fst]. wp_step. eapply wp_intro; [exact E|]. destruct b; cbn [negb].
    + unfold triggerSync. by wp_steps.
    + destruct (Hb eq_refl) as (? & ? & ?). by apply wp_message_logs.
Qed.

Lemma wp_timeout_logs s tm :
  sm_ok s -> isHeightStarted s = true -> height (st s) < 2 ^ 64 - 1 -> tm_Round tm < 2 ^ 63 - 1 ->
  wp (ProcessTimeout tm) (fun acts _ => logs_first (WALTimeout tm) (accepted s (RcvTimeout tm)) acts) s.
Proof.
  intros Hok Hst Hmax Hr. unfold ProcessTimeout, accepted, timeout_applies. destruct tm as [stp h r]. cbn [tm_Step tm_Round tm_Height] in *.
  assert (Hone : forall a : act, logged_entries [a] = [] -> logs_first (WALTimeout (mkTimeout stp h r)) true [WriteWAL (WALTimeout (mkTimeout stp h r)); a])
    by (intros a; by exists [a]).
  repeat wp_step; rewrite ?Heqb, ?Heqb0, ?Heqb1.
  - unfold onTimeoutPropose, isSameHeightAndRound. cbn [tm_Height tm_Round]. apply Z.eqb_eq in Heqb as ->.
    change (StepPropose =? StepPrevote) with false. change (StepPropose =? StepPrecommit) with false.
    rewrite andb_true_l, andb_false_l, !orb_false_r. do 3 wp_step.
    + wp_step. apply wp_prevote. wp_steps. apply wp_loop_logs; [|done|done|by apply Hone].
      bool_hyps. subst. eapply (tstep_ok s); [done|by apply t_timeout_propose].
    + wp_steps. by apply wp_loop_logs.
  - unfold onTimeoutPrevote, isSameHeightAndRound. cbn [tm_Height tm_Round]. apply Z.eqb_eq in Heqb0 as ->.
    change (StepPrevote =? StepPrecommit) with false. rewrite andb_true_l, andb_false_l, orb_false_l, orb_false_r. do 3 wp_step.
    + wp_step. apply wp_precommit. wp_steps. apply wp_loop_logs; [|done|done|by apply Hone].
      bool_hyps. subst. eapply (tstep_ok s); [done|by apply t_timeout_prevote].
    + wp_steps. by apply wp_loop_logs.
  - unfold onTimeoutPrecommit, isSameHeightAndRound. cbn [tm_Height tm_Round]. apply Z.eqb_eq in Heqb1 as ->.
    rewrite orb_true_r, andb_true_r. do 3 wp_step.
    + bool_hyps. subst. rewrite i64_small by (pose proof (sm_ok_round _ Hok); lia). wp_step.
      apply wp_startRound. intros a s' Hn. destruct (new_round_started _ _ _ _ Hn) as [E1 E2]. wp_steps.
      apply wp_loop_logs; [|by rewrite E1|by rewrite E2|].
      * eapply (tstep_ok s); [done|]. by eapply t_timeout_precommit.
      * apply Hone. by destruct Hn.
    + wp_steps. by apply wp_loop_logs.
  - by rewrite !andb_false_l, andb_false_r.
Qed.

(** The one thing an event delivers; a synchronisation delivers a proposal and
    precommits, one after the other. *)
Definition single (ev : event (V:=V) (H:=H) (A:=A)) : option rcv :=
  match ev with
  | EvSync _ _ => None
  | _ => head (received_of ev)
  end.

Lemma wp_handle_logs s ev i :
  sm_ok s -> height (st s) < 2 ^ 64 - 1 -> event_ok s ev -> single ev = Some i ->
  wp (handle ev) (fun acts _ => logs_first (entry_of i) (accepted s i) acts) s.
Proof.
  intros Hok Hmax Hev Hi. destruct ev as [r|q|v|v|q pcs|tm]; try done; cbn [handle] in *; injection Hi as <-.
  - by apply wp_start_logs.
  - unfold ProcessProposal, accepted. wp_step. apply wp_counter_call. do 2 wp_step. wp_step.
    + wp_steps. apply orb_true_iff in Heqb as [->%negb_true_iff|E%negb_true_iff]; [by rewrite andb_false_r|]. cbn in E. by rewrite E.
    + apply orb_false_iff in Heqb as [Ha%negb_false_iff Hst%negb_false_iff]. cbn in Hst. rewrite Hst, Ha.
      apply wp_message_logs; [|done|done]. by apply (sm_ok_op s (OpProposal q)).
  - unfold ProcessPrevote, accepted. wp_step. apply wp_counter_call. do 2 wp_step. wp_step.
    + wp_steps. apply orb_true_iff in Heqb as [->%negb_true_iff|E%negb_true_iff]; [by rewrite andb_false_r|]. cbn in E. by rewrite E.
    + apply orb_false_iff in Heqb as [Ha%negb_false_iff Hst%negb_false_iff]. cbn in Hst. rewrite Hst, Ha.
      apply wp_message_logs; [|done|done]. by apply (sm_ok_op s (OpVote Prevote v)).
  - by apply wp_precommit_logs.
  - destruct Hev. by apply wp_timeout_logs.
Qed.

(** C40: the log of a run holds what the validator received and accepted, in the
    order of reception, and nothing else: neither the proposals nor the votes it
    makes itself.  A handler that accepts a message, a start or a timeout logs it
    before any other action, once; it logs nothing when it does not accept it. *)
Theorem log_holds_received addr app h ins tr s ev acts s' :
  run addr app h ins tr s -> event_ok s ev -> height (st s) < 2 ^ 64 - 1 -> handle ev s = (Ok acts, s') ->
  logged_entries (tr ++ acts) `sublist_of` (entry_of <$> ins ++ received_of ev) /\
  forall i, single ev = Some i -> logs_first (entry_of i) (accepted s i) acts.
Proof.
  intros Hr Hev Hmax E. destruct (run_tsteps _ _ _ _ _ _ Hr) as [Hok Ht]. split.
  - apply tsteps_logged with (s := New addr app h) (s' := s'). eapply tsteps_trans; [exact Ht|].
    by destruct (wp_result _ _ _ _ _ (wp_handle s ev Hok Hmax Hev) E).
  - intros i Hi. exact (wp_result _ _ _ _ _ (wp_handle_logs s ev i Hok Hmax Hev Hi) E).
Qed.

(** the synchronisation requests of a run are non-empty intervals of heights
    that never overlap and only move up. *)
Theorem sync_requests_disjoint addr app h ins tr s :
  run addr app h ins tr s ->
  Forall (fun i => i.1 <= i.2) (syncs tr) /\ StronglySorted (fun i j => i.2 < j.1) (syncs tr).
Proof.
  intros Hr. destruct (run_tsteps _ _ _ _ _ _ Hr) as [_ Ht].
  assert (Hi : sync_inv (New addr app h : sm) []).
  { split; [done|done|set_solver|constructor]. }
  destruct (tsteps_sync _ _ _ _ _ (New_ok addr app h (run_height _ _ _ _ _ _ Hr)) Hi Ht)
    as [_ _ Hp Hs]. split; [|done]. apply Forall_forall. intros i Hin. by apply Hp.
Qed.

(** The loop only appends to the actions it is given. *)
Lemma processLoop_prefix n acts rr s res s' :
  processLoop_fuel n acts rr s = (Ok res, s') -> acts `prefix_of` res.
Proof.
  revert acts s. induction n as [|n IH]; intros acts s; simpl; [done|].
  unfold mbind, SE_bind. destruct (process rr s) as [[[oa [|]]| | |] s1]; try done.
  - intros Hp%IH. destruct oa; [|done]. by etrans; [apply prefix_app_r|].
  - intros [= <- <-]. destruct oa; [by apply prefix_app_r|done].
Qed.

Lemma ProcessStart_head r s acts s' :
  isHeightStarted s = false -> ProcessStart r s = (Ok acts, s') ->
  exists rest, acts = WriteWAL (WALStart OwnHeight) :: rest.
Proof.
  intros Hst. unfold ProcessStart, mbind, SE_bind, get_state, modify. rewrite Hst.
  destruct (startRound r (set_started s true)) as [[a| | |] s1]; try done.
  intros [rest ->]%processLoop_prefix. by eexists.
Qed.

(** when the start of a height decides it in the same call (its messages
    had been received before), the log entry for the start refers to the next
    height: the entry holds a pointer to the machine's height, which the commit
    has moved on before the driver writes the entry. *)
Theorem start_entry_follows_height addr app h ins tr s r acts s' p :
  run addr app h ins tr s -> isHeightStarted s = false -> 0 <= r -> height (st s) < 2 ^ 64 - 1 ->
  ProcessStart r s = (Ok acts, s') -> Commit p ∈ acts ->
  exists rest, acts = WriteWAL (WALStart OwnHeight) :: rest /\
    GetHeight (height (st s')) (WALStart OwnHeight : walEntry V H A) =
      Height (proposal_header p) + 1.
Proof.
  intros Hr Hst Hrr Hh E Hin. destruct (run_tsteps _ _ _ _ _ _ Hr) as [Hok _].
  destruct (wp_result _ _ _ _ _ (wp_ProcessStart s r Hok Hh Hrr) E) as [Ht He].
  destruct (ProcessStart_head _ _ _ _ Hst E) as [rest ->].
  exists rest. split; [done|]. simpl GetHeight.
  destruct (tsteps_commits _ _ _ _ Hok Ht) as [Hseq Hlen].
  assert (Hc : p ∈ commits (WriteWAL (WALStart OwnHeight) :: rest))
    by (apply list_elem_of_omap; eauto).
  destruct (commits _) as [|p0 [|]]; simpl in *; [set_solver| |lia].
  apply list_elem_of_singleton in Hc as ->. injection Hseq as ->. lia.
Qed.

End safety.
