(* ===== verification/ConsensusWitness.v ===== *)
(** * Consensus on a concrete network

    Four validators with one vote each, values and hashes that are integers,
    and an application that accepts small values.  The theorems of the
    consensus files are applied to concrete runs of this network. *)
From stdpp Require Import prelude gmap list.
From Stdlib Require Import ZArith Lia Sorted.
From S2P Require Import Prelude ConsensusTypes VoteCounter VoteCounterFacts.
From S2P Require Import Tendermint TendermintSpec TendermintRefine TendermintSafety.

Local Open Scope Z_scope.

(** ** The network *)

#[export] Instance int_hash : Hashable Z Z := fun v => v.

Definition one_vote (a : Z) : Z := if (0 <=? a) && (a <? 4) then 1 else 0.

#[export] Instance four_validators : Validators Z := {|
  TotalVotingPower _ := 4;
  ValidatorVotingPower _ a := one_vote a;
  Proposer h r := (h + r) mod 4;
|}.

#[export] Instance small_values : Application Z unit := {|
  app_Value _ := (7, tt);
  app_Valid _ v := v <? 100;
|}.

Lemma one_vote_sum (X : gset Z) : psum one_vote X <= 4.
Proof.
  pose proof (psum_disj_union one_vote (X ∩ {[0; 1; 2; 3]}) (X ∖ {[0; 1; 2; 3]})) as E.
  replace (X ∩ {[0; 1; 2; 3]} ∪ X ∖ {[0; 1; 2; 3]}) with X in E.
  2:{ apply set_eq. intros x. destruct (decide (x ∈ ({[0; 1; 2; 3]} : gset Z))); set_solver. }
  rewrite E by set_solver.
  assert (Hn : forall a, 0 <= one_vote a) by (intros a; unfold one_vote; case_match; lia).
  pose proof (psum_subset one_vote (X ∩ {[0; 1; 2; 3]}) {[0; 1; 2; 3]} Hn ltac:(set_solver)).
  assert (psum one_vote ({[0; 1; 2; 3]} : gset Z) = 4) by reflexivity.
  assert (E0 : forall l : list Z, (forall a, a ∈ l -> one_vote a = 0) -> psum_list one_vote l = 0).
  { induction l as [|a l IH]; intros Hl; [done|]. simpl. rewrite Hl, IH; set_solver. }
  assert (psum one_vote (X ∖ {[0; 1; 2; 3]}) = 0); [|lia].
  apply E0. intros a. rewrite elem_of_elements. intros [_ Ha]%elem_of_difference.
  unfold one_vote. bool_cases; [|done..]. exfalso. apply Ha.
  assert (a = 0 \/ a = 1 \/ a = 2 \/ a = 3) as Hx by lia. set_solver.
Qed.

#[export] Instance four_validators_laws : ValidatorsLaws Z.
Proof.
  split; simpl; try lia.
  - intros _ a. unfold one_vote. case_match; lia.
  - intros _. apply one_vote_sum.
Qed.

(** ** Executing events *)

Abbreviation ev := (event (V:=Z) (H:=Z) (A:=Z)).
Abbreviation machine := (stateMachine (V:=Z) (H:=Z) (A:=Z) (AS:=unit)).

Definition event_okb (s : machine) (e : ev) : bool :=
  let height_okb (v : Vote Z Z) :=
    (0 <=? Height (vote_header v)) && (Height (vote_header v) <? 2 ^ 64) in
  match e with
  | EvStart r => 0 <=? r
  | EvProposal p => bool_decide (is_Some (Value p))
  | EvSync p pcs => bool_decide (is_Some (Value p)) && forallb height_okb pcs
  | EvPrevote _ => true
  | EvPrecommit v => height_okb v
  | EvTimeout tm => isHeightStarted s && (tm_Round tm <? 2 ^ 63 - 1)
  end.

Lemma event_okb_ok s e : event_okb s e = true -> event_ok s e.
Proof.
  destruct e as [r|p|v|v|p pcs|tm]; simpl; intros Hb.
  - bool_hyps. lia.
  - by apply bool_decide_eq_true_1 in Hb.
  - done.
  - bool_hyps. lia.
  - apply andb_prop in Hb as [Hv%bool_decide_eq_true_1 Hl]. split; [done|].
    rewrite forallb_forall in Hl. apply Forall_forall. intros v Hin%list_elem_of_In%Hl.
    bool_hyps. lia.
  - bool_hyps. split; [done|lia].
Qed.

Fixpoint exec (es : list ev) (s : machine) : option (list (Action Z Z Z) * machine) :=
  match es with
  | [] => Some ([], s)
  | e :: es' =>
      if event_okb s e && (height (st s) <? 2 ^ 64 - 1) then
        match handle e s with
        | (Ok a, s') => '(b, s2) ← exec es' s'; Some (a ++ b, s2)
        | _ => None
        end
      else None
  end.

Lemma exec_run addr app h es ins tr s acts s' :
  run addr app h ins tr s -> exec es s = Some (acts, s') -> run addr app h (ins ++ (es ≫= received_of)) (tr ++ acts) s'.
Proof.
  revert ins tr s acts. induction es as [|e es IH]; intros ins tr s acts Hr; simpl.
  - intros [= <- <-]. by rewrite !app_nil_r.
  - destruct (event_okb s e && _) eqn:Eb; [|done]. bool_hyps.
    destruct (handle e s) as [[a| | |] s1] eqn:Eh; try done.
    destruct (exec es s1) as [[b s2]|] eqn:Ee; [|done]. simpl. intros [= <- <-].
    rewrite !app_assoc. apply (IH _ _ s1); [|done]. eapply run_event; eauto using event_okb_ok.
Qed.

(** The trace and the final state of the events from the start of a height. *)
Definition outcome_of (addr h : Z) (es : list ev) : list (Action Z Z Z) * machine :=
  default ([], New addr tt h) (exec es (New addr tt h)).

Lemma outcome_run addr h es :
  is_u64 h -> bool_decide (is_Some (exec es (New addr tt h))) = true ->
  run addr tt h (es ≫= received_of) (outcome_of addr h es).1 (outcome_of addr h es).2.
Proof.
  intros Hh He%bool_decide_eq_true_1. unfold outcome_of. destruct He as [[acts s'] He].
  rewrite He. simpl. apply (exec_run _ _ _ es [] [] _ _ _ (run_new _ _ _ Hh) He).
Qed.

(** ** Messages *)

Definition prop (h r : Z) (v : Z) : ev :=
  EvProposal (mkProposal (mkHeader h r ((h + r) mod 4)) (-1) (Some v)).
Definition prop_at (h r vr : Z) (v : Z) : ev :=
  EvProposal (mkProposal (mkHeader h r ((h + r) mod 4)) vr (Some v)).
Definition prevote (h r a : Z) (id : option Z) : ev := EvPrevote (mkVote (mkHeader h r a) id).
Definition precommit (h r a : Z) (id : option Z) : ev := EvPrecommit (mkVote (mkHeader h r a) id).

(** A height decided by validator 3 in its first round. *)
Definition happy (h v : Z) : list ev :=
  [prop h 0 v; prevote h 0 0 (Some v); prevote h 0 1 (Some v);
   precommit h 0 0 (Some v); precommit h 0 1 (Some v)].

Example happy_decides :
  omap (fun a => match a with Commit p => Value p | _ => None end)
    (outcome_of 3 0 (EvStart 0 :: happy 0 42 ++ EvStart 0 :: happy 1 43)).1 = [42; 43].
Proof. vm_compute. reflexivity. Qed.

(** ** Runs used by the witnesses *)

(** Validator 3 decides heights 0 and 1. *)
Definition two_heights : list ev := EvStart 0 :: happy 0 42 ++ EvStart 0 :: happy 1 43.

(** Height 1 is received in full while height 0 is being decided. *)
Definition buffered : list ev := EvStart 0 :: happy 1 43 ++ happy 0 42.

(** Precommits of validators 0 to 2 for a height. *)
Definition precommits_of (h v : Z) : list ev :=
  [precommit h 0 0 (Some v); precommit h 0 1 (Some v); precommit h 0 2 (Some v)].

Definition behind : list ev := EvStart 0 :: precommits_of 5 9 ++ precommits_of 8 9.

Ltac run_by_exec := apply outcome_run; [lia|vm_compute; reflexivity].

Lemma handlers_refine_algorithm_witness :
  let s := (outcome_of 3 0 [EvStart 0; prop 0 0 42]).2 in
  exists acts s', handle (prevote 0 0 0 (Some 42)) s = (Ok acts, s') /\ tsteps s [RcvVote Prevote (mkVote (mkHeader 0 0 0) (Some 42))] acts s' /\
    (height (st s') = height (st s) /\ (isHeightStarted s = true -> isHeightStarted s' = true) \/
     isHeightStarted s' = false /\ height (st s') = height (st s) + 1 /\
       exists p acts', acts = acts' ++ [Commit p] /\ commits acts' = []).
Proof.
  eapply (handlers_refine_algorithm 3 tt 0 _ (outcome_of 3 0 [EvStart 0; prop 0 0 42]).1).
  - run_by_exec.
  - exact I.
  - vm_compute. reflexivity.
Defined.

Lemma no_equivocation_witness :
  let tr := (outcome_of 3 0 two_heights).1 in
  length (prevotes tr) = 2%nat /\ length (precommits tr) = 2%nat /\
  NoDup (ballot_key <$> prevotes tr) /\ NoDup (ballot_key <$> precommits tr) /\
  Forall (fun v => Sender (vote_header v) = 3) (prevotes tr ++ precommits tr).
Proof.
  split; [vm_compute; reflexivity|]. split; [vm_compute; reflexivity|].
  eapply (no_equivocation 3 tt 0 _ _ (outcome_of 3 0 two_heights).2). run_by_exec.
Defined.

Definition own_42 : Vote Z Z := mkVote (mkHeader 0 0 3) (Some 42).

(** Membership in a concrete list of actions. *)
Ltac in_trace := apply list_elem_of_In; vm_compute; tauto.

(** What validator 3 receives over the two heights. *)
Definition heard_42 : list (received (V:=Z) (H:=Z) (A:=Z)) := two_heights ≫= received_of.

Lemma prevote_respects_lock_witness :
  let tr := (outcome_of 3 0 two_heights).1 in
  exists ins1 now tr1 (s1 : machine), emitted 3 tt 0 heard_42 tr (BroadcastPrevote own_42) ins1 now tr1 s1 /\
    own_42 = own_vote s1 (ID own_42) /\ step (st s1) = StepPropose /\
    (ID own_42 = None /\ now = [RcvTimeout (mkTimeout StepPropose (height (st s1)) (round (st s1)))] \/
     exists p x, proposed ins1 tr1 p /\
       proposal_header p = mkHeader (height (st s1)) (round (st s1)) (Proposer (height (st s1)) (round (st s1))) /\
       Value p = Some x /\ ID own_42 = prevote_id s1 p x /\
       (ValidRound p = -1 \/ 0 <= ValidRound p < round (st s1) /\
          two_thirds ins1 tr1 (height (st s1)) (ValidRound p) Prevote (Some (Hash x)))).
Proof.
  eapply (prevote_respects_lock 3 tt 0 _ _ (outcome_of 3 0 two_heights).2); [run_by_exec|in_trace].
Defined.

Lemma precommit_has_polka_witness :
  let tr := (outcome_of 3 0 two_heights).1 in
  exists ins1 now tr1 (s1 : machine), emitted 3 tt 0 heard_42 tr (BroadcastPrecommit own_42) ins1 now tr1 s1 /\
    own_42 = own_vote s1 (ID own_42) /\ step (st s1) = StepPrevote /\
    (ID own_42 = None /\ now = [RcvTimeout (mkTimeout StepPrevote (height (st s1)) (round (st s1)))] \/
     two_thirds ins1 tr1 (height (st s1)) (round (st s1)) Prevote (ID own_42) /\
     (ID own_42 = None \/
      exists p x, proposed ins1 tr1 p /\ valid_proposal s1 (round (st s1)) p x /\ ID own_42 = Some (Hash x))).
Proof.
  eapply (precommit_has_polka 3 tt 0 _ _ (outcome_of 3 0 two_heights).2); [run_by_exec|in_trace].
Defined.

Definition proposal_43 : Proposal Z Z := mkProposal (mkHeader 1 0 1) (-1) (Some 43).

Lemma commit_justified_witness :
  let tr := (outcome_of 3 0 two_heights).1 in
  exists ins1 now tr1 (s1 : machine) r x, emitted 3 tt 0 heard_42 tr (Commit proposal_43) ins1 now tr1 s1 /\
    proposed ins1 tr1 proposal_43 /\
    proposal_header proposal_43 = mkHeader (height (st s1)) r (Proposer (height (st s1)) r) /\
    Value proposal_43 = Some x /\ app_Valid (application s1) x = true /\
    two_thirds ins1 tr1 (height (st s1)) r Precommit (Some (Hash x)).
Proof.
  eapply (commit_justified 3 tt 0 _ _ (outcome_of 3 0 two_heights).2); [run_by_exec|in_trace].
Defined.

Lemma heights_decided_in_order_witness :
  let o := outcome_of 3 0 two_heights in
  length (commits o.1) = 2%nat /\
  Height ∘ proposal_header <$> commits o.1 = seqZ 0 (Z.of_nat (length (commits o.1))) /\
  height (st o.2) = 0 + Z.of_nat (length (commits o.1)).
Proof.
  split; [vm_compute; reflexivity|]. apply (heights_decided_in_order 3 tt 0 (two_heights ≫= received_of)). run_by_exec.
Defined.

(** Locked on 42 in round 0, before the decision. *)
Definition locked_run : list ev :=
  [EvStart 0; prop 0 0 42; prevote 0 0 0 (Some 42); prevote 0 0 1 (Some 42)].

Lemma lock_backed_by_polka_witness :
  let s := (outcome_of 3 0 locked_run).2 in
  let backed ov r :=
    ov = None /\ r = -1 \/
    exists x, ov = Some x /\ 0 <= r <= round (st s) /\
      2 * TotalVotingPower (height (st s)) <=
        3 * psum (ValidatorVotingPower (height (st s)))
              (round_voters (voteCounter s) (height (st s)) r Prevote (Some (Hash x))) in
  lockedValue (st s) = Some 42 /\
  backed (lockedValue (st s)) (lockedRound (st s)) /\
  backed (validValue (st s)) (validRound (st s)) /\
  lockedRound (st s) <= validRound (st s).
Proof.
  split; [vm_compute; reflexivity|].
  eapply (lock_backed_by_polka 3 tt 0 _ (outcome_of 3 0 locked_run).1). run_by_exec.
Defined.

Lemma processLoop_total_witness :
  let s := (outcome_of 3 0 locked_run).2 in
  exists a s', processLoop [] (Some 0) s = (Ok ([] ++ a), s') /\ tsteps s [] a s' /\
    (process (Some 0) s' = (Ok (None, false), s') \/ exists p, last a = Some (Commit p)).
Proof.
  eapply (processLoop_total 3 tt 0 _ (outcome_of 3 0 locked_run).1);
    [run_by_exec|vm_compute; reflexivity|vm_compute; reflexivity].
Defined.

Lemma sync_requests_disjoint_witness :
  let tr := (outcome_of 3 0 behind).1 in
  syncs tr = [(1, 5); (6, 8)] /\
  Forall (fun i => i.1 <= i.2) (syncs tr) /\ StronglySorted (fun i j => i.2 < j.1) (syncs tr).
Proof.
  split; [vm_compute; reflexivity|].
  eapply (sync_requests_disjoint 3 tt 0 _ _ (outcome_of 3 0 behind).2). run_by_exec.
Defined.

(** Height 1 is decided in the call that starts it, and its log entry is then
    read as one of height 2. *)
Lemma start_entry_follows_height_witness :
  let s := (outcome_of 3 0 buffered).2 in
  exists acts s', ProcessStart 0 s = (Ok acts, s') /\ height (st s) = 1 /\
  exists rest, acts = WriteWAL (WALStart OwnHeight) :: rest /\
    GetHeight (height (st s')) (WALStart OwnHeight : walEntry Z Z Z) =
      Height (proposal_header proposal_43) + 1.
Proof.
  destruct (ProcessStart 0 (outcome_of 3 0 buffered).2) as [o s'] eqn:E.
  assert (Ho : o = (ProcessStart 0 (outcome_of 3 0 buffered).2).1) by (by rewrite E).
  vm_compute in Ho. subst o. eexists _, s'. split; [exact E|]. split; [vm_compute; reflexivity|].
  eapply (start_entry_follows_height 3 tt 0 _ (outcome_of 3 0 buffered).1
    (outcome_of 3 0 buffered).2 0 _ s' proposal_43);
    [run_by_exec|vm_compute; reflexivity|lia|vm_compute; reflexivity|exact E|].
  apply list_elem_of_In. simpl. tauto.
Defined.

(** The last precommit of the first height decides it. *)
Lemma decision_in_message_round_witness :
  let s := (outcome_of 3 0 (take 5 two_heights)).2 in
  exists acts s', handle (precommit 0 0 1 (Some 42)) s = (Ok acts, s') /\
    Commit (mkProposal (mkHeader 0 0 0) (-1) (Some 42)) ∈ acts /\ Round (mkHeader 0 0 (A:=Z) 0) = Round (mkHeader 0 0 (A:=Z) 1).
Proof.
  destruct (handle (precommit 0 0 1 (Some 42)) (outcome_of 3 0 (take 5 two_heights)).2) as [o s'] eqn:E.
  assert (Ho : o = (handle (precommit 0 0 1 (Some 42)) (outcome_of 3 0 (take 5 two_heights)).2).1) by (by rewrite E).
  vm_compute in Ho. subst o. eexists _, s'. split; [exact E|]. assert (Hin : Commit (mkProposal (mkHeader 0 0 0) (-1) (Some 42)) ∈
    match (handle (precommit 0 0 1 (Some 42)) (outcome_of 3 0 (take 5 two_heights)).2).1 with Ok l => l | _ => [] end) by in_trace.
  rewrite E in Hin. split; [exact Hin|].
  eapply (decision_in_message_round 3 tt 0 _ (outcome_of 3 0 (take 5 two_heights)).1
    (outcome_of 3 0 (take 5 two_heights)).2 (precommit 0 0 1 (Some 42)) _ s' (mkProposal (mkHeader 0 0 0) (-1) (Some 42)));
    [run_by_exec|simpl; lia|vm_compute; reflexivity|exact E|exact Hin].
Defined.

(** It is logged, after the five entries before it. *)
Lemma log_holds_received_witness :
  let '(tr, s) := outcome_of 3 0 (take 5 two_heights) in
  let e := WALPrecommit (mkVote (mkHeader 0 0 1) (Some 42)) in
  exists acts s', handle (precommit 0 0 1 (Some 42)) s = (Ok acts, s') /\
    length (logged_entries tr) = 5%nat /\ logs_first e true acts.
Proof.
  destruct (outcome_of 3 0 (take 5 two_heights)) as [tr s] eqn:Eo.
  assert (Hr : run 3 tt 0 (take 5 two_heights ≫= received_of) (outcome_of 3 0 (take 5 two_heights)).1
    (outcome_of 3 0 (take 5 two_heights)).2) by run_by_exec.
  assert (Hl : length (logged_entries (outcome_of 3 0 (take 5 two_heights)).1) = 5%nat) by (vm_compute; reflexivity).
  assert (Ha : accepted (outcome_of 3 0 (take 5 two_heights)).2 (RcvVote Precommit (mkVote (mkHeader 0 0 1) (Some 42))) = true)
    by (vm_compute; reflexivity).
  assert (Hm : height (st (outcome_of 3 0 (take 5 two_heights)).2) < 2 ^ 64 - 1) by (vm_compute; reflexivity).
  assert (Ho : exists acts, (handle (precommit 0 0 1 (Some 42)) (outcome_of 3 0 (take 5 two_heights)).2).1 = Ok acts)
    by (eexists; vm_compute; reflexivity).
  rewrite Eo in Hr, Hl, Ha, Hm, Ho. cbn [fst snd] in *. destruct Ho as [acts Ho].
  destruct (handle (precommit 0 0 1 (Some 42)) s) as [o s'] eqn:E. cbn in Ho. subst o. exists acts, s'. split_and!; [done|done|].
  rewrite <- Ha. eapply (log_holds_received 3 tt 0 _ tr s (precommit 0 0 1 (Some 42)) acts s'); [done|simpl; lia|done|done|reflexivity].
Defined.

(** ** A decision that is not taken

    Validator 3 is in round 1 with a proposal that refers to round 0, all
    prevotes of round 1 and two precommits; the last prevote of round 0
    arrives. *)
Definition late_polka : list ev :=
  [EvStart 0; prevote 0 0 0 (Some 42); prevote 0 0 1 (Some 42);
   prop_at 0 1 0 42; prevote 0 1 0 (Some 42); prevote 0 1 1 (Some 42); prevote 0 1 2 (Some 42);
   precommit 0 1 0 (Some 42); precommit 0 1 1 (Some 42);
   prevote 0 0 2 (Some 42)].

(** The loop looks for a decision only in the round of the message that was
    received.  A late prevote of an earlier round can make the validator
    precommit and complete the quorum of precommits of its current round; the
    loop then ends without the decision, although the proposal is valid and
    precommitted by two thirds, and the precommit timeout moves the validator to
    the next round, where the decision is not looked for any more. *)
Example decision_missed_after_late_polka :
  let '(tr, s) := outcome_of 3 0 late_polka in
  run 3 tt 0 (late_polka ≫= received_of) tr s /\
  round (st s) = 1 /\ isHeightStarted s = true /\ commits tr = [] /\
  HasQuorumForVote (voteCounter s) 1 Precommit (Some 42) = true /\
  (exists p, valid_proposal s 1 p 42) /\
  ScheduleTimeout (mkTimeout StepPrecommit 0 1) ∈ tr /\
  exists acts s', handle (EvTimeout (mkTimeout StepPrecommit 0 1)) s = (Ok acts, s') /\
    commits acts = [] /\ height (st s') = 0 /\ round (st s') = 2 /\
    HasQuorumForVote (voteCounter s') 1 Precommit (Some 42) = true /\
    processLoop [] None s' = (Ok [], s').
Proof.
  rewrite (surjective_pairing (outcome_of 3 0 late_polka)).
  split; [run_by_exec|]. split; [vm_compute; reflexivity|]. split; [vm_compute; reflexivity|].
  split; [vm_compute; reflexivity|]. split; [vm_compute; reflexivity|].
  split; [eexists; split; [vm_compute; reflexivity|split; vm_compute; reflexivity]|].
  split; [in_trace|]. eexists _, _. split; [vm_compute; reflexivity|].
  repeat (split; [vm_compute; reflexivity|]). vm_compute; reflexivity.
Qed.

(** ** The counter alone *)

Definition vote_of (h r a : Z) (id : option Z) : counter_op (V:=Z) (H:=Z) (A:=Z) :=
  OpVote Prevote (mkVote (mkHeader h r a) id).

(** Validator 0 votes twice, and once for another value. *)
Definition some_votes : list (counter_op (V:=Z) (H:=Z) (A:=Z)) :=
  [vote_of 0 0 0 (Some 5); vote_of 0 0 0 (Some 5); vote_of 0 0 0 (Some 6);
   vote_of 0 0 1 (Some 5); vote_of 0 0 2 (Some 5); vote_of 0 1 2 None].

Lemma quorum_two_thirds_witness :
  HasQuorumForVote (run_counter 0 some_votes) 0 Prevote (Some 5) = true /\
  HasQuorumForVote (run_counter 0 (take 4 some_votes)) 0 Prevote (Some 5) = false /\
  2 * TotalVotingPower (height_after 0 some_votes) <=
    3 * psum (ValidatorVotingPower (height_after 0 some_votes))
          (votes_for some_votes (height_after 0 some_votes) 0 Prevote (Some 5)).
Proof.
  split; [vm_compute; reflexivity|]. split; [vm_compute; reflexivity|].
  apply (quorum_two_thirds 0 some_votes 0 Prevote (Some 5));
    [lia|vm_compute; reflexivity|vm_compute; reflexivity].
Defined.

Lemma skip_round_one_third_witness :
  HasNonFaultyFutureMessage (run_counter 0 some_votes) 1 = false /\
  TotalVotingPower (height_after 0 some_votes) <=
    3 * psum (ValidatorVotingPower (height_after 0 some_votes))
          (senders_in some_votes (height_after 0 some_votes) 0).
Proof.
  split; [vm_compute; reflexivity|].
  apply (skip_round_one_third 0 some_votes 0);
    [lia|vm_compute; reflexivity|vm_compute; reflexivity].
Defined.

Definition other_votes : list (counter_op (V:=Z) (H:=Z) (A:=Z)) :=
  [vote_of 0 0 1 (Some 5); vote_of 0 0 2 (Some 5); vote_of 0 0 3 (Some 5)].

Lemma quorum_intersection_witness :
  f (TotalVotingPower (height_after 0 some_votes)) <
    psum (ValidatorVotingPower (height_after 0 some_votes))
      (votes_for some_votes (height_after 0 some_votes) 0 Prevote (Some 5) ∩
       votes_for other_votes (height_after 0 some_votes) 0 Prevote (Some 5)).
Proof.
  apply (quorum_intersection 0 0 some_votes other_votes 0 Prevote (Some 5) (Some 5));
    [lia|lia|vm_compute; reflexivity|vm_compute; reflexivity|
     vm_compute; reflexivity|vm_compute; reflexivity].
Defined.

Lemma duplicate_vote_ignored_witness :
  let v' := (AddVote (run_counter 0 some_votes) (mkVote (mkHeader 0 0 3) (Some 5)) Prevote).2 in
  AddVote v' (mkVote (mkHeader 0 0 3) (Some 5)) Prevote = (false, v').
Proof.
  apply (duplicate_vote_ignored 0 some_votes _ Prevote
    (AddVote (run_counter 0 some_votes) (mkVote (mkHeader 0 0 3) (Some 5)) Prevote).1);
    [lia|vm_compute; reflexivity|apply surjective_pairing].
Defined.
