(* ===== verification/Felt.v ===== *)
(** * Field elements

    [src/core/felt] wraps the field elements of a third-party library.  The
    element type and the operations the tries use are parameters, with the
    documented behaviour as laws: an element is an integer below the Stark
    prime, [Bytes] writes it as 32 big-endian bytes, [SetBytes] reads
    big-endian bytes modulo the prime, [Add] is addition modulo the prime.
    [StarkField] is the concrete field the laws hold of. *)
From stdpp Require Import prelude list countable.
From Stdlib Require Import ZArith Lia.
From S2P Require Import Prelude.

Local Open Scope Z_scope.

(** ** Big-endian bytes

    A byte is an integer below 256; a slice is a list of bytes. *)

(** The integer big-endian bytes stand for. *)
Definition be_val (l : list Z) : Z := foldl (fun a b => a * 256 + b) 0 l.

(** The [n] big-endian bytes of an integer: [binary.BigEndian.PutUint64]. *)
Fixpoint be_bytes (n : nat) (v : Z) : list Z :=
  match n with
  | O => []
  | S k => Z.shiftr v (8 * Z.of_nat k) mod 256 :: be_bytes k v
  end.

Abbreviation is_bytes l := (Forall (fun b => 0 <= b < 256) l).

Lemma be_val_acc l a : foldl (fun a b => a * 256 + b) a l = a * 256 ^ Z.of_nat (length l) + be_val l.
Proof.
  unfold be_val. revert a. induction l as [|b l IH]; intros a; [simpl; lia|].
  change (length (b :: l)) with (S (length l)).
  cbn [foldl]. rewrite IH, (IH (0 * 256 + b)), Nat2Z.inj_succ, Z.pow_succ_r by lia. ring.
Qed.

Lemma be_val_app l k : be_val (l ++ k) = be_val l * 256 ^ Z.of_nat (length k) + be_val k.
Proof. unfold be_val at 1. rewrite foldl_app, be_val_acc. done. Qed.

Lemma be_val_cons b l : be_val (b :: l) = b * 256 ^ Z.of_nat (length l) + be_val l.
Proof. unfold be_val at 1. simpl. rewrite be_val_acc. lia. Qed.

Lemma be_val_range l : is_bytes l -> 0 <= be_val l < 256 ^ Z.of_nat (length l).
Proof.
  induction 1 as [|b l Hb Hl IH]; [done|]. rewrite be_val_cons.
  change (length (b :: l)) with (S (length l)).
  rewrite Nat2Z.inj_succ, Z.pow_succ_r by lia. nia.
Qed.

Lemma length_be_bytes n v : length (be_bytes n v) = n.
Proof. induction n; simpl; auto. Qed.

Lemma be_bytes_range n v : is_bytes (be_bytes n v).
Proof. induction n; simpl; constructor; [apply Z.mod_pos_bound; lia|done]. Qed.

Lemma pow256 n : 256 ^ Z.of_nat n = 2 ^ (8 * Z.of_nat n).
Proof. rewrite Z.pow_mul_r by lia. done. Qed.

Lemma be_val_bytes n v : be_val (be_bytes n v) = v mod 256 ^ Z.of_nat n.
Proof.
  induction n as [|n IH]; [by rewrite Z.mod_1_r|].
  cbn [be_bytes]. rewrite be_val_cons, IH, length_be_bytes, Z.shiftr_div_pow2 by lia.
  rewrite <- pow256, Nat2Z.inj_succ, Z.pow_succ_r by lia.
  rewrite (Z.mul_comm 256), Z.rem_mul_r; [lia|apply Z.pow_nonzero; lia|lia].
Qed.

(** Bytes only depend on the low bits. *)
Lemma be_bytes_mod n v : be_bytes n (v mod 256 ^ Z.of_nat n) = be_bytes n v.
Proof.
  assert (Hx : forall k, (k <= n)%nat -> be_bytes k (v mod 256 ^ Z.of_nat n) = be_bytes k v).
  { induction k as [|k IH]; intros Hk; [done|]. cbn [be_bytes]. rewrite IH by lia. f_equal.
    apply Z.bits_inj'. intros i Hi. change 256 with (2 ^ 8). rewrite !testbit_mod_pow2 by lia.
    rewrite !Z.shiftr_spec by lia.
    replace ((2 ^ 8) ^ Z.of_nat n) with (2 ^ (8 * Z.of_nat n)) by (by rewrite Z.pow_mul_r by lia).
    rewrite testbit_mod_pow2 by lia. bool_cases; done. }
  by apply Hx.
Qed.

Lemma be_bytes_val l n : is_bytes l -> length l = n -> be_bytes n (be_val l) = l.
Proof.
  intros Hl. revert n. induction Hl as [|b l Hb Hl IH]; intros n <-; [done|].
  simpl. pose proof (be_val_range l Hl).
  rewrite be_val_cons, Z.shiftr_div_pow2, <- pow256 by lia. rewrite Z.div_add_l by lia.
  rewrite (Z.div_small (be_val l)), Z.add_0_r, Z.mod_small by lia. f_equal.
  rewrite <- be_bytes_mod, Z.add_comm, Z.mod_add by lia. rewrite be_bytes_mod. auto.
Qed.

Lemma be_val_inj l k :
  is_bytes l -> is_bytes k -> length l = length k -> be_val l = be_val k -> l = k.
Proof.
  intros Hl Hk Hn E. rewrite <- (be_bytes_val l _ Hl eq_refl), <- (be_bytes_val k _ Hk eq_refl).
  congruence.
Qed.

(** The last [m] of the [m + k] bytes are the [m] bytes. *)
Lemma drop_be_bytes m k v : drop k (be_bytes (k + m) v) = be_bytes m v.
Proof. induction k; simpl; auto. Qed.

Lemma be_bytes_app m k v :
  be_bytes (k + m) v = be_bytes k (Z.shiftr v (8 * Z.of_nat m)) ++ be_bytes m v.
Proof.
  induction k as [|k IH]; [done|]. simpl. rewrite IH. f_equal.
  rewrite Z.shiftr_shiftr by lia. do 2 f_equal. lia.
Qed.

(** ** The field *)

(** The Stark prime. *)
Definition stark_prime : Z := 2 ^ 251 + 17 * 2 ^ 192 + 1.

Class FieldElement (F : Type) := {
  felt_eq_dec :: EqDecision F;
  felt_countable :: Countable F;
  felt_Bytes : F -> list Z;
  felt_SetBytes : list Z -> F;
  felt_Add : F -> F -> F;
  felt_Zero : F;
}.

(** The integer an element stands for. *)
Definition felt_val {F} `{!FieldElement F} (x : F) : Z := be_val (felt_Bytes x).

Definition felt_IsZero {F} `{!FieldElement F} (x : F) : bool := bool_decide (x = felt_Zero).

(** [SetUint64] of a length. *)
Definition felt_of {F} `{!FieldElement F} (n : Z) : F := felt_SetBytes (be_bytes 32 n).

Class FieldElementLaws (F : Type) `{!FieldElement F} : Prop := {
  felt_bytes_length (x : F) : length (felt_Bytes x) = 32%nat;
  felt_bytes_range (x : F) : is_bytes (felt_Bytes x);
  felt_canonical (x : F) : felt_val x < stark_prime;
  felt_Bytes_inj (x y : F) : felt_Bytes x = felt_Bytes y -> x = y;
  felt_SetBytes_val l : is_bytes l -> felt_val (felt_SetBytes l : F) = be_val l mod stark_prime;
  felt_Zero_val : felt_val (felt_Zero : F) = 0;
  felt_Add_val (x y : F) : felt_val (felt_Add x y) = (felt_val x + felt_val y) mod stark_prime;
}.

Section laws.
Context {F : Type} `{!FieldElement F} `{!FieldElementLaws F}.
Implicit Types (x y : F).

Lemma felt_val_inj x y : felt_val x = felt_val y -> x = y.
Proof.
  intros E. apply felt_Bytes_inj, be_val_inj; auto using felt_bytes_range.
  by rewrite !felt_bytes_length.
Qed.

Lemma felt_val_range x : 0 <= felt_val x < stark_prime.
Proof.
  split; [|apply felt_canonical]. unfold felt_val. apply be_val_range, felt_bytes_range.
Qed.

Lemma felt_SetBytes_Bytes x : felt_SetBytes (felt_Bytes x) = x.
Proof.
  apply felt_val_inj. rewrite felt_SetBytes_val by apply felt_bytes_range.
  apply Z.mod_small, felt_val_range.
Qed.

End laws.

(** ** The concrete field *)

Definition StarkField : Type :=
  { x : Z | bool_decide (0 <= x < stark_prime) = true }.

(** Reduction; sums and differences of elements need no division. *)
Definition stark_reduce (x : Z) : Z :=
  if x <? 0 then (if - stark_prime <=? x then x + stark_prime else x mod stark_prime)
  else if x <? stark_prime then x
  else if x <? 2 * stark_prime then x - stark_prime
  else x mod stark_prime.

Lemma stark_reduce_mod x : stark_reduce x = x mod stark_prime.
Proof.
  assert (0 < stark_prime) by done. unfold stark_reduce.
  destruct (Z.ltb_spec x 0) as [H0|H0].
  - destruct (Z.leb_spec (- stark_prime) x); [|done].
    replace x with (x + stark_prime + (-1) * stark_prime) at 2 by lia. rewrite Z.mod_add, Z.mod_small; lia.
  - destruct (Z.ltb_spec x stark_prime); [by rewrite Z.mod_small|].
    destruct (Z.ltb_spec x (2 * stark_prime)); [|done].
    replace x with (x - stark_prime + 1 * stark_prime) at 2 by lia. rewrite Z.mod_add, Z.mod_small; lia.
Qed.

Lemma stark_mod_ok x : bool_decide (0 <= stark_reduce x < stark_prime) = true.
Proof. rewrite stark_reduce_mod. apply bool_decide_eq_true_2, Z.mod_pos_bound. done. Qed.

Definition stark (x : Z) : StarkField := exist _ (stark_reduce x) (stark_mod_ok x).

#[export] Instance StarkField_eq_dec : EqDecision StarkField.
Proof. unfold StarkField. apply _. Defined.

#[export] Instance StarkField_countable : Countable StarkField.
Proof. unfold StarkField. apply _. Defined.

#[export] Instance StarkField_element : FieldElement StarkField := {|
  felt_eq_dec := _;
  felt_countable := _;
  felt_Bytes x := be_bytes 32 (proj1_sig x);
  felt_SetBytes l := stark (be_val l);
  felt_Add x y := stark (proj1_sig x + proj1_sig y);
  felt_Zero := stark 0;
|}.

#[export] Instance StarkField_laws : FieldElementLaws StarkField.
Proof.
  assert (Hv : forall x : StarkField, felt_val x = proj1_sig x).
  { intros [x Hx]. pose proof (bool_decide_eq_true_1 _ Hx). unfold felt_val.
    change (be_val (be_bytes 32 x) = x). rewrite be_val_bytes. apply Z.mod_small. unfold stark_prime in *.
    split; [lia|]. change (256 ^ Z.of_nat 32) with (2 ^ 256). lia. }
  split.
  - intros x. apply length_be_bytes.
  - intros x. apply be_bytes_range.
  - intros x. rewrite Hv. destruct x as [x Hx]. exact (proj2 (bool_decide_eq_true_1 _ Hx)).
  - intros x y E. assert (E' : felt_val x = felt_val y) by (unfold felt_val; congruence).
    rewrite !Hv in E'. destruct x as [x Hx], y as [y Hy]. simpl in E'. subst.
    f_equal. apply (proof_irrel _).
  - intros l _. rewrite Hv. apply stark_reduce_mod.
  - rewrite Hv. done.
  - intros x y. rewrite !Hv. apply stark_reduce_mod.
Qed.
