(* ===== verification/BitArray.v ===== *)
(** * Bit arrays

    [src/core/trie2/trieutils/bitarray.go]: the paths of the tries, up to 255
    bits in four 64-bit words.

    A method [b.Op(x, y)] overwrites its receiver [b] and returns it.  It is
    modelled as a function of [x] and [y] (and of the old receiver where the
    code reads it, as in [Xor] and [SetUint64]); the results are those of a
    receiver that is a new variable or the first operand [x], which is how the
    tries call them. *)
From stdpp Require Import prelude list.
From Stdlib Require Import ZArith Lia.
From S2P Require Import Prelude Felt.

Local Open Scope Z_scope.

Record BitArray := mkBits {
  len : Z; (* [uint8] *)
  w0 : Z; w1 : Z; w2 : Z; w3 : Z; (* [words [4]uint64] *)
}.

#[export] Instance BitArray_eq_dec : EqDecision BitArray.
Proof. solve_decision. Defined.

Definition emptyBitArray : BitArray := mkBits 0 0 0 0 0.

(** ** Bytes *)

(** The slice [data[i:j]]. *)
Definition slice (data : list Z) (i j : nat) : list Z := take (j - i) (drop i data).

(** [binary.BigEndian.Uint16/32/64] read a number of bytes. *)
Definition Uint16 (l : list Z) : Z := be_val l.
Definition Uint32 (l : list Z) : Z := be_val l.
Definition Uint64 (l : list Z) : Z := be_val l.

(** The byte [data[i]]. *)
Definition byte (data : list Z) (i : nat) : Z := data !!! i.

(** ** Basic operations *)

Definition Len (b : BitArray) : Z := len b.

Definition Set_ (x : BitArray) : BitArray := mkBits (len x) (w0 x) (w1 x) (w2 x) (w3 x).

Definition clear : BitArray := mkBits 0 0 0 0 0.

Definition set_len (b : BitArray) (n : Z) : BitArray :=
  mkBits n (w0 b) (w1 b) (w2 b) (w3 b).

Definition truncateToLength (b : BitArray) : BitArray :=
  if len b =? 0 then mkBits (len b) 0 0 0 0
  else if len b <=? 64 then
    mkBits (len b) (Z.land (w0 b) (shr64 maxUint64 (64 - len b))) 0 0 0
  else if len b <=? 128 then
    mkBits (len b) (w0 b) (Z.land (w1 b) (shr64 maxUint64 (128 - len b))) 0 0
  else if len b <=? 192 then
    mkBits (len b) (w0 b) (w1 b) (Z.land (w2 b) (shr64 maxUint64 (192 - len b))) 0
  else
    mkBits (len b) (w0 b) (w1 b) (w2 b) (Z.land (w3 b) (shr64 maxUint64 (256 - len b))).

(** [SetUint64] leaves the upper words of the receiver [b] alone, unless the
    length makes [truncateToLength] clear them. *)
Definition SetUint64 (b : BitArray) (length data : Z) : BitArray :=
  truncateToLength (mkBits length data (w1 b) (w2 b) (w3 b)).

Definition NewBitArray (length val : Z) : BitArray := SetUint64 emptyBitArray length val.

Definition SetBit (bit : Z) : BitArray := mkBits 1 (Z.land bit 1) 0 0 0.

Definition Ones (length : Z) : BitArray :=
  truncateToLength (mkBits length maxUint64 maxUint64 maxUint64 maxUint64).

Definition Zeros (length : Z) : BitArray := mkBits length 0 0 0 0.

Definition Copy (b : BitArray) : BitArray := Set_ b.

Definition Equal (b x : BitArray) : bool :=
  (len b =? len x) && (w0 b =? w0 x) && (w1 b =? w1 x) && (w2 b =? w2 x) && (w3 b =? w3 x).

Definition IsEmpty (b : BitArray) : bool := len b =? 0.

(** ** Bitwise operations *)

Definition Or (x y : BitArray) : BitArray :=
  mkBits (len x) (Z.lor (w0 x) (w0 y)) (Z.lor (w1 x) (w1 y)) (Z.lor (w2 x) (w2 y))
    (Z.lor (w3 x) (w3 y)).

Definition And (x y : BitArray) : BitArray :=
  mkBits (len x) (Z.land (w0 x) (w0 y)) (Z.land (w1 x) (w1 y)) (Z.land (w2 x) (w2 y))
    (Z.land (w3 x) (w3 y)).

(** The receiver [b] keeps its length. *)
Definition Xor (b x y : BitArray) : BitArray :=
  mkBits (len b) (Z.lxor (w0 x) (w0 y)) (Z.lxor (w1 x) (w1 y)) (Z.lxor (w2 x) (w2 y))
    (Z.lxor (w3 x) (w3 y)).

Definition rsh64 (x : BitArray) (b : BitArray) := mkBits (len b) (w1 x) (w2 x) (w3 x) 0.
Definition rsh128 (x : BitArray) (b : BitArray) := mkBits (len b) (w2 x) (w3 x) 0 0.
Definition rsh192 (x : BitArray) (b : BitArray) := mkBits (len b) (w3 x) 0 0 0.
Definition lsh64 (x : BitArray) (b : BitArray) := mkBits (len b) 0 (w0 x) (w1 x) (w2 x).
Definition lsh128 (x : BitArray) (b : BitArray) := mkBits (len b) 0 0 (w0 x) (w1 x).
Definition lsh192 (x : BitArray) (b : BitArray) := mkBits (len b) 0 0 0 (w0 x).

(** A word of a shift by less than 64: its own bits and those of its neighbour. *)
Definition shr_pair (lo hi n : Z) : Z := Z.lor (shr64 lo n) (shl64 hi (64 - n)).
Definition shl_pair (hi lo n : Z) : Z := Z.lor (shl64 hi n) (shr64 lo (64 - n)).

Definition Rsh (x : BitArray) (n : Z) : BitArray :=
  if len x =? 0 then Set_ x
  else if len x <=? n then clear
  else if n =? 0 then Set_ x
  else
    truncateToLength
      (if 192 <=? n then
         let b := set_len (rsh192 x emptyBitArray) (len x - n) in
         let n := n - 192 in
         mkBits (len b) (shr64 (w0 b) n) (w1 b) (w2 b) (w3 b)
       else if 128 <=? n then
         let b := set_len (rsh128 x emptyBitArray) (len x - n) in
         let n := n - 128 in
         mkBits (len b) (shr_pair (w0 b) (w1 b) n) (shr64 (w1 b) n) (w2 b) (w3 b)
       else if 64 <=? n then
         let b := set_len (rsh64 x emptyBitArray) (len x - n) in
         let n := n - 64 in
         mkBits (len b) (shr_pair (w0 b) (w1 b) n) (shr_pair (w1 b) (w2 b) n)
           (shr64 (w2 b) n) (w3 b)
       else
         let b := set_len (Set_ x) (len x - n) in
         mkBits (len b) (shr_pair (w0 b) (w1 b) n) (shr_pair (w1 b) (w2 b) n)
           (shr_pair (w2 b) (w3 b) n) (shr64 (w3 b) n)).

Definition Lsh (x : BitArray) (n : Z) : BitArray :=
  if (len x =? 0) || (n =? 0) then Set_ x
  else
    let l := if maxUint8 - len x <? n then maxUint8 else len x + n in
    let b0 := set_len emptyBitArray l in
    truncateToLength
      (if 192 <=? n then
         let b := lsh192 x b0 in
         let n := n - 192 in
         mkBits (len b) (w0 b) (w1 b) (w2 b) (shl64 (w3 b) n)
       else if 128 <=? n then
         let b := lsh128 x b0 in
         let n := n - 128 in
         mkBits (len b) (w0 b) (w1 b) (shl64 (w2 b) n) (shl_pair (w3 b) (w2 b) n)
       else if 64 <=? n then
         let b := lsh64 x b0 in
         let n := n - 64 in
         mkBits (len b) (w0 b) (shl64 (w1 b) n) (shl_pair (w2 b) (w1 b) n)
           (shl_pair (w3 b) (w2 b) n)
       else
         let b := mkBits l (w0 x) (w1 x) (w2 x) (w3 x) in
         mkBits (len b) (shl64 (w0 b) n) (shl_pair (w1 b) (w0 b) n)
           (shl_pair (w2 b) (w1 b) n) (shl_pair (w3 b) (w2 b) n)).

(** ** Slices of bits *)

Definition LSBsFromLSB (x : BitArray) (n : Z) : BitArray :=
  if len x <=? n then Set_ x
  else if n =? 0 then mkBits n 0 0 0 0
  else if n <=? 64 then
    mkBits n (Z.land (w0 x) (shr64 maxUint64 (64 - n))) 0 0 0
  else if n <=? 128 then
    mkBits n (w0 x) (Z.land (w1 x) (shr64 maxUint64 (128 - n))) 0 0
  else if n <=? 192 then
    mkBits n (w0 x) (w1 x) (Z.land (w2 x) (shr64 maxUint64 (192 - n))) 0
  else
    mkBits n (w0 x) (w1 x) (w2 x) (Z.land (w3 x) (shr64 maxUint64 (256 - n))).

Definition LSBs (x : BitArray) (n : Z) : BitArray :=
  if n =? 0 then Set_ x
  else if Len x <? n then clear
  else LSBsFromLSB x (Len x - n).

Definition MSBs (x : BitArray) (n : Z) : BitArray :=
  if len x <=? n then Set_ x else Rsh x (len x - n).

Definition EqualMSBs (b x : BitArray) : bool :=
  if len b =? len x then Equal b x
  else if (len b =? 0) || (len x =? 0) then true
  else
    let minLen := Z.min (len x) (len b) in
    Equal (MSBs b minLen) (MSBs x minLen).

(** [bits.LeadingZeros64] of a non-zero word. *)
Definition LeadingZeros64 (w : Z) : Z := 63 - Z.log2 w.

Definition findFirstSetBit (b : BitArray) : Z :=
  if len b =? 0 then 0
  else if negb (w3 b =? 0) then u8 (256 - LeadingZeros64 (w3 b))
  else if negb (w2 b =? 0) then u8 (192 - LeadingZeros64 (w2 b))
  else if negb (w1 b =? 0) then u8 (128 - LeadingZeros64 (w1 b))
  else if negb (w0 b =? 0) then u8 (64 - LeadingZeros64 (w0 b))
  else 0.

Definition CommonMSBs (x y : BitArray) : BitArray :=
  if (len x =? 0) || (len y =? 0) then clear
  else
    let '(long, short) := if len x <? len y then (y, x) else (x, y) in
    let diff := len long - len short in
    let b := Rsh long diff in
    let b := Xor b b short in
    let divergentBit := findFirstSetBit b in
    Rsh short divergentBit.

Definition Append (x y : BitArray) : BitArray :=
  if (len x =? 0) || (len y =? maxUint8) then Set_ y
  else if len y =? 0 then Set_ x
  else Or (Lsh x (len y)) y.

Definition AppendBit (x : BitArray) (bit : Z) : BitArray := Append x (SetBit bit).

Definition AppendZeros (x : BitArray) (n : Z) : BitArray := Append x (Zeros n).

Definition Subset (x : BitArray) (startPos endPos : Z) : BitArray :=
  if (endPos <=? startPos) || (len x <=? startPos) then clear
  else
    let endPos := if len x <? endPos then len x else endPos in
    let length := endPos - startPos in
    let b := LSBs x startPos in
    let mask := Ones length in
    let zeros := mkBits (len b - length) 0 0 0 0 in
    let mask := Append mask zeros in
    MSBs (And b mask) length.

(** ** Single bits *)

(** [words[n/64]] *)
Definition word_at (b : BitArray) (i : Z) : Z :=
  if i =? 0 then w0 b else if i =? 1 then w1 b else if i =? 2 then w2 b else w3 b.

Definition BitFromLSB (b : BitArray) (n : Z) : Z :=
  if len b <=? n then 0
  else if negb (Z.land (word_at b (n / 64)) (shl64 1 (n mod 64)) =? 0) then 1 else 0.

Definition IsBitSetFromLSB (b : BitArray) (n : Z) : bool := BitFromLSB b n =? 1.

Definition Bit (b : BitArray) (n : Z) : Z :=
  if Len b <=? n then 0 else BitFromLSB b (Len b - n - 1).

Definition IsBitSet (b : BitArray) (n : Z) : bool := Bit b n =? 1.
Definition MSB (b : BitArray) : Z := Bit b 0.
Definition LSB (b : BitArray) : Z := BitFromLSB b 0.

(** ** Comparison *)

(** [bits.Sub64]: the difference and the borrow. *)
Definition Sub64 (x y borrow : Z) : Z * Z :=
  (u64 (x - y - borrow), if x <? y + borrow then 1 else 0).

Definition Cmp (b x : BitArray) : Z :=
  if len b <? len x then -1
  else if len x <? len b then 1
  else
    let '(d0, carry) := Sub64 (w0 b) (w0 x) 0 in
    let '(d1, carry) := Sub64 (w1 b) (w1 x) carry in
    let '(d2, carry) := Sub64 (w2 b) (w2 x) carry in
    let '(d3, carry) := Sub64 (w3 b) (w3 x) carry in
    if carry =? 1 then -1
    else if Z.lor (Z.lor (Z.lor d0 d1) d2) d3 =? 0 then 0
    else 1.

(** ** Encoding *)

Definition activeBytes (b : BitArray) : Z := (len b + (8 - 1)) / 8.
Definition inactiveBytes (b : BitArray) : Z := 32 - activeBytes b.
Definition EncodedLen (b : BitArray) : Z := activeBytes b + 1.

Definition writeBytesTo (b : BitArray) : list Z :=
  be_bytes 8 (w3 b) ++ be_bytes 8 (w2 b) ++ be_bytes 8 (w1 b) ++ be_bytes 8 (w0 b).

Definition Bytes (b : BitArray) : list Z := writeBytesTo b.

(** [Write] appends these bytes to the buffer, [EncodedString] is the same
    sequence as a string. *)
Definition Write (buf : list Z) (b : BitArray) : list Z :=
  (buf ++ drop (Z.to_nat (inactiveBytes b)) (Bytes b)) ++ [len b].

Definition EncodedBytes (b : BitArray) : list Z :=
  drop (Z.to_nat (inactiveBytes b)) (writeBytesTo b ++ [len b]).

Definition EncodeBytesTo (b : BitArray) : list Z := writeBytesTo b ++ [len b].

Definition setBytes32 (length : Z) (data : list Z) : BitArray :=
  mkBits length (Uint64 (slice data 24 32)) (Uint64 (slice data 16 24))
    (Uint64 (slice data 8 16)) (Uint64 (slice data 0 8)).

Inductive decodeError := EmptyData | InvalidDataLength (got expected : Z).

Definition UnmarshalBinary (data : list Z) : outcome decodeError BitArray :=
  match last data with
  | None => Err EmptyData
  | Some length =>
      let byteCount := (length + 7) / 8 in
      let n := Z.of_nat (base.length data) in
      if byteCount + 1 <? n then Err (InvalidDataLength n (byteCount + 1))
      else
        let bitArrBytes := take (base.length data - 1) data in
        let bs := replicate (32 - base.length bitArrBytes) 0 ++ bitArrBytes in
        Ok (setBytes32 length bs)
  end.

Definition bigEndianUint40 (b : list Z) : Z :=
  Z.lor (Z.lor (Z.lor (Z.lor (byte b 4) (shl64 (byte b 3) 8)) (shl64 (byte b 2) 16))
    (shl64 (byte b 1) 24)) (shl64 (byte b 0) 32).

Definition bigEndianUint48 (b : list Z) : Z :=
  Z.lor (Z.lor (Z.lor (Z.lor (Z.lor (byte b 5) (shl64 (byte b 4) 8)) (shl64 (byte b 3) 16))
    (shl64 (byte b 2) 24)) (shl64 (byte b 1) 32)) (shl64 (byte b 0) 40).

Definition bigEndianUint56 (b : list Z) : Z :=
  Z.lor (Z.lor (Z.lor (Z.lor (Z.lor (Z.lor (byte b 6) (shl64 (byte b 5) 8))
    (shl64 (byte b 4) 16)) (shl64 (byte b 3) 24)) (shl64 (byte b 2) 32))
    (shl64 (byte b 1) 40)) (shl64 (byte b 0) 48).

(** ** Conversions from bytes *)

(** The words [SetBytes] reads, by the length of the data: at most 32 bytes. *)
Definition SetBytes_words (length : Z) (data : list Z) : BitArray :=
  match base.length data with
  | 0%nat => mkBits length 0 0 0 0
  | 1%nat => mkBits length (byte data 0) 0 0 0
  | 2%nat => mkBits length (Uint16 (slice data 0 2)) 0 0 0
  | 3%nat => mkBits length (Z.lor (Uint16 (slice data 1 3)) (shl64 (byte data 0) 16)) 0 0 0
  | 4%nat => mkBits length (Uint32 (slice data 0 4)) 0 0 0
  | 5%nat => mkBits length (bigEndianUint40 (slice data 0 5)) 0 0 0
  | 6%nat => mkBits length (bigEndianUint48 (slice data 0 6)) 0 0 0
  | 7%nat => mkBits length (bigEndianUint56 (slice data 0 7)) 0 0 0
  | 8%nat => mkBits length (Uint64 (slice data 0 8)) 0 0 0
  | 9%nat => mkBits length (Uint64 (slice data 1 9)) (byte data 0)
      0 0
  | 10%nat => mkBits length (Uint64 (slice data 2 10)) (Uint16 (slice data 0 2))
      0 0
  | 11%nat => mkBits length (Uint64 (slice data 3 11)) (Z.lor (Uint16 (slice data 1 3)) (shl64 (byte data 0) 16))
      0 0
  | 12%nat => mkBits length (Uint64 (slice data 4 12)) (Uint32 (slice data 0 4))
      0 0
  | 13%nat => mkBits length (Uint64 (slice data 5 13)) (bigEndianUint40 (slice data 0 5))
      0 0
  | 14%nat => mkBits length (Uint64 (slice data 6 14)) (bigEndianUint48 (slice data 0 6))
      0 0
  | 15%nat => mkBits length (Uint64 (slice data 7 15)) (bigEndianUint56 (slice data 0 7))
      0 0
  | 16%nat => mkBits length (Uint64 (slice data 8 16)) (Uint64 (slice data 0 8))
      0 0
  | 17%nat => mkBits length (Uint64 (slice data 9 17)) (Uint64 (slice data 1 9))
      (byte data 0) 0
  | 18%nat => mkBits length (Uint64 (slice data 10 18)) (Uint64 (slice data 2 10))
      (Uint16 (slice data 0 2)) 0
  | 19%nat => mkBits length (Uint64 (slice data 11 19)) (Uint64 (slice data 3 11))
      (Z.lor (Uint16 (slice data 1 3)) (shl64 (byte data 0) 16)) 0
  | 20%nat => mkBits length (Uint64 (slice data 12 20)) (Uint64 (slice data 4 12))
      (Uint32 (slice data 0 4)) 0
  | 21%nat => mkBits length (Uint64 (slice data 13 21)) (Uint64 (slice data 5 13))
      (bigEndianUint40 (slice data 0 5)) 0
  | 22%nat => mkBits length (Uint64 (slice data 14 22)) (Uint64 (slice data 6 14))
      (bigEndianUint48 (slice data 0 6)) 0
  | 23%nat => mkBits length (Uint64 (slice data 15 23)) (Uint64 (slice data 7 15))
      (bigEndianUint56 (slice data 0 7)) 0
  | 24%nat => mkBits length (Uint64 (slice data 16 24)) (Uint64 (slice data 8 16))
      (Uint64 (slice data 0 8)) 0
  | 25%nat => mkBits length (Uint64 (slice data 17 25)) (Uint64 (slice data 9 17))
      (Uint64 (slice data 1 9)) (byte data 0)
  | 26%nat => mkBits length (Uint64 (slice data 18 26)) (Uint64 (slice data 10 18))
      (Uint64 (slice data 2 10)) (Uint16 (slice data 0 2))
  | 27%nat => mkBits length (Uint64 (slice data 19 27)) (Uint64 (slice data 11 19))
      (Uint64 (slice data 3 11)) (Z.lor (Uint16 (slice data 1 3)) (shl64 (byte data 0) 16))
  | 28%nat => mkBits length (Uint64 (slice data 20 28)) (Uint64 (slice data 12 20))
      (Uint64 (slice data 4 12)) (Uint32 (slice data 0 4))
  | 29%nat => mkBits length (Uint64 (slice data 21 29)) (Uint64 (slice data 13 21))
      (Uint64 (slice data 5 13)) (bigEndianUint40 (slice data 0 5))
  | 30%nat => mkBits length (Uint64 (slice data 22 30)) (Uint64 (slice data 14 22))
      (Uint64 (slice data 6 14)) (bigEndianUint48 (slice data 0 6))
  | 31%nat => mkBits length (Uint64 (slice data 23 31)) (Uint64 (slice data 15 23))
      (Uint64 (slice data 7 15)) (bigEndianUint56 (slice data 0 7))
  | _ => setBytes32 length data
  end.

Definition SetBytes (length : Z) (data : list Z) : BitArray :=
  truncateToLength (SetBytes_words length data).

(** ** Conversions from and to field elements *)

Section felt.
Context {F : Type} `{!FieldElement F}.

Definition setFelt (length : Z) (f : F) : BitArray :=
  let res := felt_Bytes f in
  mkBits length (Uint64 (slice res 24 32)) (Uint64 (slice res 16 24))
    (Uint64 (slice res 8 16)) (Uint64 (slice res 0 8)).

Definition SetFelt (length : Z) (f : F) : BitArray := truncateToLength (setFelt length f).

Definition SetFelt251 (f : F) : BitArray := truncateToLength (setFelt 251 f).

(** [Felt]: the element of the bytes. *)
Definition to_felt (b : BitArray) : F := felt_SetBytes (Bytes b).

End felt.
