(* ===== verification/BitArrayFacts.v ===== *)
(** * Correctness of bit arrays

    A bit array stands for a sequence of bits, most significant first ([bits]).
    Every operation is proved to be the operation on sequences its comment
    promises: [Append] is concatenation, [MSBs] a prefix, [LSBs] a suffix,
    [CommonMSBs] the longest common prefix, and so on.  The proofs go through
    the integer [val] of the four words and its bits. *)
From stdpp Require Import prelude list.
From Stdlib Require Import ZArith Lia Btauto.
From S2P Require Import Prelude Felt BitArray.

Local Open Scope Z_scope.

(** ** The integer of the words *)

Definition val (b : BitArray) : Z :=
  Z.lor (w0 b) (Z.lor (Z.shiftl (w1 b) 64) (Z.lor (Z.shiftl (w2 b) 128) (Z.shiftl (w3 b) 192))).

Record words_ok (b : BitArray) : Prop := {
  ok_w0 : is_u64 (w0 b); ok_w1 : is_u64 (w1 b);
  ok_w2 : is_u64 (w2 b); ok_w3 : is_u64 (w3 b);
}.

(** Well-formed: no bit is set beyond the length. *)
Record wf (b : BitArray) : Prop := {
  wf_len : is_u8 (len b);
  wf_words : words_ok b;
  wf_val : val b < 2 ^ len b;
}.

Lemma testbit_val b i :
  0 <= i ->
  Z.testbit (val b) i =
    Z.testbit (w0 b) i || (Z.testbit (w1 b) (i - 64) ||
      (Z.testbit (w2 b) (i - 128) || Z.testbit (w3 b) (i - 192))).
Proof. intros Hi. unfold val. rewrite !Z.lor_spec, !Z.shiftl_spec by lia. done. Qed.

Lemma testbit_word w i : is_u64 w -> i < 0 \/ 64 <= i -> Z.testbit w i = false.
Proof.
  intros Hw [Hi|Hi]; [by apply Z.testbit_neg_r|]. by apply (testbit_high 64).
Qed.

(** The bits of the integer, word by word. *)
Lemma testbit_block b i :
  words_ok b -> 0 <= i ->
  Z.testbit (val b) i =
    if i <? 64 then Z.testbit (w0 b) i else
    if i <? 128 then Z.testbit (w1 b) (i - 64) else
    if i <? 192 then Z.testbit (w2 b) (i - 128) else Z.testbit (w3 b) (i - 192).
Proof.
  intros [H0 H1 H2 H3] Hi. rewrite testbit_val by lia.
  bool_cases; rewrite ?(testbit_word (w0 b) i), ?(testbit_word (w1 b) (i - 64)),
    ?(testbit_word (w2 b) (i - 128)), ?(testbit_word (w3 b) (i - 192)) by (done || lia);
    rewrite ?orb_false_r; done.
Qed.

Lemma val_nonneg b : words_ok b -> 0 <= val b.
Proof.
  intros [? ? ? ?]. unfold val. rewrite !Z.lor_nonneg, !Z.shiftl_nonneg. lia.
Qed.

Lemma val_bound b : words_ok b -> 0 <= val b < 2 ^ 256.
Proof.
  intros Hw. split; [by apply val_nonneg|].
  apply testbit_bound; [lia|by apply val_nonneg|]. intros i Hi. destruct Hw.
  rewrite testbit_val, !testbit_word by (auto; lia). done.
Qed.

(** Bits of words outside the word are zero. *)
Ltac word_high :=
  repeat match goal with
  | Hw : is_u64 ?w |- context [Z.testbit ?w ?i] => rewrite (testbit_word w i Hw) by lia
  end.

(** Decide an equation between bits of words. *)
Ltac bit_cases := bool_cases; cbn [andb orb negb]; word_high; cbn [andb orb]; try btauto.

(** Both sides are the same bit of the same word, or zero. *)
Ltac bit_same :=
  bool_cases; cbn [andb orb]; word_high; cbn [andb orb]; rewrite ?orb_false_r;
  first [done | f_equal; lia].

(** ** Truncation *)

Lemma land_ones64 w n : is_u64 w -> 0 <= n <= 64 -> is_u64 (Z.land w (shr64 maxUint64 n)).
Proof.
  intros. apply land_range; [lia|done|]. unfold shr64, maxUint64. by apply Z.shiftr_nonneg.
Qed.

Lemma truncate_words b : words_ok b -> is_u8 (len b) -> words_ok (truncateToLength b).
Proof.
  intros [? ? ? ?] Hl. unfold truncateToLength.
  bool_cases; split; simpl; try lia; apply land_ones64; lia || done.
Qed.

Lemma len_truncate b : len (truncateToLength b) = len b.
Proof. unfold truncateToLength. by bool_cases. Qed.

Lemma testbit_mask w n i :
  0 <= n <= 64 -> Z.testbit (Z.land w (shr64 maxUint64 (64 - n))) i = (i <? n) && Z.testbit w i.
Proof.
  intros Hn. rewrite land_mask64 by lia.
  destruct (Z.lt_ge_cases i 0); [rewrite !Z.testbit_neg_r by lia; by rewrite andb_false_r|].
  by rewrite testbit_mod_pow2 by lia.
Qed.

Lemma val_truncate b :
  words_ok b -> is_u8 (len b) -> val (truncateToLength b) = val b mod 2 ^ len b.
Proof.
  intros Hw Hl. apply Z.bits_inj'. intros i Hi.
  rewrite testbit_mod_pow2, !testbit_val by lia. unfold truncateToLength.
  replace (128 - len b) with (64 - (len b - 64)) by lia.
  replace (192 - len b) with (64 - (len b - 128)) by lia.
  replace (256 - len b) with (64 - (len b - 192)) by lia.
  destruct Hw as [Hw0 Hw1 Hw2 Hw3].
  bool_cases; cbn [w0 w1 w2 w3]; rewrite ?testbit_mask, ?Z.bits_0 by lia; bit_cases.
Qed.

Lemma truncate_wf b : words_ok b -> is_u8 (len b) -> wf (truncateToLength b).
Proof.
  intros Hw Hl. split; [by rewrite len_truncate|by apply truncate_words|].
  rewrite val_truncate, len_truncate by done. apply Z.mod_pos_bound. lia.
Qed.

Lemma Set_id x : Set_ x = x.
Proof. by destruct x. Qed.

Lemma clear_wf : wf clear.
Proof. by split; [|split|]. Qed.

(** ** Shifts *)

Lemma shr_pair_range lo hi n : is_u64 lo -> 0 <= n -> is_u64 (shr_pair lo hi n).
Proof. intros. apply lor_range; auto using shr64_range, shl64_range with lia. Qed.

Lemma shl_pair_range hi lo n : is_u64 lo -> n <= 64 -> is_u64 (shl_pair hi lo n).
Proof. intros. apply lor_range; auto using shl64_range; [lia|]. apply shr64_range; [lia|done]. Qed.

Lemma testbit_shr_pair lo hi n i :
  0 <= n -> 0 <= i -> is_u64 hi ->
  Z.testbit (shr_pair lo hi n) i = Z.testbit lo (i + n) || ((i <? 64) && Z.testbit hi (i + n - 64)).
Proof.
  intros. unfold shr_pair. rewrite Z.lor_spec, testbit_shr64, testbit_shl64 by lia.
  do 3 f_equal. lia.
Qed.

Lemma testbit_shl_pair hi lo n i :
  0 <= n <= 64 -> 0 <= i ->
  Z.testbit (shl_pair hi lo n) i = ((i <? 64) && Z.testbit hi (i - n)) || Z.testbit lo (i + 64 - n).
Proof.
  intros. unfold shl_pair. rewrite Z.lor_spec, testbit_shr64, testbit_shl64 by lia.
  do 2 f_equal. lia.
Qed.

#[local] Hint Resolve shr_pair_range shl_pair_range shr64_range shl64_range : bits.
#[local] Hint Extern 1 (_ <= _) => lia : bits.
#[local] Hint Extern 1 (_ <= _ < _) => lia : bits.

Lemma Rsh_spec x n :
  wf x -> 0 <= n ->
  wf (Rsh x n) /\ len (Rsh x n) = Z.max 0 (len x - n) /\ val (Rsh x n) = Z.shiftr (val x) n.
Proof.
  intros Hwf Hn. pose proof Hwf as [Hl Hw Hv]. pose proof Hw as [Hw0 Hw1 Hw2 Hw3].
  pose proof (val_nonneg x Hw).
  assert (Hid : n = 0 -> Z.shiftr (val x) n = val x) by (intros ->; apply Z.shiftr_0_r).
  unfold Rsh. destruct (Z.eqb_spec (len x) 0) as [E|E].
  { assert (val x = 0) as E0 by (rewrite E in Hv; lia).
    rewrite Set_id. split_and!; [done|lia|]. by rewrite E0, Z.shiftr_0_l. }
  destruct (Z.leb_spec (len x) n).
  { split_and!; [apply clear_wf|simpl; lia|]. symmetry.
    rewrite Z.shiftr_div_pow2 by lia. apply Z.div_small. split; [done|].
    pose proof (Z.pow_le_mono_r 2 (len x) n). lia. }
  destruct (Z.eqb_spec n 0) as [->|Hn0].
  { rewrite Hid, Set_id by done. split_and!; [done|lia|done]. }
  set (b := if 192 <=? n then _ else _).
  assert (Hb : words_ok b /\ len b = len x - n).
  { unfold b. bool_cases; cbn [len w0 w1 w2 w3 rsh192 rsh128 rsh64 set_len Set_]; split; try lia;
      split; cbn [w0 w1 w2 w3]; auto with bits lia. }
  destruct Hb as [Hbw Hbl]. split_and!.
  - apply truncate_wf; [done|lia].
  - rewrite len_truncate. lia.
  - rewrite val_truncate by (done || lia). rewrite Hbl.
    assert (Hval : val b = Z.shiftr (val x) n).
    { apply Z.bits_inj'. intros i Hi. rewrite Z.shiftr_spec, !testbit_block by (done || lia).
      unfold b. clear Hv Hid.
      bool_cases; cbn [w0 w1 w2 w3 len rsh192 rsh128 rsh64 set_len Set_];
        rewrite ?testbit_shr_pair, ?testbit_shr64, ?Z.bits_0 by (done || lia);
        bit_same. }
    rewrite Hval. apply Z.mod_small. rewrite Z.shiftr_div_pow2 by lia.
    split; [apply Z.div_pos; lia|]. apply Z.div_lt_upper_bound; [lia|].
    rewrite <- Z.pow_add_r by lia. by replace (n + (len x - n)) with (len x) by lia.
Qed.

Lemma Lsh_spec x n :
  wf x -> is_u8 n -> 0 < len x ->
  wf (Lsh x n) /\ len (Lsh x n) = Z.min 255 (len x + n) /\
  val (Lsh x n) = Z.shiftl (val x) n mod 2 ^ len (Lsh x n).
Proof.
  intros Hwf Hn Hx. pose proof Hwf as [Hl Hw Hv]. pose proof Hw as [Hw0 Hw1 Hw2 Hw3].
  pose proof (val_nonneg x Hw). unfold Lsh.
  destruct (Z.eqb_spec (len x) 0) as [?|_]; [lia|]. simpl orb.
  destruct (Z.eqb_spec n 0) as [->|Hn0].
  { rewrite Set_id, Z.shiftl_0_r, Z.mod_small by lia. split_and!; [done|lia|done]. }
  set (l := if maxUint8 - len x <? n then _ else _).
  assert (Hll : l = Z.min 255 (len x + n)).
  { unfold l, maxUint8. change (2 ^ 8) with 256. bool_cases; lia. }
  clearbody l.
  set (b := if 192 <=? n then _ else _).
  assert (Hb : words_ok b /\ len b = l).
  { unfold b. bool_cases; cbn [len w0 w1 w2 w3 lsh192 lsh128 lsh64 set_len Set_]; split; try lia;
      split; cbn [w0 w1 w2 w3]; auto with bits lia. }
  destruct Hb as [Hbw Hbl]. rewrite len_truncate, Hbl. split_and!.
  - apply truncate_wf; [done|lia].
  - done.
  - rewrite val_truncate, Hbl by (done || lia).
    assert (Hval : forall i, 0 <= i < 256 -> Z.testbit (val b) i = Z.testbit (Z.shiftl (val x) n) i).
    { intros i Hi. rewrite Z.shiftl_spec by lia.
      destruct (Z.lt_ge_cases i n) as [Hin|Hin].
      - rewrite (Z.testbit_neg_r _ (i - n)), testbit_block by (done || lia). unfold b. clear Hv.
        bool_cases; cbn [w0 w1 w2 w3 len lsh192 lsh128 lsh64 set_len];
          rewrite ?testbit_shl_pair, ?testbit_shl64, ?Z.bits_0 by (done || lia); bit_same.
      - rewrite !testbit_block by (done || lia). unfold b. clear Hv.
        bool_cases; cbn [w0 w1 w2 w3 len lsh192 lsh128 lsh64 set_len];
          rewrite ?testbit_shl_pair, ?testbit_shl64, ?Z.bits_0 by (done || lia); bit_same. }
    apply Z.bits_inj'. intros i Hi. rewrite !testbit_mod_pow2 by lia.
    destruct (Z.ltb_spec i l); [|done]. by rewrite Hval by lia.
Qed.

(** ** Bitwise operations *)

Lemma val_Or x y : val (Or x y) = Z.lor (val x) (val y).
Proof.
  apply Z.bits_inj'. intros i Hi. rewrite Z.lor_spec, !testbit_val by lia. simpl.
  rewrite !Z.lor_spec. btauto.
Qed.

Lemma val_And x y : words_ok x -> words_ok y -> val (And x y) = Z.land (val x) (val y).
Proof.
  intros Hx Hy. apply Z.bits_inj'. intros i Hi.
  assert (Ha : words_ok (And x y)).
  { destruct Hx, Hy. split; simpl; apply land_range; lia. }
  rewrite Z.land_spec, !testbit_block by (done || lia). simpl.
  bool_cases; by rewrite Z.land_spec.
Qed.

Lemma val_Xor b x y : words_ok x -> words_ok y -> val (Xor b x y) = Z.lxor (val x) (val y).
Proof.
  intros Hx Hy. apply Z.bits_inj'. intros i Hi.
  assert (Ha : words_ok (Xor b x y)).
  { destruct Hx, Hy. split; simpl; apply lxor_range; lia. }
  rewrite Z.lxor_spec, !testbit_block by (done || lia). simpl.
  bool_cases; by rewrite Z.lxor_spec.
Qed.

Lemma Or_words x y : words_ok x -> words_ok y -> words_ok (Or x y).
Proof. intros [] []. split; simpl; apply lor_range; lia. Qed.

Lemma And_words x y : words_ok x -> words_ok y -> words_ok (And x y).
Proof. intros [] []. split; simpl; apply land_range; lia. Qed.

Lemma Xor_words b x y : words_ok x -> words_ok y -> words_ok (Xor b x y).
Proof. intros [] []. split; simpl; apply lxor_range; lia. Qed.

(** The words are determined by the integer. *)
Lemma val_inj x y : words_ok x -> words_ok y -> len x = len y -> val x = val y -> x = y.
Proof.
  intros Hx Hy El Ev.
  assert (Hb : forall i, 0 <= i -> Z.testbit (val x) i = Z.testbit (val y) i) by (intros; by rewrite Ev).
  assert (Hword : forall k wx wy, 0 <= k -> is_u64 wx -> is_u64 wy ->
    (forall i, 0 <= i < 64 -> Z.testbit wx i = Z.testbit (val x) (i + k)) ->
    (forall i, 0 <= i < 64 -> Z.testbit wy i = Z.testbit (val y) (i + k)) -> wx = wy).
  { intros k wx wy Hk Rx Ry Ex Ey. apply Z.bits_inj'. intros i Hi.
    destruct (Z.lt_ge_cases i 64); [rewrite Ex, Ey by lia; apply Hb; lia|].
    by rewrite !testbit_word by (done || lia). }
  pose proof Hx as [X0 X1 X2 X3]. pose proof Hy as [Y0 Y1 Y2 Y3].
  destruct x as [l a0 a1 a2 a3], y as [l' b0 b1 b2 b3]; simpl in *. subst.
  f_equal; [apply (Hword 0)|apply (Hword 64)|apply (Hword 128)|apply (Hword 192)]; try done;
    intros i Hi; rewrite testbit_block by (done || lia); simpl; bool_cases; f_equal; lia.
Qed.

Lemma Equal_spec x y : Equal x y = true <-> x = y.
Proof.
  unfold Equal. split.
  - intros ?. bool_hyps. destruct x, y; simpl in *. congruence.
  - intros ->. by rewrite !Z.eqb_refl.
Qed.

(** ** Sequences of bits *)

(** The [n] low bits of an integer, most significant first. *)
Fixpoint bits_n (n : nat) (v : Z) : list bool :=
  match n with
  | O => []
  | S k => Z.testbit v (Z.of_nat k) :: bits_n k v
  end.

Definition bits (b : BitArray) : list bool := bits_n (Z.to_nat (len b)) (val b).

Lemma length_bits_n n v : length (bits_n n v) = n.
Proof. induction n; simpl; auto. Qed.

Lemma length_bits b : length (bits b) = Z.to_nat (len b).
Proof. apply length_bits_n. Qed.

Lemma bits_n_ext n v w :
  (forall i, 0 <= i < Z.of_nat n -> Z.testbit v i = Z.testbit w i) <-> bits_n n v = bits_n n w.
Proof.
  induction n as [|n IH]; simpl; [split; [done|lia]|]. split.
  - intros Hb. f_equal; [apply Hb; lia|]. apply IH. intros. apply Hb. lia.
  - intros [= E1 E2] i Hi. destruct (decide (i = Z.of_nat n)) as [->|]; [done|].
    apply IH; [done|lia].
Qed.

Lemma bits_n_mod n v k : Z.of_nat n <= k -> bits_n n (v mod 2 ^ k) = bits_n n v.
Proof.
  intros Hk. apply bits_n_ext. intros i Hi. rewrite testbit_mod_pow2 by lia.
  by destruct (Z.ltb_spec i k); [|lia].
Qed.

(** Splitting off the low [n] bits. *)
Lemma bits_n_app m n v : bits_n (m + n) v = bits_n m (Z.shiftr v (Z.of_nat n)) ++ bits_n n v.
Proof.
  induction m as [|m IH]; simpl; [done|]. rewrite IH, Z.shiftr_spec by lia. do 2 f_equal. lia.
Qed.

Lemma take_bits_n m n v :
  (m <= n)%nat -> take m (bits_n n v) = bits_n m (Z.shiftr v (Z.of_nat (n - m))).
Proof.
  intros Hm. replace n with (m + (n - m))%nat at 1 by lia. rewrite bits_n_app.
  by rewrite take_app_length' by (by rewrite length_bits_n).
Qed.

Lemma drop_bits_n m n v : (m <= n)%nat -> drop m (bits_n n v) = bits_n (n - m) v.
Proof.
  intros Hm. replace n with (m + (n - m))%nat at 1 by lia. rewrite bits_n_app.
  by rewrite drop_app_length' by (by rewrite length_bits_n).
Qed.

Lemma bits_n_inj n v w :
  0 <= v < 2 ^ Z.of_nat n -> 0 <= w < 2 ^ Z.of_nat n -> bits_n n v = bits_n n w -> v = w.
Proof.
  intros Hv Hw E. rewrite <- bits_n_ext in E. apply Z.bits_inj'. intros i Hi.
  destruct (Z.lt_ge_cases i (Z.of_nat n)); [by apply E|].
  by rewrite !(testbit_high (Z.of_nat n)) by (done || lia).
Qed.

(** Equal sequences are equal arrays. *)
Lemma bits_inj x y : wf x -> wf y -> bits x = bits y -> x = y.
Proof.
  intros [Lx Wx Vx] [Ly Wy Vy] E. pose proof (f_equal length E) as El.
  rewrite !length_bits in El. assert (El' : len x = len y) by lia.
  apply val_inj; try done. unfold bits in E. rewrite El' in *.
  apply (bits_n_inj (Z.to_nat (len y))); rewrite ?Z2Nat.id by lia; [|by auto using val_nonneg..].
  auto using val_nonneg.
Qed.

Lemma val_range x : wf x -> 0 <= val x < 2 ^ len x.
Proof. intros [? ? ?]. auto using val_nonneg. Qed.

(** An array given by its length and integer. *)
Lemma bits_eq x n v :
  len x = Z.of_nat n -> val x = v -> bits x = bits_n n v.
Proof. unfold bits. intros -> ->. by rewrite Nat2Z.id. Qed.

Lemma bits_nil x : wf x -> len x = 0 -> bits x = [].
Proof. intros _ E. unfold bits. by rewrite E. Qed.

Lemma bits_clear : bits clear = [].
Proof. done. Qed.

(** ** Slices *)

Lemma MSBs_spec x n : wf x -> 0 <= n -> wf (MSBs x n) /\ bits (MSBs x n) = take (Z.to_nat n) (bits x).
Proof.
  intros Hwf Hn. pose proof Hwf as [Hl _ _]. unfold MSBs. destruct (Z.leb_spec (len x) n).
  { rewrite Set_id, take_ge; [done|]. rewrite length_bits. lia. }
  destruct (Rsh_spec x (len x - n)) as (Hr & Hlen & Hval); [done|lia|]. split; [done|].
  rewrite (bits_eq (Rsh x (len x - n)) (Z.to_nat n) _ ltac:(lia) Hval). unfold bits.
  rewrite take_bits_n by lia. do 2 f_equal. lia.
Qed.

Lemma LSBsFromLSB_spec x n :
  wf x -> 0 <= n -> wf (LSBsFromLSB x n) /\
  len (LSBsFromLSB x n) = Z.min n (len x) /\
  bits (LSBsFromLSB x n) = drop (Z.to_nat (len x - n)) (bits x).
Proof.
  intros Hwf Hn. pose proof Hwf as [Hl Hw _].
  destruct (Z.lt_ge_cases n (len x)) as [Hlt|Hge].
  - assert (E : LSBsFromLSB x n = truncateToLength (set_len x n)).
    { unfold LSBsFromLSB, truncateToLength. destruct x; simpl in *. by bool_cases. }
    rewrite E. pose proof (truncate_wf (set_len x n)) as Ht.
    split_and!; [apply Ht; [by destruct Hw|simpl; lia]|rewrite len_truncate; simpl; lia|].
    rewrite (bits_eq _ (Z.to_nat n) (val x mod 2 ^ n)).
    + rewrite bits_n_mod by lia. unfold bits. rewrite drop_bits_n by lia. f_equal. lia.
    + rewrite len_truncate. simpl. lia.
    + rewrite val_truncate; [done|by destruct Hw|simpl; lia].
  - unfold LSBsFromLSB. destruct (Z.leb_spec (len x) n); [|lia]. rewrite Set_id.
    split_and!; [done|lia|]. replace (Z.to_nat (len x - n)) with 0%nat by lia. done.
Qed.

Lemma LSBs_spec x n :
  wf x -> 0 <= n -> wf (LSBs x n) /\ bits (LSBs x n) = drop (Z.to_nat n) (bits x).
Proof.
  intros Hwf Hn. unfold LSBs, Len. destruct (Z.eqb_spec n 0) as [->|]; [by rewrite Set_id|].
  destruct (Z.ltb_spec (len x) n).
  - split; [apply clear_wf|]. rewrite drop_ge; [done|]. rewrite length_bits. lia.
  - destruct (LSBsFromLSB_spec x (len x - n)) as (? & _ & E); [done|lia|]. split; [done|].
    rewrite E. f_equal. lia.
Qed.

(** ** Concatenation *)

Lemma shiftr_lor_shiftl a b n : 0 <= n -> 0 <= b < 2 ^ n -> Z.shiftr (Z.lor (Z.shiftl a n) b) n = a.
Proof.
  intros Hn Hb. apply Z.bits_inj'. intros i Hi.
  rewrite Z.shiftr_spec, Z.lor_spec, Z.shiftl_spec, (testbit_high n b) by lia.
  rewrite orb_false_r. f_equal. lia.
Qed.

Lemma bits_n_concat m n a b :
  0 <= b < 2 ^ Z.of_nat n ->
  bits_n (m + n) (Z.lor (Z.shiftl a (Z.of_nat n)) b) = bits_n m a ++ bits_n n b.
Proof.
  intros Hb. rewrite bits_n_app, shiftr_lor_shiftl by lia. f_equal. apply bits_n_ext. intros i Hi.
  by rewrite Z.lor_spec, Z.shiftl_spec, (Z.testbit_neg_r a) by lia.
Qed.

(** Beyond 255 bits the most significant ones are lost. *)
Lemma Append_spec x y :
  wf x -> wf y ->
  wf (Append x y) /\
  bits (Append x y) = drop (Z.to_nat (len x + len y - 255)) (bits x ++ bits y).
Proof.
  intros Hx Hy. pose proof Hx as [Lx Wx Vx]. pose proof Hy as [Ly Wy Vy].
  pose proof (val_range y Hy) as Ry. unfold Append, maxUint8. change (2 ^ 8 - 1) with 255.
  destruct (Z.eqb_spec (len x) 0) as [E|E]; simpl orb.
  { rewrite Set_id, (bits_nil x) by done. replace (Z.to_nat _) with 0%nat by lia. done. }
  destruct (Z.eqb_spec (len y) 255) as [E1|E1].
  { rewrite Set_id. split; [done|]. rewrite drop_app_length' by (rewrite length_bits; lia). done. }
  destruct (Z.eqb_spec (len y) 0) as [E2|E2].
  { rewrite Set_id, (bits_nil y), app_nil_r by done. replace (Z.to_nat _) with 0%nat by lia. done. }
  destruct (Lsh_spec x (len y)) as (Hw & Hl & Hv); [done|lia|lia|].
  set (n := Z.to_nat (len y)). set (m := Z.to_nat (len x)).
  set (v := Z.lor (Z.shiftl (val x) (len y)) (val y)).
  assert (Ev : val (Or (Lsh x (len y)) y) = v mod 2 ^ Z.min 255 (len x + len y)).
  { rewrite val_Or, Hv, Hl. apply Z.bits_inj'. intros i Hi. unfold v.
    rewrite Z.lor_spec, !testbit_mod_pow2, Z.lor_spec by lia. bool_cases; simpl; [done|].
    apply (testbit_high (len y)); lia. }
  assert (El : len (Or (Lsh x (len y)) y) = Z.of_nat (Z.to_nat (Z.min 255 (len x + len y)))).
  { simpl. lia. }
  split.
  - split; [simpl; lia|apply Or_words; [apply Hw|done]|].
    rewrite Ev, El, Z2Nat.id by lia. apply Z.mod_pos_bound. lia.
  - rewrite (bits_eq _ _ _ El Ev), bits_n_mod by lia.
    assert (Ec : bits x ++ bits y = bits_n (m + n) v).
    { unfold bits, v. replace (len y) with (Z.of_nat n) at 2 by lia.
      rewrite bits_n_concat; [done|]. subst n. rewrite Z2Nat.id by lia. done. }
    rewrite Ec, drop_bits_n by lia. f_equal. lia.
Qed.

Lemma Append_exact x y :
  wf x -> wf y -> len x + len y <= 255 ->
  wf (Append x y) /\ len (Append x y) = len x + len y /\ bits (Append x y) = bits x ++ bits y.
Proof.
  intros Hx Hy Hl. destruct (Append_spec x y Hx Hy) as [Hw E].
  replace (Z.to_nat _) with 0%nat in E by lia. rewrite drop_0 in E. split_and!; [done| |done].
  pose proof (f_equal length E) as El. rewrite length_app, !length_bits in El.
  destruct Hx as [? _ _], Hy as [? _ _], Hw as [? _ _]. lia.
Qed.

Lemma SetBit_spec bit : wf (SetBit bit) /\ bits (SetBit bit) = [Z.testbit bit 0].
Proof.
  assert (E : Z.land bit 1 = Z.b2z (Z.testbit bit 0)).
  { change 1 with (Z.ones 1) at 1. rewrite Z.land_ones by lia. symmetry. apply Z.bit0_mod. }
  unfold SetBit. rewrite E. by destruct (Z.testbit bit 0).
Qed.

Lemma AppendBit_spec x bit :
  wf x -> len x < 255 ->
  wf (AppendBit x bit) /\ len (AppendBit x bit) = len x + 1 /\
  bits (AppendBit x bit) = bits x ++ [Z.testbit bit 0].
Proof.
  intros Hx Hl. destruct (SetBit_spec bit) as [Hw <-].
  apply (Append_exact x (SetBit bit)); [done|done|simpl; lia].
Qed.

Lemma bits_n_0 n : bits_n n 0 = replicate n false.
Proof. induction n; simpl; rewrite ?Z.bits_0; congruence. Qed.

Lemma Zeros_spec n : is_u8 n -> wf (Zeros n) /\ bits (Zeros n) = replicate (Z.to_nat n) false.
Proof.
  intros Hn. split; [split; [done|by split|change (0 < 2 ^ n); lia]|]. apply bits_n_0.
Qed.

Lemma Ones_spec n : is_u8 n -> wf (Ones n) /\ len (Ones n) = n /\ bits (Ones n) = replicate (Z.to_nat n) true.
Proof.
  intros Hn. unfold Ones. set (b := mkBits _ _ _ _ _).
  assert (Hw : words_ok b) by (by split). split_and!.
  - by apply truncate_wf.
  - by rewrite len_truncate.
  - rewrite (bits_eq _ (Z.to_nat n) (val b mod 2 ^ n)).
    + rewrite bits_n_mod by lia.
      assert (Hb : forall i, 0 <= i < 256 -> Z.testbit (val b) i = true).
      { intros i Hi. rewrite testbit_block by (done || lia). unfold b; simpl.
        unfold maxUint64. bool_cases; rewrite testbit_ones by lia; by bool_cases. }
      assert (Hk : forall k, (k <= 256)%nat -> bits_n k (val b) = replicate k true).
      { induction k as [|k IH]; intros Hk; simpl; [done|]. rewrite Hb, IH by lia. done. }
      apply Hk. lia.
    + rewrite len_truncate. simpl. lia.
    + rewrite val_truncate; done.
Qed.

Lemma AppendZeros_spec x n :
  wf x -> 0 <= n -> len x + n <= 255 ->
  wf (AppendZeros x n) /\ len (AppendZeros x n) = len x + n /\
  bits (AppendZeros x n) = bits x ++ replicate (Z.to_nat n) false.
Proof.
  intros Hx Hn Hl. pose proof Hx as [? _ _]. destruct (Zeros_spec n) as [Hw <-]; [lia|].
  apply (Append_exact x (Zeros n)); [done|done|simpl; lia].
Qed.

(** ** Subsets *)

Lemma bits_n_land n a b : bits_n n (Z.land a b) = zip_with andb (bits_n n a) (bits_n n b).
Proof. induction n; simpl; rewrite ?Z.land_spec; congruence. Qed.

Lemma zip_with_and_ones (l k : list bool) n :
  (n <= length l)%nat -> take n (zip_with andb l (replicate n true ++ k)) = take n l.
Proof.
  revert l. induction n as [|n IH]; intros [|b l] Hn; simpl in *; try done; try lia.
  rewrite andb_true_r, IH by lia. done.
Qed.

Lemma Subset_spec x i j :
  wf x -> 0 <= i -> 0 <= j ->
  wf (Subset x i j) /\
  bits (Subset x i j) = take (Z.to_nat (j - i)) (drop (Z.to_nat i) (bits x)).
Proof.
  intros Hx Hi Hj. pose proof Hx as [Lx Wx Vx]. unfold Subset.
  destruct (Z.leb_spec j i) as [H1|H1]; simpl orb.
  { split; [apply clear_wf|]. replace (Z.to_nat (j - i)) with 0%nat by lia. by rewrite take_0. }
  destruct (Z.leb_spec (len x) i) as [H2|H2].
  { split; [apply clear_wf|]. rewrite drop_ge by (rewrite length_bits; lia). by rewrite take_nil. }
  set (e := if len x <? j then len x else j).
  assert (He : i < e <= len x /\ e = Z.min j (len x)) by (unfold e; bool_cases; lia).
  clearbody e. destruct (LSBs_spec x i) as [Hb Eb]; [done|done|].
  set (b := LSBs x i) in *. assert (Lb : len b = len x - i).
  { pose proof (f_equal length Eb) as El. rewrite length_drop, !length_bits in El.
    destruct Hb as [? _ _]. lia. }
  destruct (Ones_spec (e - i)) as (Ho & Lo & Eo); [lia|].
  destruct (Zeros_spec (len b - (e - i))) as [Hz Ez]; [lia|].
  destruct (Append_exact (Ones (e - i)) (Zeros (len b - (e - i)))) as (Hm & Lm & Em);
    [done|done|simpl; lia|]. rewrite Lo in Lm. simpl len in Lm.
  fold (Zeros (len b - (e - i))). set (mask := Append _ _) in *.
  assert (Ea : bits (And b mask) = zip_with andb (bits b) (bits mask)).
  { unfold bits. rewrite val_And by (apply Hb || apply Hm). simpl len.
    rewrite bits_n_land. do 2 f_equal; lia. }
  assert (Ha : wf (And b mask)).
  { split; [apply Hb|apply And_words; [apply Hb|apply Hm]|]. simpl len.
    rewrite val_And by (apply Hb || apply Hm). apply land_range; [lia|by apply val_range|].
    apply val_nonneg, Hm. }
  destruct (MSBs_spec (And b mask) (e - i)) as [Hr Er]; [done|lia|]. split; [done|].
  rewrite Er, Ea, Em, Eo, zip_with_and_ones by (rewrite length_bits; lia).
  rewrite Eb. destruct (Z.le_gt_cases j (len x)).
  - do 2 f_equal. lia.
  - rewrite !take_ge by (rewrite length_drop, length_bits; lia). done.
Qed.

(** ** Prefixes *)

Lemma EqualMSBs_spec x y :
  wf x -> wf y ->
  EqualMSBs x y = true <-> bits x `prefix_of` bits y \/ bits y `prefix_of` bits x.
Proof.
  intros Hx Hy. pose proof Hx as [Lx _ _]. pose proof Hy as [Ly _ _]. unfold EqualMSBs.
  assert (Hpre : forall l k : list bool, l `prefix_of` k <-> take (length l) k = l).
  { intros l k. split; [intros [m ->]; apply take_app_length|].
    intros E. exists (drop (length l) k). rewrite <- E at 1. by rewrite take_drop. }
  destruct (Z.eqb_spec (len x) (len y)) as [E|E].
  { rewrite Equal_spec. split; [intros ->; by left|]. rewrite !Hpre, !length_bits, E.
    rewrite !take_ge by (rewrite length_bits; lia). intros [?|?]; by apply bits_inj. }
  destruct (Z.eqb_spec (len x) 0) as [E1|E1]; simpl orb.
  { rewrite (bits_nil x) by done. split; [left; apply prefix_nil|done]. }
  destruct (Z.eqb_spec (len y) 0) as [E2|E2].
  { rewrite (bits_nil y) by done. split; [right; apply prefix_nil|done]. }
  destruct (MSBs_spec x (Z.min (len y) (len x))) as [Hx' Ex]; [done|lia|].
  destruct (MSBs_spec y (Z.min (len y) (len x))) as [Hy' Ey]; [done|lia|].
  rewrite Equal_spec. trans (bits (MSBs x (Z.min (len y) (len x))) = bits (MSBs y (Z.min (len y) (len x)))).
  { split; [congruence|by apply bits_inj]. }
  rewrite Ex, Ey, !Hpre, !length_bits.
  destruct (Z.le_gt_cases (len x) (len y)).
  - rewrite Z.min_r, (take_ge (bits x)) by (rewrite ?length_bits; lia).
    split; [left; done|]. intros [?|E3]; [done|].
    apply (f_equal length) in E3. rewrite length_take, !length_bits in E3. lia.
  - rewrite Z.min_l, (take_ge (bits y)) by (rewrite ?length_bits; lia).
    split; [right; done|]. intros [E3|?]; [|done].
    apply (f_equal length) in E3. rewrite length_take, !length_bits in E3. lia.
Qed.

(** The number of bits of an integer. *)
Definition bit_length (v : Z) : Z := if v =? 0 then 0 else Z.log2 v + 1.

Lemma log2_word_shift w n :
  is_u64 w -> 0 <= n ->
  w = 0 /\ Z.log2 (Z.shiftl w n) = 0 \/ 0 < w /\ Z.log2 (Z.shiftl w n) = Z.log2 w + n.
Proof.
  intros Hw Hn. destruct (Z.eq_dec w 0) as [->|]; [left; by rewrite Z.shiftl_0_l|].
  right. split; [lia|]. apply Z.log2_shiftl; lia.
Qed.

Lemma log2_u64 w : is_u64 w -> 0 <= Z.log2 w < 64.
Proof.
  intros Hw. split; [apply Z.log2_nonneg|].
  destruct (Z.eq_dec w 0) as [->|]; [simpl; lia|]. apply Z.log2_lt_pow2; lia.
Qed.

Lemma findFirstSetBit_spec b :
  wf b -> 0 < len b -> findFirstSetBit b = bit_length (val b).
Proof.
  intros [Hl Hw Hv] Hpos. pose proof (val_nonneg b Hw) as Hn.
  assert (Hlog : val b <> 0 -> Z.log2 (val b) < 255).
  { intros. apply Z.log2_lt_pow2; [lia|]. pose proof (Z.pow_le_mono_r 2 (len b) 255). lia. }
  destruct Hw as [H0 H1 H2 H3].
  pose proof (log2_u64 _ H0). pose proof (log2_u64 _ H1).
  pose proof (log2_u64 _ H2). pose proof (log2_u64 _ H3).
  assert (Hlv : Z.log2 (val b) = Z.max (Z.log2 (w0 b)) (Z.max (Z.log2 (Z.shiftl (w1 b) 64))
    (Z.max (Z.log2 (Z.shiftl (w2 b) 128)) (Z.log2 (Z.shiftl (w3 b) 192))))).
  { unfold val. rewrite !Z.log2_lor; rewrite ?Z.lor_nonneg, ?Z.shiftl_nonneg; lia. }
  assert (Hval0 : val b = 0 <-> w0 b = 0 /\ w1 b = 0 /\ w2 b = 0 /\ w3 b = 0).
  { unfold val. rewrite !Z.lor_eq_0_iff, !Z.shiftl_eq_0_iff by lia. lia. }
  pose proof (log2_word_shift _ 64 H1). pose proof (log2_word_shift _ 128 H2).
  pose proof (log2_word_shift _ 192 H3).
  unfold findFirstSetBit, bit_length, LeadingZeros64. bool_cases; cbn [negb];
    try rewrite u8_small by lia; lia.
Qed.

(** The longest common prefix. *)
Fixpoint lcp (l k : list bool) : list bool :=
  match l, k with
  | a :: l', b :: k' => if Bool.eqb a b then a :: lcp l' k' else []
  | _, _ => []
  end.

Lemma bit_length_range v n : 0 <= v < 2 ^ n -> 0 <= n -> 0 <= bit_length v <= n.
Proof.
  intros Hv Hn. unfold bit_length. bool_cases. pose proof (Z.log2_nonneg v).
  pose proof (proj1 (Z.log2_lt_pow2 v n ltac:(lia)) ltac:(lia)). lia.
Qed.

Lemma lcp_bits_n n a b :
  0 <= Z.lxor a b < 2 ^ Z.of_nat n ->
  let d := bit_length (Z.lxor a b) in
  lcp (bits_n n a) (bits_n n b) = bits_n (n - Z.to_nat d) (Z.shiftr a d).
Proof.
  intros Hx d. induction n as [|n IH]; [done|]. simpl lcp.
  destruct (Z.testbit (Z.lxor a b) (Z.of_nat n)) eqn:Eb.
  - assert (Hd : d = Z.of_nat (S n)).
    { unfold d, bit_length. destruct (Z.eqb_spec (Z.lxor a b) 0) as [E|E].
      { by rewrite E, Z.bits_0 in Eb. }
      assert (Z.log2 (Z.lxor a b) = Z.of_nat n); [|lia]. apply Z.le_antisymm.
      - apply Z.lt_succ_r. apply Z.log2_lt_pow2; [lia|]. rewrite <- Nat2Z.inj_succ. lia.
      - destruct (Z.le_gt_cases (Z.of_nat n) (Z.log2 (Z.lxor a b))) as [|Hlt]; [done|].
        rewrite Z.bits_above_log2 in Eb by lia. done. }
    rewrite Z.lxor_spec in Eb. rewrite Hd, Nat2Z.id, Nat.sub_diag.
    revert Eb. by destruct (Z.testbit a (Z.of_nat n)), (Z.testbit b (Z.of_nat n)).
  - assert (Hn : 0 <= Z.lxor a b < 2 ^ Z.of_nat n).
    { split; [lia|]. apply testbit_bound; [lia|lia|]. intros i Hi.
      destruct (decide (i = Z.of_nat n)) as [->|]; [done|]. apply (testbit_high (Z.of_nat (S n))); lia. }
    pose proof (bit_length_range _ _ Hn ltac:(lia)) as Hr. fold d in Hr.
    rewrite Z.lxor_spec in Eb. replace (Z.testbit b (Z.of_nat n)) with (Z.testbit a (Z.of_nat n))
      by (revert Eb; by destruct (Z.testbit a (Z.of_nat n)), (Z.testbit b (Z.of_nat n))).
    rewrite Bool.eqb_reflx, IH by done. replace (S n - Z.to_nat d)%nat with (S (n - Z.to_nat d)) by lia.
    simpl. rewrite Z.shiftr_spec by lia. do 2 f_equal. lia.
Qed.

Lemma lcp_comm l k : lcp l k = lcp k l.
Proof.
  revert k. induction l as [|a l IH]; intros [|b k]; simpl; try done.
  destruct a, b; simpl; by rewrite ?IH.
Qed.

Lemma lcp_take l k : lcp l (take (length l) k) = lcp l k.
Proof.
  revert k. induction l as [|a l IH]; intros [|b k]; simpl; try done. by rewrite IH.
Qed.

(** For arrays ordered by length. *)
Lemma CommonMSBs_long x y :
  wf x -> wf y -> 0 < len y <= len x ->
  let b := Rsh x (len x - len y) in
  let r := Rsh y (findFirstSetBit (Xor b b y)) in
  wf r /\ bits r = lcp (bits y) (bits x).
Proof.
  intros Hx Hy Hl b r. pose proof Hx as [Lx _ _]. pose proof Hy as [Ly Wy _].
  destruct (Rsh_spec x (len x - len y)) as (Hb & Lb & Vb); [done|lia|]. fold b in Hb, Lb, Vb.
  assert (Lb' : len b = len y) by lia.
  pose proof (val_range _ Hb) as Rb. pose proof (val_range _ Hy) as Ry. rewrite Lb' in Rb.
  assert (Vxor : val (Xor b b y) = Z.lxor (val b) (val y)) by (apply val_Xor; [apply Hb|done]).
  assert (Rx : 0 <= Z.lxor (val b) (val y) < 2 ^ len y) by (apply lxor_range; lia).
  assert (Hxor : wf (Xor b b y)).
  { split; [simpl; lia|apply Xor_words; [apply Hb|done]|]. simpl len. rewrite Lb'. lia. }
  assert (Hd : findFirstSetBit (Xor b b y) = bit_length (Z.lxor (val b) (val y))).
  { rewrite findFirstSetBit_spec; [by rewrite Vxor|done|simpl; lia]. }
  pose proof (bit_length_range _ _ Rx ltac:(lia)) as Hr.
  unfold r. rewrite Hd. destruct (Rsh_spec y (bit_length (Z.lxor (val b) (val y)))) as (Hr' & Lr & Vr);
    [done|lia|]. split; [done|].
  rewrite (bits_eq _ (Z.to_nat (len y) - Z.to_nat (bit_length (Z.lxor (val b) (val y)))) _
    ltac:(rewrite Lr; lia) Vr).
  assert (Eb : bits b = take (length (bits y)) (bits x)).
  { unfold bits. rewrite length_bits_n, Lb', Vb, take_bits_n by lia. do 2 f_equal. lia. }
  rewrite <- lcp_take, <- Eb. unfold bits. rewrite Lb'.
  rewrite Z.lxor_comm. rewrite lcp_bits_n by (rewrite Z2Nat.id by lia; by rewrite Z.lxor_comm). done.
Qed.

Lemma CommonMSBs_spec x y :
  wf x -> wf y -> wf (CommonMSBs x y) /\ bits (CommonMSBs x y) = lcp (bits x) (bits y).
Proof.
  intros Hx Hy. pose proof Hx as [Lx _ _]. pose proof Hy as [Ly _ _]. unfold CommonMSBs.
  destruct (Z.eqb_spec (len x) 0) as [E|E]; simpl orb.
  { split; [apply clear_wf|]. by rewrite (bits_nil x). }
  destruct (Z.eqb_spec (len y) 0) as [E'|E'].
  { split; [apply clear_wf|]. rewrite (bits_nil y) by done. by destruct (bits x). }
  destruct (Z.ltb_spec (len x) (len y)).
  - apply (CommonMSBs_long y x); [done|done|lia].
  - rewrite lcp_comm. apply (CommonMSBs_long x y); [done|done|lia].
Qed.

(** ** Single bits *)

Lemma land_pow2 w i : 0 <= i < 64 -> (Z.land w (shl64 1 i) =? 0) = negb (Z.testbit w i).
Proof.
  intros Hi. assert (Hs : shl64 1 i = 2 ^ i).
  { unfold shl64. rewrite Z.shiftl_1_l, u64_small; [done|].
    split; [lia|]. apply Z.pow_lt_mono_r; lia. }
  rewrite Hs. destruct (Z.testbit w i) eqn:E; simpl.
  - apply Z.eqb_neq. intros E0. apply (f_equal (fun z => Z.testbit z i)) in E0.
    rewrite Z.land_spec, E, Z.pow2_bits_true, Z.bits_0 in E0 by lia. done.
  - apply Z.eqb_eq. apply Z.bits_inj'. intros j Hj. rewrite Z.land_spec, Z.bits_0.
    destruct (decide (i = j)) as [->|]; [by rewrite E|].
    rewrite Z.pow2_bits_false by done. apply andb_false_r.
Qed.

Lemma BitFromLSB_spec b n :
  wf b -> 0 <= n -> BitFromLSB b n = Z.b2z (Z.testbit (val b) n).
Proof.
  intros Hb Hn. pose proof (val_range _ Hb). destruct Hb as [Hl Hw Hv]. unfold BitFromLSB.
  destruct (Z.leb_spec (len b) n).
  { by rewrite (testbit_high (len b)) by lia. }
  rewrite land_pow2 by (apply Z.mod_pos_bound; lia). rewrite negb_involutive.
  rewrite testbit_block by (done || lia). unfold word_at.
  assert (n / 64 = 0 /\ n < 64 \/ n / 64 = 1 /\ 64 <= n < 128 \/ n / 64 = 2 /\ 128 <= n < 192 \/
          n / 64 = 3 /\ 192 <= n) as Hk by (Z.to_euclidean_division_equations; lia).
  assert (n mod 64 = n - 64 * (n / 64)) as -> by (Z.to_euclidean_division_equations; lia).
  destruct Hk as [[-> ?]|[[-> ?]|[[-> ?]|[-> ?]]]]; bool_cases;
    repeat match goal with |- context [n - ?a] => progress replace (n - a) with (n + - a) by lia end;
    cbn -[Z.testbit Z.add]; rewrite ?Z.add_0_r; by destruct (Z.testbit _ _).
Qed.

(** Position [n] from the most significant bit. *)
Lemma Bit_spec b n :
  wf b -> 0 <= n -> IsBitSet b n = nth (Z.to_nat n) (bits b) false.
Proof.
  intros Hb Hn. pose proof Hb as [Hl _ _]. unfold IsBitSet, Bit, Len.
  destruct (Z.leb_spec (len b) n).
  { rewrite nth_overflow; [done|]. change (@List.length) with (@length). rewrite length_bits. lia. }
  rewrite BitFromLSB_spec by (done || lia).
  assert (Hnth : forall m v k, (k < m)%nat -> nth k (bits_n m v) false = Z.testbit v (Z.of_nat (m - k - 1))).
  { induction m as [|m IH]; intros v k Hk; [lia|]. destruct k as [|k]; simpl.
    - f_equal. lia.
    - rewrite IH by lia. done. }
  unfold bits. rewrite Hnth by lia.
  replace (Z.of_nat (Z.to_nat (len b) - Z.to_nat n - 1)) with (len b - n - 1) by lia.
  by destruct (Z.testbit _ _).
Qed.
