(* ===== verification/BitArrayCodec.v ===== *)
(** * Conversions of bit arrays

    Comparison, encoding and decoding, and conversions from bytes and field
    elements of the bit arrays of [BitArray]. *)
From stdpp Require Import prelude list.
From Stdlib Require Import ZArith Lia.
From S2P Require Import Prelude Felt BitArray BitArrayFacts.

Local Open Scope Z_scope.

(** ** Sums of words *)

Lemma lor_shiftl_add a b n : 0 <= n -> 0 <= a < 2 ^ n -> Z.lor a (Z.shiftl b n) = a + b * 2 ^ n.
Proof.
  intros Hn Ha. rewrite <- Z.shiftl_mul_pow2 by lia. pose proof (Z.add_lor_land a (Z.shiftl b n)) as E.
  assert (Z.land a (Z.shiftl b n) = 0); [|lia]. apply Z.bits_inj'. intros i Hi.
  rewrite Z.land_spec, Z.shiftl_spec, Z.bits_0 by lia. destruct (Z.lt_ge_cases i n).
  - rewrite (Z.testbit_neg_r b) by lia. apply andb_false_r.
  - by rewrite (testbit_high n) by lia.
Qed.

Lemma val_sum b :
  words_ok b -> val b = w0 b + w1 b * 2 ^ 64 + w2 b * 2 ^ 128 + w3 b * 2 ^ 192.
Proof.
  intros [H0 H1 H2 H3]. unfold val.
  assert (E3 : Z.lor (Z.shiftl (w2 b) 128) (Z.shiftl (w3 b) 192) = Z.shiftl (w2 b + w3 b * 2 ^ 64) 128).
  { rewrite <- (lor_shiftl_add (w2 b) (w3 b) 64) by lia.
    rewrite Z.shiftl_lor, Z.shiftl_shiftl by lia. done. }
  assert (E2 : Z.lor (Z.shiftl (w1 b) 64) (Z.shiftl (w2 b + w3 b * 2 ^ 64) 128) =
               Z.shiftl (w1 b + (w2 b + w3 b * 2 ^ 64) * 2 ^ 64) 64).
  { rewrite <- (lor_shiftl_add (w1 b)) by lia. rewrite Z.shiftl_lor, Z.shiftl_shiftl by lia. done. }
  rewrite E3, E2, lor_shiftl_add by lia. ring.
Qed.

(** ** Comparison *)

Lemma Sub64_spec x y c d c' :
  is_u64 x -> is_u64 y -> 0 <= c <= 1 -> Sub64 x y c = (d, c') ->
  is_u64 d /\ 0 <= c' <= 1 /\ d = x - y - c + c' * 2 ^ 64.
Proof.
  intros Hx Hy Hc [= <- <-]. split; [apply u64_range|]. destruct (Z.ltb_spec x (y + c)).
  - split; [lia|]. unfold u64. rewrite <- (Z.mod_add _ 1) by lia. apply Z.mod_small. lia.
  - split; [lia|]. rewrite u64_small by lia. lia.
Qed.

Lemma Cmp_spec x y :
  wf x -> wf y -> len x = len y ->
  Cmp x y = if val x <? val y then -1 else if val x =? val y then 0 else 1.
Proof.
  intros [Lx Wx _] [Ly Wy _] El. rewrite !val_sum by done. destruct Wx as [X0 X1 X2 X3], Wy as [Y0 Y1 Y2 Y3].
  unfold Cmp. rewrite El, Z.ltb_irrefl.
  destruct (Sub64 (w0 x) (w0 y) 0) as [d0 c0] eqn:E0.
  destruct (Sub64 (w1 x) (w1 y) c0) as [d1 c1] eqn:E1.
  destruct (Sub64 (w2 x) (w2 y) c1) as [d2 c2] eqn:E2.
  destruct (Sub64 (w3 x) (w3 y) c2) as [d3 c3] eqn:E3.
  apply Sub64_spec in E0 as (R0 & C0 & D0); [|done|done|lia].
  apply Sub64_spec in E1 as (R1 & C1 & D1); [|done|done|lia].
  apply Sub64_spec in E2 as (R2 & C2 & D2); [|done|done|lia].
  apply Sub64_spec in E3 as (R3 & C3 & D3); [|done|done|lia].
  assert (Hz : Z.lor (Z.lor (Z.lor d0 d1) d2) d3 = 0 <-> d0 = 0 /\ d1 = 0 /\ d2 = 0 /\ d3 = 0).
  { rewrite !Z.lor_eq_0_iff. tauto. }
  bool_cases; done.
Qed.

(** The order by length and then by the bits. *)
Fixpoint bits_lt (l k : list bool) : bool :=
  match l, k with
  | a :: l', b :: k' => if Bool.eqb a b then bits_lt l' k' else negb a
  | _, _ => false
  end.

Lemma testbit_split v n : 0 <= v < 2 ^ Z.succ n -> 0 <= n ->
  v = (if Z.testbit v n then 2 ^ n else 0) + v mod 2 ^ n.
Proof.
  intros Hv Hn. rewrite Z.pow_succ_r in Hv by lia.
  rewrite (Z.div_mod v (2 ^ n)) at 1 by lia. f_equal.
  rewrite Z.testbit_odd, Z.shiftr_div_pow2 by lia.
  assert (v / 2 ^ n = 0 \/ v / 2 ^ n = 1) as [-> | ->]; [|simpl; lia|simpl; lia].
  pose proof (Z.div_pos v (2 ^ n)). pose proof (Z.div_lt_upper_bound v (2 ^ n) 2). lia.
Qed.

Lemma bits_lt_n n v w :
  0 <= v < 2 ^ Z.of_nat n -> 0 <= w < 2 ^ Z.of_nat n ->
  bits_lt (bits_n n v) (bits_n n w) = (v <? w).
Proof.
  revert v w. induction n as [|n IH]; intros v w Hv Hw; [simpl in *; bool_cases; done|].
  rewrite Nat2Z.inj_succ in Hv, Hw. simpl bits_lt.
  rewrite <- (bits_n_mod n v (Z.of_nat n)), <- (bits_n_mod n w (Z.of_nat n)) by lia.
  pose proof (testbit_split v _ Hv ltac:(lia)) as Ev. pose proof (testbit_split w _ Hw ltac:(lia)) as Ew.
  pose proof (Z.mod_pos_bound v (2 ^ Z.of_nat n)). pose proof (Z.mod_pos_bound w (2 ^ Z.of_nat n)).
  rewrite IH by lia.
  destruct (Z.testbit v (Z.of_nat n)), (Z.testbit w (Z.of_nat n)); simpl; bool_cases; done.
Qed.

(** ** Words and bytes *)

Lemma Uint64_range l i j : is_bytes l -> (j - i <= 8)%nat -> is_u64 (Uint64 (slice l i j)).
Proof.
  intros Hl Hij. unfold Uint64. assert (is_bytes (slice l i j)) as Hs by (by apply Forall_take, Forall_drop).
  pose proof (be_val_range _ Hs). assert (length (slice l i j) <= 8)%nat.
  { unfold slice. rewrite length_take. lia. }
  pose proof (Z.pow_le_mono_r 256 (Z.of_nat (length (slice l i j))) 8). lia.
Qed.

(** Powers of 256 as powers of two. *)
Ltac words_of_bytes :=
  repeat match goal with
  | |- context [256 ^ ?e] =>
      let n := eval vm_compute in (8 * e) in change (256 ^ e) with (2 ^ n)
  end; lia.

Lemma setBytes32_spec n l :
  is_bytes l -> length l = 32%nat ->
  words_ok (setBytes32 n l) /\ len (setBytes32 n l) = n /\ val (setBytes32 n l) = be_val l.
Proof.
  intros Hl Hlen. assert (Hw : words_ok (setBytes32 n l)).
  { split; simpl; apply Uint64_range; (done || lia). }
  split_and!; [done|done|]. rewrite val_sum by done. simpl. unfold Uint64.
  assert (E : l = slice l 0 8 ++ slice l 8 16 ++ slice l 16 24 ++ slice l 24 32).
  { do 33 (destruct l as [|? l]; try done). }
  assert (Hs : forall i j, (j = i + 8)%nat -> (j <= 32)%nat -> length (slice l i j) = 8%nat).
  { intros i j -> Hi. unfold slice. rewrite length_take, length_drop. lia. }
  rewrite E at 5. rewrite !be_val_app, !length_app.
  rewrite !Hs by lia. words_of_bytes.
Qed.

Lemma writeBytesTo_spec b : words_ok b -> writeBytesTo b = be_bytes 32 (val b).
Proof.
  intros Hw. apply be_val_inj.
  - unfold writeBytesTo. rewrite !Forall_app. auto using be_bytes_range.
  - apply be_bytes_range.
  - unfold writeBytesTo. rewrite !length_app, !length_be_bytes. done.
  - pose proof (val_bound b Hw) as Hv. rewrite be_val_bytes.
    change (256 ^ Z.of_nat 32) with (2 ^ 256). rewrite (Z.mod_small (val b)) by done.
    rewrite val_sum by done. destruct Hw as [H0 H1 H2 H3].
    unfold writeBytesTo. rewrite !be_val_app, !length_app, !length_be_bytes, !be_val_bytes.
    change (256 ^ Z.of_nat 8) with (2 ^ 64). rewrite !Z.mod_small by lia. words_of_bytes.
Qed.

(** ** Encoding *)

Lemma activeBytes_spec b :
  wf b -> 0 <= activeBytes b <= 32 /\ len b <= 8 * activeBytes b < len b + 8.
Proof.
  intros [Hl _ _]. unfold activeBytes. Z.to_euclidean_division_equations; lia.
Qed.

Lemma EncodedBytes_spec b :
  wf b -> EncodedBytes b = be_bytes (Z.to_nat (activeBytes b)) (val b) ++ [len b].
Proof.
  intros Hb. destruct (activeBytes_spec b Hb) as [Ha _].
  unfold EncodedBytes, inactiveBytes. rewrite writeBytesTo_spec by apply Hb.
  rewrite drop_app_le by (rewrite length_be_bytes; lia). f_equal.
  rewrite <- (drop_be_bytes (Z.to_nat (activeBytes b)) (Z.to_nat (32 - activeBytes b))).
  do 2 f_equal. lia.
Qed.

Lemma be_val_zeros n l : be_val (replicate n 0 ++ l) = be_val l.
Proof. induction n as [|n IH]; simpl; [done|]. rewrite be_val_cons. by rewrite IH. Qed.

(** What decoding returns. *)
Lemma UnmarshalBinary_spec data n :
  is_bytes data -> 0 <= n < 256 ->
  UnmarshalBinary (data ++ [n]) =
    if Z.of_nat (length data) <=? (n + 7) / 8
    then Ok (setBytes32 n (replicate (32 - length data) 0 ++ data))
    else Err (InvalidDataLength (Z.of_nat (length data) + 1) ((n + 7) / 8 + 1)).
Proof.
  intros Hd Hn. unfold UnmarshalBinary. rewrite last_snoc, length_app. simpl length.
  replace (length data + 1 - 1)%nat with (length data) by lia.
  rewrite take_app_length. bool_cases; [|done]. do 2 f_equal. lia.
Qed.

(** The array decoded from bytes has their value. *)
Lemma decoded_val n data :
  is_bytes data -> 0 <= n < 256 -> (length data <= 32)%nat ->
  let b := setBytes32 n (replicate (32 - length data) 0 ++ data) in
  words_ok b /\ len b = n /\ val b = be_val data.
Proof.
  intros Hd Hn Hl. destruct (setBytes32_spec n (replicate (32 - length data) 0 ++ data)) as (? & ? & E).
  - apply Forall_app. split; [|done]. by apply Forall_replicate.
  - rewrite length_app, length_replicate. lia.
  - split_and!; [done|done|]. by rewrite E, be_val_zeros.
Qed.

Lemma decode_encode b : wf b -> UnmarshalBinary (EncodedBytes b) = Ok b.
Proof.
  intros Hb. destruct (activeBytes_spec b Hb) as [Ha Hl]. pose proof (val_range b Hb) as Hv.
  pose proof Hb as [Hlen Hw _].
  assert (Ea : (len b + 7) / 8 = activeBytes b) by done.
  set (k := Z.to_nat (activeBytes b)). assert (Hk : Z.of_nat k = activeBytes b) by lia.
  rewrite EncodedBytes_spec, UnmarshalBinary_spec by (auto using be_bytes_range).
  fold k. rewrite length_be_bytes, Ea, Hk, Z.leb_refl.
  destruct (decoded_val (len b) (be_bytes k (val b))) as (Hw' & Hl' & Hv');
    [apply be_bytes_range|done|rewrite length_be_bytes; lia|].
  rewrite length_be_bytes in *. f_equal. apply val_inj; [done|done|done|].
  rewrite Hv', be_val_bytes. apply Z.mod_small. rewrite pow256, Hk. split; [lia|].
  eapply Z.lt_le_trans; [apply Hv|]. apply Z.pow_le_mono_r; lia.
Qed.

(** ** Bytes into words *)

Lemma lor_shl64_add a b n :
  0 <= n <= 56 -> 0 <= a < 2 ^ n -> 0 <= b < 256 -> Z.lor a (shl64 b n) = a + b * 2 ^ n.
Proof.
  intros Hn Ha Hb. unfold shl64. rewrite u64_small.
  - apply lor_shiftl_add; lia.
  - rewrite Z.shiftl_mul_pow2 by lia. pose proof (Z.pow_le_mono_r 2 n 56). nia.
Qed.

(** Destruct a list of known length. *)
Ltac list_of_length Hl :=
  repeat match type of Hl with
  | length ?l = S _ => destruct l as [|? l]; [discriminate Hl|]; simpl in Hl; injection Hl as Hl
  | length ?l = O => destruct l; [clear Hl|discriminate Hl]
  end.

Ltac be_words :=
  unfold byte; cbn [lookup_total list_lookup_total];
  repeat match goal with
  | |- context [Z.lor ?a (shl64 ?b ?n)] =>
      lazymatch a with
      | context [Z.lor] => fail
      | _ => rewrite (lor_shl64_add a b n) by lia
      end
  end; unfold be_val; cbn [foldl]; lia.

Lemma bigEndianUint40_val l : is_bytes l -> length l = 5%nat -> bigEndianUint40 l = be_val l.
Proof.
  intros Hb Hl. list_of_length Hl. repeat (apply Forall_cons in Hb as [? Hb]).
  unfold bigEndianUint40. be_words.
Qed.

Lemma bigEndianUint48_val l : is_bytes l -> length l = 6%nat -> bigEndianUint48 l = be_val l.
Proof.
  intros Hb Hl. list_of_length Hl. repeat (apply Forall_cons in Hb as [? Hb]).
  unfold bigEndianUint48. be_words.
Qed.

Lemma bigEndianUint56_val l : is_bytes l -> length l = 7%nat -> bigEndianUint56 l = be_val l.
Proof.
  intros Hb Hl. list_of_length Hl. repeat (apply Forall_cons in Hb as [? Hb]).
  unfold bigEndianUint56. be_words.
Qed.

Lemma bigEndianUint24_val l :
  is_bytes l -> (3 <= length l)%nat ->
  Z.lor (Uint16 (slice l 1 3)) (shl64 (byte l 0) 16) = be_val (slice l 0 3).
Proof.
  intros Hb Hl. destruct l as [|a [|b [|c l]]]; simpl in Hl; try lia.
  repeat (apply Forall_cons in Hb as [? Hb]). unfold Uint16, slice, byte. simpl take. simpl drop.
  cbn [lookup_total list_lookup_total]. rewrite lor_shl64_add; [|lia| |done].
  - unfold be_val. rewrite ?take_0. cbn [foldl]. lia.
  - unfold be_val. rewrite ?take_0. cbn [foldl]. lia.
Qed.

Lemma byte_val l : (1 <= length l)%nat -> byte l 0 = be_val (slice l 0 1).
Proof. intros Hl. destruct l as [|a l]; [simpl in Hl; lia|]. done. Qed.

Lemma slice_app (l : list Z) i j k :
  (i <= j)%nat -> (j <= k)%nat -> slice l i j ++ slice l j k = slice l i k.
Proof.
  intros Hij Hjk. unfold slice. replace (k - i)%nat with ((j - i) + (k - j))%nat by lia.
  rewrite <- take_take_drop, drop_drop. do 3 f_equal. lia.
Qed.

Lemma slice_all (l : list Z) n : length l = n -> slice l 0 n = l.
Proof. intros <-. unfold slice. rewrite Nat.sub_0_r, drop_0, firstn_all. done. Qed.

Lemma slice_nil (l : list Z) i : slice l i i = [].
Proof. unfold slice. by rewrite Nat.sub_diag, take_0. Qed.

(** The words of at most 32 bytes, from the last eight on. *)
Definition words_of (n : Z) (l : list Z) : BitArray :=
  let k := length l in
  mkBits n (be_val (slice l (k - 8) k)) (be_val (slice l (k - 16) (k - 8)))
    (be_val (slice l (k - 24) (k - 16))) (be_val (slice l (k - 32) (k - 24))).

Lemma words_of_spec n l :
  is_bytes l -> (length l <= 32)%nat -> words_ok (words_of n l) /\ val (words_of n l) = be_val l.
Proof.
  intros Hb Hl. assert (Hw : words_ok (words_of n l)).
  { split; simpl; apply Uint64_range; (done || lia). }
  split; [done|]. rewrite val_sum by done. simpl.
  set (k := length l) in *.
  assert (Hs : forall i j, (i <= j)%nat -> (j <= k)%nat -> length (slice l i j) = (j - i)%nat).
  { intros i j Hij Hj. unfold slice. rewrite length_take, length_drop. lia. }
  assert (E : l = slice l (k - 32) (k - 24) ++ slice l (k - 24) (k - 16) ++
                  slice l (k - 16) (k - 8) ++ slice l (k - 8) k).
  { rewrite !slice_app by lia. replace (k - 32)%nat with 0%nat by lia. by rewrite slice_all. }
  rewrite E at 5. rewrite !be_val_app, !length_app, !Hs by lia.
  assert (Hz : forall i j, (j <= i)%nat -> be_val (slice l i j) = 0).
  { intros i j Hij. unfold slice. by replace (j - i)%nat with 0%nat by lia. }
  destruct (decide (k <= 8)%nat).
  { rewrite (Hz (k - 16)%nat), (Hz (k - 24)%nat), (Hz (k - 32)%nat) by lia. lia. }
  replace (k - (k - 8))%nat with 8%nat by lia. destruct (decide (k <= 16)%nat).
  { rewrite (Hz (k - 24)%nat), (Hz (k - 32)%nat) by lia. words_of_bytes. }
  replace (k - 8 - (k - 16))%nat with 8%nat by lia. destruct (decide (k <= 24)%nat).
  { rewrite (Hz (k - 32)%nat) by lia. words_of_bytes. }
  replace (k - 16 - (k - 24))%nat with 8%nat by lia. words_of_bytes.
Qed.

Lemma slice_bytes l i j : is_bytes l -> is_bytes (slice l i j).
Proof. intros. by apply Forall_take, Forall_drop. Qed.

Lemma length_slice (l : list Z) i j : (j <= length l)%nat -> length (slice l i j) = (j - i)%nat.
Proof. intros Hj. unfold slice. rewrite length_take, length_drop. lia. Qed.

Lemma SetBytes_words_small n l :
  is_bytes l -> (length l < 32)%nat -> SetBytes_words n l = words_of n l.
Proof.
  intros Hb Hl. unfold SetBytes_words, words_of. remember (length l) as k eqn:Ek.
  do 32 (destruct k as [|k]; [cbn [Nat.sub]; rewrite ?slice_nil;
    rewrite ?bigEndianUint40_val, ?bigEndianUint48_val, ?bigEndianUint56_val, ?bigEndianUint24_val, ?byte_val
      by (rewrite ?length_slice by lia; auto using slice_bytes; lia); done|]). lia.
Qed.

Lemma SetBytes_spec n l :
  is_bytes l -> is_u8 n ->
  wf (SetBytes n l) /\ len (SetBytes n l) = n /\ val (SetBytes n l) = be_val (take 32 l) mod 2 ^ n.
Proof.
  intros Hb Hn. unfold SetBytes.
  assert (Hx : words_ok (SetBytes_words n l) /\ len (SetBytes_words n l) = n /\
               val (SetBytes_words n l) = be_val (take 32 l)).
  { destruct (decide (length l < 32)%nat) as [Hl|Hl].
    - rewrite SetBytes_words_small by done. destruct (words_of_spec n l) as [? ?]; [done|lia|].
      rewrite take_ge by lia. done.
    - assert (E : SetBytes_words n l = setBytes32 n (take 32 l)).
      { rewrite <- (take_drop 32 l) at 1. unfold SetBytes_words.
        assert (H32 : length (take 32 l) = 32%nat) by (rewrite length_take; lia).
        revert H32. generalize (take 32 l) (drop 32 l). intros a b H32.
        rewrite length_app, H32. simpl Nat.add. cbn iota.
        list_of_length H32. done. }
      rewrite E. apply setBytes32_spec; [by apply Forall_take|rewrite length_take; lia]. }
  destruct Hx as (Hw & Hlen & Hv).
  split_and!; [apply truncate_wf; [done|lia]|by rewrite len_truncate|].
  rewrite val_truncate, Hlen, Hv by (done || lia). done.
Qed.

(** ** Field elements *)

Section felt.
Context {F : Type} `{!FieldElement F} `{!FieldElementLaws F}.
Implicit Types (f : F).

Lemma SetFelt_spec n f :
  is_u8 n ->
  wf (SetFelt n f) /\ len (SetFelt n f) = n /\ val (SetFelt n f) = felt_val f mod 2 ^ n.
Proof.
  intros Hn. unfold SetFelt.
  destruct (setBytes32_spec n (felt_Bytes f) (felt_bytes_range f) (felt_bytes_length f)) as (Hw & Hl & Hv).
  change (setFelt n f) with (setBytes32 n (felt_Bytes f)).
  split_and!; [apply truncate_wf; [done|by rewrite Hl]|by rewrite len_truncate|].
  rewrite val_truncate, Hl, Hv by (done || by rewrite Hl). done.
Qed.

Lemma to_felt_val b : words_ok b -> felt_val (to_felt b : F) = val b mod stark_prime.
Proof.
  intros Hw. unfold to_felt, Bytes. rewrite writeBytesTo_spec by done.
  rewrite felt_SetBytes_val by apply be_bytes_range. rewrite be_val_bytes.
  change (256 ^ Z.of_nat 32) with (2 ^ 256). by rewrite (Z.mod_small (val b)) by (by apply val_bound).
Qed.

End felt.
