(* ===== verification/TrieNode.v ===== *)
(** * Nodes of the trie

    [src/core/trie2/trienode]: nodes with their flags, their hashes, their
    encoding, and the sets of nodes a commit hands to the database.

    A [Node] of the Go code is an interface that may be nil ([NNil]).  Paths are
    bit arrays; a path held by a node is never written to after it is stored,
    so it is a value here. *)
From stdpp Require Import prelude gmap list.
From Stdlib Require Import ZArith Lia.
From S2P Require Import Prelude Felt BitArray.

Local Open Scope Z_scope.

#[export] Instance BitArray_countable : Countable BitArray.
Proof.
  apply (inj_countable' (fun b => (len b, w0 b, w1 b, w2 b, w3 b))
    (fun '(l, a, b, c, d) => mkBits l a b c d)). by intros [].
Defined.

Section definitions.
Context {F : Type} `{!FieldElement F}.

(** ** [node.go] *)

Record nodeFlag := mkFlag {
  fHash : option F; (* the cached hash *)
  Dirty : bool;
}.

Definition NewNodeFlag : nodeFlag := mkFlag None true.

Inductive node : Type :=
| NNil
| NBinary (l r : node) (fl : nodeFlag)
| NEdge (child : node) (path : BitArray) (fl : nodeFlag)
| NHash (h : F)
| NValue (v : F).

(** [NilValueNode] *)
Definition NilValueNode : node := NValue felt_Zero.

(** [Cache]: the cached hash and the dirty flag; a call on a nil interface
    panics. *)
Definition Cache (n : node) : outcome Empty_set (option F * bool) :=
  match n with
  | NNil => Panic
  | NBinary _ _ fl | NEdge _ _ fl => Ok (fHash fl, Dirty fl)
  | NHash _ | NValue _ => Ok (None, true)
  end.

(** [Hash]: the hash function [hf] is a parameter of the trie. *)
Fixpoint Hash (hf : F -> F -> F) (n : node) : outcome Empty_set F :=
  match n with
  | NNil => Panic
  | NBinary l r _ =>
      leftHash ← Hash hf l; rightHash ← Hash hf r; mret (hf leftHash rightHash)
  | NEdge child path _ =>
      let lengthFelt := felt_SetBytes (be_bytes 32 (Len path)) in
      let pathFelt := to_felt path in
      childHash ← Hash hf child;
      mret (felt_Add (hf childHash pathFelt) lengthFelt)
  | NHash h => Ok h
  | NValue v => Ok v
  end.

Definition PathMatches (path key : BitArray) : bool := EqualMSBs path key.

Definition CommonPath (path key : BitArray) : BitArray := CommonMSBs path key.

(** ** [node_enc.go] *)

Definition hashOrValueNodeSize : Z := 32.
Definition edgeNodeMaxSize : Z := 33 + hashOrValueNodeSize.
Definition binaryNodeType : Z := 1.
Definition edgeNodeType : Z := 2.

(** The methods [Write] of the nodes append to a buffer. *)
Fixpoint Write (n : node) : outcome Empty_set (list Z) :=
  match n with
  | NNil => Panic
  | NBinary l r _ =>
      a ← Write l; b ← Write r; mret ([binaryNodeType] ++ a ++ b)
  | NEdge child path _ =>
      a ← Write child; mret (BitArray.Write ([edgeNodeType] ++ a) path)
  | NHash h => Ok (felt_Bytes h)
  | NValue v => Ok (felt_Bytes v)
  end.

Definition EncodeNode (n : node) : outcome Empty_set (list Z) := Write n.

Inductive nodeError : Type :=
| EmptyBlob
| PathTooLong (pathLen maxPathLen : Z)
| InvalidBinarySize (size : Z)
| InvalidEdgeSize (size : Z)
| InvalidPath (e : decodeError).

Definition decodeHashNode (blob : list Z) : option node :=
  if Z.of_nat (length blob) =? hashOrValueNodeSize
  then Some (NHash (felt_SetBytes blob)) else None.

Definition decodeValueNode (blob : list Z) : option node :=
  if Z.of_nat (length blob) =? hashOrValueNodeSize
  then Some (NValue (felt_SetBytes blob)) else None.

(** The flag of a decoded node: the hash it was asked for, unless it is nil or
    zero. *)
Definition decodedFlag (hash : option F) : nodeFlag :=
  mkFlag (match hash with
          | Some h => if felt_IsZero h then None else Some h
          | None => None
          end) false.

(** The decoders of inner nodes take the decoder of their children. *)
Definition decodeBinaryNode (decode : list Z -> option F -> Z -> outcome nodeError node)
    (blob : list Z) (hash : option F) (pathLen : Z) : outcome nodeError node :=
  if Z.of_nat (length blob) <? 2 * hashOrValueNodeSize
  then Err (InvalidBinarySize (Z.of_nat (length blob)))
  else
    l ← decode (take 32 blob) hash (u8 (pathLen + 1));
    r ← decode (drop 32 blob) hash (u8 (pathLen + 1));
    mret (NBinary l r (decodedFlag hash)).

Definition decodeEdgeNode (decode : list Z -> option F -> Z -> outcome nodeError node)
    (blob : list Z) (hash : option F) (pathLen maxPathLen : Z) : outcome nodeError node :=
  let size := Z.of_nat (length blob) in
  if (edgeNodeMaxSize <? size) || (size <? hashOrValueNodeSize)
  then Err (InvalidEdgeSize size)
  else
    child ← decode (take 32 blob) None pathLen;
    match UnmarshalBinary (drop 32 blob) with
    | Ok path =>
        if u8 (pathLen + Len path) =? maxPathLen then
          match child with
          | NHash h => Ok (NEdge (NValue h) path (decodedFlag hash))
          | _ => Panic
          end
        else Ok (NEdge child path (decodedFlag hash))
    | Err e => Err (InvalidPath e)
    | Panic => Panic
    | NoFuel => NoFuel
    end.

Fixpoint DecodeNode_fuel (fuel : nat) (maxPathLen : Z) (blob : list Z) (hash : option F)
    (pathLen : Z) : outcome nodeError node :=
  match fuel with
  | O => NoFuel
  | S k =>
      match blob with
      | [] => Err EmptyBlob
      | nodeType :: rest =>
          if maxPathLen <? pathLen then Err (PathTooLong pathLen maxPathLen)
          else
            match (if pathLen =? maxPathLen then decodeValueNode blob
                   else decodeHashNode blob) with
            | Some n => Ok n
            | None =>
                if nodeType =? binaryNodeType then
                  decodeBinaryNode (DecodeNode_fuel k maxPathLen) rest hash pathLen
                else if nodeType =? edgeNodeType then
                  decodeEdgeNode (DecodeNode_fuel k maxPathLen) rest hash pathLen maxPathLen
                else Panic
            end
      end
  end.

(** Every nested call decodes a shorter blob. *)
Definition DecodeNode (blob : list Z) (hash : option F) (pathLen maxPathLen : Z)
  : outcome nodeError node :=
  DecodeNode_fuel (S (length blob)) maxPathLen blob hash pathLen.

Definition DecodeTriesRoots (val : list Z) : option (F * F) :=
  if Z.of_nat (length val) =? 2 * hashOrValueNodeSize
  then Some (felt_SetBytes (take 32 val), felt_SetBytes (drop 32 val))
  else None.

(** ** [rawnode.go] *)

Inductive TrieNode : Type :=
| NonLeafNode (blob : list Z) (hash : F)
| LeafNode (blob : list Z) (hash : F)
| DeletedNode (isLeaf : bool).

Definition NewNonLeaf (hash : F) (blob : list Z) : TrieNode := NonLeafNode blob hash.
Definition NewLeaf (hash : F) (blob : list Z) : TrieNode := LeafNode blob hash.
Definition NewDeleted (isLeaf : bool) : TrieNode := DeletedNode isLeaf.

Definition Blob (n : TrieNode) : list Z :=
  match n with NonLeafNode b _ | LeafNode b _ => b | DeletedNode _ => [] end.
Definition raw_Hash (n : TrieNode) : F :=
  match n with NonLeafNode _ h | LeafNode _ h => h | DeletedNode _ => felt_Zero end.
Definition IsLeaf (n : TrieNode) : bool :=
  match n with NonLeafNode _ _ => false | LeafNode _ _ => true | DeletedNode b => b end.

(** ** [nodeset.go] *)

Record NodeSet := mkNodeSet {
  Owner : F;
  Nodes : gmap BitArray TrieNode;
  updates : Z;
  deletes : Z;
}.

Definition NewNodeSet (owner : F) : NodeSet := mkNodeSet owner ∅ 0 0.

Definition is_deleted (n : TrieNode) : bool :=
  match n with DeletedNode _ => true | _ => false end.

Definition Add (ns : NodeSet) (key : BitArray) (n : TrieNode) : NodeSet :=
  mkNodeSet (Owner ns) (<[key := n]> (Nodes ns))
    (if is_deleted n then updates ns else i64 (updates ns + 1))
    (if is_deleted n then i64 (deletes ns + 1) else deletes ns).

(** The nodes in the order of [ForEach], the longest path first for [desc]. *)
Definition ordered_nodes (desc : bool) (ns : NodeSet) : list (BitArray * TrieNode) :=
  sort_slice (fun x y => if desc then 0 <? Cmp x.1 y.1 else Cmp x.1 y.1 <? 0) (map_to_list (Nodes ns)).

(** The callback is called until it returns an error. *)
Definition ForEach {S E} (desc : bool) (ns : NodeSet) (callback : BitArray -> TrieNode -> SE S E unit)
  : SE S E unit :=
  foldr (fun x k => callback x.1 x.2;; k) (mret tt) (ordered_nodes desc ns).

(** [maps.Copy] overwrites the nodes of the receiver. *)
Definition MergeSet (ns other : NodeSet) : option NodeSet :=
  if bool_decide (Owner ns = Owner other) then
    Some (mkNodeSet (Owner ns) (Nodes other ∪ Nodes ns)
            (i64 (updates ns + updates other)) (i64 (deletes ns + deletes other)))
  else None.

(** One iteration of the loop of [Merge]. *)
Definition merge_one (ns : NodeSet) (path : BitArray) (n : TrieNode) : NodeSet :=
  let '(u, d) :=
    match Nodes ns !! path with
    | Some prev => if is_deleted prev then (updates ns, i64 (deletes ns - 1))
                   else (i64 (updates ns - 1), deletes ns)
    | None => (updates ns, deletes ns)
    end in
  mkNodeSet (Owner ns) (<[path := n]> (Nodes ns))
    (if is_deleted n then u else i64 (u + 1)) (if is_deleted n then i64 (d + 1) else d).

(** A Go map is iterated in any order; [other] lists its entries in the order
    of the iteration. *)
Definition Merge (ns : NodeSet) (owner : F) (other : list (BitArray * TrieNode))
  : option NodeSet :=
  if bool_decide (Owner ns = owner)
  then Some (foldl (fun ns '(p, n) => merge_one ns p n) ns other)
  else None.

Record MergeNodeSet := mkMergeNodeSet {
  OwnerSet : NodeSet;
  ChildSets : gmap F NodeSet;
}.

Definition NewMergeNodeSet (nodes : option NodeSet) : MergeNodeSet :=
  let ns := mkMergeNodeSet (mkNodeSet felt_Zero ∅ 0 0) ∅ in
  match nodes with
  | None => ns
  | Some s =>
      if felt_IsZero (Owner s) then mkMergeNodeSet s ∅
      else mkMergeNodeSet (OwnerSet ns) {[Owner s := s]}
  end.

(** [order] is the order in which the nodes of [other] are visited. *)
Definition MergeNodeSet_Merge (m : MergeNodeSet) (other : NodeSet)
    (order : list (BitArray * TrieNode)) : option MergeNodeSet :=
  if felt_IsZero (Owner other) then
    s ← Merge (OwnerSet m) (Owner other) order;
    Some (mkMergeNodeSet s (ChildSets m))
  else
    match ChildSets m !! Owner other with
    | Some subset =>
        s ← Merge subset (Owner other) order;
        Some (mkMergeNodeSet (OwnerSet m) (<[Owner other := s]> (ChildSets m)))
    | None => Some (mkMergeNodeSet (OwnerSet m) (<[Owner other := other]> (ChildSets m)))
    end.

Definition Flatten (m : MergeNodeSet)
  : gmap BitArray TrieNode * gmap F (gmap BitArray TrieNode) :=
  (Nodes (OwnerSet m), Nodes <$> ChildSets m).

End definitions.

Arguments node F : clear implicits.
Arguments nodeFlag F : clear implicits.
Arguments TrieNode F : clear implicits.
