(* ===== verification/Trie.v ===== *)
(** * The trie

    [src/core/trie2]: the binary Merkle-Patricia trie with path compression.
    [hasher.go], [tracer.go], [collector.go], [node_reader.go] and [trie.go].

    The hash function and the node reader are fields of the Go [Trie] that never
    change: they are parameters here.  The methods that modify the trie are
    computations over the record [Trie].  The parallel branches of the hasher
    and of the collector write to disjoint variables (the node sets of two
    children are merged under a lock) and are modelled by the sequential ones.
    The loops descend the trie and take fuel: see [get], [insert] and [delete]. *)
From stdpp Require Import prelude gmap list.
From Stdlib Require Import ZArith Lia.
From S2P Require Import Prelude Felt BitArray TrieNode.

Local Open Scope Z_scope.

Section definitions.
Context {F : Type} `{!FieldElement F}.
Variable hashFn : F -> F -> F.

Abbreviation Path := BitArray.
Abbreviation tnode := (node F).
Abbreviation nset := (NodeSet (F:=F)).

(** An outcome without errors in a computation. *)
Definition lift_pure {S E A} (o : outcome Empty_set A) : SE S E A :=
  match o with
  | Ok a => mret a
  | Err e => match e with end
  | Panic => panic
  | NoFuel => out_of_fuel
  end.

(** ** [hasher.go] *)

Definition is_inner (n : tnode) : bool :=
  match n with NEdge _ _ _ | NBinary _ _ _ => true | _ => false end.

(** The collapsed child (its hash) and the cached one. *)
Definition hashEdgeChild (hash : tnode -> outcome Empty_set (tnode * tnode)) (child : tnode)
  : outcome Empty_set (tnode * tnode) :=
  if is_inner child then hash child else mret (child, child).

Definition hashChild (hash : tnode -> outcome Empty_set (tnode * tnode)) (child : tnode)
  : outcome Empty_set (tnode * tnode) :=
  match child with
  | NNil => mret (NilValueNode, NilValueNode)
  | _ => hash child
  end.

Definition hashBinaryChildren (hash : tnode -> outcome Empty_set (tnode * tnode)) (l r : tnode)
  : outcome Empty_set ((tnode * tnode) * (tnode * tnode)) :=
  '(cl, kl) ← hashChild hash l;
  '(cr, kr) ← hashChild hash r;
  mret ((cl, cr), (kl, kr)).

(** [hash]: the hash node and the node with its hash cached. *)
Fixpoint hash (n : tnode) : outcome Empty_set (tnode * tnode) :=
  match n with
  | NNil => Panic
  | NEdge child path fl =>
      match fHash fl with
      | Some h => Ok (NHash h, n)
      | None =>
          '(collapsed, cached) ← hashEdgeChild hash child;
          h ← Hash hashFn (NEdge collapsed path fl);
          Ok (NHash h, NEdge cached path (mkFlag (Some h) (Dirty fl)))
      end
  | NBinary l r fl =>
      match fHash fl with
      | Some h => Ok (NHash h, n)
      | None =>
          '(collapsed, cached) ← hashBinaryChildren hash l r;
          h ← Hash hashFn (NBinary collapsed.1 collapsed.2 fl);
          Ok (NHash h, NBinary cached.1 cached.2 (mkFlag (Some h) (Dirty fl)))
      end
  | NValue _ | NHash _ => Ok (n, n)
  end.

(** [proofHash]: the node with hashed children and its hash. *)
Definition proofHash (original : tnode) : outcome Empty_set (tnode * tnode) :=
  match original with
  | NEdge child path fl =>
      '(collapsed, _) ← hashEdgeChild hash child;
      let en := NEdge collapsed path fl in
      h ← Hash hashFn en; mret (en, NHash h)
  | NBinary l r fl =>
      '(collapsed, _) ← hashBinaryChildren hash l r;
      let bn := NBinary collapsed.1 collapsed.2 fl in
      h ← Hash hashFn bn; mret (bn, NHash h)
  | n => mret (n, n)
  end.

(** ** [tracer.go] *)

Record nodeTracer := mkTracer {
  inserts : gset Path;
  deletes_ : gset Path;
}.

Definition newTracer : nodeTracer := mkTracer ∅ ∅.

Definition onInsert (t : nodeTracer) (key : Path) : nodeTracer :=
  if bool_decide (key ∈ deletes_ t) then mkTracer (inserts t) (deletes_ t ∖ {[key]})
  else mkTracer ({[key]} ∪ inserts t) (deletes_ t).

Definition onDelete (t : nodeTracer) (key : Path) : nodeTracer :=
  if bool_decide (key ∈ inserts t) then mkTracer (inserts t ∖ {[key]}) (deletes_ t)
  else mkTracer (inserts t) ({[key]} ∪ deletes_ t).

Definition tracer_copy (t : nodeTracer) : nodeTracer := mkTracer (inserts t) (deletes_ t).

(** The order of a Go map iteration is any order; the elements are. *)
Definition deletedNodes (t : nodeTracer) : list Path := elements (deletes_ t).

(** ** [node_reader.go] and [errors.go] *)

Inductive readError : Type :=
| ErrKeyNotFound
| ErrRead
| MissingNodeError (owner : F) (path : Path) (hash : F).

Inductive trieError : Type :=
| ErrCommitted
| ErrReader (e : readError)
| ErrDecode (e : nodeError).

(** The reader of the database, when there is one: owner, path, hash, leaf. *)
Definition dbReader := F -> Path -> F -> bool -> outcome readError (list Z).

Definition reader_node (reader : option dbReader) (owner : F) (path : Path) (h : F)
    (isLeaf : bool) : outcome readError (list Z) :=
  match reader with
  | None => Err (MissingNodeError owner path h)
  | Some r => r owner path h isLeaf
  end.

(** ** [trie.go] *)

Record Trie := mkTrie {
  height : Z;
  owner : F;
  root : tnode;
  committed : bool;
  tracer : nodeTracer;
  pendingHashes : Z;
  pendingUpdates : Z;
}.

Abbreviation TM := (SE Trie trieError).

Variable reader : option dbReader.

Definition set_root (t : Trie) (n : tnode) : Trie :=
  mkTrie (height t) (owner t) n (committed t) (tracer t) (pendingHashes t) (pendingUpdates t).

Definition set_tracer (t : Trie) (tr : nodeTracer) : Trie :=
  mkTrie (height t) (owner t) (root t) (committed t) tr (pendingHashes t) (pendingUpdates t).

Definition set_pending (t : Trie) (h u : Z) : Trie :=
  mkTrie (height t) (owner t) (root t) (committed t) (tracer t) h u.

Definition set_committed (t : Trie) : Trie :=
  mkTrie (height t) (owner t) (root t) true (tracer t) (pendingHashes t) (pendingUpdates t).

Definition trace_insert (p : Path) : TM unit := modify (fun t => set_tracer t (onInsert (tracer t) p)).
Definition trace_delete (p : Path) : TM unit := modify (fun t => set_tracer t (onDelete (tracer t) p)).

(** [FeltToPath] of [trieutils/helpers.go]. *)
Definition FeltToPath (f : F) (h : Z) : Path := SetFelt h f.

(** [resolveNode]: [hn] is nil for the root of a new trie. *)
Definition resolve (h o : _) (hn : option F) (path : Path) : outcome trieError tnode :=
  let hash := default felt_Zero hn in
  match reader_node reader o path hash (Len path =? h) with
  | Ok blob =>
      match DecodeNode blob (Some hash) (Len path) h with
      | Ok n => Ok n
      | Err e => Err (ErrDecode e)
      | Panic => Panic
      | NoFuel => NoFuel
      end
  | Err e => Err (ErrReader e)
  | Panic => Panic
  | NoFuel => NoFuel
  end.

Definition resolveNode (hn : option F) (path : Path) : TM tnode :=
  t ← get_state; lift (resolve (height t) (owner t) hn path).

(** The child of a binary node a bit selects. *)
Definition child_at (l r : tnode) (bit : Z) : tnode := if bit =? 0 then l else r.
Definition set_child (l r : tnode) (bit : Z) (c : tnode) (fl : nodeFlag F) : tnode :=
  if bit =? 0 then NBinary c r fl else NBinary l c fl.

(** [get]: the value (if any), the node with what was resolved, and whether
    something was resolved.  Each unit of fuel is one call. *)
Fixpoint get (fuel : nat) (n : tnode) (prefix key : Path) : TM (option F * tnode * bool) :=
  match fuel with
  | O => out_of_fuel
  | S k =>
  match n with
  | NEdge child path fl =>
      if negb (PathMatches path key) then mret (None, n, false)
      else
        '(val, child', didResolve) ← get k child (Append prefix path) (LSBs key (Len path));
        mret (val, if (didResolve : bool) then NEdge child' path fl else n, didResolve)
  | NBinary l r fl =>
      let bit := MSB key in
      '(val, child', didResolve) ← get k (child_at l r bit) (AppendBit prefix bit) (LSBs key 1);
      mret (val, if (didResolve : bool) then set_child l r bit child' fl else n, didResolve)
  | NHash h =>
      child ← resolveNode (Some h) prefix;
      '(val, newNode, _) ← get k child prefix key;
      mret (val, newNode, true)
  | NValue v => mret (Some v, n, false)
  | NNil => mret (None, NNil, false)
  end end.

(** [insert]: the new node and whether the trie was modified.  [value] is a
    value node, or the child of an edge that is split. *)
Fixpoint insert (fuel : nat) (n : tnode) (prefix key : Path) (value : tnode) : TM (tnode * bool) :=
  match fuel with
  | O => out_of_fuel
  | S k =>
  if Len key =? 0 then
    match n with
    | NValue v =>
        match value with
        | NValue v' => mret (value, negb (bool_decide (v = v')))
        | _ => panic
        end
    | _ => mret (value, true)
    end
  else
  match n with
  | NNil =>
      trace_insert prefix;;
      if IsEmpty key then mret (value, true)
      else mret (NEdge value key NewNodeFlag, true)
  | NEdge child path fl =>
      let match_ := CommonPath path key in
      if Len match_ =? Len path then
        '(newNode, dirty) ← insert k child (Append prefix path) (LSBs key (Len match_)) value;
        if negb dirty then mret (n, false)
        else mret (NEdge newNode path NewNodeFlag, true)
      else
        let pathPrefix := MSBs path (Len match_ + 1) in
        '(c1, _) ← insert k NNil (Append prefix pathPrefix) (LSBs path (Len match_ + 1)) child;
        let branch := set_child NNil NNil (Bit path (Len match_)) c1 NewNodeFlag in
        let keyPrefix := MSBs key (Len match_ + 1) in
        '(c2, _) ← insert k NNil (Append prefix keyPrefix) (LSBs key (Len match_ + 1)) value;
        let branch :=
          match branch with
          | NBinary l r fl => set_child l r (Bit key (Len match_)) c2 fl
          | b => b
          end in
        if IsEmpty match_ then mret (branch, true)
        else
          let matchPrefix := MSBs key (Len match_) in
          trace_insert (Append prefix matchPrefix);;
          mret (NEdge branch matchPrefix NewNodeFlag, true)
  | NBinary l r fl =>
      let bit := MSB key in
      '(newNode, dirty) ← insert k (child_at l r bit) (AppendBit prefix bit) (LSBs key 1) value;
      if negb dirty then mret (n, false)
      else mret (set_child l r bit newNode NewNodeFlag, true)
  | NHash h =>
      child ← resolveNode (Some h) prefix;
      '(newNode, dirty) ← insert k child prefix key value;
      if negb dirty then mret (child, false)
      else mret (newNode, true)
  | NValue _ => panic
  end end.

(** The other child of a binary node that lost one, resolved when it is a hash
    node. *)
Definition resolveChild (n : tnode) (path : Path) : TM tnode :=
  match n with
  | NHash h => resolveNode (Some h) path
  | _ => mret n
  end.

(** [delete]: the new node and whether the trie was modified. *)
Fixpoint delete (fuel : nat) (n : tnode) (prefix key : Path) : TM (tnode * bool) :=
  match fuel with
  | O => out_of_fuel
  | S k =>
  match n with
  | NNil => mret (NNil, false)
  | NEdge child path fl =>
      let match_ := CommonPath path key in
      if Len match_ <? Len path then mret (n, false)
      else if Len match_ =? Len key then
        trace_delete prefix;;
        trace_delete (Append prefix key);;
        mret (NNil, true)
      else
        let keyPrefix := MSBs key (Len path) in
        '(child', dirty) ← delete k child (Append prefix keyPrefix) (LSBs key (Len path));
        if negb dirty then mret (n, false)
        else
          match child' with
          | NEdge cchild cpath _ =>
              trace_delete (Append prefix path);;
              mret (NEdge cchild (Append path cpath) NewNodeFlag, true)
          | _ => mret (NEdge child' (Set_ path) NewNodeFlag, true)
          end
  | NBinary l r fl =>
      let bit := MSB key in
      let keyPrefix := MSBs key 1 in
      '(newNode, dirty) ← delete k (child_at l r bit) (Append prefix keyPrefix) (LSBs key 1);
      if negb dirty then mret (n, false)
      else
        match newNode with
        | NNil =>
            let other := Z.lxor bit 1 in
            let bitPrefix := SetBit other in
            c ← resolveChild (child_at l r other) (Append prefix bitPrefix);
            match c with
            | NEdge cchild cpath _ =>
                trace_delete (Append prefix bitPrefix);;
                mret (NEdge cchild (Append bitPrefix cpath) NewNodeFlag, true)
            | _ => mret (NEdge c bitPrefix NewNodeFlag, true)
            end
        | _ => mret (set_child l r bit newNode NewNodeFlag, true)
        end
  | NValue _ => trace_delete prefix;; mret (NNil, true)
  | NHash h =>
      child ← resolveNode (Some h) prefix;
      '(newNode, dirty) ← delete k child prefix key;
      if negb dirty then mret (child, false)
      else mret (newNode, true)
  end end.

(** A descent makes at most two calls per bit of the key (a hash node and the
    node it resolves to) and two more at its end. *)
Definition trie_fuel (t : Trie) : nat := 2 * Z.to_nat (height t) + 3.

Definition update (key value : F) : TM unit :=
  t ← get_state;
  let k := FeltToPath key (height t) in
  if felt_IsZero value then
    '(n, _) ← delete (trie_fuel t) (root t) emptyBitArray k;
    modify (fun t => set_root t n)
  else
    '(n, _) ← insert (trie_fuel t) (root t) emptyBitArray k (NValue value);
    modify (fun t => set_root t n).

Definition count_update : TM unit :=
  modify (fun t => set_pending t (i64 (pendingHashes t + 1)) (i64 (pendingUpdates t + 1))).

Definition Update (key value : F) : TM unit :=
  t ← get_state;
  if committed t then fail ErrCommitted
  else update key value;; count_update.

Definition Get (key : F) : TM F :=
  t ← get_state;
  if committed t then fail ErrCommitted
  else
    let k := FeltToPath key (height t) in
    '(val, n, didResolve) ← get (trie_fuel t) (root t) emptyBitArray k;
    modify (fun t => if (didResolve : bool) then set_root t n else t);;
    mret (default felt_Zero val).

Definition Delete (key : F) : TM unit :=
  t ← get_state;
  if committed t then fail ErrCommitted
  else
    let k := FeltToPath key (height t) in
    '(n, _) ← delete (trie_fuel t) (root t) emptyBitArray k;
    modify (fun t => set_root t n);;
    count_update.

Definition hashRoot : TM (tnode * tnode) :=
  t ← get_state;
  match root t with
  | NNil => mret (NHash felt_Zero, NNil)
  | _ =>
      '(hashed, cached) ← lift_pure (hash (root t));
      modify (fun t => set_pending t 0 (pendingUpdates t));;
      mret (hashed, cached)
  end.

(** [Hash]: the type assertion to a hash node panics on another node. *)
Definition Trie_Hash : TM F :=
  '(h, cached) ← hashRoot;
  modify (fun t => set_root t cached);;
  match h with
  | NHash f => mret f
  | _ => panic
  end.

Definition Trie_Copy (t : Trie) : Trie :=
  mkTrie (height t) (owner t) (root t) (committed t) (tracer_copy (tracer t))
    (pendingHashes t) (pendingUpdates t).

Definition NewEmpty (h : Z) : Trie := mkTrie h felt_Zero NNil false newTracer 0 0.

(** The trie of an identifier; [hn] is the hash of the root when it is known.
    [stateComm] is the state commitment of the identifier.  A missing root is an
    empty trie. *)
Definition new_trie (id_owner stateComm : F) (h : Z) (hn : option F) : outcome trieError Trie :=
  let tr := mkTrie h id_owner NNil false newTracer 0 0 in
  if felt_IsZero stateComm then Ok tr
  else
    match resolve h id_owner hn emptyBitArray with
    | Ok n => Ok (set_root tr n)
    | Err (ErrReader ErrKeyNotFound) => Ok tr
    | Err e => Err e
    | Panic => Panic
    | NoFuel => NoFuel
    end.

Definition New (id_owner stateComm : F) (h : Z) : outcome trieError Trie :=
  new_trie id_owner stateComm h None.

Definition NewFromRootHash (id_owner stateComm : F) (h : Z) (rootHash : F) : outcome trieError Trie :=
  new_trie id_owner stateComm h (Some rootHash).

(** ** [collector.go] *)

(** [store]: the node set with the node added, and the hash node (or the value
    node itself). *)
Definition store (nodes : nset) (path : Path) (n : tnode) : outcome Empty_set (tnode * nset) :=
  '(h, _) ← Cache n;
  blob ← EncodeNode n;
  match h with
  | None => Ok (n, Add nodes path (NewLeaf (felt_SetBytes blob) blob))
  | Some h => Ok (NHash h, Add nodes path (NewNonLeaf h blob))
  end.

Definition collectChild (collect : Path -> tnode -> nset -> outcome Empty_set (tnode * nset))
    (path : Path) (i : Z) (child : tnode) (nodes : nset) : outcome Empty_set (tnode * nset) :=
  match child with
  | NHash _ => Ok (child, nodes)
  | _ => collect (AppendBit path i) child nodes
  end.

Definition collectChildren (collect : Path -> tnode -> nset -> outcome Empty_set (tnode * nset))
    (path : Path) (l r : tnode) (nodes : nset)
  : outcome Empty_set (tnode * tnode * nset) :=
  '(l', nodes) ← collectChild collect path 0 l nodes;
  '(r', nodes) ← collectChild collect path 1 r nodes;
  Ok (l', r', nodes).

Fixpoint collect (n : tnode) (path : Path) (nodes : nset) : outcome Empty_set (tnode * nset) :=
  match Cache n with
  | Ok (Some h, false) => Ok (NHash h, nodes)
  | _ =>
  match n with
  | NNil => Panic
  | NEdge child cpath fl =>
      '(child', nodes) ← collect child (Append path cpath) nodes;
      store nodes path (NEdge child' cpath fl)
  | NBinary l r fl =>
      '(l', r', nodes) ← collectChildren (fun p c ns => collect c p ns) path l r nodes;
      store nodes path (NBinary l' r' fl)
  | NHash _ => Ok (n, nodes)
  | NValue _ => store nodes path n
  end end.

Definition Collect (n : tnode) (nodes : nset) : outcome Empty_set (F * nset) :=
  '(h, nodes) ← collect n emptyBitArray nodes;
  match h with NHash f => Ok (f, nodes) | _ => Panic end.

(** The deleted nodes as a node set. *)
Definition deleted_set (t : Trie) (nodes : nset) : nset :=
  foldl (fun ns p => Add ns p (NewDeleted (Len p =? height t))) nodes (deletedNodes (tracer t)).

Definition Commit : TM (F * option nset) :=
  t ← get_state;
  res ←
    match root t with
    | NNil =>
        if bool_decide (deletedNodes (tracer t) = []) then mret (felt_Zero, None)
        else mret (felt_Zero, Some (deleted_set t (NewNodeSet (owner t))))
    | _ =>
        rootHash ← Trie_Hash;
        t ← get_state;
        '(hashedNode, dirty) ← lift_pure (Cache (root t));
        if negb dirty then
          modify (fun t => set_root t (match hashedNode with Some h => NHash h | None => NNil end));;
          mret (rootHash, None)
        else
          '(h, nodes) ← lift_pure (Collect (root t) (deleted_set t (NewNodeSet (owner t))));
          modify (fun t => set_pending (set_root t (NHash h)) (pendingHashes t) 0);;
          mret (rootHash, Some nodes)
    end;
  modify set_committed;;
  mret res.

End definitions.
