(* ===== verification/TrieSpec.v ===== *)
(** * The trie as a map

    The abstract view of the trie: a path-compressed binary tree over sequences
    of bits ([stree]), in canonical form ([canon]), which is determined by the
    map from keys to values it stores ([canon_ext]), and its Merkle hash
    ([shash]). *)
From stdpp Require Import prelude list.
From Stdlib Require Import ZArith Lia.
From S2P Require Import Prelude Felt BitArray BitArrayFacts.

Local Open Scope Z_scope.

(** ** Bit arrays from sequences *)

(** The integer of a sequence, most significant bit first. *)
Fixpoint bits_val (l : list bool) : Z :=
  match l with
  | [] => 0
  | b :: l' => (if b then 2 ^ Z.of_nat (length l') else 0) + bits_val l'
  end.

Lemma bits_val_range l : 0 <= bits_val l < 2 ^ Z.of_nat (length l).
Proof.
  induction l as [|b l IH]; [done|]. simpl bits_val.
  change (length (b :: l)) with (S (length l)). rewrite Nat2Z.inj_succ, Z.pow_succ_r by lia.
  destruct b; lia.
Qed.

Lemma bits_n_val l : bits_n (length l) (bits_val l) = l.
Proof.
  induction l as [|b l IH]; [done|]. simpl. pose proof (bits_val_range l) as Hr. f_equal.
  - destruct b; [|by apply (testbit_high (Z.of_nat (length l)))].
    rewrite Z.add_comm. rewrite <- (Z.add_lor_land _ _).
    assert (E : Z.land (bits_val l) (2 ^ Z.of_nat (length l)) = 0).
    { apply Z.bits_inj'. intros i Hi. rewrite Z.land_spec, Z.bits_0.
      destruct (decide (i = Z.of_nat (length l))) as [->|].
      - by rewrite (testbit_high (Z.of_nat (length l))) by lia.
      - rewrite Z.pow2_bits_false by done. apply andb_false_r. }
    rewrite E, Z.add_0_r, Z.lor_spec, Z.pow2_bits_true by lia. apply orb_true_r.
  - rewrite <- (bits_n_mod _ _ (Z.of_nat (length l))) by lia.
    replace (((if b then 2 ^ Z.of_nat (length l) else 0) + bits_val l) mod 2 ^ Z.of_nat (length l))
      with (bits_val l); [done|].
    destruct b; [|by rewrite Z.mod_small].
    rewrite Z.add_comm, <- (Z.mul_1_l (2 ^ _)) at 1. rewrite Z.mod_add, Z.mod_small by lia. done.
Qed.

Definition path_of (l : list bool) : BitArray :=
  let v := bits_val l in
  mkBits (Z.of_nat (length l)) (v mod 2 ^ 64) (Z.shiftr v 64 mod 2 ^ 64)
    (Z.shiftr v 128 mod 2 ^ 64) (Z.shiftr v 192 mod 2 ^ 64).

Lemma path_of_spec l : (length l <= 255)%nat -> wf (path_of l) /\ bits (path_of l) = l.
Proof.
  intros Hl. pose proof (bits_val_range l) as Hr.
  assert (Hw : words_ok (path_of l)) by (split; apply Z.mod_pos_bound; lia).
  assert (Hb : bits_val l < 2 ^ 256).
  { pose proof (Z.pow_le_mono_r 2 (Z.of_nat (length l)) 256). lia. }
  assert (Hv : val (path_of l) = bits_val l).
  { apply Z.bits_inj'. intros i Hi. rewrite testbit_block by done. simpl w0. simpl w1. simpl w2. simpl w3.
    bool_cases; rewrite testbit_mod_pow2 by lia; rewrite ?Z.shiftr_spec by lia.
    - by destruct (Z.ltb_spec i 64); [|lia].
    - destruct (Z.ltb_spec (i - 64) 64); [|lia]. simpl. f_equal. lia.
    - destruct (Z.ltb_spec (i - 128) 64); [|lia]. simpl. f_equal. lia.
    - destruct (Z.ltb_spec (i - 192) 64); simpl; [f_equal; lia|].
      symmetry. apply (testbit_high 256); lia. }
  split.
  - split; [simpl; lia|done|]. rewrite Hv. simpl len. lia.
  - rewrite (bits_eq (path_of l) (length l) (bits_val l)) by done. apply bits_n_val.
Qed.

Lemma path_of_bits b : wf b -> path_of (bits b) = b.
Proof.
  intros Hb. destruct (path_of_spec (bits b)) as [Hw E].
  - rewrite length_bits. destruct Hb as [? _ _]. lia.
  - by apply bits_inj.
Qed.

(** ** Trees *)

Section spec.
Context {F : Type} `{!FieldElement F}.

Inductive stree : Type :=
| SLeaf (v : F)
| SBin (l r : stree)
| SEdge (p : list bool) (c : stree).

Definition is_edge (t : stree) : bool := match t with SEdge _ _ => true | _ => false end.
Definition is_leaf (t : stree) : bool := match t with SLeaf _ => true | _ => false end.

(** Canonical trees for keys of [h] bits: leaves are not zero, edges have a
    path, and no edge leads to an edge. *)
Fixpoint canon (h : nat) (t : stree) : Prop :=
  match t with
  | SLeaf v => h = 0%nat /\ v ≠ felt_Zero
  | SBin l r => exists h', h = S h' /\ canon h' l /\ canon h' r
  | SEdge p c => p ≠ [] /\ is_edge c = false /\ exists h', h = (length p + h')%nat /\ canon h' c
  end.

(** The value of a key. *)
Fixpoint slookup (t : stree) (k : list bool) : option F :=
  match t with
  | SLeaf v => if bool_decide (k = []) then Some v else None
  | SBin l r =>
      match k with
      | [] => None
      | b :: k' => slookup (if b then r else l) k'
      end
  | SEdge p c =>
      if bool_decide (take (length p) k = p) then slookup c (drop (length p) k) else None
  end.

Definition olookup (t : option stree) (k : list bool) : option F :=
  match t with Some t => slookup t k | None => None end.

Definition ocanon (h : nat) (t : option stree) : Prop :=
  match t with Some t => canon h t | None => True end.

(** ** Canonical trees are determined by their map *)

Lemma slookup_edge_app p c k : slookup (SEdge p c) (p ++ k) = slookup c k.
Proof. simpl. rewrite take_app_length, drop_app_length. by rewrite bool_decide_true. Qed.

Lemma slookup_edge_Some p c k v :
  slookup (SEdge p c) k = Some v -> exists k', k = p ++ k' /\ slookup c k' = Some v.
Proof.
  simpl. destruct (bool_decide (take (length p) k = p)) eqn:E; [|done].
  apply bool_decide_eq_true_1 in E. intros Hl. exists (drop (length p) k). split; [|done].
  rewrite <- E at 1. by rewrite take_drop.
Qed.

Lemma canon_inhabited h t :
  canon h t -> exists k v, length k = h /\ slookup t k = Some v /\ v ≠ felt_Zero.
Proof.
  revert h. induction t as [v|l IHl r IHr|p c IH]; intros h; simpl.
  - intros [-> ?]. exists [], v. done.
  - intros (h' & -> & Hl & _). destruct (IHl _ Hl) as (k & v & ? & ? & ?).
    exists (false :: k), v. simpl. auto with f_equal.
  - intros (_ & _ & h' & -> & Hc). destruct (IH _ Hc) as (k & v & ? & ? & ?).
    exists (p ++ k), v. rewrite length_app, take_app_length, drop_app_length, bool_decide_true by done.
    split_and!; [lia|done|done].
Qed.

Lemma canon_bin_inhabited h l r (b : bool) :
  canon h (SBin l r) -> exists k v, length (b :: k) = h /\ slookup (SBin l r) (b :: k) = Some v.
Proof.
  intros (h' & -> & Hl & Hr). destruct b.
  - destruct (canon_inhabited _ _ Hr) as (k & v & ? & ? & _). exists k, v. simpl. auto with f_equal.
  - destruct (canon_inhabited _ _ Hl) as (k & v & ? & ? & _). exists k, v. simpl. auto with f_equal.
Qed.

(** All keys of a canonical tree have the length of the tree. *)
Lemma slookup_length h t k v : canon h t -> slookup t k = Some v -> length k = h.
Proof.
  revert h k. induction t as [x|l IHl r IHr|p c IH]; intros h k Hc Hs.
  - simpl in *. destruct Hc as [-> _]. by destruct (bool_decide (k = [])) eqn:E; [apply bool_decide_eq_true_1 in E as ->|].
  - destruct Hc as (h' & -> & Hl & Hr). destruct k as [|[] k]; simpl in *; [done|f_equal; eauto..].
  - destruct Hc as (_ & _ & h' & -> & Hc). apply slookup_edge_Some in Hs as (k' & -> & Hs).
    rewrite length_app. f_equal. eauto.
Qed.

(** A binary node has keys with both first bits, an edge with only one. *)
Lemma bin_not_edge h l r b p c :
  canon h (SBin l r) ->
  (forall k, slookup (SBin l r) k = slookup (SEdge (b :: p) c) k) -> False.
Proof.
  intros Hc Heq. destruct (canon_bin_inhabited h l r (negb b) Hc) as (k & v & _ & Hk).
  rewrite Heq in Hk. apply slookup_edge_Some in Hk as (k' & [= Hb _] & _). by destruct b.
Qed.

(** Edges with the same map have the same path. *)
Lemma edge_paths h p q c d :
  canon h (SEdge p c) -> canon h (SEdge q d) ->
  (forall k, slookup (SEdge p c) k = slookup (SEdge q d) k) -> (length p <= length q)%nat -> p = q.
Proof.
  intros Hp Hq Heq Hle.
  destruct (canon_inhabited _ _ Hq) as (k & v & _ & Hk & _). pose proof Hk as Hk'.
  apply slookup_edge_Some in Hk as (kq & Ekq & _). rewrite <- Heq in Hk'.
  apply slookup_edge_Some in Hk' as (kp & Ekp & _).
  assert (Hpre : q = p ++ drop (length p) q).
  { rewrite <- (take_drop (length p) q) at 1. f_equal.
    rewrite <- (take_app_le q kq (length p)), <- Ekq, Ekp, take_app_length by lia. done. }
  destruct (drop (length p) q) as [|b q'] eqn:Ed; [by rewrite app_nil_r in Hpre|]. exfalso.
  destruct Hp as (_ & Hne & h' & -> & Hc). destruct Hq as (_ & _ & h'' & Eh & _).
  rewrite Hpre, length_app in Eh. simpl in Eh.
  assert (Hsub : forall k, slookup c k = slookup (SEdge (b :: q') d) k).
  { intros k0. rewrite <- (slookup_edge_app p c k0), Heq, Hpre. simpl.
    rewrite length_app. simpl. rewrite take_app_add, drop_app_add. simpl.
    apply (f_equal (fun x : bool => if x then _ else _)).
    apply bool_decide_ext. split; [intros E; by apply app_inv_head in E|by intros ->]. }
  destruct c as [x|l r|p' c']; [|by eapply bin_not_edge|done].
  simpl in Hc. lia.
Qed.

Lemma canon_ext h t1 t2 :
  canon h t1 -> canon h t2 -> (forall k, slookup t1 k = slookup t2 k) -> t1 = t2.
Proof.
  revert h t2. induction t1 as [v|l IHl r IHr|p c IH]; intros h t2 H1 H2 Heq.
  - destruct H1 as [-> _]. destruct t2 as [v2|l2 r2|p2 c2]; simpl in H2.
    + f_equal. specialize (Heq []). simpl in Heq. by injection Heq.
    + destruct H2 as (? & ? & _). lia.
    + destruct H2 as (Hne & _ & h' & E & _). destruct p2; [done|simpl in E; lia].
  - destruct t2 as [v2|l2 r2|[|b p2] c2].
    + destruct H1 as (? & -> & _). destruct H2 as [? _]. lia.
    + destruct H1 as (h1 & -> & Hl & Hr), H2 as (h2 & [= ->] & Hl2 & Hr2). f_equal.
      * eapply IHl; [done|done|]. intros k. apply (Heq (false :: k)).
      * eapply IHr; [done|done|]. intros k. apply (Heq (true :: k)).
    + by destruct H2.
    + exfalso. by eapply bin_not_edge.
  - destruct t2 as [v2|l2 r2|p2 c2].
    + destruct H2 as [-> _]. destruct H1 as (Hne & _ & h' & E & _). destruct p; [done|simpl in E; lia].
    + exfalso. destruct p as [|b p]; [by destruct H1|]. eapply bin_not_edge; [exact H2|].
      intros k. by rewrite Heq.
    + assert (p = p2) as <-.
      { destruct (Nat.le_ge_cases (length p) (length p2)).
        - by eapply edge_paths.
        - symmetry. eapply edge_paths; [done|done| |done]. intros k. by rewrite Heq. }
      f_equal. destruct H1 as (_ & _ & h1 & E1 & H1), H2 as (_ & _ & h2 & E2 & H2).
      assert (h2 = h1) as -> by lia. eapply IH; [done|done|]. intros k.
      rewrite <- (slookup_edge_app p c k), <- (slookup_edge_app p c2 k). apply Heq.
Qed.

Lemma ocanon_ext h t1 t2 :
  ocanon h t1 -> ocanon h t2 -> (forall k, olookup t1 k = olookup t2 k) -> t1 = t2.
Proof.
  intros H1 H2 Heq. destruct t1 as [t1|], t2 as [t2|]; simpl in *; [|exfalso..|done].
  - f_equal. by eapply canon_ext.
  - destruct (canon_inhabited _ _ H1) as (k & v & _ & Hk & _). rewrite Heq in Hk. done.
  - destruct (canon_inhabited _ _ H2) as (k & v & _ & Hk & _). rewrite <- Heq in Hk. done.
Qed.

Lemma canon_leaf_iff h (t : stree) : canon h t -> is_leaf t = bool_decide (h = 0%nat).
Proof.
  destruct t as [v|l r|p c]; simpl.
  - intros [-> _]. done.
  - intros (h' & -> & _). done.
  - intros (Hp & _ & h' & -> & _). symmetry. apply bool_decide_eq_false_2. destruct p; [done|simpl; lia].
Qed.

(** ** The Merkle hash *)

Variable hf : F -> F -> F.

Fixpoint shash (t : stree) : F :=
  match t with
  | SLeaf v => v
  | SBin l r => hf (shash l) (shash r)
  | SEdge p c =>
      felt_Add (hf (shash c) (to_felt (path_of p)))
        (felt_SetBytes (be_bytes 32 (Z.of_nat (length p))))
  end.

Definition oshash (t : option stree) : F :=
  match t with Some t => shash t | None => felt_Zero end.

End spec.

Arguments stree F : clear implicits.
