(* ===== verification/TrieTrace.v ===== *)
(** * What the trie tells its tracer, and what it leaves in the database

    The locations of the nodes of a tree ([locs]), the events an operation
    records in the tracer ([moves]), the part of a trie that is not modified
    ([clean]) and the state of the cached hashes ([cached] and [hashes_ok]). *)
From stdpp Require Import prelude gmap list.
From Stdlib Require Import ZArith Lia.
From S2P Require Import Prelude Felt BitArray BitArrayFacts TrieNode Trie TrieSpec.

Local Open Scope Z_scope.

Section trace.
Context {F : Type} `{!FieldElement F}.

Abbreviation tnode := (node F).
Abbreviation tree := (stree F).
Implicit Types (n : tnode) (t : tree) (ot : option tree) (pre q l p : list bool).

(** ** Locations *)

(** The subtree whose root is at a path. *)
Fixpoint snode (t : tree) (l : list bool) : option tree :=
  match l with
  | [] => Some t
  | b :: l' =>
      match t with
      | SLeaf _ => None
      | SBin t0 t1 => snode (if b then t1 else t0) l'
      | SEdge p c => if bool_decide (take (length p) l = p) then snode c (drop (length p) l) else None
      end
  end.

(** A node of the tree, which starts at [pre], is at [q]. *)
Definition locs pre ot q : Prop :=
  exists t l, ot = Some t /\ q = pre ++ l /\ is_Some (snode t l).

Lemma locs_prefix pre ot q : locs pre ot q -> pre `prefix_of` q.
Proof. intros (t & l & _ & -> & _). by exists l. Qed.

Lemma locs_none pre q : ~ locs pre None q.
Proof. by intros (t & l & ? & _). Qed.

Lemma snode_nil t : snode t [] = Some t.
Proof. by destruct t. Qed.

Lemma locs_root pre t : locs pre (Some t) pre.
Proof. exists t, []. rewrite app_nil_r, snode_nil. by eauto. Qed.

Lemma locs_leaf pre v q : locs pre (Some (SLeaf v)) q <-> q = pre.
Proof.
  split; [|intros ->; apply locs_root].
  intros (t & l & [= <-] & -> & Hs). destruct l; [by rewrite app_nil_r|by destruct Hs].
Qed.

Lemma locs_bin pre t0 t1 q :
  locs pre (Some (SBin t0 t1)) q <->
  q = pre \/ locs (pre ++ [false]) (Some t0) q \/ locs (pre ++ [true]) (Some t1) q.
Proof.
  split.
  - intros (t & l & [= <-] & -> & Hs). destruct l as [|b l]; [left; by rewrite app_nil_r|right].
    destruct b; [right; exists t1, l|left; exists t0, l]; by rewrite <- app_assoc.
  - intros [->|[(t & l & [= <-] & -> & Hs)|(t & l & [= <-] & -> & Hs)]]; [apply locs_root|..];
      rewrite <- app_assoc; [exists (SBin t0 t1), (false :: l)|exists (SBin t0 t1), (true :: l)]; done.
Qed.

Lemma snode_edge p t l : p ≠ [] -> snode (SEdge p t) (p ++ l) = snode t l.
Proof.
  intros Hp. destruct p as [|b p]; [done|]. cbn [app snode].
  change (b :: p ++ l) with ((b :: p) ++ l). by rewrite take_app_length, drop_app_length, bool_decide_true.
Qed.

Lemma locs_edge pre p t q :
  p ≠ [] -> locs pre (Some (SEdge p t)) q <-> q = pre \/ locs (pre ++ p) (Some t) q.
Proof.
  intros Hp. split.
  - intros (t' & l & [= <-] & -> & Hs). destruct l as [|b l]; [left; by rewrite app_nil_r|right].
    cbn [snode] in Hs. destruct (bool_decide _) eqn:E; [|by destruct Hs]. apply bool_decide_eq_true_1 in E.
    exists t, (drop (length p) (b :: l)). split; [done|]. split; [|done].
    rewrite <- app_assoc. f_equal. rewrite <- E at 1. by rewrite take_drop.
  - intros [->|(t' & l & [= <-] & -> & Hs)]; [apply locs_root|].
    exists (SEdge p t), (p ++ l). rewrite <- app_assoc, snode_edge by done. by eauto.
Qed.

(** Locations below the two bits of a branch are different. *)
Lemma locs_sides pre (b : bool) ot ot' q :
  locs (pre ++ [b]) ot q -> locs (pre ++ [negb b]) ot' q -> False.
Proof.
  intros (t & l & _ & -> & _) (t' & l' & _ & E & _). rewrite <- !app_assoc in E.
  apply app_inv_head in E. destruct b; discriminate.
Qed.

Lemma locs_below pre p ot : p ≠ [] -> ~ locs (pre ++ p) ot pre.
Proof.
  intros Hp (t & l & _ & E & _). rewrite <- app_assoc in E.
  apply (f_equal length) in E. rewrite !length_app in E. destruct p; [done|]. simpl in E. lia.
Qed.

(** ** Events *)

Inductive event : Type :=
| EIns (q : list bool)
| EDel (q : list bool).

#[export] Instance event_eq_dec : EqDecision event.
Proof. solve_decision. Defined.

Definition record (tr : nodeTracer) (e : event) : nodeTracer :=
  match e with EIns q => onInsert tr (path_of q) | EDel q => onDelete tr (path_of q) end.

(** An operation that turns one tree into another tells the tracer about new
    nodes, once for each, and about every node that is no longer there. *)
Definition moves pre ot ot' (tr tr' : nodeTracer) : Prop :=
  exists es, tr' = foldl record tr es /\ NoDup es /\
    (forall q, EIns q ∈ es -> locs pre ot' q /\ ~ locs pre ot q) /\
    (forall q, EDel q ∈ es <-> locs pre ot q /\ ~ locs pre ot' q).

Lemma moves_id pre ot tr : moves pre ot ot tr tr.
Proof.
  exists []. split_and!; [done|constructor|by intros q ?%elem_of_nil|].
  intros q. split; [by intros ?%elem_of_nil|tauto].
Qed.

(** The events below a part of a tree are the events of the tree when the rest
    [rest] of its locations is the same. *)
Lemma moves_lift pre pre' ot ot' T T' (rest : list bool -> Prop) tr tr' :
  (forall q, locs pre T q <-> rest q \/ locs pre' ot q) ->
  (forall q, locs pre T' q <-> rest q \/ locs pre' ot' q) ->
  (forall q, rest q -> ~ locs pre' ot q /\ ~ locs pre' ot' q) ->
  moves pre' ot ot' tr tr' -> moves pre T T' tr tr'.
Proof.
  intros HT HT' Hr (es & -> & Hn & Hi & Hd). exists es. split_and!; [done|done| |].
  - intros q Hq. destruct (Hi q Hq). rewrite HT, HT'. split; [tauto|]. intros [?%Hr|?]; tauto.
  - intros q. rewrite Hd, HT, HT'. specialize (Hr q). tauto.
Qed.

Lemma moves_bin pre (b : bool) t0 t1 t t' tr tr' :
  (if b then t1 else t0) = t ->
  moves (pre ++ [b]) (Some t) (Some t') tr tr' ->
  moves pre (Some (SBin t0 t1)) (Some (if b then SBin t0 t' else SBin t' t1)) tr tr'.
Proof.
  intros <-. apply (moves_lift _ _ _ _ _ _ (fun q => q = pre \/
    locs (pre ++ [negb b]) (Some (if b then t0 else t1)) q)).
  - intros q. rewrite locs_bin. destruct b; simpl; tauto.
  - intros q. destruct b; rewrite locs_bin; simpl; tauto.
  - intros q [->|Hq]; [split; by apply locs_below|].
    split; intros Hq'; by apply (locs_sides _ _ _ _ _ Hq' Hq).
Qed.

Lemma moves_edge pre p t t' tr tr' :
  p ≠ [] -> moves (pre ++ p) (Some t) (Some t') tr tr' ->
  moves pre (Some (SEdge p t)) (Some (SEdge p t')) tr tr'.
Proof.
  intros Hp. apply (moves_lift _ _ _ _ _ _ (fun q => q = pre)).
  - intros q. by apply locs_edge.
  - intros q. by apply locs_edge.
  - intros q ->. split; by apply locs_below.
Qed.

(** One more event, for a location that goes away. *)
Lemma moves_delete pre ot ot' ot2 tr tr' q0 :
  moves pre ot ot' tr tr' -> locs pre ot q0 -> locs pre ot' q0 ->
  (forall q, locs pre ot2 q <-> locs pre ot' q /\ q ≠ q0) ->
  moves pre ot ot2 tr (onDelete tr' (path_of q0)).
Proof.
  intros (es & -> & Hnd & Hi & Hd) H0 H0' H2. exists (es ++ [EDel q0]).
  split_and!; [by rewrite foldl_app| | |].
  - apply NoDup_app. split_and!; [done| |by apply NoDup_singleton].
    intros e He ->%list_elem_of_singleton. apply Hd in He. tauto.
  - intros q [Hq|Hq%list_elem_of_singleton]%elem_of_app; [|done]. destruct (Hi q Hq) as [? Hn].
    rewrite H2. split; [|done]. split; [done|]. by intros ->.
  - intros q. rewrite elem_of_app, list_elem_of_singleton, Hd, H2.
    split; [|intros [Hl Hn]; destruct (decide (q = q0)) as [->|]; [auto|left; tauto]].
    intros [[??]|[= ->]]; tauto.
Qed.

(** Only new locations, some of them recorded. *)
Lemma moves_inserts pre ot ot' tr qs :
  NoDup qs -> Forall (fun q => locs pre ot' q /\ ~ locs pre ot q) qs ->
  (forall q, locs pre ot q -> locs pre ot' q) ->
  moves pre ot ot' tr (foldl (fun tr q => onInsert tr (path_of q)) tr qs).
Proof.
  intros Hn Hq Hg. exists (EIns <$> qs). split_and!.
  - by rewrite foldl_fmap.
  - apply NoDup_fmap_2; [by intros ? ? [= ->]|done].
  - intros q (q' & [= ->] & Hin)%list_elem_of_fmap. by eapply Forall_forall in Hq.
  - intros q. rewrite list_elem_of_fmap. split; [by intros (? & ? & _)|]. intros [?%Hg ?]. done.
Qed.

Lemma moves_grow pre ot ot' tr :
  (forall q, locs pre ot q -> locs pre ot' q) -> moves pre ot ot' tr tr.
Proof. by apply (moves_inserts _ _ _ _ []); constructor. Qed.

(** ** What the events leave in the tracer *)

Definition marks (q : list bool) (tr : nodeTracer) : bool * bool :=
  (bool_decide (path_of q ∈ inserts tr), bool_decide (path_of q ∈ deletes_ tr)).

Lemma path_of_inj x y : (length x <= 255)%nat -> path_of x = path_of y -> x = y.
Proof.
  intros Hx E. assert (El : length x = length y) by (apply (f_equal len) in E; simpl in E; lia).
  destruct (path_of_spec x Hx) as [_ <-]. rewrite E. apply path_of_spec. lia.
Qed.

(** Events about other locations do not matter. *)
Lemma record_other q tr e :
  (length q <= 255)%nat -> e ≠ EIns q -> e ≠ EDel q -> marks q (record tr e) = marks q tr.
Proof.
  intros Hq Hi Hd. unfold marks.
  assert (Hne : forall x, (e = EIns x \/ e = EDel x) -> path_of q ≠ path_of x).
  { intros x Hx E. apply path_of_inj in E as <-; [|done]. by destruct Hx. }
  destruct e as [x|x]; simpl; specialize (Hne x ltac:(auto)); unfold onInsert, onDelete.
  - destruct (bool_decide (path_of x ∈ deletes_ tr)); simpl; f_equal; apply bool_decide_ext; set_solver.
  - destruct (bool_decide (path_of x ∈ inserts tr)); simpl; f_equal; apply bool_decide_ext; set_solver.
Qed.

Lemma foldl_record_other q tr es :
  (length q <= 255)%nat -> EIns q ∉ es -> EDel q ∉ es -> marks q (foldl record tr es) = marks q tr.
Proof.
  intros Hq. revert tr. induction es as [|e es IH]; intros tr Hi Hd; [done|]. simpl.
  apply not_elem_of_cons in Hi as [? ?], Hd as [? ?]. by rewrite IH, record_other.
Qed.

(** One event about a location decides. *)
Lemma foldl_record_one q tr es e :
  (length q <= 255)%nat -> NoDup es -> e ∈ es -> (e = EIns q /\ EDel q ∉ es \/ e = EDel q /\ EIns q ∉ es) ->
  marks q (foldl record tr es) =
    match e, marks q tr with
    | EIns _, (i, true) => (i, false)
    | EIns _, (_, false) => (true, false)
    | EDel _, (true, d) => (false, d)
    | EDel _, (false, _) => (false, true)
    end.
Proof.
  intros Hq Hn (l1 & l2 & ->)%list_elem_of_split He.
  apply NoDup_app in Hn as (_ & Hd1 & [Hd2 _]%NoDup_cons).
  assert (H1 : e ∉ l1) by (intros H; apply (Hd1 _ H); by left).
  assert (Ho : forall es tr, es = l1 \/ es = l2 -> marks q (foldl record tr es) = marks q tr).
  { intros es tr0 Hl. apply foldl_record_other; [done|..];
      destruct He as [[-> Hx]|[-> Hx]]; destruct Hl as [->| ->]; set_solver. }
  rewrite foldl_app. cbn [foldl]. rewrite Ho by auto.
  rewrite <- (Ho l1 tr) by auto. set (tr1 := foldl record tr l1). clearbody tr1.
  unfold marks. destruct He as [[-> _]|[-> _]]; cbn [record]; unfold onInsert, onDelete.
  - destruct (bool_decide_reflect (path_of q ∈ deletes_ tr1)); simpl.
    + f_equal. apply bool_decide_eq_false_2. set_solver.
    + f_equal; [apply bool_decide_eq_true_2; set_solver|by apply bool_decide_eq_false_2].
  - destruct (bool_decide_reflect (path_of q ∈ inserts tr1)); simpl.
    + f_equal. apply bool_decide_eq_false_2. set_solver.
    + f_equal; [by apply bool_decide_eq_false_2|apply bool_decide_eq_true_2; set_solver].
Qed.

(** Where a deleted path comes from. *)
Lemma foldl_record_deletes tr es (p : BitArray) :
  p ∈ deletes_ (foldl record tr es) -> p ∈ deletes_ tr \/ exists q, EDel q ∈ es /\ p = path_of q.
Proof.
  revert tr. induction es as [|e es IH]; intros tr; [by left|]. simpl.
  intros [H|(q & Hq & ->)]%IH; [|right; exists q; by split; [right|]].
  destruct e as [q|q]; simpl in H; unfold onInsert, onDelete in H; case_bool_decide; simpl in H.
  - left. set_solver.
  - by left.
  - by left.
  - apply elem_of_union in H as [->%elem_of_singleton|H]; [|by left]. right. exists q. split; [by left|done].
Qed.

(** ** The part that is not modified *)

(** [q] is at or below a node that is not modified since it was loaded. *)
Fixpoint clean n pre q : Prop :=
  match n with
  | NNil | NValue _ => False
  | NHash _ => pre `prefix_of` q
  | NBinary l r fl =>
      if Dirty fl then clean l (pre ++ [false]) q \/ clean r (pre ++ [true]) q else pre `prefix_of` q
  | NEdge c p fl => if Dirty fl then clean c (pre ++ bits p) q else pre `prefix_of` q
  end.

Lemma clean_prefix n pre q : clean n pre q -> pre `prefix_of` q.
Proof.
  revert pre. induction n as [|l IHl r IHr fl|c IHc p fl|h|v]; intros pre; simpl; try done.
  - destruct (Dirty fl); [|done]. intros [H|H]; [apply IHl in H|apply IHr in H]; by apply prefix_app_l in H.
  - destruct (Dirty fl); [|done]. intros H%IHc. by apply prefix_app_l in H.
Qed.

(** ** Cached hashes *)

(** The hash of the node and of the modified nodes below it is cached. *)
Fixpoint cached n : Prop :=
  match n with
  | NBinary l r fl => is_Some (fHash fl) /\ (Dirty fl = true -> cached l /\ cached r)
  | NEdge c _ fl => is_Some (fHash fl) /\ (Dirty fl = true -> cached c)
  | _ => True
  end.

(** A modified node that has its hash has it for everything modified below. *)
Fixpoint hashes_ok n : Prop :=
  match n with
  | NBinary l r fl =>
      (is_Some (fHash fl) -> Dirty fl = true -> cached l /\ cached r) /\ hashes_ok l /\ hashes_ok r
  | NEdge c _ fl =>
      (is_Some (fHash fl) -> Dirty fl = true -> cached c) /\ hashes_ok c
  | _ => True
  end.

Lemma new_edge_hashes c (p : BitArray) : hashes_ok c -> hashes_ok (NEdge c p NewNodeFlag).
Proof. intros Hc. by split; [intros [? ?]|]. Qed.

(** A new node in the place of another: what is not modified was not before.
    The hashes are in order if [nz] (that no hash is zero). *)
Variable nz : Prop.

Definition tidy n n' pre : Prop :=
  (nz -> hashes_ok n -> hashes_ok n') /\ (forall q, clean n' pre q -> clean n pre q).

Lemma tidy_refl n pre : tidy n n pre.
Proof. done. Qed.

Lemma tidy_trans n1 n2 n3 pre : tidy n1 n2 pre -> tidy n2 n3 pre -> tidy n1 n3 pre.
Proof. intros [? ?] [? ?]. split; auto. Qed.

(** Everything below a hash node is clean. *)
Lemma tidy_hash h n pre : (nz -> hashes_ok n) -> tidy (NHash h) n pre.
Proof. intros Hn. split; [auto|]. intros q. apply clean_prefix. Qed.

Lemma new_bin_tidy (l r : tnode) fl pre (b : bool) n' :
  tidy (if b then r else l) n' (pre ++ [b]) ->
  tidy (NBinary l r fl) (if b then NBinary l n' NewNodeFlag else NBinary n' r NewNodeFlag) pre.
Proof.
  intros [Hh Hc]. split.
  - intros Hz (_ & ? & ?). destruct b; simpl; (split_and!; [by intros [? ?]|auto|auto]).
  - intros q Hq. simpl. destruct b; simpl in Hq; destruct (Dirty fl).
    + destruct Hq as [?|?%Hc]; auto.
    + destruct Hq as [Hq|Hq]; apply clean_prefix in Hq; by apply prefix_app_l in Hq.
    + destruct Hq as [?%Hc|?]; auto.
    + destruct Hq as [Hq|Hq]; apply clean_prefix in Hq; by apply prefix_app_l in Hq.
Qed.

Lemma new_edge_tidy c (p : BitArray) fl pre n' :
  tidy c n' (pre ++ bits p) -> tidy (NEdge c p fl) (NEdge n' p NewNodeFlag) pre.
Proof.
  intros [Hh Hc]. split.
  - intros Hz (_ & ?). simpl. split_and!; [by intros [? ?]|auto].
  - intros q Hq. simpl in Hq |- *. destruct (Dirty fl); [by apply Hc|].
    apply clean_prefix in Hq. by apply prefix_app_l in Hq.
Qed.

(** A node whose child was loaded. *)
Definition reload n n' pre : Prop := tidy n n' pre /\ (nz -> cached n -> cached n').

Lemma reload_refl n pre : reload n n pre.
Proof. done. Qed.

Lemma reload_bin (l r : tnode) fl pre (b : bool) n' :
  reload (if b then r else l) n' (pre ++ [b]) ->
  reload (NBinary l r fl) (if b then NBinary l n' fl else NBinary n' r fl) pre.
Proof.
  intros [[Hh Hc] Hf]. split; [split|].
  - intros Hz (H2 & ? & ?). destruct b; simpl;
      (split_and!; [intros ? ?; destruct H2; auto|auto|auto]).
  - intros q. destruct b; simpl; destruct (Dirty fl); naive_solver.
  - intros Hz [H1 H2]. destruct b; simpl; (split; [done|intros ?; destruct H2; auto]).
Qed.

Lemma reload_edge c (p : BitArray) fl pre n' :
  reload c n' (pre ++ bits p) -> reload (NEdge c p fl) (NEdge n' p fl) pre.
Proof.
  intros [[Hh Hc] Hf]. split; [split|].
  - intros Hz (H2 & ?). simpl. split_and!; auto.
  - intros q. simpl. destruct (Dirty fl); auto.
  - intros Hz [H1 H2]. simpl. auto.
Qed.

End trace.
