(* ===== verification/BitArrayTheorems.v ===== *)
(** * Bit arrays as sequences of bits

    What the bit array of four words promises to the trie: its operations are
    those of sequences of at most 255 bits, and its encodings can be read back.
    Each theorem is followed by an instance on concrete arrays. *)
From stdpp Require Import prelude list.
From Stdlib Require Import ZArith Lia.
From S2P Require Import Prelude Felt BitArray BitArrayFacts BitArrayCodec TrieSpec.

Local Open Scope Z_scope.

(** A well-formed array from a concrete sequence. *)
Lemma path_of_wf l : (length l <= 255)%nat -> wf (path_of l).
Proof. intros Hl. by apply path_of_spec. Defined.

(** [Append] concatenates two sequences; when the result is longer than
    255 bits, the first bits are lost and the last 255 are kept. *)
Theorem Append_concatenates x y :
  wf x -> wf y ->
  wf (Append x y) /\ len (Append x y) = Z.min 255 (len x + len y) /\
  bits (Append x y) = drop (Z.to_nat (len x + len y - 255)) (bits x ++ bits y).
Proof.
  intros Hx Hy. destruct (Append_spec x y Hx Hy) as [Hw Hb]. split_and!; [done| |done].
  pose proof (wf_len _ Hx). pose proof (wf_len _ Hy). pose proof (wf_len _ Hw).
  apply (f_equal length) in Hb. rewrite length_drop, length_app, !length_bits in Hb. lia.
Qed.

Lemma Append_concatenates_witness :
  bits (Append (path_of [true; false; true]) (path_of [false; false])) = [true; false; true; false; false].
Proof.
  destruct (Append_concatenates (path_of [true; false; true]) (path_of [false; false])) as (_ & _ & E).
  - apply path_of_wf. simpl; lia.
  - apply path_of_wf. simpl; lia.
  - exact E.
Defined.

(** cutting a path after [n] bits and appending the parts gives the path
    back, and [Subset] is the part between two positions, whatever the
    positions are. *)
Theorem split_append_subset x n i j :
  wf x -> 0 <= n -> 0 <= i -> 0 <= j ->
  Append (MSBs x n) (LSBs x n) = x /\
  wf (Subset x i j) /\ bits (Subset x i j) = take (Z.to_nat (j - i)) (drop (Z.to_nat i) (bits x)).
Proof.
  intros Hx Hn Hi Hj. split; [|by apply Subset_spec].
  destruct (MSBs_spec x n Hx Hn) as [Hm Em], (LSBs_spec x n Hx Hn) as [Hl El].
  assert (Hlen : len (MSBs x n) + len (LSBs x n) = len x).
  { pose proof (wf_len _ Hm). pose proof (wf_len _ Hl). pose proof (wf_len _ Hx).
    apply (f_equal length) in Em, El. rewrite length_take, !length_bits in Em.
    rewrite length_drop, !length_bits in El. lia. }
  destruct (Append_exact _ _ Hm Hl) as (Hw & _ & E).
  { pose proof (wf_len _ Hx). lia. }
  apply bits_inj; [done|done|]. by rewrite E, Em, El, take_drop.
Qed.

Lemma split_append_subset_witness :
  Append (MSBs (path_of [true; false; true; true]) 3) (LSBs (path_of [true; false; true; true]) 3)
    = path_of [true; false; true; true] /\
  bits (Subset (path_of [true; false; true; true]) 1 3) = [false; true].
Proof.
  destruct (split_append_subset (path_of [true; false; true; true]) 3 1 3) as (E & _ & Es).
  - apply path_of_wf. simpl; lia.
  - lia.
  - lia.
  - lia.
  - split; [exact E|exact Es].
Defined.

(** The longest common prefix. *)
Lemma prefix_lcp (l a b : list bool) : l `prefix_of` lcp a b <-> l `prefix_of` a /\ l `prefix_of` b.
Proof.
  revert a b. induction l as [|c l IH]; intros a b.
  { split; [split|intros _]; apply prefix_nil. }
  destruct a as [|a0 a], b as [|b0 b]; simpl;
    try (split; [by intros ?%prefix_nil_not|]; by (intros [?%prefix_nil_not ?] || intros [? ?%prefix_nil_not])).
  destruct (eqb_spec a0 b0) as [->|Hne].
  - split.
    + intros Hl. pose proof (prefix_cons_inv_1 _ _ _ _ Hl) as ->. apply prefix_cons_inv_2, IH in Hl as [??].
      split; by apply prefix_cons.
    + intros [Ha Hb]. pose proof (prefix_cons_inv_1 _ _ _ _ Ha) as ->.
      apply prefix_cons, IH. split; by eapply prefix_cons_inv_2.
  - split; [by intros ?%prefix_nil_not|]. intros [Ha Hb].
    by rewrite <- (prefix_cons_inv_1 _ _ _ _ Ha), (prefix_cons_inv_1 _ _ _ _ Hb) in Hne.
Qed.

Lemma lcp_left a b : a `prefix_of` b -> lcp a b = a.
Proof. intros H. apply (anti_symm prefix); [by apply (prefix_lcp (lcp a b) a b)|by apply prefix_lcp]. Qed.

Lemma lcp_right a b : b `prefix_of` a -> lcp a b = b.
Proof. intros H. apply (anti_symm prefix); [by apply (prefix_lcp (lcp a b) a b)|by apply prefix_lcp]. Qed.

(** [CommonMSBs] is the longest common prefix: a sequence is a prefix
    of both paths exactly when it is a prefix of the result; and [EqualMSBs]
    holds exactly when the common prefix is one of the two paths. *)
Theorem CommonMSBs_longest x y :
  wf x -> wf y ->
  wf (CommonMSBs x y) /\
  (forall l, l `prefix_of` bits (CommonMSBs x y) <-> l `prefix_of` bits x /\ l `prefix_of` bits y) /\
  (EqualMSBs x y = true <-> CommonMSBs x y = x \/ CommonMSBs x y = y).
Proof.
  intros Hx Hy. destruct (CommonMSBs_spec x y Hx Hy) as [Hw E].
  split_and!; [done|rewrite E; intros l; apply prefix_lcp|]. rewrite EqualMSBs_spec by done. split.
  - intros [H|H]; [left|right]; (apply bits_inj; [done|done|]); rewrite E; [by apply lcp_left|by apply lcp_right].
  - pose proof (proj1 (prefix_lcp (lcp (bits x) (bits y)) (bits x) (bits y)) ltac:(done)) as [Hl Hr].
    rewrite <- E in Hl, Hr. intros [H|H]; [left|right]; by rewrite H in *.
Qed.

Lemma CommonMSBs_longest_witness :
  [true] `prefix_of` bits (CommonMSBs (path_of [true; false; true]) (path_of [true; true])) /\
  EqualMSBs (path_of [true; false; true]) (path_of [true; true]) = false.
Proof.
  destruct (CommonMSBs_longest (path_of [true; false; true]) (path_of [true; true])) as (_ & Hp & He).
  - apply path_of_wf. simpl; lia.
  - apply path_of_wf. simpl; lia.
  - split.
    + apply Hp. split; [by exists [false; true]|by exists [true]].
    + destruct (EqualMSBs _ _); [|done]. destruct (proj1 He eq_refl) as [H|H]; discriminate H.
Defined.

(** [Cmp] orders the paths by length and then lexicographically, and it
    is 0 only for equal paths. *)
Theorem Cmp_orders x y :
  wf x -> wf y ->
  (Cmp x y = -1 <-> len x < len y \/ (len x = len y /\ bits_lt (bits x) (bits y) = true)) /\
  (Cmp x y = 0 <-> x = y) /\ (Cmp x y = 1 <-> Cmp y x = -1).
Proof.
  intros Hx Hy. pose proof (wf_len _ Hx). pose proof (wf_len _ Hy).
  pose proof (val_nonneg x (wf_words _ Hx)). pose proof (val_nonneg y (wf_words _ Hy)).
  pose proof (wf_val _ Hx). pose proof (wf_val _ Hy).
  destruct (Z.eq_dec (len x) (len y)) as [El|Nl].
  - rewrite Cmp_spec, (Cmp_spec y x) by done. unfold bits. rewrite <- El.
    rewrite bits_lt_n by (rewrite Z2Nat.id; rewrite ?El in *; lia).
    assert (Ev : x = y <-> val x = val y).
    { split; [by intros ->|]. intros Ev. apply bits_inj; [done|done|]. unfold bits. by rewrite El, Ev. }
    rewrite Ev. bool_cases; split_and!; split; intros; try lia; auto.
  - assert (x ≠ y) by (intros ->; done). unfold Cmp.
    bool_cases; split_and!; split; intros; try lia; try done; auto.
Qed.

Lemma Cmp_orders_witness :
  Cmp (path_of [true; true]) (path_of [false; false; true]) = -1 /\
  Cmp (path_of [true; true]) (path_of [true; false]) ≠ -1.
Proof.
  split.
  - apply (Cmp_orders (path_of [true; true]) (path_of [false; false; true]));
      [apply path_of_wf; simpl; lia|apply path_of_wf; simpl; lia|]. left. simpl. lia.
  - discriminate.
Defined.

(** the encoding of a path can be read back, so different paths have
    different encodings; it takes one byte more than the bits of the path. *)
Theorem encoding_roundtrip b :
  wf b ->
  UnmarshalBinary (EncodedBytes b) = Ok b /\ Z.of_nat (length (EncodedBytes b)) = EncodedLen b /\
  forall buf, BitArray.Write buf b = buf ++ EncodedBytes b.
Proof.
  intros Hb. split_and!; [by apply decode_encode| |].
  - rewrite EncodedBytes_spec, length_app, length_be_bytes by done. unfold EncodedLen.
    destruct (activeBytes_spec b Hb). simpl. lia.
  - intros buf. unfold BitArray.Write, EncodedBytes. rewrite <- app_assoc. f_equal.
    unfold Bytes. rewrite drop_app_le; [done|]. destruct (activeBytes_spec b Hb).
    unfold writeBytesTo, inactiveBytes. rewrite !length_app, !length_be_bytes. lia.
Qed.

Lemma encoding_roundtrip_witness : UnmarshalBinary [5; 3] = Ok (path_of [true; false; true]).
Proof.
  apply (encoding_roundtrip (path_of [true; false; true])). apply path_of_wf. simpl; lia.
Defined.

(** A path made of bytes, of any number of them, is the low bits of the
    big-endian integer of the first 32; a field element below [2 ^ n] is
    read back from its path of [n] bits, and a path of at most 251 bits from
    its field element. *)
Theorem bytes_and_felts {F : Type} `{!FieldElement F} `{!FieldElementLaws F} n l (f : F) b :
  is_u8 n -> is_bytes l -> felt_val f < 2 ^ n -> wf b -> len b <= 251 ->
  (wf (SetBytes n l) /\ len (SetBytes n l) = n /\ val (SetBytes n l) = be_val (take 32 l) mod 2 ^ n) /\
  to_felt (SetFelt n f) = f /\ SetFelt (len b) (to_felt b : F) = b.
Proof.
  intros Hn Hl Hf Hb Hlb. pose proof (wf_len _ Hb). pose proof (wf_val _ Hb).
  pose proof (val_nonneg b (wf_words _ Hb)). split; [by apply SetBytes_spec|]. split.
  - destruct (SetFelt_spec n f Hn) as (Hw & _ & Hv). apply felt_val_inj.
    pose proof (felt_val_range f). rewrite to_felt_val, Hv by apply Hw.
    rewrite (Z.mod_small _ (2 ^ n)), Z.mod_small by lia. done.
  - destruct (SetFelt_spec (len b) (to_felt b : F)) as (Hw & Hlen & Hv); [lia|].
    rewrite to_felt_val in Hv by apply Hb.
    assert (val b < stark_prime).
    { pose proof (Z.pow_le_mono_r 2 (len b) 251). unfold stark_prime. lia. }
    apply bits_inj; [done|done|]. unfold bits. rewrite Hlen, Hv. by rewrite (Z.mod_small _ stark_prime), Z.mod_small by lia.
Qed.

Lemma bytes_and_felts_witness :
  val (SetBytes 10 [255; 3]) = 768 + 3 /\ to_felt (SetFelt 8 (stark 200)) = stark 200 /\
  SetFelt 3 (to_felt (path_of [true; false; true]) : StarkField) = path_of [true; false; true].
Proof.
  assert (Hb : is_bytes [255; 3]) by (repeat constructor; lia).
  destruct (bytes_and_felts (F:=StarkField) 10 [255; 3] (stark 200) (path_of [true; false; true]))
    as ((_ & _ & Hv) & _ & Hs);
    [lia|exact Hb|reflexivity|apply path_of_wf; simpl; lia|simpl; lia|].
  split_and!; [exact Hv|reflexivity|exact Hs].
Defined.
