(* ===== verification/TrieRep.v ===== *)
(** * What a node of the trie stands for

    [rep n pre t]: the node [n], found under the path [pre], stands for the tree
    [t].  Nodes that are not loaded are hash nodes; they stand for the tree
    whose nodes the database holds under [pre] ([stored]).  A cached hash is the
    Merkle hash of the tree, and a node that is not dirty is in the database.
    Resolving a hash node gives a node that stands for the same tree. *)
From stdpp Require Import prelude gmap list.
From Stdlib Require Import ZArith Lia.
From S2P Require Import Prelude Felt BitArray BitArrayFacts BitArrayCodec.
From S2P Require Import TrieNode Trie TrieSpec TrieTrace.

Local Open Scope Z_scope.

Section rep.
Context {F : Type} `{!FieldElement F} `{!FieldElementLaws F}.
Variables (hashFn : F -> F -> F) (reader : option (dbReader (F:=F))) (own : F) (ht : nat).
Hypothesis ht_ok : (ht <= 255)%nat.

Abbreviation tnode := (node F).
Abbreviation tree := (stree F).
Abbreviation sh := (shash hashFn).

(** ** The database *)

(** The blob of the root of a tree. *)
Definition node_blob (t : tree) : list Z :=
  match t with
  | SLeaf v => felt_Bytes v
  | SBin l r => [binaryNodeType] ++ felt_Bytes (sh l) ++ felt_Bytes (sh r)
  | SEdge p c => [edgeNodeType] ++ felt_Bytes (sh c) ++ EncodedBytes (path_of p)
  end.

Definition at_path (pre : list bool) (t : tree) : Prop :=
  reader_node reader own (path_of pre) (sh t) false = Ok (node_blob t).

(** The inner nodes of a tree are in the database. *)
Fixpoint stored (pre : list bool) (t : tree) : Prop :=
  match t with
  | SLeaf _ => True
  | SBin l r => at_path pre t /\ stored (pre ++ [false]) l /\ stored (pre ++ [true]) r
  | SEdge p c => at_path pre t /\ stored (pre ++ p) c
  end.

(** ** Nodes *)

Definition flag_ok (fl : nodeFlag F) (pre : list bool) (t : tree) : Prop :=
  (forall h, fHash fl = Some h -> h = sh t) /\ (Dirty fl = false -> stored pre t).

Inductive rep : tnode -> list bool -> tree -> Prop :=
| rep_value v pre : rep (NValue v) pre (SLeaf v)
| rep_hash pre t : is_leaf t = false -> stored pre t -> rep (NHash (sh t)) pre t
| rep_bin l r fl pre tl tr :
    rep l (pre ++ [false]) tl -> rep r (pre ++ [true]) tr -> flag_ok fl pre (SBin tl tr) ->
    rep (NBinary l r fl) pre (SBin tl tr)
| rep_edge c p fl pre tc :
    rep c (pre ++ p) tc -> flag_ok fl pre (SEdge p tc) ->
    rep (NEdge c (path_of p) fl) pre (SEdge p tc).

Definition orep (n : tnode) (pre : list bool) (t : option tree) : Prop :=
  match t with Some t => rep n pre t | None => n = NNil end.

Lemma new_flag_ok pre t : flag_ok NewNodeFlag pre t.
Proof. split; done. Qed.

Lemma rep_not_nil n pre t : rep n pre t -> n ≠ NNil.
Proof. by destruct 1. Qed.

(** ** Decoding *)

Lemma Write_encoded buf b : wf b -> BitArray.Write buf b = buf ++ EncodedBytes b.
Proof.
  clear ht_ok. intros Hb. unfold BitArray.Write, EncodedBytes. rewrite <- app_assoc. f_equal.
  unfold Bytes. rewrite drop_app_le; [done|]. destruct (activeBytes_spec b Hb).
  unfold writeBytesTo, inactiveBytes. rewrite !length_app, !length_be_bytes. lia.
Qed.

Lemma length_encoded b : wf b -> length (EncodedBytes b) = S (Z.to_nat (activeBytes b)).
Proof.
  clear ht_ok. intros Hb. rewrite EncodedBytes_spec, length_app, length_be_bytes by done. simpl. lia.
Qed.

(** A reference of 32 bytes: a value at the full depth, else a hash. *)
Definition ref_at (n : nat) (x : F) : tnode := if decide (n = ht) then NValue x else NHash x.

Lemma decode_ref k n x hash :
  (n <= ht)%nat ->
  DecodeNode_fuel (S k) (Z.of_nat ht) (felt_Bytes x) hash (Z.of_nat n) = Ok (ref_at n x).
Proof.
  intros Hn. pose proof (felt_bytes_length x) as Hl. simpl.
  destruct (felt_Bytes x) as [|b0 rest] eqn:Eb; [done|]. rewrite <- Eb in *.
  destruct (Z.ltb_spec (Z.of_nat ht) (Z.of_nat n)); [lia|].
  unfold decodeValueNode, decodeHashNode, ref_at. rewrite Hl. simpl Z.of_nat.
  rewrite felt_SetBytes_Bytes. destruct (Z.eqb_spec (Z.of_nat n) (Z.of_nat ht)); simpl;
    (destruct (decide (n = ht)); [|try lia]); by try lia.
Qed.

(** An inner node above the full depth. *)
Lemma decode_inner k b rest hash n :
  (n < ht)%nat -> length rest ≠ 31%nat ->
  DecodeNode_fuel (F:=F) (S k) (Z.of_nat ht) (b :: rest) hash (Z.of_nat n) =
    if b =? binaryNodeType then
      decodeBinaryNode (DecodeNode_fuel k (Z.of_nat ht)) rest hash (Z.of_nat n)
    else if b =? edgeNodeType then
      decodeEdgeNode (DecodeNode_fuel k (Z.of_nat ht)) rest hash (Z.of_nat n) (Z.of_nat ht)
    else Panic.
Proof.
  intros Hn Hl. simpl. destruct (Z.ltb_spec (Z.of_nat ht) (Z.of_nat n)); [lia|].
  destruct (Z.eqb_spec (Z.of_nat n) (Z.of_nat ht)); [lia|].
  unfold decodeHashNode, hashOrValueNodeSize.
  by destruct (Z.eqb_spec (Z.of_nat (length (b :: rest))) 32); [simpl in *; lia|].
Qed.

Lemma decode_binary l r hash n :
  (n < ht)%nat ->
  DecodeNode (node_blob (SBin l r)) hash (Z.of_nat n) (Z.of_nat ht) =
    Ok (NBinary (ref_at (S n) (sh l)) (ref_at (S n) (sh r)) (decodedFlag hash)).
Proof.
  intros Hn. unfold DecodeNode, node_blob. cbn [app length].
  pose proof (felt_bytes_length (sh l)) as Hl. pose proof (felt_bytes_length (sh r)) as Hr.
  assert (E : length (felt_Bytes (sh l) ++ felt_Bytes (sh r)) = 64%nat) by (rewrite length_app; lia).
  rewrite decode_inner by (done || lia). rewrite E. cbn [Z.eqb binaryNodeType Pos.eqb].
  unfold decodeBinaryNode, hashOrValueNodeSize. rewrite E.
  destruct (Z.ltb_spec (Z.of_nat 64) (2 * 32)); [lia|].
  rewrite take_app_length', drop_app_length' by done.
  rewrite u8_small by lia. replace (Z.of_nat n + 1) with (Z.of_nat (S n)) by lia.
  rewrite !(decode_ref 64) by lia. done.
Qed.

Lemma decode_edge p c hash n :
  p ≠ [] -> (n + length p <= ht)%nat ->
  DecodeNode (node_blob (SEdge p c)) hash (Z.of_nat n) (Z.of_nat ht) =
    Ok (NEdge (ref_at (n + length p) (sh c)) (path_of p) (decodedFlag hash)).
Proof.
  intros Hp Hn. destruct (path_of_spec p) as [Hw Eb]; [lia|].
  assert (0 < length p)%nat by (destruct p; [done|simpl; lia]).
  unfold DecodeNode, node_blob. cbn [app length]. pose proof (felt_bytes_length (sh c)) as Hc.
  pose proof (length_encoded _ Hw) as He. destruct (activeBytes_spec _ Hw) as [Ha1 Ha2].
  change (len (path_of p)) with (Z.of_nat (length p)) in Ha2.
  remember (Z.to_nat (activeBytes (path_of p))) as k eqn:Ek.
  assert (E : length (felt_Bytes (sh c) ++ EncodedBytes (path_of p)) = (33 + k)%nat)
    by (rewrite length_app; lia).
  rewrite decode_inner by lia. rewrite E. cbn [Z.eqb binaryNodeType edgeNodeType Pos.eqb].
  unfold decodeEdgeNode. rewrite E. unfold edgeNodeMaxSize, hashOrValueNodeSize.
  destruct (Z.ltb_spec (33 + 32) (Z.of_nat (33 + k))); [lia|].
  destruct (Z.ltb_spec (Z.of_nat (33 + k)) 32); [lia|].
  cbn [orb]. rewrite take_app_length', drop_app_length' by done.
  assert (Eref : ref_at n (sh c) = NHash (sh c)) by (unfold ref_at; by rewrite decide_False by lia).
  rewrite (decode_ref (33 + k)), Eref by lia. unfold mbind, outcome_bind. rewrite decode_encode by done.
  unfold Len. change (len (path_of p)) with (Z.of_nat (length p)).
  rewrite u8_small by lia. unfold ref_at.
  destruct (Z.eqb_spec (Z.of_nat n + Z.of_nat (length p)) (Z.of_nat ht)).
  - by rewrite decide_True by lia.
  - by rewrite decide_False by lia.
Qed.

(** ** Resolving *)

(** A reference to a stored tree stands for it. *)
Lemma rep_ref pre h (t : tree) :
  canon h t -> (length pre + h = ht)%nat -> stored pre t -> rep (ref_at (length pre) (sh t)) pre t.
Proof.
  intros Hc Hl Hs. pose proof (canon_leaf_iff _ _ Hc) as Hleaf. unfold ref_at.
  destruct (decide (length pre = ht)) as [E|E].
  - rewrite bool_decide_true in Hleaf by lia. destruct t; try done. constructor.
  - rewrite bool_decide_false in Hleaf by lia. by constructor.
Qed.

Lemma decoded_flag_ok h pre (t : tree) : h = sh t -> stored pre t -> flag_ok (decodedFlag (Some h)) pre t.
Proof.
  intros -> Hs. split; [|done]. intros x. simpl. destruct (felt_IsZero (sh t)); [done|]. by intros [= <-].
Qed.

(** No inner node hashes to zero: zero stands for an absent node. *)
Definition hash_nonzero : Prop :=
  forall h (t : tree), canon h t -> (h <= 255)%nat -> is_leaf t = false -> sh t ≠ felt_Zero.

(** A decoded node is not modified and has its hash. *)
Definition loaded (n : tnode) : Prop :=
  match n with
  | NBinary l r fl => Dirty fl = false /\ hashes_ok l /\ hashes_ok r /\ (hash_nonzero -> is_Some (fHash fl))
  | NEdge c _ fl => Dirty fl = false /\ hashes_ok c /\ (hash_nonzero -> is_Some (fHash fl))
  | _ => False
  end.

Lemma loaded_ok n : loaded n -> hash_nonzero -> hashes_ok n /\ cached n.
Proof.
  destruct n as [|l r fl|c p fl| |]; simpl; try done.
  - intros (Hd & ? & ? & Hh) Hz%Hh. rewrite Hd. by split_and!.
  - intros (Hd & ? & Hh) Hz%Hh. rewrite Hd. by split_and!.
Qed.

Lemma ref_hashes_ok n x : hashes_ok (ref_at n x).
Proof. unfold ref_at. by destruct (decide _). Qed.

Lemma decoded_flag_hash h (t : tree) :
  canon h t -> (h <= 255)%nat -> is_leaf t = false -> hash_nonzero ->
  is_Some (fHash (decodedFlag (Some (sh t)))).
Proof.
  intros Hc Hh Hl Hz. simpl. unfold felt_IsZero. rewrite bool_decide_false; [by eexists|]. by eapply Hz.
Qed.

Lemma resolve_rep pre h (t : tree) :
  canon h t -> is_leaf t = false -> (length pre + h = ht)%nat -> stored pre t ->
  exists n, resolve reader (Z.of_nat ht) own (Some (sh t)) (path_of pre) = Ok n /\
    rep n pre t /\ is_inner n = true /\ loaded n.
Proof.
  intros Hc Hleaf Hl Hs. pose proof (decoded_flag_hash h t Hc ltac:(lia) Hleaf) as Hz.
  rewrite (canon_leaf_iff _ _ Hc) in Hleaf.
  apply bool_decide_eq_false_1 in Hleaf. unfold resolve. simpl default. unfold Len. simpl len.
  destruct (Z.eqb_spec (Z.of_nat (length pre)) (Z.of_nat ht)); [lia|].
  destruct t as [v|l r|p c]; [by destruct Hc|..].
  - pose proof Hs as (Hat & Hsl & Hsr). rewrite Hat. destruct Hc as (h' & -> & Hcl & Hcr).
    rewrite decode_binary by lia. eexists; split_and!; [done| |done|by split_and!; [|apply ref_hashes_ok..|]].
    assert (El : forall b, length (pre ++ [b]) = S (length pre)) by (intros; rewrite length_app; simpl; lia).
    constructor.
    + rewrite <- (El false). eapply rep_ref; [done|rewrite El; lia|done].
    + rewrite <- (El true). eapply rep_ref; [done|rewrite El; lia|done].
    + by apply decoded_flag_ok.
  - pose proof Hs as (Hat & Hsc). rewrite Hat. destruct Hc as (Hp & _ & h' & -> & Hcc).
    rewrite decode_edge by (done || lia). eexists; split_and!; [done| |done|by split_and!; [|apply ref_hashes_ok|]].
    constructor.
    + rewrite <- length_app. eapply rep_ref; [done|rewrite length_app; lia|done].
    + by apply decoded_flag_ok.
Qed.

End rep.
