(* ===== verification/TrieNodeFacts.v ===== *)
(** * Encoded nodes and node sets

    Decoding gives back the node that was encoded, and merging node sets keeps
    the counters of updated and deleted nodes exact; then paths as sequences of
    bits. *)
From stdpp Require Import prelude gmap list fin_maps sorting.
From Stdlib Require Import ZArith Lia.
From S2P Require Import Prelude Felt BitArray BitArrayFacts BitArrayCodec TrieNode Trie TrieSpec TrieRep.

Local Open Scope Z_scope.

Section nodes.
Context {F : Type} `{!FieldElement F} `{!FieldElementLaws F}.

Abbreviation tnode := (node F).
Abbreviation tset := (NodeSet (F:=F)).

(** ** Encoding *)

(** A reference to a child at depth [n]: a value at the height of the trie,
    a hash above it. *)
Definition is_ref (ht n : Z) (c : tnode) : bool :=
  match c with
  | NValue _ => n =? ht
  | NHash _ => negb (n =? ht)
  | _ => false
  end.

(** The nodes a commit encodes at depth [n] of a trie of height [ht]. *)
Definition encodable (ht n : Z) (c : tnode) : Prop :=
  match c with
  | NBinary l r _ => n < ht /\ is_ref ht (n + 1) l = true /\ is_ref ht (n + 1) r = true
  | NEdge c p _ => wf p /\ 0 < len p /\ n + len p <= ht /\ is_ref ht (n + len p) c = true
  | _ => is_ref ht n c = true
  end.

(** A node with the flag of a decoded node. *)
Definition set_flag (c : tnode) (fl : nodeFlag F) : tnode :=
  match c with
  | NBinary l r _ => NBinary l r fl
  | NEdge c p _ => NEdge c p fl
  | _ => c
  end.

(** The element a reference holds. *)
Definition ref_val (c : tnode) : F := match c with NValue v | NHash v => v | _ => felt_Zero end.

Lemma ref_at_val ht n c : is_ref (Z.of_nat ht) (Z.of_nat n) c = true -> ref_at ht n (ref_val c) = c.
Proof.
  unfold ref_at. destruct c; simpl; try done; intros E; bool_hyps.
  - by rewrite decide_False by lia.
  - by rewrite decide_True by lia.
Qed.

Lemma Write_ref ht n c : is_ref ht n c = true -> TrieNode.Write c = Ok (felt_Bytes (ref_val c)).
Proof. by destruct c. Qed.

(** decoding the encoding of a node, at its depth and for the height of
    the trie, gives the node back, with its children as references, its hash
    cached when one was given, and not dirty. *)
Theorem DecodeNode_EncodeNode (ht n : nat) (c : tnode) hash :
  (ht <= 255)%nat -> (n <= ht)%nat -> encodable (Z.of_nat ht) (Z.of_nat n) c ->
  exists blob, EncodeNode c = Ok blob /\
    DecodeNode blob hash (Z.of_nat n) (Z.of_nat ht) = Ok (set_flag c (decodedFlag hash)).
Proof.
  intros Hht Hn Hc. unfold EncodeNode.
  assert (Hleaf : is_ref (Z.of_nat ht) (Z.of_nat n) c = true ->
            exists blob, TrieNode.Write c = Ok blob /\
              DecodeNode blob hash (Z.of_nat n) (Z.of_nat ht) = Ok c).
  { intros Hr. rewrite (Write_ref _ _ _ Hr). eexists. split; [done|]. unfold DecodeNode.
    rewrite (decode_ref ht), ref_at_val by done. done. }
  destruct c as [|l r fl|c p fl|h|v]; simpl in Hc; [done| | |by apply Hleaf|by apply Hleaf].
  - destruct Hc as (Hlt & Hl & Hr). replace (Z.of_nat n + 1) with (Z.of_nat (S n)) in * by lia.
    simpl. rewrite (Write_ref _ _ _ Hl), (Write_ref _ _ _ Hr). eexists. split; [done|].
    pose proof (decode_binary (fun x _ => x) ht Hht (SLeaf (ref_val l)) (SLeaf (ref_val r)) hash n) as E.
    simpl in E. rewrite E by lia. by rewrite !ref_at_val.
  - destruct Hc as (Hw & Hp & Hle & Hr). pose proof (wf_len _ Hw).
    replace (Z.of_nat n + len p) with (Z.of_nat (n + length (bits p))) in Hr by (rewrite length_bits; lia).
    simpl. rewrite (Write_ref _ _ _ Hr). eexists. split; [done|].
    assert (Hne : bits p ≠ []).
    { intros E. pose proof (length_bits p) as El. rewrite E in El. simpl in El. lia. }
    pose proof (decode_edge (fun x _ => x) ht Hht (bits p) (SLeaf (ref_val c)) hash n Hne) as E.
    simpl in E. rewrite path_of_bits in E by done. rewrite Write_encoded by done.
    simpl. rewrite E by (rewrite length_bits; lia). by rewrite ref_at_val.
Qed.

(** ** Node sets *)

(** The number of deleted ([b = true]) or written nodes of a set. *)
Definition count_nodes (b : bool) (m : gmap BitArray (TrieNode F)) : Z :=
  Z.of_nat (size (filter (fun x => is_deleted x.2 = b) m)).

Definition one_if (b : bool) : Z := if b then 1 else 0.

Lemma count_insert_fresh b m p n :
  m !! p = None -> count_nodes b (<[p := n]> m) = count_nodes b m + one_if (bool_decide (is_deleted n = b)).
Proof.
  intros Hp. unfold count_nodes. case_bool_decide as E; simpl.
  - rewrite map_filter_insert_True by done. rewrite map_size_insert_None; [simpl; lia|].
    by apply map_lookup_filter_None_2; left.
  - rewrite map_filter_insert_False by done. rewrite delete_id by done. lia.
Qed.

Lemma count_split b m p :
  count_nodes b m = count_nodes b (base.delete p m) +
    match m !! p with Some n => one_if (bool_decide (is_deleted n = b)) | None => 0 end.
Proof.
  destruct (m !! p) as [n|] eqn:E.
  - rewrite <- (insert_delete_id m p n E) at 1. rewrite count_insert_fresh; [done|]. apply lookup_delete_eq.
  - rewrite delete_id by done. lia.
Qed.

Lemma count_insert b m p n :
  count_nodes b (<[p := n]> m) =
    count_nodes b m - match m !! p with Some x => one_if (bool_decide (is_deleted x = b)) | None => 0 end
    + one_if (bool_decide (is_deleted n = b)).
Proof.
  rewrite <- insert_delete_eq, count_insert_fresh by apply lookup_delete_eq.
  rewrite (count_split b m p). lia.
Qed.

(** The counters are the numbers of nodes, as [int]s. *)
Definition counts_ok (ns : tset) : Prop :=
  updates ns = i64 (count_nodes false (Nodes ns)) /\ deletes ns = i64 (count_nodes true (Nodes ns)).

Lemma i64_add x y : i64 (i64 x + y) = i64 (x + y).
Proof.
  unfold i64. f_equal.
  replace ((x + 2 ^ 63) mod 2 ^ 64 - 2 ^ 63 + y + 2 ^ 63) with ((x + 2 ^ 63) mod 2 ^ 64 + y) by lia.
  rewrite Zplus_mod_idemp_l. f_equal. lia.
Qed.

Lemma merge_one_counts ns p n : counts_ok ns -> counts_ok (merge_one ns p n).
Proof.
  intros [Hu Hd]. unfold counts_ok, merge_one.
  destruct (Nodes ns !! p) as [x|] eqn:E; [destruct (is_deleted x) eqn:Ex|]; simpl;
    rewrite !count_insert, E, ?Ex, Hu, Hd; destruct (is_deleted n); simpl;
    split; unfold Z.sub; rewrite ?i64_add, <- ?Z.add_assoc, ?i64_add; f_equal; lia.
Qed.

Lemma foldl_merge_nodes l (ns : tset) :
  Nodes (foldl (fun ns '(p, n) => merge_one ns p n) ns l) =
    foldl (fun m '(p, n) => <[p := n]> m) (Nodes ns) l.
Proof.
  revert ns. induction l as [|[p n] l IH]; intros ns; simpl; [done|]. rewrite IH. f_equal.
  unfold merge_one. destruct (Nodes ns !! p) as [x|]; [by destruct (is_deleted x)|done].
Qed.

Lemma foldl_insert_list (l : list (BitArray * TrieNode F)) (m : gmap BitArray (TrieNode F)) :
  NoDup l.*1 -> foldl (fun m '(p, n) => <[p := n]> m) m l = list_to_map l ∪ m.
Proof.
  revert m. induction l as [|[p n] l IH]; intros m Hd; simpl; [by rewrite (left_id_L ∅ (∪))|].
  apply NoDup_cons in Hd as [Hp Hd]. rewrite IH by done.
  apply not_elem_of_list_to_map_1 in Hp.
  rewrite <- insert_union_r by done. by rewrite insert_union_l.
Qed.

Lemma foldl_merge_ok l ns :
  counts_ok ns ->
  counts_ok (foldl (fun ns '(p, n) => merge_one ns p n) ns l) /\
  Owner (foldl (fun ns '(p, n) => merge_one ns p n) ns l) = Owner ns.
Proof.
  revert ns. induction l as [|[p n] l IH]; intros ns Hc; simpl; [done|].
  destruct (IH (merge_one ns p n)) as [? Ho]; [by apply merge_one_counts|]. split; [done|].
  rewrite Ho. unfold merge_one. destruct (Nodes ns !! p) as [x|]; [by destruct (is_deleted x)|done].
Qed.

(** merging node sets of the same owner, in whatever order the map of
    nodes is iterated, gives the union in which the merged set's nodes take
    precedence, and the counters of the result are the exact numbers of
    written and of deleted nodes, also for paths both sets have. *)
Theorem Merge_exact (ns other : tset) order :
  counts_ok ns -> order ≡ₚ map_to_list (Nodes other) -> Owner other = Owner ns ->
  exists ns', Merge ns (Owner other) order = Some ns' /\
    Nodes ns' = Nodes other ∪ Nodes ns /\ Owner ns' = Owner ns /\ counts_ok ns'.
Proof.
  intros Hc Hp Ho. unfold Merge. rewrite bool_decide_true by done. eexists. split; [done|].
  destruct (foldl_merge_ok order ns Hc) as [Hc' Ho']. split_and!; [|done|done].
  rewrite foldl_merge_nodes, foldl_insert_list.
  - f_equal. rewrite <- (list_to_map_to_list (Nodes other)). apply list_to_map_proper; [|done].
    rewrite Hp. apply NoDup_fst_map_to_list.
  - rewrite Hp. apply NoDup_fst_map_to_list.
Qed.

(** ** Iteration *)

(** Shorter paths first, and the paths of a length by their value. *)
Definition path_lt (x y : BitArray) : Prop := len x < len y \/ (len x = len y /\ val x < val y).

Lemma Cmp_cases x y :
  wf x -> wf y ->
  (Cmp x y = -1 /\ path_lt x y) \/ (Cmp x y = 0 /\ len x = len y /\ val x = val y) \/ (Cmp x y = 1 /\ path_lt y x).
Proof.
  intros Hx Hy. unfold path_lt. destruct (Z.eq_dec (len x) (len y)) as [E|N].
  - rewrite Cmp_spec by done. bool_cases; lia.
  - unfold Cmp. bool_cases; lia.
Qed.

Lemma Cmp_lt x y : wf x -> wf y -> (Cmp x y <? 0) = true <-> path_lt x y.
Proof.
  intros Hx Hy. rewrite Z.ltb_lt. unfold path_lt.
  destruct (Cmp_cases x y Hx Hy) as [[-> H]|[[-> H]|[-> H]]]; unfold path_lt in H; lia.
Qed.

Lemma Cmp_gt x y : wf x -> wf y -> (0 <? Cmp x y) = true <-> path_lt y x.
Proof.
  intros Hx Hy. rewrite Z.ltb_lt. unfold path_lt.
  destruct (Cmp_cases x y Hx Hy) as [[-> H]|[[-> H]|[-> H]]]; unfold path_lt in H; lia.
Qed.

Lemma path_lt_total x y : wf x -> wf y -> x ≠ y -> path_lt x y \/ path_lt y x.
Proof.
  intros Hx Hy Hne. unfold path_lt.
  assert (len x ≠ len y \/ val x ≠ val y); [|lia].
  destruct (Z.eq_dec (len x) (len y)) as [El|]; [right|by left]. intros Ev.
  apply Hne. apply val_inj; [apply Hx|apply Hy|done|done].
Qed.

(** The order of an iteration. *)
Definition visit_lt (desc : bool) (x y : BitArray * TrieNode F) : Prop :=
  if desc then path_lt y.1 x.1 else path_lt x.1 y.1.

Lemma less_spec (desc : bool) (x y : BitArray * TrieNode F) :
  wf x.1 -> wf y.1 ->
  (if desc then 0 <? Cmp x.1 y.1 else Cmp x.1 y.1 <? 0) = true <-> visit_lt desc x y.
Proof. intros Hx Hy. destruct desc; [by apply Cmp_gt|by apply Cmp_lt]. Qed.

(** [ForEach] calls its callback once for every node of the set, in the
    strict order of the paths (ancestors before descendants, or the reverse
    for a descending iteration), until the callback fails. *)
Theorem ForEach_in_order desc (ns : tset) :
  map_Forall (fun p _ => wf p) (Nodes ns) ->
  exists l, l ≡ₚ map_to_list (Nodes ns) /\ StronglySorted (visit_lt desc) l /\
    forall S E (callback : BitArray -> TrieNode F -> SE S E unit),
      ForEach desc ns callback = foldr (fun x k => callback x.1 x.2;; k) (mret tt) l.
Proof.
  intros Hw. assert (Hok : Forall (fun x : BitArray * TrieNode F => wf x.1) (map_to_list (Nodes ns))).
  { apply Forall_forall. intros [p n] Hin. apply elem_of_map_to_list in Hin. by apply (Hw p n). }
  exists (ordered_nodes desc ns). split_and!; [apply sort_slice_perm| |done].
  assert (Hd : NoDup (map_to_list (Nodes ns)).*1) by apply NoDup_fst_map_to_list.
  eapply (sort_slice_sorted _ (visit_lt desc) (fun x => wf x.1 /\ Nodes ns !! x.1 = Some x.2)).
  - intros x y [Hx _] [Hy _]. by apply less_spec.
  - intros x y z. unfold visit_lt, path_lt. destruct desc; lia.
  - intros [p n] [q m] [Hp En] [Hq Em] Hne. simpl in *.
    assert (p ≠ q) by (intros ->; congruence). unfold visit_lt. simpl.
    destruct desc; [|by apply path_lt_total]. by destruct (path_lt_total q p) as [|]; auto.
  - apply Forall_forall. intros [p n] Hin. pose proof Hin as Hin'. apply elem_of_map_to_list in Hin'.
    split; [by eapply Forall_forall in Hok|done].
  - by apply NoDup_fmap_1 in Hd.
Qed.

End nodes.

(** * Paths as sequences of bits

    The operations the trie applies to paths, on arrays given by sequences: each
    is the operation on sequences. *)

(** Two arrays with the bits of a sequence. *)
Lemma path_eq b l : wf b -> bits b = l -> b = path_of l.
Proof. intros Hb <-. symmetry. by apply path_of_bits. Qed.

Lemma bits_path l : (length l <= 255)%nat -> bits (path_of l) = l.
Proof. intros Hl. by apply path_of_spec. Qed.

Lemma Len_path l : Len (path_of l) = Z.of_nat (length l).
Proof. done. Qed.

Lemma empty_path : emptyBitArray = path_of [].
Proof. done. Qed.

Lemma Set_path l : Set_ (path_of l) = path_of l.
Proof. apply Set_id. Qed.

Lemma Append_path l k :
  (length l + length k <= 255)%nat -> Append (path_of l) (path_of k) = path_of (l ++ k).
Proof.
  intros Hl. destruct (path_of_spec l) as [Wl El]; [lia|]. destruct (path_of_spec k) as [Wk Ek]; [lia|].
  destruct (Append_exact (path_of l) (path_of k)) as (W & _ & E); [done|done|simpl; lia|].
  apply path_eq; [done|congruence].
Qed.

Lemma SetBit_path (b : bool) : SetBit (Z.b2z b) = path_of [b].
Proof. by destruct b. Qed.

Lemma AppendBit_path l (b : bool) :
  (length l < 255)%nat -> AppendBit (path_of l) (Z.b2z b) = path_of (l ++ [b]).
Proof. intros Hl. unfold AppendBit. rewrite SetBit_path. apply Append_path. simpl. lia. Qed.

Lemma LSBs_path l n :
  (length l <= 255)%nat -> LSBs (path_of l) (Z.of_nat n) = path_of (drop n l).
Proof.
  intros Hl. destruct (path_of_spec l) as [Wl El]; [lia|].
  destruct (LSBs_spec (path_of l) (Z.of_nat n)) as [W E]; [done|lia|].
  apply path_eq; [done|]. rewrite E, El. by rewrite Nat2Z.id.
Qed.

Lemma MSBs_path l n :
  (length l <= 255)%nat -> MSBs (path_of l) (Z.of_nat n) = path_of (take n l).
Proof.
  intros Hl. destruct (path_of_spec l) as [Wl El]; [lia|].
  destruct (MSBs_spec (path_of l) (Z.of_nat n)) as [W E]; [done|lia|].
  apply path_eq; [done|]. rewrite E, El. by rewrite Nat2Z.id.
Qed.

Lemma LSBs1_path b l : (length (b :: l) <= 255)%nat -> LSBs (path_of (b :: l)) 1 = path_of l.
Proof. intros Hl. exact (LSBs_path (b :: l) 1 Hl). Qed.

Lemma MSBs1_path b l : (length (b :: l) <= 255)%nat -> MSBs (path_of (b :: l)) 1 = path_of [b].
Proof. intros Hl. exact (MSBs_path (b :: l) 1 Hl). Qed.

Lemma CommonPath_path l k :
  (length l <= 255)%nat -> (length k <= 255)%nat ->
  CommonPath (path_of l) (path_of k) = path_of (lcp l k).
Proof.
  intros Hl Hk. destruct (path_of_spec l) as [Wl El]; [lia|]. destruct (path_of_spec k) as [Wk Ek]; [lia|].
  destruct (CommonMSBs_spec (path_of l) (path_of k)) as [W E]; [done|done|].
  unfold CommonPath. apply path_eq; [done|]. by rewrite E, El, Ek.
Qed.

Lemma Bit_path l i :
  (length l <= 255)%nat -> Bit (path_of l) (Z.of_nat i) = Z.b2z (nth i l false).
Proof.
  intros Hl. destruct (path_of_spec l) as [Wl El]; [lia|].
  pose proof (Bit_spec (path_of l) (Z.of_nat i) Wl ltac:(lia)) as E. rewrite El, Nat2Z.id in E.
  assert (Hb : Bit (path_of l) (Z.of_nat i) = 0 \/ Bit (path_of l) (Z.of_nat i) = 1).
  { unfold Bit, BitFromLSB. repeat case_match; auto. }
  unfold IsBitSet in E. destruct Hb as [Hb|Hb]; rewrite Hb in *; simpl in E; by rewrite <- E.
Qed.

Lemma MSB_path b l : (length (b :: l) <= 255)%nat -> MSB (path_of (b :: l)) = Z.b2z b.
Proof. intros Hl. exact (Bit_path (b :: l) 0 Hl). Qed.

Lemma PathMatches_path l k :
  (length l <= length k)%nat -> (length k <= 255)%nat ->
  PathMatches (path_of l) (path_of k) = bool_decide (take (length l) k = l).
Proof.
  intros Hl Hk. destruct (path_of_spec l) as [Wl El]; [lia|]. destruct (path_of_spec k) as [Wk Ek]; [lia|].
  apply eq_bool_prop_intro. rewrite !Is_true_true, bool_decide_eq_true.
  unfold PathMatches. rewrite EqualMSBs_spec, El, Ek by done. split.
  - intros [[m ->]|[m ->]]; [by rewrite take_app_length|].
    rewrite length_app in Hl. destruct m; [|simpl in Hl; lia]. rewrite app_nil_r.
    by rewrite firstn_all.
  - intros E. left. exists (drop (length l) k). rewrite <- E at 1. by rewrite take_drop.
Qed.

(** ** Longest common prefixes *)

Lemma lcp_split l k :
  exists l' k', l = lcp l k ++ l' /\ k = lcp l k ++ k' /\
    (l' = [] \/ k' = [] \/ exists a l1 k1, l' = a :: l1 /\ k' = negb a :: k1).
Proof.
  revert k. induction l as [|a l IH]; intros k; simpl; [exists [], k; auto|].
  destruct k as [|b k]; [exists (a :: l), []; auto|].
  destruct (Bool.eqb a b) eqn:E.
  - apply Bool.eqb_prop in E as ->. destruct (IH k) as (l' & k' & E1 & E2 & Hd).
    exists l', k'. split_and!; [simpl; congruence..|done].
  - exists (a :: l), (b :: k). split_and!; [done|done|]. right; right. exists a, l, k.
    split; [done|]. f_equal. by destruct a, b.
Qed.

Lemma lcp_length_l l k : (length (lcp l k) <= length l)%nat.
Proof.
  revert k. induction l as [|a l IH]; intros [|b k]; simpl; try lia.
  destruct (Bool.eqb a b); simpl; [|lia]. specialize (IH k). lia.
Qed.

(** The common prefix is the whole first sequence when it has its length. *)
Lemma lcp_full l k :
  length (lcp l k) = length l -> lcp l k = l /\ take (length l) k = l.
Proof.
  intros Hl. destruct (lcp_split l k) as (l' & k' & E1 & E2 & _).
  assert (l' = []) as ->.
  { apply nil_length_inv. apply (f_equal length) in E1. rewrite length_app in E1. lia. }
  rewrite app_nil_r in E1. split; [done|].
  remember (lcp l k) as m eqn:Em. clear Em. subst. apply take_app_length.
Qed.

(** Sequences that differ before the end of the first. *)
Lemma lcp_differ l k :
  length (lcp l k) ≠ length l -> (length l <= length k)%nat ->
  exists a l1 k1, l = lcp l k ++ a :: l1 /\ k = lcp l k ++ negb a :: k1.
Proof.
  intros Hne Hle. destruct (lcp_split l k) as (l' & k' & E1 & E2 & [->|[->|(a & l1 & k1 & -> & ->)]]).
  - rewrite app_nil_r in E1. congruence.
  - apply (f_equal length) in E1, E2. rewrite length_app in E1, E2. simpl in E2. lia.
  - eauto.
Qed.

(** The children of a binary node. *)
Lemma child_at_bit {F} (l r : node F) (b : bool) : child_at l r (Z.b2z b) = if b then r else l.
Proof. by destruct b. Qed.

Lemma set_child_bit {F} `{!FieldElement F} (l r c : node F) (b : bool) fl :
  set_child l r (Z.b2z b) c fl = if b then NBinary l c fl else NBinary c r fl.
Proof. by destruct b. Qed.
