(* ===== verification/TrieFacts.v ===== *)
(** * Correctness of the trie operations

    [get], [insert] and [delete] on a node that stands for a canonical tree
    return (no error, no panic, within the fuel) a node that stands for the
    canonical tree of the updated map. *)
From stdpp Require Import prelude gmap list.
From Stdlib Require Import ZArith Lia.
From S2P Require Import Prelude Felt BitArray BitArrayFacts BitArrayCodec.
From S2P Require Import TrieNode Trie TrieSpec TrieTrace TrieRep TrieNodeFacts.

Local Open Scope Z_scope.

Section facts.
Context {F : Type} `{!FieldElement F} `{!FieldElementLaws F}.
Variables (hashFn : F -> F -> F) (reader : option (dbReader (F:=F))) (own : F) (ht : nat).
Hypothesis ht_ok : (ht <= 255)%nat.

Abbreviation tnode := (node F).
Abbreviation tree := (stree F).
Abbreviation sh := (shash hashFn).
Abbreviation Rep := (rep hashFn reader own).
Abbreviation ORep := (orep hashFn reader own).
Abbreviation trie := (Trie (F:=F)).
Abbreviation Tidy := (tidy (hash_nonzero hashFn)).
Abbreviation Reload := (reload (hash_nonzero hashFn)).
Implicit Types (s : trie) (n : tnode) (t : tree) (pre k : list bool).

(** The trie the reader and the height belong to. *)
Definition st_ok s : Prop := height s = Z.of_nat ht /\ owner s = own.

(** Fuel for a descent from a node with [h] bits of key left. *)
Definition need n (h : nat) : nat := 2 * h + match n with NHash _ => 2 | _ => 1 end.

Lemma wp_resolveNode pre h t s Q :
  st_ok s -> canon h t -> is_leaf t = false -> (length pre + h = ht)%nat ->
  stored hashFn reader own pre t ->
  (forall n, Rep n pre t -> is_inner n = true -> loaded hashFn n -> Q n s) ->
  wp (resolveNode reader (Some (sh t)) (path_of pre)) Q s.
Proof using ht_ok FieldElementLaws0.
  intros [Eh Eo] Hc Hl Hlen Hs HQ. unfold resolveNode. wp_steps. rewrite Eh, Eo.
  destruct (resolve_rep hashFn reader own ht ht_ok pre h t) as (n & E & Hr & Hi & Hld); [done..|].
  rewrite E. eapply wp_intro; [done|]. by apply HQ.
Qed.

Lemma loaded_reload x n n' pre : loaded hashFn n -> Reload n n' pre -> Reload (NHash x) n' pre.
Proof.
  intros Hld [[Hh Hc] Hf]. split.
  - apply tidy_hash. intros Hz. destruct (loaded_ok _ _ Hld Hz). auto.
  - intros Hz _. destruct (loaded_ok _ _ Hld Hz). auto.
Qed.

Lemma loaded_tidy x n n' pre : loaded hashFn n -> Tidy n n' pre -> Tidy (NHash x) n' pre.
Proof. intros Hld [Hh Hc]. apply tidy_hash. intros Hz. destruct (loaded_ok _ _ Hld Hz). auto. Qed.

Lemma inner_need n h : is_inner n = true -> need n h = (2 * h + 1)%nat.
Proof using. by destruct n. Qed.

Lemma need_le n h : (need n h <= 2 * h + 2)%nat.
Proof using. clear ht_ok ht; destruct n; unfold need; lia. Qed.

(** ** [get] *)

Lemma wp_trie_get fuel n pre t h k s Q :
  Rep n pre t -> canon h t -> (length pre + h = ht)%nat -> length k = h -> st_ok s ->
  (need n h <= fuel)%nat ->
  (forall n' b, Rep n' pre t -> Reload n n' pre -> Q (slookup t k, n', b) s) ->
  wp (get reader fuel n (path_of pre) (path_of k)) Q s.
Proof using ht_ok FieldElementLaws0.
  revert n pre t h k Q. induction fuel as [|fuel IH]; intros n pre t h k Q Hrep Hc Hlen Hk Hst Hfuel HQ.
  { unfold need in Hfuel. destruct n; lia. }
  pose proof Hrep as Hrep'. simpl.
  destruct Hrep as [v pre|pre t Hleaf Hs|l r fl pre tl tr Hl Hr Hfl|c p fl pre tc Hrc Hfl].
  - wp_steps. destruct Hc as [-> Hv]. apply nil_length_inv in Hk as ->. by apply (HQ _ false).
  - wp_step. eapply wp_resolveNode; [done..|]. intros n Hn Hi Hld. wp_step.
    eapply IH; [done..| |].
    + rewrite inner_need by done. unfold need in Hfuel. lia.
    + intros n' b Hn' Hre. wp_steps. apply HQ; [done|]. by eapply loaded_reload.
  - destruct Hc as (h' & -> & Hcl & Hcr). destruct k as [|b k]; [done|]. injection Hk as Hk.
    unfold need in Hfuel. rewrite MSB_path, child_at_bit, AppendBit_path by (simpl; lia).
    rewrite LSBs1_path by (simpl; lia). wp_step.
    assert (Hb : Rep (if b then r else l) (pre ++ [b]) (if b then tr else tl)) by (by destruct b).
    eapply (IH _ _ _ h'); [exact Hb|by destruct b|rewrite length_app; simpl; lia|done|done| |].
    + pose proof (need_le (if b then r else l) h'). lia.
    + intros n' res Hn' Hre. wp_steps. replace (slookup (if b then tr else tl) k) with
        (slookup (SBin tl tr) (b :: k)) by (by destruct b).
      rewrite set_child_bit. apply HQ; (destruct res; [|done]); [destruct b; by constructor|by apply reload_bin].
  - destruct Hc as (Hp & _ & h' & -> & Hcc).
    assert (0 < length p)%nat by (destruct p; [done|simpl; lia]).
    rewrite PathMatches_path by lia. simpl slookup in HQ.
    destruct (bool_decide (take (length p) k = p)) eqn:Ep; simpl negb; cbn iota.
    + unfold need in Hfuel. rewrite Append_path, Len_path, LSBs_path by lia. wp_step.
      eapply (IH _ _ _ h'); [exact Hrc|done|rewrite length_app; lia|rewrite length_drop; lia|done| |].
      * pose proof (need_le c h'). lia.
      * intros n' res Hn' Hre. wp_steps. apply HQ; (destruct res; [|done]); [by constructor|].
        apply reload_edge. by rewrite bits_path by lia.
    + wp_steps. by apply HQ.
Qed.

(** ** [insert] *)

(** An edge with a path, or the tree itself. *)
Definition sedge (p : list bool) t : tree := match p with [] => t | _ => SEdge p t end.

Lemma slookup_sedge p t k :
  slookup (sedge p t) k = if bool_decide (take (length p) k = p) then slookup t (drop (length p) k) else None.
Proof. destruct p; [simpl; by rewrite drop_0|done]. Qed.

Lemma sedge_canon p t h :
  canon h t -> is_edge t = false -> canon (length p + h) (sedge p t).
Proof. intros Hc He. destruct p as [|b p]; [done|]. split_and!; [done|done|eauto]. Qed.

(** The node of an edge with a path, or the node itself. *)
Definition nedge (p : list bool) n : tnode :=
  match p with [] => n | _ => NEdge n (path_of p) NewNodeFlag end.

Lemma nedge_rep p n pre t : Rep n (pre ++ p) t -> Rep (nedge p n) pre (sedge p t).
Proof.
  destruct p as [|b p]; simpl; [by rewrite app_nil_r|]. intros Hr. constructor; [done|apply new_flag_ok].
Qed.

(** The new node is recorded, unless it is the node itself. *)
Definition nil_event pre k (tr : nodeTracer) : nodeTracer :=
  match k with [] => tr | _ => onInsert tr (path_of pre) end.

Lemma wp_insert_nil fuel pre k value s (Q : tnode * bool -> trie -> Prop) :
  (length k <= 255)%nat ->
  Q (nedge k value, true) (set_tracer s (nil_event pre k (tracer s))) ->
  wp (insert reader (S fuel) NNil (path_of pre) (path_of k) value) Q s.
Proof.
  intros Hk HQ. simpl. unfold IsEmpty, trace_insert. destruct k as [|b k].
  - simpl in *. wp_steps. by destruct s.
  - rewrite Len_path. simpl. unfold Len; simpl. wp_steps. apply HQ.
Qed.

Lemma slookup_edge_prefix m q t y : slookup (SEdge (m ++ q) t) (m ++ y) = slookup (sedge q t) y.
Proof.
  rewrite slookup_sedge. simpl. rewrite length_app, take_app_add, drop_app_add.
  apply (f_equal (fun x : bool => if x then _ else _)). apply bool_decide_ext.
  split; [intros E; by apply app_inv_head in E|by intros ->].
Qed.

Lemma slookup_edge_other m q t y : take (length m) y ≠ m -> slookup (SEdge (m ++ q) t) y = None.
Proof.
  intros Hne. simpl. rewrite bool_decide_false; [done|]. intros E. apply Hne.
  apply (f_equal (take (length m))) in E. rewrite take_take, length_app in E.
  rewrite take_app_length in E. by replace (length m `min` (length m + length q))%nat with (length m) in E by lia.
Qed.

Lemma slookup_leaf_path k (v : F) y :
  slookup (sedge k (SLeaf v)) y = if decide (y = k) then Some v else None.
Proof.
  rewrite slookup_sedge. simpl. destruct (decide (y = k)) as [->|Hne].
  - rewrite firstn_all, drop_all, !bool_decide_true by done. done.
  - destruct (bool_decide (take (length k) y = k)) eqn:E1; [|done]. apply bool_decide_eq_true_1 in E1.
    rewrite bool_decide_false; [done|]. intros E2. apply Hne. by rewrite <- (take_drop (length k) y), E1, E2, app_nil_r.
Qed.

(** The tree after an edge is split at [m]. *)
Definition split_tree (m : list bool) (a : bool) (p k : list bool) t (v : F) : tree :=
  sedge m (if a then SBin (sedge k (SLeaf v)) (sedge p t) else SBin (sedge p t) (sedge k (SLeaf v))).

Lemma split_lookup m a p k t v x :
  slookup (split_tree m a p k t v) x =
    if decide (x = m ++ negb a :: k) then Some v else slookup (SEdge (m ++ a :: p) t) x.
Proof.
  unfold split_tree. rewrite slookup_sedge.
  destruct (bool_decide (take (length m) x = m)) eqn:Em.
  - apply bool_decide_eq_true_1 in Em.
    assert (Ex : x = m ++ drop (length m) x) by (rewrite <- Em at 1; by rewrite take_drop).
    generalize dependent (drop (length m) x). intros y ->. clear Em.
    rewrite slookup_edge_prefix.
    assert (Hd : forall z, m ++ y = m ++ z <-> y = z).
    { intros z. split; [intros E; by apply app_inv_head in E|by intros ->]. }
    destruct y as [|b y].
    { rewrite decide_False by (rewrite Hd; done). by destruct a. }
    replace (slookup (if a then SBin _ _ else SBin _ _) (b :: y)) with
      (if Bool.eqb a b then slookup (sedge p t) y else slookup (sedge k (SLeaf v)) y)
      by (by destruct a, b).
    destruct (Bool.eqb a b) eqn:Eab.
    + apply Bool.eqb_prop in Eab as ->.
      rewrite decide_False by (rewrite Hd; intros [= E _]; by destruct b).
      rewrite <- (slookup_edge_prefix [b] p t y). done.
    + rewrite slookup_leaf_path. assert (b = negb a) as -> by (by destruct a, b).
      rewrite (decide_ext (y = k) (m ++ negb a :: y = m ++ negb a :: k))
        by (rewrite Hd; split; [by intros ->|by intros [=]]).
      destruct (decide _); [done|]. symmetry. simpl. rewrite bool_decide_false; [done|].
      intros [= E _]. by destruct a.
  - apply bool_decide_eq_false_1 in Em.
    rewrite decide_False, slookup_edge_other; [done|done|]. intros ->. apply Em. apply take_app_length.
Qed.

Lemma split_canon m a p k t v h :
  canon h t -> is_edge t = false -> v ≠ felt_Zero -> length k = (length p + h)%nat ->
  canon (length m + S (length p + h)) (split_tree m a p k t v).
Proof.
  intros Hc He Hv Hk. apply sedge_canon; [|by destruct a].
  pose proof (sedge_canon p t h Hc He) as H1.
  assert (H2 : canon (length p + h) (sedge k (SLeaf v))).
  { replace (length p + h)%nat with (length k + 0)%nat by lia. by apply sedge_canon. }
  destruct a; simpl; eauto.
Qed.

(** The branch keeps what the child has. *)
Lemma split_tidy c pre m (a : bool) p k fl (v : F) :
  (length (m ++ a :: p) <= 255)%nat ->
  let br := if a then NBinary (nedge k (NValue v)) (nedge p c) NewNodeFlag
            else NBinary (nedge p c) (nedge k (NValue v)) NewNodeFlag in
  Tidy (NEdge c (path_of (m ++ a :: p)) fl) (nedge m br) pre.
Proof.
  intros Hl br.
  assert (Hk : forall (z q : list bool), hashes_ok (nedge k (NValue v : tnode)) /\ ~ clean (nedge k (NValue v : tnode)) z q).
  { intros z q. destruct k; simpl; naive_solver. }
  assert (Hp : forall (z q : list bool), (hashes_ok c -> hashes_ok (nedge p c)) /\
            (clean (nedge p c) z q -> clean c (z ++ p) q)).
  { intros z q. destruct p as [|b p]; simpl; [by rewrite app_nil_r|].
    assert (E : bits (path_of (b :: p)) = b :: p).
    { apply path_of_spec. rewrite length_app in Hl. simpl in *. lia. }
    rewrite E. split; [|done]. intros Hc. split_and!; [by intros [? ?]|done]. }
  assert (Hbr : (hashes_ok c -> hashes_ok br) /\ forall q, clean br (pre ++ m) q -> clean c (pre ++ m ++ a :: p) q).
  { subst br. split; [intros Hc|intros q].
    - destruct a; simpl; (split_and!; [by intros [? ?]|..]); first [apply (Hk [] [])|by apply (Hp [] [])].
    - rewrite (app_assoc pre), cons_middle, app_assoc. destruct a; simpl; intros [Hq|Hq];
        try (by destruct (Hk ((pre ++ m) ++ [false]) q)); try (by destruct (Hk ((pre ++ m) ++ [true]) q));
        by apply Hp in Hq. }
  assert (Em : bits (path_of m) = m) by (apply path_of_spec; rewrite length_app in Hl; lia).
  assert (Hn : (hashes_ok c -> hashes_ok (nedge m br)) /\
            forall q, clean (nedge m br) pre q -> clean c (pre ++ m ++ a :: p) q).
  { destruct Hbr as [H1 H2]. destruct m as [|b m]; [rewrite app_nil_r in H2; done|].
    split; [intros Hc; simpl; split_and!; [by intros [? ?]|auto]|].
    intros q. change (clean (nedge (b :: m) br) pre q) with (clean br (pre ++ bits (path_of (b :: m))) q).
    rewrite Em. apply H2. }
  destruct Hn as [Hn1 Hn2]. split; [intros _ (_ & ?); auto|]. intros q Hq%Hn2. simpl.
  rewrite (proj2 (path_of_spec _ Hl)). destruct (Dirty fl); [done|].
  apply clean_prefix in Hq. by apply prefix_app_l in Hq.
Qed.

Lemma locs_sedge pre p t q :
  locs pre (Some (sedge p t)) q <-> (p ≠ [] /\ q = pre) \/ locs (pre ++ p) (Some t) q.
Proof.
  destruct p as [|b p]; [rewrite app_nil_r; simpl; tauto|]. simpl sedge.
  rewrite locs_edge by done. naive_solver.
Qed.

Lemma locs_split pre m a p k t v q :
  locs pre (Some (split_tree m a p k t v)) q <->
  (m ≠ [] /\ q = pre) \/ q = pre ++ m \/ locs (pre ++ m ++ [a]) (Some (sedge p t)) q \/
  locs (pre ++ m ++ [negb a]) (Some (sedge k (SLeaf v))) q.
Proof.
  unfold split_tree. rewrite locs_sedge, !(app_assoc pre m). destruct a; rewrite locs_bin; simpl; tauto.
Qed.

(** The locations of the edge are still there, the new ones are recorded. *)
Lemma split_moves pre m a p k t v tr :
  moves pre (Some (SEdge (m ++ a :: p) t)) (Some (split_tree m a p k t v)) tr
    (let tr2 := nil_event (pre ++ m ++ [negb a]) k (nil_event (pre ++ m ++ [a]) p tr) in
     match m with [] => tr2 | _ => onInsert tr2 (path_of (pre ++ m)) end).
Proof.
  assert (Hold : forall q, locs pre (Some (SEdge (m ++ a :: p) t)) q <->
            q = pre \/ locs (pre ++ m ++ a :: p) (Some t) q).
  { intros q. apply locs_edge. by destruct m. }
  assert (Hlong : forall q, locs pre (Some (SEdge (m ++ a :: p) t)) q -> q = pre \/
            (length (pre ++ m ++ a :: p) <= length q)%nat).
  { intros q [->|Hq%locs_prefix%prefix_length]%Hold; auto. }
  assert (Hnew : forall q, (length pre < length q)%nat -> (length q < length (pre ++ m ++ a :: p))%nat ->
            ~ locs pre (Some (SEdge (m ++ a :: p) t)) q).
  { intros q H1 H2 [->|?]%Hlong; lia. }
  set (q1 := pre ++ m ++ [a]). set (q2 := pre ++ m ++ [negb a]).
  assert (H1 : p ≠ [] -> locs pre (Some (split_tree m a p k t v)) q1 /\ ~ locs pre (Some (SEdge (m ++ a :: p) t)) q1).
  { destruct p as [|b p]; [done|]. intros _. split.
    - rewrite locs_split. right. right. left. apply locs_root.
    - apply Hnew; unfold q1; rewrite !length_app; simpl; lia. }
  assert (H2 : locs pre (Some (split_tree m a p k t v)) q2 /\ ~ locs pre (Some (SEdge (m ++ a :: p) t)) q2).
  { split; [rewrite locs_split; do 3 right; apply locs_root|]. unfold q2. intros [E|Hq]%Hold.
    - apply (f_equal length) in E. rewrite !length_app in E. simpl in E. lia.
    - apply locs_prefix in Hq as [z E]. rewrite <- !app_assoc in E. do 2 apply app_inv_head in E.
      destruct a; discriminate. }
  assert (H3 : m ≠ [] -> locs pre (Some (split_tree m a p k t v)) (pre ++ m) /\
                         ~ locs pre (Some (SEdge (m ++ a :: p) t)) (pre ++ m)).
  { intros Hm. split; [rewrite locs_split; auto|].
    destruct m; [done|]. apply Hnew; rewrite !length_app; simpl; lia. }
  assert (N12 : q1 ≠ q2) by (unfold q1, q2; intros E; do 2 apply app_inv_head in E; by destruct a).
  assert (N3 : forall x, pre ++ m ++ [x] ≠ pre ++ m).
  { intros x E%(f_equal length). rewrite !length_app in E. simpl in E. lia. }
  pose proof (N3 a : q1 ≠ pre ++ m) as N13. pose proof (N3 (negb a) : q2 ≠ pre ++ m) as N23.
  pose proof (moves_inserts pre (Some (SEdge (m ++ a :: p) t)) (Some (split_tree m a p k t v)) tr
    ((if decide (p = []) then [] else [q1]) ++ (if decide (k = []) then [] else [q2]) ++
     (if decide (m = []) then [] else [pre ++ m]))) as Hmv.
  replace (foldl _ tr _) with
    (let tr2 := nil_event q2 k (nil_event q1 p tr) in
     match m with [] => tr2 | _ => onInsert tr2 (path_of (pre ++ m)) end) in Hmv
    by (by destruct p, k, m).
  apply Hmv.
  - repeat case_decide; simpl; repeat constructor; rewrite ?elem_of_cons, ?elem_of_nil; naive_solver.
  - repeat case_decide; simpl; repeat constructor; tauto.
  - intros q [->|Hq]%Hold; rewrite locs_split; [destruct m; [rewrite app_nil_r|]; auto|].
    right. right. left. rewrite locs_sedge. right. by rewrite <- !app_assoc.
Qed.

(** [insert] in an edge whose path differs from the key at bit [length m]. *)
Lemma wp_insert_split fuel c pre m a p k fl t v s (Q : tnode * bool -> trie -> Prop) :
  Rep c (pre ++ m ++ a :: p) t -> (length pre + length m + S (length k) <= 255)%nat ->
  (length p <= length k)%nat ->
  (forall n' tr, Rep n' pre (split_tree m a p k t v) -> Tidy (NEdge c (path_of (m ++ a :: p)) fl) n' pre ->
     moves pre (Some (SEdge (m ++ a :: p) t)) (Some (split_tree m a p k t v)) (tracer s) tr ->
     Q (n', true) (set_tracer s tr)) ->
  wp (insert reader (S (S fuel)) (NEdge c (path_of (m ++ a :: p)) fl) (path_of pre)
        (path_of (m ++ negb a :: k)) (NValue v)) Q s.
Proof.
  intros Hrep Hlen Hpk HQ.
  assert (El : lcp (m ++ a :: p) (m ++ negb a :: k) = m).
  { clear. induction m as [|b m IH]; simpl; [by destruct a|]. rewrite Bool.eqb_reflx. by rewrite IH. }
  assert (Ebit : forall (b : bool) q, nth (length m) (m ++ b :: q) false = b).
  { intros b q. rewrite app_nth2 by lia. by rewrite Nat.sub_diag. }
  assert (Etake : forall (b : bool) q, take (length m + 1) (m ++ b :: q) = m ++ [b]).
  { intros b q. rewrite take_app_add. simpl. by rewrite take_0. }
  assert (Edrop : forall (b : bool) q, drop (length m + 1) (m ++ b :: q) = q).
  { intros b q. rewrite drop_app_add. simpl. by rewrite drop_0. }
  assert (Hl : forall (b : bool) q, length (m ++ b :: q) = (length m + S (length q))%nat)
    by (intros; by rewrite length_app).
  cbn [insert]. rewrite Len_path, Hl.
  destruct (Z.eqb_spec (Z.of_nat (length m + S (length k))) 0); [lia|].
  rewrite CommonPath_path, El, !Len_path by (rewrite Hl; lia). rewrite Hl.
  destruct (Z.eqb_spec (Z.of_nat (length m)) (Z.of_nat (length m + S (length p)))); [lia|].
  replace (Z.of_nat (length m) + 1) with (Z.of_nat (length m + 1)) by lia.
  rewrite !MSBs_path, !LSBs_path, !Etake, !Edrop by (rewrite Hl; lia).
  rewrite take_app_length.
  rewrite !Append_path by (rewrite ?length_app; simpl; lia).
  rewrite !Bit_path, !Ebit by (rewrite Hl; lia).
  wp_step. apply (wp_insert_nil fuel); [lia|]. wp_step.
  apply (wp_insert_nil fuel); [lia|]. cbn [tracer set_tracer].
  set (br := if a then NBinary (nedge k (NValue v)) (nedge p c) NewNodeFlag
                    else NBinary (nedge p c) (nedge k (NValue v)) NewNodeFlag).
  assert (Hb : Rep br
    (pre ++ m) (if a then SBin (sedge k (SLeaf v)) (sedge p t)
                else SBin (sedge p t) (sedge k (SLeaf v)))).
  { assert (Rep (nedge p c) ((pre ++ m) ++ [a]) (sedge p t)).
    { apply nedge_rep. by rewrite <- !app_assoc. }
    assert (Rep (nedge k (NValue v)) ((pre ++ m) ++ [negb a]) (sedge k (SLeaf v))).
    { apply nedge_rep. constructor. }
    subst br. destruct a; simpl; constructor; (done || apply new_flag_ok). }
  pose proof (split_tidy c pre m a p k fl v ltac:(rewrite ?Hl; lia)) as Htidy. fold br in Htidy.
  pose proof (split_moves pre m a p k t v (tracer s)) as Hmv.
  unfold IsEmpty, trace_insert. change (len (path_of m)) with (Z.of_nat (length m)).
  destruct m as [|b m].
  - destruct (Z.eqb_spec (Z.of_nat (length (@nil bool))) 0) as [_|?]; [|simpl in *; lia].
    wp_steps. rewrite app_nil_r in Hb. subst br. destruct a; by apply HQ.
  - destruct (Z.eqb_spec (Z.of_nat (length (b :: m))) 0) as [?|_]; [simpl in *; lia|].
    wp_steps. subst br. destruct a; (apply HQ; [constructor; [done|apply new_flag_ok]|done|done]).
Qed.

(** A tree with more keys than one that is not an edge is not an edge. *)
Lemma more_keys_not_edge h t t' :
  canon h t -> is_edge t = false -> canon h t' ->
  (forall x y, slookup t x = Some y -> is_Some (slookup t' x)) -> is_edge t' = false.
Proof.
  intros Hc He Hc' Hk. destruct t' as [|l r|[|b q] d]; [done|done|by destruct Hc'|]. exfalso.
  destruct t as [v|l r|]; [|clear He|done].
  - destruct Hc as [-> _], Hc' as (_ & _ & h' & E & _). simpl in E. lia.
  - destruct (canon_bin_inhabited h l r (negb b) Hc) as (k & v & _ & E).
    destruct (Hk _ _ E) as [w Hw]. apply slookup_edge_Some in Hw as (? & [= Hb _] & _). by destruct b.
Qed.

(** The post-condition of an insertion: the node stands for the canonical tree
    of the updated map, and is for the old tree when it says so; the tracer is
    told about the new nodes. *)
Definition inserts_to n pre (t : option tree) (h : nat) k (v : F) n' (b : bool) (tr tr' : nodeTracer) : Prop :=
  exists t', Rep n' pre t' /\ canon h t' /\
    (forall x, slookup t' x = if decide (x = k) then Some v else olookup t x) /\
    (b = false -> t = Some t') /\ Tidy n n' pre /\ moves pre t (Some t') tr tr'.

Definition insert_ok (fuel : nat) : Prop :=
  forall n pre (t : option tree) h k v s (Q : tnode * bool -> trie -> Prop),
  ORep n pre t -> ocanon h t -> (length pre + h = ht)%nat -> length k = h -> v ≠ felt_Zero ->
  st_ok s -> (need n h + 1 <= fuel)%nat ->
  (forall n' b tr, inserts_to n pre t h k v n' b (tracer s) tr -> Q (n', b) (set_tracer s tr)) ->
  wp (insert reader fuel n (path_of pre) (path_of k) (NValue v)) Q s.

Lemma insert_hash fuel pre t h k v s (Q : tnode * bool -> trie -> Prop) :
  insert_ok fuel -> is_leaf t = false -> stored hashFn reader own pre t ->
  canon h t -> (length pre + h = ht)%nat -> length k = h -> v ≠ felt_Zero ->
  st_ok s -> (2 * h + 3 <= S fuel)%nat ->
  (forall n' b tr, inserts_to (NHash (sh t)) pre (Some t) h k v n' b (tracer s) tr -> Q (n', b) (set_tracer s tr)) ->
  wp (insert reader (S fuel) (NHash (sh t)) (path_of pre) (path_of k) (NValue v)) Q s.
Proof using ht_ok FieldElementLaws0.
  intros IH Hleaf Hs Hc Hlen Hk Hv Hst Hfuel HQ.
  assert (Hh : (0 < h)%nat).
  { rewrite (canon_leaf_iff _ _ Hc) in Hleaf. apply bool_decide_eq_false_1 in Hleaf. lia. }
  cbn [insert]. rewrite Len_path. destruct (Z.eqb_spec (Z.of_nat (length k)) 0); [lia|].
  wp_step. eapply wp_resolveNode; [done..|]. intros n1 Hn1 Hi Hld. wp_step.
  eapply (IH n1 pre (Some t)); try done; [rewrite inner_need by done; lia|].
  intros n' b tr (t' & Hn' & Hc' & Hlk & Hb & Htd & Hmv). wp_step.
  - wp_steps. apply negb_true_iff in Heqb0 as ->. injection (Hb eq_refl) as <-.
    apply (HQ n1 false tr). exists t. split_and!; try done. by eapply loaded_tidy.
  - wp_steps. apply HQ. exists t'. split_and!; try done. by eapply loaded_tidy.
Qed.

(** The map of a binary node whose child [b] changes at one key. *)
Lemma bin_update tl tr (b : bool) k (w : option F) (m : list bool -> option F) x :
  (forall y, m y = if decide (y = k) then w else slookup (if b then tr else tl) y) ->
  match x with
  | [] => None
  | a :: y => if Bool.eqb a b then m y else slookup (if a then tr else tl) y
  end = if decide (x = b :: k) then w else slookup (SBin tl tr) x.
Proof.
  intros Hm. destruct x as [|a y]; [done|].
  rewrite (decide_ext (a :: y = b :: k) (a = b /\ y = k)) by (split; [by intros [=]|by intros [-> ->]]).
  destruct (Bool.eqb a b) eqn:E.
  - apply Bool.eqb_prop in E as ->. rewrite (decide_ext (b = b /\ y = k) (y = k)) by tauto.
    by rewrite Hm.
  - rewrite decide_False; [done|]. intros [-> _]. by rewrite Bool.eqb_reflx in E.
Qed.

Lemma insert_bin fuel pre l r fl tl tr h k v s (Q : tnode * bool -> trie -> Prop) :
  insert_ok fuel -> Rep l (pre ++ [false]) tl -> Rep r (pre ++ [true]) tr ->
  flag_ok hashFn reader own fl pre (SBin tl tr) ->
  canon h (SBin tl tr) -> (length pre + h = ht)%nat -> length k = h -> v ≠ felt_Zero ->
  st_ok s -> (2 * h + 2 <= S fuel)%nat ->
  (forall n' b tr', inserts_to (NBinary l r fl) pre (Some (SBin tl tr)) h k v n' b (tracer s) tr' ->
     Q (n', b) (set_tracer s tr')) ->
  wp (insert reader (S fuel) (NBinary l r fl) (path_of pre) (path_of k) (NValue v)) Q s.
Proof using ht_ok FieldElementLaws0.
  intros IH Hl Hr Hfl (h' & -> & Hcl & Hcr) Hlen Hk Hv Hst Hfuel HQ.
  destruct k as [|b k]; [done|]. injection Hk as Hk.
  cbn [insert]. rewrite Len_path. destruct (Z.eqb_spec (Z.of_nat (length (b :: k))) 0); [simpl in *; lia|].
  rewrite MSB_path, child_at_bit, AppendBit_path, LSBs1_path by (simpl; lia). wp_step.
  assert (Hb : Rep (if b then r else l) (pre ++ [b]) (if b then tr else tl)) by (by destruct b).
  eapply (IH _ _ (Some (if b then tr else tl)) h');
    [exact Hb|by destruct b|rewrite length_app; simpl; lia|done|done|done| |].
  { pose proof (need_le (if b then r else l) h'). lia. }
  intros n' d tr' (t' & Hn' & Hc' & Hlk & Hd & Htd & Hmv).
  pose proof (moves_bin pre b tl tr _ t' _ _ eq_refl Hmv) as Hmv'. wp_step.
  - apply negb_true_iff in Heqb0 as ->. wp_steps. apply HQ. exists (SBin tl tr).
    split_and!; [by constructor|by exists h'| |done|done|injection (Hd eq_refl) as <-; by destruct b].
    intros x. destruct (decide (x = b :: k)) as [->|]; [|done]. injection (Hd eq_refl) as Et.
    specialize (Hlk k). rewrite decide_True in Hlk by done. rewrite <- Et in Hlk. by destruct b.
  - wp_steps. rewrite set_child_bit. apply HQ. exists (if b then SBin tl t' else SBin t' tr).
    split_and!; [destruct b; constructor; (done || apply new_flag_ok)|by destruct b; exists h'| |done
      |by apply new_bin_tidy|done].
    intros x. rewrite <- (bin_update tl tr b k (Some v) (slookup t')) by done.
    destruct x as [|a x]; [by destruct b|]. by destruct a, b.
Qed.

(** The path of the edge is a prefix of the key. *)
Lemma insert_edge fuel pre c p fl tc h' k v s (Q : tnode * bool -> trie -> Prop) :
  insert_ok fuel -> Rep c (pre ++ p) tc -> flag_ok hashFn reader own fl pre (SEdge p tc) ->
  p ≠ [] -> is_edge tc = false -> canon h' tc ->
  (length pre + (length p + h') = ht)%nat -> length k = h' -> v ≠ felt_Zero ->
  st_ok s -> (2 * h' + 4 <= S fuel)%nat ->
  (forall n' b tr', inserts_to (NEdge c (path_of p) fl) pre (Some (SEdge p tc)) (length p + h') (p ++ k) v n' b
       (tracer s) tr' ->
     Q (n', b) (set_tracer s tr')) ->
  wp (insert reader (S fuel) (NEdge c (path_of p) fl) (path_of pre) (path_of (p ++ k)) (NValue v)) Q s.
Proof using ht_ok FieldElementLaws0.
  intros IH Hrc Hfl Hp Hne Hcc Hlen Hk Hv Hst Hfuel HQ.
  assert (El : lcp p (p ++ k) = p).
  { clear. induction p as [|b p IHp]; simpl; [done|]. rewrite Bool.eqb_reflx. by rewrite IHp. }
  assert (0 < length p)%nat by (destruct p; [done|simpl; lia]).
  cbn [insert]. rewrite Len_path, length_app.
  destruct (Z.eqb_spec (Z.of_nat (length p + length k)) 0); [lia|].
  rewrite CommonPath_path, El, !Len_path, Z.eqb_refl by (rewrite ?length_app; lia).
  rewrite Append_path, LSBs_path, drop_app_length by (rewrite ?length_app; lia).
  wp_step.
  eapply (IH _ _ (Some tc) h'); [exact Hrc|done|rewrite length_app; lia|lia|done|done| |].
  { pose proof (need_le c h'). lia. }
  intros n' d tr' (t' & Hn' & Hc' & Hlk & Hd & Htd & Hmv).
  pose proof (moves_edge pre p tc t' _ _ Hp Hmv) as Hmv'. wp_step.
  - apply negb_true_iff in Heqb as ->. wp_steps. apply HQ. exists (SEdge p tc).
    split_and!; [by constructor|by split_and!; eauto| |done|done|by injection (Hd eq_refl) as <-].
    intros x. destruct (decide (x = p ++ k)) as [->|]; [|done]. injection (Hd eq_refl) as Et.
    rewrite slookup_edge_app, Et, Hlk. by rewrite decide_True.
  - wp_steps. apply HQ. exists (SEdge p t').
    split_and!; [constructor; [done|apply new_flag_ok]| | |done|apply new_edge_tidy; by rewrite bits_path by lia|done].
    { split_and!; [done| |by eauto]. eapply (more_keys_not_edge h' tc); [done..|].
      intros x y Hx. rewrite Hlk. destruct (decide (x = k)); [by eexists|]. simpl. by eexists. }
    intros x. simpl. destruct (bool_decide (take (length p) x = p)) eqn:Ex.
    + apply bool_decide_eq_true_1 in Ex. rewrite Hlk.
      assert (Ex' : x = p ++ drop (length p) x) by (rewrite <- Ex at 1; by rewrite take_drop).
      rewrite (decide_ext (drop (length p) x = k) (x = p ++ k)); [done|].
      split; [by intros <-|]. intros ->. apply drop_app_length.
    + apply bool_decide_eq_false_1 in Ex. rewrite decide_False; [done|].
      intros ->. apply Ex. apply take_app_length.
Qed.

Lemma wp_insert fuel : insert_ok fuel.
Proof using ht_ok FieldElementLaws0.
  induction fuel as [|fuel IH]; intros n pre t h k v s Q Hrep Hc Hlen Hk Hv Hst Hfuel HQ; [lia|].
  destruct t as [t|].
  2:{ simpl in Hrep. subst n. eapply wp_insert_nil; [lia|].
      apply HQ. exists (sedge k (SLeaf v)). split_and!; [apply nedge_rep; constructor| | |done| |].
      3:{ split; [|by destruct k]. intros _ _. destruct k; simpl; [done|]. split_and!; [by intros [? ?]|done]. }
      3:{ destruct k as [|b k]; [apply moves_grow; by intros q ?%locs_none|].
          apply (moves_inserts _ _ _ _ [pre]); [apply NoDup_singleton| |by intros q ?%locs_none].
          apply Forall_singleton. split; [apply locs_root|apply locs_none]. }
      + replace h with (length k + 0)%nat by lia. by apply sedge_canon.
      + intros x. by rewrite slookup_leaf_path. }
  simpl in Hrep, Hc. unfold need in Hfuel.
  destruct Hrep as [v0 pre|pre t Hleaf Hs|l r fl pre tl tr Hl Hr Hfl|c p fl pre tc Hrc Hfl].
  - destruct Hc as [-> Hv0]. apply nil_length_inv in Hk as ->. simpl. wp_steps.
    specialize (HQ (NValue v) (negb (bool_decide (v0 = v))) (tracer s)).
    assert (E : set_tracer s (tracer s) = s) by (by destruct s). rewrite E in HQ.
    apply HQ. exists (SLeaf v). split_and!; [constructor|done| | |done|apply moves_grow; intros q; by rewrite !locs_leaf].
    + intros x. simpl. destruct (decide (x = [])) as [->|]; [done|by rewrite bool_decide_false].
    + intros Hb%negb_false_iff%bool_decide_eq_true_1. by subst.
  - eapply insert_hash; try done. lia.
  - eapply insert_bin; try done. lia.
  - destruct Hc as (Hp & Hne & h' & -> & Hcc).
    assert (0 < length p)%nat by (destruct p; [done|simpl; lia]).
    destruct (decide (length (lcp p k) = length p)) as [El|El].
    + apply lcp_full in El as [_ Etk]. assert (exists k2, k = p ++ k2) as [k2 ->].
      { exists (drop (length p) k). rewrite <- Etk at 1. by rewrite take_drop. }
      rewrite length_app in Hk. eapply insert_edge; try done; lia.
    + destruct (lcp_differ p k El) as (a & p1 & k1 & E1 & E2); [lia|].
      remember (lcp p k) as m eqn:Em. clear Em. subst p k. rewrite !length_app in *. simpl in Hk, Hlen.
      destruct fuel as [|fuel]; [lia|].
      eapply wp_insert_split; [exact Hrc|lia|lia|]. intros n' tr' Hn' Htd Hmv.
      apply HQ. eexists. split_and!; [exact Hn'| |intros x; apply split_lookup|done|done|done].
      simpl. replace (length m + S (length p1) + h')%nat with (length m + S (length p1 + h'))%nat by lia.
      apply split_canon; [done|done|done|lia].
Qed.

(** ** [delete] *)

(** The post-condition of a deletion; a modified node is never an unresolved
    one; the tracer is told about the nodes that are gone. *)
Definition deletes_to n pre (t : option tree) (h : nat) k n' (b : bool) (tr tr' : nodeTracer) : Prop :=
  exists t' : option tree, ORep n' pre t' /\ ocanon h t' /\
    (forall x, olookup t' x = if decide (x = k) then None else olookup t x) /\
    (b = false -> t' = t) /\ (b = true -> n' = NNil \/ is_inner n' = true) /\
    Tidy n n' pre /\ moves pre t t' tr tr'.

Definition delete_ok (fuel : nat) : Prop :=
  forall n pre (t : option tree) h k s (Q : tnode * bool -> trie -> Prop),
  ORep n pre t -> ocanon h t -> (length pre + h = ht)%nat -> length k = h ->
  st_ok s -> (need n h <= fuel)%nat ->
  (forall n' b tr, deletes_to n pre t h k n' b (tracer s) tr -> Q (n', b) (set_tracer s tr)) ->
  wp (delete reader fuel n (path_of pre) (path_of k)) Q s.

(** Nothing is deleted when the key is absent. *)
Lemma deletes_absent pre t h k n tr tr' :
  Rep n pre t -> canon h t -> slookup t k = None -> moves pre (Some t) (Some t) tr tr' ->
  deletes_to n pre (Some t) h k n false tr tr'.
Proof.
  intros Hr Hc Hk Hm. exists (Some t). split_and!; try done. intros x. by destruct (decide (x = k)) as [->|].
Qed.

Lemma set_tracer_id s : set_tracer s (tracer s) = s.
Proof. by destruct s. Qed.

Lemma delete_hash fuel pre t h k s (Q : tnode * bool -> trie -> Prop) :
  delete_ok fuel -> is_leaf t = false -> stored hashFn reader own pre t ->
  canon h t -> (length pre + h = ht)%nat -> length k = h ->
  st_ok s -> (2 * h + 2 <= S fuel)%nat ->
  (forall n' b tr, deletes_to (NHash (sh t)) pre (Some t) h k n' b (tracer s) tr -> Q (n', b) (set_tracer s tr)) ->
  wp (delete reader (S fuel) (NHash (sh t)) (path_of pre) (path_of k)) Q s.
Proof using ht_ok FieldElementLaws0.
  intros IH Hleaf Hs Hc Hlen Hk Hst Hfuel HQ. cbn [delete].
  wp_step. eapply wp_resolveNode; [done..|]. intros n1 Hn1 Hi Hld. wp_step.
  eapply (IH n1 pre (Some t)); try done; [rewrite inner_need by done; lia|].
  intros n' b tr (t' & Hn' & Hc' & Hlk & Hb & Hi' & Htd & Hmv). wp_step.
  - wp_steps. apply negb_true_iff in Heqb0 as ->. rewrite (Hb eq_refl) in *.
    apply (HQ n1 false tr). exists (Some t). split_and!; try done. by eapply loaded_tidy.
  - wp_steps. apply negb_false_iff in Heqb0 as ->. apply HQ. exists t'. split_and!; auto. by eapply loaded_tidy.
Qed.

(** A bit in front of a tree. *)
Definition cons_edge (o : bool) t : tree :=
  match t with SEdge q d => SEdge (o :: q) d | _ => SEdge [o] t end.

Lemma cons_edge_canon o t h : canon h t -> canon (S h) (cons_edge o t).
Proof.
  intros Hc. destruct t as [v|l r|q d]; simpl.
  - destruct Hc as [-> ?]. split_and!; [done|done|]. by exists 0%nat.
  - split_and!; [done|done|]. by exists h.
  - destruct Hc as (_ & He & h' & -> & Hd). split_and!; [done|done|]. by exists h'.
Qed.

Lemma cons_edge_lookup o t x :
  slookup (cons_edge o t) x =
    match x with [] => None | a :: y => if Bool.eqb a o then slookup t y else None end.
Proof.
  assert (Hs : cons_edge o t = SEdge (o :: match t with SEdge q _ => q | _ => [] end)
                                 (match t with SEdge _ d => d | _ => t end)) by (by destruct t).
  rewrite Hs. destruct x as [|a x]; [done|]. destruct (Bool.eqb a o) eqn:E.
  - apply Bool.eqb_prop in E as ->. change (o :: match t with SEdge q _ => q | _ => [] end) with
      ([o] ++ match t with SEdge q _ => q | _ => [] end).
    change (o :: x) with ([o] ++ x). rewrite slookup_edge_prefix. destruct t as [| |[|] ?]; try done.
  - apply (slookup_edge_other [o]). simpl. rewrite take_0. intros [= ->].
    by rewrite Bool.eqb_reflx in E.
Qed.

(** The node of the other child after a binary node lost one: an edge whose
    path starts with the bit [o]. *)
Definition collapse (o : bool) n : tnode :=
  match n with
  | NEdge c q _ => NEdge c (Append (SetBit (Z.b2z o)) q) NewNodeFlag
  | _ => NEdge n (SetBit (Z.b2z o)) NewNodeFlag
  end.

Lemma collapse_rep o n pre t h :
  Rep n (pre ++ [o]) t -> canon h t -> (length pre + S h = ht)%nat ->
  is_inner n = true \/ is_leaf t = true ->
  Rep (collapse o n) pre (cons_edge o t).
Proof using ht_ok.
  intros Hr Hc Hlen Hi. pose proof Hr as Hr'.
  inversion Hr as [v pre' En Ep Et|pre' t' Hl Hs En Ep Et|l r fl pre' tl tr Hl Hrr Hfl En Ep Et
    |c p fl pre' tc Hrc Hfl En Ep Et]; subst; simpl.
  - rewrite SetBit_path. constructor; [done|apply new_flag_ok].
  - destruct Hi; [done|congruence].
  - rewrite SetBit_path. constructor; [done|apply new_flag_ok].
  - destruct Hc as (_ & _ & h' & -> & _). rewrite SetBit_path, Append_path by (simpl; lia).
    constructor; [by rewrite <- app_assoc in Hrc|apply new_flag_ok].
Qed.

(** What is not modified under the edge was not modified under the branch. *)
Lemma collapse_tidy o (l r : tnode) n fl pre t h :
  Rep n (pre ++ [o]) t -> canon h t -> (length pre + S h = ht)%nat ->
  Tidy (if o then r else l) n (pre ++ [o]) -> Tidy (NBinary l r fl) (collapse o n) pre.
Proof using ht_ok.
  intros Hr Hc Hlen [Hh Hcl].
  assert (Hx : (hashes_ok n -> hashes_ok (collapse o n)) /\
            forall q, clean (collapse o n) pre q -> clean n (pre ++ [o]) q).
  { inversion Hr; subst; cbn [collapse]; rewrite ?SetBit_path.
    - split; [apply new_edge_hashes|done].
    - split; [apply new_edge_hashes|by destruct o].
    - split; [apply new_edge_hashes|by destruct o].
    - destruct Hc as (_ & _ & h' & -> & _). rewrite Append_path by (simpl; lia).
      split; [intros (_ & ?); by apply new_edge_hashes|].
      intros q. cbn [clean]. rewrite !bits_path by (simpl; lia). rewrite <- app_assoc. simpl.
      destruct (Dirty fl0); [done|]. intros Hq%clean_prefix.
      rewrite cons_middle, app_assoc in Hq. by apply prefix_app_l in Hq. }
  destruct Hx as [H1 H2]. split.
  - intros Hz (_ & Hl & Hrr). apply H1, Hh; [done|]. by destruct o.
  - intros q Hq%H2%Hcl. simpl. destruct (Dirty fl); [destruct o; auto|].
    apply clean_prefix in Hq. by apply prefix_app_l in Hq.
Qed.

(** The locations of a binary node that loses a side. *)
Lemma locs_cons_edge pre o t q :
  (forall p c, t = SEdge p c -> p ≠ []) ->
  locs pre (Some (cons_edge o t)) q <->
  q = pre \/ (locs (pre ++ [o]) (Some t) q /\ (is_edge t = true -> q ≠ pre ++ [o])).
Proof.
  intros Ht. destruct t as [v|t0 t1|p c]; simpl cons_edge; rewrite locs_edge by done; [naive_solver..|].
  specialize (Ht p c eq_refl). rewrite (locs_edge (pre ++ [o])) by done. rewrite <- app_assoc. simpl.
  split; [|naive_solver]. intros [->|Hq]; [auto|]. right. split; [auto|]. intros _ ->.
  rewrite cons_middle, app_assoc in Hq. by apply locs_below in Hq.
Qed.

Lemma collapse_moves pre (b : bool) t0 t1 tr tr' :
  let o := negb b in let to := if b then t0 else t1 in
  (forall p c, to = SEdge p c -> p ≠ []) ->
  moves (pre ++ [b]) (Some (if b then t1 else t0)) None tr tr' ->
  moves pre (Some (SBin t0 t1)) (Some (cons_edge o to)) tr
    (if is_edge to then onDelete tr' (path_of (pre ++ [o])) else tr').
Proof.
  intros o to Hto Hm.
  assert (Hall : forall q, locs pre (Some (SBin t0 t1)) q <->
            (q = pre \/ locs (pre ++ [o]) (Some to) q) \/ locs (pre ++ [b]) (Some (if b then t1 else t0)) q).
  { intros q. rewrite locs_bin. subst o to. destruct b; simpl; tauto. }
  assert (Hrest : forall q (ot : option tree), (q = pre \/ locs (pre ++ [o]) (Some to) q) -> ~ locs (pre ++ [b]) ot q).
  { intros q ot [->|Hq]; [by apply locs_below|]. intros Hq'. by apply (locs_sides _ _ _ _ _ Hq' Hq). }
  assert (H1 : moves pre (Some (SBin t0 t1)) (Some (SEdge [o] to)) tr tr').
  { eapply (moves_lift _ _ _ None _ _ (fun q => q = pre \/ locs (pre ++ [o]) (Some to) q));
      [exact Hall| |by split; apply Hrest|done].
    intros q. rewrite locs_edge by done. pose proof (locs_none (F:=F) (pre ++ [b]) q). tauto. }
  destruct (is_edge to) eqn:Ee.
  - eapply (moves_delete _ _ _ _ _ _ _ H1).
    + apply Hall. left. right. apply locs_root.
    + apply locs_edge; [done|]. right. apply locs_root.
    + intros q. rewrite locs_cons_edge, locs_edge by done. rewrite Ee.
      assert (pre ≠ pre ++ [o]) by (intros E%(f_equal length); rewrite length_app in E; simpl in E; lia).
      naive_solver.
  - replace (cons_edge o to) with (SEdge [o] to) by (by destruct to). done.
Qed.

(** The other child, resolved when it is a hash node. *)
Lemma collapse_wp o n t h pre s (Q : tnode -> trie -> Prop) :
  Rep n (pre ++ [o]) t -> canon h t -> (length pre + S h = ht)%nat -> st_ok s ->
  (forall n1, Rep n1 (pre ++ [o]) t -> is_inner n1 = true \/ is_leaf t = true ->
     Tidy n n1 (pre ++ [o]) -> Q n1 s) ->
  wp (resolveChild reader n (path_of (pre ++ [o]))) Q s.
Proof using ht_ok FieldElementLaws0.
  intros Hr Hc Hlen Hst HQ. pose proof Hr as Hr'. remember (pre ++ [o]) as pre' eqn:Ep.
  unfold resolveChild. destruct Hr; try (wp_steps; apply HQ; by auto).
  eapply wp_resolveNode; [done|done|done|subst; rewrite length_app; simpl; lia|done|].
  intros n1 Hn1 Hi Hld. apply HQ; [done|auto|]. by eapply loaded_tidy.
Qed.

Lemma delete_bin fuel pre l r fl tl tr h k s (Q : tnode * bool -> trie -> Prop) :
  delete_ok fuel -> Rep l (pre ++ [false]) tl -> Rep r (pre ++ [true]) tr ->
  flag_ok hashFn reader own fl pre (SBin tl tr) ->
  canon h (SBin tl tr) -> (length pre + h = ht)%nat -> length k = h ->
  st_ok s -> (2 * h + 1 <= S fuel)%nat ->
  (forall n' b tr', deletes_to (NBinary l r fl) pre (Some (SBin tl tr)) h k n' b (tracer s) tr' ->
     Q (n', b) (set_tracer s tr')) ->
  wp (delete reader (S fuel) (NBinary l r fl) (path_of pre) (path_of k)) Q s.
Proof using ht_ok FieldElementLaws0.
  intros IH Hl Hr Hfl (h' & -> & Hcl & Hcr) Hlen Hk Hst Hfuel HQ.
  destruct k as [|b k]; [done|]. injection Hk as Hk.
  assert (Hrb : Rep (NBinary l r fl) pre (SBin tl tr)) by (by constructor).
  cbn [delete]. rewrite MSB_path, child_at_bit, MSBs1_path, Append_path, LSBs1_path by (simpl; lia).
  wp_step.
  assert (Hb : Rep (if b then r else l) (pre ++ [b]) (if b then tr else tl)) by (by destruct b).
  eapply (IH _ _ (Some (if b then tr else tl)) h');
    [exact Hb|by destruct b|rewrite length_app; simpl; lia|done|done| |].
  { pose proof (need_le (if b then r else l) h'). lia. }
  intros n' d tr' (t' & Hn' & Hc' & Hlk & Hd & Hi & Htd & Hmv). wp_step.
  { apply negb_true_iff in Heqb0 as ->. wp_steps. apply HQ, deletes_absent; [done|by exists h'| |].
    - specialize (Hlk k). rewrite decide_True in Hlk by done. rewrite (Hd eq_refl) in Hlk. by destruct b.
    - rewrite (Hd eq_refl) in Hmv. apply (moves_bin pre b tl tr) in Hmv; [|done]. by destruct b. }
  destruct t' as [t'|].
  - simpl in Hn', Hc'. assert (Hm : forall A (x y : A), match n' with NNil => x | _ => y end = y).
    { intros A x y. by destruct Hn'. }
    rewrite Hm. wp_steps. rewrite set_child_bit. apply HQ.
    exists (Some (if b then SBin tl t' else SBin t' tr)).
    split_and!; [destruct b; constructor; (done || apply new_flag_ok)|by destruct b; exists h'| |done
      |intros _; right; by destruct b|by apply new_bin_tidy|exact (moves_bin pre b tl tr _ _ _ _ eq_refl Hmv)].
    intros x. simpl olookup. rewrite <- (bin_update tl tr b k None (slookup t')) by done.
    destruct x as [|a x]; [by destruct b|]. by destruct a, b.
  - simpl in Hn'. subst n'.
    assert (Ho : Z.lxor (Z.b2z b) 1 = Z.b2z (negb b)) by (by destruct b).
    rewrite Ho, child_at_bit, SetBit_path, Append_path by (simpl; lia).
    set (o := negb b). set (to := if b then tl else tr).
    assert (Hro : Rep (if o then r else l) (pre ++ [o]) to) by (subst o to; by destruct b).
    assert (Hco : canon h' to) by (subst to; by destruct b).
    assert (Hto : forall p c, to = SEdge p c -> p ≠ []) by (intros p c E; rewrite E in Hco; apply Hco).
    pose proof (collapse_moves pre b tl tr _ _ Hto Hmv) as Hmc. fold o to in Hmc.
    assert (Hdone : forall n1 tr1, Rep n1 (pre ++ [o]) to -> is_inner n1 = true \/ is_leaf to = true ->
      Tidy (if o then r else l) n1 (pre ++ [o]) ->
      tr1 = (if is_edge to then onDelete tr' (path_of (pre ++ [o])) else tr') ->
      Q (collapse o n1, true) (set_tracer s tr1)).
    { intros n1 tr1 Hn1 Hin Htd1 ->. apply HQ. exists (Some (cons_edge o to)).
      split_and!; [by eapply collapse_rep|by apply cons_edge_canon| |done|intros _; right; by destruct n1
        |eapply collapse_tidy; [done|done|lia|done]|done].
      intros x. simpl olookup. rewrite <- (bin_update tl tr b k None (fun _ => None)).
      - rewrite cons_edge_lookup. subst o to. destruct x as [|a x]; [done|]. by destruct a, b.
      - intros y. specialize (Hlk y). simpl in Hlk. by destruct b. }
    wp_step. apply (collapse_wp o _ to h' pre); [done..|lia|done|].
    intros n1 Hn1 Hin Htd1. specialize (Hdone n1).
    assert (Ee : match n1 with NHash _ => True | NEdge _ _ _ => is_edge to = true | _ => is_edge to = false end)
      by (by destruct Hn1).
    destruct n1; simpl in Hdone |- *; unfold trace_delete; wp_steps; rewrite ?SetBit_path in Hdone;
      first [apply Hdone; [done|done|done|by rewrite Ee]|by destruct Hin; [|inversion Hn1; subst; congruence]].
Qed.

(** A path in front of a tree. *)
Definition prepend (p : list bool) t : tree :=
  match t with SEdge q d => SEdge (p ++ q) d | _ => SEdge p t end.

Lemma prepend_lookup p t x : slookup (prepend p t) x = slookup (SEdge p t) x.
Proof.
  destruct t as [| |q d]; [done|done|]. simpl prepend.
  destruct (decide (take (length p) x = p)) as [E|E].
  - assert (Ex : x = p ++ drop (length p) x) by (rewrite <- E at 1; by rewrite take_drop).
    rewrite Ex, slookup_edge_prefix, slookup_edge_app, slookup_sedge. done.
  - rewrite slookup_edge_other by done. simpl. by rewrite bool_decide_false.
Qed.

Lemma prepend_canon p t h : p ≠ [] -> canon h t -> canon (length p + h) (prepend p t).
Proof.
  intros Hp Hc. destruct t as [v|l r|q d]; simpl; [split_and!; [done|done|by eauto]..|].
  destruct Hc as (_ & He & h' & -> & Hd). split_and!; [by destruct p|done|].
  exists h'. rewrite length_app. split; [lia|done].
Qed.

(** A tree with a key less than a binary one is not empty. *)
Lemma bin_not_emptied h l r k :
  canon h (SBin l r) -> (forall x, None = if decide (x = k) then None else slookup (SBin l r) x) -> False.
Proof.
  intros Hc Hlk.
  destruct (canon_bin_inhabited h l r true Hc) as (k1 & v1 & _ & E1).
  destruct (canon_bin_inhabited h l r false Hc) as (k2 & v2 & _ & E2).
  pose proof (Hlk (true :: k1)) as H1. pose proof (Hlk (false :: k2)) as H2.
  rewrite E1 in H1. rewrite E2 in H2. destruct (decide (true :: k1 = k)), (decide (false :: k2 = k)); congruence.
Qed.

(** The lookups of an edge when its child changes at a key. *)
Lemma edge_update p t k (w : option F) (m : list bool -> option F) x :
  (forall y, m y = if decide (y = k) then w else slookup t y) ->
  (if bool_decide (take (length p) x = p) then m (drop (length p) x) else None) =
    if decide (x = p ++ k) then w else slookup (SEdge p t) x.
Proof.
  intros Hm. simpl. destruct (bool_decide (take (length p) x = p)) eqn:Ex.
  - apply bool_decide_eq_true_1 in Ex. rewrite Hm.
    assert (Ex' : x = p ++ drop (length p) x) by (rewrite <- Ex at 1; by rewrite take_drop).
    rewrite (decide_ext (drop (length p) x = k) (x = p ++ k)); [done|].
    split; [by intros <-|]. intros ->. apply drop_app_length.
  - apply bool_decide_eq_false_1 in Ex. rewrite decide_False; [done|].
    intros ->. apply Ex. apply take_app_length.
Qed.

(** Two edges in a row become one. *)
Lemma join_tidy (c c' : tnode) pre p (q : list bool) fl fl' :
  (length p + length q <= 255)%nat -> Tidy c (NEdge c' (path_of q) fl') (pre ++ p) ->
  Tidy (NEdge c (path_of p) fl) (NEdge c' (path_of (p ++ q)) NewNodeFlag) pre.
Proof.
  intros Hl [Hh Hc]. cbn [hashes_ok clean] in Hh, Hc. rewrite bits_path in Hc by lia. split.
  - intros Hz (_ & H1). apply new_edge_hashes. by apply Hh.
  - intros x. cbn [clean]. rewrite !bits_path by (rewrite ?length_app; lia). intros Hx.
    assert (Hx' : clean c (pre ++ p) x).
    { apply Hc. rewrite <- app_assoc. destruct (Dirty fl'); [done|].
      apply clean_prefix in Hx. rewrite app_assoc in Hx. by apply prefix_app_l in Hx. }
    destruct (Dirty fl); [done|]. apply clean_prefix in Hx'. by apply prefix_app_l in Hx'.
Qed.

Lemma prepend_moves pre p t t' tr tr' :
  p ≠ [] -> (forall q c, t' = SEdge q c -> q ≠ []) ->
  moves (pre ++ p) (Some t) (Some t') tr tr' ->
  moves pre (Some (SEdge p t)) (Some (prepend p t')) tr
    (if is_edge t' then onDelete tr' (path_of (pre ++ p)) else tr').
Proof.
  intros Hp Ht' Hm%(moves_edge pre p t t'); [|done].
  destruct t' as [v|t0 t1|q c]; simpl; [done|done|]. specialize (Ht' q c eq_refl).
  assert (Hne : pre ≠ pre ++ p).
  { intros E%(f_equal length). rewrite length_app in E. destruct p; [done|]. simpl in E. lia. }
  eapply (moves_delete _ _ _ _ _ _ _ Hm).
  - apply locs_edge; [done|]. right. apply locs_root.
  - apply locs_edge; [done|]. right. apply locs_root.
  - intros x. rewrite !locs_edge by (done || by destruct p). rewrite app_assoc.
    split; [|naive_solver]. intros [->|Hx]; [auto|]. split; [auto|]. intros ->.
    by apply locs_below in Hx.
Qed.

(** Deleting below an edge, when the key goes on after its path. *)
Lemma delete_below fuel pre c p fl tc h' k s (Q : tnode * bool -> trie -> Prop) :
  delete_ok fuel -> Rep c (pre ++ p) tc -> flag_ok hashFn reader own fl pre (SEdge p tc) ->
  p ≠ [] -> is_edge tc = false -> canon h' tc -> (0 < h')%nat ->
  (length pre + (length p + h') = ht)%nat -> length k = h' ->
  st_ok s -> (2 * h' + 2 <= fuel)%nat ->
  (forall n' b tr', deletes_to (NEdge c (path_of p) fl) pre (Some (SEdge p tc)) (length p + h') (p ++ k) n' b
       (tracer s) tr' ->
     Q (n', b) (set_tracer s tr')) ->
  wp ('(child', dirty) ← delete reader fuel c (path_of (pre ++ p)) (path_of k);
      if negb dirty then mret (NEdge c (path_of p) fl, false)
      else match child' with
           | NEdge cchild cpath _ =>
               trace_delete (path_of (pre ++ p));;
               mret (NEdge cchild (Append (path_of p) cpath) NewNodeFlag, true)
           | _ => mret (NEdge child' (path_of p) NewNodeFlag, true)
           end) Q s.
Proof using ht_ok FieldElementLaws0.
  intros IH Hrc Hfl Hp Hne Hcc Hh Hlen Hk Hst Hfuel HQ. wp_step.
  eapply (IH _ _ (Some tc) h'); [exact Hrc|done|rewrite length_app; lia|done|done| |].
  { pose proof (need_le c h'). lia. }
  intros n' d tr' (t' & Hn' & Hc' & Hlk & Hd & Hi & Htd & Hmv). wp_step.
  { apply negb_true_iff in Heqb as ->. wp_steps. apply HQ, deletes_absent; [by constructor|by split_and!; eauto| |].
    - specialize (Hlk k). rewrite decide_True, (Hd eq_refl) in Hlk by done. by rewrite slookup_edge_app.
    - rewrite (Hd eq_refl) in Hmv. by apply moves_edge. }
  apply negb_false_iff in Heqb as ->.
  destruct t' as [t'|].
  2:{ exfalso. destruct tc as [v|l r|]; [destruct Hcc; lia| |done]. by eapply bin_not_emptied. }
  pose proof (prepend_moves pre p tc t' _ _ Hp ltac:(intros q e ->; apply Hc') Hmv) as Hmp.
  assert (Hdone : forall n1 tr1, Rep n1 pre (prepend p t') -> is_inner n1 = true ->
    Tidy (NEdge c (path_of p) fl) n1 pre ->
    tr1 = (if is_edge t' then onDelete tr' (path_of (pre ++ p)) else tr') ->
    Q (n1, true) (set_tracer s tr1)).
  { intros n1 tr1 Hn1 Hin Htd1 ->. apply HQ. exists (Some (prepend p t')).
    split_and!; [done|by apply prepend_canon| |done|auto|done|done].
    intros x. simpl olookup. rewrite prepend_lookup. by rewrite <- (edge_update p tc k None (slookup t')). }
  simpl in Hn'. destruct (Hi eq_refl) as [->|Hin]; [by inversion Hn'|].
  remember (pre ++ p) as pre' eqn:Ep.
  destruct Hn' as [v pre'|pre' t' Hl Hs|l r fl' pre' tl tr Hl Hr Hfl'|c' q fl' pre' tc' Hrc' Hfl']; try done; subst.
  - wp_steps. apply Hdone; [|done| |done].
    + constructor; [by constructor|apply new_flag_ok].
    + apply new_edge_tidy. by rewrite bits_path by lia.
  - simpl in Hc'. destruct Hc' as (_ & _ & h'' & Eh & _). unfold trace_delete. wp_steps.
    rewrite Append_path by lia. apply Hdone; [|done| |done].
    + constructor; [by rewrite app_assoc|apply new_flag_ok].
    + apply join_tidy with fl'; [lia|done].
Qed.

Lemma delete_edge fuel pre c p fl tc h k s (Q : tnode * bool -> trie -> Prop) :
  delete_ok fuel -> Rep c (pre ++ p) tc -> flag_ok hashFn reader own fl pre (SEdge p tc) ->
  canon h (SEdge p tc) -> (length pre + h = ht)%nat -> length k = h ->
  st_ok s -> (2 * h + 1 <= S fuel)%nat ->
  (forall n' b tr', deletes_to (NEdge c (path_of p) fl) pre (Some (SEdge p tc)) h k n' b (tracer s) tr' ->
     Q (n', b) (set_tracer s tr')) ->
  wp (delete reader (S fuel) (NEdge c (path_of p) fl) (path_of pre) (path_of k)) Q s.
Proof using ht_ok FieldElementLaws0.
  intros IH Hrc Hfl Hc Hlen Hk Hst Hfuel HQ. pose proof Hc as (Hp & Hne & h' & -> & Hcc).
  assert (0 < length p)%nat by (destruct p; [done|simpl; lia]).
  cbn [delete]. rewrite CommonPath_path, !Len_path by lia. pose proof (lcp_length_l p k).
  destruct (decide (length (lcp p k) = length p)) as [El|El].
  - destruct (lcp_full _ _ El) as [El' Etk].
    assert (exists k2, k = p ++ k2) as [k2 ->].
    { exists (drop (length p) k). rewrite <- Etk at 1. by rewrite take_drop. }
    rewrite length_app in Hk. rewrite El'. destruct (Z.ltb_spec (Z.of_nat (length p)) (Z.of_nat (length p))); [lia|].
    rewrite length_app.
    destruct (Z.eqb_spec (Z.of_nat (length p)) (Z.of_nat (length p + length k2))).
    + unfold trace_delete. wp_steps. assert (k2 = []) as -> by (apply nil_length_inv; lia).
      rewrite app_nil_r in *. simpl in Hk. assert (h' = 0%nat) as -> by lia.
      destruct tc as [v|l r|]; [|by destruct Hcc as (? & ? & _)|done].
      apply (HQ NNil true). exists None. split_and!; try done; [|auto|].
      2:{ exists [EDel pre; EDel (pre ++ p)]. rewrite Append_path by lia. split_and!; [done| | |].
          { apply NoDup_cons. split; [|apply NoDup_singleton]. intros [= E]%list_elem_of_singleton.
            apply (f_equal length) in E. rewrite length_app in E. lia. }
          { intros q; by rewrite elem_of_cons, list_elem_of_singleton; intros [|]. }
          intros q. rewrite locs_edge, locs_leaf, elem_of_cons, list_elem_of_singleton by done.
          pose proof (locs_none (F:=F) pre q). naive_solver. }
      intros x. change (slookup (SEdge p (SLeaf v)) x) with (slookup (prepend p (SLeaf v)) x).
      destruct (decide (x = p)) as [->|Hx]; [done|]. simpl.
      destruct p as [|b p]; [done|]. pose proof (slookup_leaf_path (b :: p) v x) as E.
      rewrite decide_False in E by done. exact (eq_sym E).
    + rewrite MSBs_path, LSBs_path, take_app_length, drop_app_length, !Append_path, Set_path
        by (rewrite ?length_take, ?length_app; lia).
      apply (delete_below fuel pre c p fl tc h' k2); try done; lia.
  - destruct (Z.ltb_spec (Z.of_nat (length (lcp p k))) (Z.of_nat (length p))); [|lia].
    wp_steps. rewrite <- (set_tracer_id s). apply HQ, deletes_absent; [by constructor|done| |apply moves_id].
    destruct (lcp_differ p k El) as (a & p1 & k1 & E1 & E2); [lia|].
    remember (lcp p k) as m eqn:Em. clear Em. subst p k. rewrite slookup_edge_prefix.
    simpl. rewrite bool_decide_false; [done|]. intros [= E _]. by destruct a.
Qed.

Lemma wp_delete fuel : delete_ok fuel.
Proof using ht_ok FieldElementLaws0.
  induction fuel as [|fuel IH]; intros n pre t h k s Q Hrep Hc Hlen Hk Hst Hfuel HQ.
  { unfold need in Hfuel. destruct n; lia. }
  unfold need in Hfuel. destruct t as [t|].
  2:{ simpl in Hrep. subst n. simpl. wp_steps. rewrite <- (set_tracer_id s). apply HQ.
      exists None. split_and!; try done; [|apply moves_id]. intros x. by destruct (decide (x = k)). }
  simpl in Hrep, Hc.
  destruct Hrep as [v pre|pre t Hleaf Hs|l r fl pre tl tr Hl Hr Hfl|c p fl pre tc Hrc Hfl].
  - destruct Hc as [-> Hv]. apply nil_length_inv in Hk as ->. simpl. unfold trace_delete. wp_steps.
    apply (HQ NNil true). exists None. split_and!; try done; [|auto|].
    2:{ exists [EDel pre]. split_and!; [done|apply NoDup_singleton|intros q; by rewrite list_elem_of_singleton|].
        intros q. rewrite locs_leaf, list_elem_of_singleton. pose proof (locs_none (F:=F) pre q). naive_solver. }
    intros x. simpl. destruct (decide (x = [])); [done|by rewrite bool_decide_false].
  - eapply delete_hash; try done.
  - eapply delete_bin; try done.
  - eapply delete_edge; try done.
Qed.

End facts.
