(* ===== verification/TrieTheorems.v ===== *)
(** * The trie as a map with a Merkle root

    The operations of a trie, from a fresh one or one opened on a database,
    implement a map from keys to values, and the root hash is a function of that
    map alone. *)
From stdpp Require Import prelude gmap list relations.
From Stdlib Require Import ZArith Lia.
From S2P Require Import Prelude Felt BitArray BitArrayFacts BitArrayCodec.
From S2P Require Import TrieNode Trie TrieSpec TrieTrace TrieRep TrieNodeFacts TrieFacts.

Local Open Scope Z_scope.

Section theorems.
Context {F : Type} `{!FieldElement F} `{!FieldElementLaws F}.
Variable hashFn : F -> F -> F.

Abbreviation tnode := (node F).
Abbreviation tree := (stree F).
Abbreviation sh := (shash hashFn).
Abbreviation trie := (Trie (F:=F)).

(** ** Hashing *)

Section hashing.
Variables (reader : option (dbReader (F:=F))) (own : F).
Abbreviation Rep := (rep hashFn reader own).

Lemma hash_inner (n : tnode) pre t :
  Rep n pre t ->
  exists c n', hash hashFn n = Ok (c, n') /\ Hash hashFn c = Ok (sh t) /\ Rep n' pre t /\
    (is_inner n = true -> c = NHash (sh t)) /\ (is_inner n = false -> c = n /\ n' = n) /\ n ≠ NNil.
Proof.
  induction 1 as [v pre|pre t Hl Hs|l r fl pre tl tr Hl IHl Hr IHr Hfl|c p fl pre tc Hc IHc Hfl].
  - exists (NValue v), (NValue v). split_and!; try done. constructor.
  - exists (NHash (sh t)), (NHash (sh t)). split_and!; try done. by constructor.
  - simpl. destruct (fHash fl) as [h|] eqn:Ef.
    { rewrite (proj1 Hfl _ Ef). exists (NHash (sh (SBin tl tr))), (NBinary l r fl).
      split_and!; try done. by constructor. }
    destruct IHl as (cl & l' & El & Hcl & Rl & _ & _ & Nl), IHr as (cr & r' & Er & Hcr & Rr & _ & _ & Nr).
    assert (Hch : forall (x : tnode) y, x ≠ NNil -> hash hashFn x = y -> hashChild (hash hashFn) x = y).
    { intros x y Hx <-. by destruct x. }
    unfold hashBinaryChildren. rewrite (Hch _ _ Nl El), (Hch _ _ Nr Er). simpl.
    rewrite Hcl, Hcr. eexists _, _. split_and!; [done|done| |done|done|done].
    constructor; [done|done|]. split; [by intros h [= <-]|apply Hfl].
  - simpl. destruct (fHash fl) as [h|] eqn:Ef.
    { rewrite (proj1 Hfl _ Ef). exists (NHash (sh (SEdge p tc))), (NEdge c (path_of p) fl).
      split_and!; try done. by constructor. }
    destruct IHc as (cc & c' & Ec & Hcc & Rc & _ & Hleaf & _).
    assert (Hch : hashEdgeChild (hash hashFn) c = Ok (cc, c')).
    { unfold hashEdgeChild. destruct (is_inner c); [done|]. by destruct (Hleaf eq_refl) as [-> ->]. }
    rewrite Hch. simpl. rewrite Hcc. eexists _, _. split_and!; [done|done| |done|done|done].
    constructor; [done|]. split; [by intros h [= <-]|apply Hfl].
Qed.

(** Hashing caches every hash and changes nothing else. *)
Lemma hash_caches (n : tnode) pre t c n' :
  Rep n pre t -> hash hashFn n = Ok (c, n') ->
  (hashes_ok n -> hashes_ok n' /\ cached n') /\ (forall pre' q, clean n' pre' q <-> clean n pre' q).
Proof.
  intros Hr. revert c n'.
  induction Hr as [v pre|pre t Hl Hs|l r fl pre tl tr Hl IHl Hr IHr Hfl|c0 p fl pre tc Hc IHc Hfl]; intros c n'.
  - by intros [= <- <-].
  - by intros [= <- <-].
  - simpl. destruct (fHash fl) as [h|] eqn:Ef.
    { intros [= <- <-]. split; [|done]. intros (H1 & ? & ?). simpl. rewrite Ef in *. split_and!; eauto. }
    destruct (hash_inner _ _ _ Hl) as (cl & l' & El & Hcl & _ & _ & _ & Nl).
    destruct (hash_inner _ _ _ Hr) as (cr & r' & Er & Hcr & _ & _ & _ & Nr).
    assert (Hch : forall (x : tnode) y, x ≠ NNil -> hash hashFn x = y -> hashChild (hash hashFn) x = y).
    { intros x y Hx <-. by destruct x. }
    unfold hashBinaryChildren. rewrite (Hch _ _ Nl El), (Hch _ _ Nr Er). simpl. rewrite Hcl, Hcr. simpl.
    intros [= <- <-]. destruct (IHl _ _ El) as [H1 H2], (IHr _ _ Er) as [H3 H4]. simpl. split.
    + intros (_ & [? ?]%H1 & [? ?]%H3). split_and!; eauto.
    + intros pre' q. destruct (Dirty fl); [|done]. by rewrite H2, H4.
  - simpl. destruct (fHash fl) as [h|] eqn:Ef.
    { intros [= <- <-]. split; [|done]. intros (H1 & ?). simpl. rewrite Ef in *. split_and!; eauto. }
    destruct (hash_inner _ _ _ Hc) as (cc & c' & Ec & Hcc & _ & _ & Hleaf & _).
    assert (Hch : hashEdgeChild (hash hashFn) c0 = Ok (cc, c')).
    { unfold hashEdgeChild. destruct (is_inner c0); [done|]. by destruct (Hleaf eq_refl) as [-> ->]. }
    rewrite Hch. simpl. rewrite Hcc. simpl. intros [= <- <-]. destruct (IHc _ _ Ec) as [H1 H2]. simpl. split.
    + intros (_ & [? ?]%H1). split_and!; eauto.
    + intros pre' q. destruct (Dirty fl); [|done]. by rewrite H2.
Qed.

End hashing.

(** ** Tries *)

(** The bits of a key. *)
Definition key_bits (ht : nat) (key : F) : list bool := bits_n ht (felt_val key).

Lemma FeltToPath_bits ht key :
  (ht <= 255)%nat -> FeltToPath key (Z.of_nat ht) = path_of (key_bits ht key).
Proof.
  intros Hht. unfold FeltToPath. destruct (SetFelt_spec (Z.of_nat ht) key) as (Hw & Hl & Hv); [lia|].
  apply path_eq; [done|]. rewrite (bits_eq _ ht _ Hl Hv). by rewrite bits_n_mod by lia.
Qed.

Lemma length_key_bits ht key : length (key_bits ht key) = ht.
Proof. apply length_bits_n. Qed.

(** A usable trie over a database, and the tree it stands for. *)
Record trie_rep (reader : option (dbReader (F:=F))) (ht : nat) (s : trie) (t : option tree) : Prop := {
  tr_height : height s = Z.of_nat ht;
  tr_bound : (0 < ht <= 255)%nat;
  tr_open : committed s = false;
  tr_canon : ocanon ht t;
  tr_root : orep hashFn reader (owner s) (root s) [] t;
}.

(** The map of a tree: absent keys are zero. *)
Definition map_of (t : option tree) (k : list bool) : F := default felt_Zero (olookup t k).

(** The map with one value changed. *)
Definition upd (m : list bool -> F) (k : list bool) (v : F) : list bool -> F :=
  fun x => if decide (x = k) then v else m x.

Lemma map_of_nonzero ht t k v : ocanon ht t -> olookup t k = Some v -> v ≠ felt_Zero.
Proof.
  destruct t as [t|]; [|done]. simpl. revert ht k.
  induction t as [x|l IHl r IHr|p c IH]; intros ht k Hc Hl.
  - simpl in Hl. destruct Hc. by destruct (bool_decide (k = [])); simplify_eq.
  - destruct Hc as (h' & -> & Hcl & Hcr). destruct k as [|[] k]; simpl in Hl; eauto.
  - destruct Hc as (_ & _ & h' & -> & Hc). apply slookup_edge_Some in Hl as (k' & -> & Hl). eauto.
Qed.

(** The map determines the tree. *)
Lemma map_of_inj ht t1 t2 :
  ocanon ht t1 -> ocanon ht t2 -> (forall k, map_of t1 k = map_of t2 k) -> t1 = t2.
Proof.
  intros H1 H2 E. apply (ocanon_ext ht); [done|done|]. intros k. specialize (E k). unfold map_of in E.
  destruct (olookup t1 k) as [v|] eqn:E1, (olookup t2 k) as [w|] eqn:E2; simpl in E; try congruence.
  - by destruct (map_of_nonzero ht t1 k v).
  - by destruct (map_of_nonzero ht t2 k w).
Qed.

(** What an operation does to the nodes and to the tracer. *)
Definition step (x y : trie * option tree) : Prop :=
  tidy (hash_nonzero hashFn) (root x.1) (root y.1) [] /\ moves [] x.2 y.2 (tracer x.1) (tracer y.1).

Section ops.
Variable reader : option (dbReader (F:=F)).

Lemma trie_fuel_enough (s : trie) ht (n : tnode) :
  height s = Z.of_nat ht -> (need n ht + 1 <= trie_fuel s)%nat.
Proof. intros E. unfold trie_fuel. rewrite E, Nat2Z.id. pose proof (need_le n ht). lia. Qed.

Lemma wp_delete_key ht s t key (Q : tnode * bool -> trie -> Prop) :
  trie_rep reader ht s t ->
  (forall n b tr t', orep hashFn reader (owner s) n [] t' -> ocanon ht t' ->
     (forall k, map_of t' k = upd (map_of t) (key_bits ht key) felt_Zero k) ->
     tidy (hash_nonzero hashFn) (root s) n [] -> moves [] t t' (tracer s) tr ->
     Q (n, b) (set_tracer s tr)) ->
  wp (delete reader (trie_fuel s) (root s) emptyBitArray (FeltToPath key (height s))) Q s.
Proof.
  intros [Hh Hb Ho Hc Hr] HQ. rewrite Hh, FeltToPath_bits, empty_path by lia.
  eapply (wp_delete hashFn reader (owner s) ht); [lia|exact Hr|exact Hc|done|by rewrite length_key_bits|done| |].
  { pose proof (trie_fuel_enough s ht (root s) Hh). lia. }
  intros n b tr (t' & Hn & Hc' & Hl & _ & _ & Htd & Hmv). apply (HQ n b tr t'); [done|done| |done|done].
  intros k. unfold map_of, upd. rewrite Hl. by destruct (decide (k = _)).
Qed.

Lemma wp_insert_key ht s t key value (Q : tnode * bool -> trie -> Prop) :
  trie_rep reader ht s t -> value ≠ felt_Zero ->
  (forall n b tr t', orep hashFn reader (owner s) n [] t' -> ocanon ht t' ->
     (forall k, map_of t' k = upd (map_of t) (key_bits ht key) value k) ->
     tidy (hash_nonzero hashFn) (root s) n [] -> moves [] t t' (tracer s) tr ->
     Q (n, b) (set_tracer s tr)) ->
  wp (insert reader (trie_fuel s) (root s) emptyBitArray (FeltToPath key (height s)) (NValue value)) Q s.
Proof.
  intros [Hh Hb Ho Hc Hr] Hv HQ. rewrite Hh, FeltToPath_bits, empty_path by lia.
  eapply (wp_insert hashFn reader (owner s) ht);
    [lia|exact Hr|exact Hc|done|by rewrite length_key_bits|done|done|by apply trie_fuel_enough|].
  intros n b tr (t' & Hn & Hc' & Hl & _ & Htd & Hmv). apply (HQ n b tr (Some t')); [done|done| |done|done].
  intros k. unfold map_of, upd. simpl. rewrite Hl. by destruct (decide (k = _)).
Qed.

(** What an operation that writes does to the trie. *)
Definition writes (ht : nat) (s : trie) (t : option tree) (key value : F) (_ : unit) (s' : trie) : Prop :=
  exists t', trie_rep reader ht s' t' /\ owner s' = owner s /\
    step (s, t) (s', t') /\ forall k, map_of t' k = upd (map_of t) (key_bits ht key) value k.

Lemma wp_Update ht s t key value :
  trie_rep reader ht s t -> wp (Update reader key value) (writes ht s t key value) s.
Proof.
  intros Hs. pose proof Hs as [Hh Hb Ho Hc Hr]. unfold Update. wp_step. wp_step. rewrite Ho.
  wp_step. unfold update. wp_step. wp_step. wp_step.
  - unfold felt_IsZero in Heqb. apply bool_decide_eq_true_1 in Heqb as ->.
    wp_step. eapply wp_delete_key; [done|]. intros n b tr t' Hn Hc' Hl Htd Hmv. unfold count_update. wp_steps.
    exists t'. split_and!; [by split|done|by split|done].
  - unfold felt_IsZero in Heqb. apply bool_decide_eq_false_1 in Heqb.
    wp_step. eapply wp_insert_key; [done|done|]. intros n b tr t' Hn Hc' Hl Htd Hmv. unfold count_update. wp_steps.
    exists t'. split_and!; [by split|done|by split|done].
Qed.

Lemma wp_Delete ht s t key :
  trie_rep reader ht s t -> wp (Delete reader key) (writes ht s t key felt_Zero) s.
Proof.
  intros Hs. pose proof Hs as [Hh Hb Ho Hc Hr]. unfold Delete. wp_step. wp_step. rewrite Ho.
  wp_step. eapply wp_delete_key; [done|]. intros n b tr t' Hn Hc' Hl Htd Hmv. unfold count_update. wp_steps.
  exists t'. split_and!; [by split|done|by split|done].
Qed.

Lemma wp_Get ht s t key :
  trie_rep reader ht s t ->
  wp (Get reader key) (fun v s' => v = map_of t (key_bits ht key) /\ trie_rep reader ht s' t /\
                          owner s' = owner s /\ step (s, t) (s', t)) s.
Proof.
  intros Hs. pose proof Hs as [Hh Hb Ho Hc Hr]. unfold Get. wp_step. wp_step. rewrite Ho.
  wp_step. rewrite Hh, FeltToPath_bits, empty_path by lia.
  destruct t as [t|]; simpl in Hr, Hc.
  - eapply (wp_trie_get hashFn reader (owner s) ht); [lia|exact Hr|exact Hc|done|by rewrite length_key_bits|done| |].
    { pose proof (trie_fuel_enough s ht (root s) Hh). lia. }
    intros n b Hn [Htd _]. wp_steps. split_and!; [done| |by destruct b|].
    + destruct b; [by split|done].
    + destruct b; (split; [done|apply moves_id]).
  - rewrite Hr. unfold trie_fuel. rewrite Hh, Nat2Z.id. destruct (2 * ht + 3)%nat eqn:E; [lia|]. simpl.
    wp_steps. split_and!; try done. split; [done|apply moves_id].
Qed.

Lemma wp_Hash ht s t :
  trie_rep reader ht s t ->
  wp (Trie_Hash hashFn) (fun h s' => h = oshash hashFn t /\ trie_rep reader ht s' t /\ owner s' = owner s /\
    step (s, t) (s', t) /\ tracer s' = tracer s /\ (hashes_ok (root s) -> cached (root s'))) s.
Proof.
  intros Hs. pose proof Hs as [Hh Hb Ho Hc Hr]. unfold Trie_Hash, hashRoot. wp_step. wp_step. wp_step.
  destruct t as [t|]; simpl in Hr, Hc.
  2:{ rewrite Hr. wp_steps. split_and!; try done. split; [by simpl; rewrite Hr|apply moves_id]. }
  destruct (hash_inner reader (owner s) _ _ _ Hr) as (c & n' & E & _ & Hn' & Hi & Hl & Hnil).
  assert (Hc' : c = NHash (sh t)).
  { destruct (is_inner (root s)) eqn:Ei; [auto|]. destruct (Hl eq_refl) as [-> _].
    destruct Hr; try done. destruct Hc. lia. }
  assert (Hm : forall A (x y : A), match root s with NNil => x | _ => y end = y).
  { intros A x y. by destruct (root s). }
  destruct (hash_caches reader (owner s) _ _ _ _ _ Hr E) as [Hca Hcl].
  rewrite Hm, E. simpl. subst c. wp_steps. split_and!; try done; [|by intros [_ ?]%Hca].
  split; [split; simpl; [by intros _ [? _]%Hca|]; intros q; by rewrite Hcl|apply moves_id].
Qed.

(** ** Sequences of operations *)

Inductive trie_op : Type :=
| OpUpdate (key value : F)
| OpDelete (key : F)
| OpGet (key : F)
| OpHash.

Definition do_op (op : trie_op) : SE trie trieError unit :=
  match op with
  | OpUpdate k v => Update reader k v
  | OpDelete k => Delete reader k
  | OpGet k => _ ← Get reader k; mret tt
  | OpHash => _ ← Trie_Hash hashFn; mret tt
  end.

Fixpoint run_ops (ops : list trie_op) : SE trie trieError unit :=
  match ops with
  | [] => mret tt
  | op :: ops' => do_op op;; run_ops ops'
  end.

(** The effect of an operation on the map. *)
Definition op_map (ht : nat) (m : list bool -> F) (op : trie_op) : list bool -> F :=
  match op with
  | OpUpdate k v => upd m (key_bits ht k) v
  | OpDelete k => upd m (key_bits ht k) felt_Zero
  | OpGet _ | OpHash => m
  end.

Definition ops_map (ht : nat) (m : list bool -> F) (ops : list trie_op) : list bool -> F :=
  foldl (op_map ht) m ops.

Lemma ops_map_ext ht ops m m' :
  (forall k, m k = m' k) -> forall k, ops_map ht m ops k = ops_map ht m' ops k.
Proof.
  unfold ops_map. revert m m'. induction ops as [|op ops IH]; intros m m' E; simpl; [done|].
  apply IH. intros k. destruct op; simpl; unfold upd; try (by destruct (decide _)); done.
Qed.

Lemma wp_do_op ht s t op :
  trie_rep reader ht s t ->
  wp (do_op op) (fun _ s' => exists t', trie_rep reader ht s' t' /\ owner s' = owner s /\
     step (s, t) (s', t') /\ forall k, map_of t' k = op_map ht (map_of t) op k) s.
Proof.
  intros Hs. destruct op as [k v|k|k|]; simpl.
  - by apply wp_Update.
  - by apply wp_Delete.
  - wp_step. eapply wp_mono; [by apply wp_Get|]. intros v s' (_ & Hs' & Ho & Hst). wp_steps. by exists t.
  - wp_step. eapply wp_mono; [by apply wp_Hash|]. intros v s' (_ & Hs' & Ho & Hst & _). wp_steps. by exists t.
Qed.

(** An invariant that every step preserves holds at the end. *)
Lemma wp_run_ops_inv (I : trie * option tree -> Prop) ht ops s t :
  (forall s t s' t', I (s, t) -> trie_rep reader ht s' t' -> owner s' = owner s ->
     step (s, t) (s', t') -> I (s', t')) ->
  trie_rep reader ht s t -> I (s, t) ->
  wp (run_ops ops) (fun _ s' => exists t', trie_rep reader ht s' t' /\ I (s', t') /\
     forall k, map_of t' k = ops_map ht (map_of t) ops k) s.
Proof.
  intros HI. revert s t. induction ops as [|op ops IH]; intros s t Hs Hi; simpl.
  - wp_steps. by exists t.
  - wp_step. eapply wp_mono; [by apply wp_do_op|]. intros _ s' (t' & Hs' & Ho' & Hst & Hm).
    eapply wp_mono; [apply (IH s' t'); [done|by eapply HI]|]. intros _ s'' (t'' & Hs'' & Hi'' & Hm'').
    exists t''. split_and!; [done|done|].
    intros k. rewrite Hm''. unfold ops_map. simpl. by apply ops_map_ext.
Qed.

Lemma wp_run_ops ht ops s t :
  trie_rep reader ht s t ->
  wp (run_ops ops) (fun _ s' => exists t', trie_rep reader ht s' t' /\
     forall k, map_of t' k = ops_map ht (map_of t) ops k) s.
Proof.
  intros Hs. eapply wp_mono; [by apply (wp_run_ops_inv (fun _ => True))|].
  intros _ s' (t' & Hs' & _ & Hm). by exists t'.
Qed.

End ops.

(** ** Opening a trie *)

Lemma NewEmpty_rep reader h : (0 < h <= 255)%nat -> trie_rep reader h (NewEmpty (Z.of_nat h)) None.
Proof. intros Hh. by split. Qed.

Lemma resolve_root reader own ht t :
  (0 < ht <= 255)%nat -> canon ht t -> stored hashFn reader own [] t ->
  reader_node reader own emptyBitArray felt_Zero false = Ok (node_blob hashFn t) ->
  exists n, resolve reader (Z.of_nat ht) own None emptyBitArray = Ok n /\ rep hashFn reader own n [] t /\ hashes_ok n.
Proof.
  intros Hht Hc Hs Hr. unfold resolve. simpl default. unfold Len, emptyBitArray; simpl len.
  destruct (Z.eqb_spec 0 (Z.of_nat ht)); [lia|]. fold emptyBitArray. rewrite Hr.
  assert (Hfl : flag_ok hashFn reader own (decodedFlag (Some felt_Zero)) [] t).
  { split; [|done]. intros h. simpl. unfold felt_IsZero. by rewrite bool_decide_true. }
  change 0 with (Z.of_nat 0). destruct t as [v|l r|p c].
  - destruct Hc. lia.
  - destruct Hc as (h' & -> & Hcl & Hcr). rewrite decode_binary by lia. eexists. split; [done|].
    destruct Hs as (_ & Hsl & Hsr). split; [|by split_and!; [|apply ref_hashes_ok..]].
    apply rep_bin; [apply (rep_ref hashFn reader own (S h') ltac:(lia) [false] h')|
                    apply (rep_ref hashFn reader own (S h') ltac:(lia) [true] h')|]; done.
  - destruct Hc as (Hp & _ & h' & -> & Hcc). rewrite decode_edge by (done || lia). eexists. split; [done|].
    destruct Hs as (_ & Hsc). split; [|by split_and!; [|apply ref_hashes_ok]]. apply rep_edge; [|done].
    by apply (rep_ref hashFn reader own (length p + h') ltac:(lia) p h').
Qed.

(** ** The properties of the trie *)

(** C10: after any sequence of updates, deletions, reads and root
    computations on a trie, fresh or opened on a database, [Get] returns (no
    error, no panic, within the fuel) the last value written for its key, the
    value the database had for it when it was not written, and zero when it
    was deleted or never present. *)
Theorem trie_get_after_ops reader ht s t ops key :
  trie_rep reader ht s t ->
  wp (run_ops reader ops;; Get reader key)
    (fun v _ => v = ops_map ht (map_of t) ops (key_bits ht key)) s.
Proof.
  intros Hs. wp_step. eapply wp_mono; [by apply wp_run_ops|]. intros _ s' (t' & Hs' & Hm).
  eapply wp_mono; [by apply wp_Get|]. intros v s'' (-> & _). apply Hm.
Qed.

(** C11: the root hash is a function of the map alone: two tries of the same
    height, over different databases, with different histories of operations
    and different parts loaded, return the same root hash whenever their
    contents agree. *)
Theorem root_hash_canonical reader1 reader2 ht s1 s2 t1 t2 ops1 ops2 :
  trie_rep reader1 ht s1 t1 -> trie_rep reader2 ht s2 t2 ->
  (forall k, ops_map ht (map_of t1) ops1 k = ops_map ht (map_of t2) ops2 k) ->
  exists h s1' s2',
    (run_ops reader1 ops1;; Trie_Hash hashFn) s1 = (Ok h, s1') /\
    (run_ops reader2 ops2;; Trie_Hash hashFn) s2 = (Ok h, s2').
Proof.
  intros H1 H2 E.
  assert (Hw : forall rd s t ops, trie_rep rd ht s t -> exists s' t',
            (run_ops rd ops;; Trie_Hash hashFn) s = (Ok (oshash hashFn t'), s') /\ ocanon ht t' /\
            forall k, map_of t' k = ops_map ht (map_of t) ops k).
  { intros rd s t ops Hs.
    assert (Hwp : wp (run_ops rd ops;; Trie_Hash hashFn) (fun h _ => exists t', h = oshash hashFn t' /\
              ocanon ht t' /\ forall k, map_of t' k = ops_map ht (map_of t) ops k) s).
    { wp_step. eapply wp_mono; [by apply wp_run_ops|]. intros _ s' (t' & Hs' & Hm).
      eapply wp_mono; [by apply (wp_Hash rd ht s' t')|]. intros h s'' (-> & _). exists t'.
      split_and!; [done|apply Hs'|done]. }
    apply wp_elim in Hwp as (h & s' & Hrun & t' & -> & Hc & Hm). by exists s', t'. }
  destruct (Hw _ _ _ ops1 H1) as (s1' & t1' & R1 & C1 & M1).
  destruct (Hw _ _ _ ops2 H2) as (s2' & t2' & R2 & C2 & M2).
  assert (t1' = t2') as -> by (eapply map_of_inj; [done|done|intros k; by rewrite M1, M2]).
  by exists (oshash hashFn t2'), s1', s2'.
Qed.

(** a database that holds the nodes of a tree under an owner can be
    opened, with any non-zero state commitment: [NewFromRootHash] with the hash
    of the tree, and [New] when the root is also found without its hash, return
    a trie with the contents of that tree. *)
Theorem New_opens_database reader own stateComm ht t :
  (0 < ht <= 255)%nat -> canon ht t -> stored hashFn reader own [] t -> stateComm ≠ felt_Zero ->
  (exists s, NewFromRootHash reader own stateComm (Z.of_nat ht) (sh t) = Ok s /\
     trie_rep reader ht s (Some t) /\ owner s = own) /\
  (reader_node reader own emptyBitArray felt_Zero false = Ok (node_blob hashFn t) ->
   exists s, New reader own stateComm (Z.of_nat ht) = Ok s /\
     trie_rep reader ht s (Some t) /\ owner s = own).
Proof.
  intros Hht Hc Hs Hsc. unfold New, NewFromRootHash, new_trie, felt_IsZero. rewrite bool_decide_false by done.
  split.
  - destruct (resolve_rep hashFn reader own ht ltac:(lia) [] ht t) as (n & E & Hn & _); [done| |done|done|].
    { rewrite (canon_leaf_iff ht) by done. apply bool_decide_eq_false_2. lia. }
    rewrite empty_path, E. eexists. split_and!; [done| |done]. by split.
  - intros Hr. destruct (resolve_root reader own ht t) as (n & E & Hn & _); [done..|].
    rewrite E. eexists. split_and!; [done| |done]. by split.
Qed.

(** keys longer than the height of the trie are cut to their low bits:
    a value written under one key is read back under every key that is equal
    to it modulo [2 ^ height], without an error. *)
Theorem trie_keys_truncated reader ht s t k1 k2 v :
  trie_rep reader ht s t -> felt_val k1 mod 2 ^ Z.of_nat ht = felt_val k2 mod 2 ^ Z.of_nat ht ->
  wp (Update reader k1 v;; Get reader k2) (fun r _ => r = v) s.
Proof.
  intros Hs Hk. pose proof (tr_bound _ _ _ _ Hs).
  assert (Eb : key_bits ht k1 = key_bits ht k2).
  { unfold key_bits. rewrite <- (bits_n_mod ht (felt_val k1) (Z.of_nat ht)), Hk by lia.
    by rewrite bits_n_mod by lia. }
  wp_step. eapply wp_mono; [by apply (wp_Update _ ht s t)|]. intros _ s' (t' & Hs' & _ & _ & Hm).
  eapply wp_mono; [by apply wp_Get|]. intros r s'' (-> & _). rewrite Hm, Eb. unfold upd.
  by rewrite decide_True.
Qed.

End theorems.
