(* ===== verification/TrieFrame.v ===== *)
(** * What a trie operation leaves alone

    Whatever the database returns, the descents of [insert], [delete] and
    [get] change the trie only by recording insertions and deletions in its
    tracer.  An operation that fails therefore leaves the contents of the trie
    as they were, and the recorded insertions and deletions stay disjoint. *)
From stdpp Require Import prelude gmap list relations.
From Stdlib Require Import ZArith Lia.
From S2P Require Import Prelude Felt BitArray TrieNode Trie TrieTheorems.

Local Open Scope Z_scope.

Section frame.
Context {F : Type} `{!FieldElement F}.
Variables (hashFn : F -> F -> F) (reader : option (dbReader (F:=F))).

Abbreviation trie := (Trie (F:=F)).
Abbreviation TM := (SE trie (trieError (F:=F))).

(** One event of a tracer. *)
Inductive traced : nodeTracer -> nodeTracer -> Prop :=
| traced_insert tr p : traced tr (onInsert tr p)
| traced_delete tr p : traced tr (onDelete tr p).

(** A computation that only records events, however it ends. *)
Definition framed {A} (m : TM A) : Prop :=
  forall s, exists tr, (m s).2 = set_tracer s tr /\ rtc traced (tracer s) tr.

Lemma framed_same {A} (m : TM A) : (forall s, (m s).2 = s) -> framed m.
Proof. intros E s. exists (tracer s). split; [rewrite E; by destruct s|done]. Qed.

Lemma framed_ret {A} (a : A) : framed (mret a).
Proof. by apply framed_same. Qed.

Lemma framed_bind {A B} (m : TM A) (k : A -> TM B) :
  framed m -> (forall a, framed (k a)) -> framed (m ≫= k).
Proof.
  intros Hm Hk s. destruct (Hm s) as (tr & E & Htr). unfold mbind, SE_bind.
  destruct (m s) as [o s1]. simpl in E. subst s1.
  destruct o as [a|e| |]; [|by exists tr..].
  destruct (Hk a (set_tracer s tr)) as (tr' & E' & Htr'). exists tr'. rewrite E'.
  split; [done|]. by etrans.
Qed.

Lemma framed_trace_insert p : framed (trace_insert p).
Proof. intros s. exists (onInsert (tracer s) p). split; [done|]. apply rtc_once. constructor. Qed.

Lemma framed_trace_delete p : framed (trace_delete p).
Proof. intros s. exists (onDelete (tracer s) p). split; [done|]. apply rtc_once. constructor. Qed.

Lemma framed_panic {A} : framed (panic : TM A).
Proof. by apply framed_same. Qed.

Lemma framed_no_fuel {A} : framed (out_of_fuel : TM A).
Proof. by apply framed_same. Qed.

Lemma framed_resolveNode hn p : framed (resolveNode reader hn p).
Proof. by apply framed_same. Qed.

Lemma framed_resolveChild n p : framed (resolveChild reader n p).
Proof. by apply framed_same; destruct n. Qed.

(** Decompose a computation into its steps. *)
Ltac framed_step :=
  match goal with
  | |- framed (_ ≫= _) => apply framed_bind; [|intros ?]
  | |- framed (mret _) => apply framed_ret
  | |- framed panic => apply framed_panic
  | |- framed out_of_fuel => apply framed_no_fuel
  | |- framed (trace_insert _) => apply framed_trace_insert
  | |- framed (trace_delete _) => apply framed_trace_delete
  | |- framed (resolveNode _ _ _) => apply framed_resolveNode
  | |- framed (resolveChild _ _ _) => apply framed_resolveChild
  | |- framed (let '(_, _) := ?x in _) => destruct x as [? ?]
  | |- framed (if ?b then _ else _) => destruct b
  | |- framed (match ?n with NNil => _ | _ => _ end) => destruct n
  | IH : forall _, _ |- _ => apply IH
  end; cbv zeta beta.

Lemma framed_get fuel n pre key : framed (get reader fuel n pre key).
Proof. revert n pre key. induction fuel as [|k IH]; intros n pre key; simpl; repeat framed_step. Qed.

Lemma framed_insert fuel n pre key value : framed (insert reader fuel n pre key value).
Proof. revert n pre key value. induction fuel as [|k IH]; intros n pre key value; simpl; repeat framed_step. Qed.

Lemma framed_delete fuel n pre key : framed (delete reader fuel n pre key).
Proof. revert n pre key. induction fuel as [|k IH]; intros n pre key; simpl; repeat framed_step. Qed.

(** ** Errors *)

(** A computation that returns an error has only recorded events. *)
Definition err_framed {A} (m : TM A) : Prop :=
  forall s e s', m s = (Err e, s') -> exists tr, s' = set_tracer s tr /\ rtc traced (tracer s) tr.

Definition no_err {A} (m : TM A) : Prop := forall s e s', m s ≠ (Err e, s').

Lemma err_framed_of {A} (m : TM A) : framed m -> err_framed m.
Proof. intros Hm s e s' E. destruct (Hm s) as (tr & E' & Htr). rewrite E in E'. by exists tr. Qed.

Lemma err_framed_no_err {A} (m : TM A) : no_err m -> err_framed m.
Proof. intros Hm s e s' E. by destruct (Hm s e s'). Qed.

(** An error before or inside a continuation. *)
Lemma err_framed_bind {A B} (m : TM A) (k : A -> TM B) :
  framed m -> (forall a, err_framed (k a)) -> err_framed (m ≫= k).
Proof.
  intros Hm Hk s e s' E. destruct (Hm s) as (tr & E1 & Htr). unfold mbind, SE_bind in E.
  destruct (m s) as [[a|e'| |] s1]; simpl in E1; subst s1; simplify_eq; [|by exists tr].
  destruct (Hk _ _ _ _ E) as (tr' & -> & Htr'). exists tr'. split; [done|]. by etrans.
Qed.

Lemma err_framed_seq {A B} (m : TM A) (k : A -> TM B) :
  err_framed m -> (forall a, no_err (k a)) -> err_framed (m ≫= k).
Proof.
  intros Hm Hk s e s' E. unfold mbind, SE_bind in E.
  destruct (m s) as [[a|e'| |] s1] eqn:Em; simplify_eq; [|by eapply Hm]. by destruct (Hk a s1 e s').
Qed.

Lemma no_err_bind {A B} (m : TM A) (k : A -> TM B) : no_err m -> (forall a, no_err (k a)) -> no_err (m ≫= k).
Proof.
  intros Hm Hk s e s' E. unfold mbind, SE_bind in E.
  destruct (m s) as [[a|e'| |] s1] eqn:Em; simplify_eq; [by eapply Hk|by eapply Hm].
Qed.

Lemma no_err_lift_pure {A} (o : outcome Empty_set A) : no_err (lift_pure o : TM A).
Proof. intros s e s'. by destruct o as [a|[]| |]. Qed.

Lemma framed_get_state : framed (get_state : TM trie).
Proof. by apply framed_same. Qed.

Lemma no_err_Hash : no_err (Trie_Hash hashFn).
Proof.
  apply no_err_bind.
  - apply no_err_bind; [done|]. intros t.
    assert (Hm : no_err (n ← lift_pure (hash hashFn (root t)); let '(hashed, cached) := n in
              modify (fun t => set_pending t 0 (pendingUpdates t));; mret (hashed, cached) : TM _)).
    { apply no_err_bind; [apply no_err_lift_pure|]. by intros [? ?]. }
    by destruct (root t).
  - intros [h c]. apply no_err_bind; [done|]. intros _. by destruct h.
Qed.

Lemma err_framed_op op : err_framed (do_op hashFn reader op).
Proof.
  destruct op as [k v|k|k|]; simpl.
  - apply err_framed_bind; [apply framed_get_state|]. intros t.
    destruct (committed t); [by apply err_framed_of, framed_same|].
    apply err_framed_seq; [|done]. apply err_framed_bind; [apply framed_get_state|]. intros t'.
    destruct (felt_IsZero v); (apply err_framed_seq; [|by intros []]); apply err_framed_of;
      [apply framed_delete|apply framed_insert].
  - apply err_framed_bind; [apply framed_get_state|]. intros t.
    destruct (committed t); [by apply err_framed_of, framed_same|].
    apply err_framed_seq; [apply err_framed_of, framed_delete|by intros []].
  - apply err_framed_seq; [|done]. apply err_framed_bind; [apply framed_get_state|]. intros t.
    destruct (committed t); [by apply err_framed_of, framed_same|].
    apply err_framed_seq; [apply err_framed_of, framed_get|by intros [[] ?]].
  - apply err_framed_seq; [|done]. apply err_framed_no_err, no_err_Hash.
Qed.

(** ** The tracer *)

(** A computation that changes the tracer only by recording events. *)
Definition traces {A} (m : TM A) : Prop := forall s, rtc traced (tracer s) (tracer (m s).2).

Lemma traces_of {A} (m : TM A) : framed m -> traces m.
Proof. intros Hm s. destruct (Hm s) as (tr & -> & Htr). done. Qed.

Lemma traces_bind {A B} (m : TM A) (k : A -> TM B) : traces m -> (forall a, traces (k a)) -> traces (m ≫= k).
Proof.
  intros Hm Hk s. specialize (Hm s). unfold mbind, SE_bind.
  destruct (m s) as [[a|e| |] s1]; try done. simpl in Hm. etrans; [done|]. apply Hk.
Qed.

Lemma traces_modify (g : trie -> trie) : (forall s, tracer (g s) = tracer s) -> traces (modify g).
Proof. intros E s. simpl. by rewrite E. Qed.

Lemma traces_ret {A} (a : A) : traces (mret a).
Proof. by intros s. Qed.

Lemma traces_Hash : traces (Trie_Hash hashFn).
Proof.
  apply traces_bind.
  - apply traces_bind; [by intros s|]. intros t.
    assert (Hm : traces (n ← lift_pure (hash hashFn (root t)); let '(hashed, cached) := n in
              modify (fun t => set_pending t 0 (pendingUpdates t));; mret (hashed, cached) : TM _)).
    { apply traces_bind; [by intros s; destruct (hash _ _) as [[? ?]|[]| |]|]. by intros [? ?] s. }
    destruct (root t); try done; apply traces_ret.
  - intros [h c]. apply traces_bind; [by apply traces_modify|]. intros _ s. by destruct h.
Qed.

Lemma traces_op op : traces (do_op hashFn reader op).
Proof.
  assert (Hg : traces (get_state : TM trie)) by by intros s.
  assert (Hf : traces (fail ErrCommitted : TM unit)) by by intros s.
  destruct op as [k v|k|k|]; simpl.
  - apply traces_bind; [done|]. intros t. destruct (committed t); [done|].
    apply traces_bind; [|by intros ? ?]. apply traces_bind; [done|]. intros t'.
    destruct (felt_IsZero v); (apply traces_bind; [|by intros [] ?]); apply traces_of;
      [apply framed_delete|apply framed_insert].
  - apply traces_bind; [done|]. intros t. destruct (committed t); [done|].
    apply traces_bind; [apply traces_of, framed_delete|by intros [] ?].
  - apply traces_bind; [|by intros ? ?]. apply traces_bind; [done|]. intros t.
    destruct (committed t); [by intros s|].
    apply traces_bind; [apply traces_of, framed_get|]. intros [[v n] b].
    apply traces_bind; [|by intros ? ?]. apply traces_modify. intros s. by destruct b.
  - apply traces_bind; [apply traces_Hash|by intros ? ?].
Qed.

Lemma traces_ops ops : traces (run_ops hashFn reader ops).
Proof.
  induction ops as [|op ops IH]; [apply traces_ret|]. apply traces_bind; [apply traces_op|done].
Qed.

Lemma traced_disjoint tr tr' :
  rtc traced tr tr' -> inserts tr ## deletes_ tr -> inserts tr' ## deletes_ tr'.
Proof.
  induction 1 as [|x y z Hxy _ IH]; [done|]. intros Hd. apply IH.
  destruct Hxy as [tr p|tr p]; unfold onInsert, onDelete;
    destruct (bool_decide _) eqn:E; simpl.
  - set_solver.
  - apply bool_decide_eq_false_1 in E. set_solver.
  - set_solver.
  - apply bool_decide_eq_false_1 in E. set_solver.
Qed.

(** C18: an operation on a trie that returns an error (a node missing from
    the database, a node that does not decode, a trie already committed)
    leaves the nodes, the hashes and the counters of the trie as they were,
    whatever the database returned: at most events of the tracer are added. *)
Theorem failed_op_keeps_trie op s e s' :
  do_op hashFn reader op s = (Err e, s') ->
  height s' = height s /\ owner s' = owner s /\ root s' = root s /\ committed s' = committed s /\
  pendingHashes s' = pendingHashes s /\ pendingUpdates s' = pendingUpdates s /\
  rtc traced (tracer s) (tracer s').
Proof. intros E. by destruct (err_framed_op op s e s' E) as (tr & -> & Htr). Qed.

(** Over any sequence of operations on a new trie, successful or not,
    no path is recorded both as inserted and as deleted. *)
Theorem tracer_disjoint h ops :
  let s := (run_ops hashFn reader ops (NewEmpty h)).2 in
  inserts (tracer s) ∩ deletes_ (tracer s) = ∅.
Proof. simpl. apply disjoint_intersection_L. eapply traced_disjoint; [apply traces_ops|]. done. Qed.

End frame.
