(* ===== verification/MemDB.v ===== *)
(** * The in-memory key-value store

    [src/db/memory]: the database, its batches and its iterators, and
    [src/db/dbutils], [src/db/bufferbatch.go].  A key is a byte string.

    A Go batch holds a pointer to its database, which other code may change
    before the batch is written: the operations of a batch are computations over
    the database and the batch.  Callbacks of [Get] are the continuations of the
    value it returns.  The locks make each operation atomic.  The index of an
    iterator moves by one per call and does not reach the bounds of its type. *)
From stdpp Require Import prelude gmap list strings.
From Stdlib Require Import ZArith Lia.
From S2P Require Import Prelude.

Local Open Scope Z_scope.

Abbreviation bytes := (list Z).

(** ** Byte strings *)

(** [bytes.Compare], the order of Go strings. *)
Fixpoint bytes_Compare (a b : bytes) : Z :=
  match a, b with
  | [], [] => 0
  | [], _ :: _ => -1
  | _ :: _, [] => 1
  | x :: a', y :: b' => if x <? y then -1 else if y <? x then 1 else bytes_Compare a' b'
  end.

Definition bytes_less (a b : bytes) : bool := bytes_Compare a b <? 0.

(** [strings.HasPrefix] *)
Fixpoint HasPrefix (s prefix : bytes) : bool :=
  match prefix, s with
  | [], _ => true
  | x :: p', y :: s' => (x =? y) && HasPrefix s' p'
  | _ :: _, [] => false
  end.

(** ** [dbutils] *)

Definition maxByte : Z := 255.

(** The loop of [UpperBound] below the index [n]; [None] is a nil slice. *)
Fixpoint UpperBound_loop (prefix : bytes) (n : nat) : option bytes :=
  match n with
  | O => None
  | S i =>
      let b := nth i prefix 0 in
      if b =? maxByte then UpperBound_loop prefix i
      else Some (take i prefix ++ [u8 (b + 1)])
  end.

Definition UpperBound (prefix : bytes) : option bytes := UpperBound_loop prefix (length prefix).

(** The errors of the package [db] and of the in-memory store. *)
Inductive dbError : Type :=
| ErrNotFound
| errDBClosed
| errBatchClosed
| errIteratorClosed
| errIteratorInvalid.

#[export] Instance dbError_eq_dec : EqDecision dbError.
Proof. solve_decision. Defined.

(** ** [memory/db.go] *)

Module memory.

(** [db] is nil after [Close]. *)
Record Database := mkDB {
  db : option (gmap bytes bytes);
  path : string;
  removePathOnClose : bool;
}.

Definition New : Database := mkDB (Some ∅) "" false.

Definition set_db (d : Database) (m : gmap bytes bytes) : Database :=
  mkDB (Some m) (path d) (removePathOnClose d).

Definition Has (d : Database) (key : bytes) : outcome dbError bool :=
  match db d with
  | None => Err errDBClosed
  | Some m => Ok (bool_decide (is_Some (m !! key)))
  end.

Definition Get (d : Database) (key : bytes) : outcome dbError bytes :=
  match db d with
  | None => Err errDBClosed
  | Some m => match m !! key with Some v => Ok v | None => Err ErrNotFound end
  end.

Abbreviation DM := (SE Database dbError).

(** An operation of an open database. *)
Definition with_map (f : gmap bytes bytes -> gmap bytes bytes) : DM unit :=
  d ← get_state;
  match db d with
  | None => fail errDBClosed
  | Some m => put_state (set_db d (f m))
  end.

Definition Put (key value : bytes) : DM unit := with_map (fun m => <[key := value]> m).

Definition Delete (key : bytes) : DM unit := with_map (fun m => delete key m).

(** The directory is removed by the operating system. *)
Definition Close : DM unit :=
  modify (fun d => mkDB None (path d) (removePathOnClose d)).

(** [tmp] is the directory the operating system makes, if it can. *)
Definition Path (tmp : option string) : DM string :=
  d ← get_state;
  match db d with
  | None => mret ""%string
  | Some _ =>
      if negb (bool_decide (path d = ""%string)) then mret (path d)
      else
        match tmp with
        | None => mret ""%string
        | Some p => put_state (mkDB (db d) p true);; mret p
        end
  end.

(** A nil bound is the empty string. *)
Definition in_range (start end_ : bytes) (k : bytes) : bool :=
  negb (bytes_less k start) && bytes_less k end_.

Definition DeleteRange (start end_ : bytes) : DM unit :=
  with_map (fun m => filter (fun kv => in_range start end_ kv.1 = false) m).

Definition Copy (d : Database) : Database := mkDB (Some (default ∅ (db d))) "" false.

Definition NewSnapshot (d : Database) : outcome dbError Database :=
  match db d with None => Panic | Some _ => Ok (Copy d) end.

(** ** [memory/iterator.go] *)

Record iterator := mkIter {
  curInd : Z;
  keys : list bytes;
  values : list bytes;
  closed : bool;
}.

Abbreviation IM := (SE iterator dbError).

Definition set_ind (i : iterator) (n : Z) : iterator := mkIter n (keys i) (values i) (closed i).

Definition valid (i : iterator) : bool :=
  (0 <=? curInd i) && (curInd i <? Z.of_nat (length (keys i))).

(** The methods panic on a closed iterator. *)
Definition check_open : IM unit := i ← get_state; if closed i then panic else mret tt.

Definition Valid : IM bool := check_open;; i ← get_state; mret (valid i).

Definition First : IM bool := check_open;; modify (fun i => set_ind i 0);; Valid.

Definition Prev : IM bool :=
  check_open;;
  i ← get_state;
  if curInd i =? 0 then put_state (set_ind i (-1));; mret false
  else if curInd i =? -1 then First
  else put_state (set_ind i (curInd i - 1));; mret true.

Definition Next : IM bool :=
  check_open;;
  modify (fun i => set_ind i (curInd i + 1));;
  Valid.

(** [None] is a nil slice. *)
Definition Key : IM (option bytes) :=
  check_open;;
  v ← Valid;
  i ← get_state;
  if negb v then mret None else mret (keys i !! Z.to_nat (curInd i)).

Definition UncopiedValue : IM bytes :=
  i ← get_state;
  if closed i then fail errIteratorClosed
  else if negb (valid i) then fail errIteratorInvalid
  else deref (values i !! Z.to_nat (curInd i)).

Definition Value : IM bytes := UncopiedValue.

(** The index of the first key that is not below [key]. *)
Fixpoint seek_loop (key : bytes) (ks : list bytes) (j : Z) : option Z :=
  match ks with
  | [] => None
  | k :: ks' => if bytes_Compare key k <=? 0 then Some j else seek_loop key ks' (j + 1)
  end.

Definition Seek (key : bytes) : IM bool :=
  check_open;;
  i ← get_state;
  match seek_loop key (keys i) 0 with
  | Some j => put_state (set_ind i j);; mret true
  | None => put_state (set_ind i (Z.of_nat (length (keys i))));; mret false
  end.

Definition iterator_Close : IM unit :=
  i ← get_state;
  if closed i then fail errIteratorClosed
  else put_state (mkIter (-1) [] [] true).

(** The keys of a new iterator, [sort.Strings]. *)
Definition iter_keys (m : gmap bytes bytes) (prefix : bytes) (withUpperBound : bool) : list bytes :=
  let ub := default [] (if withUpperBound then UpperBound prefix else None) in
  sort_slice bytes_less
    (filter (fun k => HasPrefix k prefix && (negb withUpperBound || bytes_less k ub) = true)
       (map_to_list m).*1).

Definition NewIterator (d : Database) (prefix : bytes) (withUpperBound : bool)
  : outcome dbError iterator :=
  match db d with
  | None => Err errDBClosed
  | Some m =>
      let ks := iter_keys m prefix withUpperBound in
      Ok (mkIter (-1) ks (omap (fun k => m !! k) ks) false)
  end.

(** ** [memory/batch.go] *)

Record keyValue := mkKV {
  key : bytes;
  value : bytes;
  kv_delete : bool;
}.

(** [b_open]: the pointer to the database is not nil. *)
Record batch := mkBatch {
  b_open : bool;
  b_writes : list keyValue;
  writeMap : gmap bytes keyValue;
  size : Z;
}.

Definition newBatch : batch := mkBatch true [] ∅ 0.

(** A database and one of its batches. *)
Record dbBatch := mkDbBatch {
  bdb : Database;
  bat : batch;
}.

Abbreviation BM := (SE dbBatch dbError).

Definition batch_Get (d : Database) (b : batch) (k : bytes) : outcome dbError bytes :=
  if negb (b_open b) then Err errBatchClosed
  else
    match writeMap b !! k with
    | Some kv => if kv_delete kv then Err ErrNotFound else Ok (value kv)
    | None =>
        match default ∅ (db d) !! k with
        | Some v => Ok v
        | None => Err ErrNotFound
        end
    end.

Definition batch_Has (d : Database) (b : batch) (k : bytes) : outcome dbError bool :=
  if negb (b_open b) then Err errBatchClosed
  else
    match writeMap b !! k with
    | Some kv => Ok (negb (kv_delete kv))
    | None => Ok (bool_decide (is_Some (default ∅ (db d) !! k)))
    end.

(** One write of the batch added to it. *)
Definition batch_add (kv : keyValue) (n : Z) : BM unit :=
  s ← get_state;
  let b := bat s in
  if negb (b_open b) then fail errBatchClosed
  else
    put_state (mkDbBatch (bdb s)
      (mkBatch true (b_writes b ++ [kv]) (<[key kv := kv]> (writeMap b)) (i64 (size b + n)))).

Definition batch_Put (k v : bytes) : BM unit :=
  batch_add (mkKV k v false) (Z.of_nat (length k) + Z.of_nat (length v)).

Definition batch_Delete (k : bytes) : BM unit :=
  batch_add (mkKV k [] true) (Z.of_nat (length k)).

Definition apply_write (m : gmap bytes bytes) (kv : keyValue) : gmap bytes bytes :=
  if kv_delete kv then delete (key kv) m else <[key kv := value kv]> m.

Definition batch_Close : BM unit :=
  s ← get_state;
  if negb (b_open (bat s)) then fail errBatchClosed
  else put_state (mkDbBatch (bdb s) (mkBatch false [] ∅ 0)).

Definition batch_Write : BM unit :=
  s ← get_state;
  if negb (b_open (bat s)) then fail errBatchClosed
  else
    match db (bdb s) with
    | None => fail errDBClosed
    | Some m =>
        put_state (mkDbBatch (set_db (bdb s) (foldl apply_write m (b_writes (bat s)))) (bat s));;
        batch_Close
    end.

Definition batch_Size (b : batch) : Z := size b.

(** The iterator of a batch is one of a copy of the database with the batch
    written to it. *)
Definition batch_NewIterator (d : Database) (b : batch) (prefix : bytes) (withUpperBound : bool)
  : outcome dbError iterator :=
  if negb (b_open b) then Err errBatchClosed
  else
    let temp := mkDbBatch (Copy d) (mkBatch true (b_writes b) (writeMap b) 0) in
    match batch_Write temp with
    | (Ok _, s) => NewIterator (bdb s) prefix withUpperBound
    | (Err e, _) => Err e
    | (Panic, _) => Panic
    | (NoFuel, _) => NoFuel
    end.

(** The loop of [DeleteRange] at a position of the iterator, with one unit of
    fuel for each key. *)
Fixpoint delete_range_loop (fuel : nat) (it : iterator) (ok : bool) (end_ : bytes) : BM unit :=
  if negb ok then mret tt
  else
    match fuel with
    | O => out_of_fuel
    | S f =>
        match Key it with
        | (Ok k, _) =>
            let k := default [] k in
            if 0 <=? bytes_Compare k end_ then mret tt
            else
              batch_Delete k;;
              match Next it with
              | (Ok ok', it') => delete_range_loop f it' ok' end_
              | _ => panic
              end
        | _ => panic
        end
    end.

Definition batch_DeleteRange (start end_ : bytes) : BM unit :=
  s ← get_state;
  it ← lift (batch_NewIterator (bdb s) (bat s) [] false);
  match Seek start it with
  | (Ok ok, it') => delete_range_loop (S (length (keys it'))) it' ok end_
  | _ => panic
  end.

(** [Update] and [Write] of the database: a batch that is written when the
    callback returns no error. *)
Definition Update (fn : BM unit) : DM unit :=
  d ← get_state;
  match db d with
  | None => fail errDBClosed
  | Some _ =>
      let '(o, s) := (fn;; batch_Write) (mkDbBatch d newBatch) in
      put_state (bdb s);; lift o
  end.

Definition Write (fn : BM unit) : DM unit := Update fn.

End memory.
Import memory.

(** ** [database.go]

    The interfaces [KeyValueReader], [KeyValueWriter] and
    [KeyValueRangeDeleter], implemented by the database and by its batches. *)

Class KVStore (S : Type) := {
  kv_get : S -> bytes -> outcome dbError bytes;
  kv_put : bytes -> bytes -> SE S dbError unit;
  kv_del : bytes -> SE S dbError unit;
  kv_delrange : bytes -> bytes -> SE S dbError unit;
}.

#[export] Instance Database_store : KVStore Database := {|
  kv_get := Get;
  kv_put := Put;
  kv_del := Delete;
  kv_delrange := DeleteRange;
|}.

#[export] Instance batch_store : KVStore dbBatch := {|
  kv_get s := batch_Get (bdb s) (bat s);
  kv_put := batch_Put;
  kv_del := batch_Delete;
  kv_delrange := batch_DeleteRange;
|}.

(** ** [bufferbatch.go]: [None] is a nil slice, which stands for a deletion *)

Record BufferBatch := mkBuffer {
  b_updates : gmap bytes (option bytes);
  txn : dbBatch;
}.

Definition NewBufferBatch (t : dbBatch) : BufferBatch := mkBuffer ∅ t.

Definition buffer_Put (b : BufferBatch) (k : bytes) (v : option bytes) : BufferBatch :=
  mkBuffer (<[k := v]> (b_updates b)) (txn b).

Definition buffer_Delete (b : BufferBatch) (k : bytes) : BufferBatch :=
  mkBuffer (<[k := None]> (b_updates b)) (txn b).

Definition buffer_Get (b : BufferBatch) (k : bytes) : outcome dbError bytes :=
  match b_updates b !! k with
  | Some None => Err ErrNotFound
  | Some (Some v) => Ok v
  | None => batch_Get (bdb (txn b)) (bat (txn b)) k
  end.

Definition flush_one (x : bytes * option bytes) : BM unit :=
  match x.2 with None => batch_Delete x.1 | Some v => batch_Put x.1 v end.

(** [order]: the order in which the map of the updates is iterated. *)
Fixpoint flush_all (order : list (bytes * option bytes)) : BM unit :=
  match order with
  | [] => mret tt
  | x :: l => flush_one x;; flush_all l
  end.

Definition Flush (order : list (bytes * option bytes)) (b : BufferBatch)
  : outcome dbError unit * BufferBatch :=
  let '(o, s) := flush_all order (txn b) in (o, mkBuffer (b_updates b) s).

Definition buffer_Write (order : list (bytes * option bytes)) (b : BufferBatch)
  : outcome dbError unit * BufferBatch :=
  match Flush order b with
  | (Ok _, b') => let '(o, s) := batch_Write (txn b') in (o, mkBuffer ∅ s)
  | (o, b') => (o, b')
  end.
