(* ===== verification/MemDBFacts.v ===== *)
(** * The key-value store: order, prefixes, batches and iterators

    [UpperBound] delimits the keys of a prefix; a batch reads like the database
    it will leave when it is written; an iterator lists the keys of its prefix
    in order. *)
From stdpp Require Import prelude gmap list sorting.
From Stdlib Require Import ZArith Lia.
From S2P Require Import Prelude Felt MemDB.
Import memory.

Local Open Scope Z_scope.

(** ** The order of byte strings *)

Definition bytes_lt (a b : bytes) : Prop := bytes_Compare a b < 0.

Lemma bytes_Compare_refl a : bytes_Compare a a = 0.
Proof. induction a as [|x a IH]; simpl; [done|]. by rewrite Z.ltb_irrefl. Qed.

Lemma bytes_Compare_eq a b : bytes_Compare a b = 0 -> a = b.
Proof.
  revert b. induction a as [|x a IH]; intros [|y b]; simpl; try done.
  bool_cases; intros; f_equal; [lia|auto].
Qed.

Lemma bytes_Compare_opp a b : bytes_Compare b a = - bytes_Compare a b.
Proof. revert b. induction a as [|x a IH]; intros [|y b]; simpl; try done. bool_cases; auto. Qed.

Lemma bytes_lt_trans a b c : bytes_lt a b -> bytes_lt b c -> bytes_lt a c.
Proof.
  unfold bytes_lt. revert b c. induction a as [|x a IH]; intros [|y b] [|z c]; simpl; try lia.
  bool_cases. apply IH.
Qed.

Lemma bytes_lt_irrefl a : ~ bytes_lt a a.
Proof. unfold bytes_lt. rewrite bytes_Compare_refl. lia. Qed.

Lemma bytes_lt_total a b : a ≠ b -> bytes_lt a b \/ bytes_lt b a.
Proof.
  intros Hne. unfold bytes_lt. rewrite (bytes_Compare_opp a b).
  assert (bytes_Compare a b ≠ 0) by (intros ?%bytes_Compare_eq; done). lia.
Qed.

Lemma bytes_less_lt a b : bytes_less a b = true <-> bytes_lt a b.
Proof. apply Z.ltb_lt. Qed.

Lemma bytes_less_false a b : bytes_less a b = false <-> a = b \/ bytes_lt b a.
Proof.
  rewrite <- not_true_iff_false, bytes_less_lt. split.
  - intros Hn. destruct (decide (a = b)) as [|Hne]; [by left|]. apply bytes_lt_total in Hne as [?|?]; [done|by right].
  - intros [->|Hl] ?; [by eapply bytes_lt_irrefl|]. by eapply (bytes_lt_irrefl a), bytes_lt_trans.
Qed.

Lemma bytes_Compare_app l a b : bytes_Compare (l ++ a) (l ++ b) = bytes_Compare a b.
Proof. induction l as [|x l IH]; simpl; [done|]. by rewrite Z.ltb_irrefl. Qed.

(** ** Prefixes *)

Lemma HasPrefix_spec s p : HasPrefix s p = true <-> p `prefix_of` s.
Proof.
  revert s. induction p as [|x p IH]; intros s; simpl.
  { split; [intros _; by exists s|by destruct s]. }
  destruct s as [|y s]; [by split; [|intros [? ?]]|]. simpl.
  rewrite andb_true_iff, IH, Z.eqb_eq. split.
  - intros [-> ?]. by apply prefix_cons.
  - intros Hp. split; [by eapply prefix_cons_inv_1|by eapply prefix_cons_inv_2].
Qed.

(** The string before the trailing 255s, with its last byte incremented. *)
Lemma UpperBound_loop_spec p n :
  (n <= length p)%nat -> is_bytes p -> Forall (fun b => b = maxByte) (drop n p) ->
  match UpperBound_loop p n with
  | Some u => exists q b k, p = q ++ b :: replicate k maxByte /\ 0 <= b < 255 /\ u = q ++ [b + 1]
  | None => Forall (fun b => b = maxByte) p
  end.
Proof.
  revert p. induction n as [|i IH]; intros p Hn Hp Hf; simpl; [by rewrite drop_0 in Hf|].
  destruct (lookup_lt_is_Some_2 p i ltac:(lia)) as [b Hb].
  assert (Hd : drop i p = b :: drop (S i) p) by (by apply drop_S).
  rewrite (nth_lookup_Some _ _ _ _ Hb). unfold maxByte in *. destruct (Z.eqb_spec b 255) as [->|Hne].
  - apply IH; [lia|done|]. rewrite Hd. by constructor.
  - assert (Hr : 0 <= b < 256) by (exact (Forall_lookup_1 _ _ _ _ Hp Hb)).
    exists (take i p), b, (length p - S i)%nat. split_and!; [|lia|lia|].
    + rewrite <- (take_drop i p) at 1. f_equal. rewrite Hd. f_equal.
      apply list_eq_same_length with (n := (length p - S i)%nat);
        [by rewrite length_replicate|by rewrite length_drop|].
      intros j x y Hj Hx Hy. apply lookup_replicate in Hy as [-> _].
      by eapply (Forall_lookup_1 _ _ _ _ Hf).
    + by rewrite u8_small by lia.
Qed.

(** Below a run of 255s. *)
Lemma max_run_prefix k (s : bytes) :
  is_bytes s -> bytes_Compare (replicate k maxByte) s <= 0 -> replicate k maxByte `prefix_of` s.
Proof.
  revert s. induction k as [|k IH]; intros s Hs; simpl; [intros _; by exists s|].
  destruct s as [|y s]; [simpl; lia|]. apply Forall_cons in Hs as [Hy Hs]. unfold maxByte in *.
  bool_cases. intros Hc. assert (y = 255) as -> by lia. by apply prefix_cons, IH.
Qed.

(** [UpperBound] is exact: the keys between a prefix and its upper bound
    are the keys with that prefix, and there is no bound only for a prefix of
    255s. *)
Lemma UpperBound_exact (p : bytes) :
  is_bytes p ->
  match UpperBound p with
  | Some u => forall k, is_bytes k -> in_range p u k = HasPrefix k p
  | None => Forall (fun b => b = maxByte) p
  end.
Proof.
  intros Hp. pose proof (UpperBound_loop_spec p (length p) ltac:(lia) Hp) as Hs.
  rewrite drop_all in Hs. specialize (Hs (Forall_nil_2 _)). unfold UpperBound.
  destruct (UpperBound_loop p (length p)) as [u|]; [|done].
  destruct Hs as (q & b & n & -> & Hb & ->). intros k Hk. unfold in_range.
  apply eq_bool_prop_intro. rewrite !Is_true_true, andb_true_iff, negb_true_iff, HasPrefix_spec.
  unfold bytes_less. rewrite Z.ltb_ge, Z.ltb_lt, (bytes_Compare_opp _ k), (bytes_Compare_opp _ k).
  clear Hp. revert k Hk. induction q as [|x q IH]; intros k Hk.
  - destruct k as [|y k]; simpl; [split; [lia|by intros [? ?]]|].
    apply Forall_cons in Hk as [Hy Hk]. split.
    + destruct (Z.ltb_spec b y), (Z.ltb_spec y b), (Z.ltb_spec (b + 1) y), (Z.ltb_spec y (b + 1)); try lia.
      * assert (y = b + 1) as -> by lia. destruct k; simpl; lia.
      * intros [Hc _]. assert (y = b) as -> by lia. apply prefix_cons, max_run_prefix; [done|lia].
    + intros [r [= -> ->]]. rewrite Z.ltb_irrefl.
      destruct (Z.ltb_spec (b + 1) b), (Z.ltb_spec b (b + 1)); try lia. split; [|lia].
      rewrite <- (app_nil_r (replicate n maxByte)) at 1. rewrite bytes_Compare_app. by destruct r.
  - destruct k as [|y k]; simpl; [split; [lia|by intros [? ?]]|]. apply Forall_cons in Hk as [Hy Hk].
    destruct (Z.ltb_spec x y); [split; [lia|intros [? [= ? _]]; lia]|].
    destruct (Z.ltb_spec y x); [split; [lia|intros [? [= ? _]]; lia]|].
    rewrite IH by done. assert (x = y) as -> by lia. split; [apply prefix_cons|apply prefix_cons_inv_2].
Qed.

(** ** Batches *)

(** The map of the last write of each key is the one the list of writes gives. *)
Definition batch_ok (b : batch) : Prop :=
  writeMap b = foldl (fun m kv => <[key kv := kv]> m) ∅ (b_writes b).

(** What the database will hold once the batch is written. *)
Definition view (s : dbBatch) : gmap bytes bytes :=
  foldl apply_write (default ∅ (db (bdb s))) (b_writes (bat s)).

Definition batch_usable (s : dbBatch) : Prop := b_open (bat s) = true /\ batch_ok (bat s).

Lemma newBatch_usable d : batch_usable (mkDbBatch d newBatch).
Proof. done. Qed.

Lemma apply_writes_lookup (ws : list keyValue) (m : gmap bytes bytes) (w : gmap bytes keyValue) k :
  w = foldl (fun m kv => <[key kv := kv]> m) ∅ ws ->
  foldl apply_write m ws !! k =
    match w !! k with
    | Some kv => if kv_delete kv then None else Some (value kv)
    | None => m !! k
    end.
Proof.
  intros ->. induction ws as [|kv ws IH] using rev_ind; [simpl; by rewrite lookup_empty|].
  rewrite !foldl_app. simpl. unfold apply_write at 1. destruct (decide (key kv = k)) as [<-|Hne].
  - rewrite lookup_insert_eq. destruct (kv_delete kv); [by rewrite lookup_delete_eq|by rewrite lookup_insert_eq].
  - rewrite lookup_insert_ne by done. rewrite <- IH.
    destruct (kv_delete kv); [by rewrite lookup_delete_ne|by rewrite lookup_insert_ne].
Qed.

Lemma view_lookup s k :
  batch_ok (bat s) ->
  view s !! k = match writeMap (bat s) !! k with
                | Some kv => if kv_delete kv then None else Some (value kv)
                | None => default ∅ (db (bdb s)) !! k
                end.
Proof. intros Hb. unfold view. by apply apply_writes_lookup. Qed.

(** A read of the batch is a read of its view. *)
Lemma batch_Get_view s k :
  batch_usable s ->
  batch_Get (bdb s) (bat s) k = match view s !! k with Some v => Ok v | None => Err ErrNotFound end.
Proof.
  intros [Ho Hb]. unfold batch_Get. rewrite Ho, view_lookup by done. simpl.
  destruct (writeMap (bat s) !! k) as [kv|]; [by destruct (kv_delete kv)|done].
Qed.

Lemma batch_Has_view s k :
  batch_usable s -> batch_Has (bdb s) (bat s) k = Ok (bool_decide (is_Some (view s !! k))).
Proof.
  intros [Ho Hb]. unfold batch_Has. rewrite Ho, view_lookup by done. simpl.
  destruct (writeMap (bat s) !! k) as [kv|]; [|done]. by destruct (kv_delete kv).
Qed.

(** One write. *)
Lemma wp_batch_add kv n s :
  batch_usable s ->
  wp (batch_add kv n) (fun _ s' => batch_usable s' /\ bdb s' = bdb s /\
    view s' = apply_write (view s) kv) s.
Proof.
  intros [Ho Hb]. unfold batch_add. wp_step. wp_step. rewrite Ho. simpl.
  eapply wp_intro; [done|]. split_and!; [split; [done|]|done|].
  - unfold batch_ok in *. simpl. by rewrite foldl_app, Hb.
  - unfold view. simpl. by rewrite foldl_app.
Qed.

Lemma wp_batch_Put k v s :
  batch_usable s ->
  wp (batch_Put k v) (fun _ s' => batch_usable s' /\ bdb s' = bdb s /\ view s' = <[k := v]> (view s)) s.
Proof. apply wp_batch_add. Qed.

Lemma wp_batch_Delete k s :
  batch_usable s ->
  wp (batch_Delete k) (fun _ s' => batch_usable s' /\ bdb s' = bdb s /\ view s' = delete k (view s)) s.
Proof. apply wp_batch_add. Qed.

Lemma wp_batch_Write s m :
  batch_usable s -> db (bdb s) = Some m ->
  wp batch_Write (fun _ s' => bdb s' = set_db (bdb s) (view s) /\ b_open (bat s') = false) s.
Proof.
  intros [Ho Hb] Hm. eapply wp_intro.
  - unfold batch_Write, batch_Close, mbind, SE_bind, get_state, put_state. cbn. by rewrite Ho, Hm.
  - simpl. unfold view. by rewrite Hm.
Qed.

(** ** Iterators *)

Lemma iter_keys_elem m prefix (withUpperBound : bool) k :
  k ∈ iter_keys m prefix withUpperBound <->
  is_Some (m !! k) /\ HasPrefix k prefix = true /\
    (withUpperBound = true -> bytes_less k (default [] (UpperBound prefix)) = true).
Proof.
  unfold iter_keys. rewrite sort_slice_perm, list_elem_of_filter, list_elem_of_fmap, andb_true_iff.
  split.
  - intros ([Hp Hu] & [k' v] & -> & Hm%elem_of_map_to_list). simpl in *.
    split_and!; [eauto|done|]. intros ->. done.
  - intros ([v Hv] & Hp & Hu). split.
    + split; [done|]. destruct withUpperBound; [by apply Hu|done].
    + exists (k, v). by split; [|apply elem_of_map_to_list].
Qed.

Lemma iter_keys_sorted m prefix withUpperBound :
  StronglySorted bytes_lt (iter_keys m prefix withUpperBound).
Proof.
  apply (sort_slice_sorted bytes_less bytes_lt (fun _ => True)).
  - intros x y _ _. apply bytes_less_lt.
  - apply bytes_lt_trans.
  - intros x y _ _. apply bytes_lt_total.
  - by apply Forall_true.
  - apply NoDup_filter, NoDup_fst_map_to_list.
Qed.

(** The values belong to the keys. *)
Lemma iter_values (m : gmap bytes bytes) ks :
  Forall (fun k => is_Some (m !! k)) ks ->
  Forall2 (fun k v => m !! k = Some v) ks (omap (fun k => m !! k) ks).
Proof. induction 1 as [|k ks [v Hv] _ IH]; simpl; [done|]. rewrite Hv. by constructor. Qed.

(** An open iterator before the entries [l]. *)
Definition at_entries (i : iterator) (l : list (bytes * bytes)) : Prop :=
  closed i = false /\ 0 <= curInd i /\
  drop (Z.to_nat (curInd i)) (zip (keys i) (values i)) = l /\ length (keys i) = length (values i).

Lemma at_entries_valid i l :
  at_entries i l -> valid i = match l with [] => false | _ => true end.
Proof.
  intros (_ & Hi & <- & Hl). unfold valid. destruct (Z.leb_spec 0 (curInd i)); [|lia]. simpl.
  destruct (Z.ltb_spec (curInd i) (Z.of_nat (length (keys i)))) as [Hlt|Hge].
  - destruct (drop _ _) eqn:E; [|done]. apply (f_equal length) in E.
    rewrite length_drop, length_zip_with_l_eq in E by done. simpl in E. lia.
  - rewrite drop_ge; [done|]. rewrite length_zip_with_l_eq by done. lia.
Qed.

Lemma at_entries_cons i k v l :
  at_entries i ((k, v) :: l) ->
  keys i !! Z.to_nat (curInd i) = Some k /\ values i !! Z.to_nat (curInd i) = Some v /\
  at_entries (set_ind i (curInd i + 1)) l.
Proof.
  intros (Hc & Hi & E & Hl).
  assert (Hk : zip (keys i) (values i) !! Z.to_nat (curInd i) = Some (k, v)).
  { by rewrite <- (Nat.add_0_r (Z.to_nat _)), <- lookup_drop, E. }
  apply lookup_zip_Some in Hk as [Hk Hv]. split_and!; [done|done|].
  split_and!; [done|simpl; lia| |done]. simpl.
  replace (Z.to_nat (curInd i + 1)) with (Z.to_nat (curInd i) + 1)%nat by lia.
  by rewrite <- drop_drop, E.
Qed.

(** The loop [for ok := it.First(); ok; ok = it.Next()] over an iterator. *)
Fixpoint drain (fuel : nat) (ok : bool) : SE iterator dbError (list (bytes * bytes)) :=
  if negb ok then mret []
  else
    match fuel with
    | O => out_of_fuel
    | S f =>
        k ← Key; v ← Value; ok' ← Next;
        l ← drain f ok';
        mret ((default [] k, v) :: l)
    end.

Lemma wp_check_open (Q : unit -> iterator -> Prop) i :
  closed i = false -> Q tt i -> wp check_open Q i.
Proof. intros Hc HQ. unfold check_open. wp_steps; [congruence|done]. Qed.

Lemma wp_Valid (Q : bool -> iterator -> Prop) i :
  closed i = false -> Q (valid i) i -> wp Valid Q i.
Proof. intros Hc HQ. unfold Valid. wp_step. apply wp_check_open; [done|]. by wp_steps. Qed.

Lemma wp_Next (Q : bool -> iterator -> Prop) i :
  closed i = false ->
  (let i' := set_ind i (curInd i + 1) in Q (valid i') i') -> wp Next Q i.
Proof.
  intros Hc HQ. unfold Next. wp_step. apply wp_check_open; [done|]. wp_step. wp_step. apply wp_Valid; [exact Hc|exact HQ].
Qed.

Lemma wp_Key (Q : option bytes -> iterator -> Prop) i k v l :
  at_entries i ((k, v) :: l) -> Q (Some k) i -> wp Key Q i.
Proof.
  intros Hi HQ. pose proof Hi as (Hc & _). unfold Key. wp_step. apply wp_check_open; [done|].
  wp_step. apply wp_Valid; [done|]. rewrite (at_entries_valid _ _ Hi). simpl. wp_steps.
  by destruct (at_entries_cons _ _ _ _ Hi) as (-> & _).
Qed.

Lemma wp_drain fuel i l :
  at_entries i l -> (length l <= fuel)%nat -> wp (drain fuel (valid i)) (fun r _ => r = l) i.
Proof.
  revert i l. induction fuel as [|f IH]; intros i l Hi Hl.
  { destruct l; [|simpl in Hl; lia]. rewrite (at_entries_valid _ _ Hi). cbn. by wp_step. }
  rewrite (at_entries_valid _ _ Hi). destruct l as [|[k v] l]; [cbn; by wp_step|].
  pose proof (at_entries_cons _ _ _ _ Hi) as (Hk & Hv & Hi'). pose proof Hi as (Hc & _).
  cbn [drain negb]. wp_step. eapply wp_Key; [done|]. wp_step. unfold Value, UncopiedValue.
  wp_step. wp_step. rewrite Hc, (at_entries_valid _ _ Hi). simpl. eapply wp_deref; [done|].
  wp_step. apply wp_Next; [done|]. simpl. wp_step.
  eapply wp_mono; [apply (IH _ l); [done|simpl in Hl; lia]|]. intros r i' ->. by wp_steps.
Qed.

(** The entries of a map under a prefix, in order. *)
Definition entries (m : gmap bytes bytes) (prefix : bytes) (withUpperBound : bool) : list (bytes * bytes) :=
  let ks := iter_keys m prefix withUpperBound in zip ks (omap (fun k => m !! k) ks).

Lemma iter_keys_present m prefix wub : Forall (fun k => is_Some (m !! k)) (iter_keys m prefix wub).
Proof. apply Forall_forall. by intros k [? _]%iter_keys_elem. Qed.

Lemma entries_elem m prefix (wub : bool) k v :
  (k, v) ∈ entries m prefix wub <-> k ∈ iter_keys m prefix wub /\ m !! k = Some v.
Proof.
  unfold entries. pose proof (iter_values m _ (iter_keys_present m prefix wub)) as Hv.
  induction Hv as [|k' v' ks vs Hk Hv IH]; simpl.
  - split; [by intros ?%elem_of_nil|by intros [?%elem_of_nil _]].
  - rewrite !elem_of_cons, IH. split; [intros [[= -> ->]|[? ?]]; auto|].
    intros [[->|?] ?]; [left; congruence|auto].
Qed.

Lemma entries_fst m prefix wub : (entries m prefix wub).*1 = iter_keys m prefix wub.
Proof.
  apply fst_zip. pose proof (iter_values m _ (iter_keys_present m prefix wub)) as Hv.
  apply Forall2_length in Hv. lia.
Qed.

Lemma NewIterator_entries d m prefix wub :
  db d = Some m ->
  exists i, NewIterator d prefix wub = Ok i /\ at_entries (set_ind i 0) (entries m prefix wub) /\
    keys i = iter_keys m prefix wub /\ closed i = false.
Proof.
  intros Hm. unfold NewIterator. rewrite Hm. eexists. split_and!; [done| |done|done].
  split_and!; [done|done|done|]. simpl.
  pose proof (iter_values m _ (iter_keys_present m prefix wub)) as Hv. by apply Forall2_length in Hv.
Qed.

(** iterating over an open database with a prefix visits exactly the
    entries whose key has the prefix, in the strict order of the keys; with the
    upper bound of the prefix as well, unless the prefix has none (it is empty
    or only 255s): then it visits nothing. *)
Theorem iterator_lists_prefix d m prefix (wub : bool) fuel :
  db d = Some m -> is_bytes prefix -> map_Forall (fun k _ => is_bytes k) m -> (base.size m <= fuel)%nat ->
  exists i l, NewIterator d prefix wub = Ok i /\ wp (ok ← First; drain fuel ok) (fun r _ => r = l) i /\
    StronglySorted bytes_lt l.*1 /\
    (forall k v, (k, v) ∈ l <->
       m !! k = Some v /\ prefix `prefix_of` k /\ ~ (wub = true /\ UpperBound prefix = None)).
Proof.
  intros Hm Hp Hk Hf. destruct (NewIterator_entries d m prefix wub Hm) as (i & Ei & Hi & _ & Hc).
  exists i, (entries m prefix wub). split_and!; [done| | |].
  - unfold First. wp_step. wp_step. apply wp_check_open; [done|]. wp_step. wp_step. apply wp_Valid; [done|].
    eapply wp_drain; [done|]. rewrite <- (length_fmap fst), entries_fst. unfold iter_keys.
    rewrite sort_slice_perm. etrans; [apply length_filter|]. by rewrite length_fmap, length_map_to_list.
  - rewrite entries_fst. apply iter_keys_sorted.
  - intros k v. rewrite entries_elem, iter_keys_elem, HasPrefix_spec. pose proof (UpperBound_exact prefix Hp) as Hu.
    split.
    + intros ((_ & Hpre & Hub) & Hv). split_and!; [done|done|]. intros [-> Hn]. rewrite Hn in Hub.
      specialize (Hub eq_refl). simpl in Hub. by destruct k.
    + intros (Hv & Hpre & Hn). split_and!; [eauto|done| |done]. intros ->.
      destruct (UpperBound prefix) as [u|] eqn:Eu; [|by destruct Hn]. simpl.
      specialize (Hu k (Hk _ _ Hv)). apply HasPrefix_spec in Hpre. rewrite Hpre in Hu.
      by apply andb_prop in Hu as [_ ?].
Qed.

(** ** Deleting a range through a batch *)

(** The first keys below a bound. *)
Fixpoint below (end_ : bytes) (ks : list bytes) : list bytes :=
  match ks with
  | [] => []
  | k :: ks' => if 0 <=? bytes_Compare k end_ then [] else k :: below end_ ks'
  end.

Definition delete_all (m : gmap bytes bytes) (ks : list bytes) : gmap bytes bytes :=
  foldl (fun m k => delete k m) m ks.

Lemma delete_all_lookup m ks k :
  delete_all m ks !! k = if decide (k ∈ ks) then None else m !! k.
Proof.
  revert m. induction ks as [|x ks IH]; intros m; cbn [delete_all foldl].
  { by rewrite decide_False by apply not_elem_of_nil. }
  fold (delete_all (delete x m) ks). rewrite IH. destruct (decide (k ∈ ks)) as [Hin|Hni].
  - by rewrite decide_True by (by right).
  - destruct (decide (k = x)) as [->|Hne].
    + rewrite decide_True by (by left). apply lookup_delete_eq.
    + rewrite decide_False by (by rewrite elem_of_cons; intros [|]). by apply lookup_delete_ne.
Qed.

(** In a sorted list, the keys below a bound come first. *)
Lemma below_elem end_ ks k :
  StronglySorted bytes_lt ks -> k ∈ below end_ ks <-> k ∈ ks /\ bytes_less k end_ = true.
Proof.
  induction 1 as [|x ks Hs IH Hx]; cbn [below]; [split; [by intros ?%elem_of_nil|by intros [? _]]|].
  destruct (Z.leb_spec 0 (bytes_Compare x end_)) as [Hge|Hlt].
  - split; [by intros ?%elem_of_nil|]. intros [Hk Hl%bytes_less_lt].
    assert (Hn : ~ bytes_lt x end_) by (unfold bytes_lt; lia). apply elem_of_cons in Hk as [->|Hk]; [done|].
    eapply Forall_forall in Hx; [|done]. destruct Hn. by eapply bytes_lt_trans.
  - rewrite !elem_of_cons, IH. split.
    + intros [->|[? ?]]; [|auto]. split; [auto|]. by apply bytes_less_lt.
    + naive_solver.
Qed.

Lemma wp_delete_range_loop fuel i l end_ s :
  at_entries i l -> (length l <= fuel)%nat -> batch_usable s ->
  wp (delete_range_loop fuel i (valid i) end_)
    (fun _ s' => batch_usable s' /\ bdb s' = bdb s /\ view s' = delete_all (view s) (below end_ l.*1)) s.
Proof.
  revert i l s. induction fuel as [|f IH]; intros i l s Hi Hl Hs; rewrite (at_entries_valid _ _ Hi).
  { destruct l; [|simpl in Hl; lia]. cbn. by wp_step. }
  destruct l as [|[k v] l]; [cbn; by wp_step|].
  pose proof (at_entries_cons _ _ _ _ Hi) as (Hk & _ & Hi'). pose proof Hi as (Hc & _).
  cbn [delete_range_loop negb].
  destruct (wp_elim Key (fun r i' => r = Some k /\ i' = i) i) as (_ & _ & -> & -> & ->).
  { by eapply wp_Key. }
  destruct (wp_elim Next (fun r i' => r = valid i' /\ i' = set_ind i (curInd i + 1)) i)
    as (_ & _ & -> & -> & ->). { by apply wp_Next. }
  cbn [default id fmap list_fmap fst below]. destruct (0 <=? bytes_Compare k end_) eqn:E; [by wp_step|].
  wp_step. eapply wp_mono; [by apply wp_batch_Delete|]. intros _ s1 (Hs1 & Hb1 & Hv1).
  eapply wp_mono; [apply (IH _ l); [done|simpl in Hl; lia|done]|].
  intros _ s2 (Hs2 & Hb2 & Hv2). split_and!; [done|by rewrite Hb2|]. by rewrite Hv2, Hv1.
Qed.

(** [Seek] moves to the first key that is not below its argument. *)
Lemma seek_loop_spec start ks j :
  match seek_loop start ks j with
  | Some n => exists l1 k l2, ks = l1 ++ k :: l2 /\ n = j + Z.of_nat (length l1) /\
      Forall (fun x => bytes_less x start = true) l1 /\ bytes_less k start = false
  | None => Forall (fun x => bytes_less x start = true) ks
  end.
Proof.
  revert j. induction ks as [|k ks IH]; intros j; cbn [seek_loop]; [done|].
  destruct (Z.leb_spec (bytes_Compare start k) 0) as [Hle|Hgt].
  - exists [], k, ks. split_and!; [done|simpl; lia|done|].
    unfold bytes_less. rewrite (bytes_Compare_opp start k). apply Z.ltb_ge. lia.
  - assert (Hk : bytes_less k start = true).
    { unfold bytes_less. rewrite (bytes_Compare_opp start k). apply Z.ltb_lt. lia. }
    specialize (IH (j + 1)). destruct (seek_loop start ks (j + 1)); [|by constructor].
    destruct IH as (l1 & k0 & l2 & -> & -> & Hl & Hk0). exists (k :: l1), k0, l2.
    split_and!; [done|cbn [length]; lia|by constructor|done].
Qed.

(** The keys after the position [Seek] finds. *)
Lemma sorted_after l1 k l2 start x :
  StronglySorted bytes_lt (l1 ++ k :: l2) -> Forall (fun x => bytes_less x start = true) l1 ->
  bytes_less k start = false -> x ∈ k :: l2 <-> x ∈ l1 ++ k :: l2 /\ bytes_less x start = false.
Proof.
  intros Hs Hl1 Hk. rewrite elem_of_app. split; [|intros [[Hx|Hx] Hf]; [|done]].
  - intros Hx. split; [by right|]. apply StronglySorted_app_1_r in Hs.
    apply elem_of_cons in Hx as [->|Hx]; [done|]. apply StronglySorted_inv in Hs as [_ Hkl].
    eapply Forall_forall in Hkl; [|done]. apply bytes_less_false.
    apply bytes_less_false in Hk as [->|Hk]; [by right|]. right. by eapply bytes_lt_trans.
  - eapply Forall_forall in Hl1; [|done]. congruence.
Qed.

Lemma batch_NewIterator_entries s prefix wub :
  batch_usable s ->
  exists i, batch_NewIterator (bdb s) (bat s) prefix wub = Ok i /\
    at_entries (set_ind i 0) (entries (view s) prefix wub) /\
    keys i = iter_keys (view s) prefix wub /\ closed i = false.
Proof.
  intros [Ho Hb]. unfold batch_NewIterator. rewrite Ho. cbn [negb].
  set (temp := mkDbBatch _ _).
  destruct (wp_elim _ _ _ (wp_batch_Write temp (default ∅ (db (bdb s))) (conj eq_refl Hb) eq_refl))
    as (_ & s' & -> & Hd & _).
  apply NewIterator_entries. rewrite Hd. done.
Qed.

(** An iterator moved to an index. *)
Lemma at_entries_drop i l n :
  at_entries (set_ind i 0) l -> at_entries (set_ind i (Z.of_nat n)) (drop n l).
Proof.
  intros (Hc & _ & <- & Hl). split_and!; [done|simpl; lia| |done]. cbn [curInd set_ind keys values].
  by rewrite Nat2Z.id, drop_0.
Qed.

(** The position [Seek] finds and the keys after it. *)
Lemma Seek_position i start :
  closed i = false -> StronglySorted bytes_lt (keys i) ->
  exists n, Seek start i = (Ok (valid (set_ind i (Z.of_nat n))), set_ind i (Z.of_nat n)) /\
    (forall k, k ∈ drop n (keys i) <-> k ∈ keys i /\ bytes_less k start = false) /\ (n <= length (keys i))%nat.
Proof.
  intros Hc Hso.
  unfold Seek, check_open, mbind, SE_bind, get_state, put_state. rewrite Hc. cbn.
  pose proof (seek_loop_spec start (keys i) 0) as Hl. destruct (seek_loop start (keys i) 0) as [j|].
  - destruct Hl as (l1 & k & l2 & E & -> & Hl1 & Hk1). exists (length l1). split_and!.
    + rewrite Z.add_0_l. unfold valid. cbn. rewrite E, length_app. cbn [length].
      destruct (Z.leb_spec 0 (Z.of_nat (length l1))); [|lia].
      by destruct (Z.ltb_spec (Z.of_nat (length l1)) (Z.of_nat (length l1 + S (length l2)))); [|lia].
    + intros x. rewrite E, drop_app_length. apply sorted_after; [|done|done]. by rewrite <- E.
    + rewrite E, length_app. lia.
  - exists (length (keys i)). split_and!.
    + unfold valid. cbn. by rewrite Z.ltb_irrefl, andb_false_r.
    + intros x. rewrite drop_all. split; [by intros ?%elem_of_nil|]. intros [Hx Hf].
      eapply Forall_forall in Hl; [|done]. congruence.
    + done.
Qed.

Lemma wp_batch_DeleteRange start end_ s :
  batch_usable s ->
  wp (batch_DeleteRange start end_)
    (fun _ s' => batch_usable s' /\ bdb s' = bdb s /\
       view s' = filter (fun kv => in_range start end_ kv.1 = false) (view s)) s.
Proof.
  intros Hs. destruct (batch_NewIterator_entries s [] false Hs) as (i & Ei & Hi & Hk & Hc).
  pose proof (iter_keys_sorted (view s) [] false) as Hso.
  unfold batch_DeleteRange. wp_step. wp_step. wp_step. rewrite Ei. eapply wp_intro; [done|].
  rewrite <- Hk in Hso. destruct (Seek_position i start Hc Hso) as (n & -> & Hn & _). rewrite Hk in Hso.
  pose proof (at_entries_drop _ _ n Hi) as Hat. cbn [keys set_ind].
  pose proof (entries_fst (view s) [] false) as Hfst.
  eapply wp_mono; [apply (wp_delete_range_loop _ _ _ end_ s Hat); [|done]|].
  { rewrite length_drop, <- (length_fmap fst), Hfst, Hk. lia. }
  intros _ s' (Hs' & Hb' & Hv'). split_and!; [done|done|]. rewrite Hv', fmap_drop, Hfst.
  assert (Hd : StronglySorted bytes_lt (drop n (iter_keys (view s) [] false))).
  { rewrite <- (take_drop n) in Hso. by apply StronglySorted_app_1_r in Hso. }
  apply map_eq. intros k. rewrite delete_all_lookup. rewrite Hk in Hn.
  assert (Hin : k ∈ below end_ (drop n (iter_keys (view s) [] false)) <->
                is_Some (view s !! k) /\ in_range start end_ k = true).
  { rewrite below_elem, Hn, iter_keys_elem by done. unfold in_range.
    rewrite andb_true_iff, negb_true_iff. assert (HasPrefix k [] = true) by (by destruct k). naive_solver. }
  destruct (view s !! k) as [v|] eqn:Ev.
  - destruct (in_range start end_ k) eqn:Er.
    + rewrite decide_True by (apply Hin; eauto). symmetry. apply map_lookup_filter_None_2. right.
      intros v' _. simpl. congruence.
    + rewrite decide_False by (rewrite Hin; naive_solver). symmetry. by apply map_lookup_filter_Some_2.
  - rewrite map_lookup_filter_None_2 by (by left). by destruct (decide _).
Qed.

(** ** The interface of a store

    What the code that reads and writes trie nodes relies on: a usable store has
    contents, reads are lookups in them and writes change them. *)

Class KVLaws (S : Type) `{!KVStore S} := {
  kv_open : S -> Prop;
  kv_map : S -> gmap bytes bytes;
  kv_get_spec s k : kv_open s ->
    kv_get s k = match kv_map s !! k with Some v => Ok v | None => Err ErrNotFound end;
  kv_put_spec s k v : kv_open s ->
    wp (kv_put k v) (fun _ s' => kv_open s' /\ kv_map s' = <[k := v]> (kv_map s)) s;
  kv_del_spec s k : kv_open s ->
    wp (kv_del k) (fun _ s' => kv_open s' /\ kv_map s' = delete k (kv_map s)) s;
  kv_delrange_spec s a b : kv_open s ->
    wp (kv_delrange a b) (fun _ s' => kv_open s' /\
      kv_map s' = filter (fun kv => in_range a b kv.1 = false) (kv_map s)) s;
}.

Lemma wp_with_map f d :
  is_Some (db d) ->
  wp (with_map f) (fun _ d' => is_Some (db d') /\ default ∅ (db d') = f (default ∅ (db d))) d.
Proof.
  intros [m Hm]. unfold with_map. wp_step. wp_step. rewrite Hm. eapply wp_intro; [done|]. simpl. eauto.
Qed.

#[export, refine] Instance Database_laws : KVLaws Database := {|
  kv_open d := is_Some (db d);
  kv_map d := default ∅ (db d);
|}.
Proof.
  - intros d k [m Hm]. simpl. unfold Get. by rewrite Hm.
  - intros d k v. apply (wp_with_map (fun m => <[k := v]> m)).
  - intros d k. apply (wp_with_map (fun m => delete k m)).
  - intros d a b. apply (wp_with_map (fun m => filter (fun kv => in_range a b kv.1 = false) m)).
Defined.

(** The batches of a database [d], which they leave alone. *)
#[refine] Instance batch_laws (d : Database) : KVLaws dbBatch := {|
  kv_open s := batch_usable s /\ bdb s = d;
  kv_map := view;
|}.
Proof.
  - intros s k [Hs _]. by apply batch_Get_view.
  - intros s k v [Hs <-]. eapply wp_mono; [by apply wp_batch_Put|]. naive_solver.
  - intros s k [Hs <-]. eapply wp_mono; [by apply wp_batch_Delete|]. naive_solver.
  - intros s a b [Hs <-]. eapply wp_mono; [by apply wp_batch_DeleteRange|]. naive_solver.
Defined.

(** ** A batch is a transaction *)

Inductive kv_op : Type :=
| KPut (k v : bytes)
| KDelete (k : bytes)
| KDeleteRange (start end_ : bytes).

(** An operation on the database itself, and through a batch. *)
Definition on_db (op : kv_op) : SE Database dbError unit :=
  match op with
  | KPut k v => Put k v
  | KDelete k => memory.Delete k
  | KDeleteRange a b => DeleteRange a b
  end.

Definition on_batch (op : kv_op) : SE dbBatch dbError unit :=
  match op with
  | KPut k v => batch_Put k v
  | KDelete k => batch_Delete k
  | KDeleteRange a b => batch_DeleteRange a b
  end.

Fixpoint in_order {S} (f : kv_op -> SE S dbError unit) (ops : list kv_op) : SE S dbError unit :=
  match ops with
  | [] => mret tt
  | op :: ops' => f op;; in_order f ops'
  end.

(** The effect of an operation on the contents. *)
Definition kv_effect (m : gmap bytes bytes) (op : kv_op) : gmap bytes bytes :=
  match op with
  | KPut k v => <[k := v]> m
  | KDelete k => delete k m
  | KDeleteRange a b => filter (fun kv => in_range a b kv.1 = false) m
  end.

Lemma run_on_db ops d m :
  db d = Some m -> in_order on_db ops d = (Ok tt, set_db d (foldl kv_effect m ops)).
Proof.
  revert d m. induction ops as [|op ops IH]; intros d m Hm; cbn [in_order foldl].
  { destruct d. simpl in *. by subst. }
  unfold mbind, SE_bind. assert (E : on_db op d = (Ok tt, set_db d (kv_effect m op))).
  { destruct op; simpl; unfold Put, memory.Delete, DeleteRange, with_map, mbind, SE_bind; simpl; by rewrite Hm. }
  rewrite E. by rewrite (IH _ (kv_effect m op)).
Qed.

Lemma wp_run_batch ops s :
  batch_usable s ->
  wp (in_order on_batch ops) (fun _ s' => batch_usable s' /\ bdb s' = bdb s /\
    view s' = foldl kv_effect (view s) ops) s.
Proof.
  revert s. induction ops as [|op ops IH]; intros s Hs; cbn [in_order foldl]; [by wp_step|].
  wp_step. eapply (wp_mono _ (fun _ s' => batch_usable s' /\ bdb s' = bdb s /\ view s' = kv_effect (view s) op)).
  - destruct op; [by apply wp_batch_Put|by apply wp_batch_Delete|by apply wp_batch_DeleteRange].
  - intros _ s1 (Hs1 & Hb1 & Hv1). eapply wp_mono; [by apply IH|].
    intros _ s2 (Hs2 & Hb2 & Hv2). split_and!; [done|congruence|]. by rewrite Hv2, Hv1.
Qed.

(** C13: a batch is a transaction: after any puts, deletions and range
    deletions through a batch of an open database, the database is as it was;
    the batch reads every key as the database would if the same operations had
    been made on it directly; and [Write] leaves exactly that database and
    closes the batch. *)
Theorem batch_is_transaction d m ops :
  db d = Some m ->
  exists d', in_order on_db ops d = (Ok tt, d') /\
    wp (in_order on_batch ops)
      (fun _ s => bdb s = d /\
         (forall k, batch_Get (bdb s) (bat s) k = Get d' k /\ batch_Has (bdb s) (bat s) k = Has d' k) /\
         wp batch_Write (fun _ s' => bdb s' = d' /\ b_open (bat s') = false) s)
      (mkDbBatch d newBatch).
Proof.
  intros Hm. eexists. split; [by apply run_on_db|].
  eapply wp_mono; [apply wp_run_batch, newBatch_usable|]. intros _ s (Hs & Hb & Hv).
  assert (Ev : view s = foldl kv_effect m ops) by (rewrite Hv; unfold view; simpl; by rewrite Hm).
  split_and!; [done| |].
  - intros k. rewrite batch_Get_view, batch_Has_view, Ev by done. done.
  - eapply wp_mono; [eapply wp_batch_Write; [done|by rewrite Hb]|].
    intros _ s' [-> ?]. split; [|done]. by rewrite Hb, Ev.
Qed.

(** ** The buffered batch *)

(** The contents of the buffer over those of its batch. *)
Definition buffer_view (b : BufferBatch) (k : bytes) : option bytes :=
  match b_updates b !! k with Some v => v | None => view (txn b) !! k end.

Lemma wp_flush_all order s :
  batch_usable s -> NoDup order.*1 ->
  wp (flush_all order) (fun _ s' => batch_usable s' /\ bdb s' = bdb s /\
    forall k, view s' !! k = match (list_to_map order : gmap bytes (option bytes)) !! k with
                             | Some v => v | None => view s !! k end) s.
Proof.
  revert s. induction order as [|[k v] order IH]; intros s Hs Hd; cbn [flush_all].
  { wp_step. split_and!; [done|done|]. intros k. simpl. by rewrite lookup_empty. }
  apply NoDup_cons in Hd as [Hni Hd]. wp_step.
  eapply (wp_mono _ (fun _ s' => batch_usable s' /\ bdb s' = bdb s /\
    view s' = match v with Some x => <[k := x]> (view s) | None => delete k (view s) end)).
  { unfold flush_one. destruct v; [by apply wp_batch_Put|by apply wp_batch_Delete]. }
  intros _ s1 (Hs1 & Hb1 & Hv1). eapply wp_mono; [by apply IH|]. intros _ s2 (Hs2 & Hb2 & Hv2).
  split_and!; [done|congruence|]. intros x. rewrite Hv2, Hv1. cbn [list_to_map foldr fst snd uncurry].
  destruct (decide (k = x)) as [<-|Hne].
  - rewrite lookup_insert_eq, not_elem_of_list_to_map_1 by done.
    destruct v; [by rewrite lookup_insert_eq|by rewrite lookup_delete_eq].
  - rewrite lookup_insert_ne by done. destruct (list_to_map order !! x); [done|].
    destruct v; [by rewrite lookup_insert_ne|by rewrite lookup_delete_ne].
Qed.

(** Writing a buffered batch, in any order of its updates, leaves a database
    that reads every key as the buffered batch did. *)
Lemma buffer_Write_exact order b m :
  batch_usable (txn b) -> db (bdb (txn b)) = Some m -> order ≡ₚ map_to_list (b_updates b) ->
  exists b', buffer_Write order b = (Ok tt, b') /\
    forall k, Get (bdb (txn b')) k = buffer_Get b k.
Proof.
  intros Hs Hm Hp.
  assert (Hd : NoDup order.*1) by (rewrite Hp; apply NoDup_fst_map_to_list).
  destruct (wp_elim _ _ _ (wp_flush_all order (txn b) Hs Hd)) as ([] & s1 & E1 & Hs1 & Hb1 & Hv1).
  destruct (wp_elim _ _ _ (wp_batch_Write s1 m Hs1 ltac:(by rewrite Hb1))) as ([] & s2 & E2 & Hd2 & _).
  exists (mkBuffer ∅ s2). split.
  { unfold buffer_Write, Flush. rewrite E1. simpl. by rewrite E2. }
  intros k. unfold buffer_Get. cbn [txn]. rewrite Hd2. unfold Get. cbn [db set_db]. rewrite Hv1.
  rewrite (list_to_map_proper order (map_to_list (b_updates b))) by done.
  rewrite list_to_map_to_list, batch_Get_view by done.
  by destruct (b_updates b !! k) as [[v|]|].
Qed.

(** ** On concrete inputs *)

Definition small_db : Database := set_db New (list_to_map [([1; 2], [10]); ([1; 255; 3], [20]); ([2], [30])]).

Lemma iterator_lists_prefix_witness :
  exists i l, NewIterator small_db [1] true = Ok i /\ wp (ok ← First; drain 3 ok) (fun r _ => r = l) i /\
    StronglySorted bytes_lt l.*1 /\ ([1; 255; 3], [20]) ∈ l.
Proof.
  destruct (iterator_lists_prefix small_db (list_to_map [([1; 2], [10]); ([1; 255; 3], [20]); ([2], [30])])
    [1] true 3) as (i & l & Hi & Hw & Hs & Hl).
  - done.
  - repeat constructor; done.
  - intros k v Hk%elem_of_list_to_map_2. repeat (apply elem_of_cons in Hk as [[= -> ->]|Hk];
      [repeat constructor; done|]). by apply elem_of_nil in Hk.
  - vm_compute. lia.
  - exists i, l. split_and!; [done..|]. apply Hl. split_and!; [done|by exists [255; 3]|by intros [_ ?]].
Defined.

Lemma batch_is_transaction_witness :
  exists d', in_order on_db [KPut [3] [40]; KDeleteRange [1] [2]] small_db = (Ok tt, d') /\
    Get d' [1; 2] = Err ErrNotFound /\ Get d' [3] = Ok [40] /\
    wp (in_order on_batch [KPut [3] [40]; KDeleteRange [1] [2]])
      (fun _ s => bdb s = small_db /\ batch_Get (bdb s) (bat s) [1; 2] = Get d' [1; 2])
      (mkDbBatch small_db newBatch).
Proof.
  destruct (batch_is_transaction small_db (list_to_map [([1; 2], [10]); ([1; 255; 3], [20]); ([2], [30])])
    [KPut [3] [40]; KDeleteRange [1] [2]]) as (d' & E & Hw); [done|].
  exists d'. split; [done|]. vm_compute in E. injection E as <-. split; [done|]. split; [done|].
  eapply wp_mono; [exact Hw|]. intros _ s (Hd & Hg & _). split; [done|]. apply Hg.
Defined.
