(* ===== verification/TrieDB.v ===== *)
(** * The database of the tries

    [src/db/buckets.go], [src/core/trie2/trieutils/id.go] and [accessors.go]:
    the keys under which trie nodes and the bookkeeping of the trie database are
    stored, and [src/core/trie2/triedb/rawdb], the database that keeps one
    version of every node under its path.

    The accessors take any store that implements the interface [KVStore].  A Go
    map is iterated in any order: the orders are parameters. *)
From stdpp Require Import prelude gmap list strings.
From Stdlib Require Import ZArith Lia.
From S2P Require Import Prelude Felt BitArray TrieNode Trie MemDB.

Local Open Scope Z_scope.

(** ** [buckets.go] *)

Inductive innerBucket : Type :=
| stateTrie | peer | contractClassHash | contractStorage | class | contractNonce | chainHeight
| blockHeaderNumbersByHash | blockHeadersByNumber | transactionBlockNumbersAndIndicesByHash
| transactionsByBlockNumberAndIndex | receiptsByBlockNumberAndIndex | stateUpdatesByBlockNumber
| classesTrie | deprecatedContractStorageHistory | deprecatedContractNonceHistory
| deprecatedContractClassHashHistory | contractDeploymentHeight | l1Height
| deprecatedSchemaVersion | unused | blockCommitments | temporary
| deprecatedSchemaIntermediateState | l1HandlerTxnHashByMsgHash | mempoolHead | mempoolTail
| mempoolLength | mempoolNode | classTrie | contractTrieContract | contractTrieStorage | contract
| stateHashToTrieRoots | stateID | persistedStateID | trieJournal | aggregatedBloomFilters
| runningEventFilter | classCasmHashMetadata | blockTransactions | schemaMetadata
| schemaIntermediateState | contractClassHashHistory | contractNonceHistory | contractStorageHistory.

#[export] Instance innerBucket_eq_dec : EqDecision innerBucket.
Proof. solve_decision. Defined.

(** The order of the constants is their value. *)
Definition all_buckets : list innerBucket :=
  [stateTrie; peer; contractClassHash; contractStorage; class; contractNonce; chainHeight;
   blockHeaderNumbersByHash; blockHeadersByNumber; transactionBlockNumbersAndIndicesByHash;
   transactionsByBlockNumberAndIndex; receiptsByBlockNumberAndIndex; stateUpdatesByBlockNumber;
   classesTrie; deprecatedContractStorageHistory; deprecatedContractNonceHistory;
   deprecatedContractClassHashHistory; contractDeploymentHeight; l1Height;
   deprecatedSchemaVersion; unused; blockCommitments; temporary;
   deprecatedSchemaIntermediateState; l1HandlerTxnHashByMsgHash; mempoolHead; mempoolTail;
   mempoolLength; mempoolNode; classTrie; contractTrieContract; contractTrieStorage; contract;
   stateHashToTrieRoots; stateID; persistedStateID; trieJournal; aggregatedBloomFilters;
   runningEventFilter; classCasmHashMetadata; blockTransactions; schemaMetadata;
   schemaIntermediateState; contractClassHashHistory; contractNonceHistory; contractStorageHistory].

Definition bucket_byte (b : innerBucket) : Z :=
  match list_find (eq b) all_buckets with
  | Some (i, _) => Z.of_nat i
  | None => 0
  end.

Definition Bucket_Key (b : innerBucket) (ks : list bytes) : bytes := bucket_byte b :: concat ks.

Section definitions.
Context {F : Type} `{!FieldElement F}.

Abbreviation Path := BitArray.
Abbreviation tnode := (TrieNode F).

(** ** [id.go] *)

Inductive TrieType : Type := TEmpty | TClass | TContract | TContractStorage.

Definition TrieType_String (t : TrieType) : string :=
  match t with
  | TEmpty => "Empty"
  | TClass => "Class"
  | TContract => "Contract"
  | TContractStorage => "ContractStorage"
  end.

Inductive TrieID : Type :=
| ClassTrieID (stateComm : F)
| ContractTrieID (stateComm : F)
| ContractStorageTrieID (stateComm owner : F)
| EmptyTrieID (stateComm : F).

Definition Type_ (id : TrieID) : TrieType :=
  match id with
  | ClassTrieID _ => TClass
  | ContractTrieID _ => TContract
  | ContractStorageTrieID _ _ => TContractStorage
  | EmptyTrieID _ => TEmpty
  end.

(** The bucket of an empty trie is zero. *)
Definition Bucket (id : TrieID) : innerBucket :=
  match id with
  | ClassTrieID _ => classTrie
  | ContractTrieID _ => contractTrieContract
  | ContractStorageTrieID _ _ => contractTrieStorage
  | EmptyTrieID _ => stateTrie
  end.

Definition StateComm (id : TrieID) : F :=
  match id with
  | ClassTrieID c | ContractTrieID c | ContractStorageTrieID c _ | EmptyTrieID c => c
  end.

Definition HasOwner (id : TrieID) : bool :=
  match id with ContractStorageTrieID _ _ => true | _ => false end.

Definition id_Owner (id : TrieID) : F :=
  match id with ContractStorageTrieID _ o => o | _ => felt_Zero end.

(** ** [accessors.go] *)

(** [leafType] of [types.go]. *)
Definition nonLeaf : Z := 1.
Definition leaf : Z := 2.

Definition node_type (isLeaf : bool) : Z := if isLeaf then leaf else nonLeaf.

(** The owner is left out when it is zero. *)
Definition owner_bytes (owner : F) : bytes := if felt_IsZero owner then [] else felt_Bytes owner.

Definition nodeKeyByPath (prefix : innerBucket) (owner : F) (path : Path) (isLeaf : bool) : bytes :=
  [bucket_byte prefix] ++ owner_bytes owner ++ [node_type isLeaf] ++ EncodedBytes path.

(** [copy] into the first [n] bytes of a zeroed slice. *)
Definition copy_into (n : nat) (l : bytes) : bytes := take n l ++ replicate (n - length l) 0.

Definition nodeKeyByHash (prefix : innerBucket) (owner : F) (path : Path) (hash : F) (isLeaf : bool)
  : bytes :=
  let activeBytes := drop (Z.to_nat (inactiveBytes path)) (Bytes path) in
  [bucket_byte prefix] ++ owner_bytes owner ++ [node_type isLeaf] ++ copy_into 8 activeBytes ++
  felt_Bytes hash.

Section accessors.
Context {S : Type} `{!KVStore S}.

Definition GetNodeByPath (r : S) (bucket : innerBucket) (owner : F) (path : Path) (isLeaf : bool)
  : outcome dbError bytes := kv_get r (nodeKeyByPath bucket owner path isLeaf).

Definition WriteNodeByPath (bucket : innerBucket) (owner : F) (path : Path) (isLeaf : bool)
    (blob : bytes) : SE S dbError unit := kv_put (nodeKeyByPath bucket owner path isLeaf) blob.

Definition DeleteNodeByPath (bucket : innerBucket) (owner : F) (path : Path) (isLeaf : bool)
  : SE S dbError unit := kv_del (nodeKeyByPath bucket owner path isLeaf).

Definition DeleteStorageNodesByPath (owner : F) : SE S dbError unit :=
  let prefix := Bucket_Key contractTrieStorage [felt_Bytes owner] in
  kv_delrange prefix (default [] (UpperBound prefix)).

Definition GetNodeByHash (r : S) (bucket : innerBucket) (owner : F) (path : Path) (hash : F)
    (isLeaf : bool) : outcome dbError bytes :=
  kv_get r (nodeKeyByHash bucket owner path hash isLeaf).

Definition WriteNodeByHash (bucket : innerBucket) (owner : F) (path : Path) (hash : F)
    (isLeaf : bool) (blob : bytes) : SE S dbError unit :=
  kv_put (nodeKeyByHash bucket owner path hash isLeaf) blob.

(** [binary.BigEndian.Uint64] panics on a short slice. *)
Definition BigEndian_Uint64 (v : bytes) : outcome dbError Z :=
  if (length v <? 8)%nat then Panic else Ok (be_val (take 8 v)).

(** [StateIDKey] of [schema.go]. *)
Definition StateIDKey (root : F) : bytes := Bucket_Key stateID [felt_Bytes root].

Definition WriteStateID (root : F) (id : Z) : SE S dbError unit := kv_put (StateIDKey root) (be_bytes 8 id).

Definition ReadStateID (r : S) (root : F) : outcome dbError Z :=
  v ← kv_get r (StateIDKey root); BigEndian_Uint64 v.

Definition DeleteStateID (root : F) : SE S dbError unit := kv_del (StateIDKey root).

Definition ReadPersistedStateID (r : S) : outcome dbError Z :=
  v ← kv_get r (Bucket_Key persistedStateID []); BigEndian_Uint64 v.

Definition WritePersistedStateID (id : Z) : SE S dbError unit :=
  kv_put (Bucket_Key persistedStateID []) (be_bytes 8 id).

Definition ReadTrieJournal (r : S) : outcome dbError bytes := kv_get r (Bucket_Key trieJournal []).

Definition WriteTrieJournal (journal : bytes) : SE S dbError unit :=
  kv_put (Bucket_Key trieJournal []) journal.

(** ** [rawdb] *)

Definition readNode (d : S) (id : TrieID) (owner : F) (path : Path) (isLeaf : bool)
  : outcome dbError bytes := GetNodeByPath d (Bucket id) owner path isLeaf.

(** The reader of a trie: [Node] ignores the hash. *)
Definition NodeReader (d : S) (id : TrieID) : dbReader (F:=F) := fun owner path _ isLeaf =>
  match readNode d id owner path isLeaf with
  | Ok b => Ok b
  | Err ErrNotFound => Err ErrKeyNotFound
  | Err _ => Err ErrRead
  | Panic => Panic
  | NoFuel => NoFuel
  end.

Definition updateNode (bucket : innerBucket) (owner : F) (path : Path) (n : tnode) : SE S dbError unit :=
  if is_deleted n then DeleteNodeByPath bucket owner path (IsLeaf n)
  else WriteNodeByPath bucket owner path (IsLeaf n) (Blob n).

Fixpoint for_each {A} (f : A -> SE S dbError unit) (l : list A) : SE S dbError unit :=
  match l with
  | [] => mret tt
  | x :: l' => f x;; for_each f l'
  end.

(** The orders in which the maps are iterated. *)
Variable order : gmap Path tnode -> list (Path * tnode).
Variable owner_order : gmap F (gmap Path tnode) -> list (F * gmap Path tnode).

(** The loop over the nodes of one trie. *)
Definition update_nodes (bucket : innerBucket) (owner : F) (nodes : gmap Path tnode) : SE S dbError unit :=
  for_each (fun x => updateNode bucket owner x.1 x.2) (order nodes).

(** [Update] writes to a batch. *)
Definition raw_Update (mergedClassNodes mergedContractNodes : option (MergeNodeSet (F:=F)))
  : SE S dbError unit :=
  let classNodes := match mergedClassNodes with Some m => (Flatten m).1 | None => ∅ end in
  let contractNodes := match mergedContractNodes with Some m => (Flatten m).1 | None => ∅ end in
  let contractStorageNodes :=
    match mergedContractNodes with Some m => (Flatten m).2 | None => ∅ end in
  update_nodes classTrie felt_Zero classNodes;;
  update_nodes contractTrieContract felt_Zero contractNodes;;
  for_each (fun x => update_nodes contractTrieStorage x.1 x.2) (owner_order contractStorageNodes).

End accessors.

Definition raw_NewIterator (d : memory.Database) (id : TrieID) : outcome dbError memory.iterator :=
  memory.NewIterator d (Bucket_Key (Bucket id) [] ++ owner_bytes (id_Owner id)) true.

End definitions.

Arguments TrieID F : clear implicits.
