(* ===== verification/TrieDBFacts.v ===== *)
(** * The database of the tries: keys and updates

    Keys of nodes are unambiguous, and an update of the raw database changes
    exactly the nodes of its node sets. *)
From stdpp Require Import prelude gmap list.
From Stdlib Require Import ZArith Lia.
From S2P Require Import Prelude Felt BitArray BitArrayFacts BitArrayCodec TrieNode Trie.
From S2P Require Import MemDB MemDBFacts TrieDB.

Local Open Scope Z_scope.

Lemma bucket_byte_inj b b' : bucket_byte b = bucket_byte b' -> b = b'.
Proof.
  assert (H : forall x, all_buckets !! Z.to_nat (bucket_byte x) = Some x) by (by intros []).
  intros E. pose proof (H b) as H1. rewrite E, H in H1. by injection H1.
Qed.

Lemma bucket_byte_range b : 0 <= bucket_byte b < 46.
Proof. by destruct b. Qed.

Section facts.
Context {F : Type} `{!FieldElement F} `{!FieldElementLaws F}.
Implicit Types (o : F) (p : BitArray) (n : TrieNode F).

(** ** Keys *)

Lemma EncodedBytes_inj p p' : wf p -> wf p' -> EncodedBytes p = EncodedBytes p' -> p = p'.
Proof.
  intros Hp Hp' E. apply (f_equal UnmarshalBinary) in E. rewrite !decode_encode in E by done. by injection E.
Qed.

(** The last byte of an encoded path is its length. *)
Lemma EncodedBytes_last p : wf p -> exists l, EncodedBytes p = l ++ [len p].
Proof. intros Hp. rewrite EncodedBytes_spec by done. eauto. Qed.

Lemma EncodedBytes_length p : wf p -> length (EncodedBytes p) = S (Z.to_nat (activeBytes p)).
Proof. intros Hp. rewrite EncodedBytes_spec, length_app, length_be_bytes by done. simpl. lia. Qed.

Lemma owner_bytes_inj o o' :
  length (owner_bytes o) = length (owner_bytes o') -> owner_bytes o = owner_bytes o' -> o = o'.
Proof.
  unfold owner_bytes, felt_IsZero. destruct (bool_decide (o = _)) eqn:E1, (bool_decide (o' = _)) eqn:E2; intros Hl E.
  - apply bool_decide_eq_true_1 in E1, E2. congruence.
  - rewrite felt_bytes_length in Hl. done.
  - rewrite felt_bytes_length in Hl. done.
  - by apply felt_Bytes_inj.
Qed.

(** The key of a trie node is unambiguous: two nodes with the same key
    are in the same bucket, of the same owner, at the same path, and both
    leaves or both inner nodes, although keys have no separators and the owner
    is left out when it is zero. *)
Lemma nodeKeyByPath_injective b o p lf b' o' p' lf' :
  wf p -> wf p' -> nodeKeyByPath b o p lf = nodeKeyByPath b' o' p' lf' ->
  b = b' /\ o = o' /\ p = p' /\ lf = lf'.
Proof.
  intros Hp Hp' [= Eb E]. apply bucket_byte_inj in Eb as <-.
  assert (El : EncodedBytes p = EncodedBytes p' /\ owner_bytes o ++ [node_type lf] = owner_bytes o' ++ [node_type lf']).
  { rewrite !cons_middle, !app_assoc in E. apply app_inj_2 in E; [tauto|].
    destruct (EncodedBytes_last p Hp) as [l El], (EncodedBytes_last p' Hp') as [l' El'].
    pose proof E as E'. rewrite El, El', !app_assoc in E'. apply app_inj_tail in E' as [_ Hlen].
    rewrite !EncodedBytes_length by done. unfold activeBytes. by rewrite Hlen. }
  destruct El as [Ep Eo]. apply EncodedBytes_inj in Ep as <-; [|done|done].
  apply app_inj_tail in Eo as [Eo Et]. split_and!; [done| |done|by destruct lf, lf'].
  apply owner_bytes_inj; [congruence|done].
Qed.

(** ** Updates *)

Section updates.
Context {S : Type} `{!KVStore S} `{!KVLaws S}.
Variable order : gmap BitArray (TrieNode F) -> list (BitArray * TrieNode F).
Variable owner_order : gmap F (gmap BitArray (TrieNode F)) -> list (F * gmap BitArray (TrieNode F)).
Hypothesis order_perm : forall m, order m ≡ₚ map_to_list m.
Hypothesis owner_order_perm : forall m, owner_order m ≡ₚ map_to_list m.

(** What a node set says about a key: [None] when it says nothing. *)
Definition says (nodes : gmap BitArray (TrieNode F)) p (lf : bool) : option (option bytes) :=
  n ← nodes !! p;
  if Bool.eqb (IsLeaf n) lf then Some (if is_deleted n then None else Some (Blob n)) else None.

(** [m'] is [m] with the nodes of a set written under a bucket and an owner. *)
Definition updated (b : innerBucket) o (nodes : gmap BitArray (TrieNode F)) (m m' : gmap bytes bytes) : Prop :=
  (forall p lf, wf p ->
     m' !! nodeKeyByPath b o p lf = default (m !! nodeKeyByPath b o p lf) (says nodes p lf)) /\
  (forall k, (forall p lf, wf p -> k ≠ nodeKeyByPath b o p lf) -> m' !! k = m !! k).

Lemma wp_updateNode b o p n (s : S) :
  kv_open s ->
  wp (updateNode b o p n) (fun _ s' => kv_open s' /\
    kv_map s' = let k := nodeKeyByPath b o p (IsLeaf n) in
                if is_deleted n then base.delete k (kv_map s) else <[k := Blob n]> (kv_map s)) s.
Proof.
  intros Hs. unfold updateNode. destruct (is_deleted n).
  - by apply kv_del_spec.
  - by apply kv_put_spec.
Qed.

(** The contents after one node. *)
Lemma one_node_updated b o p n m :
  wf p ->
  updated b o {[p := n]} m (let k := nodeKeyByPath b o p (IsLeaf n) in
                            if is_deleted n then base.delete k m else <[k := Blob n]> m).
Proof.
  intros Hp. split.
  - intros q lf Hq. unfold says. destruct (decide (p = q)) as [<-|Hne].
    + rewrite lookup_singleton_eq. simpl. destruct (Bool.eqb (IsLeaf n) lf) eqn:El.
      * apply Bool.eqb_prop in El as <-.
        destruct (is_deleted n); [by rewrite lookup_delete_eq|by rewrite lookup_insert_eq].
      * assert (nodeKeyByPath b o p (IsLeaf n) ≠ nodeKeyByPath b o p lf).
        { intros E. apply nodeKeyByPath_injective in E as (_ & _ & _ & E); [|done|done].
          by rewrite E, Bool.eqb_reflx in El. }
        destruct (is_deleted n); [by rewrite lookup_delete_ne|by rewrite lookup_insert_ne].
    + rewrite lookup_singleton_ne by done. simpl.
      assert (nodeKeyByPath b o p (IsLeaf n) ≠ nodeKeyByPath b o q lf).
      { intros E. by apply nodeKeyByPath_injective in E as (_ & _ & E & _). }
      destruct (is_deleted n); [by rewrite lookup_delete_ne|by rewrite lookup_insert_ne].
  - intros k Hk. specialize (Hk p (IsLeaf n) Hp). simpl.
    destruct (is_deleted n); [by rewrite lookup_delete_ne|by rewrite lookup_insert_ne].
Qed.

Lemma updated_refl b o m : updated b o ∅ m m.
Proof. split; [|done]. intros p lf _. unfold says. by rewrite lookup_empty. Qed.

Lemma updated_trans b o ns1 ns2 m1 m2 m3 :
  ns1 ##ₘ ns2 -> updated b o ns1 m1 m2 -> updated b o ns2 m2 m3 -> updated b o (ns1 ∪ ns2) m1 m3.
Proof.
  intros Hd [H1 H1'] [H2 H2']. split; [|intros k Hk; by rewrite H2', H1'].
  intros p lf Hp. rewrite H2, H1 by done. unfold says.
  destruct (ns2 !! p) as [n2|] eqn:E2.
  - assert (E1 : ns1 !! p = None) by (eapply map_disjoint_Some_l; done).
    by rewrite lookup_union_r, E1, E2.
  - by rewrite lookup_union_l.
Qed.

Lemma wp_for_each_updated b o l (s : S) :
  kv_open s -> NoDup l.*1 -> Forall (fun x => wf x.1) l ->
  wp (for_each (fun x => updateNode b o x.1 x.2) l)
    (fun _ s' => kv_open s' /\ updated b o (list_to_map l) (kv_map s) (kv_map s')) s.
Proof.
  revert s. induction l as [|[p n] l IH]; intros s Hs Hd Hw; cbn [for_each].
  { wp_step. split; [done|]. apply updated_refl. }
  apply NoDup_cons in Hd as [Hni Hd]. apply Forall_cons in Hw as [Hp Hw].
  wp_step. eapply wp_mono; [by apply wp_updateNode|]. intros _ s1 [Hs1 Hm1].
  eapply wp_mono; [by apply IH|]. intros _ s2 [Hs2 Hm2]. split; [done|].
  cbn [list_to_map foldr uncurry fst snd]. rewrite insert_union_singleton_l.
  rewrite Hm1 in Hm2. eapply updated_trans; [|by apply one_node_updated|exact Hm2].
  apply map_disjoint_singleton_l. by apply not_elem_of_list_to_map_1.
Qed.

Lemma wp_update_nodes b o nodes (s : S) :
  kv_open s -> map_Forall (fun p _ => wf p) nodes ->
  wp (update_nodes order b o nodes)
    (fun _ s' => kv_open s' /\ updated b o nodes (kv_map s) (kv_map s')) s.
Proof.
  intros Hs Hw. unfold update_nodes. pose proof (order_perm nodes) as Hp.
  assert (Hd : NoDup (order nodes).*1) by (rewrite Hp; apply NoDup_fst_map_to_list).
  eapply wp_mono; [apply wp_for_each_updated; [done|done|]|].
  - rewrite Hp. apply Forall_forall. intros [p n] Hin%elem_of_map_to_list. by apply (Hw p n).
  - intros _ s' [Hs' Hu]. split; [done|].
    rewrite (list_to_map_proper (order nodes) (map_to_list nodes)) in Hu by done.
    by rewrite list_to_map_to_list in Hu.
Qed.

(** Updates under another bucket or owner leave the nodes alone. *)
Lemma updated_other b o b' o' nodes m m' p lf :
  updated b o nodes m m' -> wf p -> (b, o) ≠ (b', o') ->
  m' !! nodeKeyByPath b' o' p lf = m !! nodeKeyByPath b' o' p lf.
Proof.
  intros [_ H] Hp Hne. apply H. intros q lf' Hq E.
  apply nodeKeyByPath_injective in E as (-> & -> & _); done.
Qed.

(** The loop over the storage tries. *)
Lemma wp_update_storage (l : list (F * gmap BitArray (TrieNode F))) (s : S) :
  kv_open s -> NoDup l.*1 -> Forall (fun x => map_Forall (fun p _ => wf p) x.2) l ->
  wp (for_each (fun x => update_nodes order contractTrieStorage x.1 x.2) l)
    (fun _ s' => kv_open s' /\ forall b o p lf, wf p ->
       kv_map s' !! nodeKeyByPath b o p lf =
         default (kv_map s !! nodeKeyByPath b o p lf)
           (if decide (b = contractTrieStorage)
            then nodes ← (list_to_map l : gmap F _) !! o; says nodes p lf else None)) s.
Proof.
  revert s. induction l as [|[o0 ns] l IH]; intros s Hs Hd Hw; cbn [for_each].
  { wp_step. split; [done|]. intros b o p lf _. simpl. rewrite lookup_empty. by case_decide. }
  apply NoDup_cons in Hd as [Hni Hd]. apply Forall_cons in Hw as [Hw0 Hw].
  wp_step. eapply wp_mono; [by apply wp_update_nodes|]. intros _ s1 [Hs1 Hu].
  eapply wp_mono; [by apply IH|]. intros _ s2 [Hs2 Hm2]. split; [done|].
  intros b o p lf Hp. rewrite Hm2 by done. cbn [list_to_map foldr uncurry fst snd].
  case_decide as Hb; [subst b|].
  - destruct (decide (o0 = o)) as [<-|Hne].
    + rewrite lookup_insert_eq, not_elem_of_list_to_map_1 by done. simpl. by apply Hu.
    + rewrite lookup_insert_ne by done. f_equal. eapply updated_other; [done|done|by intros [= ?]].
  - simpl. eapply updated_other; [done|done|by intros [= <- _]].
Qed.

(** The node set of a trie among the merged sets of an update. *)
Definition set_for (id : TrieID F) (classes contracts : option (MergeNodeSet (F:=F)))
  : gmap BitArray (TrieNode F) :=
  match id with
  | ClassTrieID _ => from_option (fun m => Nodes (OwnerSet m)) ∅ classes
  | ContractTrieID _ => from_option (fun m => Nodes (OwnerSet m)) ∅ contracts
  | ContractStorageTrieID _ o => default ∅ (m ← contracts; s ← ChildSets m !! o; Some (Nodes s))
  | EmptyTrieID _ => ∅
  end.

Definition wf_sets (m : MergeNodeSet (F:=F)) : Prop :=
  map_Forall (fun p _ => wf p) (Nodes (OwnerSet m)) /\
  map_Forall (fun _ s => map_Forall (fun p _ => wf p) (Nodes s)) (ChildSets m).

(** An update changes, for every trie, exactly the nodes of its node set. *)
Lemma wp_raw_Update classes contracts (s : S) :
  kv_open s -> (forall m, classes = Some m -> wf_sets m) -> (forall m, contracts = Some m -> wf_sets m) ->
  wp (raw_Update order owner_order classes contracts)
    (fun _ s' => kv_open s' /\ forall id p lf, Type_ id ≠ TEmpty -> wf p ->
       kv_map s' !! nodeKeyByPath (Bucket id) (id_Owner id) p lf =
         default (kv_map s !! nodeKeyByPath (Bucket id) (id_Owner id) p lf)
           (says (set_for id classes contracts) p lf)) s.
Proof.
  intros Hs Hcl Hco. unfold raw_Update.
  assert (Hown : forall o : option MergeNodeSet, (forall m, o = Some m -> wf_sets m) ->
    map_Forall (fun p _ => wf p) (match o with Some m => (Flatten m).1 | None => ∅ end)).
  { intros [m|] H; [|apply map_Forall_empty]. by destruct (H m eq_refl). }
  wp_step. eapply wp_mono; [apply wp_update_nodes; [done|by apply Hown]|]. intros _ s1 [Hs1 U1].
  wp_step. eapply wp_mono; [apply wp_update_nodes; [done|by apply Hown]|]. intros _ s2 [Hs2 U2].
  set (st := match contracts with Some m => (Flatten m).2 | None => ∅ end).
  assert (Hst : map_Forall (fun _ ns => map_Forall (fun p _ => wf p) ns) st).
  { unfold st. destruct contracts as [m|]; [|apply map_Forall_empty]. intros o ns Hns. simpl in Hns.
    rewrite lookup_fmap in Hns. apply fmap_Some in Hns as (x & Hx & ->).
    destruct (Hco m eq_refl) as [_ H]. by apply (H o). }
  eapply wp_mono; [apply wp_update_storage; [done| |]|].
  - rewrite owner_order_perm. apply NoDup_fst_map_to_list.
  - rewrite owner_order_perm. apply Forall_forall. intros [o ns] Hin%elem_of_map_to_list. by apply (Hst o).
  - intros _ s3 [Hs3 Hm3]. split; [done|]. intros id p lf Hid Hp. rewrite Hm3 by done.
    rewrite (list_to_map_proper (owner_order st) (map_to_list st)), list_to_map_to_list
      by (done || (rewrite owner_order_perm; apply NoDup_fst_map_to_list)).
    destruct id as [c|c|c o|c]; [| | |done]; cbn [Bucket id_Owner set_for].
    + rewrite decide_False by done. simpl. rewrite (updated_other _ _ _ _ _ _ _ p lf U2) by done.
      destruct U1 as [U1 _]. rewrite U1 by done. by destruct classes.
    + rewrite decide_False by done. simpl. destruct U2 as [U2 _]. rewrite U2 by done.
      rewrite (updated_other _ _ _ _ _ _ _ p lf U1) by done. by destruct contracts.
    + rewrite decide_True by done. rewrite (updated_other _ _ _ _ _ _ _ p lf U2) by done.
      rewrite (updated_other _ _ _ _ _ _ _ p lf U1) by done. f_equal. unfold st, says.
      destruct contracts as [m|]; simpl; [|by rewrite !lookup_empty].
      rewrite lookup_fmap. destruct (ChildSets m !! o); simpl; [done|by rewrite lookup_empty].
Qed.

(** Keys of other buckets are left alone. *)
Definition node_bucket (b : innerBucket) : bool :=
  match b with classTrie | contractTrieContract | contractTrieStorage => true | _ => false end.

Definition other_key (k : bytes) : Prop := forall b, node_bucket b = true -> head k ≠ Some (bucket_byte b).

Lemma wp_for_each_inv {A} (I : S -> Prop) (f : A -> SE S dbError unit) l (s : S) :
  (forall x s, I s -> wp (f x) (fun _ s' => I s') s) -> I s -> wp (for_each f l) (fun _ s' => I s') s.
Proof.
  intros Hf. revert s. induction l as [|x l IH]; intros s HI; cbn [for_each]; wp_step; [done|].
  eapply wp_mono; [by apply Hf|]. intros [] s1 H1. by apply IH.
Qed.

Lemma wp_raw_Update_other classes contracts k (s : S) :
  kv_open s -> other_key k ->
  wp (raw_Update order owner_order classes contracts)
    (fun _ s' => kv_open s' /\ kv_map s' !! k = kv_map s !! k) s.
Proof.
  intros Hs Hk. unfold raw_Update.
  assert (Hn : forall b o nodes s1, node_bucket b = true -> kv_open s1 /\ kv_map s1 !! k = kv_map s !! k ->
    wp (update_nodes order b o nodes) (fun _ s' => kv_open s' /\ kv_map s' !! k = kv_map s !! k) s1).
  { intros b o nodes s1 Hb Hs1. apply wp_for_each_inv; [|done]. clear s1 Hs1. intros x s1 [Hs1 Hm1].
    eapply wp_mono; [by apply wp_updateNode|]. intros _ s2 [Hs2 Hm2]. split; [done|]. rewrite Hm2, <- Hm1.
    assert (nodeKeyByPath b o x.1 (IsLeaf x.2) ≠ k) by (intros <-; by apply (Hk b)).
    simpl. destruct (is_deleted x.2); [by rewrite lookup_delete_ne|by rewrite lookup_insert_ne]. }
  wp_step. eapply wp_mono; [by apply Hn|]. intros [] s1 H1. wp_step. eapply wp_mono; [by apply Hn|]. intros [] s2 H2.
  apply wp_for_each_inv; [|done]. intros x s3 H3. by apply Hn.
Qed.

(** ** Deleting the storage of a contract *)

Lemma EncodedBytes_bytes p : wf p -> is_bytes (EncodedBytes p).
Proof.
  intros Hp. rewrite EncodedBytes_spec by done. apply Forall_app. split; [apply be_bytes_range|].
  apply Forall_singleton. destruct Hp as [? _ _]. lia.
Qed.

Lemma nodeKey_bytes b o p lf : wf p -> is_bytes (nodeKeyByPath b o p lf).
Proof.
  intros Hp. unfold nodeKeyByPath. constructor; [pose proof (bucket_byte_range b); lia|].
  apply Forall_app. split; [|constructor; [by destruct lf|by apply EncodedBytes_bytes]].
  unfold owner_bytes. destruct (felt_IsZero o); [constructor|apply felt_bytes_range].
Qed.

(** The nodes of a storage trie are the ones below its prefix. *)
Lemma storage_prefix o (id : TrieID F) p lf :
  (HasOwner id = true -> id_Owner id ≠ felt_Zero) ->
  HasPrefix (nodeKeyByPath (Bucket id) (id_Owner id) p lf) (Bucket_Key contractTrieStorage [felt_Bytes o]) =
    bool_decide (Bucket id = contractTrieStorage /\ id_Owner id = o).
Proof.
  intros Ho. apply eq_bool_prop_intro. rewrite !Is_true_true, HasPrefix_spec, bool_decide_eq_true.
  unfold nodeKeyByPath, Bucket_Key, owner_bytes, felt_IsZero. cbn [concat app]. rewrite app_nil_r. split.
  - intros H. pose proof (prefix_cons_inv_1 _ _ _ _ H) as Eb. apply bucket_byte_inj in Eb.
    destruct id as [c|c|c o'|c]; try done. split; [done|]. cbn [id_Owner] in *.
    rewrite bool_decide_false in H by (by apply Ho).
    apply prefix_cons_inv_2 in H. destruct H as [r E]. apply app_inj_1 in E as [E _].
    + by apply felt_Bytes_inj.
    + by rewrite !felt_bytes_length.
  - intros [Eb <-]. destruct id as [c|c|c o'|c]; try done. cbn [id_Owner Bucket] in *.
    rewrite bool_decide_false by (by apply Ho). apply prefix_cons. by eexists.
Qed.

Definition storage_prefix_of o : bytes := Bucket_Key contractTrieStorage [felt_Bytes o].

(** Keys in the range of the prefix of a storage trie are in its bucket. *)
Lemma storage_range_head o u k :
  UpperBound (storage_prefix_of o) = Some u -> memory.in_range (storage_prefix_of o) u k = true ->
  head k = Some (bucket_byte contractTrieStorage).
Proof.
  set (b := bucket_byte contractTrieStorage). set (pre := storage_prefix_of o).
  assert (Hpre : is_bytes pre).
  { constructor; [done|]. cbn [concat]. rewrite app_nil_r. apply felt_bytes_range. }
  intros Hu. pose proof (UpperBound_exact pre Hpre) as He. rewrite Hu in He.
  assert (Ep : pre = b :: felt_Bytes o) by (unfold pre, storage_prefix_of, Bucket_Key; cbn; by rewrite app_nil_r).
  set (top := b :: replicate 32 255).
  assert (Htop : memory.in_range pre u top = false).
  { rewrite He by (repeat constructor; done). apply not_true_iff_false. rewrite HasPrefix_spec, Ep.
    intros [r E1%(f_equal tail)]. cbn [tail top app] in E1. pose proof (f_equal length E1) as El.
    rewrite length_app, felt_bytes_length, length_replicate in El. destruct r; [|cbn in El; lia].
    rewrite app_nil_r in E1. pose proof (felt_val_range o) as Hr. unfold felt_val in Hr. rewrite <- E1 in Hr.
    vm_compute in Hr. by destruct Hr. }
  assert (Hself : memory.in_range pre u pre = true) by (rewrite He by done; apply HasPrefix_spec; by exists []; rewrite app_nil_r).
  assert (Hle : bytes_Compare pre top <= 0).
  { rewrite Ep. unfold top. cbn [bytes_Compare]. rewrite Z.ltb_irrefl.
    assert (Hb : forall (l : bytes) (n : nat), is_bytes l -> length l = n -> bytes_Compare l (replicate n 255) <= 0).
    { clear. induction l as [|x l IH]; intros [|n] Hl Hn; try done. apply Forall_cons in Hl as [Hx Hl]. injection Hn as Hn.
      cbn [bytes_Compare replicate]. destruct (Z.ltb_spec x 255); [lia|]. destruct (Z.ltb_spec 255 x); [lia|]. by apply IH. }
    apply Hb; [apply felt_bytes_range|apply felt_bytes_length]. }
  unfold memory.in_range in *. rewrite Ep in *. destruct u as [|y u].
  { by apply andb_true_iff in Hself as [_ Hself]. }
  intros [H1 H2]%andb_true_iff. apply andb_true_iff in Hself as [_ Hs].
  unfold bytes_less in *. apply negb_true_iff, Z.ltb_ge in H1. apply Z.ltb_lt in H2, Hs.
  destruct k as [|x k]; [done|]. cbn [head]. f_equal. cbn [bytes_Compare] in H1, H2, Hs.
  assert (y = b) as ->.
  { destruct (Z.ltb_spec b y) as [Hlt|]; [exfalso|by destruct (Z.ltb_spec y b); lia].
    apply andb_false_iff in Htop as [Ht|Ht].
    - apply negb_false_iff, Z.ltb_lt in Ht. rewrite bytes_Compare_opp in Ht. lia.
    - apply Z.ltb_ge in Ht. unfold top in Ht. cbn [bytes_Compare] in Ht. destruct (Z.ltb_spec b y); lia. }
  destruct (Z.ltb_spec b x) as [Hx|Hx]; [destruct (Z.ltb_spec x b); lia|]. destruct (Z.ltb_spec x b); lia.
Qed.

(** The range of a deletion is the one of the prefix. *)
Lemma wp_DeleteStorageNodes o (s : S) :
  kv_open s ->
  wp (DeleteStorageNodesByPath o) (fun _ s' => kv_open s' /\
    (forall k, is_bytes k -> kv_map s' !! k = if HasPrefix k (storage_prefix_of o) then None else kv_map s !! k) /\
    (forall k, head k ≠ Some (bucket_byte contractTrieStorage) -> kv_map s' !! k = kv_map s !! k)) s.
Proof.
  intros Hs. unfold DeleteStorageNodesByPath. fold (storage_prefix_of o). set (pre := storage_prefix_of o).
  assert (Hb : is_bytes pre).
  { constructor; [done|]. cbn [concat]. rewrite app_nil_r. apply felt_bytes_range. }
  pose proof (UpperBound_exact pre Hb) as Hu.
  assert (exists u, UpperBound pre = Some u) as [u Eu].
  { destruct (UpperBound pre); [eauto|]. by apply Forall_cons in Hu as [? _]. }
  rewrite Eu in *. eapply wp_mono; [by apply kv_delrange_spec|]. intros _ s' [Hs' Hm].
  split; [done|]. rewrite Hm. cbn [default from_option id]. split.
  - intros k Hk. rewrite <- (Hu k Hk), map_lookup_filter.
    destruct (kv_map s !! k); simpl; [|by destruct (memory.in_range pre u k)].
    destruct (memory.in_range pre u k) eqn:E; [by rewrite option_guard_False|by rewrite option_guard_True].
  - intros k Hk. rewrite map_lookup_filter. destruct (kv_map s !! k); simpl; [|done].
    rewrite option_guard_True; [done|]. apply not_true_iff_false. intros E. by apply (storage_range_head o u k) in E.
Qed.

(** deleting the storage nodes of a contract deletes every node of its
    storage trie and no node of any other trie: the range up to the next
    prefix is exact, whatever the bytes of the address are. *)
Theorem DeleteStorageNodes_exact o (s : S) :
  kv_open s ->
  wp (DeleteStorageNodesByPath o)
    (fun _ s' => kv_open s' /\ forall (id : TrieID F) p lf,
       (HasOwner id = true -> id_Owner id ≠ felt_Zero) -> wf p ->
       kv_map s' !! nodeKeyByPath (Bucket id) (id_Owner id) p lf =
         if decide (Bucket id = contractTrieStorage /\ id_Owner id = o) then None
         else kv_map s !! nodeKeyByPath (Bucket id) (id_Owner id) p lf) s.
Proof.
  intros Hs. eapply wp_mono; [by apply wp_DeleteStorageNodes|]. intros _ s' (Hs' & Hm & _).
  split; [done|]. intros id p lf Ho Hp. rewrite Hm by (by apply nodeKey_bytes).
  unfold storage_prefix_of. rewrite (storage_prefix o id p lf Ho).
  destruct (decide _) as [Hd|Hd]; [by rewrite bool_decide_true|by rewrite bool_decide_false].
Qed.

End updates.
End facts.
