(* ===== verification/TrieCollect.v ===== *)
(** * Collecting the nodes of a trie

    [Collect] on a trie whose hashes are cached: the node set gets every node
    that is not in a clean part of the trie ([todo]), with the bytes of its
    encoding, and nothing else. *)
From stdpp Require Import prelude gmap list.
From Stdlib Require Import ZArith Lia.
From S2P Require Import Prelude Felt BitArray BitArrayFacts BitArrayCodec.
From S2P Require Import TrieNode Trie TrieSpec TrieTrace TrieRep TrieNodeFacts.

Local Open Scope Z_scope.

Section collect.
Context {F : Type} `{!FieldElement F} `{!FieldElementLaws F}.
Variable hashFn : F -> F -> F.

Abbreviation tnode := (node F).
Abbreviation tree := (stree F).
Abbreviation sh := (shash hashFn).
Implicit Types (n : tnode) (t : tree) (ot : option tree) (pre q l : list bool).

(** ** Subtrees *)

Definition osnode ot l : option tree := t ← ot; snode t l.

Lemma snode_app t l1 l2 t1 : snode t l1 = Some t1 -> snode t (l1 ++ l2) = snode t1 l2.
Proof.
  revert l1. induction t as [v|t0 IH0 t2 IH2|p c IH]; intros l1 H.
  - destruct l1; [|done]. simpl in H. by injection H as <-.
  - destruct l1 as [|b l1]; [simpl in H; by injection H as <-|]. simpl in *. destruct b; auto.
  - destruct l1 as [|b l1]; [simpl in H; by injection H as <-|].
    cbn [snode] in H. destruct (bool_decide _) eqn:E; [|done]. apply bool_decide_eq_true_1 in E.
    apply IH in H. rewrite <- H. cbn [snode app].
    change (b :: l1 ++ l2) with ((b :: l1) ++ l2).
    assert (Hle : (length p <= length (b :: l1))%nat).
    { rewrite <- E at 1. rewrite length_take. lia. }
    rewrite take_app_le, drop_app_le by done. by rewrite bool_decide_true.
Qed.

Lemma snode_edge_child p t : p ≠ [] -> snode (SEdge p t) p = Some t.
Proof. intros Hp. pose proof (snode_edge p t [] Hp) as E. by rewrite app_nil_r, snode_nil in E. Qed.

Lemma osnode_app ot l1 l2 t1 : osnode ot l1 = Some t1 -> osnode ot (l1 ++ l2) = snode t1 l2.
Proof. destruct ot as [t|]; [|done]. apply snode_app. Qed.

Lemma canon_snode h t l t' :
  canon h t -> snode t l = Some t' -> exists h', canon h' t' /\ (length l + h' = h)%nat.
Proof.
  revert h l. induction t as [v|t0 IH0 t2 IH2|p c IH]; intros h l Hc H.
  - destruct l; [|done]. simpl in H. injection H as <-. by exists h.
  - destruct l as [|b l]; [simpl in H; injection H as <-; by exists h|].
    destruct Hc as (h1 & -> & H0 & H2). simpl in H.
    assert (exists h', canon h' t' /\ (length l + h' = h1)%nat) as (h' & ? & ?) by (destruct b; eauto).
    exists h'. split; [done|]. simpl. lia.
  - destruct l as [|b l]; [simpl in H; injection H as <-; by exists h|].
    cbn [snode] in H. destruct (bool_decide _) eqn:E; [|done]. apply bool_decide_eq_true_1 in E.
    destruct Hc as (_ & _ & h1 & -> & Hc). destruct (IH _ _ Hc H) as (h' & ? & Hl). exists h'. split; [done|].
    rewrite length_drop in Hl.
    assert ((length p <= length (b :: l))%nat) by (rewrite <- E at 1; rewrite length_take; lia). lia.
Qed.

Lemma locs_osnode ot q : locs [] ot q <-> is_Some (osnode ot q).
Proof.
  split.
  - intros (t & l & -> & -> & Hs). done.
  - destruct ot as [t|]; [|by intros [? ?]]. intros Hs. by exists t, q.
Qed.

(** ** Nodes to write *)

#[export] Instance clean_dec n pre q : Decision (clean n pre q).
Proof.
  revert pre. induction n as [|x IHx y IHy fl|c IHc p fl|h|v]; intros pre; cbn [clean]; try apply _.
  - destruct (Dirty fl); [|apply _].
    destruct (IHx (pre ++ [false])), (IHy (pre ++ [true])); [left; auto..|right; tauto].
  - destruct (Dirty fl); [apply IHc|apply _].
Defined.

(** The entry of a node set for a node. *)
Definition node_for t : TrieNode F :=
  if is_leaf t then NewLeaf (sh t) (node_blob hashFn t) else NewNonLeaf (sh t) (node_blob hashFn t).

(** The tree at [q] is below [n] and not in a clean part. *)
Definition todo n pre t q t' : Prop :=
  exists l, q = pre ++ l /\ snode t l = Some t' /\ ~ clean n pre q.

(** [ns'] is [ns] with the nodes of a set [W] of locations. *)
Definition collected (W : list bool -> tree -> Prop) (ns ns' : NodeSet (F:=F)) : Prop :=
  Owner ns' = Owner ns /\
  (forall q t', W q t' -> Nodes ns' !! path_of q = Some (node_for t')) /\
  (forall p, (forall q t', W q t' -> p ≠ path_of q) -> Nodes ns' !! p = Nodes ns !! p).

Lemma collected_none (W : list bool -> tree -> Prop) ns : (forall q t', ~ W q t') -> collected W ns ns.
Proof. intros H. split_and!; [done| |done]. intros q t' Hq. by apply H in Hq. Qed.

Lemma collected_add (W W' : list bool -> tree -> Prop) ns ns' q t :
  collected W ns ns' ->
  (forall x t', W' x t' <-> (x = q /\ t' = t) \/ W x t') ->
  (forall x t', W x t' -> path_of x ≠ path_of q) ->
  collected W' ns (Add ns' (path_of q) (node_for t)).
Proof.
  intros (Ho & H1 & H2) HW Hne. split_and!; [done| |].
  - intros x t' [[-> ->]|Hx]%HW; simpl; [by rewrite lookup_insert_eq|].
    rewrite lookup_insert_ne; [by apply H1|]. intros E. by apply (Hne x t').
  - intros p Hp. simpl. rewrite lookup_insert_ne by (intros E; eapply Hp; [apply HW; by left|done]).
    apply H2. intros x t' Hx. eapply Hp, HW. by right.
Qed.

Lemma collected_trans (W1 W2 W : list bool -> tree -> Prop) ns1 ns2 ns3 :
  collected W1 ns1 ns2 -> collected W2 ns2 ns3 ->
  (forall x t', W x t' <-> W1 x t' \/ W2 x t') ->
  (forall x t' y t'', W1 x t' -> W2 y t'' -> path_of x ≠ path_of y) ->
  collected W ns1 ns3.
Proof.
  intros (Ho1 & H1 & H1') (Ho2 & H2 & H2') HW Hd. split_and!; [congruence| |].
  - intros x t' [Hx|Hx]%HW; [|by apply H2]. rewrite H2'; [by apply H1|]. intros y t'' Hy. by eapply Hd.
  - intros p Hp. rewrite H2', H1'; [done| |]; intros x t' Hx; eapply Hp, HW; eauto.
Qed.

Lemma path_of_ne x y : (length x <= 255)%nat -> (length y <= 255)%nat -> x ≠ y -> path_of x ≠ path_of y.
Proof. intros Hx Hy Hne E. apply Hne. by rewrite <- (bits_path x), <- (bits_path y), E. Qed.

Lemma todo_prefix n pre t q t' : todo n pre t q t' -> pre `prefix_of` q.
Proof. intros (l & -> & _). by exists l. Qed.

Lemma todo_length n pre t q t' h :
  canon h t -> todo n pre t q t' -> (length q <= length pre + h)%nat.
Proof.
  intros Hc (l & -> & Hs & _). destruct (canon_snode _ _ _ _ Hc Hs) as (h' & _ & E). rewrite length_app. lia.
Qed.

Lemma app_cons_ne pre p : p ≠ [] -> ~ pre ++ p `prefix_of` pre.
Proof.
  intros Hp H%prefix_length. rewrite length_app in H. destruct p; [done|]. simpl in H. lia.
Qed.

Lemma todo_clean n pre t q t' : (forall x, pre `prefix_of` x -> clean n pre x) -> ~ todo n pre t q t'.
Proof. intros H (l & -> & _ & Hn). apply Hn, H. by exists l. Qed.

Lemma clean_other_side n pre (b : bool) l : clean n (pre ++ [b]) (pre ++ negb b :: l) -> False.
Proof.
  intros H%clean_prefix. destruct H as [z E]. rewrite <- app_assoc in E. apply app_inv_head in E.
  by destruct b.
Qed.

Lemma todo_bin x y fl pre tl tr q t' :
  Dirty fl = true ->
  todo (NBinary x y fl) pre (SBin tl tr) q t' <->
  (q = pre /\ t' = SBin tl tr) \/ (todo x (pre ++ [false]) tl q t' \/ todo y (pre ++ [true]) tr q t').
Proof.
  intros Ed. unfold todo. cbn [clean]. rewrite Ed. split.
  - intros (l & -> & Hs & Hn). destruct l as [|b l]; [simpl in Hs; injection Hs as <-; left; by rewrite app_nil_r|].
    right. destruct b; [right|left]; exists l; rewrite <- app_assoc; (split_and!; [done|done|tauto]).
  - intros [[-> ->]|[(l & -> & Hs & Hn)|(l & -> & Hs & Hn)]].
    + exists []. rewrite app_nil_r. split_and!; [done|done|].
      intros [H%clean_prefix|H%clean_prefix]; by apply app_cons_ne in H.
    + exists (false :: l). rewrite <- app_assoc in *. split_and!; [done|done|].
      intros [?|H]; [done|]. by apply (clean_other_side y pre true l).
    + exists (true :: l). rewrite <- app_assoc in *. split_and!; [done|done|].
      intros [H|?]; [|done]. by apply (clean_other_side x pre false l).
Qed.

Lemma todo_edge c p fl pre tc q t' :
  Dirty fl = true -> p ≠ [] -> (length p <= 255)%nat ->
  todo (NEdge c (path_of p) fl) pre (SEdge p tc) q t' <->
  (q = pre /\ t' = SEdge p tc) \/ todo c (pre ++ p) tc q t'.
Proof.
  intros Ed Hp Hlp. unfold todo. cbn [clean]. rewrite Ed, bits_path by done. split.
  - intros (l & -> & Hs & Hn). destruct l as [|b l]; [simpl in Hs; injection Hs as <-; left; by rewrite app_nil_r|].
    right. cbn [snode] in Hs. destruct (bool_decide _) eqn:E; [|done]. apply bool_decide_eq_true_1 in E.
    exists (drop (length p) (b :: l)). split_and!; [|done|done].
    rewrite <- app_assoc. f_equal. rewrite <- E at 1. by rewrite take_drop.
  - intros [[-> ->]|(l & -> & Hs & Hn)].
    + exists []. rewrite app_nil_r. split_and!; [done|done|]. intros H%clean_prefix. by apply app_cons_ne in H.
    + exists (p ++ l). rewrite app_assoc, snode_edge by done. done.
Qed.

Section spec.
Variables (reader : option (dbReader (F:=F))) (own : F).
Abbreviation Rep := (rep hashFn reader own).

(** What [collect] returns for a node. *)
Definition collects n pre t : Prop :=
  forall ns, exists c ns', collect n (path_of pre) ns = Ok (c, ns') /\ collected (todo n pre t) ns ns' /\
    TrieNode.Write c = Ok (felt_Bytes (sh t)) /\ (is_inner n = true -> c = NHash (sh t)).

Lemma store_inner n h t ns (q : BitArray) :
  Cache n = Ok (Some h, true) -> TrieNode.Write n = Ok (node_blob hashFn t) ->
  h = sh t -> is_leaf t = false ->
  store ns q n = Ok (NHash (sh t), Add ns q (node_for t)).
Proof. intros Hc Hw -> Hl. unfold store, EncodeNode, node_for. rewrite Hc, Hl. simpl. by rewrite Hw. Qed.

(** A child that is a hash node is not visited. *)
Lemma collectChild_collects n pre t (b : bool) ns :
  (length pre < 255)%nat -> Rep n (pre ++ [b]) t -> collects n (pre ++ [b]) t ->
  exists c ns', collectChild (fun p c ns => collect c p ns) (path_of pre) (Z.b2z b) n ns = Ok (c, ns') /\
    collected (todo n (pre ++ [b]) t) ns ns' /\ TrieNode.Write c = Ok (felt_Bytes (sh t)).
Proof.
  intros Hl Hr Hc. destruct (Hc ns) as (c & ns' & E & Hcol & Hw & _). unfold collectChild.
  rewrite AppendBit_path by done.
  destruct n; try (by exists c, ns'; rewrite E). cbn in E. injection E as <- <-. eauto.
Qed.

Lemma collect_bin x y fl pre tl tr h :
  flag_ok hashFn reader own fl pre (SBin tl tr) -> is_Some (fHash fl) -> Dirty fl = true ->
  canon h (SBin tl tr) -> (length pre + h <= 255)%nat ->
  Rep x (pre ++ [false]) tl -> Rep y (pre ++ [true]) tr ->
  collects x (pre ++ [false]) tl -> collects y (pre ++ [true]) tr ->
  collects (NBinary x y fl) pre (SBin tl tr).
Proof.
  intros [Hh _] [hh Ehh] Hd (h' & -> & Hcl & Hcr) Hlen Rx Ry Hx Hy ns. specialize (Hh _ Ehh).
  destruct (collectChild_collects x pre tl false ns) as (cx & ns1 & E1 & C1 & W1); [lia|done|done|].
  destruct (collectChild_collects y pre tr true ns1) as (cy & ns2 & E2 & C2 & W2); [lia|done|done|].
  set (both := fun q t' => todo x (pre ++ [false]) tl q t' \/ todo y (pre ++ [true]) tr q t').
  exists (NHash (sh (SBin tl tr))), (Add ns2 (path_of pre) (node_for (SBin tl tr))).
  split_and!; [|eapply collected_add; [eapply (collected_trans _ _ both); [exact C1|exact C2|done|]| |]|done|done].
  - assert (Ech : collectChildren (fun p c ns => collect c p ns) (path_of pre) x y ns = Ok (cx, cy, ns2)).
    { cbn [Z.b2z] in E1, E2. unfold collectChildren, mbind, outcome_bind. rewrite E1, E2. done. }
    cbn [collect Cache]. rewrite Ehh, Hd, Ech. trans (store ns2 (path_of pre) (NBinary cx cy fl)); [done|].
    apply (store_inner _ hh); [cbn; by rewrite Ehh, Hd| |done|done].
    cbn [TrieNode.Write]. by rewrite W1, W2.
  - intros a ta b tb Ha Hb. apply path_of_ne.
    + apply (todo_length _ _ _ _ _ _ Hcl) in Ha. rewrite length_app in Ha. simpl in Ha. lia.
    + apply (todo_length _ _ _ _ _ _ Hcr) in Hb. rewrite length_app in Hb. simpl in Hb. lia.
    + intros ->. apply todo_prefix in Ha as [z ->], Hb as [z' E].
      rewrite <- !app_assoc in E. by apply app_inv_head in E.
  - intros q t'. by rewrite todo_bin.
  - intros q t' [Hq|Hq]; (apply path_of_ne; [|lia|intros ->; by apply todo_prefix, app_cons_ne in Hq]).
    + apply (todo_length _ _ _ _ _ _ Hcl) in Hq. rewrite length_app in Hq. simpl in Hq. lia.
    + apply (todo_length _ _ _ _ _ _ Hcr) in Hq. rewrite length_app in Hq. simpl in Hq. lia.
Qed.

Lemma collect_edge c p fl pre tc h :
  flag_ok hashFn reader own fl pre (SEdge p tc) -> is_Some (fHash fl) -> Dirty fl = true ->
  canon h (SEdge p tc) -> (length pre + h <= 255)%nat -> collects c (pre ++ p) tc ->
  collects (NEdge c (path_of p) fl) pre (SEdge p tc).
Proof.
  intros [Hh _] [hh Ehh] Hd (Hp & _ & h' & -> & Hcc) Hlen Hc ns. specialize (Hh _ Ehh).
  destruct (Hc ns) as (cc & ns1 & E1 & C1 & W1 & _).
  exists (NHash (sh (SEdge p tc))), (Add ns1 (path_of pre) (node_for (SEdge p tc))).
  split_and!; [|eapply collected_add; [exact C1| |]|done|done].
  - cbn [collect Cache]. rewrite Ehh, Hd, Append_path by lia. rewrite E1.
    trans (store ns1 (path_of pre) (NEdge cc (path_of p) fl)); [done|].
    apply (store_inner _ hh); [cbn; by rewrite Ehh, Hd| |done|done].
    cbn [TrieNode.Write]. rewrite W1. unfold mbind, outcome_bind.
    by rewrite Write_encoded by (apply path_of_spec; lia).
  - intros q t'. apply todo_edge; [done|done|lia].
  - intros q t' Hq. apply path_of_ne; [|lia|intros ->; by apply todo_prefix, app_cons_ne in Hq].
    apply (todo_length _ _ _ _ _ _ Hcc) in Hq. rewrite length_app in Hq. lia.
Qed.

Lemma collect_collects n pre t h :
  Rep n pre t -> cached n -> canon h t -> (length pre + h <= 255)%nat -> collects n pre t.
Proof.
  intros Hr. revert h.
  induction Hr as [v pre|pre t Hl Hs|x y fl pre tl tr Hx IHx Hy IHy Hfl|c p fl pre tc Hc IHc Hfl];
    intros h Hca Hcan Hlen.
  - intros ns. exists (NValue v), (Add ns (path_of pre) (node_for (SLeaf v))).
    split_and!; [cbn; by rewrite felt_SetBytes_Bytes| |done|done].
    eapply collected_add; [apply (collected_none (fun _ _ => False)); auto| |done].
    intros q t'. split; [|intros [[-> ->]|[]]; exists []; split_and!; [by rewrite app_nil_r|done|by intros []]].
    intros (l & -> & Hs & _). destruct l; [|done]. simpl in Hs. injection Hs as <-. left. by rewrite app_nil_r.
  - intros ns. exists (NHash (sh t)), ns. split_and!; [done| |done|done].
    apply collected_none. intros q t'. by apply todo_clean.
  - destruct Hca as [Hh Hca]. destruct (Dirty fl) eqn:Ed.
    + destruct (Hca eq_refl) as [Ha Hb]. pose proof Hcan as (h' & -> & Hcl & Hcr).
      eapply collect_bin; [done..|eapply (IHx h')|eapply (IHy h')]; try done; rewrite length_app; simpl; lia.
    + intros ns. destruct Hh as [hh Eh]. pose proof (proj1 Hfl _ Eh) as ->.
      exists (NHash (sh (SBin tl tr))), ns. split_and!; [cbn; by rewrite Eh, Ed| |done|done].
      apply collected_none. intros q t'. apply todo_clean. intros z Hz. cbn [clean]. by rewrite Ed.
  - destruct Hca as [Hh Hca]. destruct (Dirty fl) eqn:Ed.
    + pose proof Hcan as (Hp & _ & h' & -> & Hcc).
      eapply collect_edge; [done..|]. eapply (IHc h'); [by apply Hca|done|rewrite length_app; lia].
    + intros ns. destruct Hh as [hh Eh]. pose proof (proj1 Hfl _ Eh) as ->.
      exists (NHash (sh (SEdge p tc))), ns. split_and!; [cbn; by rewrite Eh, Ed| |done|done].
      apply collected_none. intros q t'. apply todo_clean. intros z Hz. cbn [clean]. by rewrite Ed.
Qed.

End spec.
End collect.
