(* ===== verification/TrieCommit.v ===== *)
(** * Committing a trie to its database

    The raw database of a trie holds the nodes of a tree, no more and no less
    ([db_holds]).  A trie opened on it and modified keeps enough information to
    bring the database to the new tree: the tracer knows the nodes that are
    gone, the dirty flags the nodes to write ([commit_inv], which every
    operation preserves).  [Commit] turns it into a node set, and the update of
    the database with that node set makes it hold the nodes of the new tree. *)
From stdpp Require Import prelude gmap list relations.
From Stdlib Require Import ZArith Lia.
From S2P Require Import Prelude Felt BitArray BitArrayFacts BitArrayCodec.
From S2P Require Import TrieNode Trie TrieSpec TrieTrace TrieRep TrieNodeFacts TrieTheorems.
From S2P Require Import TrieCollect MemDB MemDBFacts TrieDB TrieDBFacts.

Local Open Scope Z_scope.

Section commit.
Context {F : Type} `{!FieldElement F} `{!FieldElementLaws F}.
Variable hashFn : F -> F -> F.

Abbreviation tnode := (node F).
Abbreviation tree := (stree F).
Abbreviation sh := (shash hashFn).
Abbreviation trie := (Trie (F:=F)).
Implicit Types (n : tnode) (t : tree) (ot : option tree) (pre q l : list bool).

(** ** The database *)

Definition node_entry (lf : bool) t : option bytes :=
  if Bool.eqb (is_leaf t) lf then Some (node_blob hashFn t) else None.

(** Under a bucket and an owner, the database holds the nodes of a tree. *)
Definition db_holds (m : gmap bytes bytes) (b : innerBucket) (o : F) ot : Prop :=
  forall l lf, (length l <= 255)%nat ->
    m !! nodeKeyByPath b o (path_of l) lf = osnode ot l ≫= node_entry lf.

Section database.
Context {S : Type} `{!KVStore S} `{!KVLaws S}.
Variables (d : S) (id : TrieID F) (ht : nat) (ot0 : option tree).
Hypothesis d_open : kv_open d.
Hypothesis ht_ok : (0 < ht <= 255)%nat.
Hypothesis t0_canon : ocanon ht ot0.
Abbreviation own := (id_Owner id).
Abbreviation rd := (Some (NodeReader d id)).
Hypothesis holds : db_holds (kv_map d) (Bucket id) own ot0.

Lemma NodeReader_holds l h (lf : bool) :
  (length l <= 255)%nat ->
  reader_node rd own (path_of l) h lf =
    match osnode ot0 l ≫= node_entry lf with Some v => Ok v | None => Err ErrKeyNotFound end.
Proof.
  intros Hl. unfold reader_node, NodeReader, readNode, GetNodeByPath. rewrite kv_get_spec by done.
  rewrite holds by done. by destruct (osnode ot0 l ≫= node_entry lf).
Qed.

(** The nodes can be read. *)
Lemma holds_stored pre t h :
  osnode ot0 pre = Some t -> canon h t -> (length pre + h <= 255)%nat -> stored hashFn rd own pre t.
Proof.
  revert pre h. induction t as [v|t0 IH0 t1 IH1|p c IH]; intros pre h Ht Hc Hl; [done|..].
  - destruct Hc as (h' & -> & Hc0 & Hc1). split_and!.
    + unfold at_path. rewrite NodeReader_holds, Ht by lia. done.
    + eapply IH0; [by rewrite (osnode_app _ _ _ _ Ht); simpl; rewrite snode_nil|done|rewrite length_app; simpl; lia].
    + eapply IH1; [by rewrite (osnode_app _ _ _ _ Ht); simpl; rewrite snode_nil|done|rewrite length_app; simpl; lia].
  - destruct Hc as (Hp & _ & h' & -> & Hc). split.
    + unfold at_path. rewrite NodeReader_holds, Ht by lia. done.
    + eapply IH; [|done|rewrite length_app; lia].
      by rewrite (osnode_app _ _ _ _ Ht), snode_edge_child.
Qed.

(** A tree that can be read node by node is the one the database holds. *)
Lemma node_blob_bin_inj t0 t1 t' :
  is_leaf t' = false -> node_blob hashFn (SBin t0 t1) = node_blob hashFn t' ->
  exists t0' t1', t' = SBin t0' t1' /\ sh t0 = sh t0' /\ sh t1 = sh t1'.
Proof.
  intros Hl E. destruct t' as [v|t0' t1'|p c]; [done| |done]. exists t0', t1'. split; [done|].
  cbn [node_blob app] in E. injection E as E. apply app_inj_1 in E as [E0 E1]; [|by rewrite !felt_bytes_length].
  split; by apply felt_Bytes_inj.
Qed.

Lemma node_blob_edge_inj p c t' :
  (length p <= 255)%nat -> is_leaf t' = false ->
  (forall p' c', t' = SEdge p' c' -> (length p' <= 255)%nat) ->
  node_blob hashFn (SEdge p c) = node_blob hashFn t' ->
  exists c', t' = SEdge p c' /\ sh c = sh c'.
Proof.
  intros Hp Hl Hp' E. destruct t' as [v|t0' t1'|p' c']; [done|done|]. specialize (Hp' p' c' eq_refl).
  cbn [node_blob app] in E. injection E as E. apply app_inj_1 in E as [E0 E1]; [|by rewrite !felt_bytes_length].
  apply EncodedBytes_inj in E1; [|by apply path_of_spec..].
  apply (f_equal bits) in E1. rewrite !bits_path in E1 by done. subst p'.
  exists c'. split; [done|]. by apply felt_Bytes_inj.
Qed.

(** The children of equal nodes at the same depth, of which the first is stored. *)
Lemma same_child pre t t' h :
  (is_leaf t = false -> osnode ot0 pre = Some t) -> osnode ot0 pre = Some t' ->
  canon h t -> canon h t' -> sh t = sh t' -> t = t'.
Proof.
  intros Hs Ht' Hc Hc' Eh. destruct (is_leaf t) eqn:El.
  - assert (El' : is_leaf t' = true).
    { by rewrite (canon_leaf_iff _ _ Hc'), <- (canon_leaf_iff _ _ Hc). }
    destruct t, t'; try done. simpl in Eh. by subst.
  - rewrite Hs in Ht' by done. by injection Ht'.
Qed.

Lemma ocanon_osnode l t' : osnode ot0 l = Some t' -> exists h, canon h t' /\ (length l + h = ht)%nat.
Proof. clear holds. destruct ot0 as [t0|]; [|done]. by apply canon_snode. Qed.

Lemma stored_snode pre t h :
  stored hashFn rd own pre t -> canon h t -> is_leaf t = false -> (length pre + h = ht)%nat ->
  osnode ot0 pre = Some t.
Proof.
  revert pre h. induction t as [v|t0 IH0 t1 IH1|p c IH]; intros pre h Hs Hc Hl Hlen; [done|..].
  - destruct Hs as (Hat & Hs0 & Hs1). unfold at_path in Hat. rewrite NodeReader_holds in Hat by lia.
    destruct (osnode ot0 pre) as [t'|] eqn:Et; [|done]. simpl in Hat. unfold node_entry in Hat.
    destruct (is_leaf t') eqn:El; [done|]. simpl in Hat. injection Hat as Hat.
    destruct (node_blob_bin_inj t0 t1 t') as (t0' & t1' & -> & E0 & E1); [done|done|].
    destruct (ocanon_osnode _ _ Et) as (h2 & (h2' & -> & Hc0' & Hc1') & Hh2).
    destruct Hc as (h' & -> & Hc0 & Hc1). assert (h2' = h') as -> by lia. do 2 f_equal.
    + symmetry. eapply (same_child (pre ++ [false])); [|by rewrite (osnode_app _ _ _ _ Et); simpl; rewrite snode_nil|done..].
      intros. eapply IH0; [done|done|done|rewrite length_app; simpl; lia].
    + symmetry. eapply (same_child (pre ++ [true])); [|by rewrite (osnode_app _ _ _ _ Et); simpl; rewrite snode_nil|done..].
      intros. eapply IH1; [done|done|done|rewrite length_app; simpl; lia].
  - destruct Hs as (Hat & Hsc). unfold at_path in Hat. rewrite NodeReader_holds in Hat by lia.
    destruct (osnode ot0 pre) as [t'|] eqn:Et; [|done]. simpl in Hat. unfold node_entry in Hat.
    destruct (is_leaf t') eqn:El; [done|]. simpl in Hat. injection Hat as Hat.
    destruct (ocanon_osnode _ _ Et) as (h2 & Hc2 & Hh2). pose proof Hc as (Hp & _ & h' & -> & Hcc).
    destruct (node_blob_edge_inj p c t') as (c' & -> & Ec); [lia|done| |done|].
    { intros p' c' ->. destruct Hc2 as (_ & _ & h3 & -> & _). lia. }
    destruct Hc2 as (_ & _ & h3 & -> & Hcc'). assert (h3 = h') as -> by lia. do 2 f_equal.
    symmetry. eapply (same_child (pre ++ p)); [|by rewrite (osnode_app _ _ _ _ Et), snode_edge_child|done..].
    intros. eapply IH; [done|done|done|rewrite length_app; lia].
Qed.

(** What is not modified in a trie is as in the database. *)
Lemma clean_agrees n pre t h q :
  rep hashFn rd own n pre t -> canon h t -> (length pre + h = ht)%nat -> clean n pre q ->
  exists l, q = pre ++ l /\ osnode ot0 q = snode t l.
Proof.
  intros Hr. revert h.
  assert (Hst : forall pre t h, stored hashFn rd own pre t -> canon h t -> is_leaf t = false ->
    (length pre + h = ht)%nat -> pre `prefix_of` q -> exists l, q = pre ++ l /\ osnode ot0 q = snode t l).
  { clear n pre t Hr. intros pre t h Hs Hc Hl Hlen [l ->]. exists l. split; [done|].
    eapply osnode_app, stored_snode; done. }
  induction Hr as [v pre|pre t Hl Hs|l r fl pre tl tr Hl IHl Hr IHr Hfl|c p fl pre tc Hc IHc Hfl];
    intros h Hca Hlen; cbn [clean].
  - done.
  - by eapply Hst.
  - destruct (Dirty fl) eqn:Ed; [|by eapply Hst; [apply Hfl|..]].
    destruct Hca as (h' & -> & Hcl & Hcr). intros [H|H].
    + destruct (IHl h') as (x & -> & E); [done|rewrite length_app; simpl; lia|done|].
      exists (false :: x). by rewrite <- app_assoc in *.
    + destruct (IHr h') as (x & -> & E); [done|rewrite length_app; simpl; lia|done|].
      exists (true :: x). by rewrite <- app_assoc in *.
  - destruct (Dirty fl) eqn:Ed; [|by eapply Hst; [apply Hfl|..]].
    destruct Hca as (Hp & _ & h' & -> & Hcc). rewrite bits_path by lia. intros H.
    destruct (IHc h') as (x & -> & E); [done|rewrite length_app; lia|done|].
    exists (p ++ x). rewrite <- app_assoc in *. by rewrite snode_edge.
Qed.

(** ** The invariant of a trie that is modified *)

Record commit_inv (x : trie * option tree) : Prop := {
  ci_rep : trie_rep hashFn rd ht x.1 x.2;
  ci_owner : owner x.1 = own;
  ci_hashes : hashes_ok (root x.1);
  (** a node of the database is marked as deleted or still there *)
  ci_gone : forall q, locs [] ot0 q -> path_of q ∈ deletes_ (tracer x.1) \/ locs [] x.2 q;
  (** a node of the database is not marked as new *)
  ci_old : forall q, locs [] ot0 q -> path_of q ∉ inserts (tracer x.1);
  (** a node of the database that is not modified is not marked as deleted *)
  ci_kept : forall q, locs [] ot0 q -> clean (root x.1) [] q -> path_of q ∉ deletes_ (tracer x.1);
  ci_wf : forall p, p ∈ deletes_ (tracer x.1) -> wf p;
}.

Lemma locs_length h ot q : ocanon h ot -> locs [] ot q -> (length q <= h)%nat.
Proof.
  clear. intros Hc (t & l & -> & -> & [t' Hs]). simpl in Hc.
  destruct (canon_snode _ _ _ _ Hc Hs) as (h' & _ & E). simpl. lia.
Qed.

Lemma fresh_inv s :
  trie_rep hashFn rd ht s ot0 -> owner s = own -> hashes_ok (root s) -> tracer s = newTracer ->
  commit_inv (s, ot0).
Proof. intros Hr Ho Hh Ht. split; simpl; rewrite ?Ht; [done|done|done|by right|done|done|done]. Qed.

Lemma locs_dec ot q : locs [] ot q \/ ~ locs [] ot q.
Proof. clear. rewrite locs_osnode. destruct (osnode ot q); [left; by eexists|right; by intros [? ?]]. Qed.

(** The clean part of a trie agrees with the database. *)
Lemma clean_locs s ot q :
  trie_rep hashFn rd ht s ot -> owner s = own -> clean (root s) [] q -> osnode ot0 q = osnode ot q.
Proof.
  intros [_ _ _ Hc Hr] Ho Hcl. rewrite Ho in Hr. destruct ot as [t|]; simpl in Hr; [|by rewrite Hr in Hcl].
  by destruct (clean_agrees _ _ _ ht q Hr Hc eq_refl Hcl) as (l & -> & E).
Qed.

(** The marks of a node of the database after an operation. *)
Lemma step_marks s ot s' ot' q :
  commit_inv (s, ot) -> trie_rep hashFn rd ht s' ot' -> owner s' = own ->
  step hashFn (s, ot) (s', ot') -> locs [] ot0 q ->
  (path_of q ∈ deletes_ (tracer s') \/ locs [] ot' q) /\ path_of q ∉ inserts (tracer s') /\
  (clean (root s') [] q -> path_of q ∉ deletes_ (tracer s')).
Proof.
  intros [_ _ _ Hg Hold Hk _] Hr' Hown [[_ Hcl] (es & Htr & Hn & Hi & Hd)] Hq. simpl in *.
  assert (Hl : (length q <= 255)%nat) by (apply (locs_length ht) in Hq; [lia|done]).
  specialize (Hg q Hq). specialize (Hold q Hq). specialize (Hk q Hq).
  assert (Eo : marks q (tracer s) = (false, bool_decide (path_of q ∈ deletes_ (tracer s)))).
  { unfold marks. by rewrite bool_decide_false. }
  destruct (decide (EIns q ∈ es)) as [Hin|Hni]; [|destruct (decide (EDel q ∈ es)) as [Hde|Hnd]].
  - destruct (Hi q Hin) as [Hnew Hno]. assert (Hdel : path_of q ∈ deletes_ (tracer s)) by tauto.
    pose proof (foldl_record_one q (tracer s) es (EIns q) Hl Hn Hin) as E.
    rewrite <- Htr, Eo, (bool_decide_true (path_of q ∈ deletes_ (tracer s))) in E by done.
    specialize (E ltac:(left; split; [done|intros ?%Hd; tauto])). injection E as E1 E2.
    apply bool_decide_eq_false_1 in E1, E2. tauto.
  - destruct (proj1 (Hd q) Hde) as [Hwas Hgone].
    pose proof (foldl_record_one q (tracer s) es (EDel q) Hl Hn Hde) as E.
    rewrite <- Htr, Eo in E. specialize (E ltac:(right; done)). injection E as E1 E2.
    apply bool_decide_eq_false_1 in E1. apply bool_decide_eq_true_1 in E2. split_and!; [by left|done|].
    intros Hc. exfalso. apply Hgone. apply locs_osnode.
    rewrite <- (clean_locs s' ot' q) by done. by apply locs_osnode.
  - pose proof (foldl_record_other q (tracer s) es Hl Hni Hnd) as E. rewrite <- Htr, Eo in E.
    injection E as E1 E2. apply bool_decide_eq_false_1 in E1.
    assert (E3 : path_of q ∈ deletes_ (tracer s') <-> path_of q ∈ deletes_ (tracer s)).
    { destruct (bool_decide_reflect (path_of q ∈ deletes_ (tracer s'))),
        (bool_decide_reflect (path_of q ∈ deletes_ (tracer s))); done. }
    split_and!; [|done|by intros Hc%Hcl; rewrite E3; apply Hk].
    destruct Hg as [Hg|Hg]; [left; tauto|]. right.
    destruct (locs_dec ot' q) as [?|Hno]; [done|]. exfalso. apply Hnd, Hd. done.
Qed.

Lemma step_inv s ot s' ot' :
  hash_nonzero hashFn -> commit_inv (s, ot) -> trie_rep hashFn rd ht s' ot' -> owner s' = owner s ->
  step hashFn (s, ot) (s', ot') -> commit_inv (s', ot').
Proof.
  intros Hz Hinv Hr' Ho' Hst. pose proof Hinv as [Hr Ho Hh _ _ _ Hw]. simpl in *.
  pose proof (fun q => step_marks s ot s' ot' q Hinv Hr' ltac:(congruence) Hst) as Hm.
  destruct Hst as [[Ht _] (es & Htr & _ & _ & Hd)]. simpl in *.
  split; simpl; [done|congruence|auto|apply Hm|apply Hm|intros q Hq; by apply Hm|].
  intros p Hp. rewrite Htr in Hp. apply foldl_record_deletes in Hp as [Hp|(q & Hq & ->)]; [auto|].
  apply Hd in Hq as [Hq _]. apply (locs_length ht) in Hq; [|apply Hr]. apply path_of_spec. lia.
Qed.

(** ** [Commit] *)

Lemma deleted_set_lookup (s : trie) (p : BitArray) :
  Owner (deleted_set s (NewNodeSet (owner s))) = owner s /\
  Nodes (deleted_set s (NewNodeSet (owner s))) !! p =
    if bool_decide (p ∈ deletes_ (tracer s)) then Some (NewDeleted (Len p =? height s)) else None.
Proof.
  clear. unfold deleted_set, deletedNodes.
  assert (H : forall ps (ns : NodeSet (F:=F)),
    let ns' := foldl (fun ns p => Add ns p (NewDeleted (Len p =? height s))) ns ps in
    Owner ns' = Owner ns /\
    Nodes ns' !! p = if bool_decide (p ∈ ps) then Some (NewDeleted (Len p =? height s)) else Nodes ns !! p).
  { induction ps as [|x ps IH]; intros ns; [done|]. cbn [foldl].
    destruct (IH (Add ns x (NewDeleted (Len x =? height s)))) as [-> ->]. split; [done|]. cbn [Nodes Add].
    destruct (bool_decide_reflect (p ∈ ps)) as [Hin|Hni]; [by rewrite bool_decide_true by (by right)|].
    destruct (decide (p = x)) as [->|Hne].
    - rewrite lookup_insert_eq, bool_decide_true by (by left). done.
    - rewrite lookup_insert_ne, bool_decide_false by (done || by rewrite elem_of_cons; intros [|]). done. }
  destruct (H (elements (deletes_ (tracer s))) (NewNodeSet (owner s))) as [-> ->]. split; [done|].
  rewrite (bool_decide_ext (p ∈ elements (deletes_ (tracer s))) (p ∈ deletes_ (tracer s)))
    by apply elem_of_elements. done.
Qed.

(** A node set brings the database to another tree. *)
Definition brings (nodes : gmap BitArray (TrieNode F)) ot : Prop :=
  map_Forall (fun p _ => wf p) nodes /\
  forall m m', db_holds m (Bucket id) own ot0 ->
    (forall p lf, wf p -> m' !! nodeKeyByPath (Bucket id) own p lf =
       default (m !! nodeKeyByPath (Bucket id) own p lf) (says nodes p lf)) ->
    db_holds m' (Bucket id) own ot.

(** It is enough to say the right thing about every location. *)
Lemma brings_intro nodes ot :
  ocanon ht ot -> map_Forall (fun p _ => wf p) nodes ->
  (forall l, (length l <= 255)%nat ->
     match nodes !! path_of l with
     | Some n => (IsLeaf n = (Len (path_of l) =? Z.of_nat ht)) /\
         (if is_deleted n then None else Some (Blob n)) = node_blob hashFn <$> osnode ot l
     | None => osnode ot0 l = osnode ot l
     end) ->
  brings nodes ot.
Proof.
  intros Hc Hw Hn. split; [done|]. intros m m' Hm Hm' l lf Hl.
  rewrite Hm' by (by apply path_of_spec). rewrite Hm by done. specialize (Hn l Hl). unfold says.
  assert (Hleaf : forall ot1 t', ocanon ht ot1 -> osnode ot1 l = Some t' -> is_leaf t' = (Len (path_of l) =? Z.of_nat ht)).
  { intros [t1|] t' Hc1 Ht'; [|done]. destruct (canon_snode _ _ _ _ Hc1 Ht') as (h' & Hc' & Hh').
    rewrite (canon_leaf_iff _ _ Hc'), Len_path. destruct (Z.eqb_spec (Z.of_nat (length l)) (Z.of_nat ht)).
    - apply bool_decide_eq_true_2. lia.
    - apply bool_decide_eq_false_2. lia. }
  destruct (nodes !! path_of l) as [n|]; simpl; [|by rewrite Hn].
  destruct Hn as [-> Hv]. destruct (Bool.eqb (Len (path_of l) =? Z.of_nat ht) lf) eqn:El; simpl.
  - rewrite Hv. destruct (osnode ot l) as [t'|] eqn:Et; [|done]. simpl. unfold node_entry.
    by rewrite (Hleaf ot t'), El.
  - assert (Hnone : forall ot1, ocanon ht ot1 -> osnode ot1 l ≫= node_entry lf = None).
    { intros ot1 Hc1. destruct (osnode ot1 l) as [t'|] eqn:Et; [|done]. simpl. unfold node_entry.
      by rewrite (Hleaf ot1 t'), El. }
    by rewrite !Hnone.
Qed.

(** The node set of a modified trie. *)
Lemma collected_brings s t ns :
  commit_inv (s, Some t) ->
  collected hashFn (todo (root s) [] t) (deleted_set s (NewNodeSet (owner s))) ns ->
  Owner ns = own /\ brings (Nodes ns) (Some t).
Proof.
  intros [Hrep Ho _ Hg _ Hk Hw] (Hown & Hin & Hout). simpl in *. pose proof Hrep as [Hh _ _ Hc Hr].
  destruct (deleted_set_lookup s emptyBitArray) as [Eo _].
  pose proof (fun p => proj2 (deleted_set_lookup s p)) as Hdel. rewrite Hh in Hdel.
  split; [congruence|].
  assert (Hlen : forall q t', todo (root s) [] t q t' -> (length q <= ht)%nat).
  { intros q t' Hq. by apply (todo_length _ _ _ _ _ _ Hc) in Hq. }
  apply brings_intro; [done| |].
  - intros p n Hp. destruct (decide (p = path_of (bits p) /\ (length (bits p) <= 255)%nat)) as [[E ?]|Hno].
    { rewrite E. by apply path_of_spec. }
    rewrite Hout in Hp.
    + rewrite Hdel in Hp. destruct (bool_decide_reflect (p ∈ deletes_ (tracer s))); [auto|done].
    + intros q t' Hq ->. apply Hno. specialize (Hlen _ _ Hq). rewrite bits_path by lia. split; [done|lia].
  - intros l Hl. destruct (osnode (Some t) l) as [t'|] eqn:Et; [destruct (decide (clean (root s) [] l)) as [Hcl|Hncl]|].
    + assert (E0 : osnode ot0 l = Some t').
      { rewrite <- Et. by apply (clean_locs s (Some t)). }
      rewrite Hout, Hdel, bool_decide_false; [done|apply Hk; [apply locs_osnode; by eexists|done]|].
      intros q t'' Hq Eq. apply path_of_inj in Eq as <-; [|done]. by destruct Hq as (? & -> & _ & ?).
    + rewrite (Hin l t') by (by exists l). unfold node_for.
      destruct (canon_snode _ _ _ _ Hc Et) as (h' & Hc' & Hh').
      pose proof (canon_leaf_iff _ _ Hc') as Hleaf. rewrite Len_path.
      destruct (Z.eqb_spec (Z.of_nat (length l)) (Z.of_nat ht)).
      * rewrite bool_decide_true in Hleaf by lia. by rewrite Hleaf.
      * rewrite bool_decide_false in Hleaf by lia. by rewrite Hleaf.
    + rewrite Hout, Hdel.
      2:{ intros q t'' (x & -> & Hx & _) Eq. apply path_of_inj in Eq as ->; [|done]. simpl in *. congruence. }
      destruct (bool_decide_reflect (path_of l ∈ deletes_ (tracer s))) as [Hd|Hnd]; [done|].
      destruct (osnode ot0 l) as [t'|] eqn:E0; [|done]. exfalso.
      destruct (Hg l) as [?|Hx]; [apply locs_osnode; by rewrite E0|done|].
      apply locs_osnode in Hx. rewrite Et in Hx. by destruct Hx.
Qed.

(** The node set of a trie that has become empty. *)
Lemma deleted_brings s :
  commit_inv (s, None) -> brings (Nodes (deleted_set s (NewNodeSet (owner s)))) None.
Proof.
  intros [Hrep _ _ Hg _ _ Hw]. simpl in *. pose proof (tr_height _ _ _ _ _ Hrep) as Hh.
  pose proof (fun p => proj2 (deleted_set_lookup s p)) as Hdel. rewrite Hh in Hdel.
  apply brings_intro; [done| |].
  - intros p n Hp. rewrite Hdel in Hp. destruct (bool_decide_reflect (p ∈ deletes_ (tracer s))); [auto|done].
  - intros l Hl. rewrite Hdel. destruct (bool_decide_reflect (path_of l ∈ deletes_ (tracer s))); [done|].
    destruct (osnode ot0 l) as [t'|] eqn:E0; [|done]. exfalso.
    destruct (Hg l) as [?|Hx]; [apply locs_osnode; by rewrite E0|done|by apply locs_none in Hx].
Qed.

Lemma empty_brings ot : ocanon ht ot -> (forall l, osnode ot0 l = osnode ot l) -> brings ∅ ot.
Proof.
  intros Hc E. apply brings_intro; [done|apply map_Forall_empty|]. intros l _. by rewrite lookup_empty.
Qed.

(** What [Commit] returns. *)
Definition commit_result ot (r : F * option (NodeSet (F:=F))) (s' : trie) : Prop :=
  r.1 = oshash hashFn ot /\ committed s' = true /\
  (forall ns, r.2 = Some ns -> Owner ns = own) /\ brings (from_option Nodes ∅ r.2) ot /\
  root s' = match ot with Some t => NHash (sh t) | None => NNil end.

Lemma wp_Commit_empty s :
  commit_inv (s, None) -> wp (Commit hashFn) (commit_result None) s.
Proof.
  intros Hinv. pose proof Hinv as [[_ _ _ _ Hr] Ho _ _ _ _ _]. simpl in Hr, Ho.
  unfold Commit. wp_step. wp_step. wp_step. rewrite Hr. wp_step.
  - apply bool_decide_eq_true_1 in Heqb. wp_steps. split_and!; [done|done|done| |done]. simpl.
    pose proof (deleted_brings s Hinv) as Hb. unfold deleted_set in Hb. by rewrite Heqb in Hb.
  - wp_steps. split_and!; [done|done| |by apply deleted_brings|done].
    intros ns [= <-]. by rewrite (proj1 (deleted_set_lookup s emptyBitArray)).
Qed.

Lemma Collect_collected s t ns :
  trie_rep hashFn rd ht s (Some t) -> cached (root s) ->
  exists ns', Collect (root s) ns = Ok (sh t, ns') /\ collected hashFn (todo (root s) [] t) ns ns'.
Proof.
  intros [_ _ _ Hc Hr] Hca. simpl in Hc, Hr.
  destruct (collect_collects hashFn rd (owner s) _ _ _ _ Hr Hca Hc ltac:(simpl; lia) ns) as (c & ns' & E & Hcol & Hw & Hi).
  exists ns'. split; [|done]. unfold Collect. rewrite empty_path, E. simpl.
  destruct Hr; [by destruct Hc; lia| |by rewrite Hi..]. simpl in E. by injection E as <- _.
Qed.

(** The hash of an unmodified root is cached. *)
Lemma clean_cache o n t :
  rep hashFn rd o n [] t -> cached n ->
  exists hn dirty, Cache n = Ok (hn, dirty) /\ (dirty = false -> hn = Some (sh t) /\ forall q, clean n [] q).
Proof.
  clear. intros Hr Hca. remember [] as pre eqn:Ep.
  destruct Hr as [v ?|? t Hl Hs|l r fl ? tl tr Hl Hr Hfl|c p fl ? tc Hcc Hfl];
    cbn [Cache clean cached] in *; eexists _, _; (split; [done|]); [done|done|..];
    destruct Hca as [[h Eh] _], Hfl as [Hh _]; intros Hd; rewrite Hd, Eh, (Hh h Eh);
    (split; [done|]); intros q; subst; by exists q.
Qed.

Lemma wp_Commit_tree s t :
  hash_nonzero hashFn -> commit_inv (s, Some t) -> wp (Commit hashFn) (commit_result (Some t)) s.
Proof.
  intros Hz Hinv. pose proof Hinv as [Hrep Ho Hh _ _ _ _]. simpl in *.
  assert (Hm : forall A (x y : A), match root s with NNil => x | _ => y end = y).
  { intros A x y. pose proof (rep_not_nil _ _ _ _ _ _ (tr_root _ _ _ _ _ Hrep)). by destruct (root s). }
  unfold Commit. wp_step. wp_step. wp_step. rewrite Hm. wp_step.
  eapply wp_mono; [by apply (wp_Hash hashFn rd ht s (Some t))|].
  intros h s1 (-> & Hrep1 & Ho1 & Hst & Htr & Hca). specialize (Hca Hh). wp_step. wp_step.
  pose proof (step_inv _ _ _ _ Hz Hinv Hrep1 Ho1 Hst) as Hinv1.
  pose proof (tr_root _ _ _ _ _ Hrep1) as Hr1. simpl in Hr1.
  assert (exists hn dirty, Cache (root s1) = Ok (hn, dirty) /\
    (dirty = false -> hn = Some (sh t) /\ forall q, clean (root s1) [] q)) as (hn & dirty & Ec & Hd).
  { by apply (clean_cache (owner s1) (root s1) t). }
  rewrite Ec. wp_step. cbn [lift_pure]. wp_step. destruct dirty; simpl.
  - destruct (Collect_collected s1 t (deleted_set s1 (NewNodeSet (owner s1))) Hrep1 Hca) as (ns & -> & Hcol).
    destruct (collected_brings _ _ _ Hinv1 Hcol) as [Hown Hb]. wp_step. cbn [lift_pure]. wp_steps.
    split_and!; [done|done|by intros ns' [= <-]|done|done].
  - destruct (Hd eq_refl) as [-> Hcl]. wp_steps. split_and!; [done|done|done| |done]. apply empty_brings; [apply Hrep1|].
    intros l. apply (clean_locs s1); [done|by rewrite Ho1|by apply Hcl].
Qed.

Lemma wp_Commit s ot :
  hash_nonzero hashFn -> commit_inv (s, ot) -> wp (Commit hashFn) (commit_result ot) s.
Proof. intros Hz Hinv. destruct ot; [by apply wp_Commit_tree|by apply wp_Commit_empty]. Qed.

(** A trie opened on the database satisfies the invariant. *)
Lemma New_inv stateComm :
  stateComm ≠ felt_Zero -> exists s, New rd own stateComm (Z.of_nat ht) = Ok s /\ commit_inv (s, ot0).
Proof.
  intros Hsc. unfold New, new_trie, felt_IsZero. rewrite bool_decide_false by done.
  pose proof (NodeReader_holds [] felt_Zero false ltac:(simpl; lia)) as Hroot.
  assert (Hleaf : forall t, canon ht t -> node_entry false t = Some (node_blob hashFn t)).
  { intros t Hc. unfold node_entry. rewrite (canon_leaf_iff _ _ Hc), bool_decide_false by lia. done. }
  pose proof holds_stored as Hst. pose proof fresh_inv as Hfr. revert Hroot Hst Hfr.
  destruct ot0 as [t|]; intros Hroot Hst Hfr.
  - destruct (resolve_root hashFn rd own ht t) as (n & E & Hn & Hh); [done|done| | |].
    + eapply Hst; [apply snode_nil|done|simpl; lia].
    + rewrite empty_path, Hroot.
      assert (E : osnode (Some t) [] ≫= node_entry false = node_entry false t) by (by destruct t).
      by rewrite E, Hleaf.
    + rewrite E. eexists. split; [done|]. apply Hfr; [by split|done|done|done].
  - assert (E : resolve rd (Z.of_nat ht) own None emptyBitArray = Err (ErrReader ErrKeyNotFound)).
    { unfold resolve. simpl default. unfold Len, emptyBitArray at 2. cbn [len].
      destruct (Z.eqb_spec 0 (Z.of_nat ht)); [lia|]. by rewrite empty_path, Hroot. }
    rewrite E. eexists. split; [done|]. apply Hfr; [by split|done|done|done].
Qed.

(** Also for the zero commitment, which stands for a state without tries. *)
Lemma New_inv_zero stateComm :
  (stateComm = felt_Zero -> ot0 = None) ->
  exists s, New rd own stateComm (Z.of_nat ht) = Ok s /\ commit_inv (s, ot0).
Proof.
  intros Hz. destruct (decide (stateComm = felt_Zero)) as [E|Hne]; [|by apply New_inv].
  pose proof fresh_inv as Hfr. rewrite (Hz E) in *. unfold New, new_trie, felt_IsZero. rewrite bool_decide_true by done.
  eexists. split; [done|]. apply Hfr; [by split|done|done|done].
Qed.

(** Single operations keep the invariant. *)
Lemma wp_Update_inv s ot key value :
  hash_nonzero hashFn -> commit_inv (s, ot) ->
  wp (Update rd key value) (fun _ s' => exists ot', commit_inv (s', ot') /\
    forall k, map_of ot' k = upd (map_of ot) (key_bits ht key) value k) s.
Proof.
  intros Hz Hinv. eapply wp_mono; [apply (wp_Update hashFn rd ht s ot), (ci_rep _ Hinv)|].
  intros _ s' (ot' & Hrep & Ho & Hst & Hm). exists ot'. split; [|done].
  by apply (step_inv s ot).
Qed.

Lemma wp_Hash_inv s ot :
  hash_nonzero hashFn -> commit_inv (s, ot) ->
  wp (Trie_Hash hashFn) (fun h s' => h = oshash hashFn ot /\ commit_inv (s', ot)) s.
Proof.
  intros Hz Hinv. eapply wp_mono; [apply (wp_Hash hashFn rd ht s ot), (ci_rep _ Hinv)|].
  intros h s' (-> & Hrep & Ho & Hst & _). split; [done|]. by apply (step_inv s ot).
Qed.

(** Operations, then [Commit]. *)
Lemma wp_ops_Commit s ops :
  hash_nonzero hashFn -> commit_inv (s, ot0) ->
  wp (run_ops hashFn rd ops;; Commit hashFn)
    (fun r s' => exists ot, ocanon ht ot /\ commit_result ot r s' /\
       forall k, map_of ot k = ops_map ht (map_of ot0) ops k) s.
Proof.
  intros Hz Hinv. wp_step.
  eapply wp_mono; [apply (wp_run_ops_inv hashFn rd commit_inv ht)|].
  - intros s1 t1 s2 t2 H1 H2 H3 H4. by apply (step_inv s1 t1 s2 t2).
  - apply (ci_rep _ Hinv).
  - done.
  - intros _ s' (ot & Hrep & Hinv' & Hm). eapply wp_mono; [by apply (wp_Commit s' ot)|].
    intros r s'' Hr. exists ot. split_and!; [apply Hrep|done|done].
Qed.

End database.

(** ** Updating the database *)

(** The merged sets of an update that has the nodes of one trie. *)
Definition merged (id : TrieID F) (nodes : option (NodeSet (F:=F)))
  : option (MergeNodeSet (F:=F)) * option (MergeNodeSet (F:=F)) :=
  match id with
  | ClassTrieID _ => (Some (NewMergeNodeSet nodes), None)
  | _ => (None, Some (NewMergeNodeSet nodes))
  end.

(** An identifier of a trie of the state. *)
Definition state_trie (id : TrieID F) : Prop :=
  Type_ id ≠ TEmpty /\ (HasOwner id = true -> id_Owner id ≠ felt_Zero).

Lemma merged_set_for id nodes :
  state_trie id -> (forall ns, nodes = Some ns -> Owner ns = id_Owner id) ->
  set_for id (merged id nodes).1 (merged id nodes).2 = from_option Nodes ∅ nodes.
Proof.
  intros [Hid Hown] Ho. destruct nodes as [ns|]; [specialize (Ho ns eq_refl)|].
  2:{ destruct id; simpl; [done|done|by rewrite lookup_empty|done]. }
  unfold merged, NewMergeNodeSet, felt_IsZero. destruct id as [c|c|c o|c]; simpl in *; [| | |done].
  - by rewrite bool_decide_true.
  - by rewrite bool_decide_true.
  - rewrite bool_decide_false by (rewrite Ho; auto). simpl. rewrite Ho, lookup_singleton_eq. done.
Qed.

Lemma NewMergeNodeSet_wf (nodes : option (NodeSet (F:=F))) :
  map_Forall (fun p _ => wf p) (from_option Nodes ∅ nodes) -> wf_sets (NewMergeNodeSet nodes).
Proof.
  intros Hw. unfold NewMergeNodeSet. destruct nodes as [ns|]; simpl in *; [|by split; apply map_Forall_empty].
  destruct (felt_IsZero (Owner ns)); split; simpl; try apply map_Forall_empty; [done|].
  intros o s [<- <-]%lookup_singleton_Some. done.
Qed.

Lemma merged_wf id nodes :
  map_Forall (fun p _ => wf p) (from_option Nodes ∅ nodes) ->
  (forall m, (merged id nodes).1 = Some m -> wf_sets m) /\ (forall m, (merged id nodes).2 = Some m -> wf_sets m).
Proof.
  intros Hw%NewMergeNodeSet_wf. destruct id; simpl; split; intros m E; try done; by injection E as <-.
Qed.

Section orders.
Variable order : gmap BitArray (TrieNode F) -> list (BitArray * TrieNode F).
Variable owner_order : gmap F (gmap BitArray (TrieNode F)) -> list (F * gmap BitArray (TrieNode F)).
Hypothesis order_perm : forall m, order m ≡ₚ map_to_list m.
Hypothesis owner_order_perm : forall m, owner_order m ≡ₚ map_to_list m.

(** The update of the database with the node set of a trie. *)
Definition apply_commit {S} `{!KVStore S} (id : TrieID F) (nodes : option (NodeSet (F:=F))) : SE S dbError unit :=
  raw_Update order owner_order (merged id nodes).1 (merged id nodes).2.

Lemma wp_apply_commit {S} `{!KVStore S} `{!KVLaws S} (b : S) id ot0 ot (r : F * option (NodeSet (F:=F))) (s' : trie) :
  state_trie id -> kv_open b -> db_holds (kv_map b) (Bucket id) (id_Owner id) ot0 ->
  commit_result id ot0 ot r s' ->
  wp (apply_commit id r.2) (fun _ b' => kv_open b' /\ db_holds (kv_map b') (Bucket id) (id_Owner id) ot) b.
Proof.
  intros Hid Hb Hh (_ & _ & Ho & [Hw Hbr] & _). destruct (merged_wf id r.2 Hw) as [W1 W2].
  eapply wp_mono; [by apply (wp_raw_Update order owner_order order_perm owner_order_perm)|].
  intros _ b' [Hb' Hm]. split; [done|]. apply (Hbr _ _ Hh). intros p lf Hp.
  rewrite Hm by (done || apply Hid). by rewrite merged_set_for.
Qed.

Lemma memory_Write_apply (d : memory.Database) m id ot0 ot (r : F * option (NodeSet (F:=F))) (s' : trie) :
  state_trie id -> memory.db d = Some m -> db_holds m (Bucket id) (id_Owner id) ot0 ->
  commit_result id ot0 ot r s' ->
  exists d' m', memory.Write (apply_commit id r.2) d = (Ok tt, d') /\ memory.db d' = Some m' /\
    db_holds m' (Bucket id) (id_Owner id) ot.
Proof.
  intros Hid Hd Hh Hr. set (b := memory.mkDbBatch d memory.newBatch).
  assert (Hv : view b = m) by (unfold view; simpl; by rewrite Hd).
  assert (Hw : wp (apply_commit id r.2;; memory.batch_Write)
    (fun _ b' => exists m', memory.db (memory.bdb b') = Some m' /\ db_holds m' (Bucket id) (id_Owner id) ot) b).
  { wp_step. eapply wp_mono.
    - eapply (wp_apply_commit (KVLaws0 := batch_laws d)); [done|done|simpl; by rewrite Hv|done].
    - intros _ b' [[Hb' Ed] Hh'].
      eapply wp_mono; [apply (wp_batch_Write b' m); [done|by rewrite Ed]|].
      intros _ b'' [-> _]. by exists (view b'). }
  apply wp_elim in Hw as ([] & b' & E & m' & Hm' & Hh').
  exists (memory.bdb b'), m'. split_and!; [|done|done].
  unfold memory.Write, memory.Update, mbind, SE_bind, get_state, put_state, lift. rewrite Hd.
  change (memory.mkDbBatch d memory.newBatch) with b. unfold mbind, SE_bind in E. by rewrite E.
Qed.

(** The reader of a trie on a database. *)
Abbreviation on_disk d id := (Some (NodeReader (S:=memory.Database) d id)).

Lemma New_on_disk (d : memory.Database) m id ht ot stateComm :
  memory.db d = Some m -> (0 < ht <= 255)%nat -> ocanon ht ot ->
  db_holds m (Bucket id) (id_Owner id) ot -> stateComm ≠ felt_Zero ->
  exists s, New (on_disk d id) (id_Owner id) stateComm (Z.of_nat ht) = Ok s /\ commit_inv d id ht ot (s, ot).
Proof.
  intros Hd Hht Hc Hh Hsc. apply New_inv; [by exists m|done|done| |done]. simpl. by rewrite Hd.
Qed.

(** C12: committing a trie and opening it again gives the same trie.  A trie
    opened on a database that holds the nodes of a tree (or no node of the
    trie) and modified by any operations commits without an error; writing the
    node set of the commit to the database, in any order of its maps, leaves
    exactly the nodes of the new tree: every new or changed node is written and
    every node that is gone is deleted.  The trie opened on the database after
    that has the root hash [Commit] returned and the value of every key that
    the operations left.  (No node may hash to zero, which stands for no
    hash.) *)
Theorem commit_and_reopen (d : memory.Database) m id ht ot stateComm stateComm' ops :
  memory.db d = Some m -> (0 < ht <= 255)%nat -> ocanon ht ot ->
  db_holds m (Bucket id) (id_Owner id) ot -> state_trie id ->
  stateComm ≠ felt_Zero -> stateComm' ≠ felt_Zero -> hash_nonzero hashFn ->
  exists s s' h nodes d' m' ot' s2,
    New (on_disk d id) (id_Owner id) stateComm (Z.of_nat ht) = Ok s /\
    (run_ops hashFn (on_disk d id) ops;; Commit hashFn) s = (Ok (h, nodes), s') /\
    memory.Write (apply_commit id nodes) d = (Ok tt, d') /\ memory.db d' = Some m' /\
    db_holds m' (Bucket id) (id_Owner id) ot' /\ ocanon ht ot' /\
    (forall k, map_of ot' k = ops_map ht (map_of ot) ops k) /\
    New (on_disk d' id) (id_Owner id) stateComm' (Z.of_nat ht) = Ok s2 /\
    wp (Trie_Hash hashFn) (fun h2 _ => h2 = h) s2 /\
    forall key, wp (Get (on_disk d' id) key)
      (fun v _ => v = ops_map ht (map_of ot) ops (key_bits ht key)) s2.
Proof.
  intros Hd Hht Hc Hh Hid Hsc Hsc' Hz.
  destruct (New_on_disk d m id ht ot stateComm) as (s & Es & Hinv); [done..|].
  assert (Hk : kv_open d) by (by exists m).
  assert (Hh' : db_holds (kv_map d) (Bucket id) (id_Owner id) ot) by (simpl; by rewrite Hd).
  destruct (wp_elim _ _ _ (wp_ops_Commit d id ht ot Hk Hht Hc Hh' s ops Hz Hinv))
    as ([h nodes] & s' & Er & ot' & Hc' & Hr & Hm).
  destruct (memory_Write_apply d m id ot ot' (h, nodes) s') as (d' & m' & Ew & Hd' & Hh''); [done..|].
  destruct (New_on_disk d' m' id ht ot' stateComm') as (s2 & Es2 & [Hrep2 _ _ _ _ _ _]); [done..|].
  simpl in Hrep2. exists s, s', h, nodes, d', m', ot', s2. split_and!; try done.
  - eapply wp_mono; [exact (wp_Hash hashFn _ ht s2 ot' Hrep2)|]. intros h2 s3 (-> & _).
    destruct Hr as [E _]. exact (eq_sym E).
  - intros key. eapply wp_mono; [exact (wp_Get hashFn _ ht s2 ot' key Hrep2)|]. intros v s3 (-> & _). apply Hm.
Qed.

End orders.
End commit.
