(* ===== verification/TrieProof.v ===== *)
(** * Proofs of the trie

    [src/core/trie2/proof.go]: the generation of Merkle proofs for one or more
    keys and their verification, and [src/utils/orderedset.go], the set a proof
    is collected in.

    The generation reads the trie and adds nodes to the proof: it is a
    computation over the proof.  The slices of paths are split and filtered in
    place without touching elements that are read later, so they are values
    here.  Range proofs are not part of the model. *)
From stdpp Require Import prelude gmap list.
From Stdlib Require Import ZArith Lia.
From S2P Require Import Prelude Felt BitArray TrieNode Trie.

Local Open Scope Z_scope.

(** ** [orderedset.go] *)

Section ordered_set.
Context {K V : Type} `{Countable K}.

Record OrderedSet := mkOrderedSet {
  itemPos : gmap K nat;
  items : list V;
}.

Definition NewOrderedSet : OrderedSet := mkOrderedSet ∅ [].

(** [o.items[pos] = value] is in range for the positions of the map. *)
Definition os_Put (o : OrderedSet) (key : K) (value : V) : OrderedSet :=
  match itemPos o !! key with
  | Some pos => mkOrderedSet (itemPos o) (<[pos := value]> (items o))
  | None => mkOrderedSet (<[key := length (items o)]> (itemPos o)) (items o ++ [value])
  end.

Definition os_Get (o : OrderedSet) (key : K) : option V :=
  pos ← itemPos o !! key; items o !! pos.

Definition os_Size (o : OrderedSet) : Z := Z.of_nat (length (items o)).

Definition os_List (o : OrderedSet) : list V := items o.

Definition os_Clear (o : OrderedSet) : OrderedSet := NewOrderedSet.

End ordered_set.

Arguments OrderedSet K V {_ _}.

Section definitions.
Context {F : Type} `{!FieldElement F}.
Variable hashFn : F -> F -> F.

Abbreviation Path := BitArray.
Abbreviation tnode := (node F).
Definition ProofNodeSet := OrderedSet F (node F).

Definition NewProofNodeSet : ProofNodeSet := NewOrderedSet.

(** ** Generation *)

Abbreviation PM := (SE ProofNodeSet (trieError (F:=F))).

(** The type assertion of the hashed node: the root of the proof is hashed when
    it is not an inner node, other nodes are left out. *)
Definition addProofNode (n : tnode) (isRoot : bool) : PM unit :=
  '(proofNode, hashNode) ← lift_pure (proofHash hashFn n);
  match hashNode with
  | NHash h => modify (fun proof => os_Put proof h proofNode)
  | _ =>
      if negb isRoot then mret tt
      else
        h ← lift_pure (Hash hashFn proofNode);
        modify (fun proof => os_Put proof h proofNode)
  end.

Definition matchingEdgePaths (path : Path) (paths : list Path) : list Path :=
  filter (fun p => (0 <? Len p) = true)
    ((fun p => LSBs p (Len path)) <$> filter (fun p => PathMatches path p = true) paths).

(** The index of the first path whose first bit is one splits the paths. *)
Fixpoint splitPathsByMSB (paths : list Path) : list Path * list Path :=
  match paths with
  | [] => ([], [])
  | p :: ps =>
      if MSB p =? 1 then ([], paths)
      else let '(l, r) := splitPathsByMSB ps in (p :: l, r)
  end.

Definition dropMSB (paths : list Path) : list Path :=
  filter (fun p => (0 <? Len p) = true) ((fun p => LSBs p 1) <$> paths).

Variable reader : option (dbReader (F:=F)).
Variable t : Trie (F:=F).

(** A resolved node may be a hash node again: the loop takes fuel. *)
Fixpoint resolveProofNode (fuel : nat) (rootNode : tnode) (prefix : Path) : outcome (trieError (F:=F)) tnode :=
  match rootNode with
  | NHash h =>
      match fuel with
      | O => NoFuel
      | S k => n ← resolve reader (height t) (owner t) (Some h) prefix; resolveProofNode k n prefix
      end
  | n => Ok n
  end.

(** Each unit of fuel is a call; a call consumes at least one bit of the paths. *)
Fixpoint proveMultiFrom (fuel : nat) (rootNode : tnode) (prefix : Path) (paths : list Path)
    (isRoot : bool) : PM unit :=
  match fuel with
  | O => out_of_fuel
  | S k =>
      if match rootNode with NNil => true | _ => bool_decide (paths = []) end then mret tt
      else
        n ← lift (resolveProofNode fuel rootNode prefix);
        match n with
        | NEdge child path _ =>
            addProofNode n isRoot;;
            let matchingPaths := matchingEdgePaths path paths in
            if bool_decide (matchingPaths = []) then mret tt
            else proveMultiFrom k child (Append prefix path) matchingPaths false
        | NBinary l r _ =>
            addProofNode n isRoot;;
            let '(leftPaths, rightPaths) := splitPathsByMSB paths in
            proveMultiFrom k l (AppendBit prefix 0) (dropMSB leftPaths) false;;
            proveMultiFrom k r (AppendBit prefix 1) (dropMSB rightPaths) false
        | _ => panic
        end
  end.

(** Equal neighbours of a sorted list, except for the first one. *)
Fixpoint dedup (last : option Path) (paths : list Path) : list Path :=
  match paths with
  | [] => []
  | p :: ps =>
      if bool_decide (last = Some p) then dedup last ps
      else p :: dedup (Some p) ps
  end.

Definition ProveMulti (keys : list F) : PM unit :=
  if committed t then fail ErrCommitted
  else if bool_decide (keys = []) || (height t =? 0) then mret tt
  else
    let paths := (fun key => FeltToPath key (height t)) <$> keys in
    let sorted := sort_slice (fun a b => Cmp a b <? 0) paths in
    proveMultiFrom (S (Z.to_nat (height t))) (root t) emptyBitArray (dedup None sorted) true.

Definition Prove (key : F) : PM unit := ProveMulti [key].

Definition GetRangeProof (leftKey rightKey : F) : PM unit :=
  Prove leftKey;;
  if bool_decide (leftKey = rightKey) then mret tt else Prove rightKey.

End definitions.

Section verification.
Context {F : Type} `{!FieldElement F}.
Variable hashFn : F -> F -> F.
Abbreviation Path := BitArray.
Abbreviation tnode := (node F).

(** ** Verification *)

Inductive proofError : Type :=
| ProofNodeNotFound (expected : F)
| ProofHashMismatch (expected got : F).

(** [get] without [skipResolved]: the child, and the rest of the key. *)
Definition get_child (n : tnode) (key : Path) : tnode * Path :=
  match n with
  | NEdge child path _ =>
      if negb (PathMatches path key) then (NNil, key) else (child, LSBs key (Len path))
  | NBinary l r _ => (child_at l r (MSB key), LSBs key 1)
  | NHash _ | NValue _ | NNil => (n, key)
  end.

Definition contractClassTrieHeight : Z := 251.

(** The loop of [VerifyProof]: one unit of fuel per proof node.  A child that
    is an inner node without a cached hash leaves the expected hash as it is. *)
Fixpoint verify_loop (fuel : nat) (proof : ProofNodeSet (F:=F)) (expected : F) (keyBits : Path)
  : outcome proofError F :=
  match fuel with
  | O => NoFuel
  | S k =>
      match os_Get proof expected with
      | None => Err (ProofNodeNotFound expected)
      | Some n =>
          match hash hashFn n with
          | Ok (NHash hashVal, _) =>
              if negb (bool_decide (hashVal = expected)) then Err (ProofHashMismatch expected hashVal)
              else
                let '(child, keyBits) := get_child n keyBits in
                match child with
                | NNil => Ok felt_Zero
                | NHash h => if Len keyBits =? 0 then Ok h else verify_loop k proof h keyBits
                | NValue v => Ok v
                | NEdge _ _ fl | NBinary _ _ fl =>
                    verify_loop k proof (default expected (fHash fl)) keyBits
                end
          | _ => Panic
          end
      end
  end.

Definition VerifyProof (fuel : nat) (root key : F) (proof : ProofNodeSet (F:=F)) : outcome proofError F :=
  verify_loop fuel proof root (SetFelt contractClassTrieHeight key).

End verification.
