(* ===== verification/TrieProofFacts.v ===== *)
(** * Merkle proofs: what the prover adds is what the verifier needs

    Proofs made for a set of keys hold every inner node on the paths of the
    keys ([on_path]); the verifier finds the value of a key from them, and it
    does not return another one for any proof, unless hashes collide. *)
From stdpp Require Import prelude gmap list sorting.
From Stdlib Require Import ZArith Lia.
From S2P Require Import Prelude Felt BitArray BitArrayFacts BitArrayCodec.
From S2P Require Import BitArrayTheorems TrieNode TrieNodeFacts Trie TrieSpec TrieTrace TrieRep.
From S2P Require Import TrieTheorems TrieCollect TrieProof.

Local Open Scope Z_scope.

(** ** The ordered set *)

Section ordered_set.
Context {K V : Type} `{Countable K}.
Implicit Types o : OrderedSet K V.

(** Positions are in range and belong to one key. *)
Definition os_ok o : Prop :=
  (forall k pos, itemPos o !! k = Some pos -> (pos < length (items o))%nat) /\
  (forall k k' pos, itemPos o !! k = Some pos -> itemPos o !! k' = Some pos -> k = k').

Lemma os_ok_new : os_ok NewOrderedSet.
Proof. split; simpl; intros *; by rewrite lookup_empty. Qed.

Lemma os_ok_Put o k v : os_ok o -> os_ok (os_Put o k v).
Proof.
  intros [Hr Hi]. unfold os_Put. destruct (itemPos o !! k) as [pos|] eqn:E; split; simpl.
  - intros k' p. rewrite length_insert. apply Hr.
  - done.
  - intros k' p Hp. rewrite length_app. simpl. apply lookup_insert_Some in Hp as [[-> <-]|[_ Hp]]; [lia|].
    apply Hr in Hp. lia.
  - intros k1 k2 p H1 H2. apply lookup_insert_Some in H1 as [[-> <-]|[? H1]], H2 as [[-> H2]|[? H2]]; try done.
    + apply Hr in H2. lia.
    + subst. apply Hr in H1. lia.
    + by eapply Hi.
Qed.

Lemma os_Get_Put o k v k' :
  os_ok o -> os_Get (os_Put o k v) k' = if decide (k' = k) then Some v else os_Get o k'.
Proof.
  intros [Hr Hi]. unfold os_Get, os_Put. destruct (itemPos o !! k) as [pos|] eqn:E; simpl.
  - destruct (decide (k' = k)) as [->|Hne].
    + rewrite E. simpl. apply list_lookup_insert_eq. by eapply Hr.
    + destruct (itemPos o !! k') as [pos'|] eqn:E'; [|done]. simpl.
      rewrite list_lookup_insert_ne; [done|]. intros ->. by apply Hne, (Hi k' k pos').
  - destruct (decide (k' = k)) as [->|Hne].
    + rewrite lookup_insert_eq. simpl. by rewrite lookup_app_r, Nat.sub_diag by lia.
    + rewrite lookup_insert_ne by done. destruct (itemPos o !! k') as [pos'|] eqn:E'; [|done]. simpl.
      apply lookup_app_l. by eapply Hr.
Qed.

End ordered_set.

(** ** Sorted keys *)

Definition bits_le (a b : list bool) : Prop := bits_lt b a = false.

Lemma bits_le_cons x a b : bits_le (x :: a) (x :: b) <-> bits_le a b.
Proof. unfold bits_le. simpl. by rewrite Bool.eqb_reflx. Qed.

Lemma bits_le_app p a b : bits_le (p ++ a) (p ++ b) <-> bits_le a b.
Proof. induction p as [|x p IH]; [done|]. cbn [app]. by rewrite bits_le_cons. Qed.

Lemma bits_le_true a y b : bits_le (true :: a) (y :: b) -> y = true.
Proof. unfold bits_le. simpl. by destruct y. Qed.

Abbreviation sorted_keys ks := (StronglySorted bits_le ks).

(** A sublist that is mapped monotonically is sorted. *)
Lemma sorted_filter_map (P : list bool -> Prop) `{!forall k, Decision (P k)} (g : list bool -> list bool) ks :
  (forall a b, P a -> P b -> bits_le a b -> bits_le (g a) (g b)) ->
  sorted_keys ks -> sorted_keys (g <$> filter P ks).
Proof.
  intros Hg. induction 1 as [|k ks Hs IH Hk]; [constructor|]. rewrite filter_cons.
  destruct (decide (P k)) as [Hp|]; [|done]. cbn [fmap list_fmap]. constructor; [done|].
  apply Forall_fmap. apply Forall_forall. intros x [Hx Hin]%list_elem_of_filter. simpl.
  eapply Forall_forall in Hk; [|done]. by apply Hg.
Qed.

Lemma sorted_filter (P : list bool -> Prop) `{!forall k, Decision (P k)} ks :
  sorted_keys ks -> sorted_keys (filter P ks).
Proof.
  intros Hs. rewrite <- (list_fmap_id (filter P ks)). by apply (sorted_filter_map P id).
Qed.

(** ** Lists of paths *)

Lemma filter_true {A} (P : A -> Prop) `{!forall x, Decision (P x)} l : Forall P l -> filter P l = l.
Proof. induction 1 as [|x l Hx _ IH]; [done|]. by rewrite filter_cons_True, IH. Qed.

Lemma filter_false {A} (P : A -> Prop) `{!forall x, Decision (P x)} l : Forall (fun x => ~ P x) l -> filter P l = [].
Proof. induction 1 as [|x l Hx _ IH]; [done|]. by rewrite filter_cons_False. Qed.

Abbreviation to_paths ks := (path_of <$> (ks : list (list bool))).

Definition nonempty (k : list bool) : Prop := k ≠ [].
#[local] Instance nonempty_dec k : Decision (nonempty k).
Proof. unfold nonempty. apply _. Defined.

(** The rest of the keys below an edge. *)
Definition below_edge (p : list bool) (ks : list (list bool)) : list (list bool) :=
  filter nonempty (drop (length p) <$> filter (fun k => take (length p) k = p) ks).

Lemma filter_paths (P : list bool -> Prop) (Q : BitArray -> Prop)
    `{!forall k, Decision (P k)} `{!forall b, Decision (Q b)} ks :
  Forall (fun k => Q (path_of k) <-> P k) ks -> filter Q (to_paths ks) = to_paths (filter P ks).
Proof.
  induction 1 as [|k ks Hk _ IH]; [done|]. cbn [fmap list_fmap]. rewrite !filter_cons.
  destruct (decide (Q (path_of k))), (decide (P k)); [by rewrite IH|tauto|tauto|done].
Qed.

Lemma fmap_paths (g : BitArray -> BitArray) (f : list bool -> list bool) ks :
  Forall (fun k => g (path_of k) = path_of (f k)) ks -> g <$> to_paths ks = to_paths (f <$> ks).
Proof. induction 1 as [|k ks Hk _ IH]; [done|]. cbn [fmap list_fmap]. by rewrite Hk, IH. Qed.

Lemma nonempty_paths (ks : list (list bool)) : filter (fun p => (0 <? Len p) = true) (to_paths ks) = to_paths (filter nonempty ks).
Proof.
  apply filter_paths. apply Forall_forall. intros k _. rewrite Len_path, Z.ltb_lt. unfold nonempty.
  destruct k; simpl; [split; [lia|done]|split; [done|lia]].
Qed.

Lemma matchingEdgePaths_keys p ks h :
  (length p <= h <= 255)%nat -> Forall (fun k => length k = h) ks ->
  matchingEdgePaths (path_of p) (to_paths ks) = to_paths (below_edge p ks).
Proof.
  intros Hp Hk. unfold matchingEdgePaths, below_edge. rewrite <- nonempty_paths. f_equal.
  rewrite (filter_paths (fun k => take (length p) k = p) (fun q => PathMatches (path_of p) q = true)).
  - apply fmap_paths. apply Forall_forall. intros k [_ Hin]%list_elem_of_filter.
    eapply Forall_forall in Hk; [|done]. simpl in Hk. rewrite Len_path. apply LSBs_path. lia.
  - eapply Forall_impl; [done|]. intros k Hl. simpl in Hl |- *. rewrite PathMatches_path by lia. apply bool_decide_eq_true.
Qed.

(** The rest of the keys below a bit. *)
Definition below_bit (b : bool) (ks : list (list bool)) : list (list bool) :=
  filter nonempty (drop 1 <$> filter (fun k => head k = Some b) ks).

Lemma split_sorted ks h :
  (S h <= 255)%nat -> Forall (fun k => length k = S h) ks -> sorted_keys ks ->
  splitPathsByMSB (to_paths ks) =
    (to_paths (filter (fun k => head k = Some false) ks), to_paths (filter (fun k => head k = Some true) ks)).
Proof.
  intros Hh. induction ks as [|k ks IH]; intros Hl Hs; [done|].
  apply Forall_cons in Hl as [Hk Hl]. apply StronglySorted_inv in Hs as [Hs Hle].
  destruct k as [|b k]; [done|]. cbn [fmap list_fmap splitPathsByMSB]. rewrite MSB_path by lia.
  rewrite !filter_cons. cbn [head]. destruct b; simpl.
  - assert (Hall : Forall (fun x => head x = Some true) ks).
    { apply Forall_forall. intros x Hx. eapply Forall_forall in Hle; [|done]. eapply Forall_forall in Hl; [|done].
      destruct x as [|y x]; [done|]. by apply bits_le_true in Hle as ->. }
    rewrite (filter_true (fun k => head k = Some true)) by done.
    rewrite filter_false; [done|]. eapply Forall_impl; [done|]. intros x Hx. simpl. congruence.
  - rewrite (IH Hl Hs). done.
Qed.

(** The order of keys of one length. *)
Lemma bits_lt_val (a b : list bool) : length a = length b -> bits_lt a b = (bits_val a <? bits_val b).
Proof.
  intros E. pose proof (bits_val_range a). pose proof (bits_val_range b). rewrite <- E in *.
  rewrite <- (bits_lt_n (length a)) by done. rewrite bits_n_val. f_equal. rewrite E. symmetry. apply bits_n_val.
Qed.

Lemma Cmp_paths a b :
  length a = length b -> (length a <= 255)%nat -> (Cmp (path_of a) (path_of b) <? 0) = bits_lt a b.
Proof.
  intros E Ha. destruct (path_of_spec a Ha) as [Wa Ba], (path_of_spec b ltac:(lia)) as [Wb Bb].
  destruct (Cmp_orders _ _ Wa Wb) as (Hlt & _). rewrite Ba, Bb in Hlt. simpl len in Hlt. rewrite E in Hlt.
  assert (Hc : Cmp (path_of a) (path_of b) < 0 <-> Cmp (path_of a) (path_of b) = -1).
  { destruct (Cmp_cases (path_of a) (path_of b) Wa Wb) as [?|[?|?]]; lia. }
  apply eq_bool_prop_intro. rewrite !Is_true_true, Z.ltb_lt, Hc, Hlt. split; [intros [?|[_ ?]]; [lia|done]|auto].
Qed.

(** The paths of the prover: sorted, without duplicates. *)
Lemma dedup_paths (ks : list (list bool)) last :
  sorted_keys ks ->
  exists ks', dedup last (to_paths ks) = to_paths ks' /\ sorted_keys ks' /\ (forall k, k ∈ ks' -> k ∈ ks) /\
    forall k, k ∈ ks -> k ∈ ks' \/ last = Some (path_of k) \/ exists k', k' ∈ ks' /\ path_of k' = path_of k.
Proof.
  intros Hs. revert last. induction Hs as [|k ks Hs IH Hk]; intros last.
  { exists []. split_and!; [done|constructor|auto|by intros k ?%elem_of_nil]. }
  cbn [fmap list_fmap dedup]. destruct (bool_decide_reflect (last = Some (path_of k))) as [->|Hne].
  - destruct (IH (Some (path_of k))) as (ks' & E & Hs' & Hsub & Hall). exists ks'. split_and!; [done|done|set_solver|].
    intros x [->|Hx]%elem_of_cons; [auto|]. destruct (Hall x Hx) as [?|[?|?]]; auto.
  - destruct (IH (Some (path_of k))) as (ks' & E & Hs' & Hsub & Hall). exists (k :: ks').
    split_and!; [by rewrite E| | |].
    + constructor; [done|]. apply Forall_forall. intros x Hx%Hsub. by eapply Forall_forall in Hk.
    + intros x [->|Hx]%elem_of_cons; [by left|]. right. auto.
    + intros x [->|Hx]%elem_of_cons; [left; by left|]. destruct (Hall x Hx) as [?|[Ex%(inj Some)|(k' & ? & ?)]].
      * left. by right.
      * right. right. exists k. split; [by left|done].
      * right. right. exists k'. split; [by right|done].
Qed.

Lemma prover_paths (ks : list (list bool)) h :
  (h <= 255)%nat -> Forall (fun k => length k = h) ks ->
  exists ks', dedup None (sort_slice (fun a b => Cmp a b <? 0) (to_paths ks)) = to_paths ks' /\
    sorted_keys ks' /\ forall k, k ∈ ks' <-> k ∈ ks.
Proof.
  intros Hh Hl. rewrite (sort_slice_fmap path_of bits_lt _ (fun k => length k = h)); [|intros; apply Cmp_paths; lia|done].
  assert (Hs : sorted_keys (sort_slice bits_lt ks)).
  { apply (sort_slice_le bits_lt (fun k => length k = h)); [| |done].
    - intros x y Hx Hy. rewrite !bits_lt_val by congruence. rewrite Z.ltb_lt, Z.ltb_ge. lia.
    - intros x y z Hx Hy Hz. rewrite !bits_lt_val by congruence. rewrite !Z.ltb_ge. lia. }
  destruct (dedup_paths _ None Hs) as (ks' & E & Hs' & Hsub & Hall). exists ks'. split_and!; [done|done|].
  intros k. split; [intros Hk%Hsub; by rewrite sort_slice_perm in Hk|].
  intros Hk. rewrite <- (sort_slice_perm bits_lt) in Hk. destruct (Hall k Hk) as [?|[?|(k' & Hk' & Ep)]]; [done|done|].
  apply Hsub in Hk' as Hk2. rewrite sort_slice_perm in Hk2. eapply Forall_forall in Hl; [|exact Hk2].
  apply path_of_inj in Ep as <-; [done|]. simpl in Hl. lia.
Qed.

Section proofs.
Context {F : Type} `{!FieldElement F} `{!FieldElementLaws F}.
Variable hashFn : F -> F -> F.

Abbreviation tnode := (node F).
Abbreviation tree := (stree F).
Abbreviation sh := (shash hashFn).
Implicit Types (P : ProofNodeSet (F:=F)).

(** ** The nodes of a proof *)

(** A child as the prover writes it. *)
Definition ref_of (t : tree) : tnode := if is_leaf t then NValue (sh t) else NHash (sh t).

(** A proof node for the root of a tree. *)
Definition pnode (t : tree) (n : tnode) : Prop :=
  exists fl, (forall h, fHash fl = Some h -> h = sh t) /\
    match t with
    | SLeaf _ => False
    | SBin l r => n = NBinary (ref_of l) (ref_of r) fl
    | SEdge p c => n = NEdge (ref_of c) (path_of p) fl
    end.

Lemma Hash_ref t : Hash hashFn (ref_of t) = Ok (sh t).
Proof. unfold ref_of. by destruct (is_leaf t). Qed.

Lemma hash_pnode t n : pnode t n -> exists n', hash hashFn n = Ok (NHash (sh t), n').
Proof.
  intros (fl & Hfl & Hn). destruct t as [v|l r|p c]; [done|subst n..]; cbn [hash].
  - destruct (fHash fl) as [h|] eqn:Ef; [rewrite (Hfl _ eq_refl); eauto|].
    assert (Hr : forall t, hashChild (hash hashFn) (ref_of t) = Ok (ref_of t, ref_of t)).
    { intros t. unfold ref_of. by destruct (is_leaf t). }
    unfold hashBinaryChildren. rewrite !Hr. unfold mbind, outcome_bind, mret, outcome_ret. cbn [fst snd Hash]. unfold mbind, outcome_bind, mret, outcome_ret. rewrite !Hash_ref. cbn. eauto.
  - destruct (fHash fl) as [h|] eqn:Ef; [rewrite (Hfl _ eq_refl); eauto|].
    assert (Hr : hashEdgeChild (hash hashFn) (ref_of c) = Ok (ref_of c, ref_of c)).
    { unfold ref_of. by destruct (is_leaf c). }
    rewrite Hr. unfold mbind, outcome_bind, mret, outcome_ret. cbn [fst snd Hash]. unfold mbind, outcome_bind, mret, outcome_ret. rewrite !Hash_ref. cbn. eauto.
Qed.

Section prover.
Variables (reader : option (dbReader (F:=F))) (s : Trie (F:=F)) (ht : nat) (T : tree).
Hypothesis s_rep : trie_rep hashFn reader ht s (Some T).
Abbreviation Rep := (rep hashFn reader (owner s)).

Lemma hash_ref n pre t : Rep n pre t -> n ≠ NNil /\ exists n', hash hashFn n = Ok (ref_of t, n').
Proof.
  intros Hr. destruct (hash_inner hashFn reader (owner s) _ _ _ Hr) as (c & n' & E & _ & _ & Hi & Hl & Hn).
  split; [done|]. exists n'. rewrite E. do 2 f_equal. unfold ref_of.
  destruct Hr as [v pre|pre t Hlf Hs|l r fl pre tl tr _ _ _|c0 p fl pre tc _ _]; simpl in *.
  - by destruct (Hl eq_refl) as [-> _].
  - rewrite Hlf. by destruct (Hl eq_refl) as [-> _].
  - by apply Hi.
  - by apply Hi.
Qed.

Lemma proofHash_rep n pre t :
  Rep n pre t -> is_inner n = true -> exists pn, proofHash hashFn n = Ok (pn, NHash (sh t)) /\ pnode t pn.
Proof.
  intros Hr Hi. destruct Hr as [v pre|pre t Hlf Hs|l r fl pre tl tr Hl Hr Hfl|c p fl pre tc Hc Hfl]; try done.
  - destruct (hash_ref _ _ _ Hl) as (Nl & l' & El), (hash_ref _ _ _ Hr) as (Nr & r' & Er).
    assert (Hch : forall (x : tnode) y, x ≠ NNil -> hash hashFn x = y -> hashChild (hash hashFn) x = y).
    { intros x y Hx <-. by destruct x. }
    exists (NBinary (ref_of tl) (ref_of tr) fl). split; [|exists fl; split; [apply Hfl|done]].
    cbn [proofHash]. unfold hashBinaryChildren. rewrite (Hch _ _ Nl El), (Hch _ _ Nr Er).
    unfold mbind, outcome_bind, mret, outcome_ret. cbn [fst snd Hash]. unfold mbind, outcome_bind, mret, outcome_ret. by rewrite !Hash_ref.
  - destruct (hash_ref _ _ _ Hc) as (Nc & c' & Ec).
    exists (NEdge (ref_of tc) (path_of p) fl). split; [|exists fl; split; [apply Hfl|done]].
    assert (exists x, hashEdgeChild (hash hashFn) c = Ok (ref_of tc, x)) as [x Ex].
    { unfold hashEdgeChild. destruct (is_inner c) eqn:Ei; [eauto|].
      destruct c; try done; cbn in Ec; injection Ec as -> _; by eexists. }
    cbn [proofHash]. rewrite Ex. unfold mbind, outcome_bind, mret, outcome_ret. cbn [fst snd Hash]. unfold mbind, outcome_bind, mret, outcome_ret. by rewrite !Hash_ref.
Qed.

(** The proof holds nodes of the tree under their hashes. *)
Definition proof_ok P : Prop :=
  os_ok P /\ forall h n, os_Get P h = Some n ->
    exists l t, snode T l = Some t /\ is_leaf t = false /\ sh t = h /\ pnode t n.

Definition grows P P' : Prop := forall h, is_Some (os_Get P h) -> is_Some (os_Get P' h).

(** The nodes on the path of a key. *)
Definition on_path P (t : tree) (k : list bool) : Prop :=
  forall l t', l `prefix_of` k -> snode t l = Some t' -> is_leaf t' = false -> is_Some (os_Get P (sh t')).

Lemma on_path_grows P P' t k : grows P P' -> on_path P t k -> on_path P' t k.
Proof. intros Hg Hp l t' H1 H2 H3. apply Hg. by apply (Hp l). Qed.

Lemma wp_addProofNode n pre t b P :
  Rep n pre t -> is_inner n = true -> snode T pre = Some t -> proof_ok P ->
  wp (addProofNode hashFn n b) (fun _ P' => proof_ok P' /\ grows P P' /\ is_Some (os_Get P' (sh t))) P.
Proof.
  intros Hr Hi Ht [Hok Hn]. destruct (proofHash_rep _ _ _ Hr Hi) as (pn & E & Hpn).
  unfold addProofNode. rewrite E. wp_step. cbn [lift_pure]. wp_steps. split_and!.
  - split; [by apply os_ok_Put|]. intros h x. rewrite os_Get_Put by done.
    destruct (decide (h = sh t)) as [->|]; [|apply Hn]. intros [= <-]. exists pre, t.
    split_and!; [done|by destruct Hr|done|done].
  - intros h. rewrite os_Get_Put by done. destruct (decide _); [by eexists|done].
  - rewrite os_Get_Put, decide_True by done. by eexists.
Qed.

Lemma resolveProofNode_rep fuel n pre t h :
  Rep n pre t -> canon h t -> (0 < h)%nat -> (length pre + h = ht)%nat -> (0 < fuel)%nat ->
  exists n', resolveProofNode reader s fuel n (path_of pre) = Ok n' /\ Rep n' pre t /\ is_inner n' = true.
Proof.
  intros Hr Hc Hh Hl Hf. pose proof s_rep as [Eht Hb _ _ _].
  destruct Hr as [v pre|pre t Hlf Hs|l r fl pre tl tr H1 H2 Hfl|c p fl pre tc H1 Hfl].
  - destruct Hc. lia.
  - destruct fuel as [|k]; [lia|]. cbn [resolveProofNode]. rewrite Eht.
    destruct (resolve_rep hashFn reader (owner s) ht ltac:(lia) pre h t) as (n & E & Hn & Hi & _); [done..|].
    rewrite E. exists n. split_and!; [|done|done]. unfold mbind, outcome_bind. by destruct k, n.
  - eexists. split_and!; [by destruct fuel|by constructor|done].
  - eexists. split_and!; [by destruct fuel|by constructor|done].
Qed.

Lemma on_path_leaf P (t : tree) : is_leaf t = true -> on_path P t [].
Proof.
  intros Hl l t' Hp Hs Hn. apply prefix_nil_inv in Hp as ->. rewrite snode_nil in Hs. injection Hs as <-. congruence.
Qed.

Lemma on_path_edge P p (c : tree) k :
  is_Some (os_Get P (sh (SEdge p c))) -> (take (length p) k = p -> on_path P c (drop (length p) k)) ->
  on_path P (SEdge p c) k.
Proof.
  intros Hn Hc l t' Hl Hs Hlf. destruct l as [|b l]; [simpl in Hs; by injection Hs as <-|].
  cbn [snode] in Hs. destruct (bool_decide _) eqn:E; [|done]. apply bool_decide_eq_true_1 in E.
  destruct Hl as [z ->].
  assert (Hle : (length p <= length (b :: l))%nat) by (rewrite <- E at 1; rewrite length_take; lia).
  rewrite take_app_le, drop_app_le in Hc by done.
  apply (Hc E (drop (length p) (b :: l)) t'); [by eexists|done|done].
Qed.

Lemma on_path_bin P (t0 t1 : tree) (b : bool) k :
  is_Some (os_Get P (sh (SBin t0 t1))) -> on_path P (if b then t1 else t0) k -> on_path P (SBin t0 t1) (b :: k).
Proof.
  intros Hn Hc l t' Hl Hs Hlf. destruct l as [|x l]; [simpl in Hs; by injection Hs as <-|].
  pose proof (prefix_cons_inv_1 _ _ _ _ Hl) as ->. apply prefix_cons_inv_2 in Hl. by apply (Hc l).
Qed.

Lemma below_edge_sorted p ks : sorted_keys ks -> sorted_keys (below_edge p ks).
Proof.
  intros Hs. apply sorted_filter. apply sorted_filter_map; [|done]. intros a b Ha Hb Hle.
  rewrite <- (take_drop (length p) a), <- (take_drop (length p) b), Ha, Hb in Hle. by apply bits_le_app in Hle.
Qed.

Lemma below_bit_sorted b ks : sorted_keys ks -> sorted_keys (below_bit b ks).
Proof.
  intros Hs. apply sorted_filter. apply sorted_filter_map; [|done]. intros x y Hx Hy Hle.
  destruct x, y; try done. simpl in Hx, Hy. simplify_eq. by apply bits_le_cons in Hle.
Qed.

(** What a call of the prover establishes. *)
Definition proves (t : tree) (ks : list (list bool)) P (_ : unit) P' : Prop :=
  proof_ok P' /\ grows P P' /\ forall k, k ∈ ks -> on_path P' t k.

Definition prove_ok (fuel : nat) : Prop := forall n pre t h ks b P,
  Rep n pre t -> canon h t -> (length pre + h = ht)%nat -> (h < fuel)%nat -> snode T pre = Some t ->
  Forall (fun k => length k = h /\ k ≠ []) ks -> sorted_keys ks -> proof_ok P ->
  wp (proveMultiFrom hashFn reader s fuel n (path_of pre) (to_paths ks) b) (proves t ks P) P.

(** The keys below a child; a key that ends at the child needs nothing. *)
Lemma prove_child fuel n pre t h ks ks' P :
  prove_ok fuel -> Rep n pre t -> canon h t -> (length pre + h = ht)%nat -> (h < fuel)%nat ->
  snode T pre = Some t -> sorted_keys ks' -> proof_ok P ->
  (forall k, k ∈ ks' <-> k ≠ [] /\ k ∈ ks) -> Forall (fun k => length k = h) ks ->
  wp (proveMultiFrom hashFn reader s fuel n (path_of pre) (to_paths ks') false) (proves t ks P) P.
Proof.
  intros IH Hr Hc Hl Hf Ht Hs HP Hks Hlen. eapply wp_mono; [apply (IH n pre t h ks'); try done|].
  - apply Forall_forall. intros k [Hne Hin]%Hks. split; [|done]. eapply Forall_forall in Hlen; [exact Hlen|done].
  - intros [] P' (H1 & H2 & H3). split_and!; [done|done|]. intros k Hk. destruct k as [|x k].
    + apply on_path_leaf. rewrite (canon_leaf_iff _ _ Hc). apply bool_decide_eq_true_2.
      eapply (Forall_forall _ ks) in Hlen; [|exact Hk]. by rewrite <- Hlen.
    + apply H3, Hks. done.
Qed.

(** Below a binary node. *)
Lemma prove_bin fuel l r fl pre tl tr h ks b P :
  prove_ok fuel -> Rep (NBinary l r fl) pre (SBin tl tr) -> canon h (SBin tl tr) -> (length pre + h = ht)%nat ->
  (h < S fuel)%nat -> snode T pre = Some (SBin tl tr) ->
  Forall (fun k => length k = h) ks -> sorted_keys ks -> proof_ok P ->
  wp (addProofNode hashFn (NBinary l r fl) b;;
      let '(leftPaths, rightPaths) := splitPathsByMSB (to_paths ks) in
      proveMultiFrom hashFn reader s fuel l (AppendBit (path_of pre) 0) (dropMSB leftPaths) false;;
      proveMultiFrom hashFn reader s fuel r (AppendBit (path_of pre) 1) (dropMSB rightPaths) false)
    (proves (SBin tl tr) ks P) P.
Proof using s_rep FieldElementLaws0.
  pose proof s_rep as [_ Hht _ _ _]. intros IH Hr Hc Hl Hf Ht Hlen Hs HP.
  pose proof (wp_addProofNode _ pre _ b P Hr eq_refl Ht HP) as Hadd.
  inversion Hr as [| |? ? ? ? ? ? R0 R1 Hfl|]; subst.
  destruct Hc as (h' & -> & Hc0 & Hc1). wp_step. eapply wp_mono; [exact Hadd|]. clear Hadd.
  intros _ P1 (HP1 & Hg1 & Hn1). rewrite (split_sorted ks h') by (done || lia).
  assert (Hsub : forall (x : bool), snode T (pre ++ [x]) = Some (if x then tr else tl)).
  { intros x. rewrite (snode_app _ _ _ _ Ht). simpl. destruct x; apply snode_nil. }
  assert (Hdrop : forall x, dropMSB (to_paths (filter (fun k => head k = Some x) ks)) = to_paths (below_bit x ks)).
  { intros x. unfold dropMSB, below_bit. rewrite <- nonempty_paths. f_equal. apply fmap_paths.
    apply Forall_forall. intros k [_ Hin]%list_elem_of_filter. eapply Forall_forall in Hlen; [|done].
    simpl in Hlen. apply (LSBs_path k 1). lia. }
  set (rest := fun x : bool => drop 1 <$> filter (fun k => head k = Some x) ks).
  assert (Hrest : forall x k, k ∈ below_bit x ks <-> k ≠ [] /\ k ∈ rest x).
  { intros x k. unfold below_bit. by rewrite list_elem_of_filter. }
  assert (Hrl : forall x, Forall (fun k => length k = h') (rest x)).
  { intros x. apply Forall_fmap, Forall_forall. intros k [_ Hin]%list_elem_of_filter. simpl.
    eapply Forall_forall in Hlen; [|done]. rewrite length_drop. simpl in Hlen. lia. }
  rewrite !Hdrop. pose proof (AppendBit_path pre false ltac:(lia)) as EL.
  pose proof (AppendBit_path pre true ltac:(lia)) as ER. cbn [Z.b2z] in EL, ER. rewrite EL, ER.
  wp_step. eapply wp_mono; [eapply (prove_child fuel l _ tl h' (rest false));
    [done|done|done|rewrite length_app; simpl; lia|lia|apply Hsub|by apply below_bit_sorted|done|apply Hrest|apply Hrl]|].
  intros [] P2 (HP2 & Hg2 & Ho2).
  eapply wp_mono; [eapply (prove_child fuel r _ tr h' (rest true));
    [done|done|done|rewrite length_app; simpl; lia|lia|apply (Hsub true)|by apply below_bit_sorted|done|apply Hrest|apply Hrl]|].
  intros [] P3 (HP3 & Hg3 & Ho3). split_and!; [done|intros x Hx; auto|]. intros k Hk.
  eapply Forall_forall in Hlen; [|done]. destruct k as [|x k]; [done|].
  assert (Hin : k ∈ rest x).
  { apply list_elem_of_fmap. exists (x :: k). split; [done|]. by apply list_elem_of_filter. }
  apply on_path_bin; [by apply Hg3, Hg2|]. destruct x; [by apply Ho3|].
  eapply on_path_grows; [exact Hg3|]. by apply Ho2.
Qed.

(** Below an edge. *)
Lemma prove_edge fuel c p fl pre tc h ks b P :
  prove_ok fuel -> Rep c (pre ++ p) tc -> Rep (NEdge c (path_of p) fl) pre (SEdge p tc) ->
  canon h (SEdge p tc) -> (length pre + h = ht)%nat ->
  (h < S fuel)%nat -> snode T pre = Some (SEdge p tc) ->
  Forall (fun k => length k = h) ks -> sorted_keys ks -> proof_ok P ->
  wp (addProofNode hashFn (NEdge c (path_of p) fl) b;;
      let matchingPaths := matchingEdgePaths (path_of p) (to_paths ks) in
      if bool_decide (matchingPaths = []) then mret tt
      else proveMultiFrom hashFn reader s fuel c (Append (path_of pre) (path_of p)) matchingPaths false)
    (proves (SEdge p tc) ks P) P.
Proof using s_rep FieldElementLaws0.
  pose proof s_rep as [_ Hht _ _ _]. intros IH R0 Hr Hc Hl Hf Ht Hlen Hs HP.
  pose proof (wp_addProofNode _ pre _ b P Hr eq_refl Ht HP) as Hadd.
  destruct Hc as (Hp & _ & h' & -> & Hcc). wp_step. eapply wp_mono; [exact Hadd|]. clear Hadd.
  assert (0 < length p)%nat by (destruct p; [done|simpl; lia]).
  intros _ P1 (HP1 & Hg1 & Hn1). rewrite (matchingEdgePaths_keys p ks (length p + h')) by (done || lia).
  set (rest := drop (length p) <$> filter (fun k => take (length p) k = p) ks).
  assert (Hrl : Forall (fun k => length k = h') rest).
  { apply Forall_fmap, Forall_forall. intros k [_ Hin]%list_elem_of_filter. simpl.
    eapply Forall_forall in Hlen; [|done]. rewrite length_drop. simpl in Hlen. lia. }
  assert (Hgo : wp (proveMultiFrom hashFn reader s fuel c (path_of (pre ++ p)) (to_paths (below_edge p ks)) false)
                  (proves tc rest P1) P1).
  { eapply (prove_child fuel c _ tc h' rest); [done|done|done|rewrite length_app; lia|lia| |by apply below_edge_sorted|done| |done].
    - rewrite (snode_app _ _ _ _ Ht). pose proof (snode_edge p tc [] Hp) as E. by rewrite app_nil_r, snode_nil in E.
    - intros k. unfold below_edge. by rewrite list_elem_of_filter. }
  assert (Hfin : forall P2, proves tc rest P1 tt P2 -> proves (SEdge p tc) ks P tt P2).
  { intros P2 (HP2 & Hg2 & Ho2). split_and!; [done|intros x Hx; auto|]. intros k Hk.
    apply on_path_edge; [by apply Hg2|]. intros Et. apply Ho2. apply list_elem_of_fmap. exists k.
    split; [done|]. by apply list_elem_of_filter. }
  rewrite Append_path by lia. cbv zeta.
  destruct (bool_decide_reflect (to_paths (below_edge p ks) = [])) as [E|E].
  - apply fmap_nil_inv in E. wp_step. apply Hfin. rewrite E in Hgo. destruct fuel as [|f]; [lia|].
    cbn [proveMultiFrom fmap list_fmap] in Hgo. rewrite bool_decide_true in Hgo by done.
    assert (Hx : (match c with NNil => true | _ => true end) = true) by (by destruct c). rewrite Hx in Hgo.
    by eapply wp_result in Hgo.
  - eapply wp_mono; [exact Hgo|]. intros [] P2. apply Hfin.
Qed.

Lemma wp_prove fuel : prove_ok fuel.
Proof using s_rep FieldElementLaws0.
  pose proof s_rep as [_ Hht _ _ _].
  induction fuel as [|fuel IH]; intros n pre t h ks b P Hr Hc Hl Hf Ht Hks Hs HP; [lia|].
  cbn [proveMultiFrom]. pose proof (rep_not_nil _ _ _ _ _ _ Hr) as Hnil.
  assert (Hm : (match n with NNil => true | _ => bool_decide (to_paths ks = []) end) = bool_decide (ks = [])).
  { trans (bool_decide (to_paths ks = [])); [destruct n; congruence|]. apply bool_decide_ext.
    split; [apply fmap_nil_inv|by intros ->]. }
  rewrite Hm. destruct (bool_decide_reflect (ks = [])) as [->|Hne].
  { wp_step. split_and!; [done|by intros x|by intros k ?%elem_of_nil]. }
  assert (Hh : (0 < h)%nat).
  { destruct ks as [|k ks]; [done|]. apply Forall_cons in Hks as [[<- Hk] _]. destruct k; [done|simpl; lia]. }
  assert (Hlen : Forall (fun k => length k = h) ks) by (eapply Forall_impl; [exact Hks|by intros k [? _]]).
  destruct (resolveProofNode_rep (S fuel) n pre t h) as (n' & En & Hr' & Hi); [done|done|done|done|lia|].
  wp_step. rewrite En. eapply wp_intro; [done|].
  destruct Hr' as [v pre|pre t Hlf _|l r fl pre tl tr R0 R1 Hfl|c p fl pre tc R0 Hfl]; try done.
  - apply (prove_bin fuel _ _ _ _ _ _ h); try done. by constructor.
  - apply (prove_edge fuel _ _ _ _ _ h); try done. by constructor.
Qed.

Lemma wp_ProveMulti keys P :
  proof_ok P ->
  wp (ProveMulti hashFn reader s keys)
    (fun _ P' => proof_ok P' /\ forall key, key ∈ keys -> on_path P' T (key_bits ht key)) P.
Proof using s_rep FieldElementLaws0.
  intros HP. pose proof s_rep as [Eh Hht Ho Hc Hr]. simpl in Hc, Hr. unfold ProveMulti. rewrite Ho.
  destruct (bool_decide_reflect (keys = [])) as [->|Hne].
  { cbn [orb]. wp_step. split; [done|]. by intros key ?%elem_of_nil. }
  cbn [orb]. rewrite Eh. destruct (Z.eqb_spec (Z.of_nat ht) 0); [lia|].
  assert (E : (fun key => FeltToPath key (Z.of_nat ht)) <$> keys = to_paths (key_bits ht <$> keys)).
  { rewrite <- list_fmap_compose. apply list_fmap_ext. intros i key _. simpl. apply FeltToPath_bits. lia. }
  rewrite E, empty_path, Nat2Z.id.
  destruct (prover_paths (key_bits ht <$> keys) ht) as (ks & -> & Hs & Hks); [lia| |].
  { apply Forall_fmap, Forall_forall. intros key _. apply length_key_bits. }
  eapply wp_mono; [apply (wp_prove (S ht) (root s) [] T ht ks true P); try done; [lia|apply snode_nil|]|].
  - apply Forall_forall. intros k (key & -> & _)%Hks%list_elem_of_fmap. pose proof (length_key_bits ht key) as El.
    split; [done|]. intros Ek. rewrite Ek in El. simpl in El. lia.
  - intros [] P' (HP' & _ & Hp). split; [done|]. intros key Hkey. apply Hp, Hks. apply list_elem_of_fmap. eauto.
Qed.

End prover.

(** ** Verification *)

Lemma Len_zero k : (Len (path_of k) =? 0) = bool_decide (k = []).
Proof.
  rewrite Len_path. destruct k; [done|]. rewrite bool_decide_false by done. apply Z.eqb_neq. simpl. lia.
Qed.

(** The child of a proof node a key leads to. *)
Definition next_tree (t : tree) (k : list bool) : option (tree * list bool) :=
  match t, k with
  | SBin l r, b :: k' => Some (if b then r else l, k')
  | SEdge p c, _ => if bool_decide (take (length p) k = p) then Some (c, drop (length p) k) else None
  | _, _ => None
  end.

Lemma next_tree_spec t k h :
  canon h t -> is_leaf t = false -> length k = h ->
  match next_tree t k with
  | Some (c, k') => exists h' l, canon h' c /\ length k' = h' /\ (h' < h)%nat /\ slookup t k = slookup c k' /\
      k = l ++ k' /\ snode t l = Some c
  | None => slookup t k = None
  end.
Proof.
  intros Hc Hl Hk. destruct t as [v|l r|p c]; [done|..].
  - destruct Hc as (h' & -> & Hcl & Hcr). destruct k as [|b k]; [done|]. cbn [next_tree]. exists h', [b].
    split_and!; [by destruct b|by injection Hk|lia|done|done|]. simpl. destruct b; apply snode_nil.
  - destruct Hc as (Hp & _ & h' & -> & Hcc). cbn [next_tree slookup].
    destruct (bool_decide_reflect (take (length p) k = p)) as [E|E]; [|done].
    assert (0 < length p)%nat by (destruct p; [done|simpl; lia]).
    exists h', p. split_and!; [done|rewrite length_drop; lia|lia|done| |].
    + rewrite <- E at 1. by rewrite take_drop.
    + pose proof (snode_edge p c [] Hp) as Es. by rewrite app_nil_r, snode_nil in Es.
Qed.

(** The shape of a node: the references to its children. *)
Inductive shape : Type :=
| ShBin (l r : tnode)
| ShEdge (c : tnode) (p : BitArray).

Definition shape_of (n : tnode) : option shape :=
  match n with
  | NBinary l r _ => Some (ShBin l r)
  | NEdge c p _ => Some (ShEdge c p)
  | _ => None
  end.

(** The shape of the root of a tree, with references made by [ref]. *)
Definition tree_shape (ref : tree -> tnode) (t : tree) : option shape :=
  match t with
  | SLeaf _ => None
  | SBin l r => Some (ShBin (ref l) (ref r))
  | SEdge p c => Some (ShEdge (ref c) (path_of p))
  end.

Lemma get_child_shape ref n t k h :
  shape_of n = tree_shape ref t -> canon h t -> (h <= 255)%nat -> is_leaf t = false -> length k = h ->
  match next_tree t k with
  | Some (c, k') => get_child n (path_of k) = (ref c, path_of k')
  | None => (get_child n (path_of k)).1 = NNil
  end.
Proof.
  intros Hn Hc Hh Hl Hk. destruct t as [v|l r|p c]; [done|..]; cbn [tree_shape] in Hn.
  - destruct n; try done. cbn [shape_of] in Hn. injection Hn as -> ->.
    destruct Hc as (h' & -> & _ & _). destruct k as [|b k]; [done|]. cbn [next_tree get_child].
    rewrite MSB_path, LSBs1_path, child_at_bit by lia. by destruct b.
  - destruct n; try done. cbn [shape_of] in Hn. injection Hn as -> ->.
    destruct Hc as (Hp & _ & h' & -> & _). cbn [next_tree get_child].
    rewrite PathMatches_path, Len_path, LSBs_path by lia. by destruct (bool_decide _).
Qed.

(** Verification follows the tree as long as the proof nodes have its shapes. *)
Lemma verify_follows (ref : tree -> tnode) fuel P t k h :
  (forall c, ref c = NHash (sh c) \/ is_leaf c = true /\ ref c = NValue (sh c)) ->
  canon h t -> (h <= 255)%nat -> is_leaf t = false -> length k = h -> (h <= fuel)%nat ->
  (forall l t', l `prefix_of` k -> snode t l = Some t' -> is_leaf t' = false ->
     exists n n', os_Get P (sh t') = Some n /\ hash hashFn n = Ok (NHash (sh t'), n') /\
       shape_of n = tree_shape ref t') ->
  verify_loop hashFn fuel P (sh t) (path_of k) = Ok (default felt_Zero (slookup t k)).
Proof.
  intros Href. revert t k h. induction fuel as [|fuel IH]; intros t k h Hc Hh Hl Hk Hf Hp.
  { rewrite (canon_leaf_iff _ _ Hc) in Hl. apply bool_decide_eq_false_1 in Hl. lia. }
  destruct (Hp [] t) as (n & n' & Eg & En & Es); [by exists k|apply snode_nil|done|].
  pose proof (get_child_shape ref n t k h Es Hc Hh Hl Hk) as Hg.
  pose proof (next_tree_spec t k h Hc Hl Hk) as Hn.
  cbn [verify_loop]. rewrite Eg, En, bool_decide_true by done. cbn [negb].
  destruct (next_tree t k) as [[c k']|].
  2:{ rewrite (surjective_pairing (get_child n (path_of k))), Hg, Hn. done. }
  rewrite Hg. destruct Hn as (h' & l & Hc' & Hk' & Hlt & -> & -> & Hs).
  assert (Hleaf : is_leaf c = bool_decide (k' = [])).
  { rewrite (canon_leaf_iff _ _ Hc'), <- Hk'. apply bool_decide_ext. by destruct k'. }
  destruct (is_leaf c) eqn:El.
  - symmetry in Hleaf. apply bool_decide_eq_true_1 in Hleaf as ->. destruct c as [v|c0 c1|p c0]; try done.
    destruct (Href (SLeaf v)) as [->|[_ ->]]; done.
  - destruct (Href c) as [->|[? _]]; [|congruence]. rewrite Len_zero, <- Hleaf.
    apply (IH _ _ h'); [done|lia|done|done|lia|]. intros l2 t' [z ->] Hs' Hlf.
    apply (Hp (l ++ l2) t'); [|by rewrite (snode_app _ _ _ _ Hs)|done]. exists z. by rewrite <- app_assoc.
Qed.

(** ** Completeness *)

(** No two different inner nodes of a tree have the same hash. *)
Definition hashes_distinct (T : tree) : Prop :=
  forall l1 l2 t1 t2, snode T l1 = Some t1 -> snode T l2 = Some t2 ->
    is_leaf t1 = false -> is_leaf t2 = false -> sh t1 = sh t2 -> t1 = t2.

(** C16: proofs verify.  For any keys, [ProveMulti] on a trie (fresh, modified
    or opened on a database) adds nodes to an empty proof with which
    [VerifyProof] returns, for the root hash of the trie and each of the keys,
    the value of the key in the trie: zero for the keys that are absent.  (No
    two different nodes of the trie may have the same hash, as the nodes of a
    proof are found by their hashes.) *)
Theorem proofs_verify reader s T keys fuel :
  trie_rep hashFn reader 251 s (Some T) -> hashes_distinct T -> (251 <= fuel)%nat ->
  wp (ProveMulti hashFn reader s keys)
    (fun _ P => forall key, key ∈ keys ->
       VerifyProof hashFn fuel (sh T) key P = Ok (map_of (Some T) (key_bits 251 key)))
    NewProofNodeSet.
Proof.
  intros Hs Hd Hf. eapply wp_mono; [eapply (wp_ProveMulti reader s 251 T Hs)|].
  { split; [apply os_ok_new|]. intros h n E. by unfold os_Get in E. }
  intros _ P [[_ HP] Hon] key Hkey. pose proof Hs as [_ _ _ Hc _]. simpl in Hc.
  unfold VerifyProof, contractClassTrieHeight.
  replace (SetFelt 251 key) with (path_of (key_bits 251 key)) by (symmetry; apply (FeltToPath_bits 251); lia).
  apply (verify_follows ref_of _ _ _ _ 251); [|done|lia| | |done|].
  - intros c. unfold ref_of. destruct (is_leaf c); auto.
  - by rewrite (canon_leaf_iff _ _ Hc).
  - apply length_key_bits.
  - intros l t' Hl Ht' Hlf. destruct (Hon key Hkey l t' Hl Ht' Hlf) as [n En].
    destruct (HP _ _ En) as (l2 & t2 & Ht2 & Hlf2 & E2 & Hpn).
    assert (t2 = t') as -> by (by eapply Hd). destruct (hash_pnode _ _ Hpn) as [n' Ehn].
    exists n, n'. split_and!; [done|done|]. destruct Hpn as (fl & _ & Hsh).
    destruct t'; [done|by subst n..].
Qed.

(** ** Soundness *)

(** A node as it comes from elsewhere: its children are hashes and its own hash
    is not cached. *)
Definition wire (n : tnode) : Prop :=
  match n with
  | NBinary (NHash _) (NHash _) fl | NEdge (NHash _) _ fl => fHash fl = None
  | _ => False
  end.

(** A node of the proof with the hash of a node of the tree is that node. *)
Definition collision_free P (T : tree) : Prop :=
  forall h n l t, os_Get P h = Some n -> snode T l = Some t -> is_leaf t = false ->
    Hash hashFn n = Ok (sh t) -> shape_of n = tree_shape (fun c => NHash (sh c)) t.

Lemma hash_wire n : wire n -> exists h n', hash hashFn n = Ok (NHash h, n') /\ Hash hashFn n = Ok h.
Proof.
  destruct n as [|l r fl|c p fl| |]; try done; cbn [wire].
  - destruct l; try done. destruct r; try done. intros E. cbn [hash]. rewrite E. cbn. eauto.
  - destruct c; try done. intros E. cbn [hash]. rewrite E. cbn. eauto.
Qed.

Lemma verify_sound_loop fuel P T l0 t k h :
  (forall x n, os_Get P x = Some n -> wire n) -> collision_free P T ->
  snode T l0 = Some t -> canon h t -> (h <= 255)%nat -> is_leaf t = false -> length k = h -> (h <= fuel)%nat ->
  verify_loop hashFn fuel P (sh t) (path_of k) = Ok (default felt_Zero (slookup t k)) \/
  exists e, verify_loop hashFn fuel P (sh t) (path_of k) = Err e.
Proof.
  intros Hw Hcf. revert l0 t k h. induction fuel as [|fuel IH]; intros l0 t k h Ht Hc Hh Hl Hk Hf.
  { rewrite (canon_leaf_iff _ _ Hc) in Hl. apply bool_decide_eq_false_1 in Hl. lia. }
  cbn [verify_loop]. destruct (os_Get P (sh t)) as [n|] eqn:Eg; [|right; eauto].
  destruct (hash_wire n (Hw _ _ Eg)) as (x & n' & -> & Eh).
  destruct (bool_decide_reflect (x = sh t)) as [->|]; [|right; eauto]. cbn [negb].
  pose proof (get_child_shape _ n t k h (Hcf _ _ _ _ Eg Ht Hl Eh) Hc Hh Hl Hk) as Hg.
  pose proof (next_tree_spec t k h Hc Hl Hk) as Hn. destruct (next_tree t k) as [[c k']|].
  2:{ left. rewrite (surjective_pairing (get_child n (path_of k))), Hg, Hn. done. }
  rewrite Hg. destruct Hn as (h' & l & Hc' & Hk' & Hlt & -> & -> & Hs). rewrite Len_zero.
  assert (Hleaf : is_leaf c = bool_decide (k' = [])).
  { rewrite (canon_leaf_iff _ _ Hc'), <- Hk'. apply bool_decide_ext. by destruct k'. }
  rewrite <- Hleaf. destruct (is_leaf c) eqn:El.
  - left. symmetry in Hleaf. apply bool_decide_eq_true_1 in Hleaf as ->. by destruct c.
  - apply (IH (l0 ++ l) _ _ h'); [|done|lia|done|done|lia]. by rewrite (snode_app _ _ _ _ Ht).
Qed.

(** C17: verified values are right.  For a proof from anywhere (inner nodes
    whose children are given by their hashes, without cached hashes),
    [VerifyProof] against the root hash of a tree returns the value of the key
    in that tree or an error, after at most 251 nodes, unless a node of the
    proof has the hash of a different node of the tree. *)
Theorem verified_value_correct T key P fuel :
  canon 251 T -> (forall x n, os_Get P x = Some n -> wire n) -> collision_free P T -> (251 <= fuel)%nat ->
  VerifyProof hashFn fuel (sh T) key P = Ok (map_of (Some T) (key_bits 251 key)) \/
  exists e, VerifyProof hashFn fuel (sh T) key P = Err e.
Proof.
  intros Hc Hw Hcf Hf. unfold VerifyProof, contractClassTrieHeight.
  replace (SetFelt 251 key) with (path_of (key_bits 251 key)) by (symmetry; apply (FeltToPath_bits 251); lia).
  apply (verify_sound_loop fuel P T [] T _ 251); [done|done|apply snode_nil|done|lia| |apply length_key_bits|done].
  by rewrite (canon_leaf_iff _ _ Hc).
Qed.

End proofs.
