(* ===== verification/TrieWitness.v ===== *)
(** * Tries on concrete inputs

    The theorems on tries at small tries over the Stark field, with a toy hash
    function and a database that holds the nodes of a tree of height 3; then Merkle
    proofs. *)
From stdpp Require Import prelude gmap list relations sorting.
From Stdlib Require Import ZArith Lia.
From S2P Require Import Prelude Felt BitArray BitArrayFacts TrieNode Trie TrieSpec TrieTrace TrieRep TrieNodeFacts.
From S2P Require Import TrieNodeFacts TrieTheorems TrieFrame MemDB MemDBFacts TrieDB TrieDBFacts TrieCommit TrieProof TrieProofFacts.

Local Open Scope Z_scope.

Definition toy_hash (x y : StarkField) : StarkField := stark (3 * proj1_sig x + 5 * proj1_sig y + 7).

(** The tree with the values 7 under the key 2 and 9 under the key 5. *)
Definition toy_tree : stree StarkField :=
  SBin (SEdge [true; false] (SLeaf (stark 7))) (SEdge [false; true] (SLeaf (stark 9))).

(** Its database: the blobs of the inner nodes by path. *)
Definition toy_db : list (list bool * list Z) :=
  [([], node_blob toy_hash toy_tree);
   ([false], node_blob toy_hash (SEdge [true; false] (SLeaf (stark 7))));
   ([true], node_blob toy_hash (SEdge [false; true] (SLeaf (stark 9))))].

Definition toy_reader : dbReader (F:=StarkField) := fun _ path _ _ =>
  match list_find (fun x => path_of x.1 = path) toy_db with
  | Some (_, (_, blob)) => Ok blob
  | None => Err ErrKeyNotFound
  end.

Definition toy_ops : list (trie_op (F:=StarkField)) :=
  [OpUpdate (stark 5) (stark 11); OpUpdate (stark 4) (stark 3); OpHash; OpDelete (stark 2); OpGet (stark 4)].

Lemma toy_stored : stored toy_hash (Some toy_reader) (stark 1) [] toy_tree.
Proof. repeat split. Defined.

Lemma stark_neq x y : bool_decide (stark x = stark y) = false -> stark x ≠ stark y.
Proof. apply bool_decide_eq_false_1. Defined.

Lemma toy_canon : canon 3 toy_tree.
Proof.
  exists 2%nat. split; [done|]. split; (split; [done|]; split; [done|]; exists 0%nat;
    split; [done|]; split; [done|]; by apply stark_neq; vm_compute).
Defined.

Definition toy_trie : Trie (F:=StarkField) :=
  match New (Some toy_reader) (stark 1) (stark 1) 3 with Ok s => s | _ => NewEmpty 3 end.

Lemma New_opens_database_witness :
  exists s, New (Some toy_reader) (stark 1) (stark 1) 3 = Ok s /\
    trie_rep toy_hash (Some toy_reader) 3 s (Some toy_tree) /\ owner s = stark 1.
Proof.
  apply (New_opens_database toy_hash (Some toy_reader) (stark 1) (stark 1) 3 toy_tree).
  - lia.
  - apply toy_canon.
  - apply toy_stored.
  - by apply stark_neq; vm_compute.
  - reflexivity.
Defined.

Lemma toy_trie_rep : trie_rep toy_hash (Some toy_reader) 3 toy_trie (Some toy_tree).
Proof.
  destruct (resolve_root toy_hash (Some toy_reader) (stark 1) 3 toy_tree) as (n & E & Hn & _);
    [lia|apply toy_canon|apply toy_stored|reflexivity|].
  assert (Et : toy_trie = set_root (mkTrie 3 (stark 1) NNil false newTracer 0 0) n).
  { unfold toy_trie, New, new_trie. replace (felt_IsZero (stark 1)) with false by (reflexivity).
    change 3 with (Z.of_nat 3). by rewrite E. }
  rewrite Et. split; [done|simpl; lia|done|apply toy_canon|done].
Qed.

Lemma trie_get_after_ops_witness :
  wp (run_ops toy_hash (Some toy_reader) toy_ops;; Get (Some toy_reader) (stark 5))
    (fun v _ => v = stark 11) toy_trie.
Proof.
  eapply wp_mono.
  - apply (trie_get_after_ops toy_hash (Some toy_reader) 3 toy_trie (Some toy_tree)). apply toy_trie_rep.
  - intros v s ->. reflexivity.
Defined.

Lemma toy_maps_agree k :
  ops_map 3 (map_of (Some toy_tree)) toy_ops k =
    ops_map 3 (map_of None) [OpUpdate (stark 4) (stark 3); OpUpdate (stark 5) (stark 11)] k.
Proof.
  unfold ops_map. simpl. unfold upd.
  destruct (decide (k = key_bits 3 (stark 2))) as [->|H2]; [reflexivity|].
  destruct (decide (k = key_bits 3 (stark 4))) as [->|H4]; [reflexivity|].
  destruct (decide (k = key_bits 3 (stark 5))) as [->|H5]; [reflexivity|].
  unfold map_of. cbn [olookup toy_tree default].
  assert (E2 : key_bits 3 (stark 2) = [false; true; false]) by (reflexivity).
  assert (E5 : key_bits 3 (stark 5) = [true; false; true]) by (reflexivity).
  rewrite E2 in H2. rewrite E5 in H5.
  destruct k as [|[] k]; [done|..].
  - destruct (slookup _ _) as [v|] eqn:E; [|done]. exfalso. cbn [slookup] in E.
    apply slookup_edge_Some in E as (k' & -> & E). apply H5.
    apply (slookup_length 0) in E; [by destruct k'|]. split; [done|by apply stark_neq; vm_compute].
  - destruct (slookup _ _) as [v|] eqn:E; [|done]. exfalso. cbn [slookup] in E.
    apply slookup_edge_Some in E as (k' & -> & E). apply H2.
    apply (slookup_length 0) in E; [by destruct k'|]. split; [done|by apply stark_neq; vm_compute].
Qed.

Lemma root_hash_canonical_witness :
  exists h s1 s2,
    (run_ops toy_hash (Some toy_reader) toy_ops;; Trie_Hash toy_hash) toy_trie = (Ok h, s1) /\
    (run_ops toy_hash None [OpUpdate (stark 4) (stark 3); OpUpdate (stark 5) (stark 11)];;
       Trie_Hash toy_hash) (NewEmpty 3) = (Ok h, s2).
Proof.
  apply (root_hash_canonical toy_hash (Some toy_reader) None 3 toy_trie (NewEmpty 3) (Some toy_tree) None).
  - apply toy_trie_rep.
  - apply NewEmpty_rep. lia.
  - apply toy_maps_agree.
Defined.

(** At the height of the state tries, the keys 1 and [2 ^ 251 + 1]. *)
Lemma trie_keys_truncated_witness :
  stark 1 ≠ stark (2 ^ 251 + 1) /\
  wp (Update None (stark 1) (stark 9);; Get None (stark (2 ^ 251 + 1))) (fun r _ => r = stark 9) (NewEmpty 251).
Proof.
  split; [by apply stark_neq; vm_compute|].
  apply (trie_keys_truncated toy_hash None 251 (NewEmpty 251) None).
  - apply (NewEmpty_rep toy_hash None 251). lia.
  - reflexivity.
Defined.

(** A trie of height 2 whose right subtree is not in the database. *)
Definition torn_trie : Trie (F:=StarkField) :=
  mkTrie 2 (stark 1)
    (NBinary (NEdge (NValue (stark 7)) (path_of [false]) (mkFlag None false)) (NHash (stark 9))
       (mkFlag None false)) false newTracer 0 0.

Lemma failed_op_keeps_trie_witness :
  let s' := (do_op toy_hash None (OpDelete (stark 0)) torn_trie).2 in
  root s' = root torn_trie /\ pendingUpdates s' = 0.
Proof.
  destruct (failed_op_keeps_trie toy_hash None (OpDelete (stark 0)) torn_trie
    (ErrReader (MissingNodeError (stark 1) (path_of [true]) (stark 9)))
    (do_op toy_hash None (OpDelete (stark 0)) torn_trie).2) as (_ & _ & Hr & _ & _ & Hp & _).
  - reflexivity.
  - split; [exact Hr|exact Hp].
Defined.

(** a deletion that fails because the sibling of the deleted node cannot
    be read leaves the trie with its old contents but with the paths of nodes
    that are still part of it recorded as deleted. *)
Theorem failed_delete_marks_live_nodes :
  match Delete None (stark 0) torn_trie with
  | (Err (ErrReader (MissingNodeError _ _ _)), s') =>
      bool_decide (path_of [false] ∈ deletedNodes (tracer s')) &&
      bool_decide (path_of [false; false] ∈ deletedNodes (tracer s')) &&
      match root s' with
      | NBinary (NEdge (NValue v) _ _) _ _ => bool_decide (v = stark 7)
      | _ => false
      end
  | _ => false
  end = true.
Proof. vm_compute. reflexivity. Qed.

Lemma DecodeNode_EncodeNode_witness :
  exists blob, EncodeNode (NEdge (NValue (stark 7)) (path_of [true; false]) NewNodeFlag) = Ok blob /\
    DecodeNode blob (Some (stark 3)) 1 3 =
      Ok (NEdge (NValue (stark 7)) (path_of [true; false]) (decodedFlag (Some (stark 3)))).
Proof.
  apply (DecodeNode_EncodeNode 3 1 (NEdge (NValue (stark 7)) (path_of [true; false]) NewNodeFlag) (Some (stark 3))).
  - lia.
  - lia.
  - split_and!; [apply path_of_spec; simpl; lia|done|done|done].
Defined.

Definition toy_set (l : list (BitArray * TrieNode StarkField)) : NodeSet (F:=StarkField) :=
  foldl (fun ns '(p, n) => Add ns p n) (NewNodeSet (stark 1)) l.

Lemma Merge_exact_witness :
  let ns := toy_set [(path_of [true], NewDeleted false); (path_of [false], NewLeaf (stark 1) [1])] in
  let other := toy_set [(path_of [true], NewLeaf (stark 2) [2])] in
  exists ns', Merge ns (Owner other) (map_to_list (Nodes other)) = Some ns' /\
    Nodes ns' = Nodes other ∪ Nodes ns /\ Owner ns' = stark 1 /\ counts_ok ns'.
Proof.
  intros ns other. apply (Merge_exact ns other).
  - split; reflexivity.
  - reflexivity.
  - reflexivity.
Defined.

Lemma ForEach_in_order_witness :
  let ns := toy_set [(path_of [true], NewDeleted false); (path_of [], NewLeaf (stark 1) [1])] in
  exists l, l ≡ₚ map_to_list (Nodes ns) /\ StronglySorted (visit_lt false) l /\
    forall S E (callback : BitArray -> TrieNode StarkField -> SE S E unit),
      ForEach false ns callback = foldr (fun x k => callback x.1 x.2;; k) (mret tt) l.
Proof.
  intros ns. apply (ForEach_in_order false ns).
  intros p n Hp. unfold ns, toy_set in Hp. cbn [foldl Add Nodes NewNodeSet] in Hp.
  apply lookup_insert_Some in Hp as [[<- _]|[_ Hp]]; [apply path_of_spec; simpl; lia|].
  apply lookup_insert_Some in Hp as [[<- _]|[_ Hp]]; [apply path_of_spec; simpl; lia|].
  by rewrite lookup_empty in Hp.
Defined.

(** ** Databases *)

(** A hash function that never returns zero. *)
Definition one_hash (_ _ : StarkField) : StarkField := stark 1.

Lemma one_hash_nonzero : hash_nonzero one_hash.
Proof.
  intros h t Hc Hh Hl. destruct t as [v|l r|p c]; [done|..].
  - change (stark 1 ≠ stark 0). by apply stark_neq; vm_compute.
  - destruct Hc as (_ & _ & h' & -> & _). cbn [shash]. intros E. apply (f_equal felt_val) in E.
    rewrite felt_Add_val, felt_SetBytes_val, be_val_bytes, felt_Zero_val in E by apply be_bytes_range.
    change (felt_val (one_hash (shash one_hash c) (to_felt (path_of p)))) with 1 in E.
    assert (Hs : 0 <= Z.of_nat (length p) < 256) by lia.
    rewrite (Z.mod_small (Z.of_nat (length p)) (256 ^ Z.of_nat 32)) in E by lia.
    unfold stark_prime in E. rewrite !Z.mod_small in E by (rewrite ?Z.mod_small by lia; lia). lia.
Qed.

Definition toy_id : TrieID StarkField := ContractStorageTrieID (stark 1) (stark 5).

Lemma commit_and_reopen_witness :
  exists (d' : memory.Database) h s2,
    New (Some (NodeReader d' toy_id)) (stark 5) (stark 2) 3 = Ok s2 /\
    wp (Trie_Hash one_hash) (fun h2 _ => h2 = h) s2 /\
    wp (Get (Some (NodeReader d' toy_id)) (stark 4)) (fun v _ => v = stark 3) s2.
Proof.
  destruct (commit_and_reopen one_hash map_to_list map_to_list ltac:(done) ltac:(done)
    memory.New ∅ toy_id 3 None (stark 1) (stark 2) toy_ops)
    as (s & s' & h & nodes & d' & m' & ot' & s2 & _ & _ & _ & _ & _ & _ & _ & E & Hh & Hg).
  - reflexivity.
  - lia.
  - exact I.
  - intros l lf _. apply lookup_empty.
  - split; [done|]. intros _. by apply stark_neq; vm_compute.
  - by apply stark_neq; vm_compute.
  - by apply stark_neq; vm_compute.
  - apply one_hash_nonzero.
  - exists d', h, s2. split; [exact E|]. split; [exact Hh|].
    eapply wp_mono; [exact (Hg (stark 4))|]. intros v s3 ->. reflexivity.
Defined.

Lemma DeleteStorageNodes_exact_witness :
  wp (DeleteStorageNodesByPath (stark 5))
    (fun _ (s : memory.Database) => kv_map s !! nodeKeyByPath (F:=StarkField) contractTrieStorage (stark 5) (path_of [true]) false = None /\
       kv_map s !! nodeKeyByPath (F:=StarkField) contractTrieStorage (stark 6) (path_of [true]) false = Some [1])
    (memory.set_db memory.New (list_to_map
      [(nodeKeyByPath (F:=StarkField) contractTrieStorage (stark 5) (path_of [true]) false, [2]);
       (nodeKeyByPath (F:=StarkField) contractTrieStorage (stark 6) (path_of [true]) false, [1])])).
Proof.
  eapply wp_mono.
  - apply (DeleteStorageNodes_exact (stark 5)). simpl. by eexists.
  - intros _ s [_ H].
    pose proof (H toy_id (path_of [true]) false) as H5.
    pose proof (H (ContractStorageTrieID (stark 1) (stark 6)) (path_of [true]) false) as H6. split.
    + etrans; [apply H5; [intros _; by apply stark_neq; vm_compute|apply path_of_spec; simpl; lia]|reflexivity].
    + etrans; [apply H6; [intros _; by apply stark_neq; vm_compute|apply path_of_spec; simpl; lia]|reflexivity].
Defined.

(** * Merkle proofs on concrete inputs

    A trie of height 251 with the values 7 under the key 1 and 9 under the key
    2, its proofs, and a proof that is accepted although it is not one. *)

(** The inner nodes of a tree. *)
Fixpoint inners {F} (t : stree F) : list (stree F) :=
  match t with
  | SLeaf _ => []
  | SBin l r => t :: inners l ++ inners r
  | SEdge p c => t :: inners c
  end.

Lemma snode_inners {F} (T : stree F) l t : snode T l = Some t -> is_leaf t = false -> t ∈ inners T.
Proof.
  revert l. induction T as [v|T0 IH0 T1 IH1|p c IH]; intros l Hs Hl.
  - destruct l; [|done]. simpl in Hs. by injection Hs as <-.
  - destruct l as [|b l]; [simpl in Hs; injection Hs as <-; by left|]. simpl in Hs. cbn [inners].
    right. apply elem_of_app. destruct b; [right|left]; eauto.
  - destruct l as [|b l]; [simpl in Hs; injection Hs as <-; by left|]. cbn [snode] in Hs.
    destruct (bool_decide _); [|done]. right. eauto.
Qed.

(** Distinct hashes can be checked. *)
Lemma distinct_check {F} `{!FieldElement F} hf (T : stree F) :
  NoDup (shash hf <$> inners T) -> hashes_distinct hf T.
Proof.
  intros Hn l1 l2 t1 t2 H1 H2 L1 L2 E.
  apply snode_inners in H1 as Hin1; [|done]. apply snode_inners in H2 as Hin2; [|done]. clear H1 H2.
  induction (inners T) as [|x xs IH]; [by apply elem_of_nil in Hin1|].
  cbn [fmap list_fmap] in Hn. apply NoDup_cons in Hn as [Hni Hn].
  apply elem_of_cons in Hin1 as [->|Hin1], Hin2 as [->|Hin2]; [done| | |by apply IH].
  - destruct Hni. rewrite E. by apply list_elem_of_fmap_2.
  - destruct Hni. rewrite <- E. by apply list_elem_of_fmap_2.
Qed.

Definition two_bin : stree StarkField :=
  SBin (SEdge [true] (SLeaf (stark 7))) (SEdge [false] (SLeaf (stark 9))).
Definition two_tree : stree StarkField := SEdge (replicate 249 false) two_bin.

Definition two_root : node StarkField :=
  NEdge (NBinary (NEdge (NValue (stark 7)) (path_of [true]) NewNodeFlag)
           (NEdge (NValue (stark 9)) (path_of [false]) NewNodeFlag) NewNodeFlag)
    (path_of (replicate 249 false)) NewNodeFlag.

Definition two_trie : Trie (F:=StarkField) := mkTrie 251 (stark 0) two_root false newTracer 0 0.

Lemma two_canon : canon 251 two_tree.
Proof.
  split; [done|]. split; [done|]. exists 2%nat. split; [done|]. exists 1%nat. split; [done|].
  split; (split; [done|]; split; [done|]; exists 0%nat; split; [done|]; split; [done|];
    by apply stark_neq; vm_compute).
Defined.

Lemma two_trie_rep : trie_rep toy_hash None 251 two_trie (Some two_tree).
Proof.
  split; [done|lia|done|apply two_canon|]. simpl. unfold two_root.
  apply rep_edge; [|apply new_flag_ok]. apply rep_bin; [| |apply new_flag_ok].
  - apply rep_edge; [constructor|apply new_flag_ok].
  - apply rep_edge; [constructor|apply new_flag_ok].
Qed.

Lemma two_distinct : hashes_distinct toy_hash two_tree.
Proof. apply distinct_check. apply (bool_decide_eq_true_1 (NoDup _)). vm_compute. reflexivity. Qed.

(** The keys 1 and 2 are present, 5 is not. *)
Lemma proofs_verify_witness :
  wp (ProveMulti toy_hash None two_trie [stark 2; stark 5; stark 1; stark 2])
    (fun _ P => VerifyProof toy_hash 251 (shash toy_hash two_tree) (stark 2) P = Ok (stark 9) /\
                VerifyProof toy_hash 251 (shash toy_hash two_tree) (stark 5) P = Ok (stark 0))
    NewProofNodeSet.
Proof.
  eapply wp_mono.
  - apply (proofs_verify toy_hash None two_trie two_tree [stark 2; stark 5; stark 1; stark 2] 251).
    + apply two_trie_rep.
    + apply two_distinct.
    + lia.
  - intros [] P HP. split.
    + rewrite HP by (by left). reflexivity.
    + rewrite HP by (right; by left). reflexivity.
Defined.

Definition wire_proof : ProofNodeSet (F:=StarkField) :=
  let fl := mkFlag None false in
  let e1 : stree StarkField := SEdge [true] (SLeaf (stark 7)) in
  let e2 : stree StarkField := SEdge [false] (SLeaf (stark 9)) in
  os_Put (os_Put (os_Put NewProofNodeSet
    (shash toy_hash two_tree) (NEdge (NHash (shash toy_hash two_bin)) (path_of (replicate 249 false)) fl))
    (shash toy_hash two_bin) (NBinary (NHash (shash toy_hash e1)) (NHash (shash toy_hash e2)) fl))
    (shash toy_hash e1) (NEdge (NHash (stark 7)) (path_of [true]) fl).

Lemma os_Get_items {K V} `{Countable K} (o : OrderedSet K V) k v : os_Get o k = Some v -> v ∈ items o.
Proof.
  unfold os_Get. destruct (itemPos o !! k); [|done]. simpl. apply list_elem_of_lookup_2.
Qed.

(** The nodes of the proof, evaluated. *)
Definition wire_items : list (node StarkField) := ltac:(let x := eval vm_compute in (items wire_proof) in exact x).

Lemma wire_items_eq : items wire_proof = wire_items.
Proof. exact (eq_refl wire_items <: items wire_proof = wire_items). Qed.

Lemma wire_proof_collision_free : collision_free toy_hash wire_proof two_tree.
Proof.
  intros h n l t Hn%os_Get_items Ht Hl E. apply snode_inners in Ht; [|done]. clear Hl.
  clear h l.
  assert (Hs : forall n t, n ∈ items wire_proof -> t ∈ inners two_tree -> Hash toy_hash n = Ok (shash toy_hash t) ->
    exists x, shape_of n = Some x /\ tree_shape (fun c => NHash (shash toy_hash c)) t = Some x).
  { clear. intros n t Hn Ht. rewrite wire_items_eq in Hn.
    repeat (apply elem_of_cons in Hn as [->|Hn]; [|]); [..|by apply elem_of_nil in Hn];
      (repeat (apply elem_of_cons in Ht as [->|Ht]; [|]); [..|by apply elem_of_nil in Ht]);
      intros E; (exfalso; apply (f_equal (fun o => match o with Ok x => proj1_sig x | _ => 0 end)) in E;
                 vm_compute in E; discriminate) || (eexists; split; reflexivity). }
  destruct (Hs n t Hn Ht E) as (x & -> & ->). done.
Qed.

Lemma verified_value_correct_witness :
  VerifyProof toy_hash 251 (shash toy_hash two_tree) (stark 1) wire_proof = Ok (stark 7) \/
  exists e, VerifyProof toy_hash 251 (shash toy_hash two_tree) (stark 1) wire_proof = Err e.
Proof.
  apply (verified_value_correct toy_hash two_tree (stark 1) wire_proof 251).
  - apply two_canon.
  - intros x n Hn%os_Get_items. rewrite wire_items_eq in Hn. repeat (apply elem_of_cons in Hn as [->|Hn]; [done|]). by apply elem_of_nil in Hn.
  - apply wire_proof_collision_free.
  - lia.
Defined.

(** A proof of one node, in which the child that is an inner node is given as a
    value. *)
Definition cut_proof : ProofNodeSet (F:=StarkField) :=
  os_Put NewProofNodeSet (shash toy_hash two_tree)
    (NEdge (NValue (shash toy_hash two_bin)) (path_of (replicate 249 false)) (mkFlag None false)).

(** [VerifyProof] accepts a proof that ends before all bits of the key
    are processed: with a value node in the place of an inner node it returns
    the hash of that inner node as the value of the key, although the trie has
    another value for it. *)
Theorem cut_proof_accepted :
  match VerifyProof toy_hash 251 (shash toy_hash two_tree) (stark 1) cut_proof with
  | Ok v => bool_decide (v = shash toy_hash two_bin) &&
            negb (bool_decide (v = map_of (Some two_tree) (key_bits 251 (stark 1))))
  | _ => false
  end = true.
Proof. vm_compute. reflexivity. Qed.
