(* ===== verification/PathDB.v ===== *)
(** * The path database of the tries

    [src/core/trie2/triedb/pathdb]: a database that keeps the nodes of the last
    states in memory, one layer of changed nodes for each state, on top of a disk
    layer with a buffer and a cache.

    Layers, buffers and caches are shared: several layers have the same parent,
    and a disk layer hands its buffer and its cache to its successor.  They are
    objects in a heap, named by their index, and a layer holds the names of what
    it refers to.  The cache is an implementation of [FastCache], the interface of
    the library [fastcache].  The maps of Go are iterated in any order: the orders
    are parameters.  Locks are left out. *)
From stdpp Require Import prelude gmap list.
From Stdlib Require Import ZArith Lia.
From S2P Require Import Prelude Felt BitArray TrieNode Trie MemDB TrieDB.

Local Open Scope Z_scope.

(** ** The cache

    [Get] appends the value to a nil slice: a missing key gives nil. *)
Class FastCache (C : Type) := {
  fc_New : Z -> C;
  fc_Set : bytes -> bytes -> C -> C;
  fc_Get : C -> bytes -> option bytes;
  fc_Del : bytes -> C -> C;
  fc_Reset : C -> C;
}.

(** The cache is bounded, so it may forget any entry at any time; what it
    returns is the last value that was set. *)
Class FastCacheLaws (C : Type) `{!FastCache C} : Prop := {
  fc_New_spec n k : fc_Get (fc_New n) k = None;
  fc_Set_spec k v c k' w : fc_Get (fc_Set k v c) k' = Some w ->
    if decide (k' = k) then w = v else fc_Get c k' = Some w;
  fc_Del_spec k c k' w : fc_Get (fc_Del k c) k' = Some w -> k' ≠ k /\ fc_Get c k' = Some w;
  fc_Reset_spec c k : fc_Get (fc_Reset c) k = None;
}.

(** ** [errors.go] and the errors made in place *)

Inductive pathError : Type :=
| ErrDiskLayerStale
| ErrJournalCorrupt
| ErrDB (e : dbError)
| ErrCyclicLayer
| ErrLayerNotFound
| ErrLayersMismatch (latest layers id : Z)
| ErrParentNotDisk
| ErrJournalVersion (v : Z)
| ErrJournalType (t : Z)
| ErrCbor
| ErrPath (e : decodeError).

Section definitions.
Context {F : Type} `{!FieldElement F} {C : Type} `{!FastCache C}.

Abbreviation Path := BitArray.
Abbreviation tnode := (TrieNode F).
Abbreviation nodesMap := (gmap Path tnode).
Abbreviation ownersMap := (gmap F (gmap Path tnode)).

(** The orders in which the maps are iterated. *)
Variable order : nodesMap -> list (Path * tnode).
Variable owner_order : ownersMap -> list (F * nodesMap).
Variable layer_order : gmap F nat -> list (F * nat).

Definition PathSize : Z := 33.
Definition ownerSize : Z := 32.

(** ** [cache.go] *)

Definition nodeCacheSize : Z := ownerSize + PathSize + 1.

(** [copy] into a zeroed slice cuts or pads the encoded path. *)
Definition nodeKey (owner : F) (path : Path) (isClass : bool) : bytes :=
  felt_Bytes owner ++ copy_into (Z.to_nat PathSize) (EncodedBytes path) ++ [if isClass then 1 else 0].

Definition putNode (owner : F) (path : Path) (isClass : bool) (blob : bytes) (c : C) : C :=
  fc_Set (nodeKey owner path isClass) blob c.

Definition getNode (c : C) (owner : F) (path : Path) (isClass : bool) : option bytes :=
  fc_Get c (nodeKey owner path isClass).

Definition deleteNode (owner : F) (path : Path) (isClass : bool) (c : C) : C :=
  fc_Del (nodeKey owner path isClass) c.

(** [None]: the size does not fit in an [int] and the code panics. *)
Definition newCleanCache (size : Z) : option C :=
  if 2 ^ 63 - 1 <? size then None else Some (fc_New size).

(** ** [nodeset.go] *)

Record nodeSet := mkPathSet {
  classNodes : nodesMap;
  contractNodes : nodesMap;
  contractStorageNodes : ownersMap;
  ns_size : Z;
}.

Definition blob_len (n : tnode) : Z := Z.of_nat (length (Blob n)).

(** The loops over the nodes of one trie. *)
Definition sum_sizes (size : Z) (l : list (Path * tnode)) : Z :=
  foldl (fun size x => u64 (size + u64 (blob_len x.2 + PathSize))) size l.

Definition computeSize (cn co : nodesMap) (cs : ownersMap) : Z :=
  let size := sum_sizes 0 (order cn) in
  let size := sum_sizes size (order co) in
  foldl (fun size x => sum_sizes (u64 (size + ownerSize)) (order x.2)) size (owner_order cs).

(** The maps are copied. *)
Definition newNodeSet (cn co : nodesMap) (cs : ownersMap) : nodeSet :=
  mkPathSet cn co cs (computeSize cn co cs).

Definition nodeSet_node (s : nodeSet) (owner : F) (path : Path) (isClass : bool) : option tnode :=
  if isClass then classNodes s !! path
  else if felt_IsZero owner then contractNodes s !! path
  else
    match contractStorageNodes s !! owner with
    | None => None
    | Some nodes => nodes !! path
    end.

(** One iteration over the nodes of a trie, with the change of the size. *)
Definition merge_node (extra : Z) (acc : Z * nodesMap) (x : Path * tnode) : Z * nodesMap :=
  let '(delta, current) := acc in
  (i64 (delta + match current !! x.1 with
                | None => extra + (blob_len x.2 + PathSize)
                | Some ori => blob_len x.2 - blob_len ori
                end),
   <[x.1 := x.2]> current).

(** One iteration over the storage tries. *)
Definition merge_owner (acc : Z * ownersMap) (x : F * nodesMap) : Z * ownersMap :=
  let '(delta, cs) := acc in
  match cs !! x.1 with
  | None =>
      (foldl (fun delta y => i64 (delta + (ownerSize + (blob_len y.2 + PathSize)))) delta (order x.2),
       <[x.1 := x.2]> cs)
  | Some current =>
      let '(delta, current) := foldl (merge_node ownerSize) (delta, current) (order x.2) in
      (delta, <[x.1 := current]> cs)
  end.

Definition updateSize (size delta : Z) : Z :=
  if (0 <? delta) && (maxUint64 - u64 delta <? size) then maxUint64
  else if (delta <? 0) && (size <? u64 (i64 (- delta))) then 0
  else u64 (size + u64 delta).

Definition nodeSet_merge (s other : nodeSet) : nodeSet :=
  let '(delta, cn) := foldl (merge_node 0) (0, classNodes s) (order (classNodes other)) in
  let '(delta, co) := foldl (merge_node 0) (delta, contractNodes s) (order (contractNodes other)) in
  let '(delta, cs) :=
    foldl merge_owner (delta, contractStorageNodes s) (owner_order (contractStorageNodes other)) in
  mkPathSet cn co cs (updateSize (ns_size s) delta).

(** The size that the batch of a flush is made with. *)
Definition dbSize (s : nodeSet) : Z :=
  let size := Z.of_nat (length (order (classNodes s))) in
  let size := i64 (size + Z.of_nat (length (order (contractNodes s)))) in
  let size := foldl (fun size x => i64 (size + Z.of_nat (length (order x.2)))) size
                (owner_order (contractStorageNodes s)) in
  i64 (size + i64 (ns_size s)).

Definition nodeSet_reset : nodeSet := mkPathSet ∅ ∅ ∅ 0.

(** Writing to a batch and to the cache. *)
Abbreviation WM := (SE (memory.dbBatch * C) dbError).

Definition in_batch {A} (m : SE memory.dbBatch dbError A) : WM A := fun s =>
  let '(o, b) := m s.1 in (o, (b, s.2)).

Definition in_cache (f : C -> C) : WM unit := modify (fun s => (s.1, f s.2)).

Definition writeNode (bucket : innerBucket) (owner : F) (isClass : bool) (x : Path * tnode) : WM unit :=
  if is_deleted x.2 then
    in_batch (DeleteNodeByPath bucket owner x.1 (IsLeaf x.2));;
    in_cache (deleteNode owner x.1 isClass)
  else
    in_batch (WriteNodeByPath bucket owner x.1 (IsLeaf x.2) (Blob x.2));;
    in_cache (putNode owner x.1 isClass (Blob x.2)).

Definition writeNodes (cn co : nodesMap) (cs : ownersMap) : WM unit :=
  for_each (writeNode classTrie felt_Zero true) (order cn);;
  for_each (writeNode contractTrieContract felt_Zero false) (order co);;
  for_each (fun x => for_each (writeNode contractTrieStorage x.1 false) (order x.2)) (owner_order cs).

Definition nodeSet_write (s : nodeSet) : WM unit :=
  writeNodes (classNodes s) (contractNodes s) (contractStorageNodes s).

(** ** [buffer.go] *)

Record buffer := mkPathBuffer {
  bf_layers : Z;
  bf_limit : Z;
  bf_nodes : nodeSet;
}.

Definition newBuffer (limit : Z) (nodes : option nodeSet) (layer : Z) : buffer :=
  mkPathBuffer layer (u64 limit) (default (newNodeSet ∅ ∅ ∅) nodes).

Definition buffer_node (b : buffer) (owner : F) (path : Path) (isClass : bool) : option tnode :=
  nodeSet_node (bf_nodes b) owner path isClass.

Definition buffer_commit (b : buffer) (nodes : nodeSet) : buffer :=
  mkPathBuffer (u64 (bf_layers b + 1)) (bf_limit b) (nodeSet_merge (bf_nodes b) nodes).

Definition buffer_reset (b : buffer) : buffer := mkPathBuffer 0 (bf_limit b) nodeSet_reset.

Definition isFull (b : buffer) : bool := bf_limit b <? ns_size (bf_nodes b).

(** ** Layers and the heap *)

(** [dl_parent] is the name of the parent layer. *)
Record diffLayer := mkDiff {
  dl_root : F;
  dl_id : Z;
  dl_block : Z;
  dl_nodes : nodeSet;
  dl_parent : nat;
}.

(** [dk_cleans] and [dk_dirties] are the names of the cache and the buffer. *)
Record diskLayer := mkDisk {
  dk_root : F;
  dk_id : Z;
  dk_cleans : nat;
  dk_dirties : nat;
  dk_stale : bool;
}.

Inductive layer : Type :=
| Diff (dl : diffLayer)
| Disk (dl : diskLayer).

Record Config := mkPathConfig {
  CleanCacheSize : Z;
  WriteBufferSize : Z;
}.

(** The database with its layer tree, and the heap. *)
Record pathDB := mkPathDB {
  pd_disk : memory.Database;
  pd_tree : gmap F nat;
  pd_config : Config;
  pd_layers : list layer;
  pd_buffers : list buffer;
  pd_caches : list C;
}.

Abbreviation PM := (SE pathDB pathError).

Definition set_disk (d : memory.Database) (s : pathDB) : pathDB :=
  mkPathDB d (pd_tree s) (pd_config s) (pd_layers s) (pd_buffers s) (pd_caches s).
Definition set_tree (t : gmap F nat) (s : pathDB) : pathDB :=
  mkPathDB (pd_disk s) t (pd_config s) (pd_layers s) (pd_buffers s) (pd_caches s).
Definition set_layers (l : list layer) (s : pathDB) : pathDB :=
  mkPathDB (pd_disk s) (pd_tree s) (pd_config s) l (pd_buffers s) (pd_caches s).
Definition set_buffers (l : list buffer) (s : pathDB) : pathDB :=
  mkPathDB (pd_disk s) (pd_tree s) (pd_config s) (pd_layers s) l (pd_caches s).
Definition set_caches (l : list C) (s : pathDB) : pathDB :=
  mkPathDB (pd_disk s) (pd_tree s) (pd_config s) (pd_layers s) (pd_buffers s) l.

Definition get_layer (l : nat) : PM layer := s ← get_state; deref (pd_layers s !! l).
Definition put_layer (l : nat) (x : layer) : PM unit :=
  modify (fun s => set_layers (<[l := x]> (pd_layers s)) s).
Definition new_layer (x : layer) : PM nat :=
  s ← get_state; put_state (set_layers (pd_layers s ++ [x]) s);; mret (length (pd_layers s)).

(** The receiver of a method of a diff layer or of a disk layer. *)
Definition get_diff (l : nat) : PM diffLayer :=
  x ← get_layer l; match x with Diff d => mret d | Disk _ => panic end.
Definition get_disk (l : nat) : PM diskLayer :=
  x ← get_layer l; match x with Disk d => mret d | Diff _ => panic end.

Definition get_buffer (b : nat) : PM buffer := s ← get_state; deref (pd_buffers s !! b).
Definition put_buffer (b : nat) (x : buffer) : PM unit :=
  modify (fun s => set_buffers (<[b := x]> (pd_buffers s)) s).
Definition get_cache (c : nat) : PM C := s ← get_state; deref (pd_caches s !! c).
Definition put_cache (c : nat) (x : C) : PM unit :=
  modify (fun s => set_caches (<[c := x]> (pd_caches s)) s).

Definition lift_db {A} (o : outcome dbError A) : PM A :=
  match o with
  | Ok a => mret a
  | Err e => fail (ErrDB e)
  | Panic => panic
  | NoFuel => out_of_fuel
  end.

(** An operation on the disk. *)
Definition on_kv {A} (m : SE memory.Database dbError A) : PM A :=
  s ← get_state;
  let '(o, d) := m (pd_disk s) in
  put_state (set_disk d s);; lift_db o.

Definition rootHash (x : layer) : F := match x with Diff d => dl_root d | Disk d => dk_root d end.
Definition layer_stateID (x : layer) : Z := match x with Diff d => dl_id d | Disk d => dk_id d end.
Definition parentLayer (x : layer) : option nat :=
  match x with Diff d => Some (dl_parent d) | Disk _ => None end.

(** A layer whose ancestors are followed: every layer of the heap is passed at
    most once. *)
Definition chain_fuel (s : pathDB) : nat := S (length (pd_layers s)).

(** ** Flushing the buffer *)

Definition NewBatchWithSize (d : memory.Database) (n : Z) : memory.dbBatch :=
  memory.mkDbBatch d memory.newBatch.

Definition latestPersisted (d : memory.Database) : outcome dbError Z :=
  match ReadPersistedStateID d with
  | Err ErrNotFound => Ok 0
  | o => o
  end.

Definition buffer_flush (b c : nat) (id : Z) : PM unit :=
  s ← get_state;
  buf ← get_buffer b;
  latest ← lift_db (latestPersisted (pd_disk s));
  if negb (u64 (latest + bf_layers buf) =? id) then fail (ErrLayersMismatch latest (bf_layers buf) id)
  else
    cache ← get_cache c;
    let batch := NewBatchWithSize (pd_disk s) (dbSize (bf_nodes buf)) in
    let '(o, (batch', cache')) :=
      (nodeSet_write (bf_nodes buf);;
       in_batch (WritePersistedStateID id);;
       in_batch memory.batch_Write) (batch, cache) in
    put_cache c cache';;
    modify (set_disk (memory.bdb batch'));;
    lift_db o;;
    put_buffer b (buffer_reset buf).

(** ** [disklayer.go] and [difflayer.go] *)

Definition newDiskLayer (root : F) (id : Z) (cache buf : nat) : diskLayer :=
  mkDisk root id cache buf false.

Definition isClassID (id : TrieID F) : bool := match Type_ id with TClass => true | _ => false end.

(** A node found in memory. *)
Definition found_node (n : tnode) : PM bytes :=
  if is_deleted n then fail (ErrDB ErrNotFound) else mret (Blob n).

Definition diskLayer_node (dl : diskLayer) (id : TrieID F) (owner : F) (path : Path) (isLeaf : bool)
  : PM bytes :=
  if dk_stale dl then fail ErrDiskLayerStale
  else
    buf ← get_buffer (dk_dirties dl);
    match buffer_node buf owner path (isClassID id) with
    | Some n => found_node n
    | None =>
        cache ← get_cache (dk_cleans dl);
        match getNode cache owner path (isClassID id) with
        | Some blob => mret blob
        | None =>
            s ← get_state;
            blob ← lift_db (GetNodeByPath (pd_disk s) (Bucket id) owner path isLeaf);
            put_cache (dk_cleans dl) (putNode owner path (isClassID id) blob cache);;
            mret blob
        end
    end.

Fixpoint layer_node (fuel : nat) (l : nat) (id : TrieID F) (owner : F) (path : Path) (isLeaf : bool)
  : PM bytes :=
  match fuel with
  | O => out_of_fuel
  | S f =>
      x ← get_layer l;
      match x with
      | Disk dl => diskLayer_node dl id owner path isLeaf
      | Diff dl =>
          match nodeSet_node (dl_nodes dl) owner path (isClassID id) with
          | Some n => found_node n
          | None => layer_node f (dl_parent dl) id owner path isLeaf
          end
      end
  end.

(** [update] of both kinds of layers. *)
Definition layer_update (parent : nat) (root : F) (id block : Z) (nodes : nodeSet) : diffLayer :=
  mkDiff root id block nodes parent.

(** The bottom layer is merged into the buffer of the disk layer [lk]; the new
    disk layer has the same buffer and the same cache. *)
Definition diskLayer_commit (lk : nat) (bottom : diffLayer) (force : bool) : PM nat :=
  dl ← get_disk lk;
  put_layer lk (Disk (mkDisk (dk_root dl) (dk_id dl) (dk_cleans dl) (dk_dirties dl) true));;
  (if dk_id dl =? 0 then on_kv (WriteStateID (dk_root dl) 0) else mret tt);;
  on_kv (WriteStateID (dl_root bottom) (dl_id bottom));;
  buf ← get_buffer (dk_dirties dl);
  let combined := buffer_commit buf (dl_nodes bottom) in
  put_buffer (dk_dirties dl) combined;;
  (if force || isFull combined then buffer_flush (dk_dirties dl) (dk_cleans dl) (dl_id bottom)
   else mret tt);;
  new_layer (Disk (newDiskLayer (dl_root bottom) (dl_id bottom) (dk_cleans dl) (dk_dirties dl))).

Definition set_parent (l p : nat) : PM unit :=
  dl ← get_diff l;
  put_layer l (Diff (mkDiff (dl_root dl) (dl_id dl) (dl_block dl) (dl_nodes dl) p)).

Fixpoint diffLayer_persist (fuel : nat) (l : nat) (force : bool) : PM nat :=
  match fuel with
  | O => out_of_fuel
  | S f =>
      dl ← get_diff l;
      x ← get_layer (dl_parent dl);
      match x with
      | Diff _ => result ← diffLayer_persist f (dl_parent dl) force; set_parent l result
      | Disk _ => mret tt
      end;;
      dl ← get_diff l;
      x ← get_layer (dl_parent dl);
      match x with
      | Disk _ => diskLayer_commit (dl_parent dl) dl force
      | Diff _ => fail ErrParentNotDisk
      end
  end.

Definition resetCache (lk : nat) : PM unit :=
  dl ← get_disk lk;
  if dk_stale dl then mret tt
  else cache ← get_cache (dk_cleans dl); put_cache (dk_cleans dl) (fc_Reset cache).

(** ** [layertree.go] *)

Definition layerTree_get (root : F) : PM (option nat) := gets (fun s => pd_tree s !! root).

(** [same]: [root] and [parentRoot] are the same pointer. *)
Definition layerTree_add (same : bool) (root parentRoot : F) (block : Z)
    (mergeClassNodes mergeContractNodes : option (MergeNodeSet (F:=F))) : PM unit :=
  if same then fail ErrCyclicLayer
  else
    parent ← layerTree_get parentRoot;
    match parent with
    | None => fail ErrLayerNotFound
    | Some p =>
        let cn := match mergeClassNodes with Some m => (Flatten m).1 | None => ∅ end in
        let co := match mergeContractNodes with Some m => (Flatten m).1 | None => ∅ end in
        let cs := match mergeContractNodes with Some m => (Flatten m).2 | None => ∅ end in
        x ← get_layer p;
        l ← new_layer (Diff (layer_update p root (u64 (layer_stateID x + 1)) block (newNodeSet cn co cs)));
        modify (fun s => set_tree (<[root := l]> (pd_tree s)) s)
    end.

(** The loop of [cap]: [None] when the disk layer is reached. *)
Fixpoint cap_loop (n : nat) (l : nat) : PM (option nat) :=
  match n with
  | O => mret (Some l)
  | S n' =>
      dl ← get_diff l;
      x ← get_layer (dl_parent dl);
      match x with
      | Diff _ => cap_loop n' (dl_parent dl)
      | Disk _ => mret None
      end
  end.

(** The roots of the children of every root. *)
Fixpoint children_loop (l : list (F * nat)) (children : gmap F (list F)) : PM (gmap F (list F)) :=
  match l with
  | [] => mret children
  | (root, i) :: l' =>
      x ← get_layer i;
      match x with
      | Diff dl =>
          p ← get_layer (dl_parent dl);
          children_loop l' (<[rootHash p := default [] (children !! rootHash p) ++ [root]]> children)
      | Disk _ => children_loop l' children
      end
  end.

(** [removeLinks] on the layers and the children. *)
Fixpoint removeLinks (fuel : nat) (root : F) (st : gmap F nat * gmap F (list F))
  : outcome pathError (gmap F nat * gmap F (list F)) :=
  match fuel with
  | O => NoFuel
  | S f =>
      let '(t, children) := st in
      st' ← (fix go (l : list F) st :=
               match l with
               | [] => mret st
               | c :: l' => st' ← removeLinks f c st; go l' st'
               end) (default [] (children !! root)) (base.delete root t, children);
      mret (st'.1, base.delete root st'.2)
  end.

(** The loop over the layers that removes the stale ones; an entry that is
    removed before it is reached is not visited. *)
Fixpoint stale_loop (l : list (F * nat)) (st : gmap F nat * gmap F (list F)) : PM (gmap F nat * gmap F (list F)) :=
  match l with
  | [] => mret st
  | (root, i) :: l' =>
      match st.1 !! root with
      | None => stale_loop l' st
      | Some _ =>
          x ← get_layer i;
          match x with
          | Disk dl =>
              if dk_stale dl then
                s ← get_state;
                st' ← lift (removeLinks (S (size (pd_tree s))) root st);
                stale_loop l' st'
              else stale_loop l' st
          | Diff _ => stale_loop l' st
          end
      end
  end.

Definition remove_stale : PM unit :=
  s ← get_state;
  children ← children_loop (layer_order (pd_tree s)) ∅;
  st ← stale_loop (layer_order (pd_tree s)) (pd_tree s, children);
  modify (set_tree st.1).

Definition layerTree_cap (root : F) (layers : Z) : PM unit :=
  o ← layerTree_get root;
  match o with
  | None => fail ErrLayerNotFound
  | Some l =>
      x ← get_layer l;
      match x with
      | Disk _ => mret tt
      | Diff _ =>
          if layers =? 0 then
            s ← get_state;
            base ← diffLayer_persist (chain_fuel s) l true;
            b ← get_layer base;
            modify (set_tree {[rootHash b := base]})
          else
            o ← cap_loop (Z.to_nat (layers - 1)) l;
            match o with
            | None => mret tt
            | Some diff =>
                dl ← get_diff diff;
                x ← get_layer (dl_parent dl);
                match x with
                | Disk _ => mret tt
                | Diff _ =>
                    s ← get_state;
                    base ← diffLayer_persist (chain_fuel s) (dl_parent dl) false;
                    b ← get_layer base;
                    modify (fun s => set_tree (<[rootHash b := base]> (pd_tree s)) s);;
                    set_parent diff base;;
                    remove_stale
                end
            end
      end
  end.

(** The layers from the head down to the disk. *)
Fixpoint reset_loop (fuel : nat) (head : option nat) (layers : gmap F nat) : PM (gmap F nat) :=
  match head with
  | None => mret layers
  | Some l =>
      match fuel with
      | O => out_of_fuel
      | S f => x ← get_layer l; reset_loop f (parentLayer x) (<[rootHash x := l]> layers)
      end
  end.

Definition layerTree_reset (head : option nat) : PM unit :=
  s ← get_state;
  t ← reset_loop (chain_fuel s) head ∅;
  modify (set_tree t).

Definition newLayerTree (head : option nat) : PM unit := layerTree_reset head.

Definition layerTree_len (s : pathDB) : Z := Z.of_nat (size (pd_tree s)).

Fixpoint disk_loop (fuel : nat) (l : nat) : PM nat :=
  match fuel with
  | O => out_of_fuel
  | S f =>
      x ← get_layer l;
      match parentLayer x with None => mret l | Some p => disk_loop f p end
  end.

(** [None] is a nil pointer. *)
Definition layerTree_diskLayer : PM (option nat) :=
  s ← get_state;
  match layer_order (pd_tree s) with
  | [] => mret None
  | (_, l) :: _ => k ← disk_loop (chain_fuel s) l; mret (Some k)
  end.

(** ** [database.go] and [reader.go] *)

Definition maxDiffLayers : Z := 128.
Definition contractClassTrieHeight : Z := 251.

Definition path_Close : PM unit :=
  o ← layerTree_diskLayer;
  match o with None => panic | Some lk => resetCache lk end.

Definition path_Commit (root : F) : PM unit := layerTree_cap root 0.

Definition path_Update (same : bool) (root parent : F) (blockNum : Z)
    (mergeClassNodes mergeContractNodes : option (MergeNodeSet (F:=F))) : PM unit :=
  layerTree_add same root parent blockNum mergeClassNodes mergeContractNodes;;
  layerTree_cap root maxDiffLayers.

Definition path_NewIterator (d : pathDB) (id : TrieID F) : outcome dbError memory.iterator :=
  memory.NewIterator (pd_disk d) (Bucket_Key (Bucket id) [] ++ owner_bytes (id_Owner id)) true.

(** The layer a reader of a trie starts from. *)
Definition path_NodeReader (id : TrieID F) : PM nat :=
  o ← layerTree_get (StateComm id);
  match o with None => fail ErrLayerNotFound | Some l => mret l end.

(** [Node] of the reader ignores the hash. *)
Definition reader_Node (l : nat) (id : TrieID F) (owner : F) (path : Path) (hash : F) (isLeaf : bool)
  : PM bytes :=
  s ← get_state;
  layer_node (chain_fuel s) l id owner path isLeaf.

End definitions.

Arguments nodeSet F {_}.
Arguments layer F {_}.
Arguments pathDB F {_} C.
Arguments diskLayer F : clear implicits.
Arguments diffLayer F {_}.
Arguments buffer F {_}.
