(* ===== verification/PathDBFacts.v ===== *)
(** * The path database: node sets, keys of the cache, the disk layer

    What a node set says after a merge, what a flush writes, and the invariant of
    the disk layer: reading through buffer, cache and disk gives the nodes of one
    state. *)
From stdpp Require Import prelude gmap list.
From Stdlib Require Import ZArith Lia.
From S2P Require Import Prelude Felt BitArray BitArrayFacts BitArrayCodec TrieNode Trie.
From S2P Require Import MemDB MemDBFacts TrieDB TrieDBFacts TrieCommit PathDB.

Local Open Scope Z_scope.

Section facts.
Context {F : Type} `{!FieldElement F} `{!FieldElementLaws F} {C : Type} `{!FastCache C} `{!FastCacheLaws C}.
Implicit Types (o : F) (p : BitArray) (n : TrieNode F) (id : TrieID F).

Abbreviation nodesMap := (gmap BitArray (TrieNode F)).
Abbreviation ownersMap := (gmap F nodesMap).

Variable order : nodesMap -> list (BitArray * TrieNode F).
Variable owner_order : ownersMap -> list (F * nodesMap).
Hypothesis order_perm : forall m, order m ≡ₚ map_to_list m.
Hypothesis owner_order_perm : forall m, owner_order m ≡ₚ map_to_list m.

(** ** Keys of the cache *)

(** A padded key ends in zeros, and the last byte that is not zero is the
    length of the path. *)
Lemma pad_inj (a b : bytes) x y k k' :
  x ≠ 0 -> y ≠ 0 -> (a ++ [x]) ++ replicate k 0 = (b ++ [y]) ++ replicate k' 0 -> a ++ [x] = b ++ [y].
Proof.
  intros Hx Hy. revert k'. induction k as [|k IH]; intros k'.
  - destruct k' as [|k']; [by rewrite !app_nil_r|].
    rewrite replicate_S_end, app_nil_r, (app_assoc _ _ [0]).
    by intros [_ E]%app_inj_tail.
  - destruct k' as [|k'].
    + rewrite replicate_S_end, app_nil_r, (app_assoc _ _ [0]). by intros [_ E]%app_inj_tail.
    + rewrite !replicate_S_end, !(app_assoc _ _ [0]). intros [E _]%app_inj_tail. by apply (IH k').
Qed.

Lemma activeBytes_bound p : wf p -> (Z.to_nat (activeBytes p) <= 32)%nat.
Proof.
  intros [Hl _ _]. unfold activeBytes.
  assert ((len p + (8 - 1)) / 8 < 33) by (apply Z.div_lt_upper_bound; lia). lia.
Qed.

Lemma copy_into_EncodedBytes p :
  wf p -> exists k, copy_into (Z.to_nat PathSize) (EncodedBytes p) = EncodedBytes p ++ replicate k 0.
Proof.
  intros Hp. unfold copy_into. pose proof (EncodedBytes_length p Hp). pose proof (activeBytes_bound p Hp).
  rewrite take_ge by (change (Z.to_nat PathSize) with 33%nat; lia). eauto.
Qed.

Lemma len_zero p : wf p -> len p = 0 -> EncodedBytes p = [0].
Proof.
  intros Hp E. rewrite EncodedBytes_spec by done. unfold activeBytes. rewrite E. done.
Qed.

(** The keys of the cache are unambiguous although the encoded path is padded
    to a fixed size. *)
Lemma nodeKey_injective o p c o' p' c' :
  wf p -> wf p' -> nodeKey o p c = nodeKey o' p' c' -> o = o' /\ p = p' /\ c = c'.
Proof.
  intros Hp Hp' E. unfold nodeKey in E.
  apply app_inj_1 in E as [Eo E]; [|by rewrite !felt_bytes_length].
  apply app_inj_tail in E as [E Ec]. split_and!; [by apply felt_Bytes_inj| |by destruct c, c'].
  destruct (copy_into_EncodedBytes p Hp) as [k Ek], (copy_into_EncodedBytes p' Hp') as [k' Ek'].
  rewrite Ek, Ek' in E.
  destruct (decide (len p = 0)) as [H0|H0], (decide (len p' = 0)) as [H0'|H0'].
  - apply EncodedBytes_inj; [done|done|]. by rewrite !len_zero.
  - exfalso. rewrite (len_zero p) in E by done. destruct (EncodedBytes_last p' Hp') as [l' El'].
    rewrite El' in E. change ([0] ++ replicate k 0) with (replicate (S k) 0) in E.
    apply H0'. assert (Hin : len p' ∈ replicate (S k) 0).
    { rewrite E. apply elem_of_app. left. apply elem_of_app. right. constructor. }
    by apply elem_of_replicate in Hin as [-> _].
  - exfalso. rewrite (len_zero p') in E by done. destruct (EncodedBytes_last p Hp) as [l El].
    rewrite El in E. change ([0] ++ replicate k' 0) with (replicate (S k') 0) in E.
    apply H0. assert (Hin : len p ∈ replicate (S k') 0).
    { rewrite <- E. apply elem_of_app. left. apply elem_of_app. right. constructor. }
    by apply elem_of_replicate in Hin as [-> _].
  - apply EncodedBytes_inj; [done|done|].
    destruct (EncodedBytes_last p Hp) as [l El], (EncodedBytes_last p' Hp') as [l' El'].
    rewrite El, El' in *. by eapply pad_inj.
Qed.

(** ** Merging node sets *)

Lemma foldl_merge_node extra (l : list (BitArray * TrieNode F)) delta (m : nodesMap) :
  NoDup l.*1 -> (foldl (merge_node extra) (delta, m) l).2 = list_to_map l ∪ m.
Proof.
  revert delta m. induction l as [|[p n] l IH]; intros delta m Hd; cbn [foldl].
  { cbn [list_to_map foldr snd]. by rewrite (left_id_L ∅ (∪)). }
  apply NoDup_cons in Hd as [Hni Hd]. simpl. rewrite IH by done.
  rewrite <- insert_union_l, insert_union_r; [done|]. by apply not_elem_of_list_to_map_1.
Qed.

Lemma merge_nodes_union extra delta (m other : nodesMap) :
  (foldl (merge_node extra) (delta, m) (order other)).2 = other ∪ m.
Proof.
  assert (Hd : NoDup (order other).*1) by (rewrite order_perm; apply NoDup_fst_map_to_list).
  rewrite foldl_merge_node by done. f_equal.
  rewrite (list_to_map_proper (order other) (map_to_list other)) by done. apply list_to_map_to_list.
Qed.

Lemma foldl_merge_owner (l : list (F * nodesMap)) delta (cs : ownersMap) o :
  NoDup l.*1 ->
  (foldl (merge_owner order) (delta, cs) l).2 !! o =
    match (list_to_map l : ownersMap) !! o with
    | Some nodes => Some (nodes ∪ default ∅ (cs !! o))
    | None => cs !! o
    end.
Proof.
  revert delta cs. induction l as [|[o0 ns] l IH]; intros delta cs Hd; cbn [foldl].
  { simpl. by rewrite lookup_empty. }
  apply NoDup_cons in Hd as [Hni Hd]. cbn [list_to_map foldr uncurry fst snd].
  assert (Hstep : (merge_owner order (delta, cs) (o0, ns)).2 = <[o0 := ns ∪ default ∅ (cs !! o0)]> cs).
  { unfold merge_owner. cbn [fst snd]. destruct (cs !! o0) as [cur|].
    - pose proof (merge_nodes_union ownerSize delta cur ns) as E.
      destruct (foldl (merge_node ownerSize) (delta, cur) (order ns)) as [d' cur']. simpl in *. by rewrite E.
    - simpl. by rewrite (right_id_L ∅ (∪)). }
  destruct (merge_owner order (delta, cs) (o0, ns)) as [d' cs']. simpl in Hstep. subst cs'.
  rewrite IH by done. destruct (decide (o0 = o)) as [<-|Hne].
  - rewrite not_elem_of_list_to_map_1 by done. by rewrite !lookup_insert_eq.
  - by rewrite !lookup_insert_ne by done.
Qed.

(** The maps of a merged set. *)
Lemma nodeSet_merge_maps (s other : nodeSet F) :
  let s' := nodeSet_merge order owner_order s other in
  classNodes s' = classNodes other ∪ classNodes s /\
  contractNodes s' = contractNodes other ∪ contractNodes s /\
  forall o, contractStorageNodes s' !! o =
    match contractStorageNodes other !! o with
    | Some nodes => Some (nodes ∪ default ∅ (contractStorageNodes s !! o))
    | None => contractStorageNodes s !! o
    end.
Proof.
  unfold nodeSet_merge.
  pose proof (merge_nodes_union 0 0 (classNodes s) (classNodes other)) as E1.
  destruct (foldl (merge_node 0) (0, classNodes s) (order (classNodes other))) as [d1 cn]. simpl in E1.
  pose proof (merge_nodes_union 0 d1 (contractNodes s) (contractNodes other)) as E2.
  destruct (foldl (merge_node 0) (d1, contractNodes s) (order (contractNodes other))) as [d2 co]. simpl in E2.
  set (ot := contractStorageNodes other).
  assert (Hd : NoDup (owner_order ot).*1) by (rewrite owner_order_perm; apply NoDup_fst_map_to_list).
  pose proof (fun o => foldl_merge_owner (owner_order ot) d2 (contractStorageNodes s) o Hd) as E3.
  rewrite (list_to_map_proper (owner_order ot) (map_to_list ot)), list_to_map_to_list in E3 by done.
  destruct (foldl (merge_owner order) (d2, contractStorageNodes s) (owner_order ot)) as [d3 cs].
  by split_and!.
Qed.

(** A merged set says what the newer set says, and what the older one says
    about the nodes the newer one has nothing about. *)
Lemma nodeSet_merge_node (s other : nodeSet F) o p c :
  nodeSet_node (nodeSet_merge order owner_order s other) o p c =
    match nodeSet_node other o p c with
    | Some n => Some n
    | None => nodeSet_node s o p c
    end.
Proof.
  destruct (nodeSet_merge_maps s other) as (E1 & E2 & E3). unfold nodeSet_node. rewrite E1, E2, E3.
  destruct c; [rewrite lookup_union; by destruct (classNodes other !! p), (classNodes s !! p)|].
  destruct (felt_IsZero o).
  - rewrite lookup_union. by destruct (contractNodes other !! p), (contractNodes s !! p).
  - destruct (contractStorageNodes other !! o) as [nodes|]; [|done]. rewrite lookup_union.
    destruct (contractStorageNodes s !! o) as [cur|]; simpl.
    + by destruct (nodes !! p), (cur !! p).
    + rewrite lookup_empty. by destruct (nodes !! p).
Qed.

(** ** What a state holds *)

(** The nodes of all tries at one state. *)
Definition nview : Type := TrieID F -> BitArray -> option bytes.

Definition key_ok id p : Prop := state_trie id /\ wf p.

Definition view_eq (V W : nview) : Prop := forall id p, key_ok id p -> V id p = W id p.

#[global] Instance view_eq_equiv : Equivalence view_eq.
Proof.
  split; [by intros V id p|intros V W E id p H; by rewrite E|].
  intros V W X E1 E2 id p H. by rewrite E1, E2.
Qed.

Definition node_value n : option bytes := if is_deleted n then None else Some (Blob n).

(** What a node set says about a node of a trie. *)
Definition ns_at (ns : nodeSet F) id p : option (TrieNode F) :=
  nodeSet_node ns (id_Owner id) p (isClassID id).

(** A state with changed nodes. *)
Definition over (N : TrieID F -> BitArray -> option (TrieNode F)) (V : nview) : nview := fun id p =>
  match N id p with Some n => node_value n | None => V id p end.

Lemma over_proper N V W : view_eq V W -> view_eq (over N V) (over N W).
Proof. intros E id p H. unfold over. destruct (N id p); [done|by apply E]. Qed.

Lemma over_merge (ns other : nodeSet F) V :
  view_eq (over (ns_at (nodeSet_merge order owner_order ns other)) V) (over (ns_at other) (over (ns_at ns) V)).
Proof.
  intros id p _. unfold over, ns_at. rewrite nodeSet_merge_node.
  by destruct (nodeSet_node other (id_Owner id) p (isClassID id)).
Qed.

(** Whether the node at a path is a leaf. *)
Variable leaf_at : BitArray -> bool.

(** The nodes of the disk. *)
Definition disk_view (m : gmap bytes bytes) : nview := fun id p =>
  m !! nodeKeyByPath (Bucket id) (id_Owner id) p (leaf_at p).

Definition node_ok p n : Prop :=
  wf p /\ IsLeaf n = leaf_at p /\ (is_deleted n = false -> Blob n ≠ []).

Abbreviation nodes_ok := (map_Forall node_ok).

Definition maps_ok (cn co : nodesMap) (cs : ownersMap) : Prop :=
  nodes_ok cn /\ nodes_ok co /\ map_Forall (fun _ m => nodes_ok m) cs /\ cs !! felt_Zero = None.

Definition ns_ok (ns : nodeSet F) : Prop :=
  maps_ok (classNodes ns) (contractNodes ns) (contractStorageNodes ns).

Lemma nodes_ok_union (m1 m2 : nodesMap) : nodes_ok m1 -> nodes_ok m2 -> nodes_ok (m1 ∪ m2).
Proof. intros H1 H2 p n [H|[_ H]]%lookup_union_Some_raw; auto. Qed.

Lemma ns_ok_merge (s other : nodeSet F) :
  ns_ok s -> ns_ok other -> ns_ok (nodeSet_merge order owner_order s other).
Proof.
  intros (A1 & A2 & A3 & A4) (B1 & B2 & B3 & B4).
  destruct (nodeSet_merge_maps s other) as (E1 & E2 & E3). unfold ns_ok, maps_ok. rewrite E1, E2.
  split_and!; [by apply nodes_ok_union|by apply nodes_ok_union| |by rewrite E3, A4, B4].
  intros o m Hm. rewrite E3 in Hm. destruct (contractStorageNodes other !! o) as [nodes|] eqn:Eo.
  - injection Hm as <-. apply nodes_ok_union; [by apply (B3 o)|].
    destruct (contractStorageNodes s !! o) as [cur|] eqn:Es; [by apply (A3 o)|apply map_Forall_empty].
  - by apply (A3 o).
Qed.

(** ** Writing nodes *)

(** What the cache holds is on the disk. *)
Definition cache_ok (m : gmap bytes bytes) (c : C) : Prop :=
  forall id p v, key_ok id p -> getNode c (id_Owner id) p (isClassID id) = Some v -> disk_view m id p = Some v.

(** The contents [m'] are [m] with the nodes of [N] written. *)
Definition written (N : TrieID F -> BitArray -> option (TrieNode F)) (m m' : gmap bytes bytes) : Prop :=
  view_eq (disk_view m') (over N (disk_view m)) /\
  forall k, (forall id p lf, key_ok id p -> k ≠ nodeKeyByPath (Bucket id) (id_Owner id) p lf) -> m' !! k = m !! k.

Lemma written_trans N1 N2 N m1 m2 m3 :
  written N1 m1 m2 -> written N2 m2 m3 ->
  (forall id p, key_ok id p -> N id p = match N2 id p with Some n => Some n | None => N1 id p end) ->
  written N m1 m3.
Proof.
  intros [H1 H1'] [H2 H2'] HN. split; [|intros k Hk; by rewrite H2', H1'].
  intros id p H. rewrite H2 by done. unfold over. rewrite HN by done.
  destruct (N2 id p); [done|]. by rewrite H1.
Qed.

Lemma written_refl N m : (forall id p, key_ok id p -> N id p = None) -> written N m m.
Proof. intros HN. split; [|done]. intros id p H. unfold over. by rewrite HN. Qed.

(** Two names of the same trie. *)
Definition same_trie id id' : Prop := Bucket id = Bucket id' /\ id_Owner id = id_Owner id'.

#[global] Instance same_trie_dec id id' : Decision (same_trie id id').
Proof. apply and_dec; apply _. Defined.

Lemma same_trie_class id id' : state_trie id -> state_trie id' ->
  isClassID id = isClassID id' -> id_Owner id = id_Owner id' -> same_trie id id'.
Proof.
  intros [H1 H2] [H1' H2'] Ec Eo. unfold same_trie.
  destruct id, id'; simpl in *; try done; naive_solver.
Qed.

Lemma class_same_trie id id' : same_trie id id' -> isClassID id = isClassID id'.
Proof. intros [E _]. by destruct id, id'. Qed.

(** The nodes of one trie. *)
Definition nodes_of id (m : nodesMap) : TrieID F -> BitArray -> option (TrieNode F) := fun id' p =>
  if decide (same_trie id' id) then m !! p else None.

Lemma nodeKeyByPath_eq id p lf id' p' lf' :
  wf p -> wf p' -> nodeKeyByPath (Bucket id) (id_Owner id) p lf = nodeKeyByPath (Bucket id') (id_Owner id') p' lf' ->
  same_trie id id' /\ p = p' /\ lf = lf'.
Proof. intros Hp Hp' E. by apply nodeKeyByPath_injective in E as (? & ? & ? & ?). Qed.

Lemma one_written id p n m :
  state_trie id -> node_ok p n ->
  written (nodes_of id {[p := n]}) m
    (let k := nodeKeyByPath (Bucket id) (id_Owner id) p (IsLeaf n) in
     if is_deleted n then base.delete k m else <[k := Blob n]> m).
Proof.
  intros Hid (Hp & Hl & _). cbv zeta. split.
  - intros id' p' [Hid' Hp']. unfold over, nodes_of, disk_view, node_value. case_decide as Hs.
    + destruct (decide (p = p')) as [<-|Hne].
      * rewrite lookup_singleton_eq. destruct Hs as [-> ->]. rewrite Hl.
        destruct (is_deleted n); [by rewrite lookup_delete_eq|by rewrite lookup_insert_eq].
      * rewrite lookup_singleton_ne by done.
        assert (nodeKeyByPath (Bucket id) (id_Owner id) p (IsLeaf n) ≠
                nodeKeyByPath (Bucket id') (id_Owner id') p' (leaf_at p')).
        { intros E. by apply nodeKeyByPath_eq in E as (_ & -> & _). }
        destruct (is_deleted n); [by rewrite lookup_delete_ne|by rewrite lookup_insert_ne].
    + assert (nodeKeyByPath (Bucket id) (id_Owner id) p (IsLeaf n) ≠
              nodeKeyByPath (Bucket id') (id_Owner id') p' (leaf_at p')).
      { intros E. apply nodeKeyByPath_eq in E as ([E1 E2] & _); [|done|done]. by apply Hs. }
      destruct (is_deleted n); [by rewrite lookup_delete_ne|by rewrite lookup_insert_ne].
  - intros k Hk. specialize (Hk id p (IsLeaf n) (conj Hid Hp)).
    destruct (is_deleted n); [by rewrite lookup_delete_ne|by rewrite lookup_insert_ne].
Qed.

(** The cache follows the disk. *)
Lemma one_cached id p n m (c : C) :
  state_trie id -> node_ok p n -> cache_ok m c ->
  cache_ok (let k := nodeKeyByPath (Bucket id) (id_Owner id) p (IsLeaf n) in
            if is_deleted n then base.delete k m else <[k := Blob n]> m)
    (if is_deleted n then deleteNode (id_Owner id) p (isClassID id) c
     else putNode (id_Owner id) p (isClassID id) (Blob n) c).
Proof.
  intros Hid Hn Hc id' p' v [Hid' Hp'] Hget.
  pose proof Hn as (Hp & _). destruct (one_written id p n m Hid Hn) as [Hw _].
  rewrite Hw by done. unfold over, nodes_of, node_value.
  assert (Hsame : nodeKey (id_Owner id') p' (isClassID id') = nodeKey (id_Owner id) p (isClassID id) ->
                  same_trie id' id /\ p' = p).
  { intros E. apply nodeKey_injective in E as (Eo & -> & Ec); [|done|done]. split; [|done]. by apply same_trie_class. }
  assert (Hother : nodeKey (id_Owner id') p' (isClassID id') ≠ nodeKey (id_Owner id) p (isClassID id) ->
                   getNode c (id_Owner id') p' (isClassID id') = Some v ->
                   match (if decide (same_trie id' id) then ({[p := n]} : nodesMap) !! p' else None) with
                   | Some n => if is_deleted n then None else Some (Blob n)
                   | None => disk_view m id' p'
                   end = Some v).
  { intros Hne Hg. apply Hc in Hg; [|done]. case_decide as Hs; [|done].
    destruct (decide (p = p')) as [<-|Hnp]; [|by rewrite lookup_singleton_ne].
    exfalso. apply Hne. pose proof (class_same_trie _ _ Hs) as ->. by destruct Hs as [_ ->]. }
  destruct (is_deleted n) eqn:Ed.
  - apply fc_Del_spec in Hget as [Hne Hg]. by apply Hother.
  - apply fc_Set_spec in Hget. destruct (decide (_ = _)) as [Ek|Ek] in Hget; [|by apply Hother].
    destruct (Hsame Ek) as [Hs ->]. rewrite decide_True, lookup_singleton_eq by done. by rewrite Ed, Hget.
Qed.

(** A batch and a cache during a flush of the database [d]. *)
Definition flushing (d : memory.Database) (m : gmap bytes bytes) (s : memory.dbBatch * C) : Prop :=
  batch_usable s.1 /\ memory.bdb s.1 = d /\ view s.1 = m /\ cache_ok m s.2.

Lemma wp_in_batch {A} (m : SE memory.dbBatch dbError A) (Q : A -> memory.dbBatch -> Prop) (s : memory.dbBatch * C) :
  wp m Q s.1 -> wp (in_batch m) (fun a s' => Q a s'.1 /\ s'.2 = s.2) s.
Proof.
  intros (a & b & E & HQ)%wp_elim. eapply wp_intro; [unfold in_batch; by rewrite E|done].
Qed.

Lemma wp_writeNode d id p n m s :
  state_trie id -> node_ok p n -> flushing d m s ->
  wp (writeNode (Bucket id) (id_Owner id) (isClassID id) (p, n))
    (fun _ s' => exists m', flushing d m' s' /\ written (nodes_of id {[p := n]}) m m') s.
Proof.
  intros Hid Hn (Hu & Hd & Hv & Hc). pose proof (one_cached id p n m s.2 Hid Hn Hc) as Hc'.
  pose proof (one_written id p n m Hid Hn) as Hw. cbv zeta in *.
  unfold writeNode. cbn [fst snd]. destruct (is_deleted n).
  - wp_step. eapply wp_mono; [apply wp_in_batch, wp_batch_Delete; done|]. intros [] s' [(Hu' & Hd' & Hv') Hs'].
    apply wp_modify. eexists. split; [|exact Hw]. split_and!; [done|simpl; congruence|simpl; congruence|simpl; by rewrite Hs'].
  - wp_step. eapply wp_mono; [apply wp_in_batch, wp_batch_Put; done|]. intros [] s' [(Hu' & Hd' & Hv') Hs'].
    apply wp_modify. eexists. split; [|exact Hw]. split_and!; [done|simpl; congruence|simpl; congruence|simpl; by rewrite Hs'].
Qed.

Lemma wp_writeNode_list d id l m s :
  state_trie id -> NoDup l.*1 -> Forall (fun x => node_ok x.1 x.2) l -> flushing d m s ->
  wp (for_each (writeNode (Bucket id) (id_Owner id) (isClassID id)) l)
    (fun _ s' => exists m', flushing d m' s' /\ written (nodes_of id (list_to_map l)) m m') s.
Proof.
  intros Hid. revert m s. induction l as [|[p n] l IH]; intros m s Hd Hok Hf; cbn [for_each].
  { wp_step. exists m. split; [done|]. apply written_refl. intros id' p _. unfold nodes_of.
    case_decide; [apply lookup_empty|done]. }
  apply NoDup_cons in Hd as [Hni Hd]. apply Forall_cons in Hok as [Hn Hok].
  wp_step. eapply wp_mono; [by apply (wp_writeNode d id p n m)|]. intros _ s1 (m1 & Hf1 & Hw1).
  eapply wp_mono; [by apply (IH m1)|]. intros _ s2 (m2 & Hf2 & Hw2). exists m2. split; [done|].
  eapply written_trans; [exact Hw1|exact Hw2|]. intros id' p' _. unfold nodes_of. case_decide; [|done].
  cbn [list_to_map foldr uncurry fst snd]. destruct (decide (p = p')) as [<-|Hne].
  - rewrite lookup_insert_eq, lookup_singleton_eq. by rewrite not_elem_of_list_to_map_1.
  - rewrite lookup_insert_ne, lookup_singleton_ne by done. by destruct (list_to_map l !! p').
Qed.

Lemma wp_writeNode_map d id (nodes : nodesMap) m s :
  state_trie id -> nodes_ok nodes -> flushing d m s ->
  wp (for_each (writeNode (Bucket id) (id_Owner id) (isClassID id)) (order nodes))
    (fun _ s' => exists m', flushing d m' s' /\ written (nodes_of id nodes) m m') s.
Proof.
  intros Hid Hok Hf. assert (Hd : NoDup (order nodes).*1) by (rewrite order_perm; apply NoDup_fst_map_to_list).
  eapply wp_mono; [apply (wp_writeNode_list d id _ m); [done|done| |done]|].
  - rewrite order_perm. apply Forall_forall. intros [p n] Hin%elem_of_map_to_list. by apply (Hok p n).
  - by rewrite (list_to_map_proper (order nodes) (map_to_list nodes)), list_to_map_to_list.
Qed.

Lemma storage_trie o : o ≠ felt_Zero -> state_trie (ContractStorageTrieID felt_Zero o).
Proof. by split. Qed.

Lemma wp_writeNode_owners d (l : list (F * nodesMap)) m s :
  NoDup l.*1 -> Forall (fun x => nodes_ok x.2 /\ x.1 ≠ felt_Zero) l -> flushing d m s ->
  wp (for_each (fun x => for_each (writeNode contractTrieStorage x.1 false) (order x.2)) l)
    (fun _ s' => exists m', flushing d m' s' /\
       written (fun id p => if decide (Bucket id = contractTrieStorage)
                            then nodes ← (list_to_map l : ownersMap) !! id_Owner id; nodes !! p else None) m m') s.
Proof.
  revert m s. induction l as [|[o ns] l IH]; intros m s Hd Hok Hf; cbn [for_each].
  { wp_step. exists m. split; [done|]. apply written_refl. intros id p _.
    case_decide; [|done]. simpl. by rewrite lookup_empty. }
  apply NoDup_cons in Hd as [Hni Hd]. apply Forall_cons in Hok as [[Hn Ho] Hok]. cbn [fst snd] in *.
  wp_step. eapply wp_mono; [by apply (wp_writeNode_map d _ ns m s (storage_trie o Ho))|].
  intros _ s1 (m1 & Hf1 & Hw1).
  eapply wp_mono; [by apply (IH m1)|]. intros _ s2 (m2 & Hf2 & Hw2). exists m2. split; [done|].
  eapply written_trans; [exact Hw1|exact Hw2|]. intros id p _. unfold nodes_of, same_trie. cbn [Bucket id_Owner].
  case_decide as Hb; [|by rewrite decide_False by naive_solver].
  cbn [list_to_map foldr uncurry fst snd]. destruct (decide (o = id_Owner id)) as [->|Hne].
  - rewrite lookup_insert_eq, not_elem_of_list_to_map_1, decide_True by done. done.
  - rewrite lookup_insert_ne, decide_False by naive_solver. simpl.
    by destruct (_ ≫= _).
Qed.

(** Writing a node set makes the disk say what the set says. *)
Lemma wp_nodeSet_write d (ns : nodeSet F) m s :
  ns_ok ns -> flushing d m s ->
  wp (nodeSet_write order owner_order ns)
    (fun _ s' => exists m', flushing d m' s' /\ written (ns_at ns) m m') s.
Proof.
  intros (Hcn & Hco & Hcs & Hz) Hf. unfold nodeSet_write, writeNodes.
  wp_step. eapply wp_mono; [by apply (wp_writeNode_map d (ClassTrieID felt_Zero) _ m)|]. intros _ s1 (m1 & Hf1 & Hw1).
  wp_step. eapply wp_mono; [by apply (wp_writeNode_map d (ContractTrieID felt_Zero) _ m1)|].
  intros _ s2 (m2 & Hf2 & Hw2). set (cs := contractStorageNodes ns) in *.
  assert (Hd : NoDup (owner_order cs).*1) by (rewrite owner_order_perm; apply NoDup_fst_map_to_list).
  eapply wp_mono; [apply (wp_writeNode_owners d _ m2); [done| |done]|].
  - rewrite owner_order_perm. apply Forall_forall. intros [o nodes] Hin%elem_of_map_to_list. simpl.
    split; [by apply (Hcs o)|]. intros ->. congruence.
  - rewrite (list_to_map_proper (owner_order cs) (map_to_list cs)), list_to_map_to_list by done.
    intros _ s3 (m3 & Hf3 & Hw3). exists m3. split; [done|].
    eapply written_trans; [eapply written_trans; [exact Hw1|exact Hw2|reflexivity]|exact Hw3|].
    intros id p [[Hid Ho] _]. unfold ns_at, nodeSet_node, nodes_of, same_trie, felt_IsZero. fold cs.
    destruct id as [c|c|c o|c]; simpl in *; [| | |done].
    + by rewrite decide_True.
    + rewrite bool_decide_true, decide_True by done. by destruct (contractNodes ns !! p).
    + rewrite bool_decide_false by auto. destruct (cs !! o) as [nodes|]; simpl; [by destruct (nodes !! p)|done].
Qed.

(** ** The disk layer *)

Abbreviation pdb := (pathDB F C).
Implicit Types (s : pdb) (V : nview).

Definition book_key (b : innerBucket) (ks : list bytes) (k : bytes) : Prop :=
  k = Bucket_Key b ks /\ (b = stateID \/ b = trieJournal \/ b = persistedStateID).

Lemma book_not_node b ks k id p lf :
  book_key b ks k -> state_trie id -> k ≠ nodeKeyByPath (Bucket id) (id_Owner id) p lf.
Proof.
  intros [-> Hb] [Hid _] [= E _]. apply bucket_byte_inj in E. destruct id; naive_solver.
Qed.

(** A bookkeeping entry changes no node. *)
Lemma book_disk_view b ks k v m : book_key b ks k -> view_eq (disk_view (<[k := v]> m)) (disk_view m).
Proof.
  intros Hk id p [Hid _]. unfold disk_view. rewrite lookup_insert_ne; [done|]. by eapply book_not_node.
Qed.

Lemma cache_ok_eq m m' (c : C) : view_eq (disk_view m') (disk_view m) -> cache_ok m c -> cache_ok m' c.
Proof. intros E Hc id p v H Hg. rewrite E by done. by apply Hc. Qed.

(** The identifier of the state that is on the disk. *)
Definition persisted (m : gmap bytes bytes) : outcome dbError Z :=
  match m !! Bucket_Key persistedStateID [] with
  | None => Ok 0
  | Some v => BigEndian_Uint64 v
  end.

Lemma latestPersisted_spec (d : memory.Database) :
  kv_open d -> latestPersisted d = persisted (kv_map d).
Proof.
  intros Hd. unfold latestPersisted, ReadPersistedStateID, persisted.
  rewrite (kv_get_spec d _ Hd). destruct (kv_map d !! Bucket_Key persistedStateID []) as [v|]; [|done].
  unfold mbind, outcome_bind, BigEndian_Uint64. by destruct (length v <? 8)%nat.
Qed.

Lemma persisted_book ks k v m b :
  book_key b ks k -> b ≠ persistedStateID -> persisted (<[k := v]> m) = persisted m.
Proof.
  intros [-> _] Hb. unfold persisted. rewrite lookup_insert_ne; [done|].
  intros [= E _]. by apply bucket_byte_inj in E.
Qed.

Lemma persisted_written m sid : is_u64 sid -> persisted (<[Bucket_Key persistedStateID [] := be_bytes 8 sid]> m) = Ok sid.
Proof.
  intros Hid. unfold persisted. rewrite lookup_insert_eq. unfold BigEndian_Uint64.
  rewrite length_be_bytes, take_ge by (by rewrite length_be_bytes). change (8 <? 8)%nat with false. cbv iota.
  rewrite be_val_bytes, Z.mod_small by (change (256 ^ Z.of_nat 8) with (2 ^ 64); lia). done.
Qed.

(** Buffer [b], cache [c] and disk hold the state [sid] with the nodes [V]. *)
Definition store_ok s (b c : nat) (sid : Z) V : Prop :=
  exists buf cache latest,
    kv_open (pd_disk s) /\ pd_buffers s !! b = Some buf /\ pd_caches s !! c = Some cache /\
    cache_ok (kv_map (pd_disk s)) cache /\ ns_ok (bf_nodes buf) /\
    persisted (kv_map (pd_disk s)) = Ok latest /\ u64 (latest + bf_layers buf) = sid /\
    view_eq V (over (ns_at (bf_nodes buf)) (disk_view (kv_map (pd_disk s)))).

Lemma store_ok_eq s b c sid V W : view_eq V W -> store_ok s b c sid W -> store_ok s b c sid V.
Proof. intros E (buf & cache & latest & H). exists buf, cache, latest. rewrite E. exact H. Qed.

(** The parts of the database a store does not have. *)
Definition same_tree s s' : Prop :=
  pd_tree s' = pd_tree s /\ pd_layers s' = pd_layers s /\ pd_config s' = pd_config s.

Lemma wp_on_kv {A} (m : SE memory.Database dbError A) (Q : A -> memory.Database -> Prop) s :
  wp m Q (pd_disk s) -> wp (on_kv m) (fun a s' => Q a (pd_disk s') /\ s' = set_disk (pd_disk s') s) s.
Proof.
  intros (a & d & E & HQ)%wp_elim. eapply wp_intro.
  - unfold on_kv, mbind, SE_bind, get_state, put_state. cbn. rewrite E. done.
  - done.
Qed.

(** Writing the identifier of a state. *)
Lemma wp_on_kv_book s b c sid V bk ks k v :
  book_key bk ks k -> bk ≠ persistedStateID -> store_ok s b c sid V ->
  wp (on_kv (kv_put k v)) (fun _ s' => store_ok s' b c sid V /\ same_tree s s') s.
Proof.
  intros Hk Hb (buf & cache & latest & Hd & Hbuf & Hcache & Hc & Hns & Hl & Hid & HV).
  eapply wp_mono; [apply wp_on_kv, kv_put_spec, Hd|]. intros [] s' [[Hd' Hm'] Es'].
  assert (E : pd_buffers s' = pd_buffers s /\ pd_caches s' = pd_caches s /\ same_tree s s') by (by rewrite Es').
  destruct E as (E1 & E2 & E3). split; [|done]. exists buf, cache, latest. rewrite E1, E2, Hm'.
  split_and!; try done.
  - eapply cache_ok_eq; [by eapply book_disk_view|done].
  - by erewrite persisted_book.
  - rewrite HV. apply over_proper. symmetry. by eapply book_disk_view.
Qed.

Lemma wp_get_buffer s b buf (Q : buffer F -> pdb -> Prop) :
  pd_buffers s !! b = Some buf -> Q buf s -> wp (get_buffer b) Q s.
Proof. intros E HQ. unfold get_buffer. wp_step. wp_step. by eapply wp_deref. Qed.

Lemma wp_get_cache s c cache (Q : C -> pdb -> Prop) :
  pd_caches s !! c = Some cache -> Q cache s -> wp (get_cache c) Q s.
Proof. intros E HQ. unfold get_cache. wp_step. wp_step. by eapply wp_deref. Qed.

Lemma wp_get_layer s l x (Q : layer F -> pdb -> Prop) :
  pd_layers s !! l = Some x -> Q x s -> wp (get_layer l) Q s.
Proof. intros E HQ. unfold get_layer. wp_step. wp_step. by eapply wp_deref. Qed.

Lemma wp_get_diff s l x (Q : diffLayer F -> pdb -> Prop) :
  pd_layers s !! l = Some (Diff x) -> Q x s -> wp (get_diff l) Q s.
Proof. intros E HQ. unfold get_diff. wp_step. by eapply wp_get_layer. Qed.

Lemma wp_get_disk s l x (Q : diskLayer F -> pdb -> Prop) :
  pd_layers s !! l = Some (Disk x) -> Q x s -> wp (get_disk l) Q s.
Proof. intros E HQ. unfold get_disk. wp_step. by eapply wp_get_layer. Qed.

(** The writes of a flush, as one step of the disk and the cache. *)
Lemma wp_flush_batch (d : memory.Database) (ns : nodeSet F) (cache : C) sid :
  kv_open d -> ns_ok ns -> cache_ok (kv_map d) cache -> is_u64 sid ->
  wp (nodeSet_write order owner_order ns;; in_batch (WritePersistedStateID sid);; in_batch memory.batch_Write)
    (fun _ (s' : memory.dbBatch * C) => let d' := memory.bdb s'.1 in kv_open d' /\ cache_ok (kv_map d') s'.2 /\
       persisted (kv_map d') = Ok sid /\
       view_eq (disk_view (kv_map d')) (over (ns_at ns) (disk_view (kv_map d)))) (NewBatchWithSize d 0, cache).
Proof.
  intros Hd Hns Hc Hid. pose proof Hd as [m Hm].
  assert (Hmap : kv_map d = m) by (simpl; by rewrite Hm). rewrite Hmap in *.
  wp_step. eapply wp_mono; [apply (wp_nodeSet_write d ns m); [done|]|].
  { split_and!; [done|done| |done]. unfold view. simpl. by rewrite Hm. }
  intros _ s1 (m1 & (Hu & Hb & Hv & Hc1) & [Hw _]).
  wp_step. eapply wp_mono; [apply wp_in_batch, wp_batch_Put, Hu|]. intros [] s2 [(Hu2 & Hb2 & Hv2) Ec2].
  eapply wp_mono; [apply wp_in_batch, (wp_batch_Write _ m); [done|by rewrite Hb2, Hb]|].
  intros [] s3 [[Hd3 _] Ec3]. cbv zeta. rewrite Hd3, Ec3, Ec2, Hv2, Hv. cbn.
  assert (Hbk : book_key persistedStateID [] (Bucket_Key persistedStateID [])) by (split; auto).
  split_and!; [eauto| | |].
  - eapply cache_ok_eq; [by eapply book_disk_view|done].
  - by apply persisted_written.
  - etransitivity; [by eapply book_disk_view|exact Hw].
Qed.

Lemma over_reset V : view_eq (over (ns_at nodeSet_reset) V) V.
Proof.
  intros id p _. unfold over, ns_at, nodeSet_node. simpl. destruct (isClassID id); [by rewrite lookup_empty|].
  destruct (felt_IsZero (id_Owner id)); by rewrite lookup_empty.
Qed.

(** A flush moves the nodes of the buffer to the disk: it cannot fail, and
    what can be read does not change. *)
Lemma wp_buffer_flush s b c sid V :
  is_u64 sid -> store_ok s b c sid V ->
  wp (buffer_flush order owner_order b c sid) (fun _ s' => store_ok s' b c sid V /\ same_tree s s') s.
Proof.
  intros Hu (buf & cache & latest & Hd & Hbuf & Hcache & Hc & Hns & Hl & Hid & HV).
  unfold buffer_flush. wp_step. wp_step. wp_step. eapply wp_get_buffer; [done|].
  rewrite latestPersisted_spec, Hl by done. cbn [lift_db]. wp_step. wp_step. rewrite Hid, Z.eqb_refl. cbn [negb].
  wp_step. eapply wp_get_cache; [done|].
  destruct (wp_elim _ _ _ (wp_flush_batch (pd_disk s) (bf_nodes buf) cache sid Hd Hns Hc Hu))
    as ([] & [batch' cache'] & E & Hd' & Hc' & Hp' & Hv').
  change (NewBatchWithSize (pd_disk s) (dbSize order owner_order (bf_nodes buf))) with (NewBatchWithSize (pd_disk s) 0).
  rewrite E. cbn [fst snd] in *. wp_step. apply wp_modify. wp_step. apply wp_modify. cbn [lift_db]. wp_step. wp_step.
  apply wp_modify. split; [|done].
  exists (buffer_reset buf), cache', sid. cbn [pd_disk pd_buffers pd_caches set_disk set_buffers set_caches].
  rewrite !list_lookup_insert_eq by (by eapply lookup_lt_Some).
  split_and!; try done.
  - cbn [bf_layers buffer_reset]. rewrite Z.add_0_r. by apply u64_small.
  - cbn [bf_nodes buffer_reset]. rewrite over_reset, Hv'. exact HV.
Qed.

Definition stale (dk : diskLayer F) : diskLayer F :=
  mkDisk (dk_root dk) (dk_id dk) (dk_cleans dk) (dk_dirties dk) true.

Lemma store_ok_layers s b c sid V ls : store_ok s b c sid V -> store_ok (set_layers ls s) b c sid V.
Proof. done. Qed.

(** The nodes of the bottom layer go into the buffer. *)
Lemma store_ok_combine s b c sid V (dl : diffLayer F) buf :
  pd_buffers s !! b = Some buf -> store_ok s b c sid V -> ns_ok (dl_nodes dl) ->
  store_ok (set_buffers (<[b := buffer_commit order owner_order buf (dl_nodes dl)]> (pd_buffers s)) s) b c
    (u64 (sid + 1)) (over (ns_at (dl_nodes dl)) V).
Proof.
  intros Hb (buf' & cache & latest & Hd & Hbuf & Hcache & Hc & Hns & Hl & Hid & HV) Hn.
  rewrite Hbuf in Hb. injection Hb as ->.
  exists (buffer_commit order owner_order buf (dl_nodes dl)), cache, latest.
  cbn [pd_disk pd_buffers pd_caches set_buffers]. split_and!; try done.
  - apply list_lookup_insert_eq. by eapply lookup_lt_Some.
  - by apply ns_ok_merge.
  - rewrite <- Hid. cbn [bf_layers buffer_commit]. unfold u64. rewrite Zplus_mod_idemp_r, Zplus_mod_idemp_l. f_equal. lia.
  - cbn [bf_nodes buffer_commit]. rewrite over_merge. by apply over_proper.
Qed.

(** A commit puts the nodes of the bottom layer on top of the disk layer: it
    cannot fail, and the new disk layer reads as the bottom layer did. *)
Lemma wp_diskLayer_commit s lk dk (dl : diffLayer F) (force : bool) V :
  pd_layers s !! lk = Some (Disk dk) ->
  store_ok s (dk_dirties dk) (dk_cleans dk) (dk_id dk) V -> ns_ok (dl_nodes dl) ->
  dl_id dl = u64 (dk_id dk + 1) ->
  wp (diskLayer_commit order owner_order lk dl force)
    (fun l s' => l = length (pd_layers s) /\
       pd_layers s' = <[lk := Disk (stale dk)]> (pd_layers s) ++
                      [Disk (newDiskLayer (dl_root dl) (dl_id dl) (dk_cleans dk) (dk_dirties dk))] /\
       pd_tree s' = pd_tree s /\ pd_config s' = pd_config s /\
       store_ok s' (dk_dirties dk) (dk_cleans dk) (dl_id dl) (over (ns_at (dl_nodes dl)) V)) s.
Proof.
  intros Hlk Hst Hns Hid. set (b := dk_dirties dk) in *. set (c := dk_cleans dk) in *.
  unfold diskLayer_commit. wp_step. eapply wp_get_disk; [done|]. wp_step. apply wp_modify.
  set (s1 := set_layers (<[lk := Disk (stale dk)]> (pd_layers s)) s).
  assert (H1 : store_ok s1 b c (dk_id dk) V) by done.
  assert (Hbook : forall r : F, book_key TrieDB.stateID [felt_Bytes r] (StateIDKey r)) by (intros; split; auto).
  wp_step. eapply (wp_mono _ (fun _ s' => store_ok s' b c (dk_id dk) V /\ same_tree s1 s')).
  { destruct (dk_id dk =? 0); [|by wp_step]. by eapply wp_on_kv_book. }
  intros _ s2 [H2 E2]. wp_step. eapply wp_mono; [by eapply wp_on_kv_book|]. intros _ s3 [H3 E3].
  wp_step. pose proof H3 as (buf & _ & _ & _ & Hbuf & _). eapply wp_get_buffer; [done|]. wp_step. apply wp_modify.
  pose proof (store_ok_combine s3 b c (dk_id dk) V dl buf Hbuf H3 Hns) as H4. rewrite <- Hid in H4.
  set (s4 := set_buffers _ s3) in *. fold b c.
  wp_step. eapply (wp_mono _ (fun _ s' => store_ok s' b c (dl_id dl) (over (ns_at (dl_nodes dl)) V) /\ same_tree s4 s')).
  { destruct (force || isFull _); [|by wp_step]. apply wp_buffer_flush; [|done]. rewrite Hid. apply u64_range. }
  intros _ s5 [H5 E5]. unfold new_layer. wp_step. wp_step. wp_step. eapply wp_intro; [done|].
  assert (El : pd_layers s5 = <[lk := Disk (stale dk)]> (pd_layers s)).
  { destruct E5 as (_ & -> & _). cbn [s4 set_buffers pd_layers]. destruct E3 as (_ & -> & _).
    by destruct E2 as (_ & -> & _). }
  assert (Et : pd_tree s5 = pd_tree s /\ pd_config s5 = pd_config s).
  { destruct E5 as (-> & _ & ->). cbn [s4 set_buffers pd_tree pd_config]. destruct E3 as (-> & _ & ->).
    by destruct E2 as (-> & _ & ->). }
  wp_step. cbn [pd_layers pd_tree pd_config set_layers]. rewrite El. split_and!; [|done|apply Et|apply Et|done].
  by rewrite length_insert.
Qed.

(** ** Reading *)

(** The result of reading a node that a view holds or not. *)
Definition read_result (v : option bytes) : outcome pathError bytes :=
  match v with Some x => Ok x | None => Err (ErrDB ErrNotFound) end.

(** Reading may only fill the cache. *)
Definition reads_as {A} (m : SE pdb pathError A) (r : outcome pathError A) (P : pdb -> Prop) s : Prop :=
  exists s', m s = (r, s') /\ same_tree s s' /\ P s'.

Lemma found_node_reads s n (P : pdb -> Prop) : P s -> reads_as (found_node n) (read_result (node_value n)) P s.
Proof. intros HP. exists s. unfold found_node, node_value. by destruct (is_deleted n). Qed.

Lemma store_ok_cached s b c sid V cache id p v :
  store_ok s b c sid V -> pd_caches s !! c = Some cache -> key_ok id p ->
  disk_view (kv_map (pd_disk s)) id p = Some v ->
  store_ok (set_caches (<[c := putNode (id_Owner id) p (isClassID id) v cache]> (pd_caches s)) s) b c sid V.
Proof.
  intros (buf & cache' & latest & Hd & Hbuf & Hcache & Hc & Hns & Hl & Hid & HV) Hc' [Hst Hp] Hv.
  rewrite Hcache in Hc'. injection Hc' as ->.
  exists buf, (putNode (id_Owner id) p (isClassID id) v cache), latest.
  cbn [pd_disk pd_buffers pd_caches set_caches]. split_and!; try done.
  - apply list_lookup_insert_eq. by eapply lookup_lt_Some.
  - intros id' p' w [Hst' Hp'] Hg. unfold getNode, putNode in Hg. apply fc_Set_spec in Hg.
    destruct (decide (_ = _)) as [Ek|Ek] in Hg; [|by apply Hc].
    apply nodeKey_injective in Ek as (Eo & -> & Ec); [|done|done]. subst w.
    destruct (same_trie_class id' id) as [Eb _]; [done..|]. unfold disk_view in *. by rewrite Eb, Eo.
Qed.

(** A disk layer that is not stale reads the nodes of its state. *)
Lemma diskLayer_node_reads s dk sid V id p :
  dk_stale dk = false -> store_ok s (dk_dirties dk) (dk_cleans dk) sid V -> key_ok id p ->
  reads_as (diskLayer_node dk id (id_Owner id) p (leaf_at p)) (read_result (V id p))
    (fun s' => store_ok s' (dk_dirties dk) (dk_cleans dk) sid V) s.
Proof.
  intros Hs Hst Hk. pose proof Hst as (buf & cache & latest & Hd & Hbuf & Hcache & Hc & Hns & Hl & Hid & HV).
  unfold diskLayer_node. rewrite Hs, HV by done. unfold over, ns_at, reads_as, buffer_node.
  unfold get_buffer, get_cache, mbind, SE_bind, get_state, deref. rewrite Hbuf. cbn [mret SE_ret].
  destruct (nodeSet_node (bf_nodes buf) (id_Owner id) p (isClassID id)) as [n|].
  { by apply found_node_reads. }
  rewrite Hcache. cbn [mret SE_ret].
  destruct (getNode cache (id_Owner id) p (isClassID id)) as [v|] eqn:Eg.
  { exists s. by rewrite (Hc id p v) by done. }
  unfold GetNodeByPath. rewrite (kv_get_spec (pd_disk s) _ Hd). fold (disk_view (kv_map (pd_disk s)) id p).
  destruct (disk_view (kv_map (pd_disk s)) id p) as [v|] eqn:Ev; cbn [lift_db]; [|by exists s].
  eexists. split; [done|]. split; [done|]. by apply store_ok_cached.
Qed.

End facts.
