(* ===== verification/PathTree.v ===== *)
(** * The layers of the path database

    Chains of layers down to the disk layer: what a read through a chain
    returns, and what persisting a chain does. *)
From stdpp Require Import prelude gmap list.
From Stdlib Require Import ZArith Lia.
From S2P Require Import Prelude Felt BitArray BitArrayFacts TrieNode Trie.
From S2P Require Import MemDB MemDBFacts TrieDB TrieDBFacts TrieCommit PathDB PathDBFacts.

Local Open Scope Z_scope.

Section chains.
Context {F : Type} `{!FieldElement F} `{!FieldElementLaws F} {C : Type} `{!FastCache C} `{!FastCacheLaws C}.

Abbreviation nodesMap := (gmap BitArray (TrieNode F)).
Abbreviation ownersMap := (gmap F nodesMap).
Abbreviation pdb := (pathDB F C).

Variable order : nodesMap -> list (BitArray * TrieNode F).
Variable owner_order : ownersMap -> list (F * nodesMap).
Hypothesis order_perm : forall m, order m ≡ₚ map_to_list m.
Hypothesis owner_order_perm : forall m, owner_order m ≡ₚ map_to_list m.
Variable leaf_at : BitArray -> bool.

Implicit Types (s : pdb) (V : nview (F:=F)) (id : TrieID F) (p : BitArray).

(** Diff layers with their names, the newest first. *)
Abbreviation chain := (list (nat * diffLayer F)).
Implicit Types (ds : chain) (dk : diskLayer F).

(** The name of the first layer above the disk layer [lk], and its state. *)
Definition top ds (lk : nat) : nat := match ds with [] => lk | (l, _) :: _ => l end.
Definition top_id ds (id0 : Z) : Z := match ds with [] => id0 | (_, d) :: _ => dl_id d end.
Definition top_root ds dk : F := match ds with [] => dk_root dk | (_, d) :: _ => dl_root d end.

Fixpoint linked (ls : list (layer F)) ds (lk : nat) : Prop :=
  match ds with
  | [] => True
  | (l, d) :: ds' => ls !! l = Some (Diff d) /\ dl_parent d = top ds' lk /\ linked ls ds' lk
  end.

Fixpoint ids_ok ds (id0 : Z) : Prop :=
  match ds with
  | [] => True
  | (_, d) :: ds' => dl_id d = u64 (top_id ds' id0 + 1) /\ ids_ok ds' id0
  end.

(** What the first layer holds. *)
Fixpoint chain_view ds V : nview :=
  match ds with
  | [] => V
  | (_, d) :: ds' => over (ns_at (dl_nodes d)) (chain_view ds' V)
  end.

Record chain_ok s ds (lk : nat) dk V : Prop := {
  co_linked : linked (pd_layers s) ds lk;
  co_disk : pd_layers s !! lk = Some (Disk dk);
  co_live : dk_stale dk = false;
  co_store : store_ok leaf_at s (dk_dirties dk) (dk_cleans dk) (dk_id dk) V;
  co_nodup : NoDup ds.*1;
  co_ids : ids_ok ds (dk_id dk);
  co_nodes : Forall (fun x => ns_ok leaf_at (dl_nodes x.2)) ds;
}.

Lemma chain_ok_tail s x ds lk dk V : chain_ok s (x :: ds) lk dk V -> chain_ok s ds lk dk V.
Proof.
  intros [Hl Hd Hs Hst Hn Hi Hns]. destruct x as [l d]. simpl in *.
  apply NoDup_cons in Hn. apply Forall_cons in Hns. split; naive_solver.
Qed.

Lemma chain_ok_drop s ds1 ds2 lk dk V : chain_ok s (ds1 ++ ds2) lk dk V -> chain_ok s ds2 lk dk V.
Proof. induction ds1 as [|x ds1 IH]; [done|]. intros H%chain_ok_tail. auto. Qed.

Lemma linked_lt ls ds lk l d : linked ls ds lk -> (l, d) ∈ ds -> ls !! l = Some (Diff d).
Proof.
  induction ds as [|[l' d'] ds IH]; [by intros _ ?%elem_of_nil|]. intros (H1 & _ & H2) [[= -> ->]|H]%elem_of_cons; auto.
Qed.

Lemma linked_frame ls ls' ds lk :
  linked ls ds lk -> (forall l, l ∈ ds.*1 -> ls' !! l = ls !! l) -> linked ls' ds lk.
Proof.
  induction ds as [|[l d] ds IH]; [done|]. intros (H1 & H2 & H3) Hf. simpl. split_and!; [|done|].
  - rewrite Hf; [done|]. by constructor.
  - apply IH; [done|]. intros i Hi. apply Hf. by constructor.
Qed.

(** The layers of a chain are different, so following it needs no more fuel
    than there are layers. *)
Lemma chain_fuel_enough s ds lk dk V : chain_ok s ds lk dk V -> (length ds < chain_fuel s)%nat.
Proof.
  intros [Hl _ _ _ Hn _ _]. unfold chain_fuel.
  assert (Hsub : ds.*1 ⊆+ seq 0 (length (pd_layers s))).
  { apply NoDup_submseteq; [done|]. intros l Hin. apply list_elem_of_fmap in Hin as ([l' d] & -> & Hin).
    apply elem_of_seq. simpl. pose proof (linked_lt _ _ _ _ _ Hl Hin) as H%lookup_lt_Some. lia. }
  apply submseteq_length in Hsub. rewrite length_fmap, length_seq in Hsub. lia.
Qed.

(** ** Reading through a chain *)

Lemma chain_ok_same_tree s s' ds lk dk V :
  same_tree s s' -> store_ok leaf_at s' (dk_dirties dk) (dk_cleans dk) (dk_id dk) V ->
  chain_ok s ds lk dk V -> chain_ok s' ds lk dk V.
Proof. intros (_ & E & _) Hst' [Hl Hd Hs Hst Hn Hi Hns]. split; rewrite ?E; done. Qed.

Lemma layer_node_reads fuel s ds lk dk V id p :
  chain_ok s ds lk dk V -> key_ok id p -> (length ds < fuel)%nat ->
  reads_as (layer_node fuel (top ds lk) id (id_Owner id) p (leaf_at p)) (read_result (chain_view ds V id p))
    (fun s' => chain_ok s' ds lk dk V) s.
Proof.
  revert ds. induction fuel as [|fuel IH]; intros ds Hc Hk Hf; [lia|].
  unfold reads_as. cbn [layer_node]. unfold mbind, SE_bind at 1, get_layer, mbind, SE_bind at 1, get_state, deref.
  destruct ds as [|[l d] ds]; cbn [top chain_view].
  - rewrite (co_disk _ _ _ _ _ Hc). cbn [mret SE_ret].
    destruct (diskLayer_node_reads leaf_at s dk _ V id p (co_live _ _ _ _ _ Hc) (co_store _ _ _ _ _ Hc) Hk)
      as (s' & E & Hs' & Hst'). exists s'. split_and!; [done|done|]. by eapply chain_ok_same_tree.
  - pose proof (co_linked _ _ _ _ _ Hc) as (El & Ep & _). rewrite El. cbn [mret SE_ret]. unfold over, ns_at.
    destruct (nodeSet_node (dl_nodes d) (id_Owner id) p (isClassID id)) as [n|].
    + by apply found_node_reads.
    + rewrite Ep. destruct (IH ds) as (s' & E & Hs' & Hc'); [by eapply chain_ok_tail|done|simpl in Hf; lia|].
      exists s'. split_and!; [done|done|]. eapply chain_ok_same_tree; [done| |done]. apply Hc'.
Qed.

(** ** Persisting a chain *)

(** A chain has been merged into the new disk layer [base]. *)
Record persisted_as s ds lk dk V (base : nat) s' : Prop := {
  pa_disk : exists dk', chain_ok s' [] base dk' (chain_view ds V) /\
              dk_root dk' = top_root ds dk /\ dk_id dk' = top_id ds (dk_id dk) /\
              dk_dirties dk' = dk_dirties dk /\ dk_cleans dk' = dk_cleans dk;
  pa_new : (length (pd_layers s) <= base)%nat;
  pa_tree : pd_tree s' = pd_tree s;
  pa_config : pd_config s' = pd_config s;
  pa_stale : pd_layers s' !! lk = Some (Disk (stale dk));
  pa_frame : forall i, (i < length (pd_layers s))%nat -> i ≠ lk -> i ∉ ds.*1 -> pd_layers s' !! i = pd_layers s !! i;
}.

(** The last step: the layer above the disk layer. *)
Lemma wp_commit_one s l d lk dk V (force : bool) :
  pd_layers s !! lk = Some (Disk dk) -> dk_stale dk = false ->
  store_ok leaf_at s (dk_dirties dk) (dk_cleans dk) (dk_id dk) V ->
  ns_ok leaf_at (dl_nodes d) -> dl_id d = u64 (dk_id dk + 1) ->
  wp (diskLayer_commit order owner_order lk d force) (fun base s' => persisted_as s [(l, d)] lk dk V base s' /\
    (forall i, (i < length (pd_layers s))%nat -> i ≠ lk -> pd_layers s' !! i = pd_layers s !! i)) s.
Proof.
  intros Hlk Hlive Hst Hns Hid.
  eapply wp_mono; [by apply (wp_diskLayer_commit order owner_order order_perm owner_order_perm leaf_at s lk dk d force V)|].
  intros base s' (-> & El & Et & Ec & Hst'). pose proof (lookup_lt_Some _ _ _ Hlk) as Hlt.
  assert (Hf : forall i, (i < length (pd_layers s))%nat -> i ≠ lk -> pd_layers s' !! i = pd_layers s !! i).
  { intros i Hi Hne. rewrite El, lookup_app_l by (by rewrite length_insert). by rewrite list_lookup_insert_ne. }
  split; [|done]. split; [|done|done|done| |auto].
  - exists (newDiskLayer (dl_root d) (dl_id d) (dk_cleans dk) (dk_dirties dk)).
    split; [split; [done| |done|exact Hst'|constructor|done|constructor]|done].
    rewrite El, lookup_app_r by (by rewrite length_insert). by rewrite length_insert, Nat.sub_diag.
  - rewrite El, lookup_app_l by (by rewrite length_insert). by rewrite list_lookup_insert_eq.
Qed.

Lemma wp_set_parent s l d q (Q : unit -> pdb -> Prop) :
  pd_layers s !! l = Some (Diff d) ->
  Q tt (set_layers (<[l := Diff (mkDiff (dl_root d) (dl_id d) (dl_block d) (dl_nodes d) q)]> (pd_layers s)) s) ->
  wp (set_parent l q) Q s.
Proof. intros El HQ. unfold set_parent. wp_step. eapply wp_get_diff; [done|]. by apply wp_modify. Qed.

Lemma wp_diffLayer_persist fuel s ds lk dk V l d (force : bool) :
  chain_ok s ((l, d) :: ds) lk dk V -> (length ds < fuel)%nat ->
  wp (diffLayer_persist order owner_order fuel l force) (persisted_as s ((l, d) :: ds) lk dk V) s.
Proof.
  revert s ds l d. induction fuel as [|fuel IH]; intros s ds l d Hc Hf; [lia|].
  pose proof Hc as [(El & Ep & Hlk') Hlk Hlive Hst Hn [Hid Hids] Hns].
  apply NoDup_cons in Hn as [Hni Hn]. apply Forall_cons in Hns as [Hns1 Hns]. cbn [fst snd] in *.
  assert (Hne : l ≠ lk) by congruence.
  cbn [diffLayer_persist]. wp_step. eapply wp_get_diff; [done|]. wp_step. rewrite Ep.
  destruct ds as [|[l' d'] ds]; cbn [top].
  - eapply wp_get_layer; [done|]. wp_step. wp_step. wp_step. eapply wp_get_diff; [done|]. wp_step. rewrite Ep.
    eapply wp_get_layer; [done|]. cbn [top]. eapply wp_mono; [by apply (wp_commit_one s l d lk dk V force)|]. naive_solver.
  - destruct Hlk' as (El' & Ep' & Hlk'). eapply wp_get_layer; [done|]. wp_step. wp_step.
    eapply wp_mono; [apply (IH s ds l' d'); [by eapply chain_ok_tail|simpl in Hf; lia]|].
    intros base s1 [(dk1 & Hc1 & Hr1 & Hi1 & Hb1 & Hcl1) Hnew Htree Hconf Hstale Hframe].
    pose proof (lookup_lt_Some _ _ _ El) as Hlt. cbn [top_id top_root] in *.
    assert (El1 : pd_layers s1 !! l = Some (Diff d)) by (rewrite Hframe; done).
    eapply wp_set_parent; [done|]. set (d1 := mkDiff _ _ _ _ _). set (s2 := set_layers _ s1).
    assert (El2 : pd_layers s2 !! l = Some (Diff d1)).
    { cbn [s2 set_layers pd_layers]. apply list_lookup_insert_eq. by eapply lookup_lt_Some. }
    assert (Hbase : pd_layers s2 !! base = Some (Disk dk1)).
    { cbn [s2 set_layers pd_layers]. rewrite list_lookup_insert_ne by lia. apply Hc1. }
    wp_step. eapply wp_get_diff; [done|]. wp_step. cbn [d1 dl_parent]. eapply wp_get_layer; [done|].
    destruct Hc1 as [_ _ Hlive1 Hst1 _ _ _].
    eapply wp_mono; [apply (wp_commit_one s2 l d1 base dk1 (chain_view ((l', d') :: ds) V) force); try done|].
    { rewrite Hi1. exact Hid. }
    assert (Hlen : (length (pd_layers s2) = length (pd_layers s1))%nat) by (apply length_insert).
    assert (Hlt1 : (base < length (pd_layers s2))%nat) by (by eapply lookup_lt_Some).
    assert (Hlks : (lk < length (pd_layers s))%nat) by (by eapply lookup_lt_Some).
    intros base' s3 [[(dk3 & Hc3 & Hr3 & Hi3 & Hb3 & Hcl3) Hnew3 Htree3 Hconf3 Hstale3 _] Hframe3].
    split; [| | | | |].
    + exists dk3. cbn [top_root top_id d1 dl_root dl_id] in *. split_and!; try done; congruence.
    + lia.
    + by rewrite Htree3.
    + by rewrite Hconf3.
    + rewrite Hframe3 by lia. cbn [s2 set_layers pd_layers]. by rewrite list_lookup_insert_ne.
    + intros i Hi Hnlk Hnin. cbn [fmap list_fmap fst] in Hnin. apply not_elem_of_cons in Hnin as [Hnl Hnin].
      rewrite Hframe3 by lia. cbn [s2 set_layers pd_layers]. rewrite list_lookup_insert_ne by done. by apply Hframe.
Qed.

(** ** Splitting chains *)

Lemma linked_app ls ds1 ds2 lk : linked ls (ds1 ++ ds2) lk <-> linked ls ds1 (top ds2 lk) /\ linked ls ds2 lk.
Proof.
  induction ds1 as [|[l d] ds1 IH]; [simpl; tauto|]. cbn [app linked]. rewrite IH.
  replace (top (ds1 ++ ds2) lk) with (top ds1 (top ds2 lk)) by (by destruct ds1 as [|[]]). tauto.
Qed.

Lemma ids_ok_app ds1 ds2 i : ids_ok (ds1 ++ ds2) i <-> ids_ok ds1 (top_id ds2 i) /\ ids_ok ds2 i.
Proof.
  induction ds1 as [|[l d] ds1 IH]; [simpl; tauto|]. cbn [app ids_ok]. rewrite IH.
  replace (top_id (ds1 ++ ds2) i) with (top_id ds1 (top_id ds2 i)) by (by destruct ds1 as [|[]]). tauto.
Qed.

Lemma chain_view_app ds1 ds2 V : chain_view (ds1 ++ ds2) V = chain_view ds1 (chain_view ds2 V).
Proof. induction ds1 as [|[l d] ds1 IH]; [done|]. cbn [app chain_view]. by rewrite IH. Qed.

Lemma top_layer s ds lk dk V :
  chain_ok s ds lk dk V ->
  pd_layers s !! top ds lk = Some (match ds with [] => Disk dk | (_, d) :: _ => Diff d end).
Proof. intros Hc. destruct ds as [|[l d] ds]; [apply Hc|]. by destruct (co_linked _ _ _ _ _ Hc). Qed.

(** A new layer on top. *)
Lemma chain_ok_push s ds lk dk V d :
  chain_ok s ds lk dk V -> ns_ok leaf_at (dl_nodes d) -> dl_parent d = top ds lk ->
  dl_id d = u64 (top_id ds (dk_id dk) + 1) ->
  chain_ok (set_layers (pd_layers s ++ [Diff d]) s) ((length (pd_layers s), d) :: ds) lk dk V.
Proof.
  intros [H1 H2 H3 H4 H5 H6 H7] Hns Hp Hid.
  assert (Hold : forall i y, pd_layers s !! i = Some y -> (pd_layers s ++ [Diff d]) !! i = Some y).
  { intros i y Hy. rewrite lookup_app_l; [done|]. by eapply lookup_lt_Some. }
  split; cbn [pd_layers set_layers]; [|by apply Hold|done|done| |done|by constructor].
  - split_and!; [|done|].
    + rewrite lookup_app_r by done. by rewrite Nat.sub_diag.
    + eapply linked_frame; [done|]. intros i Hi. apply list_elem_of_fmap in Hi as ([i' d'] & -> & Hi).
      pose proof (linked_lt _ _ _ _ _ H1 Hi) as Hy. simpl. rewrite Hy. by apply Hold.
  - simpl. constructor; [|done]. intros Hi. apply list_elem_of_fmap in Hi as ([i' d'] & Ei & Hi).
    pose proof (linked_lt _ _ _ _ _ H1 Hi) as Hy%lookup_lt_Some. simpl in Ei. lia.
Qed.

Lemma top_stateID ds dk :
  layer_stateID (match ds with [] => Disk dk | (_, d) :: _ => Diff d end) = top_id ds (dk_id dk).
Proof. by destruct ds as [|[]]. Qed.

(** ** The layer tree *)

Variable layer_order : gmap F nat -> list (F * nat).
Hypothesis layer_order_perm : forall m, layer_order m ≡ₚ map_to_list m.

(** The loop of [cap] finds the layer at a depth. *)
Lemma wp_cap_loop n s ds lk dk V :
  chain_ok s ds lk dk V -> ds ≠ [] ->
  wp (cap_loop n (top ds lk)) (fun o s' => s' = s /\ o = fst <$> ds !! n) s.
Proof.
  revert ds. induction n as [|n IH]; intros ds Hc Hne; (destruct ds as [|[l d] ds]; [done|]); cbn [cap_loop].
  { by wp_step. }
  pose proof (co_linked _ _ _ _ _ Hc) as (El & Ep & _). apply chain_ok_tail in Hc.
  wp_step. eapply wp_get_diff; [done|]. wp_step. rewrite Ep. eapply wp_get_layer; [by eapply top_layer|].
  destruct ds as [|[l' d'] ds]; [by wp_step|]. by apply (IH ((l', d') :: ds)).
Qed.

(** No layer of the tree hangs below the root [r]. *)
Lemma wp_children_loop (r : F) l ch s :
  Forall (fun x => exists y, pd_layers s !! x.2 = Some y /\
            forall d, y = Diff d -> exists q, pd_layers s !! dl_parent d = Some q /\ rootHash q ≠ r) l ->
  wp (children_loop l ch) (fun ch' s' => s' = s /\ ch' !! r = ch !! r) s.
Proof.
  revert ch. induction l as [|[root i] l IH]; intros ch Hl; cbn [children_loop]; [by wp_step|].
  apply Forall_cons in Hl as [(y & Ey & Hy) Hl]. wp_step. eapply wp_get_layer; [done|].
  destruct y as [d|d]; [|by apply IH]. destruct (Hy d eq_refl) as (q & Eq & Hq).
  wp_step. eapply wp_get_layer; [done|]. eapply wp_mono; [by apply IH|]. intros ch' s' [-> E]. split; [done|].
  by rewrite E, lookup_insert_ne.
Qed.

(** Only the layer at the root [r] is stale, and it has no children. *)
Lemma wp_stale_loop (r : F) l t ch s :
  ch !! r = None ->
  Forall (fun x => exists y, pd_layers s !! x.2 = Some y /\
            (x.1 = r <-> exists d, y = Disk d /\ dk_stale d = true)) l ->
  (forall x, x ∈ l -> is_Some (t !! x.1)) -> NoDup l.*1 ->
  wp (stale_loop l (t, ch))
    (fun st s' => s' = s /\ st.1 = if decide (r ∈ l.*1) then base.delete r t else t) s.
Proof.
  revert t ch. induction l as [|[root i] l IH]; intros t ch Hch Hl Ht Hd; cbn [stale_loop].
  { wp_step. split; [done|]. rewrite decide_False; [done|]. apply not_elem_of_nil. }
  apply Forall_cons in Hl as [(y & Ey & Hy) Hl]. apply NoDup_cons in Hd as [Hni Hd]. cbn [fst snd] in *.
  destruct (Ht (root, i)) as [v Ev]; [constructor|]. cbn [fst] in Ev. rewrite Ev.
  wp_step. eapply wp_get_layer; [done|].
  assert (Hother : root ≠ r -> wp (stale_loop l (t, ch))
    (fun st s' => s' = s /\ st.1 = if decide (r ∈ root :: l.*1) then base.delete r t else t) s).
  { intros Hne. eapply wp_mono; [apply IH; try done; intros x Hx; apply Ht; by constructor|].
    intros st s' [-> E]. split; [done|]. rewrite E.
    assert (r ∈ root :: l.*1 <-> r ∈ l.*1) as Hiff by (rewrite elem_of_cons; naive_solver).
    by rewrite (decide_ext _ _ _ _ Hiff). }
  destruct y as [d|d]; [apply Hother; intros E; apply Hy in E as (? & ? & _); done|].
  destruct (dk_stale d) eqn:Es.
  2:{ apply Hother. intros E. apply Hy in E as (? & [= ->] & ?). congruence. }
  assert (root = r) as -> by (apply Hy; eauto).
  wp_step. wp_step. wp_step. eapply wp_lift; [cbn [removeLinks]; rewrite Hch; done|].
  eapply wp_mono; [apply IH; [by rewrite lookup_delete_eq|done| |done]|].
  - intros x Hx. cbn [fst]. rewrite lookup_delete_ne; [apply Ht; by constructor|].
    intros E. apply Hni. rewrite E. by apply list_elem_of_fmap_2.
  - intros st s' [-> E]. split; [done|]. rewrite E. rewrite decide_False by done.
    rewrite decide_True by constructor. done.
Qed.

(** The stale layer leaves the tree. *)
Lemma wp_remove_stale (r : F) s :
  is_Some (pd_tree s !! r) ->
  map_Forall (fun root i => exists y, pd_layers s !! i = Some y /\
    (root = r <-> exists d, y = Disk d /\ dk_stale d = true) /\
    forall d, y = Diff d -> exists q, pd_layers s !! dl_parent d = Some q /\ rootHash q ≠ r) (pd_tree s) ->
  wp (remove_stale layer_order) (fun _ s' => s' = set_tree (base.delete r (pd_tree s)) s) s.
Proof.
  intros [i Hr] Hall. unfold remove_stale.
  assert (Hl : forall P : F * nat -> Prop, map_Forall (fun a b => P (a, b)) (pd_tree s) ->
                Forall P (layer_order (pd_tree s))).
  { intros P HP. rewrite layer_order_perm. apply Forall_forall. intros [a b] Hin%elem_of_map_to_list. by apply (HP a b). }
  wp_step. wp_step. wp_step. eapply wp_mono; [apply (wp_children_loop r)|].
  { apply Hl. intros a b Hab. destruct (Hall a b Hab) as (y & Ey & _ & Hy). by exists y. }
  intros ch s' [-> Hch]. wp_step. eapply wp_mono; [apply (wp_stale_loop r)|].
  - rewrite Hch. apply lookup_empty.
  - apply Hl. intros a b Hab. destruct (Hall a b Hab) as (y & Ey & Hy & _). by exists y.
  - intros [a b] Hin. rewrite layer_order_perm in Hin. apply elem_of_map_to_list in Hin. simpl. eauto.
  - rewrite layer_order_perm. apply NoDup_fst_map_to_list.
  - intros st s' [-> ->]. apply wp_modify. rewrite decide_True; [done|].
    rewrite layer_order_perm. apply list_elem_of_fmap. exists (r, i). split; [done|]. by apply elem_of_map_to_list.
Qed.

End chains.
