(* ===== verification/PathSpec.v ===== *)
(** * What the path database promises

    The specification of [src/core/trie2/triedb/pathdb] for a chain without
    forks: a history of versions, the newest first.  A version is a state root
    with the nodes of all tries at that state.  An update on the newest version
    adds a version, at most [maxDiffLayers + 1] versions are kept, and a read names
    the version it wants.  Nothing of layers, buffers, caches or the disk is left.
    The second part proves the refinement.

    [Database.Update] takes any layer of the tree as the parent, and any root.  An
    update on an older version makes a fork, which is not a history:
    [PathWitness.fork_becomes_unreadable] shows that the code does not keep forks
    readable.  An update with a root that is in the tree replaces the entry of
    that root.  Both are outside of the specification. *)
From stdpp Require Import prelude gmap list.
From Stdlib Require Import ZArith Lia.
From S2P Require Import Prelude Felt BitArray BitArrayFacts TrieNode Trie MemDB MemDBFacts TrieDB TrieDBFacts.
From S2P Require Import TrieCommit PathDB PathDBFacts PathTree.

Local Open Scope Z_scope.

Section spec.
Context {F : Type} `{!FieldElement F}.

Definition history : Type := list (F * nview (F:=F)).

(** The version at a root with the older ones. *)
Fixpoint hist_from (h : history) (r : F) : history :=
  match h with
  | [] => []
  | x :: h' => if decide (x.1 = r) then h else hist_from h' r
  end.

Inductive path_op : Type :=
| OpUpdate (root parent : F) (block : Z) (classes contracts : option (MergeNodeSet (F:=F)))
| OpCommit (root : F)
| OpNode (id : TrieID F) (path : BitArray).

(** The nodes an update changes. *)
Definition changes (classes contracts : option (MergeNodeSet (F:=F))) (id : TrieID F) (p : BitArray)
  : option (TrieNode F) := set_for id classes contracts !! p.

(** The number of versions: [maxDiffLayers] layers and the disk. *)
Definition kept : nat := 129.

Definition spec_step (h : history) (op : path_op) : outcome pathError (option bytes) * history :=
  match op with
  | OpUpdate root parent _ classes contracts =>
      match hist_from h parent with
      | [] => (Err ErrLayerNotFound, h)
      | (_, V) :: _ => (Ok None, take kept ((root, over (changes classes contracts) V) :: h))
      end
  | OpCommit root =>
      match hist_from h root with
      | [] => (Err ErrLayerNotFound, h)
      | [_] => (Ok None, h)
      | x :: _ => (Ok None, [x])
      end
  | OpNode id p =>
      match hist_from h (StateComm id) with
      | [] => (Err ErrLayerNotFound, h)
      | (_, V) :: _ => (v ← read_result (V id p); Ok (Some v), h)
      end
  end.

(** The results and the final history of a sequence of operations. *)
Fixpoint spec_run (h : history) (ops : list path_op)
  : list (outcome pathError (option bytes)) * history :=
  match ops with
  | [] => ([], h)
  | op :: ops' =>
      let '(r, h1) := spec_step h op in
      let '(rs, h2) := spec_run h1 ops' in (r :: rs, h2)
  end.

(** The operations on a chain without forks.  An update extends the newest
    version, with a root that no kept version has, and its nodes have the form the
    tries give them; or it names a parent that is not in the history, and is
    refused.  Commits and reads are for any root. *)
Definition op_ok (leaf_at : BitArray -> bool) (h : history) (op : path_op) : Prop :=
  match op with
  | OpUpdate root parent _ classes contracts =>
      parent ∉ h.*1 \/
      fst <$> head h = Some parent /\ root ∉ h.*1 /\
      maps_ok leaf_at (match classes with Some m => (Flatten m).1 | None => ∅ end)
        (match contracts with Some m => (Flatten m).1 | None => ∅ end)
        (match contracts with Some m => (Flatten m).2 | None => ∅ end)
  | OpNode id p => key_ok id p
  | OpCommit _ => True
  end.

Fixpoint ops_ok (leaf_at : BitArray -> bool) (h : history) (ops : list path_op) : Prop :=
  match ops with
  | [] => True
  | op :: ops' => op_ok leaf_at h op /\ ops_ok leaf_at (spec_step h op).2 ops'
  end.

End spec.

Arguments path_op F {_}.
Arguments history F : clear implicits.

(** ** The operations of the code *)

Section run.
Context {F : Type} `{!FieldElement F} {C : Type} `{!FastCache C}.
Variable order : gmap BitArray (TrieNode F) -> list (BitArray * TrieNode F).
Variable owner_order : gmap F (gmap BitArray (TrieNode F)) -> list (F * gmap BitArray (TrieNode F)).
Variable layer_order : gmap F nat -> list (F * nat).
Variable leaf_at : BitArray -> bool.

(** The pointers of an update are different; the hash a reader is given is
    not used. *)
Definition run_op (op : path_op F) : SE (pathDB F C) pathError (option bytes) :=
  match op with
  | OpUpdate root parent block classes contracts =>
      path_Update order owner_order layer_order false root parent block classes contracts;; mret None
  | OpCommit root => path_Commit order owner_order layer_order root;; mret None
  | OpNode id p =>
      l ← path_NodeReader id;
      b ← reader_Node l id (id_Owner id) p felt_Zero (leaf_at p);
      mret (Some b)
  end.

Fixpoint run_path_ops (s : pathDB F C) (ops : list (path_op F))
  : list (outcome pathError (option bytes)) * pathDB F C :=
  match ops with
  | [] => ([], s)
  | op :: ops' =>
      let '(r, s1) := run_op op s in
      let '(rs, s2) := run_path_ops s1 ops' in (r :: rs, s2)
  end.

End run.

(** * The path database implements its specification

    The invariant that relates the layers of the database to a history, and the
    operations of the database as steps of the specification. *)

Section theorems.
Context {F : Type} `{!FieldElement F} `{!FieldElementLaws F} {C : Type} `{!FastCache C} `{!FastCacheLaws C}.

Abbreviation nodesMap := (gmap BitArray (TrieNode F)).
Abbreviation ownersMap := (gmap F nodesMap).
Abbreviation pdb := (pathDB F C).
Abbreviation chain := (list (nat * diffLayer F)).

Variable order : nodesMap -> list (BitArray * TrieNode F).
Variable owner_order : ownersMap -> list (F * nodesMap).
Variable layer_order : gmap F nat -> list (F * nat).
Hypothesis order_perm : forall m, order m ≡ₚ map_to_list m.
Hypothesis owner_order_perm : forall m, owner_order m ≡ₚ map_to_list m.
Hypothesis layer_order_perm : forall m, layer_order m ≡ₚ map_to_list m.
Variable leaf_at : BitArray -> bool.

Implicit Types (s : pdb) (V : nview (F:=F)) (ds : chain) (dk : diskLayer F) (h : history F).

(** ** Histories of chains *)

(** The versions of the diff layers of a chain on a version [V]. *)
Fixpoint hist_pre ds V : history F :=
  match ds with
  | [] => []
  | (l, d) :: ds' => (dl_root d, chain_view ((l, d) :: ds') V) :: hist_pre ds' V
  end.

Definition hist_of ds dk V : history F := hist_pre ds V ++ [(dk_root dk, V)].

Definition hist_eq h h' : Prop := Forall2 (fun x y => x.1 = y.1 /\ view_eq x.2 y.2) h h'.

(** The entries of the layer tree. *)
Definition tree_pre ds : list (F * nat) := (fun x => (dl_root x.2, x.1)) <$> ds.
Definition tree_list ds (lk : nat) dk : list (F * nat) := tree_pre ds ++ [(dk_root dk, lk)].

Record layers_ok s ds (lk : nat) dk V : Prop := {
  lo_chain : chain_ok leaf_at s ds lk dk V;
  lo_tree : pd_tree s = list_to_map (tree_list ds lk dk);
  lo_roots : NoDup (tree_list ds lk dk).*1;
  lo_depth : (length ds <= 128)%nat;
}.

(** The database holds the versions of a history. *)
Definition path_inv s h : Prop :=
  exists ds lk dk V, layers_ok s ds lk dk V /\ hist_eq h (hist_of ds dk V).

Lemma hist_pre_app ds1 ds2 V : hist_pre (ds1 ++ ds2) V = hist_pre ds1 (chain_view ds2 V) ++ hist_pre ds2 V.
Proof.
  induction ds1 as [|[l d] ds1 IH]; [done|]. cbn [app hist_pre]. rewrite IH. cbn [chain_view].
  by rewrite chain_view_app.
Qed.

Lemma hist_of_app ds1 ds2 dk V : hist_of (ds1 ++ ds2) dk V = hist_pre ds1 (chain_view ds2 V) ++ hist_of ds2 dk V.
Proof. unfold hist_of. by rewrite hist_pre_app, app_assoc. Qed.

Lemma tree_pre_app ds1 ds2 : tree_pre (ds1 ++ ds2) = tree_pre ds1 ++ tree_pre ds2.
Proof. apply fmap_app. Qed.

Lemma length_hist_pre ds V : length (hist_pre ds V) = length ds.
Proof. induction ds as [|[l d] ds IH]; [done|]. simpl. by rewrite IH. Qed.

Lemma hist_roots ds dk V lk : (hist_of ds dk V).*1 = (tree_list ds lk dk).*1.
Proof.
  unfold hist_of, tree_list, tree_pre. rewrite !fmap_app. f_equal.
  induction ds as [|[l d] ds IH]; [done|]. cbn [hist_pre]. rewrite !fmap_cons. by f_equal.
Qed.

Lemma hist_eq_roots h h' : hist_eq h h' -> h.*1 = h'.*1.
Proof. induction 1 as [|x y h h' [E _] _ IH]; [done|]. rewrite !fmap_cons. by f_equal. Qed.

Lemma hist_eq_refl h : hist_eq h h.
Proof. induction h; by constructor. Qed.

Lemma hist_eq_trans h1 h2 h3 : hist_eq h1 h2 -> hist_eq h2 h3 -> hist_eq h1 h3.
Proof.
  intros H. revert h3. induction H as [|x y h1 h2 [E1 E2] _ IH]; intros h3 H3; inversion H3 as [|? z ? ? [E3 E4] H4]; subst;
    constructor; [|by apply IH]. split; [congruence|by rewrite E2].
Qed.

Lemma hist_pre_eq ds V W : view_eq V W -> hist_eq (hist_pre ds V) (hist_pre ds W).
Proof.
  intros E. induction ds as [|[l d] ds IH]; [constructor|]. simpl. constructor; [|done]. split; [done|]. simpl.
  clear IH. apply over_proper. induction ds as [|[l' d'] ds IH]; [done|]. simpl. by apply over_proper.
Qed.

Lemma hist_from_eq h h' r : hist_eq h h' -> hist_eq (hist_from h r) (hist_from h' r).
Proof.
  induction 1 as [|x y h h' [E1 E2] H IH]; [constructor|]. simpl. rewrite E1.
  destruct (decide (y.1 = r)); [by constructor|done].
Qed.

(** Finding a root in the history and in the tree. *)
Lemma locate ds lk dk V r :
  NoDup (tree_list ds lk dk).*1 ->
  match hist_from (hist_of ds dk V) r with
  | [] => (list_to_map (tree_list ds lk dk) : gmap F nat) !! r = None
  | h => exists ds1 ds2, ds = ds1 ++ ds2 /\ h = hist_of ds2 dk V /\ top_root ds2 dk = r /\
           (list_to_map (tree_list ds lk dk) : gmap F nat) !! r = Some (top ds2 lk)
  end.
Proof.
  induction ds as [|[l d] ds IH]; intros Hd.
  - unfold hist_of, tree_list. simpl. case_decide as E.
    + exists [], []. subst r. simpl. by rewrite lookup_insert_eq.
    + rewrite lookup_insert_ne by done. apply lookup_empty.
  - cbn [hist_of hist_pre app hist_from fst]. cbn [tree_list tree_pre fmap list_fmap app fst snd] in Hd |- *.
    apply NoDup_cons in Hd as [Hni Hd]. cbn [list_to_map foldr uncurry fst snd]. case_decide as E.
    + exists [], ((l, d) :: ds). subst r. split_and!; try done. by rewrite lookup_insert_eq.
    + specialize (IH Hd). fold (hist_of ds dk V) in IH |- *.
      destruct (hist_from (hist_of ds dk V) r) as [|x h]; [by rewrite lookup_insert_ne|].
      destruct IH as (ds1 & ds2 & -> & Eh & Er & Et). exists ((l, d) :: ds1), ds2.
      split_and!; try done. by rewrite lookup_insert_ne.
Qed.

Lemma top_id_nil (ds : chain) : ds = [] \/ exists l d ds', ds = (l, d) :: ds'.
Proof. destruct ds as [|[l d] ds]; eauto. Qed.

(** ** Reading *)

Lemma wp_layerTree_get s (r : F) (Q : option nat -> pdb -> Prop) : Q (pd_tree s !! r) s -> wp (layerTree_get r) Q s.
Proof. intros HQ. unfold layerTree_get. by apply wp_gets. Qed.

Lemma layers_ok_same_tree s s' ds lk dk V :
  same_tree s s' -> chain_ok leaf_at s' ds lk dk V -> layers_ok s ds lk dk V -> layers_ok s' ds lk dk V.
Proof. intros (Et & _) Hc' [Hc Ht Hd Hl]. split; [done|by rewrite Et|done|done]. Qed.

Lemma run_node s h id p :
  path_inv s h -> key_ok id p ->
  exists s', run_op order owner_order layer_order leaf_at (OpNode id p) s = ((spec_step h (OpNode id p)).1, s') /\
    path_inv s' (spec_step h (OpNode id p)).2.
Proof.
  intros (ds & lk & dk & V & Hlo & Hh) Hk. pose proof Hlo as [Hc Ht Hd Hl].
  cbn [run_op spec_step]. unfold path_NodeReader, layerTree_get, gets, mbind, SE_bind. rewrite Ht.
  pose proof (locate ds lk dk V (StateComm id) Hd) as Hloc. apply (hist_from_eq _ _ (StateComm id)) in Hh as Hf.
  destruct (hist_from (hist_of ds dk V) (StateComm id)) as [|x h2]; inversion Hf as [|y ? h1 ? [Ey Hy] Hrest]; subst.
  - rewrite Hloc. cbn. exists s. split; [done|]. by exists ds, lk, dk, V.
  - destruct Hloc as (ds1 & ds2 & Eds & Eh & Er & Etop). rewrite Etop. cbn [mret SE_ret].
    unfold reader_Node, mbind, SE_bind, get_state.
    assert (Hc2 : chain_ok leaf_at s ds2 lk dk V) by (rewrite Eds in Hc; by eapply chain_ok_drop).
    destruct (layer_node_reads leaf_at (chain_fuel s) s ds2 lk dk V id p) as (s' & E & Hst & Hc');
      [done|done|by eapply chain_fuel_enough|].
    rewrite E. exists s'.
    assert (Ev : x.2 id p = chain_view ds2 V id p).
    { destruct (top_id_nil ds2) as [->|(l & d & ds' & ->)]; injection Eh as -> _; done. }
    destruct y as [r W]. cbn [fst snd] in *. rewrite (Hy id p Hk), Ev. split.
    + cbn [fst]. by destruct (chain_view ds2 V id p).
    + exists ds, lk, dk, V. split; [|done]. eapply layers_ok_same_tree; [done| |done].
      eapply chain_ok_same_tree; [done| |done]. apply Hc'.
Qed.

(** ** Committing *)

Lemma wp_run {A} (m : SE pdb pathError A) (Q : pdb -> Prop) s :
  wp m (fun _ s' => Q s') s -> exists s', (m;; mret (None : option bytes)) s = (Ok None, s') /\ Q s'.
Proof. intros (a & s' & E & HQ)%wp_elim. exists s'. unfold mbind, SE_bind. by rewrite E. Qed.

Lemma hist_of_cons ds dk V : exists W h, hist_of ds dk V = (top_root ds dk, W) :: h /\ W = chain_view ds V /\ (h = [] <-> ds = []).
Proof.
  destruct ds as [|[l d] ds]; [by exists V, []|]. eexists _, _. split; [done|]. split; [done|].
  split; [|done]. fold (hist_pre ds V). intros E. by apply app_eq_nil in E as [_ E].
Qed.

(** The chain has become the disk layer, and the tree has only that layer. *)
Lemma wp_commit_chain s ds2 l d lk dk V r :
  chain_ok leaf_at s ((l, d) :: ds2) lk dk V -> pd_tree s !! r = Some l ->
  wp (path_Commit order owner_order layer_order r)
    (fun _ s' => exists base dk', layers_ok s' [] base dk' (chain_view ((l, d) :: ds2) V) /\ dk_root dk' = dl_root d) s.
Proof.
  intros Hc Ht. unfold path_Commit, layerTree_cap. wp_step. apply wp_layerTree_get. rewrite Ht.
  pose proof (co_linked _ _ _ _ _ _ Hc) as (El & _ & _). wp_step. eapply wp_get_layer; [done|].
  change (0 =? 0) with true. cbv iota. wp_step. wp_step. wp_step.
  eapply wp_mono; [apply (wp_diffLayer_persist order owner_order order_perm owner_order_perm leaf_at _ s ds2 lk dk V l d true Hc)|].
  { apply chain_fuel_enough in Hc. simpl in Hc. lia. }
  intros base s' [(dk' & Hc' & Hr & _) _ _ _ _ _]. wp_step. eapply wp_get_layer; [apply Hc'|]. apply wp_modify.
  exists base, dk'. split; [|done]. split; [by destruct Hc'; split|done| |simpl; lia].
  simpl. apply NoDup_singleton.
Qed.

Lemma run_commit s h r :
  path_inv s h ->
  exists s', run_op order owner_order layer_order leaf_at (OpCommit r) s = ((spec_step h (OpCommit r)).1, s') /\
    path_inv s' (spec_step h (OpCommit r)).2.
Proof.
  intros (ds & lk & dk & V & Hlo & Hh). pose proof Hlo as [Hc Ht Hd Hl]. cbn [run_op spec_step].
  pose proof (locate ds lk dk V r Hd) as Hloc. apply (hist_from_eq _ _ r) in Hh as Hf. rewrite <- Ht in Hloc.
  assert (Hinv : path_inv s h) by (by exists ds, lk, dk, V).
  destruct (hist_from (hist_of ds dk V) r) as [|x h2]; inversion Hf as [|y ? h1 ? Hy Hrest]; subst.
  - exists s. split; [|done]. unfold path_Commit, layerTree_cap, layerTree_get, gets, mbind, SE_bind. by rewrite Hloc.
  - destruct Hloc as (ds1 & ds2 & Eds & Eh & Er & Etop).
    destruct (hist_of_cons ds2 dk V) as (W & h3 & Eh3 & EW & Hnil). rewrite Eh3 in Eh. injection Eh as -> ->.
    destruct ds2 as [|[l d] ds2].
    + assert (h3 = []) as -> by (by apply Hnil). inversion Hrest; subst. exists s. split; [|done].
      unfold path_Commit, layerTree_cap, layerTree_get, gets, mbind, SE_bind. rewrite Etop. cbn [top].
      unfold get_layer, mbind, SE_bind, get_state, deref. by rewrite (co_disk _ _ _ _ _ _ Hc).
    + destruct h3 as [|z h3]; [by destruct Hnil as [Hnil _]; specialize (Hnil eq_refl)|].
      inversion Hrest as [|z' ? h4 ? Hz Hrest']; subst. cbn [fst snd].
      apply chain_ok_drop in Hc.
      destruct (wp_run _ _ _ (wp_commit_chain s ds2 l d lk dk V _ Hc Etop)) as (s' & E & base & dk' & Hlo' & Hr').
      exists s'. split; [done|]. exists [], base, dk', (chain_view ((l, d) :: ds2) V). split; [done|].
      constructor; [|constructor]. simpl. destruct Hy as [Hy1 Hy2]. split; [by rewrite Hy1, Hr'|done].
Qed.

(** ** Updates *)

(** The node set of the new layer says what the update says. *)
Lemma newNodeSet_changes classes contracts id p :
  state_trie id ->
  ns_at (newNodeSet order owner_order
           (match classes with Some m => (Flatten m).1 | None => ∅ end)
           (match contracts with Some m => (Flatten m).1 | None => ∅ end)
           (match contracts with Some m => (Flatten m).2 | None => ∅ end)) id p =
    changes (F:=F) classes contracts id p.
Proof.
  intros [Hid Ho]. unfold ns_at, changes, nodeSet_node, felt_IsZero, newNodeSet. cbn [classNodes contractNodes contractStorageNodes].
  destruct id as [c|c|c o|c]; simpl in *; [| | |done].
  - by destruct classes.
  - rewrite bool_decide_true by done. by destruct contracts.
  - rewrite bool_decide_false by auto. destruct contracts as [m|]; simpl; [|by rewrite !lookup_empty].
    rewrite lookup_fmap. by destruct (ChildSets m !! o).
Qed.

(** The new layer on top of the chain. *)
Lemma wp_layerTree_add s ds lk dk V root block classes contracts :
  layers_ok s ds lk dk V -> root ∉ (tree_list ds lk dk).*1 ->
  maps_ok leaf_at (match classes with Some m => (Flatten m).1 | None => ∅ end)
        (match contracts with Some m => (Flatten m).1 | None => ∅ end)
        (match contracts with Some m => (Flatten m).2 | None => ∅ end) ->
  wp (layerTree_add order owner_order false root (top_root ds dk) block classes contracts)
    (fun _ s' => exists l d, chain_ok leaf_at s' ((l, d) :: ds) lk dk V /\ dl_root d = root /\
       pd_tree s' = list_to_map (tree_list ((l, d) :: ds) lk dk) /\
       forall id p, state_trie id -> ns_at (dl_nodes d) id p = changes classes contracts id p) s.
Proof.
  intros [Hc Ht Hd Hl] Hroot Hok. unfold layerTree_add. wp_step. apply wp_layerTree_get.
  assert (Etop : pd_tree s !! top_root ds dk = Some (top ds lk)).
  { rewrite Ht. destruct ds as [|[l d] ds]; apply lookup_insert_eq. }
  rewrite Etop. wp_step. eapply wp_get_layer; [by eapply top_layer|].
  rewrite top_stateID. unfold new_layer. wp_step. wp_step. wp_step. wp_step. eapply wp_intro; [done|]. wp_step.
  apply wp_modify. set (d := layer_update _ _ _ _ _). exists (length (pd_layers s)), d.
  split_and!; [|done|cbn; by rewrite Ht|intros id p; apply newNodeSet_changes].
  by destruct (chain_ok_push leaf_at s ds lk dk V d Hc).
Qed.

(** *** Flattening *)

Lemma tree_flatten (A : list (F * nat)) rb lb r0 lk base :
  NoDup (A ++ [(rb, lb); (r0, lk)]).*1 ->
  base.delete r0 (<[rb := base]> (list_to_map (A ++ [(rb, lb); (r0, lk)]) : gmap F nat)) =
    list_to_map (A ++ [(rb, base)]).
Proof.
  intros Hd. rewrite fmap_app in Hd. apply NoDup_app in Hd as (_ & Hdisj & Hd). cbn in Hd.
  apply NoDup_cons in Hd as [Hne _]. rewrite list_elem_of_singleton in Hne.
  assert (H0 : r0 ∉ A.*1) by (intros H; apply (Hdisj r0 H); cbn; do 2 constructor).
  assert (Hb : rb ∉ A.*1) by (intros H; apply (Hdisj rb H); cbn; constructor).
  rewrite !list_to_map_app. apply map_eq. intros r. cbn [list_to_map foldr uncurry fst snd].
  destruct (decide (r = r0)) as [->|Hr0].
  - rewrite lookup_delete_eq, lookup_union, not_elem_of_list_to_map_1, lookup_insert_ne, lookup_empty by done. done.
  - rewrite lookup_delete_ne by done. destruct (decide (r = rb)) as [->|Hrb].
    + rewrite lookup_insert_eq, lookup_union, not_elem_of_list_to_map_1, lookup_insert_eq by done. done.
    + rewrite lookup_insert_ne, !lookup_union, !lookup_insert_ne, lookup_empty by done. done.
Qed.

Lemma linked_parent ls ds q l d :
  linked ls ds q -> (l, d) ∈ ds -> dl_parent d = q \/ exists d', (dl_parent d, d') ∈ ds.
Proof.
  induction ds as [|[l' d'] ds IH]; [by intros _ ?%elem_of_nil|].
  intros (_ & Ep & Hl) [[= -> ->]|Hin]%elem_of_cons.
  - rewrite Ep. destruct ds as [|[l2 d2] ds]; [by left|]. right. exists d2. simpl. do 2 constructor.
  - destruct (IH Hl Hin) as [->|[d2 H2]]; [by left|]. right. exists d2. by constructor.
Qed.

(** Everything that the lemmas on flattening share: a chain whose lowest layer
    [lb] has become the disk layer [base], and whose layer [l] now has it as its
    parent. *)
Section flatten.
Variables (s s1 : pdb) (ds1 : chain) (l lb lk base : nat) (d db : diffLayer F) (dk : diskLayer F) (V : nview (F:=F)).
Hypothesis Hc : chain_ok leaf_at s (ds1 ++ [(l, d); (lb, db)]) lk dk V.
Hypothesis Hroots : NoDup (tree_list (ds1 ++ [(l, d); (lb, db)]) lk dk).*1.
Hypothesis Hpers : persisted_as leaf_at s [(lb, db)] lk dk V base s1.

Definition relinked : diffLayer F := mkDiff (dl_root d) (dl_id d) (dl_block d) (dl_nodes d) base.
Definition flat_layers : list (layer F) := <[l := Diff relinked]> (pd_layers s1).

Lemma flat_split : linked (pd_layers s) ds1 l /\ pd_layers s !! l = Some (Diff d) /\
  pd_layers s !! lb = Some (Diff db) /\ pd_layers s !! lk = Some (Disk dk) /\
  l ∉ ds1.*1 /\ lb ∉ ds1.*1 /\ l ≠ lb.
Proof.
  destruct Hc as [Hl Hlk _ _ Hn _ _]. apply linked_app in Hl as [Hl1 (El & Ep & Elb & _)].
  rewrite fmap_app in Hn. apply NoDup_app in Hn as (_ & Hdisj & Hn). cbn in Hn.
  apply NoDup_cons in Hn as [Hne _]. rewrite list_elem_of_singleton in Hne.
  split_and!; try done; intros H; apply (Hdisj _ H); cbn; repeat constructor.
Qed.

Lemma flat_lookup i x : pd_layers s !! i = Some x -> i ≠ lk -> i ≠ lb -> i ≠ l -> flat_layers !! i = Some x.
Proof.
  intros Hx H1 H2 H3. unfold flat_layers. rewrite list_lookup_insert_ne by done.
  rewrite (pa_frame _ _ _ _ _ _ _ _ Hpers); [done|by eapply lookup_lt_Some|done|]. cbn. by rewrite list_elem_of_singleton.
Qed.

Lemma flat_new : exists dk', flat_layers !! base = Some (Disk dk') /\ dk_stale dk' = false /\
  dk_root dk' = dl_root db /\ dk_id dk' = dl_id db /\
  store_ok leaf_at s1 (dk_dirties dk') (dk_cleans dk') (dk_id dk') (chain_view [(lb, db)] V).
Proof.
  destruct Hpers as [(dk' & [_ Eb Hs Hst _ _ _] & Hr & Hi & _) Hnew _ _ _ _].
  destruct flat_split as (_ & El & _). apply lookup_lt_Some in El.
  exists dk'. split_and!; try done. unfold flat_layers. rewrite list_lookup_insert_ne by lia. done.
Qed.

Lemma flat_l : flat_layers !! l = Some (Diff relinked).
Proof.
  destruct flat_split as (_ & El & _ & Elk & _ & _ & Hne). unfold flat_layers. apply list_lookup_insert_eq.
  assert (E : pd_layers s1 !! l = Some (Diff d)); [|by eapply lookup_lt_Some].
  rewrite (pa_frame _ _ _ _ _ _ _ _ Hpers); [done|by eapply lookup_lt_Some|congruence|]. cbn. by rewrite list_elem_of_singleton.
Qed.

Lemma flat_ds1 i x : (i, x) ∈ ds1 -> flat_layers !! i = Some (Diff x).
Proof.
  destruct flat_split as (Hl1 & El & Elb & Elk & Hn1 & Hn2 & _). intros Hin.
  pose proof (linked_lt _ _ _ _ _ Hl1 Hin) as Ei.
  assert (Hin' : i ∈ ds1.*1) by (apply list_elem_of_fmap; by exists (i, x)).
  apply flat_lookup; [done| | |]; intros ->; [congruence|done|done].
Qed.

(** The roots of the layers above the old disk layer are not its root. *)
Lemma flat_roots i x : (i, x) ∈ ds1 ++ [(l, d); (lb, db)] -> dl_root x ≠ dk_root dk.
Proof.
  intros Hin E. unfold tree_list in Hroots. rewrite fmap_app in Hroots. apply NoDup_app in Hroots as (_ & Hdisj & _).
  apply (Hdisj (dl_root x)); [|cbn; rewrite E; constructor].
  apply list_elem_of_fmap. exists (dl_root x, i). split; [done|]. apply list_elem_of_fmap. by exists (i, x).
Qed.

Lemma flat_chain_ok s' :
  pd_layers s' = flat_layers -> pd_buffers s' = pd_buffers s1 -> pd_caches s' = pd_caches s1 -> pd_disk s' = pd_disk s1 ->
  exists dk', chain_ok leaf_at s' (ds1 ++ [(l, relinked)]) base dk' (chain_view [(lb, db)] V) /\ dk_root dk' = dl_root db.
Proof.
  intros El Eb Ec Ed. destruct flat_new as (dk' & Hnew & Hs & Hr & Hi & Hst). exists dk'. split; [|done].
  destruct Hc as [Hl Hlk _ _ Hn Hids Hns]. rewrite fmap_app in Hn.
  split; rewrite ?El; [| |done| | | |].
  - apply linked_app. split; [|split_and!; [apply flat_l|done|done]]. cbn [top].
    destruct flat_split as (Hl1 & _). eapply linked_frame; [done|]. intros i Hi'.
    apply list_elem_of_fmap in Hi' as ([i' x] & -> & Hin). simpl.
    by rewrite (flat_ds1 _ _ Hin), (linked_lt _ _ _ _ _ Hl1 Hin).
  - done.
  - unfold store_ok in *. by rewrite Eb, Ec, Ed.
  - rewrite fmap_app. cbn. apply NoDup_app in Hn as (H1 & H2 & _). apply NoDup_app. split_and!; [done| |apply NoDup_singleton].
    intros x Hx Hx'. apply (H2 x Hx). cbn. rewrite list_elem_of_singleton in Hx'. subst. constructor.
  - apply ids_ok_app in Hids as (H1 & (H2 & H3 & _)). apply ids_ok_app. split; [done|]. cbn in *. by rewrite Hi, H2.
  - apply Forall_app in Hns as [H1 H2]. apply Forall_cons in H2 as [H2 _]. apply Forall_app. split; [done|].
    by apply Forall_singleton.
Qed.

Lemma flat_roots_two : dl_root db ≠ dk_root dk /\ dl_root d ≠ dk_root dk.
Proof. split; [apply (flat_roots lb)|apply (flat_roots l)]; apply elem_of_app; right; repeat constructor. Qed.

(** The entries of the tree with the new disk layer: only the old disk layer is
    stale, and no layer of the tree hangs below it any more. *)
Definition flat_tree : gmap F nat :=
  <[dl_root db := base]> (list_to_map (tree_list (ds1 ++ [(l, d); (lb, db)]) lk dk)).

Lemma flat_tree_ok :
  map_Forall (fun root i => exists y, flat_layers !! i = Some y /\
    (root = dk_root dk <-> exists d, y = Disk d /\ dk_stale d = true) /\
    forall d, y = Diff d -> exists q, flat_layers !! dl_parent d = Some q /\ rootHash q ≠ dk_root dk) flat_tree.
Proof.
  destruct flat_new as (dk' & Hnew & Hs & Hr & _ & _), flat_roots_two as [Hdb Hd].
  destruct flat_split as (Hl1 & El & Elb & Elk & _).
  intros root i Hi'. unfold flat_tree in Hi'. apply lookup_insert_Some in Hi' as [[<- <-]|[Hrb Hi']].
  { exists (Disk dk'). split_and!; [done| |done]. split; [done|]. intros (dx & [= <-] & Hx). congruence. }
  apply elem_of_list_to_map_2 in Hi'. unfold tree_list in Hi'. rewrite tree_pre_app, elem_of_app, elem_of_app in Hi'.
  destruct Hi' as [[Hi'|Hi']|Hi'].
  - apply list_elem_of_fmap in Hi' as ([i' x] & [= -> ->] & Hin). exists (Diff x). split_and!; [by apply flat_ds1| |].
    + split; [intros E|by intros (dx & ? & _)]. exfalso. apply (flat_roots i' x); [|done]. apply elem_of_app. by left.
    + intros x' [= <-]. destruct (linked_parent _ _ _ _ _ Hl1 Hin) as [->|[x2 Hin2]].
      * exists (Diff relinked). split; [apply flat_l|done].
      * exists (Diff x2). split; [by apply flat_ds1|]. eapply flat_roots. apply elem_of_app. by left.
  - cbn in Hi'. rewrite elem_of_cons, list_elem_of_singleton in Hi'. destruct Hi' as [[= -> ->]|[= -> ->]]; [|done].
    exists (Diff relinked). split_and!; [apply flat_l| |].
    + split; [done|by intros (dx & ? & _)].
    + intros x [= <-]. exists (Disk dk'). split; [done|]. simpl. by rewrite Hr.
  - rewrite list_elem_of_singleton in Hi'. injection Hi' as -> ->. exists (Disk (stale dk)). split_and!; [| |done].
    + unfold flat_layers. rewrite list_lookup_insert_ne by congruence. apply Hpers.
    + split; [by eauto|done].
Qed.

Lemma flat_layers_ok s' :
  pd_layers s' = flat_layers -> pd_buffers s' = pd_buffers s1 -> pd_caches s' = pd_caches s1 -> pd_disk s' = pd_disk s1 ->
  pd_tree s' = base.delete (dk_root dk) flat_tree -> (length ds1 = 127)%nat ->
  exists dk', layers_ok s' (ds1 ++ [(l, relinked)]) base dk' (chain_view [(lb, db)] V) /\ dk_root dk' = dl_root db.
Proof.
  intros El Eb Ec Ed Et Hlen. destruct (flat_chain_ok s' El Eb Ec Ed) as (dk2 & Hc2 & Hr2).
  exists dk2. split; [|done].
  assert (Etl : tree_list (ds1 ++ [(l, relinked)]) base dk2 = (tree_pre ds1 ++ [(dl_root d, l)]) ++ [(dk_root dk2, base)]).
  { unfold tree_list. by rewrite tree_pre_app. }
  assert (Etl0 : tree_list (ds1 ++ [(l, d); (lb, db)]) lk dk =
                 (tree_pre ds1 ++ [(dl_root d, l)]) ++ [(dl_root db, lb); (dk_root dk, lk)]).
  { unfold tree_list. rewrite tree_pre_app, <- !app_assoc. done. }
  unfold flat_tree in Et. rewrite Etl0 in Et, Hroots. split; [exact Hc2| | |].
  - by rewrite Et, tree_flatten, Etl, Hr2.
  - rewrite Etl, Hr2. rewrite fmap_app in Hroots |- *. apply NoDup_app in Hroots as (H1 & H2 & _).
    apply NoDup_app. split_and!; [done| |apply NoDup_singleton]. intros r Hr' Hr''. apply (H2 r Hr'). cbn in *.
    rewrite list_elem_of_singleton in Hr''. subst. constructor.
  - rewrite length_app. simpl. lia.
Qed.

End flatten.

Lemma wp_flatten s ds1 l lb lk d db dk V :
  chain_ok leaf_at s (ds1 ++ [(l, d); (lb, db)]) lk dk V ->
  pd_tree s = list_to_map (tree_list (ds1 ++ [(l, d); (lb, db)]) lk dk) ->
  NoDup (tree_list (ds1 ++ [(l, d); (lb, db)]) lk dk).*1 -> (length ds1 = 127)%nat ->
  wp (base ← diffLayer_persist order owner_order (chain_fuel s) lb false;
      b ← get_layer base;
      modify (fun s => set_tree (<[rootHash b := base]> (pd_tree s)) s);;
      set_parent l base;;
      remove_stale layer_order)
    (fun _ s' => exists base dk', layers_ok s' (ds1 ++ [(l, relinked base d)]) base dk' (chain_view [(lb, db)] V) /\
       dk_root dk' = dl_root db) s.
Proof.
  intros Hc Ht Hroots Hlen. wp_step.
  eapply wp_mono; [apply (wp_diffLayer_persist order owner_order order_perm owner_order_perm leaf_at _ s [] lk dk V lb db false)|].
  { eapply (chain_ok_drop _ _ (ds1 ++ [(l, d)])). by rewrite <- app_assoc. }
  { unfold chain_fuel. simpl. lia. }
  intros base s1 Hp. destruct (pa_disk _ _ _ _ _ _ _ _ Hp) as (dk' & Hc' & Hr & _).
  destruct (flat_split s ds1 l lb lk d db dk V Hc) as (_ & El & _ & Elk & _ & _ & Hne).
  wp_step. eapply wp_get_layer; [apply Hc'|]. wp_step. apply wp_modify. wp_step. eapply wp_set_parent.
  { cbn [set_tree pd_layers]. rewrite (pa_frame _ _ _ _ _ _ _ _ Hp); [done|by eapply lookup_lt_Some|congruence|].
    cbn. by rewrite list_elem_of_singleton. }
  cbn [rootHash]. rewrite Hr. set (s3 := set_layers _ _).
  assert (Et3 : pd_tree s3 = flat_tree ds1 l lb lk base d db dk).
  { cbn [s3 set_layers set_tree pd_tree]. by rewrite (pa_tree _ _ _ _ _ _ _ _ Hp), Ht. }
  eapply wp_mono; [apply (wp_remove_stale layer_order layer_order_perm (dk_root dk))|].
  - destruct (flat_roots_two ds1 l lb lk d db dk Hroots) as [Hdb _]. rewrite Et3. unfold flat_tree.
    rewrite lookup_insert_ne by done. exists lk. apply elem_of_list_to_map_1; [done|].
    unfold tree_list. rewrite elem_of_app. right. constructor.
  - rewrite Et3. exact (flat_tree_ok s s1 ds1 l lb lk base d db dk V Hc Hroots Hp).
  - intros [] s4 ->. exists base.
    apply (flat_layers_ok s s1 ds1 l lb lk base d db dk V Hc Hroots Hp); [done..|by rewrite Et3|done].
Qed.

(** The tree is capped at [maxDiffLayers] diff layers. *)
Lemma wp_cap_update s ds lk dk V :
  chain_ok leaf_at s ds lk dk V -> pd_tree s = list_to_map (tree_list ds lk dk) ->
  NoDup (tree_list ds lk dk).*1 -> ds ≠ [] -> (length ds <= 129)%nat ->
  wp (layerTree_cap order owner_order layer_order (top_root ds dk) maxDiffLayers)
    (fun _ s' => exists ds' lk' dk' V', layers_ok s' ds' lk' dk' V' /\
       hist_eq (take kept (hist_of ds dk V)) (hist_of ds' dk' V')) s.
Proof.
  intros Hc Ht Hroots Hne Hlen.
  assert (Hshort : (length ds <= 128)%nat -> exists ds' lk' dk' V', layers_ok s ds' lk' dk' V' /\
            hist_eq (take kept (hist_of ds dk V)) (hist_of ds' dk' V')).
  { intros Hl. exists ds, lk, dk, V. split; [done|]. rewrite take_ge.
    - apply hist_eq_refl.
    - unfold hist_of, kept. rewrite length_app, length_hist_pre. simpl. lia. }
  assert (Etop : pd_tree s !! top_root ds dk = Some (top ds lk)).
  { rewrite Ht. destruct ds as [|[l d] ds']; apply lookup_insert_eq. }
  unfold layerTree_cap. wp_step. apply wp_layerTree_get. rewrite Etop. wp_step.
  eapply wp_get_layer; [by eapply top_layer|].
  assert (Ex : exists d, match ds with [] => Disk dk | (_, d) :: _ => Diff d end = Diff d) by (destruct ds as [|[]]; eauto; done).
  destruct Ex as [dt ->]. change (maxDiffLayers =? 0) with false. cbv iota.
  change (Z.to_nat (maxDiffLayers - 1)) with 127%nat.
  wp_step. eapply wp_mono; [by eapply wp_cap_loop|]. intros o s' [-> ->].
  destruct (ds !! 127%nat) as [[l d]|] eqn:E127; cbn [fmap option_fmap option_map fst].
  2:{ wp_step. apply Hshort. apply lookup_ge_None in E127. lia. }
  pose proof (take_drop_middle _ _ _ E127) as Eds. pose proof (lookup_lt_Some _ _ _ E127) as Hlt.
  set (ds1 := take 127 ds) in *. assert (Hlen1 : length ds1 = 127%nat) by (unfold ds1; rewrite length_take; lia).
  assert (Hrest : (length (drop 128 ds) <= 1)%nat) by (rewrite length_drop; lia).
  assert (Hlen2 : (length ds = 128 + length (drop 128 ds))%nat) by (rewrite length_drop; lia).
  destruct (drop 128 ds) as [|[lb db] [|]]; [| |simpl in Hrest; lia].
  - rewrite <- Eds in Hc. apply chain_ok_drop in Hc as Hc2. pose proof (co_linked _ _ _ _ _ _ Hc2) as (El & Ep & _).
    wp_step. eapply wp_get_diff; [done|]. wp_step. rewrite Ep. eapply wp_get_layer; [apply Hc2|]. apply wp_ret, Hshort.
    simpl in Hlen2. lia.
  - rewrite <- Eds in *. apply chain_ok_drop in Hc as Hc2. pose proof (co_linked _ _ _ _ _ _ Hc2) as (El & Ep & Elb & _).
    wp_step. eapply wp_get_diff; [done|]. wp_step. rewrite Ep. cbn [top]. eapply wp_get_layer; [done|].
    cbv iota beta. wp_step. wp_step. eapply wp_mono; [by apply (wp_flatten s ds1 l lb lk d db dk V)|].
    intros _ s' (base & dk' & Hlo & Hr). eexists _, base, dk', _. split; [exact Hlo|].
    rewrite !hist_of_app, take_app_ge; rewrite ?length_hist_pre, ?Hlen1; [|unfold kept; lia].
    apply Forall2_app; [by apply hist_pre_eq|]. unfold kept. cbn. unfold hist_of. cbn.
    constructor; [done|]. constructor; [|constructor]. split; [by rewrite Hr|done].
Qed.

Lemma run_update s h root parent block classes contracts :
  path_inv s h -> op_ok leaf_at h (OpUpdate root parent block classes contracts) ->
  let op := OpUpdate root parent block classes contracts in
  exists s', run_op order owner_order layer_order leaf_at op s = ((spec_step h op).1, s') /\
    path_inv s' (spec_step h op).2.
Proof.
  intros Hinv Hop. pose proof Hinv as (ds & lk & dk & V & Hlo & Hh).
  pose proof Hlo as [Hc Ht Hd Hl]. cbn [run_op spec_step]. cbn [op_ok] in Hop.
  rewrite (hist_eq_roots _ _ Hh), (hist_roots _ _ _ lk) in Hop.
  destruct Hop as [Hparent|(Hparent & Hroot & Hok)].
  - assert (En : pd_tree s !! parent = None) by (rewrite Ht; by apply not_elem_of_list_to_map_1).
    pose proof (locate ds lk dk V parent Hd) as Hloc. rewrite <- Ht in Hloc. apply (hist_from_eq _ _ parent) in Hh as Hf.
    destruct (hist_from (hist_of ds dk V) parent); [|destruct Hloc as (? & ? & _ & _ & _ & E); congruence].
    inversion Hf; subst. exists s. split; [|done]. unfold path_Update, layerTree_add, layerTree_get, gets, mbind, SE_bind.
    by rewrite En.
  - destruct (hist_of_cons ds dk V) as (W & h3 & Eh & EW & _). rewrite Eh in Hh.
    inversion Hh as [|[y1 y2] ? h1 ? [Ey1 Ey2] Hrest]; subst. cbn in Hparent, Ey1, Ey2. injection Hparent as <-. subst y1.
    cbn [hist_from fst]. rewrite decide_True by done. cbn [fst snd].
    apply wp_run. unfold path_Update. wp_step.
    eapply wp_mono; [by apply (wp_layerTree_add s ds lk dk V)|]. intros _ s1 (l & d & Hc1 & Er1 & Ht1 & Hch).
    assert (Htl : tree_list ((l, d) :: ds) lk dk = (root, l) :: tree_list ds lk dk) by (cbn; by rewrite Er1).
    replace root with (top_root ((l, d) :: ds) dk) at 1 by done.
    eapply wp_mono; [apply (wp_cap_update s1 ((l, d) :: ds) lk dk V); [done|done| |done|simpl; lia]|].
    { rewrite Htl. by constructor. }
    intros _ s' (ds' & lk' & dk' & V' & Hlo' & Hh'). exists ds', lk', dk', V'. split; [done|].
    eapply hist_eq_trans; [apply Forall2_take|exact Hh'].
    unfold hist_of. cbn [hist_pre app]. fold (hist_of ds dk V). rewrite Er1, Eh. constructor; [|by constructor].
    split; [done|]. cbn [snd chain_view]. intros id p [Hid Hp]. unfold over. rewrite Hch by done.
    destruct (changes classes contracts id p); [done|]. by apply Ey2.
Qed.

Lemma run_step s h op :
  path_inv s h -> op_ok leaf_at h op ->
  exists s', run_op order owner_order layer_order leaf_at op s = ((spec_step h op).1, s') /\ path_inv s' (spec_step h op).2.
Proof.
  destruct op; intros Hinv Hop; [by apply run_update|by apply run_commit|by apply run_node].
Qed.

(** C14: the path database implements its specification on chains without forks.
    A database that holds the versions of a history, and on which updates of the
    newest version to a root that is not kept yet, updates of unknown versions,
    commits and reads of any root are executed in any order, returns the results
    the history prescribes: an update of the newest version adds a version, one of
    an unknown version is refused, a read of any of the last 129 states returns
    the nodes of that state and no other, a commit keeps the version it names, and
    an unknown root is refused.  What the code does in between (merging layers
    into the buffer, flushing it, filling and evicting the cache, relinking
    layers) never shows and never fails.  Nothing is said of updates of a version
    that is kept but not the newest, nor of roots that are used twice. *)
Theorem pathdb_refines_history s h ops :
  path_inv s h -> ops_ok leaf_at h ops ->
  exists s', run_path_ops order owner_order layer_order leaf_at s ops = ((spec_run h ops).1, s') /\
    path_inv s' (spec_run h ops).2.
Proof.
  revert s h. induction ops as [|op ops IH]; intros s h Hinv Hok; [by exists s|].
  destruct Hok as [Hop Hops]. destruct (run_step s h op Hinv Hop) as (s1 & E1 & Hinv1).
  destruct (IH s1 _ Hinv1 Hops) as (s2 & E2 & Hinv2). cbn [run_path_ops spec_run]. rewrite E1.
  destruct (spec_step h op) as [r h1]. cbn [fst snd] in *. rewrite E2.
  destruct (spec_run h1 ops) as [rs h2]. by exists s2.
Qed.

End theorems.
