(* ===== verification/PathJournal.v ===== *)
(** * The journal of the path database

    [src/core/trie2/triedb/pathdb/journal.go], [encode] and [decode] of
    [nodeset.go], and [New] of [database.go]: the layers are written to the disk
    as one record and read back when the database is opened.

    The records are encoded with the library behind [utils/cbor], an instance of
    [Cbor] for each of them; the hash functions are parameters. *)
From stdpp Require Import prelude gmap list.
From Stdlib Require Import ZArith Lia.
From S2P Require Import Prelude Felt BitArray TrieNode Trie MemDB TrieDB PathDB.

Local Open Scope Z_scope.

(** [Marshal] and [Unmarshal] of a type; [None] is an error. *)
Class Cbor (T : Type) := {
  cbor_Marshal : T -> option bytes;
  cbor_Unmarshal : bytes -> option T;
}.

Section types.
Context {F : Type} `{!FieldElement F}.

(** ** The records *)

Record journalNode := mkJournalNode {
  jn_Path : bytes;
  jn_Blob : bytes;
  jn_Hash : F;
  jn_IsLeaf : bool;
}.

Record journalNodes := mkJournalNodes {
  js_TrieType : Z;
  js_Owner : F;
  js_Nodes : list journalNode;
}.

Record JournalNodeSet := mkJournalNodeSet { jns_Nodes : list journalNodes }.

Record DiffJournal := mkDiffJournal {
  fj_Root : F;
  fj_Block : Z;
  fj_EncNodeset : bytes;
}.

Record DiskJournal := mkDiskJournal {
  kj_Root : F;
  kj_ID : Z;
  kj_EncNodeset : bytes;
}.

Record DBJournal := mkDBJournal {
  bj_Version : Z;
  bj_EncLayers : bytes;
}.

End types.

Arguments journalNode F : clear implicits.
Arguments journalNodes F : clear implicits.
Arguments JournalNodeSet F : clear implicits.
Arguments DiffJournal F : clear implicits.
Arguments DiskJournal F : clear implicits.

Section definitions.
Context {F : Type} `{!FieldElement F} {C : Type} `{!FastCache C}.
Context `{!Cbor (JournalNodeSet F)} `{!Cbor (DiffJournal F)} `{!Cbor (DiskJournal F)} `{!Cbor DBJournal}.

Abbreviation Path := BitArray.
Abbreviation tnode := (TrieNode F).
Abbreviation nodesMap := (gmap Path tnode).
Abbreviation ownersMap := (gmap F (gmap Path tnode)).
Abbreviation PM := (SE (pathDB F C) pathError).

Variable order : nodesMap -> list (Path * tnode).
Variable owner_order : ownersMap -> list (F * nodesMap).

(** The hash functions of [core/crypto]. *)
Variable Pedersen : F -> F -> F.
Variable PoseidonElems : list F -> F.

(** ** Node sets *)

(** [trieutils.Class], [Contract] and [ContractStorage]. *)
Definition typeClass : Z := 1.
Definition typeContract : Z := 2.
Definition typeContractStorage : Z := 3.

Definition encode_node (x : Path * tnode) : journalNode F :=
  mkJournalNode (EncodedBytes x.1) (Blob x.2) (raw_Hash x.2) (IsLeaf x.2).

Definition encode_entry (t : Z) (owner : F) (m : nodesMap) : journalNodes F :=
  mkJournalNodes t owner (encode_node <$> order m).

Definition nodeSet_entries (s : nodeSet F) : list (journalNodes F) :=
  [encode_entry typeClass felt_Zero (classNodes s); encode_entry typeContract felt_Zero (contractNodes s)] ++
  ((fun x => encode_entry typeContractStorage x.1 x.2) <$> owner_order (contractStorageNodes s)).

(** The bytes that are written, or an error. *)
Definition nodeSet_encode (s : nodeSet F) : option bytes :=
  cbor_Marshal (mkJournalNodeSet (nodeSet_entries s)).

Definition decodeJournalNode (blob : bytes) (hash : F) (isLeaf : bool) : tnode :=
  if (length blob =? 0)%nat then NewDeleted isLeaf
  else if isLeaf then NewLeaf hash blob else NewNonLeaf hash blob.

(** The loop over the nodes of an entry. *)
Fixpoint decode_nodes (l : list (journalNode F)) (m : nodesMap) : outcome pathError nodesMap :=
  match l with
  | [] => Ok m
  | n :: l' =>
      match UnmarshalBinary (jn_Path n) with
      | Ok path => decode_nodes l' (<[path := decodeJournalNode (jn_Blob n) (jn_Hash n) (jn_IsLeaf n)]> m)
      | Err e => Err (ErrPath e)
      | Panic => Panic
      | NoFuel => NoFuel
      end
  end.

(** An entry of another type is skipped. *)
Fixpoint decode_entries (l : list (journalNodes F)) (acc : nodesMap * nodesMap * ownersMap)
  : outcome pathError (nodesMap * nodesMap * ownersMap) :=
  match l with
  | [] => Ok acc
  | e :: l' =>
      let '(cn, co, cs) := acc in
      if js_TrieType e =? typeClass then
        cn' ← decode_nodes (js_Nodes e) cn; decode_entries l' (cn', co, cs)
      else if js_TrieType e =? typeContract then
        co' ← decode_nodes (js_Nodes e) co; decode_entries l' (cn, co', cs)
      else if js_TrieType e =? typeContractStorage then
        m ← decode_nodes (js_Nodes e) ∅; decode_entries l' (cn, co, <[js_Owner e := m]> cs)
      else decode_entries l' acc
  end.

Definition nodeSet_decode (data : bytes) : outcome pathError (nodeSet F) :=
  match cbor_Unmarshal data with
  | None => Err ErrCbor
  | Some encoded =>
      '(cn, co, cs) ← decode_entries (jns_Nodes encoded) (∅, ∅, ∅);
      mret (mkPathSet cn co cs (computeSize order owner_order cn co cs))
  end.

(** ** Writing the journal *)

Definition journalVersion : Z := 1.
Definition diffJournal : Z := 1.
Definition diskJournal : Z := 2.

Definition lift_cbor {A} (o : option A) : PM A :=
  match o with Some a => mret a | None => fail ErrCbor end.

(** A record with its type and its length. *)
Definition framed (t : Z) (enc : bytes) : bytes := [t] ++ be_bytes 8 (Z.of_nat (length enc)) ++ enc.

(** The layers are appended to [w], the disk layer first. *)
Fixpoint layer_journal (fuel : nat) (l : nat) (w : bytes) : PM bytes :=
  match fuel with
  | O => out_of_fuel
  | S f =>
      x ← get_layer l;
      match x with
      | Diff dl =>
          w ← layer_journal f (dl_parent dl) w;
          buf ← lift_cbor (nodeSet_encode (dl_nodes dl));
          enc ← lift_cbor (cbor_Marshal (mkDiffJournal (dl_root dl) (dl_block dl) buf));
          mret (w ++ framed diffJournal enc)
      | Disk dl =>
          if dk_stale dl then fail ErrDiskLayerStale
          else
            b ← get_buffer (dk_dirties dl);
            buf ← lift_cbor (nodeSet_encode (bf_nodes b));
            enc ← lift_cbor (cbor_Marshal (mkDiskJournal (dk_root dl) (dk_id dl) buf));
            mret (w ++ framed diskJournal enc)
      end
  end.

Definition path_Journal (root : F) : PM unit :=
  o ← layerTree_get root;
  match o with
  | None => fail ErrLayerNotFound
  | Some l =>
      s ← get_state;
      buf ← layer_journal (chain_fuel s) l [];
      enc ← lift_cbor (cbor_Marshal (mkDBJournal journalVersion buf));
      on_kv (WriteTrieJournal enc)
  end.

(** ** Reading the journal *)

Definition new_buffer (b : buffer F) : PM nat :=
  s ← get_state; put_state (set_buffers (pd_buffers s ++ [b]) s);; mret (length (pd_buffers s)).
Definition new_cache : PM nat :=
  s ← get_state;
  match newCleanCache (CleanCacheSize (pd_config s)) with
  | None => panic
  | Some c => put_state (set_caches (pd_caches s ++ [c]) s);; mret (length (pd_caches s))
  end.

(** A disk layer with its own cache and buffer. *)
Definition fresh_disk (root : F) (id : Z) (nodes : option (nodeSet F)) (layers : Z) : PM nat :=
  s ← get_state;
  b ← new_buffer (newBuffer order owner_order (WriteBufferSize (pd_config s)) nodes layers);
  c ← new_cache;
  new_layer (Disk (newDiskLayer root id c b)).

Definition load_diff (encLayer : bytes) (parent : option nat) : PM nat :=
  jn ← lift_cbor (cbor_Unmarshal encLayer : option (DiffJournal F));
  nodes ← lift (nodeSet_decode (fj_EncNodeset jn));
  p ← deref parent;
  x ← get_layer p;
  new_layer (Diff (mkDiff (fj_Root jn) (u64 (layer_stateID x + 1)) (fj_Block jn) nodes p)).

Definition load_disk (encLayer : bytes) : PM nat :=
  jn ← lift_cbor (cbor_Unmarshal encLayer : option (DiskJournal F));
  s ← get_state;
  latest ← lift_db (latestPersisted (pd_disk s));
  nodes ← lift (nodeSet_decode (kj_EncNodeset jn));
  fresh_disk (kj_Root jn) (kj_ID jn) (Some nodes) (u64 (kj_ID jn - latest)).

Definition layerMetadataSize : Z := 9.

(** [head] and [parent] are the same layer.  A slice expression panics when
    its end is behind the capacity of the data or before its beginning; the
    decoded journal is taken to have no more capacity than its length.  (With more,
    a record that ends behind the data would be decoded with what follows it
    there, and the slice expression that drops the record would panic.) *)
Fixpoint loadLayers (fuel : nat) (enc : bytes) (head : option nat) : PM (option nat) :=
  match enc with
  | [] => mret head
  | layerType :: _ =>
      match fuel with
      | O => out_of_fuel
      | S f =>
          let n := Z.of_nat (length enc) in
          if n <? layerMetadataSize then fail ErrJournalCorrupt
          else
            let encLen := be_val (take 8 (drop 1 enc)) in
            if n <? i64 encLen then fail ErrJournalCorrupt
            else
              let high := u64 (layerMetadataSize + encLen) in
              if (high <? layerMetadataSize) || (n <? high) then panic
              else
                let encLayer := take (Z.to_nat encLen) (drop 9 enc) in
                l ← (if layerType =? diffJournal then load_diff encLayer head
                     else if layerType =? diskJournal then load_disk encLayer
                     else fail (ErrJournalType layerType));
                loadLayers f (drop (Z.to_nat high) enc) (Some l)
      end
  end.

(** The bytes of [STARKNET_STATE_V0]. *)
Definition stateVersion : F :=
  felt_SetBytes [83; 84; 65; 82; 75; 78; 69; 84; 95; 83; 84; 65; 84; 69; 95; 86; 48].

(** The blob of the root node of a trie; [None] when it cannot be read. *)
Definition root_blob (d : memory.Database) (bucket : innerBucket) : option bytes :=
  match GetNodeByPath d bucket (felt_Zero : F) emptyBitArray false with Ok blob => Some blob | _ => None end.

(** The hash of a root node; [None] when it cannot be decoded. *)
Definition root_hash (blob : bytes) : outcome pathError (option F) :=
  match DecodeNode blob (Some felt_Zero) 0 contractClassTrieHeight with
  | Ok n => match Hash Pedersen n with Ok h => Ok (Some h) | _ => Panic end
  | Err _ => Ok None
  | Panic => Panic
  | NoFuel => NoFuel
  end.

Definition getStateRoot (d : memory.Database) : outcome pathError F :=
  match root_blob d contractTrieContract, root_blob d classTrie with
  | Some encContractRoot, Some encStorageRoot =>
      o ← root_hash encContractRoot;
      match o with
      | None => mret felt_Zero
      | Some contractRootHash =>
          o ← root_hash encStorageRoot;
          match o with
          | None => mret felt_Zero
          | Some classRootHash => mret (PoseidonElems [stateVersion; contractRootHash; classRootHash])
          end
      end
  | _, _ => mret felt_Zero
  end.

Definition loadJournal : PM (option nat) :=
  s ← get_state;
  match ReadTrieJournal (pd_disk s) with
  | Ok enc =>
      journal ← lift_cbor (cbor_Unmarshal enc : option DBJournal);
      if negb (bj_Version journal =? journalVersion) then fail (ErrJournalVersion (bj_Version journal))
      else loadLayers (length (bj_EncLayers journal)) (bj_EncLayers journal) None
  | Err ErrNotFound =>
      latestID ← lift_db (latestPersisted (pd_disk s));
      diskRoot ← lift (getStateRoot (pd_disk s));
      l ← fresh_disk diskRoot latestID None 0;
      mret (Some l)
  | Err e => fail (ErrDB e)
  | Panic => panic
  | NoFuel => out_of_fuel
  end.

Definition Megabyte : Z := 1024 * 1024.

(** [None] is a nil configuration. *)
Definition path_New (disk : memory.Database) (config : option Config) : outcome pathError (pathDB F C) :=
  let config := default (mkPathConfig (16 * Megabyte) (64 * Megabyte)) config in
  let '(o, s) := (head ← loadJournal; newLayerTree head) (mkPathDB disk ∅ config [] [] []) in
  match o with
  | Ok _ => Ok s
  | Err e => Err e
  | Panic => Panic
  | NoFuel => NoFuel
  end.

End definitions.
