(* ===== verification/PathJournalFacts.v ===== *)
(** * The journal: opening the path database again

    The layers that are written to the journal come back as the same versions;
    without a journal the database has the one version that is on the disk, and
    the second part shows which root it is found under. *)
From stdpp Require Import prelude gmap list.
From Stdlib Require Import ZArith Lia.
From S2P Require Import Prelude Felt BitArray BitArrayFacts BitArrayCodec TrieNode Trie TrieSpec TrieTrace TrieRep.
From S2P Require Import TrieNodeFacts MemDB MemDBFacts TrieDB TrieDBFacts TrieCollect TrieCommit PathDB PathDBFacts PathTree.
From S2P Require Import PathSpec PathJournal.

Local Open Scope Z_scope.

(** What is documented of the encoder: decoding gives back what was encoded,
    within the limits of the decoder, and the encoding is a Go slice. *)
Class CborLaws (T : Type) `{!Cbor T} (fits : T -> Prop) : Prop :=
  cbor_roundtrip x : fits x ->
    exists b, cbor_Marshal x = Some b /\ cbor_Unmarshal b = Some x /\ Z.of_nat (length b) < 2 ^ 63.

(** [MaxArrayElements] of the decoder. *)
Definition maxArrayElements : Z := 10485760.

Definition fits_nodes {F} (j : JournalNodeSet F) : Prop :=
  Z.of_nat (length (jns_Nodes j)) <= maxArrayElements /\
  Forall (fun e => Z.of_nat (length (js_Nodes e)) <= maxArrayElements) (jns_Nodes j).

Section journal.
Context {F : Type} `{!FieldElement F} `{!FieldElementLaws F} {C : Type} `{!FastCache C} `{!FastCacheLaws C}.
Context `{!Cbor (JournalNodeSet F)} `{!Cbor (DiffJournal F)} `{!Cbor (DiskJournal F)} `{!Cbor DBJournal}.
Context `{!CborLaws (JournalNodeSet F) fits_nodes} `{!CborLaws (DiffJournal F) (fun _ => True)}.
Context `{!CborLaws (DiskJournal F) (fun _ => True)} `{!CborLaws DBJournal (fun _ => True)}.

Abbreviation nodesMap := (gmap BitArray (TrieNode F)).
Abbreviation ownersMap := (gmap F nodesMap).
Abbreviation pdb := (pathDB F C).
Abbreviation chain := (list (nat * diffLayer F)).

Variable order : nodesMap -> list (BitArray * TrieNode F).
Variable owner_order : ownersMap -> list (F * nodesMap).
Hypothesis order_perm : forall m, order m ≡ₚ map_to_list m.
Hypothesis owner_order_perm : forall m, owner_order m ≡ₚ map_to_list m.
Variable Pedersen : F -> F -> F.
Variable PoseidonElems : list F -> F.
Variable leaf_at : BitArray -> bool.

Implicit Types (s : pdb) (V : nview (F:=F)) (ds : chain) (dk : diskLayer F) (h : history F) (ns : nodeSet F).

(** ** Node sets *)

(** The same nodes; the sizes may be different. *)
Definition same_maps ns ns' : Prop :=
  classNodes ns = classNodes ns' /\ contractNodes ns = contractNodes ns' /\
  contractStorageNodes ns = contractStorageNodes ns'.

Lemma same_maps_at ns ns' id p : same_maps ns ns' -> ns_at ns id p = ns_at ns' id p.
Proof. intros (E1 & E2 & E3). unfold ns_at, nodeSet_node. by rewrite E1, E2, E3. Qed.

Lemma same_maps_ok ns ns' : same_maps ns ns' -> ns_ok leaf_at ns' -> ns_ok leaf_at ns.
Proof. intros (E1 & E2 & E3). unfold ns_ok. by rewrite E1, E2, E3. Qed.

Lemma over_same ns ns' V : same_maps ns ns' -> view_eq (over (ns_at ns) V) (over (ns_at ns') V).
Proof. intros E id p _. unfold over. by rewrite (same_maps_at _ _ id p E). Qed.

Lemma decode_encode_node p n :
  node_ok leaf_at p n ->
  let j := encode_node (p, n) in
  UnmarshalBinary (jn_Path j) = Ok p /\ decodeJournalNode (jn_Blob j) (jn_Hash j) (jn_IsLeaf j) = n.
Proof.
  intros (Hp & _ & Hb). split; [by apply decode_encode|]. unfold decodeJournalNode. cbn.
  destruct n as [b hh|b hh|lf]; cbn in *; try done; (destruct b; [by specialize (Hb eq_refl)|done]).
Qed.

Lemma decode_nodes_list l (m : nodesMap) :
  NoDup l.*1 -> Forall (fun x => node_ok leaf_at x.1 x.2) l ->
  decode_nodes (encode_node <$> l) m = Ok (list_to_map l ∪ m).
Proof.
  revert m. induction l as [|[p n] l IH]; intros m Hd Hok.
  { cbn. by rewrite (left_id_L ∅ (∪)). }
  apply NoDup_cons in Hd as [Hni Hd]. apply Forall_cons in Hok as [Hn Hok].
  destruct (decode_encode_node p n Hn) as [E1 E2]. rewrite fmap_cons. cbn [decode_nodes]. rewrite E1, E2, IH by done.
  cbn [list_to_map foldr uncurry fst snd]. rewrite <- insert_union_l, insert_union_r; [done|].
  by apply not_elem_of_list_to_map_1.
Qed.

Lemma decode_nodes_map (nodes m : nodesMap) :
  map_Forall (node_ok leaf_at) nodes -> decode_nodes (encode_node <$> order nodes) m = Ok (nodes ∪ m).
Proof.
  intros Hok. assert (Hd : NoDup (order nodes).*1) by (rewrite order_perm; apply NoDup_fst_map_to_list).
  rewrite decode_nodes_list; [|done|].
  - by rewrite (list_to_map_proper (order nodes) (map_to_list nodes)), list_to_map_to_list.
  - rewrite order_perm. apply Forall_forall. intros [p n] Hin%elem_of_map_to_list. by apply (Hok p n).
Qed.

Lemma decode_owners l cn co (cs : ownersMap) :
  NoDup l.*1 -> Forall (fun x => map_Forall (node_ok leaf_at) x.2) l ->
  decode_entries ((fun x => encode_entry order typeContractStorage x.1 x.2) <$> l) (cn, co, cs) =
    Ok (cn, co, list_to_map l ∪ cs).
Proof.
  revert cs. induction l as [|[o nodes] l IH]; intros cs Hd Hok.
  { cbn. by rewrite (left_id_L ∅ (∪)). }
  apply NoDup_cons in Hd as [Hni Hd]. apply Forall_cons in Hok as [Hn Hok]. rewrite fmap_cons.
  cbn [decode_entries encode_entry js_TrieType js_Nodes js_Owner fst snd].
  change (typeContractStorage =? typeClass) with false. change (typeContractStorage =? typeContract) with false.
  change (typeContractStorage =? typeContractStorage) with true. cbv iota.
  rewrite decode_nodes_map by done. unfold mbind, outcome_bind. rewrite (right_id_L ∅ (∪)), IH by done.
  cbn [list_to_map foldr uncurry fst snd]. rewrite <- insert_union_l, insert_union_r; [done|].
  by apply not_elem_of_list_to_map_1.
Qed.

(** A node set survives encoding and decoding. *)
Lemma nodeSet_roundtrip ns :
  ns_ok leaf_at ns -> fits_nodes (mkJournalNodeSet (nodeSet_entries order owner_order ns)) ->
  exists b ns', nodeSet_encode order owner_order ns = Some b /\ nodeSet_decode order owner_order b = Ok ns' /\ same_maps ns' ns.
Proof.
  intros (Hcn & Hco & Hcs & _) Hfit.
  destruct (cbor_roundtrip _ Hfit) as (b & E1 & E2 & _). exists b. eexists. split; [exact E1|].
  unfold nodeSet_decode. rewrite E2. cbn [jns_Nodes].
  assert (Hd : NoDup (owner_order (contractStorageNodes ns)).*1) by (rewrite owner_order_perm; apply NoDup_fst_map_to_list).
  assert (E : decode_entries (nodeSet_entries order owner_order ns) (∅, ∅, ∅) =
              Ok (classNodes ns, contractNodes ns, contractStorageNodes ns)).
  { unfold nodeSet_entries. cbn [app decode_entries encode_entry js_TrieType js_Nodes].
    change (typeClass =? typeClass) with true. change (typeContract =? typeClass) with false.
    change (typeContract =? typeContract) with true. cbv iota.
    rewrite !decode_nodes_map by done. unfold mbind, outcome_bind. rewrite !(right_id_L ∅ (∪)).
    rewrite decode_owners; [|done|].
    - rewrite (right_id_L ∅ (∪)).
      by rewrite (list_to_map_proper (owner_order _) (map_to_list (contractStorageNodes ns))), list_to_map_to_list.
    - rewrite owner_order_perm. apply Forall_forall. intros [o m] Hin%elem_of_map_to_list. by apply (Hcs o m). }
  rewrite E. by split.
Qed.

(** ** Writing the layers *)

Definition ns_fits ns : Prop := fits_nodes (mkJournalNodeSet (nodeSet_entries order owner_order ns)).

(** The node sets of the database are within the limits of the decoder. *)
Definition journal_fits s : Prop :=
  (forall l d, pd_layers s !! l = Some (Diff d) -> ns_fits (dl_nodes d)) /\
  (forall b buf, pd_buffers s !! b = Some buf -> ns_fits (bf_nodes buf)).

(** The record of a layer. *)
Definition diff_rec (d : diffLayer F) (enc : bytes) : Prop :=
  Z.of_nat (length enc) < 2 ^ 63 /\
  exists buf ns, cbor_Unmarshal enc = Some (mkDiffJournal (dl_root d) (dl_block d) buf) /\
    nodeSet_decode order owner_order buf = Ok ns /\ same_maps ns (dl_nodes d).

Definition disk_rec dk (nodes : nodeSet F) (enc : bytes) : Prop :=
  Z.of_nat (length enc) < 2 ^ 63 /\
  exists buf ns, cbor_Unmarshal enc = Some (mkDiskJournal (dk_root dk) (dk_id dk) buf) /\
    nodeSet_decode order owner_order buf = Ok ns /\ same_maps ns nodes.

(** The journal of a chain, the oldest layer first. *)
Definition journal_of ds dk (nodes : nodeSet F) (w : bytes) : Prop :=
  exists ek es, w = framed diskJournal ek ++ concat (framed diffJournal <$> es) /\
    disk_rec dk nodes ek /\ Forall2 (fun x e => diff_rec x.2 e) (reverse ds) es.

Lemma wp_layer_journal fuel s ds lk dk V buf :
  chain_ok leaf_at s ds lk dk V -> journal_fits s -> pd_buffers s !! dk_dirties dk = Some buf ->
  (length ds < fuel)%nat ->
  wp (layer_journal order owner_order fuel (top ds lk) []) (fun w s' => s' = s /\ journal_of ds dk (bf_nodes buf) w) s.
Proof.
  intros Hc Hfit Hbuf. revert ds Hc. induction fuel as [|fuel IH]; intros ds Hc Hf; [lia|].
  cbn [layer_journal]. wp_step. eapply wp_get_layer; [by eapply top_layer|].
  destruct ds as [|[l d] ds].
  - rewrite (co_live _ _ _ _ _ _ Hc). wp_step. eapply wp_get_buffer; [done|].
    destruct (co_store _ _ _ _ _ _ Hc) as (buf' & ? & ? & _ & Hbuf' & _ & _ & Hns & _). rewrite Hbuf in Hbuf'. injection Hbuf' as <-.
    destruct (nodeSet_roundtrip (bf_nodes buf)) as (b & ns & E1 & E2 & E3); [done|by apply (proj2 Hfit (dk_dirties dk))|].
    rewrite E1. cbn [lift_cbor]. wp_step. wp_step.
    destruct (cbor_roundtrip (mkDiskJournal (dk_root dk) (dk_id dk) b) I) as (e & D1 & D2 & D3). rewrite D1. cbn [lift_cbor].
    wp_step. wp_step. wp_step. split; [done|]. exists e, []. rewrite app_nil_r. split_and!; [done| |constructor].
    split; [done|]. by exists b, ns.
  - pose proof (co_linked _ _ _ _ _ _ Hc) as (El & Ep & _). pose proof (co_nodes _ _ _ _ _ _ Hc) as Hns.
    apply Forall_cons in Hns as [Hns _]. apply chain_ok_tail in Hc. wp_step. rewrite Ep.
    eapply wp_mono; [apply IH; [done|simpl in Hf; lia]|]. intros w s' [-> (ek & es & -> & Hk & He)].
    destruct (nodeSet_roundtrip (dl_nodes d)) as (b & ns & E1 & E2 & E3); [done|by apply (proj1 Hfit l)|].
    rewrite E1. cbn [lift_cbor]. wp_step. wp_step.
    destruct (cbor_roundtrip (mkDiffJournal (dl_root d) (dl_block d) b) I) as (e & D1 & D2 & D3). rewrite D1. cbn [lift_cbor].
    wp_step. wp_step. wp_step. split; [done|]. exists ek, (es ++ [e]).
    rewrite fmap_app, concat_app. cbn [fmap list_fmap concat]. rewrite app_nil_r, app_assoc. split_and!; [done|done|].
    rewrite reverse_cons. apply Forall2_app; [done|]. constructor; [|constructor]. split; [done|]. by exists b, ns.
Qed.

(** ** Reading the layers *)

Lemma length_framed t e : length (framed t e) = (9 + length e)%nat.
Proof. unfold framed. rewrite !length_app, length_be_bytes. simpl. lia. Qed.

(** One record is taken from the journal. *)
Lemma wp_loadLayers_step fuel t e rest hd (Q : option nat -> pdb -> Prop) s :
  Z.of_nat (length e) < 2 ^ 63 ->
  wp (l ← (if t =? diffJournal then load_diff order owner_order e hd
           else if t =? diskJournal then load_disk order owner_order e
           else fail (ErrJournalType t));
      loadLayers order owner_order fuel rest (Some l)) Q s ->
  wp (loadLayers order owner_order (S fuel) (framed t e ++ rest) hd) Q s.
Proof.
  intros He HQ. set (enc := framed t e ++ rest).
  assert (Hlen : length enc = (9 + length e + length rest)%nat) by (unfold enc; rewrite length_app, length_framed; lia).
  assert (Hval : be_val (take 8 (drop 1 enc)) = Z.of_nat (length e)).
  { unfold enc, framed. cbn [app drop]. rewrite drop_0, <- app_assoc, take_app_length' by (by rewrite length_be_bytes).
    rewrite be_val_bytes. apply Z.mod_small. change (256 ^ Z.of_nat 8) with (2 ^ 64). lia. }
  assert (H9 : drop 9 enc = e ++ rest).
  { unfold enc, framed. rewrite <- !app_assoc. change (drop 9 ([t] ++ ?x)) with (drop 8 x).
    by rewrite drop_app_length' by (by rewrite length_be_bytes). }
  assert (Ht : head enc = Some t) by done. clearbody enc.
  destruct enc as [|x enc']; [done|]. injection Ht as ->. cbn [loadLayers].
  rewrite Hval, Hlen. unfold layerMetadataSize.
  replace (Z.of_nat (9 + length e + length rest) <? 9) with false by (symmetry; apply Z.ltb_ge; lia).
  rewrite i64_small by lia.
  replace (Z.of_nat (9 + length e + length rest) <? Z.of_nat (length e)) with false by (symmetry; apply Z.ltb_ge; lia).
  rewrite u64_small by lia.
  replace (9 + Z.of_nat (length e) <? 9) with false by (symmetry; apply Z.ltb_ge; lia).
  replace (Z.of_nat (9 + length e + length rest) <? 9 + Z.of_nat (length e)) with false by (symmetry; apply Z.ltb_ge; lia).
  cbn [orb]. cbv iota. rewrite H9, Nat2Z.id, take_app_length.
  replace (drop (Z.to_nat (9 + Z.of_nat (length e))) (t :: enc')) with rest; [exact HQ|].
  replace (Z.to_nat (9 + Z.of_nat (length e))) with (9 + length e)%nat by lia.
  rewrite <- drop_drop, H9. by rewrite drop_app_length.
Qed.

(** The same layers, up to their names. *)
Definition same_layers ds ds' : Prop :=
  Forall2 (fun x y => dl_root x.2 = dl_root y.2 /\ same_maps (dl_nodes x.2) (dl_nodes y.2)) ds ds'.

Lemma same_layers_refl ds : same_layers ds ds.
Proof. induction ds; by constructor. Qed.

Lemma same_layers_trans ds1 ds2 ds3 : same_layers ds1 ds2 -> same_layers ds2 ds3 -> same_layers ds1 ds3.
Proof.
  intros H. revert ds3. induction H as [|x y a b [E1 E2] _ IH]; intros c Hc; inversion Hc as [|? z ? c' [E3 E4] Hc']; subst;
    constructor; [|by apply IH].
  split; [congruence|]. destruct E2 as (? & ? & ?), E4 as (? & ? & ?). split_and!; congruence.
Qed.

Lemma chain_view_same ds ds' V : same_layers ds ds' -> view_eq (chain_view ds V) (chain_view ds' V).
Proof.
  induction 1 as [|[l d] [l' d'] ds ds' [_ E] _ IH]; [done|]. cbn [chain_view].
  rewrite (over_same _ _ _ E). by apply over_proper.
Qed.

Lemma hist_of_same ds ds' dk dk' V V' :
  same_layers ds ds' -> dk_root dk = dk_root dk' -> view_eq V V' -> hist_eq (hist_of ds dk V) (hist_of ds' dk' V').
Proof.
  intros Hs Er EV. apply (hist_eq_trans _ (hist_of ds' dk' V)).
  - unfold hist_of. apply Forall2_app; [|constructor; [by split|constructor]].
    induction Hs as [|[l d] [l' d'] ds ds' [E1 E2] Hs IH]; [constructor|]. cbn [hist_pre].
    constructor; [|done]. split; [done|]. apply (chain_view_same ((l, d) :: ds) ((l', d') :: ds')). by constructor.
  - unfold hist_of. apply Forall2_app; [by apply hist_pre_eq|]. constructor; [by split|constructor].
Qed.

Lemma same_layers_roots ds ds' lk lk' dk dk' :
  same_layers ds ds' -> dk_root dk = dk_root dk' -> (tree_list ds lk dk).*1 = (tree_list ds' lk' dk').*1.
Proof.
  intros Hs Er. unfold tree_list, tree_pre. rewrite !fmap_app. f_equal; [|cbn; by f_equal].
  induction Hs as [|x y ds ds' [E _] _ IH]; [done|]. rewrite !fmap_cons. f_equal; done.
Qed.

Lemma wp_load_diff s ds lk dk V (d : diffLayer F) e :
  chain_ok leaf_at s ds lk dk V -> diff_rec d e -> ns_ok leaf_at (dl_nodes d) ->
  wp (load_diff order owner_order e (Some (top ds lk)))
    (fun l s' => exists d', chain_ok leaf_at s' ((l, d') :: ds) lk dk V /\
       dl_root d' = dl_root d /\ same_maps (dl_nodes d') (dl_nodes d)) s.
Proof.
  intros Hc (_ & buf & ns & E1 & E2 & E3) Hns. unfold load_diff. rewrite E1. cbn [lift_cbor]. wp_step. wp_step.
  cbn [fj_Root fj_Block fj_EncNodeset]. wp_step. eapply wp_lift; [done|]. wp_step. eapply wp_deref; [done|]. wp_step.
  eapply wp_get_layer; [by eapply top_layer|]. rewrite top_stateID. unfold new_layer. wp_step. wp_step. wp_step.
  eapply wp_intro; [done|]. wp_step. eexists. split.
  - apply chain_ok_push; [done|by apply (same_maps_ok ns (dl_nodes d))|done|done].
  - by split.
Qed.

Lemma wp_loadLayers fuel us es s ds lk dk V :
  Forall2 (fun x e => diff_rec x.2 e) us es -> Forall (fun x => ns_ok leaf_at (dl_nodes x.2)) us ->
  chain_ok leaf_at s ds lk dk V -> (length es <= fuel)%nat ->
  wp (loadLayers order owner_order fuel (concat (framed diffJournal <$> es)) (Some (top ds lk)))
    (fun r s' => exists ds', r = Some (top ds' lk) /\ chain_ok leaf_at s' ds' lk dk V /\ same_layers ds' (reverse us ++ ds)) s.
Proof.
  revert fuel s ds. intros fuel s ds Hrec. revert fuel s ds.
  induction Hrec as [|[l0 d] e us es He Hrec IH]; intros fuel s ds Hns Hc Hf.
  { destruct fuel; cbn [fmap list_fmap concat loadLayers]; wp_step; exists ds; (split_and!; [done|done|apply same_layers_refl]). }
  destruct fuel as [|fuel]; [simpl in Hf; lia|]. apply Forall_cons in Hns as [Hn Hns]. cbn [fst snd] in *.
  rewrite fmap_cons. cbn [concat]. apply wp_loadLayers_step; [apply He|].
  change (diffJournal =? diffJournal) with true. cbv iota. wp_step.
  eapply wp_mono; [by eapply wp_load_diff|]. intros l s1 (d' & Hc1 & Er & Em).
  eapply wp_mono; [apply (IH fuel s1 ((l, d') :: ds)); [done|done|simpl in Hf; lia]|].
  intros r s2 (ds' & -> & Hc2 & Hs). exists ds'. split_and!; [done|done|]. rewrite reverse_cons, <- app_assoc.
  assert (Hcons : same_layers (reverse us ++ (l, d') :: ds) (reverse us ++ [(l0, d)] ++ ds)).
  { apply Forall2_app; [apply same_layers_refl|]. constructor; [by split|apply same_layers_refl]. }
  by eapply same_layers_trans.
Qed.

(** A disk layer with a buffer and a cache of its own. *)
Lemma wp_fresh_disk s (root : F) sid (nodes : option (nodeSet F)) layers latest :
  kv_open (pd_disk s) -> persisted (kv_map (pd_disk s)) = Ok latest -> u64 (latest + layers) = sid ->
  CleanCacheSize (pd_config s) <= 2 ^ 63 - 1 ->
  ns_ok leaf_at (default (newNodeSet order owner_order ∅ ∅ ∅) nodes) ->
  wp (fresh_disk order owner_order root sid nodes layers)
    (fun l s' => exists dk, dk_root dk = root /\
       chain_ok leaf_at s' [] l dk (over (ns_at (default (newNodeSet order owner_order ∅ ∅ ∅) nodes)) (disk_view leaf_at (kv_map (pd_disk s))))) s.
Proof.
  intros Hd Hp Hid Hcfg Hns. unfold fresh_disk, new_buffer, new_cache, new_layer. wp_step. wp_step.
  wp_step. wp_step. wp_step. wp_step. eapply wp_intro; [done|]. wp_step.
  wp_step. wp_step. wp_step. unfold newCleanCache. cbn [pd_config set_buffers].
  replace (2 ^ 63 - 1 <? CleanCacheSize (pd_config s)) with false by (symmetry; apply Z.ltb_ge; lia).
  wp_step. eapply wp_intro; [done|]. wp_step. wp_step. wp_step. wp_step. eapply wp_intro; [done|]. wp_step.
  cbn [pd_layers pd_buffers pd_caches pd_disk set_layers set_buffers set_caches].
  set (b := length (pd_buffers s)). set (c := length (pd_caches s)).
  exists (newDiskLayer root sid c b). split; [done|]. split; cbn [pd_layers set_layers]; [done| |done| |constructor|done|constructor].
  - rewrite lookup_app_r by done. by rewrite Nat.sub_diag.
  - eexists _, _, latest. cbn [pd_disk pd_buffers pd_caches set_layers set_buffers set_caches dk_dirties dk_cleans newDiskLayer].
    split_and!; [done| | | | |done| |].
    + unfold b. rewrite lookup_app_r by done. by rewrite Nat.sub_diag.
    + unfold c. rewrite lookup_app_r by done. by rewrite Nat.sub_diag.
    + intros id p v _. unfold getNode. by rewrite fc_New_spec.
    + done.
    + done.
    + done.
Qed.

(** ** The tree of a loaded database *)

Lemma wp_reset_loop fuel s ds lk dk V (t : gmap F nat) :
  chain_ok leaf_at s ds lk dk V -> NoDup (tree_list ds lk dk).*1 ->
  (forall r, r ∈ (tree_list ds lk dk).*1 -> t !! r = None) -> (length ds < fuel)%nat ->
  wp (reset_loop fuel (Some (top ds lk)) t)
    (fun t' s' => s' = s /\ t' = list_to_map (tree_list ds lk dk) ∪ t) s.
Proof.
  revert ds t. induction fuel as [|fuel IH]; intros ds t Hc Hd Ht Hf; [lia|].
  cbn [reset_loop]. wp_step. eapply wp_get_layer; [by eapply top_layer|].
  destruct ds as [|[l d] ds]; cbn [parentLayer rootHash].
  - destruct fuel; cbn [reset_loop]; wp_step; (split; [done|]); cbn; by rewrite insert_union_singleton_l.
  - pose proof (co_linked _ _ _ _ _ _ Hc) as (_ & Ep & _). rewrite Ep. apply chain_ok_tail in Hc.
    cbn [tree_list tree_pre fmap list_fmap app fst snd] in Hd, Ht |- *. apply NoDup_cons in Hd as [Hni Hd].
    eapply wp_mono; [apply IH; [done|done| |simpl in Hf; lia]|].
    + intros r Hr. rewrite lookup_insert_ne; [apply Ht; by constructor|]. by intros <-.
    + intros t' s' [-> ->]. split; [done|]. cbn [list_to_map foldr uncurry fst snd].
      rewrite <- insert_union_l, insert_union_r; [done|]. by apply not_elem_of_list_to_map_1.
Qed.

(** The database that a successful load of layers gives. *)
Lemma New_opened (disk : memory.Database) config h :
  wp (loadJournal order owner_order Pedersen PoseidonElems)
    (fun r s' => exists ds lk dk V, r = Some (top ds lk) /\ chain_ok leaf_at s' ds lk dk V /\
       NoDup (tree_list ds lk dk).*1 /\ (length ds <= 128)%nat /\ hist_eq h (hist_of ds dk V))
    (mkPathDB disk ∅ config [] [] []) ->
  exists s', path_New order owner_order Pedersen PoseidonElems disk (Some config) = Ok s' /\ path_inv (C:=C) leaf_at s' h.
Proof.
  intros Hload.
  assert (Hw : wp (head ← loadJournal order owner_order Pedersen PoseidonElems; newLayerTree head)
    (fun _ s' => path_inv (C:=C) leaf_at s' h) (mkPathDB disk ∅ config [] [] [])).
  { wp_step. eapply wp_mono; [exact Hload|]. intros r s' (ds & lk & dk & V & -> & Hc & Hd & Hl & Hh).
    unfold newLayerTree, layerTree_reset. wp_step. wp_step. wp_step.
    eapply wp_mono; [eapply wp_reset_loop; [done|done|done|by eapply chain_fuel_enough]|].
    intros t' s'' [-> ->]. apply wp_modify. exists ds, lk, dk, V. split; [|done].
    split; [by destruct Hc; split|cbn; by rewrite (right_id_L ∅ (∪))|done|done]. }
  apply wp_elim in Hw as ([] & s' & E & Hinv). exists s'. split; [|done]. unfold path_New. cbv zeta.
  change (default _ (Some config)) with config. by rewrite E.
Qed.

(** The journal on the disk is loaded. *)
Lemma wp_loadJournal (disk : memory.Database) config ds dk nodes w enc latest :
  kv_open disk -> kv_map disk !! Bucket_Key trieJournal [] = Some enc ->
  cbor_Unmarshal enc = Some (mkDBJournal journalVersion w) -> journal_of ds dk nodes w ->
  ns_ok leaf_at nodes -> Forall (fun x => ns_ok leaf_at (dl_nodes x.2)) ds ->
  persisted (kv_map disk) = Ok latest -> is_u64 (dk_id dk) -> CleanCacheSize config <= 2 ^ 63 - 1 ->
  wp (loadJournal order owner_order Pedersen PoseidonElems)
    (fun r (s' : pdb) => exists ds' lk' dk', r = Some (top ds' lk') /\
       chain_ok leaf_at s' ds' lk' dk' (over (ns_at nodes) (disk_view leaf_at (kv_map disk))) /\
       same_layers ds' ds /\ dk_root dk' = dk_root dk) (mkPathDB disk ∅ config [] [] []).
Proof.
  intros Hd Hj Henc (ek & es & -> & (Hlen & buf & ns & D1 & D2 & D3) & Hes) Hns Hds Hp Hid Hcfg.
  unfold loadJournal. wp_step. wp_step. cbn [pd_disk]. unfold ReadTrieJournal. rewrite (kv_get_spec disk _ Hd), Hj.
  wp_step. rewrite Henc. cbn [lift_cbor]. wp_step. cbn [bj_Version bj_EncLayers]. rewrite Z.eqb_refl. cbn [negb].
  set (all := framed diskJournal ek ++ _).
  assert (Hfuel : exists f, length all = S f /\ (length es <= f)%nat).
  { unfold all. rewrite length_app, length_framed. exists (8 + length ek + length (concat (framed diffJournal <$> es)))%nat.
    split; [lia|]. assert (length es <= length (concat (framed diffJournal <$> es)))%nat; [|lia].
    clear. induction es as [|e es IH]; [done|]. rewrite fmap_cons. cbn [concat length]. rewrite length_app, length_framed. lia. }
  destruct Hfuel as (f & -> & Hf). unfold all. apply wp_loadLayers_step; [done|].
  change (diskJournal =? diffJournal) with false. change (diskJournal =? diskJournal) with true. cbv iota.
  wp_step. unfold load_disk. rewrite D1. cbn [lift_cbor]. wp_step. wp_step. wp_step. wp_step. wp_step.
  cbn [pd_disk kj_ID kj_Root kj_EncNodeset]. rewrite latestPersisted_spec, Hp by done. cbn [lift_db]. wp_step. wp_step.
  eapply wp_lift; [done|].
  eapply wp_mono; [apply (wp_fresh_disk _ _ _ (Some ns) _ latest); try done|].
  { unfold u64. rewrite Zplus_mod_idemp_r. replace (latest + (dk_id dk - latest)) with (dk_id dk) by lia. by apply Z.mod_small. }
  { by eapply same_maps_ok. }
  intros l s1 (dk1 & Hr1 & Hc1). cbn [pd_disk default] in Hc1.
  eapply wp_mono; [apply (wp_loadLayers f (reverse ds) es s1 [] l dk1); [done|by apply Forall_reverse|exact Hc1|done]|].
  intros r s2 (ds' & -> & Hc2 & Hs). rewrite reverse_involutive, app_nil_r in Hs. exists ds', l, dk1.
  split_and!; [done| |done|done]. destruct Hc2 as [H1 H2 H3 H4 H5 H6 H7]. split; try done.
  eapply store_ok_eq; [|exact H4]. symmetry. by apply over_same.
Qed.

(** The journal of the layer at a root is written to the disk. *)
Lemma wp_path_Journal s ds1 ds2 lk dk V root :
  layers_ok leaf_at s (ds1 ++ ds2) lk dk V -> pd_tree s !! root = Some (top ds2 lk) -> journal_fits s ->
  wp (path_Journal order owner_order root)
    (fun _ s' => exists buf w enc latest, kv_open (pd_disk s') /\ pd_config s' = pd_config s /\
       kv_map (pd_disk s') !! Bucket_Key trieJournal [] = Some enc /\
       cbor_Unmarshal enc = Some (mkDBJournal journalVersion w) /\ journal_of ds2 dk (bf_nodes buf) w /\
       ns_ok leaf_at (bf_nodes buf) /\ persisted (kv_map (pd_disk s')) = Ok latest /\ is_u64 (dk_id dk) /\
       view_eq V (over (ns_at (bf_nodes buf)) (disk_view leaf_at (kv_map (pd_disk s'))))) s.
Proof.
  intros [Hc _ _ _] Ht Hfit. apply chain_ok_drop in Hc.
  pose proof (co_store _ _ _ _ _ _ Hc) as (buf & cache & latest & Hd & Hbuf & _ & _ & Hns & Hl & Hid & HV).
  unfold path_Journal. wp_step. apply wp_layerTree_get. rewrite Ht. wp_step. wp_step. wp_step.
  eapply wp_mono; [by eapply wp_layer_journal; [done|done|done|eapply chain_fuel_enough]|].
  intros w s' [-> Hw]. destruct (cbor_roundtrip (mkDBJournal journalVersion w) I) as (enc & E1 & E2 & _).
  rewrite E1. cbn [lift_cbor]. wp_step. wp_step. eapply wp_mono; [apply wp_on_kv, kv_put_spec, Hd|].
  intros [] s' [[Hd' Hm'] Es']. exists buf, w, enc, latest. rewrite Hm'.
  assert (Hbk : book_key trieJournal [] (Bucket_Key trieJournal [])) by (split; auto).
  split_and!; try done.
  - by rewrite Es'.
  - apply lookup_insert_eq.
  - by erewrite persisted_book.
  - rewrite <- Hid. apply u64_range.
  - rewrite <- Hid. apply u64_range.
  - rewrite HV. apply over_proper. symmetry. by eapply book_disk_view.
Qed.

(** C15: a path database that writes its journal and is opened again has the
    versions it had: the one the journal was written for and all older ones, with
    the same nodes, the buffered ones included.  The version of every layer is
    encoded, framed and decoded again; nothing is lost as long as no node set
    has more entries than the decoder accepts. *)
Theorem journal_reopens s h root :
  path_inv leaf_at s h -> hist_from h root ≠ [] -> journal_fits s -> CleanCacheSize (pd_config s) <= 2 ^ 63 - 1 ->
  exists s1 s2, path_Journal order owner_order root s = (Ok tt, s1) /\
    path_New order owner_order Pedersen PoseidonElems (pd_disk s1) (Some (pd_config s1)) = Ok s2 /\
    path_inv (C:=C) leaf_at s2 (hist_from h root).
Proof.
  intros (ds & lk & dk & V & Hlo & Hh) Hne Hfit Hcfg. pose proof Hlo as [Hc Ht Hroots Hdepth].
  pose proof (locate ds lk dk V root Hroots) as Hloc. rewrite <- Ht in Hloc. apply (hist_from_eq _ _ root) in Hh.
  destruct (hist_from (hist_of ds dk V) root) as [|x h2] eqn:Ehf; [by inversion Hh as [E|]; subst|].
  destruct Hloc as (ds1 & ds2 & -> & Eh & _ & Etop).
  destruct (wp_elim _ _ _ (wp_path_Journal s ds1 ds2 lk dk V root Hlo Etop Hfit))
    as ([] & s1 & Ej & buf & w & enc & latest & Hd & Hcf & Hj & Henc & Hw & Hns & Hp & Hid & HV).
  exists s1. apply chain_ok_drop in Hc as Hc2.
  destruct (New_opened (pd_disk s1) (pd_config s1) (hist_from h root)) as (s2 & E2 & Hinv).
  - eapply wp_mono; [eapply (wp_loadJournal _ _ ds2 dk); try done|].
    + apply Hc2.
    + by rewrite Hcf.
    + intros r s2 (ds' & lk' & dk' & -> & Hc' & Hs & Hr). eexists ds', lk', dk', _. split_and!; [done|exact Hc'| | |].
      * rewrite (same_layers_roots ds' ds2 lk' lk dk' dk Hs Hr). unfold tree_list in *.
        rewrite tree_pre_app, <- app_assoc, fmap_app in Hroots. by apply NoDup_app in Hroots as (_ & _ & ?).
      * rewrite (Forall2_length _ _ _ Hs). rewrite length_app in Hdepth. lia.
      * eapply hist_eq_trans; [exact Hh|]. rewrite Eh. apply hist_of_same; [|done|done].
        clear -Hs. induction Hs as [|x y a b [E1 (E2 & E3 & E4)] _ IH]; constructor; [|done]. split; [done|]. by split_and!.
  - by exists s2.
Qed.

(** Without a journal the disk layer alone is made. *)
Lemma wp_loadJournal_fresh (disk : memory.Database) config latest root :
  kv_open disk -> kv_map disk !! Bucket_Key trieJournal [] = None -> persisted (kv_map disk) = Ok latest ->
  is_u64 latest -> CleanCacheSize config <= 2 ^ 63 - 1 -> getStateRoot Pedersen PoseidonElems disk = Ok root ->
  wp (loadJournal order owner_order Pedersen PoseidonElems)
    (fun r (s' : pdb) => exists ds lk dk V, r = Some (top ds lk) /\ chain_ok leaf_at s' ds lk dk V /\
       NoDup (tree_list ds lk dk).*1 /\ (length ds <= 128)%nat /\
       hist_eq [(root, disk_view leaf_at (kv_map disk))] (hist_of ds dk V))
    (mkPathDB disk ∅ config [] [] []).
Proof.
  intros Hd Hj Hp Hid Hcfg Hroot. unfold loadJournal. wp_step. wp_step. cbn [pd_disk].
  unfold ReadTrieJournal. rewrite (kv_get_spec disk _ Hd), Hj. wp_step. rewrite latestPersisted_spec, Hp by done.
  cbn [lift_db]. wp_step. wp_step. rewrite Hroot. eapply wp_lift; [done|]. wp_step.
  eapply wp_mono; [apply (wp_fresh_disk _ _ _ None 0 latest); try done|].
  { rewrite Z.add_0_r. by apply u64_small. }
  intros l s' (dk & Hr & Hc). wp_step. eexists [], l, dk, _. split_and!; [done|exact Hc| |simpl; lia|].
  - apply NoDup_singleton.
  - constructor; [|constructor]. split; [by rewrite Hr|]. cbn [snd]. symmetry. intros id p H. unfold over, ns_at, nodeSet_node.
    cbn. destruct (isClassID id); [by rewrite lookup_empty|]. destruct (felt_IsZero (id_Owner id)); by rewrite lookup_empty.
Qed.

(** Without a journal the database has one version, the nodes that are on
    the disk, under the root that is computed from the root nodes of the two
    tries. *)
Theorem opened_without_journal (disk : memory.Database) config latest root :
  kv_open disk -> kv_map disk !! Bucket_Key trieJournal [] = None -> persisted (kv_map disk) = Ok latest ->
  is_u64 latest -> CleanCacheSize config <= 2 ^ 63 - 1 -> getStateRoot Pedersen PoseidonElems disk = Ok root ->
  exists s, path_New order owner_order Pedersen PoseidonElems disk (Some config) = Ok s /\
    path_inv (C:=C) leaf_at s [(root, disk_view leaf_at (kv_map disk))].
Proof. intros. apply New_opened. by apply wp_loadJournal_fresh with latest. Qed.

End journal.

(** * The root of a path database that is opened without a journal

    [getStateRoot] of [src/core/trie2/triedb/pathdb/journal.go] against the
    tries that are on the disk. *)

Section root.
Context {F : Type} `{!FieldElement F} `{!FieldElementLaws F}.
Variable Pedersen : F -> F -> F.
Variable Poseidon : F -> F -> F.
Variable PoseidonElems : list F -> F.

(** The hash [hf] at the root of a tree that is hashed with [hf'] below it. *)
Definition root_with (hf hf' : F -> F -> F) (t : stree F) : F :=
  match t with
  | SLeaf v => v
  | SBin l r => hf (shash hf' l) (shash hf' r)
  | SEdge p c =>
      felt_Add (hf (shash hf' c) (to_felt (path_of p))) (felt_SetBytes (be_bytes 32 (Z.of_nat (length p))))
  end.

Lemma root_with_same hf t : root_with hf hf t = shash hf t.
Proof. by destruct t. Qed.

Lemma Hash_ref_at hf n ht (x : F) : Hash hf (ref_at ht n x) = Ok x.
Proof. unfold ref_at. by destruct (decide _). Qed.

(** The root node of a stored trie is decoded and hashed with Pedersen. *)
Lemma root_hash_blob hf t : canon 251 t -> root_hash Pedersen (node_blob hf t) = Ok (Some (root_with Pedersen hf t)).
Proof.
  intros Hc. unfold root_hash, contractClassTrieHeight. change 251 with (Z.of_nat 251). change 0 with (Z.of_nat 0).
  destruct t as [v|l r|p c].
  - by destruct Hc.
  - rewrite decode_binary by lia. cbn [Hash]. by rewrite !Hash_ref_at.
  - destruct Hc as (Hp & _ & h & Eh & _). rewrite decode_edge by (done || lia). cbn [Hash]. by rewrite Hash_ref_at.
Qed.

Lemma root_blob_holds hf (d : memory.Database) b t :
  kv_open d -> canon 251 t -> db_holds hf (kv_map d) b felt_Zero (Some t) -> root_blob d b = Some (node_blob hf t).
Proof.
  intros Hd Hc Hh. unfold root_blob, GetNodeByPath. rewrite (kv_get_spec d _ Hd), empty_path, Hh by (simpl; lia).
  unfold osnode. simpl. rewrite snode_nil. simpl. unfold node_entry.
  by rewrite (canon_leaf_iff _ _ Hc), bool_decide_false by lia.
Qed.

Lemma getStateRoot_holds (d : memory.Database) tc tk :
  kv_open d -> canon 251 tc -> canon 251 tk ->
  db_holds Pedersen (kv_map d) contractTrieContract felt_Zero (Some tc) ->
  db_holds Poseidon (kv_map d) classTrie felt_Zero (Some tk) ->
  getStateRoot Pedersen PoseidonElems d =
    Ok (PoseidonElems [stateVersion; shash Pedersen tc; root_with Pedersen Poseidon tk]).
Proof.
  intros Hd Hc Hk H1 H2. unfold getStateRoot.
  rewrite (root_blob_holds _ _ _ _ Hd Hc H1), (root_blob_holds _ _ _ _ Hd Hk H2).
  unfold mbind, outcome_bind. rewrite !root_hash_blob by done. by rewrite root_with_same.
Qed.

(** The commitment of a state with a contract trie, hashed with Pedersen, and a
    class trie, hashed with Poseidon. *)
Definition commitment (tc tk : stree F) : F :=
  PoseidonElems [stateVersion; shash Pedersen tc; shash Poseidon tk].

Context {C : Type} `{!FastCache C} `{!FastCacheLaws C}.
Context `{!Cbor (JournalNodeSet F)} `{!Cbor (DiffJournal F)} `{!Cbor (DiskJournal F)} `{!Cbor DBJournal}.
Variable order : gmap BitArray (TrieNode F) -> list (BitArray * TrieNode F).
Variable owner_order : gmap F (gmap BitArray (TrieNode F)) -> list (F * gmap BitArray (TrieNode F)).

(** a path database that is opened without a journal does not find the
    state that is on its disk.  The disk holds the contract trie and the class
    trie of a state, which are hashed with Pedersen and with Poseidon; the root
    that [New] gives to the disk layer is computed with Pedersen for both tries,
    so that it is not the commitment of the state, and a reader for the state is
    refused. *)
Theorem reopened_state_not_found (disk : memory.Database) config latest tc tk (id : TrieID F) :
  kv_open disk -> kv_map disk !! Bucket_Key trieJournal [] = None -> persisted (kv_map disk) = Ok latest ->
  is_u64 latest -> CleanCacheSize config <= 2 ^ 63 - 1 -> canon 251 tc -> canon 251 tk ->
  db_holds Pedersen (kv_map disk) contractTrieContract felt_Zero (Some tc) ->
  db_holds Poseidon (kv_map disk) classTrie felt_Zero (Some tk) ->
  (forall c x y, PoseidonElems [stateVersion; c; x] = PoseidonElems [stateVersion; c; y] -> x = y) ->
  root_with Pedersen Poseidon tk ≠ shash Poseidon tk ->
  StateComm id = commitment tc tk ->
  exists s : pathDB F C,
    path_New order owner_order Pedersen PoseidonElems disk (Some config) = Ok s /\
    path_NodeReader id s = (Err ErrLayerNotFound, s).
Proof.
  intros Hd Hj Hp Hl Hcfg Hc Hk H1 H2 Hinj Hne Hid.
  destruct (New_opened (C:=C) order owner_order Pedersen PoseidonElems (fun _ => false) disk config
    [(PoseidonElems [stateVersion; shash Pedersen tc; root_with Pedersen Poseidon tk], disk_view (fun _ => false) (kv_map disk))])
    as (s & E & ds & lk & dk & V & [_ Ht Hd' _] & Hh).
  { apply wp_loadJournal_fresh with latest; try done. by rewrite (getStateRoot_holds disk tc tk). }
  exists s. split; [done|]. unfold path_NodeReader, layerTree_get, gets, mbind, SE_bind. rewrite Hid, Ht.
  assert (Hn : commitment tc tk ∉ (tree_list ds lk dk).*1).
  { rewrite <- (hist_roots _ _ V), <- (hist_eq_roots _ _ Hh). cbn. rewrite list_elem_of_singleton. by intros E'%Hinj. }
  by rewrite not_elem_of_list_to_map_1.
Qed.

End root.
