(* ===== verification/PathWitness.v ===== *)
(** * The path database on concrete inputs

    Implementations of the libraries the database uses, the theorems at small
    databases, and a fork whose layers become unreadable. *)
From stdpp Require Import prelude gmap list.
From Stdlib Require Import ZArith Lia.
From S2P Require Import Prelude Felt BitArray BitArrayFacts TrieNode Trie TrieSpec TrieTrace TrieRep.
From S2P Require Import MemDB MemDBFacts TrieDB TrieDBFacts TrieCommit PathDB PathDBFacts PathTree.
From S2P Require Import PathJournal PathSpec PathJournalFacts.

Local Open Scope Z_scope.

(** ** A cache of one entry *)

Definition one_entry : Type := option (bytes * bytes).

#[export] Instance one_cache : FastCache one_entry := {|
  fc_New _ := None;
  fc_Set k v _ := Some (k, v);
  fc_Get c k := match c with Some (k', v) => if decide (k = k') then Some v else None | None => None end;
  fc_Del k c := match c with Some (k', v) => if decide (k = k') then None else c | None => None end;
  fc_Reset _ := None;
|}.

#[export] Instance one_cache_laws : FastCacheLaws one_entry.
Proof.
  split; try done.
  - intros k v c k' w. cbn. destruct (decide (k' = k)); [by intros [= ->]|done].
  - intros k [[k' v]|] k'' w; cbn; [|done]. destruct (decide (k = k')) as [->|]; cbn; [done|].
    destruct (decide (k'' = k')) as [->|]; [|done]. intros [= ->]. by split.
Qed.

(** ** An encoder *)

#[export] Instance countable_cbor {T} `{Countable T} : Cbor T := {|
  cbor_Marshal x := Some [Z.pos (encode x)];
  cbor_Unmarshal b := match b with [Z.pos p] => decode p | _ => None end;
|}.

#[export] Instance countable_cbor_laws {T} `{Countable T} (fits : T -> Prop) : CborLaws T fits.
Proof. intros x _. exists [Z.pos (encode x)]. split_and!; [done|cbn; apply decode_encode|done]. Qed.

#[export] Instance journalNode_eq_dec : EqDecision (journalNode StarkField).
Proof. solve_decision. Defined.
#[export] Instance journalNode_countable : Countable (journalNode StarkField).
Proof.
  apply (inj_countable' (fun x => (jn_Path x, jn_Blob x, jn_Hash x, jn_IsLeaf x))
    (fun '(a, b, c, d) => mkJournalNode a b c d)). by intros [].
Defined.
#[export] Instance journalNodes_eq_dec : EqDecision (journalNodes StarkField).
Proof. solve_decision. Defined.
#[export] Instance journalNodes_countable : Countable (journalNodes StarkField).
Proof.
  apply (inj_countable' (fun x => (js_TrieType x, js_Owner x, js_Nodes x)) (fun '(a, b, c) => mkJournalNodes a b c)).
  by intros [].
Defined.
#[export] Instance JournalNodeSet_eq_dec : EqDecision (JournalNodeSet StarkField).
Proof. solve_decision. Defined.
#[export] Instance JournalNodeSet_countable : Countable (JournalNodeSet StarkField).
Proof. apply (inj_countable' jns_Nodes mkJournalNodeSet). by intros []. Defined.
#[export] Instance DiffJournal_eq_dec : EqDecision (DiffJournal StarkField).
Proof. solve_decision. Defined.
#[export] Instance DiffJournal_countable : Countable (DiffJournal StarkField).
Proof.
  apply (inj_countable' (fun x => (fj_Root x, fj_Block x, fj_EncNodeset x)) (fun '(a, b, c) => mkDiffJournal a b c)).
  by intros [].
Defined.
#[export] Instance DiskJournal_eq_dec : EqDecision (DiskJournal StarkField).
Proof. solve_decision. Defined.
#[export] Instance DiskJournal_countable : Countable (DiskJournal StarkField).
Proof.
  apply (inj_countable' (fun x => (kj_Root x, kj_ID x, kj_EncNodeset x)) (fun '(a, b, c) => mkDiskJournal a b c)).
  by intros [].
Defined.
#[export] Instance DBJournal_eq_dec : EqDecision DBJournal.
Proof. solve_decision. Defined.
#[export] Instance DBJournal_countable : Countable DBJournal.
Proof.
  apply (inj_countable' (fun x => (bj_Version x, bj_EncLayers x)) (fun '(a, b) => mkDBJournal a b)). by intros [].
Defined.

(** ** A database with two versions *)

Definition small_config : Config := mkPathConfig 1024 1024.

(** One disk layer with an empty buffer on an empty disk. *)
Definition empty_path_db : pathDB StarkField one_entry :=
  mkPathDB memory.New {[stark 10 := 0%nat]} small_config [Disk (mkDisk (stark 10) 0 0 0 false)]
    [newBuffer map_to_list map_to_list 1024 None 0] [None].

Definition no_leaf (_ : BitArray) : bool := false.

Lemma empty_path_db_inv : path_inv no_leaf empty_path_db [(stark 10, fun _ _ => None)].
Proof.
  exists [], 0%nat, (mkDisk (stark 10) 0 0 0 false), (fun _ _ => None). split.
  - split; [|reflexivity|apply NoDup_singleton|simpl; lia].
    split; [done|done|done| |constructor|done|constructor].
    exists (newBuffer map_to_list map_to_list 1024 None 0), None, 0.
    split_and!; [by eexists|done|done| | | |done|].
    + done.
    + split_and!; try apply map_Forall_empty. apply lookup_empty.
    + reflexivity.
    + intros id p _. unfold over, ns_at, nodeSet_node. destruct (isClassID id); [cbn; by rewrite lookup_empty|].
      destruct (felt_IsZero (id_Owner id)); cbn; rewrite lookup_empty; symmetry; apply lookup_empty.
  - constructor; [by split|constructor].
Qed.

(** An update of the class trie: a node at the path of one bit. *)
Definition bit_path : BitArray := path_of [true].

Definition class_update : MergeNodeSet (F:=StarkField) :=
  mkMergeNodeSet (Add (NewNodeSet (stark 0)) bit_path (NewNonLeaf (stark 3) [1; 2])) ∅.

Definition class_id : TrieID StarkField := ClassTrieID (stark 11).

Lemma class_key : key_ok class_id bit_path.
Proof. split; [by split|]. apply path_of_spec. simpl; lia. Qed.

Lemma class_update_ok :
  maps_ok no_leaf (Flatten class_update).1 ∅ (∅ : gmap StarkField (gmap BitArray (TrieNode StarkField))).
Proof.
  split_and!; try apply map_Forall_empty; [|apply lookup_empty]. cbn [Flatten fst class_update OwnerSet Nodes Add NewNodeSet].
  apply map_Forall_insert; [apply lookup_empty|]. split; [|apply map_Forall_empty].
  split_and!; [apply class_key|done|done].
Qed.

Definition two_ops : list (path_op StarkField) :=
  [OpUpdate (stark 11) (stark 10) 1 (Some class_update) None; OpNode class_id bit_path; OpCommit (stark 11);
   OpNode class_id bit_path; OpNode (ClassTrieID (stark 10)) bit_path].

Lemma fresh_root : stark 11 ∉ [stark 10].
Proof. rewrite list_elem_of_singleton. intros E. apply (f_equal proj1_sig) in E. vm_compute in E. discriminate. Qed.

Lemma pathdb_refines_history_witness :
  exists s', run_path_ops map_to_list map_to_list map_to_list no_leaf empty_path_db two_ops =
    ([Ok None; Ok (Some [1; 2]); Ok None; Ok (Some [1; 2]); Err ErrLayerNotFound], s').
Proof.
  destruct (pathdb_refines_history map_to_list map_to_list map_to_list ltac:(done) ltac:(done) ltac:(done)
    no_leaf empty_path_db [(stark 10, fun _ _ => None)] two_ops) as (s' & E & _).
  - apply empty_path_db_inv.
  - split; [right; split_and!; [done|apply fresh_root|apply class_update_ok]|].
    split; [apply class_key|]. split; [done|]. split; [apply class_key|]. split; [|done].
    split; [by split|]. apply path_of_spec. simpl; lia.
  - exists s'. rewrite E. f_equal.
Defined.

(** Toy hash functions. *)
Definition toy_sum (x y : StarkField) : StarkField := stark (proj1_sig x + proj1_sig y + 1).
Definition toy_product (x y : StarkField) : StarkField := stark (2 * proj1_sig x + 3 * proj1_sig y + 5).
Definition toy_last (l : list StarkField) : StarkField := default (stark 0) (last l).

Lemma journal_reopens_witness :
  exists s1 s2, path_Journal map_to_list map_to_list (stark 10) empty_path_db = (Ok tt, s1) /\
    path_New map_to_list map_to_list toy_sum toy_last (pd_disk s1) (Some (pd_config s1)) = Ok s2 /\
    path_inv (C:=one_entry) no_leaf s2 [(stark 10, fun _ _ => None)].
Proof.
  destruct (journal_reopens map_to_list map_to_list ltac:(done) ltac:(done) toy_sum toy_last no_leaf
    empty_path_db [(stark 10, fun _ _ => None)] (stark 10)) as (s1 & s2 & E1 & E2 & H).
  - apply empty_path_db_inv.
  - done.
  - split.
    + intros [|l] d H; done.
    + intros [|b] buf H; [|done]. injection H as <-. split; [vm_compute; done|]. repeat constructor; vm_compute; done.
  - done.
  - by exists s1, s2.
Defined.

(** ** A disk with a contract trie and a class trie of one key *)

Section edge.
Context {F : Type} `{!FieldElement F} `{!FieldElementLaws F}.
Variables (hf : F -> F -> F) (b : innerBucket) (p : list bool) (v : F).
Hypothesis p_ok : (0 < length p <= 255)%nat.

Abbreviation key l lf := (nodeKeyByPath b felt_Zero (path_of l) lf).

Definition with_edge (m : gmap bytes bytes) : gmap bytes bytes :=
  <[key [] false := node_blob hf (SEdge p (SLeaf v))]> (<[key p true := felt_Bytes v]> m).

Lemma key_inj l lf l' lf' :
  (length l <= 255)%nat -> (length l' <= 255)%nat -> key l lf = key l' lf' -> l = l' /\ lf = lf'.
Proof.
  intros H H' E. apply nodeKeyByPath_injective in E as (_ & _ & E & ->); [|by apply path_of_spec..].
  split; [|done]. by apply path_of_inj.
Qed.

Lemma with_edge_holds m :
  (forall l lf, (length l <= 255)%nat -> m !! key l lf = None) ->
  db_holds hf (with_edge m) b felt_Zero (Some (SEdge p (SLeaf v))).
Proof.
  intros Hm l lf Hl. unfold with_edge, TrieCollect.osnode. cbn [mbind option_bind].
  destruct (decide (l = [] /\ lf = false)) as [[-> ->]|Hroot].
  { rewrite lookup_insert_eq. done. }
  rewrite lookup_insert_ne by (intros E; apply key_inj in E as [<- <-]; [by destruct Hroot|simpl; lia|done]).
  destruct (decide (l = p /\ lf = true)) as [[-> ->]|Hleaf].
  { rewrite lookup_insert_eq. destruct p as [|x p'] eqn:Ep; [simpl in p_ok; lia|]. cbn [TrieTrace.snode].
    rewrite firstn_all, bool_decide_true by done. by rewrite drop_all. }
  rewrite lookup_insert_ne by (intros E; apply key_inj in E as [<- <-]; [by destruct Hleaf|lia|done]).
  rewrite Hm by done. symmetry. destruct l as [|x l].
  { unfold node_entry. cbn. destruct lf; [done|by destruct Hroot]. }
  cbn [TrieTrace.snode]. destruct (bool_decide_reflect (take (length p) (x :: l) = p)) as [Et|]; [|done].
  destruct (drop (length p) (x :: l)) as [|y r] eqn:Er; [|done].
  assert (El : x :: l = p) by (rewrite <- (take_drop (length p) (x :: l)), Et, Er; apply app_nil_r).
  unfold node_entry. cbn. destruct lf; [by destruct Hleaf|done].
Qed.

Lemma with_edge_other m b' l lf :
  b' ≠ b -> (length l <= 255)%nat -> with_edge m !! nodeKeyByPath b' felt_Zero (path_of l) lf = m !! nodeKeyByPath b' felt_Zero (path_of l) lf.
Proof.
  intros Hb Hl. unfold with_edge.
  rewrite !lookup_insert_ne; [done|..]; intros E; apply nodeKeyByPath_injective in E as (E & _); try done;
    apply path_of_spec; simpl; lia.
Qed.

Lemma with_edge_book m k bk ks :
  book_key bk ks k -> b = contractTrieContract \/ b = classTrie -> with_edge m !! k = m !! k.
Proof.
  intros Hk Hb. unfold with_edge.
  assert (Hne : forall l lf, key l lf ≠ k).
  { intros l lf E. destruct Hk as [-> Hk]. injection E as E _. apply bucket_byte_inj in E. naive_solver. }
  by rewrite !lookup_insert_ne.
Qed.

End edge.

Lemma db_holds_other {F} `{!FieldElement F} hf hf' b b' (p : list bool) (v : F) m ot :
  b' ≠ b -> (0 < length p <= 255)%nat -> FieldElementLaws F ->
  db_holds hf m b' felt_Zero ot -> db_holds hf (with_edge hf' b p v m) b' felt_Zero ot.
Proof. intros Hb Hp HL Hh l lf Hl. rewrite with_edge_other by done. by apply Hh. Qed.

(** The path of the only key: 251 bits. *)
Definition long_path : list bool := replicate 251 true.

Lemma long_path_ok : (0 < length long_path <= 255)%nat.
Proof. unfold long_path. rewrite length_replicate. lia. Qed.

Definition long_tree : stree StarkField := SEdge long_path (SLeaf (stark 7)).

Lemma long_tree_canon : canon 251 long_tree.
Proof.
  split; [done|]. split; [done|]. exists 0%nat. split; [reflexivity|].
  split; [done|]. intros E. apply (f_equal proj1_sig) in E. vm_compute in E. discriminate.
Qed.

Definition state_map : gmap bytes bytes :=
  with_edge toy_product classTrie long_path (stark 7) (with_edge toy_sum contractTrieContract long_path (stark 7) ∅).

Definition state_disk : memory.Database := memory.set_db memory.New state_map.

Lemma state_disk_holds :
  db_holds toy_sum (kv_map state_disk) contractTrieContract felt_Zero (Some long_tree) /\
  db_holds toy_product (kv_map state_disk) classTrie felt_Zero (Some long_tree).
Proof.
  pose proof long_path_ok as Hp.
  change (kv_map state_disk) with state_map. unfold state_map. split.
  - apply db_holds_other; [done|done|apply _|]. apply with_edge_holds; [done|]. intros. apply lookup_empty.
  - apply with_edge_holds; [done|]. intros l lf Hl. rewrite with_edge_other by done. apply lookup_empty.
Qed.

Lemma state_disk_book bk ks k : book_key bk ks k -> kv_map state_disk !! k = None.
Proof.
  intros Hk. change (state_map !! k = None). unfold state_map.
  rewrite (with_edge_book _ _ _ _ long_path_ok _ k bk ks), (with_edge_book _ _ _ _ long_path_ok _ k bk ks) by auto. apply lookup_empty.
Qed.

Lemma roots_differ : root_with toy_sum toy_product long_tree ≠ shash toy_product long_tree.
Proof. intros E. apply (f_equal proj1_sig) in E. vm_compute in E. discriminate. Qed.

Lemma reopened_state_not_found_witness :
  exists s : pathDB StarkField one_entry,
    path_New map_to_list map_to_list toy_sum toy_last state_disk (Some small_config) = Ok s /\
    path_NodeReader (ContractTrieID (commitment toy_sum toy_product toy_last long_tree long_tree)) s =
      (Err ErrLayerNotFound, s).
Proof.
  destruct state_disk_holds as [H1 H2].
  apply (reopened_state_not_found toy_sum toy_product toy_last map_to_list map_to_list state_disk small_config 0
    long_tree long_tree).
  - by eexists.
  - apply (state_disk_book trieJournal []). split; auto.
  - unfold persisted. rewrite (state_disk_book persistedStateID []); [done|split; auto].
  - lia.
  - done.
  - apply long_tree_canon.
  - apply long_tree_canon.
  - exact H1.
  - exact H2.
  - intros c x y E. exact E.
  - apply roots_differ.
  - reflexivity.
Defined.

(** ** A fork *)

(** Field elements as integers, for evaluation. *)
#[local] Instance Z_element : FieldElement Z := {|
  felt_Bytes x := be_bytes 32 x;
  felt_SetBytes := be_val;
  felt_Add := Z.add;
  felt_Zero := 0;
|}.

Definition class_node (blob : bytes) : MergeNodeSet (F:=Z) :=
  mkMergeNodeSet (Add (NewNodeSet 0) bit_path (NewNonLeaf 3 blob)) ∅.

Definition genesis : pathDB Z one_entry :=
  mkPathDB memory.New {[1000 := 0%nat]} small_config [Disk (mkDisk 1000 0 0 0 false)]
    [newBuffer map_to_list map_to_list 1024 None 0] [None].

(** State 1 has a node and is committed; 2 is its child, and 3 and 500 are both
    children of 2. *)
Definition fork_ops : list (path_op Z) :=
  [OpUpdate 1 1000 1 (Some (class_node [7])) None; OpCommit 1; OpUpdate 2 1 2 None None; OpUpdate 500 2 3 None None].

(** The branch of 3 grows until its lowest layer is merged into the disk. *)
Definition grow_ops : list (path_op Z) :=
  (fun i => OpUpdate (3 + Z.of_nat i) (2 + Z.of_nat i) 3 None None) <$> seq 0 128.

Definition read_fork : path_op Z := OpNode (ClassTrieID 500) bit_path.

(** a fork that is still in the tree of layers becomes unreadable.  When the
    lowest layer of a branch is merged into the disk layer, only the layer of
    that branch is linked to the new disk layer; another child of the merged
    layer stays in the tree, under its root, but its ancestors still end in the
    old disk layer, which is stale.  A node of the state could be read before,
    and every read that reaches the disk fails after that. *)
Example fork_becomes_unreadable :
  let '(rs, s) := run_path_ops map_to_list map_to_list map_to_list no_leaf genesis
                    (fork_ops ++ [read_fork] ++ grow_ops ++ [read_fork]) in
  rs !! 4%nat = Some (Ok (Some [7])) /\ last rs = Some (Err ErrDiskLayerStale) /\ is_Some (pd_tree s !! 500).
Proof. vm_compute. split_and!; [done|done|by eexists]. Qed.
