(* ===== verification/FeltArith.v ===== *)
(** * Arithmetic of field elements

    The operations of [src/core/felt] that hashing and transactions use beyond
    those of [Felt], which all forward to the third-party field: parameters with
    their documented behaviour, and the concrete field; the Stark prime is a prime. *)
From stdpp Require Import prelude list.
From Stdlib Require Import ZArith Lia.
From Stdlib Require Import Znumtheory Zmod.ZmodInv.
From S2P Require Import Prelude Felt.

Local Open Scope Z_scope.

Class FieldArith (F : Type) `{!FieldElement F} := {
  felt_Mul : F -> F -> F;
  felt_Sub : F -> F -> F;
  felt_Double : F -> F;
  felt_Exp : F -> Z -> F;
  felt_Cmp : F -> F -> Z;
}.

Class FieldArithLaws (F : Type) `{!FieldElement F} `{!FieldArith F} : Prop := {
  felt_arith_laws :: FieldElementLaws F;
  felt_Mul_val (x y : F) : felt_val (felt_Mul x y) = (felt_val x * felt_val y) mod stark_prime;
  felt_Sub_val (x y : F) : felt_val (felt_Sub x y) = (felt_val x - felt_val y) mod stark_prime;
  felt_Double_val (x : F) : felt_val (felt_Double x) = (2 * felt_val x) mod stark_prime;
  felt_Exp_val (x : F) n : 0 <= n -> felt_val (felt_Exp x n) = (felt_val x ^ n) mod stark_prime;
  felt_Cmp_val (x y : F) :
    felt_Cmp x y = match felt_val x ?= felt_val y with Lt => -1 | Eq => 0 | Gt => 1 end;
}.

(** [felt.One] *)
Definition felt_One {F} `{!FieldElement F} : F := felt_of 1.

(** [felt.FromBytes], of a string literal of the source too. *)
Abbreviation FromBytes := felt_SetBytes.

Section arith.
Context {F : Type} `{!FieldElement F} `{!FieldElementLaws F}.
Implicit Types (x y : F).

Lemma felt_of_val n : 0 <= n < 256 ^ 32 -> felt_val (felt_of n : F) = n mod stark_prime.
Proof.
  intros Hn. unfold felt_of. rewrite felt_SetBytes_val by apply be_bytes_range.
  rewrite be_val_bytes. by rewrite (Z.mod_small n).
Qed.

(** Machine integers are elements of the field. *)
Lemma felt_of_u64_val n : is_u64 n -> felt_val (felt_of n : F) = n.
Proof.
  intros Hn. assert (2 ^ 64 < stark_prime) by done. assert (stark_prime < 256 ^ 32) by done.
  rewrite felt_of_val by lia. apply Z.mod_small. lia.
Qed.

Lemma felt_of_u64_inj n m : is_u64 n -> is_u64 m -> (felt_of n : F) = felt_of m -> n = m.
Proof. intros Hn Hm E. rewrite <- (felt_of_u64_val n), <- (felt_of_u64_val m), E by done. done. Qed.

(** At most 31 bytes are read without reduction. *)
Lemma FromBytes_val l : is_bytes l -> be_val l < stark_prime -> felt_val (FromBytes l : F) = be_val l.
Proof.
  intros Hl Hb. rewrite felt_SetBytes_val by done. apply Z.mod_small. split; [|done].
  apply be_val_range in Hl. lia.
Qed.

Lemma felt_val_mod x : felt_val x mod stark_prime = felt_val x.
Proof. apply Z.mod_small, felt_val_range. Qed.

End arith.

(** Bits from 251 on are folded into the low ones, since two to the 251 is
    congruent to minus the rest of the prime. *)
Definition fold_high (x : Z) : Z :=
  Z.land x (Z.ones 251) - 106710729501573572985208420194530329073740042555888586719233 * Z.shiftr x 251.

Lemma fold_high_mod x : fold_high x mod stark_prime = x mod stark_prime.
Proof.
  unfold fold_high. rewrite Z.land_ones, Z.shiftr_div_pow2 by lia.
  assert (E : x = (x mod 2 ^ 251 - 106710729501573572985208420194530329073740042555888586719233 * (x / 2 ^ 251)) + x / 2 ^ 251 * stark_prime).
  { pose proof (Z.div_mod x (2 ^ 251) ltac:(lia)). unfold stark_prime. lia. }
  rewrite E at 3. by rewrite Z.mod_add.
Qed.

Lemma fold_high_iter n x : Nat.iter n fold_high x mod stark_prime = x mod stark_prime.
Proof. induction n as [|n IH]; [done|]. cbn [Nat.iter nat_rect]. by rewrite fold_high_mod. Qed.

#[export] Instance StarkField_arith : FieldArith StarkField := {|
  felt_Mul x y := stark (Nat.iter 5 fold_high (proj1_sig x * proj1_sig y));
  felt_Sub x y := stark (proj1_sig x - proj1_sig y);
  felt_Double x := stark (2 * proj1_sig x);
  felt_Exp x n := stark (proj1_sig x ^ n);
  felt_Cmp x y := match proj1_sig x ?= proj1_sig y with Lt => -1 | Eq => 0 | Gt => 1 end;
|}.

Lemma stark_val (x : StarkField) : felt_val x = proj1_sig x.
Proof.
  destruct x as [x Hx]. pose proof (bool_decide_eq_true_1 _ Hx). unfold felt_val.
  change (be_val (be_bytes 32 x) = x). rewrite be_val_bytes. apply Z.mod_small. unfold stark_prime in *.
  split; [lia|]. change (256 ^ Z.of_nat 32) with (2 ^ 256). lia.
Qed.

#[export] Instance StarkField_arith_laws : FieldArithLaws StarkField.
Proof.
  split; [apply _|intros; rewrite !stark_val; try apply stark_reduce_mod..|intros; by rewrite !stark_val].
  cbn [felt_Mul StarkField_arith stark proj1_sig]. rewrite stark_reduce_mod. apply fold_high_iter.
Qed.

(** * The Stark prime

    The modulus of the field of [src/core/felt] is a Proth number, and its
    primality follows from one power modulo it.  In its field cubing is
    injective, which is what makes the permutation of Poseidon one. *)

(** ** Congruences *)

Lemma mod_pow_mod a n q : 0 < q -> (a mod q) ^ n mod q = a ^ n mod q.
Proof. intros Hq. rewrite Z.mod_pow_l. done. Qed.

(** Powers of congruent numbers. *)
Lemma pow_cong a b n q : 0 < q -> a mod q = b mod q -> a ^ n mod q = b ^ n mod q.
Proof. intros Hq E. rewrite <- (mod_pow_mod a), <- (mod_pow_mod b), E by done. done. Qed.

(** What divides the modulus keeps congruences. *)
Lemma mod_divisor a b p q : 0 < q -> 0 < p -> (q | p) -> a mod p = b mod p -> a mod q = b mod q.
Proof.
  intros Hq Hp [c ->] E.
  rewrite (Zmod_div_mod q (c * q) a), (Zmod_div_mod q (c * q) b), E by (auto using Z.divide_factor_r). done.
Qed.

(** ** Proth's theorem *)

(** The even part of a positive number. *)
Lemma even_part m : 0 < m -> exists s t, 0 <= s /\ Z.odd t = true /\ 0 < t /\ m = 2 ^ s * t.
Proof.
  intros Hm. assert (Hm0 : 0 <= m) by lia. revert Hm. pattern m. revert m Hm0. apply Z_lt_induction. intros m IH Hm.
  destruct (Z.odd m) eqn:Eo; [exists 0, m; split_and!; [lia|done|lia|ring]|].
  rewrite <- Z.negb_even in Eo. apply negb_false_iff, Z.even_spec in Eo as [h ->].
  destruct (IH h ltac:(lia) ltac:(lia)) as (s & t & Hs & Ht & Hp & ->).
  exists (Z.succ s), t. rewrite Z.pow_succ_r by done. split_and!; [lia|done|done|ring].
Qed.

Lemma prime_factor m : 1 < m -> exists q, Z.prime q /\ (q | m).
Proof.
  intros Hm. assert (Hm0 : 0 <= m) by lia. revert Hm. pattern m. revert m Hm0. apply Z_lt_induction. intros m IH Hm.
  destruct (prime_dec m) as [Hp|Hp]; [exists m; split; [by apply prime_alt|done]|].
  destruct (not_prime_divide m Hm Hp) as (n & Hn & Hd).
  destruct (IH n ltac:(lia) ltac:(lia)) as (q & Hq & Hqn). exists q. split; [done|by apply (Z.divide_trans _ n)].
Qed.

Section proth.
Context (k n a p : Z).
Hypothesis (Hk : 0 < k < 2 ^ n) (Hn : 0 < n) (Hp : p = k * 2 ^ n + 1).
Hypothesis Ha : a ^ ((p - 1) / 2) mod p = p - 1.

Lemma half_exponent : (p - 1) / 2 = k * 2 ^ (n - 1).
Proof.
  rewrite Hp. replace (k * 2 ^ n + 1 - 1) with (k * 2 ^ (n - 1) * 2); [by rewrite Z.div_mul|].
  replace n with (Z.succ (n - 1)) at 2 by lia. rewrite Z.pow_succ_r by lia. ring.
Qed.

(** A prime factor is larger than [2 ^ n]. *)
Lemma proth_factor q : Z.prime q -> (q | p) -> 2 ^ n < q.
Proof.
  intros Hq Hd. pose proof (Z.prime_ge_2 q Hq).
  assert (0 < 2 ^ n) by (apply Z.pow_pos_nonneg; lia).
  assert (Hodd : q ≠ 2).
  { intros ->. destruct Hd as [c Hc]. replace n with (Z.succ (n - 1)) in Hp by lia.
    rewrite Z.pow_succ_r in Hp by lia. nia. }
  assert (Hm : a ^ ((p - 1) / 2) mod q = (-1) mod q).
  { apply (mod_divisor _ _ p); [lia|lia|done|]. rewrite Ha.
    replace (-1) with (p - 1 + (-1) * p) by lia. rewrite Z.mod_add, Z.mod_small by lia. done. }
  destruct (even_part (q - 1) ltac:(lia)) as (s & t & Hs & Ht & Htp & E).
  destruct (Z.lt_ge_cases s n) as [Hsn|Hsn].
  - exfalso. pose proof (pow_cong _ _ t q ltac:(lia) Hm) as H1. revert H1.
    assert (Eo : (Z.opp 1) ^ t = -1) by (rewrite Z.pow_opp_odd by (by apply Z.odd_spec); rewrite Z.pow_1_l; lia).
    change (-1) with (Z.opp 1) at 1.
    rewrite Eo, half_exponent, <- Z.pow_mul_r by nia.
    replace (k * 2 ^ (n - 1) * t) with (k * 2 ^ (n - 1 - s) * (q - 1)).
    2:{ rewrite E. replace (2 ^ (n - 1)) with (2 ^ (n - 1 - s) * 2 ^ s); [ring|].
        rewrite <- Z.pow_add_r by lia. f_equal. lia. }
    rewrite (Z.mul_comm (k * _)), Z.pow_mul_r by (try apply Z.mul_nonneg_nonneg; try apply Z.pow_nonneg; lia).
    assert (Hnz : a mod q ≠ 0).
    { intros E0. rewrite <- mod_pow_mod, E0, Z.pow_0_l in Hm; [|rewrite half_exponent; nia|lia].
      rewrite Z.mod_0_l in Hm by lia. replace (-1) with (q - 1 + (-1) * q) in Hm by lia.
      rewrite Z.mod_add, Z.mod_small in Hm; lia. }
    rewrite <- mod_pow_mod, (Z.fermat_nz q a Hq Hnz), Z.pow_1_l by (try apply Z.mul_nonneg_nonneg; try apply Z.pow_nonneg; lia).
    replace (-1) with (q - 1 + (-1) * q) by lia. rewrite Z.mod_add, !Z.mod_small by lia. lia.
  - assert (2 ^ n <= 2 ^ s) by (apply Z.pow_le_mono_r; lia). nia.
Qed.

(** Proth's theorem. *)
Lemma proth_prime : Z.prime p.
Proof.
  apply prime_alt. assert (0 < 2 ^ n) by (apply Z.pow_pos_nonneg; lia).
  assert (Hkp : 0 < k * 2 ^ n) by (apply Z.mul_pos_pos; [apply Hk|done]). assert (1 < p) by (clear Ha; lia).
  destruct (prime_dec p) as [|Hx]; [done|exfalso].
  destruct (not_prime_divide p ltac:(done) Hx) as (x & Hx1 & [y Ey]).
  assert (1 < y) by nia.
  destruct (prime_factor x ltac:(lia)) as (q1 & Hq1 & [c1 E1]).
  destruct (prime_factor y ltac:(lia)) as (q2 & Hq2 & [c2 E2]).
  assert (2 ^ n < q1) by (apply proth_factor; [done|exists (y * c1); rewrite Ey, E1; ring]).
  assert (2 ^ n < q2) by (apply proth_factor; [done|exists (x * c2); rewrite Ey, E2; ring]).
  assert (0 < c1) by nia. assert (0 < c2) by nia.
  assert (Hc : 1 <= c1 * c2) by nia. assert (Hq : (2 ^ n + 1) * (2 ^ n + 1) <= q1 * q2) by nia.
  assert (Eq : p = (c1 * c2) * (q1 * q2)) by (rewrite Ey, E1, E2; ring). clear - Hc Hq Eq Hp Hk. nia.
Qed.

End proth.

(** ** The prime *)

(** A power modulo [q], by squaring. *)
Fixpoint powmod (q a : Z) (e : positive) : Z :=
  match e with
  | xH => a mod q
  | xO e' => let h := powmod q a e' in (h * h) mod q
  | xI e' => let h := powmod q a e' in ((h * h) mod q * a) mod q
  end.

Lemma powmod_spec q a e : 0 < q -> powmod q a e = a ^ Zpos e mod q.
Proof.
  intros Hq. induction e as [e IH|e IH|]; cbn [powmod].
  - rewrite IH, <- Z.mul_mod, Z.mul_mod_idemp_l by lia.
    rewrite <- Z.pow_twice_r.
    replace (Z.pos e~1) with (2 * Z.pos e + 1) by lia. rewrite Z.pow_add_r, Z.pow_1_r by lia. done.
  - rewrite IH, <- Z.mul_mod by lia. rewrite <- Z.pow_twice_r. done.
  - by rewrite Z.pow_1_r.
Qed.

Lemma stark_is_prime : Z.prime stark_prime.
Proof.
  apply (proth_prime (2 ^ 59 + 17) 192 3); [done|done|done|].
  change ((stark_prime - 1) / 2) with (Zpos (Z.to_pos ((stark_prime - 1) / 2))).
  rewrite <- powmod_spec by done. vm_compute. done.
Qed.

(** ** Cubes *)

Lemma stark_pos : 0 < stark_prime.
Proof. done. Qed.

(** Three times this exponent is one more than a multiple of the order of the
    group of units. *)
Lemma cube_root_exponent : 3 * ((2 * stark_prime - 1) / 3) = stark_prime + (stark_prime - 1).
Proof. done. Qed.

Lemma pow_cube_root x : (x ^ 3) ^ ((2 * stark_prime - 1) / 3) mod stark_prime = x mod stark_prime.
Proof.
  rewrite <- Z.pow_mul_r, cube_root_exponent, Z.pow_add_r by done.
  rewrite <- Z.mul_mod_idemp_l, (Z.fermat _ x stark_is_prime), Z.mul_mod_idemp_l by done.
  rewrite <- Z.pow_succ_r by done. apply (Z.fermat stark_prime x stark_is_prime).
Qed.

Lemma cube_inj x y : x ^ 3 mod stark_prime = y ^ 3 mod stark_prime -> x mod stark_prime = y mod stark_prime.
Proof.
  intros E. rewrite <- (pow_cube_root x), <- (pow_cube_root y). by apply pow_cong.
Qed.

(** Multiplication by what is prime to the modulus is injective. *)
Lemma stark_mul_cancel c x : 0 < c < stark_prime -> (c * x) mod stark_prime = 0 -> x mod stark_prime = 0.
Proof.
  intros Hc E. apply Z.mod_divide in E; [|done]. apply Z.mod_divide; [done|].
  apply (Gauss _ c); [done|]. apply rel_prime_sym, rel_prime_le_prime; [apply prime_alt, stark_is_prime|lia].
Qed.
