(* ===== verification/PoseidonFacts.v ===== *)
(** * Facts on Poseidon

    The Hades permutation is injective, the table of round keys is accepted, the
    precomputed output is the right one, and a digest that is fed in any way
    returns the hash of the array of what it was fed; then the windows of Pedersen. *)
From stdpp Require Import prelude list.
From Stdlib Require Import ZArith Lia.
From S2P Require Import Prelude Felt FeltArith Poseidon Pedersen.

Local Open Scope Z_scope.

(** Moves the reductions of a sum outwards. *)
Ltac push_mod :=
  repeat first
    [ rewrite Zplus_mod_idemp_l | rewrite Zplus_mod_idemp_r
    | rewrite Zminus_mod_idemp_l | rewrite Zminus_mod_idemp_r
    | rewrite Zmult_mod_idemp_l | rewrite Zmult_mod_idemp_r ].

Section hades.
Context {F : Type} `{!FieldElement F} `{!FieldArith F} `{!FieldArithLaws F}.
Implicit Types (s k : F * F * F) (x y : F).

Lemma felt_mod_inj x y : felt_val x mod stark_prime = felt_val y mod stark_prime -> x = y.
Proof. rewrite !felt_val_mod. apply felt_val_inj. Qed.

(** Congruent modulo the prime. *)
Lemma mod_eq_diff a b : a mod stark_prime = b mod stark_prime <-> (a - b) mod stark_prime = 0.
Proof.
  split.
  - intros E. rewrite Zminus_mod, E, Z.sub_diag. done.
  - intros E. apply Z.mod_divide in E as [c E]; [|done].
    replace a with (b + c * stark_prime) by lia. by rewrite Z.mod_add.
Qed.

Lemma add_keys_inj k s s' : add_keys k s = add_keys k s' -> s = s'.
Proof.
  assert (Hx : forall z x y, felt_Add x z = felt_Add y z -> x = y).
  { intros z x y E. apply (f_equal felt_val) in E. rewrite !felt_Add_val in E.
    apply felt_mod_inj, mod_eq_diff. apply mod_eq_diff in E. by replace (felt_val x - felt_val y)
      with (felt_val x + felt_val z - (felt_val y + felt_val z)) by lia. }
  destruct k as [[k0 k1] k2], s as [[a b] c], s' as [[a' b'] c']. intros [= E1 E2 E3].
  apply Hx in E1, E2, E3. by subst.
Qed.

Lemma cube_val x : felt_val (cube x) = felt_val x ^ 3 mod stark_prime.
Proof.
  unfold cube. rewrite !felt_Mul_val. push_mod. f_equal. ring.
Qed.

Lemma cube_felt_inj x y : cube x = cube y -> x = y.
Proof.
  intros E. apply (f_equal felt_val) in E. rewrite !cube_val in E. by apply felt_mod_inj, cube_inj.
Qed.

Lemma sbox_inj full s s' : sbox full s = sbox full s' -> s = s'.
Proof.
  destruct s as [[a b] c], s' as [[a' b'] c'].
  destruct full; intros [= E1 E2 E3]; subst; repeat f_equal; by apply cube_felt_inj.
Qed.

(** The entries of the mix layer, modulo the prime. *)
Lemma mix_val a b c :
  let '(m0, m1, m2) := mix (a, b, c) in
  felt_val m0 = (3 * felt_val a + felt_val b + felt_val c) mod stark_prime /\
  felt_val m1 = (felt_val a - felt_val b + felt_val c) mod stark_prime /\
  felt_val m2 = (felt_val a + felt_val b - 2 * felt_val c) mod stark_prime.
Proof.
  cbn [mix]. rewrite !felt_Add_val, !felt_Sub_val, !felt_Add_val, !felt_Double_val.
  push_mod. split_and!; f_equal; lia.
Qed.

(** The matrix of the mix layer has no kernel. *)
Lemma mix_kernel (x y z : Z) :
  (3 * x + y + z) mod stark_prime = 0 -> (x - y + z) mod stark_prime = 0 -> (x + y - 2 * z) mod stark_prime = 0 ->
  x mod stark_prime = 0 /\ y mod stark_prime = 0 /\ z mod stark_prime = 0.
Proof.
  intros E1 E2 E3.
  apply Z.mod_divide in E1 as [c1 E1]; [|done]. apply Z.mod_divide in E2 as [c2 E2]; [|done].
  apply Z.mod_divide in E3 as [c3 E3]; [|done].
  assert (Hz : z mod stark_prime = 0).
  { apply (stark_mul_cancel 4); [done|]. apply Z.mod_divide; [done|]. exists (c1 - c2 - 2 * c3). lia. }
  assert (Hx : x mod stark_prime = 0).
  { apply (stark_mul_cancel 4); [done|]. apply Z.mod_divide in Hz as [cz Hz]; [|done].
    apply Z.mod_divide; [done|]. exists (c1 + c2 - 2 * cz). lia. }
  split_and!; [done| |done].
  apply Z.mod_divide in Hz as [cz Hz]; [|done]. apply Z.mod_divide in Hx as [cx Hx]; [|done].
  apply Z.mod_divide; [done|]. exists (cx + cz - c2). lia.
Qed.

Lemma mix_inj s s' : mix s = mix s' -> s = s'.
Proof.
  destruct s as [[a b] c], s' as [[a' b'] c']. intros E.
  pose proof (mix_val a b c) as H1. pose proof (mix_val a' b' c') as H2. rewrite E in H1.
  destruct (mix (a', b', c')) as [[m0 m1] m2]. destruct H1 as (A0 & A1 & A2), H2 as (B0 & B1 & B2).
  rewrite A0 in B0. rewrite A1 in B1. rewrite A2 in B2. apply mod_eq_diff in B0, B1, B2.
  destruct (mix_kernel (felt_val a - felt_val a') (felt_val b - felt_val b') (felt_val c - felt_val c')) as (Ha & Hb & Hc).
  - rewrite <- B0. f_equal. lia.
  - rewrite <- B1. f_equal. lia.
  - rewrite <- B2. f_equal. lia.
  - repeat f_equal; by apply felt_mod_inj, mod_eq_diff.
Qed.

Lemma hades_round_inj i s s' : hades_round i s = hades_round i s' -> s = s'.
Proof. intros E. by eapply add_keys_inj, sbox_inj, mix_inj. Qed.

Lemma hades_rounds_inj n i s s' : hades_rounds n i s = hades_rounds n i s' -> s = s'.
Proof.
  revert i s s'. induction n as [|n IH]; intros i s s' E; [done|]. by eapply hades_round_inj, IH.
Qed.

(** The precomputed output is the output. *)
Lemma hadesPermutation_rounds s : hadesPermutation s = hadesPermutationRounds s.
Proof. unfold hadesPermutation. by case_bool_decide as E; [rewrite E|]. Qed.

(** Every key of the table is below the prime. *)
Lemma round_keys_canonical :
  Forall (fun '(a, b, c) => 0 <= a < stark_prime /\ 0 <= b < stark_prime /\ 0 <= c < stark_prime) roundKeysSpec.
Proof. repeat (constructor; [split_and!; done|]). constructor. Qed.

Lemma set_key_ok (k : Z) : 0 <= k < stark_prime -> set_key (F:=F) k = Some (felt_of k).
Proof.
  intros Hk. unfold set_key. assert (stark_prime < 256 ^ 32) by done.
  by rewrite felt_of_val, Z.mod_small, Z.eqb_refl by lia.
Qed.

(** [initializePoseidon] does not panic, and sets as many keys as there are
    rounds. *)
Lemma setRoundKeys_ok :
  setRoundKeys (F:=F) = Some (roundKeys <$> (Z.of_nat <$> seq 0 (Z.to_nat totalRounds))).
Proof.
  unfold setRoundKeys. transitivity (Some ((fun '(a, b, c) => (felt_of a, felt_of b, felt_of c) : F * F * F) <$> roundKeysSpec)).
  - pose proof round_keys_canonical as H. induction H as [|[[a b] c] l (Ha & Hb & Hc) Hl IH]; [done|].
    cbn [mapM fmap list_fmap]. rewrite !set_key_ok by done. simpl. by rewrite IH.
  - done.
Qed.

(** C19: the Hades permutation is a permutation of the triples of field elements
    ([hadesPermutation] maps different states to different states), so that the
    only information a hash loses is lost where the code cuts the state; the
    precomputed output of the fixed input is what the rounds compute, and the
    table of keys passes the checks with which it is loaded. *)
Theorem hades_is_permutation s s' :
  (hadesPermutation s = hadesPermutation s' <-> s = s') /\
  hadesPermutation s = hadesPermutationRounds s /\
  setRoundKeys (F:=F) = Some (roundKeys <$> (Z.of_nat <$> seq 0 (Z.to_nat totalRounds))).
Proof.
  split_and!; [|apply hadesPermutation_rounds|apply setRoundKeys_ok].
  split; [|by intros ->]. rewrite !hadesPermutation_rounds. apply hades_rounds_inj.
Qed.

End hades.

Section digests.
Context {F : Type} `{!FieldElement F} `{!HashFns F}.
Implicit Types (l : list F) (calls : list (digest_call F)).

(** A digest with nothing pending absorbs like the array function. *)
Lemma poseidon_absorb l s x :
  poseidon_Finish (poseidon_updateArray (mkPoseidonDigest s x false) l) = (absorb s l).1.1.
Proof.
  assert (Hn : forall n l s x, (length l <= n)%nat ->
    poseidon_Finish (poseidon_updateArray (mkPoseidonDigest s x false) l) = (absorb s l).1.1).
  { clear. induction n as [|n IH]; intros l s x Hl; destruct s as [[s0 s1] s2].
    - by destruct l; [|simpl in Hl; lia].
    - destruct l as [|a [|b l]]; [done|done|]. cbn [poseidon_updateArray foldl absorb].
      unfold poseidon_update at 2. cbn [negb pd_hasLast]. unfold poseidon_update at 2. cbn [negb pd_hasLast pd_state pd_lastElem].
      apply IH. simpl in Hl. lia. }
  by apply (Hn (length l)).
Qed.

Lemma poseidon_calls calls d :
  foldl poseidon_call d calls = poseidon_updateArray d (concat (call_elems <$> calls)).
Proof.
  revert d. induction calls as [|[x|xs] calls IH]; intros d; [done|..]; cbn [foldl fmap list_fmap concat];
    rewrite IH; [done|]. unfold poseidon_updateArray. cbn [call_elems poseidon_call]. by rewrite foldl_app.
Qed.

Lemma pedersen_calls calls d :
  foldl pedersen_call d calls = pedersen_updateArray d (concat (call_elems <$> calls)).
Proof.
  revert d. induction calls as [|[x|xs] calls IH]; intros d; [done|..]; cbn [foldl fmap list_fmap concat];
    rewrite IH; [done|]. unfold pedersen_updateArray. cbn [call_elems pedersen_call]. by rewrite foldl_app.
Qed.

Lemma pedersen_fold l d :
  0 <= pe_count d < 2 ^ 64 ->
  pedersen_updateArray d l =
    mkPedersenDigest (foldl Pedersen (pe_digest d) l) (u64 (pe_count d + Z.of_nat (length l))).
Proof.
  revert d. induction l as [|x l IH]; intros d Hd.
  - destruct d as [g c]. cbn. f_equal. rewrite Z.add_0_r. by rewrite u64_small.
  - cbn [pedersen_updateArray foldl]. fold (pedersen_updateArray (pedersen_update d x) l).
    rewrite IH by apply u64_range. cbn [pedersen_update pe_digest pe_count]. f_equal.
    unfold u64. rewrite Zplus_mod_idemp_l. f_equal. cbn [length]. lia.
Qed.

Lemma PedersenArray_fold l :
  PedersenArray l = Pedersen (foldl Pedersen felt_Zero l) (felt_of (u64 (Z.of_nat (length l)))).
Proof. unfold PedersenArray. rewrite pedersen_fold by done. done. Qed.

(** A digest returns the hash of the array of everything it was fed, however
    the elements were given to it, one by one or in slices: the Poseidon digest,
    which keeps one pending element, agrees with the function that absorbs the
    elements two by two, and the Pedersen digest with the chain of hashes closed
    with the number of elements. *)
Theorem digests_hash_arrays calls :
  let elems := concat (call_elems <$> calls) in
  poseidon_Finish (foldl poseidon_call newPoseidonDigest calls) = PoseidonArray elems /\
  pedersen_Finish (foldl pedersen_call newPedersenDigest calls) = PedersenArray elems /\
  PedersenArray elems = Pedersen (foldl Pedersen felt_Zero elems) (felt_of (u64 (Z.of_nat (length elems)))).
Proof.
  cbn zeta. rewrite poseidon_calls, pedersen_calls. split_and!; [apply poseidon_absorb|done|apply PedersenArray_fold].
Qed.

End digests.

(** * The windows of Pedersen

    The tables of [Pedersen] hold the multiples of the base points, and the sum
    of the selected entries is the point of the protocol. *)

Section windows.
Context {F : Type} `{!FieldElement F} `{!FieldArith F} `{!FieldArithLaws F} `{!Curve F} `{!CurveLaws F}.
Implicit Types (p q : point) (j : G1Jac) (bs : list Z).

(** ** Multiples *)

Lemma padd_zero_r p : padd p pzero = p.
Proof. by rewrite padd_comm, padd_zero. Qed.

Lemma pmul_add n m p : pmul (n + m) p = padd (pmul n p) (pmul m p).
Proof.
  induction n as [|n IH]; cbn [pmul Nat.add]; [by rewrite padd_zero|]. by rewrite IH, padd_assoc.
Qed.

Definition zmul (z : Z) p : point := pmul (Z.to_nat z) p.

Lemma zmul_0 p : zmul 0 p = pzero.
Proof. done. Qed.

Lemma zmul_add a b p : 0 <= a -> 0 <= b -> zmul (a + b) p = padd (zmul a p) (zmul b p).
Proof. intros Ha Hb. unfold zmul. by rewrite Z2Nat.inj_add, pmul_add. Qed.

Lemma zmul_mul a b p : 0 <= a -> 0 <= b -> zmul (a * b) p = zmul a (zmul b p).
Proof.
  intros Ha Hb. revert a Ha. apply natlike_ind; [done|]. intros a Ha IH.
  rewrite Z.mul_succ_l, zmul_add, IH by nia. rewrite <- Z.add_1_l, zmul_add by lia. rewrite padd_comm. f_equal.
  unfold zmul at 2. change (Z.to_nat 1) with 1%nat. cbn [pmul]. by rewrite padd_zero_r.
Qed.

(** ** The tables *)

Lemma multiples_loop_pt a n : forall r i, (i < n)%nat ->
  exists x, multiples_loop a r n !! i = Some x /\ jac_pt x = padd (jac_pt r) (pmul (S i) (aff_pt a)).
Proof.
  induction n as [|n IH]; intros r i Hi; [lia|]. cbn [multiples_loop]. destruct i as [|i].
  - eexists. split; [done|]. rewrite AddMixed_pt. cbn [pmul]. by rewrite padd_zero_r.
  - destruct (IH (AddMixed r a) i ltac:(lia)) as (x & Hx & E). exists x. split; [done|].
    rewrite E, AddMixed_pt. cbn [pmul]. by rewrite !padd_assoc.
Qed.

Lemma length_multiples_loop a n r : length (multiples_loop a r n) = n.
Proof. revert r. induction n as [|n IH]; intros r; [done|]. cbn [multiples_loop length]. by rewrite IH. Qed.

(** The entry of a selector is that multiple of the base. *)
Lemma buildAffineMultiples_pt base count v :
  (1 < count)%nat -> 0 <= v < Z.of_nat count ->
  aff_pt (nth (Z.to_nat v) (buildAffineMultiples base count) aff_zero) = zmul v (jac_pt base).
Proof.
  intros Hc Hv. unfold buildAffineMultiples.
  replace (count <=? 1)%nat with false by (symmetry; apply Nat.leb_gt; lia).
  set (js := jac_zero :: _).
  assert (Hj : exists x, js !! Z.to_nat v = Some x /\ jac_pt x = zmul v (jac_pt base)).
  { unfold js, zmul. destruct (Z.to_nat v) as [|i] eqn:Ev.
    - exists jac_zero. by rewrite jac_zero_pt.
    - destruct (multiples_loop_pt (FromJacobian base) (count - 1) jac_zero i ltac:(lia)) as (x & Hx & E).
      exists x. split; [done|]. by rewrite E, jac_zero_pt, padd_zero, FromJacobian_pt. }
  destruct Hj as (x & Hx & <-).
  assert (Hb : (aff_pt <$> BatchJacobianToAffineG1 js) !! Z.to_nat v = Some (jac_pt x)).
  { rewrite Batch_pt, list_lookup_fmap, Hx. done. }
  rewrite list_lookup_fmap in Hb. destruct (BatchJacobianToAffineG1 js !! Z.to_nat v) as [y|] eqn:Ey; [|done].
  injection Hb as Hb. by rewrite (nth_lookup_Some _ _ _ _ Ey).
Qed.

Lemma mulBy256_pt j : jac_pt (mulBy256 j) = zmul 256 (jac_pt j).
Proof.
  assert (Hd : forall k, 0 <= k -> forall j n, jac_pt j = zmul k n -> jac_pt (DoubleAssign j) = zmul (2 * k) n).
  { intros k Hk j' n E. rewrite Double_pt, E, <- zmul_add by done. f_equal. lia. }
  unfold mulBy256. cbn [Nat.iter nat_rect]. change 256 with (2 * (2 * (2 * (2 * (2 * (2 * (2 * (2 * 1)))))))).
  do 8 (apply Hd; [lia|]). unfold zmul. change (Z.to_nat 1) with 1%nat. cbn [pmul]. by rewrite padd_zero_r.
Qed.

Lemma low_tables_pt n i v : forall base, (i < n)%nat -> 0 <= v < 256 ->
  aff_pt (nth (Z.to_nat v) (nth i (low_tables base n) []) aff_zero) = zmul (v * 256 ^ Z.of_nat i) (jac_pt base).
Proof.
  revert i. induction n as [|n IH]; intros i base Hi Hv; [lia|]. cbn [low_tables]. destruct i as [|i].
  - cbn [nth]. rewrite buildAffineMultiples_pt by (unfold pedersenLowWindowSelectors; lia). f_equal. lia.
  - cbn [nth]. rewrite IH, mulBy256_pt, <- zmul_mul by lia. f_equal.
    rewrite Nat2Z.inj_succ, Z.pow_succ_r by lia. ring.
Qed.

(** ** The sum *)

(** The bytes that are left when [n] byte positions are left. *)
Lemma rest_snoc bs n :
  length bs = 32%nat -> (n < 31)%nat -> take (S n) (drop 1 bs) = take n (drop 1 bs) ++ [nth (S n) bs 0].
Proof.
  intros Hl Hn. destruct bs as [|b0 bs]; [done|]. change (drop 1 (b0 :: bs)) with bs. cbn [nth]. simpl in Hl.
  destruct (lookup_lt_is_Some_2 bs n ltac:(lia)) as [x Hx].
  by rewrite (take_S_r _ _ x Hx), (nth_lookup_Some _ _ _ _ Hx).
Qed.

Lemma accumulateLow_pt bs base n : forall acc i,
  length bs = 32%nat -> is_bytes bs -> (i + n = 31)%nat ->
  jac_pt (accumulateLow acc bs (low_tables base 31) i n) =
    padd (jac_pt acc) (zmul (be_val (take n (drop 1 bs)) * 256 ^ Z.of_nat i) (jac_pt base)).
Proof.
  induction n as [|n IH]; intros acc i Hl Hb Hi; [by rewrite padd_zero_r|].
  cbn [accumulateLow]. rewrite IH by (done || lia).
  assert (Hx : is_bytes (take n (drop 1 bs))) by (by apply Forall_take, Forall_drop).
  apply be_val_range in Hx. rewrite rest_snoc, be_val_app by lia.
  replace (32 - 1 - i)%nat with (S n) by lia. set (v := nth (S n) bs 0).
  assert (Hv : 0 <= v < 256).
  { unfold v. destruct (lookup_lt_is_Some_2 bs (S n) ltac:(lia)) as [x Hx']. rewrite (nth_lookup_Some _ _ _ _ Hx').
    by eapply Forall_lookup_1 in Hb. }
  assert (Hp : 0 < 256 ^ Z.of_nat i) by (apply Z.pow_pos_nonneg; lia).
  change (be_val [v]) with (0 * 256 + v). change (Z.of_nat (length [v])) with 1.
  rewrite Nat2Z.inj_succ, Z.pow_succ_r, Z.pow_1_r by lia.
  replace ((be_val (take n (drop 1 bs)) * 256 + (0 * 256 + v)) * 256 ^ Z.of_nat i)
    with (v * 256 ^ Z.of_nat i + be_val (take n (drop 1 bs)) * (256 * 256 ^ Z.of_nat i)) by ring.
  rewrite zmul_add, padd_assoc by nia. f_equal.
  destruct (Z.ltb_spec 0 v) as [Hv0|Hv0].
  - rewrite AddMixed_pt. f_equal. apply low_tables_pt; lia.
  - replace v with 0 by lia. by rewrite Z.mul_0_l, zmul_0, padd_zero_r.
Qed.

(** The bytes of an element: its low 248 bits and its high bits. *)
Lemma felt_bytes_split (x : F) :
  be_val (drop 1 (felt_Bytes x)) = low248 (felt_val x) /\ Z.land (nth 0 (felt_Bytes x) 0) 15 = high4 (felt_val x) /\
  0 <= high4 (felt_val x) < 16.
Proof.
  pose proof (felt_bytes_length x) as Hl. pose proof (felt_bytes_range x) as Hb.
  pose proof (felt_val_range x) as Hr. unfold felt_val, low248, high4 in *.
  destruct (felt_Bytes x) as [|b bs]; [done|]. simpl in Hl. apply Forall_cons in Hb as [Hb Hbs].
  assert (Hn : Z.of_nat (length bs) = 31) by lia.
  apply be_val_range in Hbs. rewrite be_val_cons, Hn in *. change (256 ^ 31) with (2 ^ 248) in *.
  change (drop 1 (b :: bs)) with bs. cbn [nth]. rewrite Z.add_comm, Z.mod_add, Z.mod_small, Z.div_add, Z.div_small by lia.
  assert (b < 16) by (assert (stark_prime < 16 * 2 ^ 248) by done; nia).
  split_and!; [done| |lia|lia]. change 15 with (Z.ones 4). rewrite Z.land_ones, Z.mod_small by lia. lia.
Qed.

Lemma accumulate_pt acc t (x : F) :
  jac_pt (accumulate acc t (felt_Bytes x)) =
    padd (jac_pt acc) (padd (zmul (low248 (felt_val x)) (aff_pt (pedersenBasePoints (2 * t))))
                            (zmul (high4 (felt_val x)) (aff_pt (pedersenBasePoints (2 * t + 1))))).
Proof.
  destruct (felt_bytes_split x) as (Hlo & Hhi & Hr). unfold accumulate. rewrite Hhi.
  pose proof (felt_bytes_length x) as Hl.
  assert (Hacc : jac_pt (accumulateLow acc (felt_Bytes x) (pedersenLowIndexed t) 0 pedersenLowByteCount) =
    padd (jac_pt acc) (zmul (low248 (felt_val x)) (aff_pt (pedersenBasePoints (2 * t))))).
  { unfold pedersenLowIndexed, pedersenLowByteCount. rewrite accumulateLow_pt by (done || apply felt_bytes_range).
    rewrite firstn_all2 by (rewrite length_drop; lia). by rewrite Hlo, FromAffine_pt, Z.mul_1_r. }
  destruct (Z.ltb_spec 0 (high4 (felt_val x))) as [H0|H0].
  - rewrite AddMixed_pt, Hacc, <- padd_assoc. f_equal. f_equal. unfold pedersenHighIndexed.
    rewrite buildAffineMultiples_pt, FromAffine_pt by (unfold pedersenHighWindowSelectors; lia). done.
  - replace (high4 (felt_val x)) with 0 by lia. by rewrite zmul_0, padd_zero_r, Hacc.
Qed.

(** C20: the hash that selects multiples from the tables of the byte positions and
    of the top nibbles is the Pedersen hash of the protocol, the first coordinate
    of the shift point plus the low 248 bits and the high bits of the two
    arguments times the four base points. *)
Theorem pedersen_windows (a b : F) : pedersen a b = pedersen_reference a b.
Proof.
  unfold pedersen, pedersen_reference. rewrite affine_X_pt, !accumulate_pt. done.
Qed.

End windows.
