(* ===== verification/Transaction.v ===== *)
(** * Transactions

    [src/core/transaction.go] and [src/core/version.go]: the types of
    transactions, their versions, their hashes and the check of the hashes of a
    block, the commitments excepted.  A Go pointer is an option; the functions
    panic where the source dereferences a nil pointer.  A Go string is a list of
    bytes. *)
From Stdlib Require Import Ascii String.
From stdpp Require Import prelude gmap list.
From Stdlib Require Import ZArith Lia List.
From S2P Require Import Prelude Felt FeltArith Poseidon.

Local Open Scope Z_scope.

(** The bytes of a string literal. *)
Definition str (s : string) : list Z := (fun c => Z.of_nat (nat_of_ascii c)) <$> list_ascii_of_string s.

(** ** [version.go] *)

(** The versions of a third-party package: numbers compared in the order major,
    minor, patch. *)
Class Semver := {
  semver : Type;
  semver_New : Z -> Z -> Z -> semver;
  semver_LessThan : semver -> semver -> bool;
  semver_GreaterThanEqual : semver -> semver -> bool;
  semver_Major : semver -> Z;
  semver_Minor : semver -> Z;
}.

Definition ver_le (a b c a' b' c' : Z) : Prop := a < a' \/ (a = a' /\ (b < b' \/ (b = b' /\ c <= c'))).

Class SemverLaws `{!Semver} : Prop := {
  semver_LessThan_New a b c a' b' c' :
    semver_LessThan (semver_New a b c) (semver_New a' b' c') = true <-> ~ ver_le a' b' c' a b c;
  semver_GreaterThanEqual_New a b c a' b' c' :
    semver_GreaterThanEqual (semver_New a b c) (semver_New a' b' c') = true <-> ver_le a' b' c' a b c;
  semver_Major_New a b c : semver_Major (semver_New a b c) = a;
  semver_Minor_New a b c : semver_Minor (semver_New a b c) = b;
}.

(** The errors of the functions of the package; an error of a trie and one of
    the parser of versions carry nothing more. *)
Inductive coreError :=
| ErrParseVersion
| ErrUnsupportedVersion
| ErrInvalidTransactionVersion
| ErrCannotCalculateHash (e : coreError)
| ErrCannotVerifyTransaction
| ErrReceiptCount
| ErrReceiptHash
| ErrTrie
| ErrCannotVerifyBlockHash.

(** [strings.Split] at the dot. *)
Fixpoint split_dots (s : list Z) : list (list Z) :=
  match s with
  | [] => [[]]
  | c :: s' =>
      if c =? 46 then [] :: split_dots s'
      else match split_dots s' with p :: ps => (c :: p) :: ps | [] => [[c]] end
  end.

(** [strconv.ParseUint] in base 10: [None] is an error. *)
Fixpoint parse_digits (acc : Z) (s : list Z) : option Z :=
  match s with
  | [] => Some acc
  | c :: s' =>
      if (48 <=? c) && (c <=? 57) then
        let acc' := acc * 10 + (c - 48) in
        if maxUint64 <? acc' then None else parse_digits acc' s'
      else None
  end.

Definition ParseUint (s : list Z) : option Z :=
  match s with [] => None | _ => parse_digits 0 s end.

(** The values of the first parts, at most three; the others are zero. *)
Fixpoint version_vals (n : nat) (parts : list (list Z)) : option (list Z) :=
  match n, parts with
  | O, _ => Some []
  | S n', p :: ps => v ← ParseUint p; vs ← version_vals n' ps; Some (v :: vs)
  | S n', [] => Some (replicate n 0)
  end.

Section core.
Context {F : Type} `{!FieldElement F} `{!FieldArith F} `{!HashFns F}.
Context `{!Semver}.

Abbreviation OC := (outcome coreError).

Definition Ver0_13_2 : semver := semver_New 0 13 2.
Definition Ver0_13_4 : semver := semver_New 0 13 4.
Definition Ver0_14_1 : semver := semver_New 0 14 1.
Definition LatestVer : semver := Ver0_14_1.

Definition ParseBlockVersion (protocolVersion : list Z) : OC semver :=
  match protocolVersion with
  | [] => Ok (semver_New 0 0 0)
  | _ =>
      match version_vals 3 (split_dots protocolVersion) with
      | Some [major; minor; patch] => Ok (semver_New major minor patch)
      | _ => Err ErrParseVersion
      end
  end.

Definition CheckBlockVersion (protocolVersion : list Z) : OC unit :=
  blockVer ← ParseBlockVersion protocolVersion;
  if (semver_Major blockVer <? semver_Major LatestVer) ||
     ((semver_Major blockVer =? semver_Major LatestVer) && (semver_Minor blockVer <=? semver_Minor LatestVer))
  then Ok tt else Err ErrUnsupportedVersion.

(** ** Resources *)

(** [Resource] and [DataAvailabilityMode] are 32-bit numbers. *)
Definition ResourceL1Gas : Z := 1.
Definition ResourceL2Gas : Z := 2.
Definition ResourceL1DataGas : Z := 3.

Definition Resource_String (r : Z) : list Z :=
  if r =? ResourceL1Gas then str "L1_GAS"
  else if r =? ResourceL2Gas then str "L2_GAS"
  else if r =? ResourceL1DataGas then str "L1_DATA"
  else [].

Record ResourceBounds := mkBounds {
  MaxAmount : Z;
  MaxPricePerUnit : option F;
}.

(** The zero value, which a map returns for an absent key. *)
Definition zeroBounds : ResourceBounds := mkBounds 0 None.

Definition bounds_Bytes (rb : ResourceBounds) (resource : Z) : OC (list Z) :=
  match MaxPricePerUnit rb with
  | None => Panic
  | Some price =>
      Ok ([0] ++ Resource_String resource ++ be_bytes 8 (MaxAmount rb) ++ drop 16 (felt_Bytes price))
  end.

Definition bounds_IsZero (rb : ResourceBounds) : bool :=
  (MaxAmount rb =? 0) && match MaxPricePerUnit rb with None => true | Some p => felt_IsZero p end.

(** ** Versions of transactions *)

Definition queryBit : Z := 128.
Definition queryVersion : F := felt_Exp (felt_of 2) queryBit.

Definition HasQueryBit (v : F) : bool := negb (felt_Cmp v queryVersion =? -1).

Definition WithoutQueryBit (v : F) : F := if HasQueryBit v then felt_Sub v queryVersion else v.

Definition version_Is (v : F) (n : Z) : bool := bool_decide (felt_of n = WithoutQueryBit v).

(** ** Transactions *)

Record DeployTransaction := mkDeploy {
  dp_TransactionHash : option F;
  dp_ContractAddressSalt : option F;
  dp_ContractAddress : option F;
  dp_ClassHash : option F;
  dp_ConstructorCallData : list F;
  dp_Version : option F;
}.

Record DeployAccountTransaction := mkDeployAccount {
  da_Deploy : DeployTransaction;
  da_MaxFee : option F;
  da_TransactionSignature : list F;
  da_Nonce : option F;
  da_ResourceBounds : gmap Z ResourceBounds;
  da_Tip : Z;
  da_PaymasterData : list F;
  da_NonceDAMode : Z;
  da_FeeDAMode : Z;
}.

Record InvokeTransaction := mkInvoke {
  iv_TransactionHash : option F;
  iv_CallData : list F;
  iv_TransactionSignature : list F;
  iv_MaxFee : option F;
  iv_ContractAddress : option F;
  iv_Version : option F;
  iv_EntryPointSelector : option F;
  iv_Nonce : option F;
  iv_SenderAddress : option F;
  iv_ResourceBounds : gmap Z ResourceBounds;
  iv_Tip : Z;
  iv_PaymasterData : list F;
  iv_AccountDeploymentData : list F;
  iv_NonceDAMode : Z;
  iv_FeeDAMode : Z;
  iv_ProofFacts : list F;
}.

Record DeclareTransaction := mkDeclare {
  dc_TransactionHash : option F;
  dc_ClassHash : option F;
  dc_SenderAddress : option F;
  dc_MaxFee : option F;
  dc_TransactionSignature : list F;
  dc_Nonce : option F;
  dc_Version : option F;
  dc_CompiledClassHash : option F;
  dc_ResourceBounds : gmap Z ResourceBounds;
  dc_Tip : Z;
  dc_PaymasterData : list F;
  dc_AccountDeploymentData : list F;
  dc_NonceDAMode : Z;
  dc_FeeDAMode : Z;
}.

Record L1HandlerTransaction := mkL1Handler {
  l1_TransactionHash : option F;
  l1_ContractAddress : option F;
  l1_EntryPointSelector : option F;
  l1_Nonce : option F;
  l1_CallData : list F;
  l1_Version : option F;
}.

Inductive Transaction :=
| TxDeploy (d : DeployTransaction)
| TxDeployAccount (d : DeployAccountTransaction)
| TxDeclare (d : DeclareTransaction)
| TxInvoke (i : InvokeTransaction)
| TxL1Handler (l : L1HandlerTransaction).

Definition tx_Hash (t : Transaction) : option F :=
  match t with
  | TxDeploy d => dp_TransactionHash d
  | TxDeployAccount d => dp_TransactionHash (da_Deploy d)
  | TxDeclare d => dc_TransactionHash d
  | TxInvoke i => iv_TransactionHash i
  | TxL1Handler l => l1_TransactionHash l
  end.

Definition tx_Signature (t : Transaction) : list F :=
  match t with
  | TxDeploy _ => []
  | TxDeployAccount d => da_TransactionSignature d
  | TxDeclare d => dc_TransactionSignature d
  | TxInvoke i => iv_TransactionSignature i
  | TxL1Handler _ => []
  end.

Definition tx_TxVersion (t : Transaction) : option F :=
  match t with
  | TxDeploy d => dp_Version d
  | TxDeployAccount d => dp_Version (da_Deploy d)
  | TxDeclare d => dc_Version d
  | TxInvoke i => iv_Version i
  | TxL1Handler l => l1_Version l
  end.

(** ** Networks *)

(** An [UnverifiableRange] that is not nil is indexed at 0 and 1. *)
Record BlockHashMetaInfo := mkMeta {
  FallBackSequencerAddress : option F;
  First07Block : Z;
  UnverifiableRange : option (list Z);
}.

Record Network := mkNetwork {
  L2ChainID : list Z;
  net_MetaInfo : BlockHashMetaInfo;
}.

Definition L2ChainIDFelt (n : Network) : F := FromBytes (L2ChainID n).

(** ** Hashes *)

Definition invokeFelt : F := FromBytes (str "invoke").
Definition declareFelt : F := FromBytes (str "declare").
Definition l1HandlerFelt : F := FromBytes (str "l1_handler").
Definition deployAccountFelt : F := FromBytes (str "deploy_account").

(** Dereferences a pointer. *)
Definition ptr {E A} (p : option A) : outcome E A := match p with Some a => Ok a | None => Panic end.

(** [Update] with pointers, in order. *)
Definition update_ptrs {E} (d : PoseidonDigest F) (l : list (option F)) : outcome E (PoseidonDigest F) :=
  xs ← derefs l; Ok (poseidon_updateArray d xs).

Definition tipAndResourcesHash (tip : Z) (resourceBounds : gmap Z ResourceBounds) : OC F :=
  l1 ← bounds_Bytes (default zeroBounds (resourceBounds !! ResourceL1Gas)) ResourceL1Gas;
  l2 ← bounds_Bytes (default zeroBounds (resourceBounds !! ResourceL2Gas)) ResourceL2Gas;
  let digest :=
    poseidon_update (poseidon_update (poseidon_update newPoseidonDigest (felt_of tip)) (FromBytes l1)) (FromBytes l2) in
  match resourceBounds !! ResourceL1DataGas with
  | Some bounds =>
      match MaxPricePerUnit bounds with
      | Some _ =>
          l1Data ← bounds_Bytes bounds ResourceL1DataGas;
          Ok (poseidon_Finish (poseidon_update digest (FromBytes l1Data)))
      | None => Ok (poseidon_Finish digest)
      end
  | None => Ok (poseidon_Finish digest)
  end.

Definition dataAvailabilityMode (feeDAMode nonceDAMode : Z) : Z := u64 (feeDAMode + shl64 nonceDAMode 32).

Definition invokeTransactionHash (i : InvokeTransaction) (n : Network) : OC F :=
  v ← ptr (iv_Version i);
  if version_Is v 0 then
    PedersenElems [Some invokeFelt; Some v; iv_ContractAddress i; iv_EntryPointSelector i;
      Some (PedersenArray (iv_CallData i)); iv_MaxFee i; Some (L2ChainIDFelt n)]
  else if version_Is v 1 then
    PedersenElems [Some invokeFelt; Some v; iv_SenderAddress i; Some felt_Zero;
      Some (PedersenArray (iv_CallData i)); iv_MaxFee i; Some (L2ChainIDFelt n); iv_Nonce i]
  else if version_Is v 3 then
    tipAndResourceBoundsHash ← tipAndResourcesHash (iv_Tip i) (iv_ResourceBounds i);
    digest ← update_ptrs newPoseidonDigest
      [Some invokeFelt; Some v; iv_SenderAddress i; Some tipAndResourceBoundsHash;
       Some (PoseidonArray (iv_PaymasterData i)); Some (L2ChainIDFelt n); iv_Nonce i;
       Some (felt_of (dataAvailabilityMode (iv_FeeDAMode i) (iv_NonceDAMode i)));
       Some (PoseidonArray (iv_AccountDeploymentData i)); Some (PoseidonArray (iv_CallData i))];
    let digest :=
      match iv_ProofFacts i with
      | [] => digest
      | facts => poseidon_update digest (poseidon_Finish (poseidon_updateArray newPoseidonDigest facts))
      end in
    Ok (poseidon_Finish digest)
  else Err ErrInvalidTransactionVersion.

Definition declareTransactionHash (d : DeclareTransaction) (n : Network) : OC F :=
  v ← ptr (dc_Version d);
  if version_Is v 0 then
    match dc_TransactionHash d with
    | None =>
        emptyHash ← PedersenElems [];
        PedersenElems [Some declareFelt; Some v; dc_SenderAddress d; Some felt_Zero; Some emptyHash;
          dc_MaxFee d; Some (L2ChainIDFelt n); dc_ClassHash d]
    | Some h => Ok h
    end
  else if version_Is v 1 then
    classHash ← PedersenElems [dc_ClassHash d];
    PedersenElems [Some declareFelt; Some v; dc_SenderAddress d; Some felt_Zero; Some classHash;
      dc_MaxFee d; Some (L2ChainIDFelt n); dc_Nonce d]
  else if version_Is v 2 then
    classHash ← PedersenElems [dc_ClassHash d];
    PedersenElems [Some declareFelt; Some v; dc_SenderAddress d; Some felt_Zero; Some classHash;
      dc_MaxFee d; Some (L2ChainIDFelt n); dc_Nonce d; dc_CompiledClassHash d]
  else if version_Is v 3 then
    resourceHash ← tipAndResourcesHash (dc_Tip d) (dc_ResourceBounds d);
    PoseidonElems [Some declareFelt; Some v; dc_SenderAddress d; Some resourceHash;
      Some (PoseidonArray (dc_PaymasterData d)); Some (L2ChainIDFelt n); dc_Nonce d;
      Some (felt_of (dataAvailabilityMode (dc_FeeDAMode d) (dc_NonceDAMode d)));
      Some (PoseidonArray (dc_AccountDeploymentData d)); dc_ClassHash d; dc_CompiledClassHash d]
  else Err ErrInvalidTransactionVersion.

Definition l1HandlerTransactionHash (l : L1HandlerTransaction) (n : Network) : OC F :=
  v ← ptr (l1_Version l);
  if version_Is v 0 then
    match l1_Nonce l with
    | None => ptr (l1_TransactionHash l)
    | Some nonce =>
        PedersenElems [Some l1HandlerFelt; Some v; l1_ContractAddress l; l1_EntryPointSelector l;
          Some (PedersenArray (l1_CallData l)); Some felt_Zero; Some (L2ChainIDFelt n); Some nonce]
    end
  else Err ErrInvalidTransactionVersion.

Definition deployAccountTransactionHash (d : DeployAccountTransaction) (n : Network) : OC F :=
  let dp := da_Deploy d in
  v ← ptr (dp_Version dp);
  if version_Is v 1 then
    classHash ← ptr (dp_ClassHash dp);
    salt ← ptr (dp_ContractAddressSalt dp);
    let digest := pedersen_update (pedersen_update newPedersenDigest classHash) salt in
    let callDataHash := pedersen_Finish (pedersen_updateArray digest (dp_ConstructorCallData dp)) in
    PedersenElems [Some deployAccountFelt; Some v; dp_ContractAddress dp; Some felt_Zero; Some callDataHash;
      da_MaxFee d; Some (L2ChainIDFelt n); da_Nonce d]
  else if version_Is v 3 then
    resourcesHash ← tipAndResourcesHash (da_Tip d) (da_ResourceBounds d);
    PoseidonElems [Some deployAccountFelt; Some v; dp_ContractAddress dp; Some resourcesHash;
      Some (PoseidonArray (da_PaymasterData d)); Some (L2ChainIDFelt n); da_Nonce d;
      Some (felt_of (dataAvailabilityMode (da_FeeDAMode d) (da_NonceDAMode d)));
      Some (PoseidonArray (dp_ConstructorCallData dp)); dp_ClassHash dp; dp_ContractAddressSalt dp]
  else Err ErrInvalidTransactionVersion.

Definition TransactionHash (t : Transaction) (n : Network) : OC F :=
  match t with
  | TxDeclare d => declareTransactionHash d n
  | TxInvoke i => invokeTransactionHash i n
  | TxDeploy d => Ok (default felt_Zero (dp_TransactionHash d))
  | TxL1Handler l => l1HandlerTransactionHash l n
  | TxDeployAccount d => deployAccountTransactionHash d n
  end.

(** The loop of [VerifyTransactions]; [Equal] of a nil hash dereferences it. *)
Fixpoint verify_transactions_loop (txs : list Transaction) (n : Network) : OC unit :=
  match txs with
  | [] => Ok tt
  | t :: txs' =>
      match TransactionHash t n with
      | Ok calculatedTxHash =>
          h ← ptr (tx_Hash t);
          if bool_decide (calculatedTxHash = h) then verify_transactions_loop txs' n
          else Err ErrCannotVerifyTransaction
      | Err e => Err (ErrCannotCalculateHash e)
      | Panic => Panic
      | NoFuel => NoFuel
      end
  end.

Definition VerifyTransactions (txs : list Transaction) (n : Network) (protocolVersion : list Z) : OC unit :=
  blockVersion ← ParseBlockVersion protocolVersion;
  if semver_LessThan blockVersion (semver_New 0 11 0) then Ok tt
  else verify_transactions_loop txs n.

(** ** Messages and addresses *)

(** The Keccak hash of a third-party package. *)
Context (Keccak256 : list Z -> list Z).

(** [core/crypto/keccak.go]; a hash has at least one byte. *)
Definition StarknetKeccak (b : list Z) : F :=
  match Keccak256 b with
  | d0 :: d => FromBytes (Z.land d0 3 :: d)
  | [] => FromBytes []
  end.

Definition MessageHash (l : L1HandlerTransaction) : OC (list Z) :=
  match l1_CallData l with
  | [] => Panic
  | from :: payload =>
      toAddress ← ptr (l1_ContractAddress l);
      selector ← ptr (l1_EntryPointSelector l);
      let len := Z.of_nat (List.length (l1_CallData l)) in
      let middle :=
        match l1_Nonce l with
        | Some nonce => felt_Bytes nonce ++ felt_Bytes selector ++ felt_Bytes (felt_of (len - 1) : F)
        | None => felt_Bytes (felt_of len : F) ++ felt_Bytes selector
        end in
      Ok (Keccak256 (felt_Bytes from ++ felt_Bytes toAddress ++ middle ++ concat (felt_Bytes <$> payload)))
  end.

Definition ContractAddress (callerAddress classHash salt : option F) (constructorCallData : list F) : OC F :=
  PedersenElems [Some (FromBytes (str "STARKNET_CONTRACT_ADDRESS")); callerAddress; salt; classHash;
    Some (PedersenArray constructorCallData)].

End core.

Arguments ResourceBounds F : clear implicits.
Arguments DeployTransaction F : clear implicits.
Arguments DeployAccountTransaction F : clear implicits.
Arguments InvokeTransaction F : clear implicits.
Arguments DeclareTransaction F : clear implicits.
Arguments L1HandlerTransaction F : clear implicits.
Arguments Transaction F : clear implicits.
Arguments BlockHashMetaInfo F : clear implicits.
Arguments Network F : clear implicits.
