(* ===== verification/TransactionFacts.v ===== *)
(** * What a transaction hash binds

    [content] is what a sender signs, as data: the fields of the transaction that
    its version has, with prices cut to 128 bits.  The hash of a transaction is
    the hash of an array ([top]) that contains the hashes of other arrays
    ([subs]); unless two of these arrays collide, two transactions with the same
    hash have the same content. *)
From stdpp Require Import prelude gmap list.
From Stdlib Require Import ZArith Lia.
From S2P Require Import Prelude Felt FeltArith Poseidon PoseidonFacts Transaction.

Local Open Scope Z_scope.

(** ** Machine integers in elements *)

Lemma be_bytes_inj n a b : 0 <= a < 256 ^ Z.of_nat n -> 0 <= b < 256 ^ Z.of_nat n -> be_bytes n a = be_bytes n b -> a = b.
Proof.
  intros Ha Hb E. apply (f_equal be_val) in E. rewrite !be_val_bytes, !Z.mod_small in E by done. done.
Qed.

Lemma dataAvailabilityMode_inj f n f' n' :
  0 <= f < 2 ^ 32 -> 0 <= n < 2 ^ 32 -> 0 <= f' < 2 ^ 32 -> 0 <= n' < 2 ^ 32 ->
  dataAvailabilityMode f n = dataAvailabilityMode f' n' -> f = f' /\ n = n'.
Proof.
  intros Hf Hn Hf' Hn'. unfold dataAvailabilityMode, shl64. rewrite !Z.shiftl_mul_pow2 by done.
  rewrite !(u64_small (_ * 2 ^ 32)) by lia. rewrite !u64_small by lia. lia.
Qed.

Lemma dataAvailabilityMode_range f n : is_u64 (dataAvailabilityMode f n).
Proof. apply u64_range. Qed.

(** Membership in a list that is written out. *)
Ltac in_list := solve [repeat first [apply list_elem_of_here | apply list_elem_of_further]].

(** The characters of a string are bytes. *)
Lemma str_bytes s : is_bytes (str s).
Proof.
  unfold str. apply Forall_fmap, Forall_true. intros c. pose proof (Ascii.nat_ascii_bounded c). cbn. lia.
Qed.

Section binding.
Context {F : Type} `{!FieldElement F} `{!FieldArith F} `{!FieldArithLaws F} `{!HashFns F} `{!Semver}.
Implicit Types (x y : F) (t : Transaction F) (n : Network F).

(** ** Arrays that are hashed *)

Inductive query :=
| QPed (l : list F)
| QPos (l : list F).

Definition run (q : query) : F := match q with QPed l => PedersenArray l | QPos l => PoseidonArray l end.

Definition no_collision (qs : list query) : Prop :=
  forall q q', q ∈ qs -> q' ∈ qs -> run q = run q' -> q = q'.

(** ** Content *)

(** Amount and price of the bounds of a resource. *)
Record resources := mkResources {
  rs_tip : Z;
  rs_l1 : Z * Z;
  rs_l2 : Z * Z;
  rs_data : option (Z * Z);
}.

Record damode := mkDA { da_fee : Z; da_nonce : Z }.

Inductive content :=
| CInvoke0 (version contract selector maxFee chain : F) (calldata : list F)
| CInvoke1 (version sender maxFee chain nonce : F) (calldata : list F)
| CInvoke3 (version sender chain nonce : F) (rs : resources) (da : damode)
    (paymaster deployment calldata facts : list F)
| CDeclare0 (version sender maxFee chain classHash : F)
| CDeclare1 (version sender maxFee chain nonce classHash : F)
| CDeclare2 (version sender maxFee chain nonce classHash compiled : F)
| CDeclare3 (version sender chain nonce classHash compiled : F) (rs : resources) (da : damode)
    (paymaster deployment : list F)
| CL1Handler (version contract selector chain nonce : F) (calldata : list F)
| CDeployAccount1 (version contract maxFee chain nonce classHash salt : F) (calldata : list F)
| CDeployAccount3 (version contract chain nonce classHash salt : F) (rs : resources) (da : damode)
    (paymaster calldata : list F).

(** The bounds of a resource, with values of the types of the source. *)
Definition bounds_of (rb : ResourceBounds F) : option (Z * Z) :=
  price ← MaxPricePerUnit rb;
  if bool_decide (is_u64 (MaxAmount rb)) then Some (MaxAmount rb, felt_val price mod 2 ^ 128) else None.

Definition resources_of (tip : Z) (rbs : gmap Z (ResourceBounds F)) : option resources :=
  b1 ← rbs !! ResourceL1Gas; l1 ← bounds_of b1;
  b2 ← rbs !! ResourceL2Gas; l2 ← bounds_of b2;
  if bool_decide (is_u64 tip) then
    match rbs !! ResourceL1DataGas with
    | Some (mkBounds a (Some p)) => d ← bounds_of (mkBounds a (Some p)); Some (mkResources tip l1 l2 (Some d))
    | _ => Some (mkResources tip l1 l2 None)
    end
  else None.

Definition damode_of (fee nonce : Z) : option damode :=
  if bool_decide (0 <= fee < 2 ^ 32 /\ 0 <= nonce < 2 ^ 32) then Some (mkDA fee nonce) else None.

(** The content of a transaction whose pointers are not nil and whose hash is
    computed. *)
Definition invoke_content (i : InvokeTransaction F) (chain : F) : option content :=
  v ← iv_Version i;
  if version_Is v 0 then
    c ← iv_ContractAddress i; s ← iv_EntryPointSelector i; m ← iv_MaxFee i;
    Some (CInvoke0 v c s m chain (iv_CallData i))
  else if version_Is v 1 then
    a ← iv_SenderAddress i; m ← iv_MaxFee i; k ← iv_Nonce i;
    Some (CInvoke1 v a m chain k (iv_CallData i))
  else if version_Is v 3 then
    a ← iv_SenderAddress i; k ← iv_Nonce i;
    rs ← resources_of (iv_Tip i) (iv_ResourceBounds i); da ← damode_of (iv_FeeDAMode i) (iv_NonceDAMode i);
    Some (CInvoke3 v a chain k rs da (iv_PaymasterData i) (iv_AccountDeploymentData i) (iv_CallData i) (iv_ProofFacts i))
  else None.

Definition declare_content (d : DeclareTransaction F) (chain : F) : option content :=
  v ← dc_Version d; a ← dc_SenderAddress d; h ← dc_ClassHash d;
  if version_Is v 0 then
    match dc_TransactionHash d with
    | None => m ← dc_MaxFee d; Some (CDeclare0 v a m chain h)
    | Some _ => None
    end
  else if version_Is v 1 then
    m ← dc_MaxFee d; k ← dc_Nonce d; Some (CDeclare1 v a m chain k h)
  else if version_Is v 2 then
    m ← dc_MaxFee d; k ← dc_Nonce d; c ← dc_CompiledClassHash d; Some (CDeclare2 v a m chain k h c)
  else if version_Is v 3 then
    k ← dc_Nonce d; c ← dc_CompiledClassHash d;
    rs ← resources_of (dc_Tip d) (dc_ResourceBounds d); da ← damode_of (dc_FeeDAMode d) (dc_NonceDAMode d);
    Some (CDeclare3 v a chain k h c rs da (dc_PaymasterData d) (dc_AccountDeploymentData d))
  else None.

Definition l1_content (l : L1HandlerTransaction F) (chain : F) : option content :=
  v ← l1_Version l; c ← l1_ContractAddress l; s ← l1_EntryPointSelector l; k ← l1_Nonce l;
  if version_Is v 0 then Some (CL1Handler v c s chain k (l1_CallData l)) else None.

Definition deploy_account_content (d : DeployAccountTransaction F) (chain : F) : option content :=
  let dp := da_Deploy d in
  v ← dp_Version dp; c ← dp_ContractAddress dp; k ← da_Nonce d; h ← dp_ClassHash dp; s ← dp_ContractAddressSalt dp;
  if version_Is v 1 then
    m ← da_MaxFee d; Some (CDeployAccount1 v c m chain k h s (dp_ConstructorCallData dp))
  else if version_Is v 3 then
    rs ← resources_of (da_Tip d) (da_ResourceBounds d); da ← damode_of (da_FeeDAMode d) (da_NonceDAMode d);
    Some (CDeployAccount3 v c chain k h s rs da (da_PaymasterData d) (dp_ConstructorCallData dp))
  else None.

Definition tx_content n t : option content :=
  let chain := L2ChainIDFelt n in
  match t with
  | TxDeploy _ => None
  | TxDeployAccount d => deploy_account_content d chain
  | TxDeclare d => declare_content d chain
  | TxInvoke i => invoke_content i chain
  | TxL1Handler l => l1_content l chain
  end.

(** ** The arrays of a content *)

Definition bounds_elem (r : Z) (b : Z * Z) : F :=
  FromBytes ([0] ++ Resource_String r ++ be_bytes 8 b.1 ++ be_bytes 16 b.2).

Definition resources_query (rs : resources) : query :=
  QPos ([felt_of (rs_tip rs); bounds_elem ResourceL1Gas (rs_l1 rs); bounds_elem ResourceL2Gas (rs_l2 rs)] ++
        match rs_data rs with Some b => [bounds_elem ResourceL1DataGas b] | None => [] end).

Definition da_elem (da : damode) : F := felt_of (dataAvailabilityMode (da_fee da) (da_nonce da)).

Definition facts_elems (facts : list F) : list F :=
  match facts with [] => [] | _ => [run (QPos facts)] end.

Definition top (c : content) : query :=
  match c with
  | CInvoke0 v c s m ch cd => QPed [invokeFelt; v; c; s; run (QPed cd); m; ch]
  | CInvoke1 v a m ch k cd => QPed [invokeFelt; v; a; felt_Zero; run (QPed cd); m; ch; k]
  | CInvoke3 v a ch k rs da pm dd cd facts =>
      QPos ([invokeFelt; v; a; run (resources_query rs); run (QPos pm); ch; k; da_elem da; run (QPos dd);
             run (QPos cd)] ++ facts_elems facts)
  | CDeclare0 v a m ch h => QPed [declareFelt; v; a; felt_Zero; run (QPed []); m; ch; h]
  | CDeclare1 v a m ch k h => QPed [declareFelt; v; a; felt_Zero; run (QPed [h]); m; ch; k]
  | CDeclare2 v a m ch k h c => QPed [declareFelt; v; a; felt_Zero; run (QPed [h]); m; ch; k; c]
  | CDeclare3 v a ch k h c rs da pm dd =>
      QPos [declareFelt; v; a; run (resources_query rs); run (QPos pm); ch; k; da_elem da; run (QPos dd); h; c]
  | CL1Handler v c s ch k cd => QPed [l1HandlerFelt; v; c; s; run (QPed cd); felt_Zero; ch; k]
  | CDeployAccount1 v c m ch k h s cd =>
      QPed [deployAccountFelt; v; c; felt_Zero; run (QPed (h :: s :: cd)); m; ch; k]
  | CDeployAccount3 v c ch k h s rs da pm cd =>
      QPos [deployAccountFelt; v; c; run (resources_query rs); run (QPos pm); ch; k; da_elem da; run (QPos cd); h; s]
  end.

Definition subs (c : content) : list query :=
  match c with
  | CInvoke0 _ _ _ _ _ cd | CInvoke1 _ _ _ _ _ cd | CL1Handler _ _ _ _ _ cd => [QPed cd]
  | CInvoke3 _ _ _ _ rs _ pm dd cd facts => [resources_query rs; QPos pm; QPos dd; QPos cd; QPos facts]
  | CDeclare0 _ _ _ _ _ => [QPed []]
  | CDeclare1 _ _ _ _ _ h | CDeclare2 _ _ _ _ _ h _ => [QPed [h]]
  | CDeclare3 _ _ _ _ _ _ rs _ pm dd => [resources_query rs; QPos pm; QPos dd]
  | CDeployAccount1 _ _ _ _ _ h s cd => [QPed (h :: s :: cd)]
  | CDeployAccount3 _ _ _ _ _ _ rs _ pm cd => [resources_query rs; QPos pm; QPos cd]
  end.

(** The arrays that are hashed for a content. *)
Definition queries (c : content) : list query := top c :: subs c.

(** ** The hash of a transaction is the hash of its content *)

Lemma price_bytes (p : F) : drop 16 (felt_Bytes p) = be_bytes 16 (felt_val p mod 2 ^ 128).
Proof.
  assert (E : felt_Bytes p = be_bytes (16 + 16) (felt_val p)).
  { unfold felt_val. symmetry. apply be_bytes_val; [apply felt_bytes_range|apply felt_bytes_length]. }
  rewrite E, drop_be_bytes. change (2 ^ 128) with (256 ^ Z.of_nat 16). by rewrite be_bytes_mod.
Qed.

Lemma bounds_Bytes_spec rb r b :
  bounds_of rb = Some b -> bounds_Bytes rb r = Ok ([0] ++ Resource_String r ++ be_bytes 8 b.1 ++ be_bytes 16 b.2).
Proof.
  unfold bounds_of, bounds_Bytes. destruct (MaxPricePerUnit rb) as [p|]; [|done]. simpl.
  case_bool_decide; [|done]. intros [= <-]. by rewrite price_bytes.
Qed.

Lemma poseidon_fed l : poseidon_Finish (poseidon_updateArray newPoseidonDigest l) = PoseidonArray l.
Proof. apply poseidon_absorb. Qed.

Lemma resources_hash tip rbs rs :
  resources_of tip rbs = Some rs -> tipAndResourcesHash tip rbs = Ok (run (resources_query rs)).
Proof.
  unfold resources_of, tipAndResourcesHash. destruct (rbs !! ResourceL1Gas) as [b1|]; [|done]. cbn [mbind option_bind default].
  destruct (bounds_of b1) as [l1|] eqn:E1; [|done]. destruct (rbs !! ResourceL2Gas) as [b2|]; [|done]. cbn [mbind option_bind default].
  destruct (bounds_of b2) as [l2|] eqn:E2; [|done]. simpl.
  case_bool_decide; [|done]. rewrite (bounds_Bytes_spec _ _ _ E1), (bounds_Bytes_spec _ _ _ E2).
  unfold mbind, outcome_bind. cbv beta iota zeta.
  destruct (rbs !! ResourceL1DataGas) as [[a [p|]]|].
  - destruct (bounds_of (mkBounds a (Some p))) as [d|] eqn:Ed; [|done]. intros [= <-]. cbn [MaxPricePerUnit].
    rewrite (bounds_Bytes_spec _ _ _ Ed). f_equal. apply (poseidon_fed [_; _; _; _]).
  - intros [= <-]. cbn [MaxPricePerUnit]. f_equal. apply (poseidon_fed [_; _; _]).
  - intros [= <-]. f_equal. apply (poseidon_fed [_; _; _]).
Qed.

(** Splits the pointers a content is made of. *)
Ltac split_ptrs :=
  repeat match goal with
  | |- (?o ≫= _) = Some _ -> _ => let E := fresh "E" in destruct o eqn:E; cbn [mbind option_bind]; [|done]
  end.

Lemma invoke_hash i n c : invoke_content i (L2ChainIDFelt n) = Some c -> invokeTransactionHash i n = Ok (run (top c)).
Proof.
  unfold invoke_content, invokeTransactionHash. destruct (iv_Version i) as [v|]; [|done].
  cbn [mbind option_bind]. change (ptr (Some v) ≫= ?k) with (k v). cbv beta.
  destruct (version_Is v 0); [|destruct (version_Is v 1); [|destruct (version_Is v 3); [|done]]]; split_ptrs.
  - intros [= <-]. done.
  - intros [= <-]. done.
  - intros [= <-]. erewrite resources_hash by eassumption. unfold update_ptrs, derefs, mbind, outcome_bind.
    cbn [mapM mbind option_bind mret option_ret]. unfold damode_of in *. case_bool_decide; simplify_eq.
    f_equal. cbn [top run].
    destruct (iv_ProofFacts i) as [|fact facts]; [symmetry; etransitivity; [symmetry; apply poseidon_fed|done]|].
    cbn [facts_elems run]. rewrite (poseidon_fed (fact :: facts)).
    symmetry. etransitivity; [symmetry; apply poseidon_fed|]. unfold poseidon_updateArray. by rewrite foldl_app.
Qed.

Lemma declare_hash d n c : declare_content d (L2ChainIDFelt n) = Some c -> declareTransactionHash d n = Ok (run (top c)).
Proof.
  unfold declare_content, declareTransactionHash. destruct (dc_Version d) as [v|]; [|done].
  cbn [mbind option_bind]. change (ptr (Some v) ≫= ?k) with (k v). cbv beta. split_ptrs.
  destruct (version_Is v 0); [|destruct (version_Is v 1); [|destruct (version_Is v 2); [|destruct (version_Is v 3); [|done]]]].
  - destruct (dc_TransactionHash d); [done|]. split_ptrs. by intros [= <-].
  - split_ptrs. by intros [= <-].
  - split_ptrs. by intros [= <-].
  - split_ptrs. intros [= <-]. erewrite resources_hash by eassumption. unfold damode_of in *.
    case_bool_decide; simplify_eq. done.
Qed.

Lemma l1_hash l n c : l1_content l (L2ChainIDFelt n) = Some c -> l1HandlerTransactionHash l n = Ok (run (top c)).
Proof.
  unfold l1_content, l1HandlerTransactionHash. destruct (l1_Version l) as [v|]; [|done].
  cbn [mbind option_bind]. change (ptr (Some v) ≫= ?k) with (k v). cbv beta. split_ptrs.
  destruct (version_Is v 0); [|done]. by intros [= <-].
Qed.

Lemma deploy_account_hash d n c :
  deploy_account_content d (L2ChainIDFelt n) = Some c -> deployAccountTransactionHash d n = Ok (run (top c)).
Proof.
  unfold deploy_account_content, deployAccountTransactionHash. cbv zeta. destruct (dp_Version (da_Deploy d)) as [v|]; [|done].
  cbn [mbind option_bind]. change (ptr (Some v) ≫= ?k) with (k v). cbv beta. split_ptrs.
  destruct (version_Is v 1); [|destruct (version_Is v 3); [|done]]; split_ptrs; intros [= <-].
  - done.
  - erewrite resources_hash by eassumption. unfold damode_of in *. case_bool_decide; simplify_eq. done.
Qed.

Lemma content_hash n t c : tx_content n t = Some c -> TransactionHash t n = Ok (run (top c)).
Proof.
  destruct t; [done|..]; cbn [tx_content TransactionHash];
    eauto using deploy_account_hash, declare_hash, invoke_hash, l1_hash.
Qed.

(** ** Elements determine what they are made of *)

Lemma FromBytes_inj (l k : list Z) :
  is_bytes l -> is_bytes k -> length l = length k -> be_val l < stark_prime -> be_val k < stark_prime ->
  (FromBytes l : F) = FromBytes k -> l = k.
Proof.
  intros Hl Hk Hn Hbl Hbk E. apply be_val_inj; [done|done|done|].
  rewrite <- (FromBytes_val (F:=F) l), <- (FromBytes_val (F:=F) k), E by done. done.
Qed.

Definition bounds_wf (b : Z * Z) : Prop := is_u64 b.1 /\ 0 <= b.2 < 2 ^ 128.

Lemma bounds_elem_inj r b b' :
  r ∈ [ResourceL1Gas; ResourceL2Gas; ResourceL1DataGas] -> bounds_wf b -> bounds_wf b' ->
  bounds_elem r b = bounds_elem r b' -> b = b'.
Proof.
  intros Hr [Ha Hp] [Ha' Hp']. unfold bounds_elem.
  assert (Hx : forall z : Z * Z, let l := [0] ++ Resource_String r ++ be_bytes 8 z.1 ++ be_bytes 16 z.2 in
    is_bytes l /\ (length l <= 32)%nat /\ be_val l < stark_prime /\ length l = (25 + length (Resource_String r))%nat).
  { intros z. cbv zeta.
    assert (Hs : is_bytes (Resource_String r) /\ (length (Resource_String r) <= 7)%nat).
    { rewrite !elem_of_cons in Hr.
      destruct Hr as [E|[E|[E|E]]]; [subst r..|by apply not_elem_of_nil in E]; (split; [by apply str_bytes|vm_compute; lia]). }
    destruct Hs as [Hs1 Hs2].
    assert (Hb : is_bytes (Resource_String r ++ be_bytes 8 z.1 ++ be_bytes 16 z.2)) by
      (repeat apply Forall_app_2; auto using be_bytes_range).
    assert (Hl : length (Resource_String r ++ be_bytes 8 z.1 ++ be_bytes 16 z.2) = (24 + length (Resource_String r))%nat) by
      (rewrite !length_app, !length_be_bytes; lia).
    split_and!.
    - constructor; [lia|done].
    - cbn [app length]. rewrite Hl. lia.
    - cbn [app]. rewrite be_val_cons, Z.mul_0_l, Z.add_0_l. pose proof (be_val_range _ Hb) as Hv.
      assert (256 ^ Z.of_nat (length (Resource_String r ++ be_bytes 8 z.1 ++ be_bytes 16 z.2)) <= 256 ^ 31) by
        (apply Z.pow_le_mono_r; lia).
      assert (256 ^ 31 < stark_prime) by done. lia.
    - cbn [app length]. rewrite Hl. lia. }
  intros E. destruct (Hx b) as (B1 & _ & B3 & B4), (Hx b') as (C1 & _ & C3 & C4).
  apply FromBytes_inj in E; [|done..|congruence|done|done].
  apply app_inv_head in E. apply app_inv_head in E.
  apply app_inj_1 in E as [E1 E2]; [|by rewrite !length_be_bytes].
  apply be_bytes_inj in E1, E2; try done. destruct b, b'. simpl in *. by subst.
Qed.

Definition resources_wf (rs : resources) : Prop :=
  is_u64 (rs_tip rs) /\ bounds_wf (rs_l1 rs) /\ bounds_wf (rs_l2 rs) /\
  match rs_data rs with Some b => bounds_wf b | None => True end.

Lemma resources_query_inj rs rs' :
  resources_wf rs -> resources_wf rs' -> resources_query rs = resources_query rs' -> rs = rs'.
Proof.
  intros (T & A & B & C) (T' & A' & B' & C'). unfold resources_query.
  destruct rs as [tip l1 l2 d], rs' as [tip' l1' l2' d']; cbn [rs_tip rs_l1 rs_l2 rs_data app] in *.
  intros [= E1 E2 E3 E4]. apply felt_of_u64_inj in E1; [|done|done].
  apply bounds_elem_inj in E2; [|set_solver|done|done]. apply bounds_elem_inj in E3; [|set_solver|done|done]. subst.
  destruct d as [b|], d' as [b'|]; try done. injection E4 as E4.
  apply bounds_elem_inj in E4; [|set_solver|done|done]. by subst.
Qed.

Definition da_wf (da : damode) : Prop := 0 <= da_fee da < 2 ^ 32 /\ 0 <= da_nonce da < 2 ^ 32.

Lemma da_elem_inj da da' : da_wf da -> da_wf da' -> da_elem da = da_elem da' -> da = da'.
Proof.
  intros [A B] [A' B'] E. apply felt_of_u64_inj in E; [|apply dataAvailabilityMode_range..].
  apply dataAvailabilityMode_inj in E as [? ?]; [|done..]. destruct da, da'. simpl in *. by subst.
Qed.

(** The prefixes of the kinds of transactions. *)
Lemma prefixes_distinct :
  NoDup [invokeFelt; declareFelt; l1HandlerFelt; deployAccountFelt : F].
Proof.
  assert (Hv : forall s, be_val (str s) < stark_prime -> felt_val (FromBytes (str s) : F) = be_val (str s))
    by (intros; apply FromBytes_val; auto using str_bytes).
  apply (NoDup_fmap_1 felt_val). cbn [fmap list_fmap].
  unfold invokeFelt, declareFelt, l1HandlerFelt, deployAccountFelt.
  rewrite !Hv by (vm_compute; done).
  vm_compute. repeat (constructor; [set_unfold; lia|]). constructor.
Qed.

(** ** Binding *)

Definition content_wf (c : content) : Prop :=
  match c with
  | CInvoke3 _ _ _ _ rs da _ _ _ _ | CDeclare3 _ _ _ _ _ _ rs da _ _
  | CDeployAccount3 _ _ _ _ _ _ rs da _ _ => resources_wf rs /\ da_wf da
  | _ => True
  end.

Lemma bounds_of_wf rb b : bounds_of rb = Some b -> bounds_wf b.
Proof.
  unfold bounds_of. destruct (MaxPricePerUnit rb) as [p|]; [|done]. simpl. case_bool_decide; [|done].
  intros [= <-]. split; [done|]. apply Z.mod_pos_bound. done.
Qed.

Lemma resources_of_wf tip rbs rs : resources_of tip rbs = Some rs -> resources_wf rs.
Proof.
  unfold resources_of. split_ptrs. case_bool_decide; [|done].
  destruct (rbs !! ResourceL1DataGas) as [[amount [price|]]|]; split_ptrs; intros [= <-];
    (split; [done|split; [by eapply bounds_of_wf|split; [by eapply bounds_of_wf|]]]); cbn [rs_data];
    [by eapply bounds_of_wf|done..].
Qed.

Lemma damode_of_wf f k da : damode_of f k = Some da -> da_wf da.
Proof. unfold damode_of. case_bool_decide; [|done]. intros [= <-]. done. Qed.

Lemma tx_content_wf n t c : tx_content n t = Some c -> content_wf c.
Proof.
  destruct t as [d|d|d|i|l]; [done|..];
    cbn [tx_content]; unfold deploy_account_content, declare_content, invoke_content, l1_content; cbv zeta; split_ptrs;
    repeat match goal with |- context [if version_Is ?v ?k then _ else _] => destruct (version_Is v k) end;
    split_ptrs; try done; try (destruct (dc_TransactionHash d)); split_ptrs;
    intros [= <-]; cbn; eauto using resources_of_wf, damode_of_wf.
Qed.

Lemma felt_prefix_ne (x y : F) i j :
  [invokeFelt; declareFelt; l1HandlerFelt; deployAccountFelt : F] !! i = Some x ->
  [invokeFelt; declareFelt; l1HandlerFelt; deployAccountFelt : F] !! j = Some y -> i ≠ j -> x ≠ y.
Proof. intros Hi Hj Hn ->. by destruct Hn; eapply NoDup_lookup; [apply prefixes_distinct|..]. Qed.

Lemma prefix_neqs :
  (invokeFelt : F) ≠ declareFelt /\ (invokeFelt : F) ≠ l1HandlerFelt /\ (invokeFelt : F) ≠ deployAccountFelt /\
  (declareFelt : F) ≠ l1HandlerFelt /\ (declareFelt : F) ≠ deployAccountFelt /\ (l1HandlerFelt : F) ≠ deployAccountFelt.
Proof.
  split_and!; [apply (felt_prefix_ne _ _ 0 1)|apply (felt_prefix_ne _ _ 0 2)|apply (felt_prefix_ne _ _ 0 3)
    |apply (felt_prefix_ne _ _ 1 2)|apply (felt_prefix_ne _ _ 1 3)|apply (felt_prefix_ne _ _ 2 3)]; done.
Qed.

Lemma facts_elems_inj Q facts facts' :
  no_collision Q -> QPos facts ∈ Q -> QPos facts' ∈ Q -> facts_elems facts = facts_elems facts' -> facts = facts'.
Proof.
  intros HQ H1 H2. destruct facts as [|a l], facts' as [|a' l']; try done. intros [= E].
  by apply (HQ (QPos _) (QPos _)) in E as [= -> ->].
Qed.

(** Arrays with the same hash are equal when they are among those that do not
    collide. *)
Ltac same_array HQ :=
  repeat match goal with
  | E : run ?q = run ?q' |- _ => apply HQ in E; [|in_list|in_list]
  | E : QPed _ = QPed _ |- _ => injection E as E
  | E : QPos _ = QPos _ |- _ => injection E as E
  end.

#[local] Opaque run resources_query da_elem facts_elems.

Lemma content_binding c c' :
  content_wf c -> content_wf c' -> no_collision (queries c ++ queries c') ->
  run (top c) = run (top c') -> c = c'.
Proof.
  intros Hw Hw' HQ E.
  assert (Et : top c = top c').
  { apply HQ; [apply elem_of_app; left; apply list_elem_of_here|apply elem_of_app; right; apply list_elem_of_here|done]. }
  clear E.
  destruct prefix_neqs as (N1 & N2 & N3 & N4 & N5 & N6).
  destruct c, c'; cbn [top app] in Et; try discriminate Et; injection Et; intros; try congruence;
    unfold queries in HQ; cbn [subs content_wf app] in HQ, Hw, Hw'; same_array HQ; try congruence.
  all: destruct Hw as [Hr Hd], Hw' as [Hr' Hd'].
  all: match goal with E : resources_query _ = resources_query _ |- _ => apply resources_query_inj in E; [|done|done] end.
  all: match goal with E : da_elem _ = da_elem _ |- _ => apply da_elem_inj in E; [|done|done] end.
  all: try match goal with E : facts_elems _ = facts_elems _ |- _ =>
         apply (facts_elems_inj _ _ _ HQ) in E; [|in_list|in_list] end.
  all: subst; congruence.
Qed.

#[local] Transparent run resources_query da_elem facts_elems.

(** C21: unless two of the arrays that are hashed for them collide, two transactions
    with the same hash have the same kind, version and content: sender, fee, nonce,
    chain, resource bounds (amounts, and prices modulo two to the 128), tip,
    availability modes, call data, and the other fields their version has.  The
    signature is not part of the content. *)
Theorem transaction_hash_binds n n' t t' c c' h :
  tx_content n t = Some c -> tx_content n' t' = Some c' ->
  TransactionHash t n = Ok h -> TransactionHash t' n' = Ok h ->
  no_collision (queries c ++ queries c') -> c = c'.
Proof.
  intros Hc Hc' Hh Hh' HQ. rewrite (content_hash n t c Hc) in Hh. rewrite (content_hash n' t' c' Hc') in Hh'.
  apply content_binding; eauto using tx_content_wf. congruence.
Qed.

End binding.

Arguments query F : clear implicits.
Arguments content F : clear implicits.
