(* ===== verification/StateDiff.v ===== *)
(** * State diffs

    [src/core/state_update.go]: what a block changes in the state, its length, the
    merge of two diffs, and its hash and commitment.  A Go map is a [gmap]; the
    values that are pointers are options.  The functions that hash a diff sort the
    slice of declared classes in place: they return the diff as well.  The second
    part proves that the hash determines the diff. *)
From stdpp Require Import prelude gmap strings list.
From Stdlib Require Import ZArith Lia.
From S2P Require Import Prelude Felt FeltArith Poseidon PoseidonFacts Transaction TransactionFacts.

Local Open Scope Z_scope.

Section diff.
Context {F : Type} `{!FieldElement F} `{!FieldArith F} `{!HashFns F}.

Record StateDiff := mkDiff {
  StorageDiffs : gmap F (gmap F (option F));
  Nonces : gmap F (option F);
  DeployedContracts : gmap F (option F);
  DeclaredV0Classes : list (option F);
  DeclaredV1Classes : gmap F (option F);
  ReplacedClasses : gmap F (option F);
  MigratedClasses : gmap F F;
}.

Definition EmptyStateDiff : StateDiff := mkDiff ∅ ∅ ∅ [] ∅ ∅ ∅.

Abbreviation len m := (Z.of_nat (size m)).

(** The sum of lengths of the storage maps, whatever the order. *)
Definition storage_length (s : gmap F (gmap F (option F))) : Z :=
  foldr (fun kv acc => len kv.2 + acc) 0 (map_to_list s).

Definition Length (d : StateDiff) : Z :=
  u64 (i64 (storage_length (StorageDiffs d) + len (Nonces d) + len (DeployedContracts d) +
    Z.of_nat (length (DeclaredV0Classes d)) + len (DeclaredV1Classes d) + len (ReplacedClasses d) +
    len (MigratedClasses d))).

(** [maps.Copy]: the entries of the source replace those of the destination. *)
Definition maps_Copy {V} (dst src : gmap F V) : gmap F V := src ∪ dst.

Definition merge_storage (dst src : gmap F (gmap F (option F))) : gmap F (gmap F (option F)) :=
  foldl (fun acc kv =>
    match acc !! kv.1 with
    | Some old => <[kv.1 := maps_Copy old kv.2]> acc
    | None => <[kv.1 := kv.2]> acc
    end) dst (map_to_list src).

Definition Merge (d incoming : StateDiff) : StateDiff :=
  mkDiff (merge_storage (StorageDiffs d) (StorageDiffs incoming))
    (maps_Copy (Nonces d) (Nonces incoming))
    (maps_Copy (DeployedContracts d) (DeployedContracts incoming))
    (DeclaredV0Classes d ++ DeclaredV0Classes incoming)
    (maps_Copy (DeclaredV1Classes d) (DeclaredV1Classes incoming))
    (maps_Copy (ReplacedClasses d) (ReplacedClasses incoming))
    (maps_Copy (MigratedClasses d) (MigratedClasses incoming)).

(** ** Digests *)

Abbreviation OC := (outcome coreError).
Abbreviation digest := (PoseidonDigest F).

Definition felt_less (a b : F) : bool := felt_Cmp a b <? 0.

Definition sortedFeltKeys {V} (m : gmap F V) : list F := sort_slice felt_less (map_to_list m).*1.

(** An entry: the key, then what its value points to. *)
Definition digest_entry (d : digest) (k : F) (v : option F) : OC digest :=
  x ← ptr v; Ok (poseidon_update (poseidon_update d k) x).

(** The entries of a map at keys. *)
Fixpoint digest_entries (d : digest) (m : gmap F (option F)) (keys : list F) : OC digest :=
  match keys with
  | [] => Ok d
  | k :: ks => d' ← digest_entry d k (default None (m !! k)); digest_entries d' m ks
  end.

Definition updatedContractsDigest (deployedContracts replacedClasses : gmap F (option F)) (d : digest) : OC digest :=
  let numOfUpdatedContracts := u64 (i64 (len deployedContracts + len replacedClasses)) in
  let d := poseidon_update d (felt_of numOfUpdatedContracts) in
  let updatedContracts := maps_Copy (maps_Copy ∅ deployedContracts) replacedClasses in
  digest_entries d updatedContracts (sortedFeltKeys updatedContracts).

Fixpoint digest_classes (d : digest) (declaredClasses : gmap F (option F)) (migratedClasses : gmap F F)
    (keys : list F) : OC digest :=
  match keys with
  | [] => Ok d
  | k :: ks =>
      d' ← match declaredClasses !! k with
           | Some casmHash => digest_entry d k casmHash
           | None => digest_entry d k (Some (default felt_Zero (migratedClasses !! k)))
           end;
      digest_classes d' declaredClasses migratedClasses ks
  end.

Definition declaredClassesDigest (declaredClasses : gmap F (option F)) (migratedClasses : gmap F F) (d : digest) : OC digest :=
  let mapsLen := i64 (len declaredClasses + len migratedClasses) in
  let d := poseidon_update d (felt_of (u64 mapsLen)) in
  let keys := sort_slice felt_less ((map_to_list declaredClasses).*1 ++ (map_to_list migratedClasses).*1) in
  digest_classes d declaredClasses migratedClasses keys.

(** The classes are sorted in place: the sorted slice is returned. *)
Definition deprecatedDeclaredClassesDigest (declaredV0Classes : list (option F)) (d : digest)
  : OC (digest * list (option F)) :=
  let d := poseidon_update d (felt_of (Z.of_nat (length declaredV0Classes))) in
  xs ← derefs declaredV0Classes;
  let sorted := sort_slice felt_less xs in
  Ok (poseidon_updateArray d sorted, Some <$> sorted).

Fixpoint digest_storage (d : digest) (storageDiffs : gmap F (gmap F (option F))) (addrs : list F) : OC digest :=
  match addrs with
  | [] => Ok d
  | addr :: rest =>
      let diffs := default ∅ (storageDiffs !! addr) in
      let sortedDiffKeys := sortedFeltKeys diffs in
      let d := poseidon_update (poseidon_update d addr) (felt_of (Z.of_nat (length sortedDiffKeys))) in
      d' ← digest_entries d diffs sortedDiffKeys;
      digest_storage d' storageDiffs rest
  end.

Definition storageDiffDigest (storageDiffs : gmap F (gmap F (option F))) (d : digest) : OC digest :=
  let d := poseidon_update d (felt_of (len storageDiffs)) in
  digest_storage d storageDiffs (sortedFeltKeys storageDiffs).

Definition noncesDigest (nonces : gmap F (option F)) (d : digest) : OC digest :=
  let d := poseidon_update d (felt_of (len nonces)) in
  digest_entries d nonces (sortedFeltKeys nonces).

Definition starknetStateDiff0 : F := FromBytes (str "STARKNET_STATE_DIFF0"%string).

(** The diff with its classes sorted. *)
Definition set_V0 (d : StateDiff) (l : list (option F)) : StateDiff :=
  mkDiff (StorageDiffs d) (Nonces d) (DeployedContracts d) l (DeclaredV1Classes d) (ReplacedClasses d) (MigratedClasses d).

Definition StateDiff_Hash (d : StateDiff) : OC (F * StateDiff) :=
  let dg := poseidon_update newPoseidonDigest starknetStateDiff0 in
  dg ← updatedContractsDigest (DeployedContracts d) (ReplacedClasses d) dg;
  dg ← declaredClassesDigest (DeclaredV1Classes d) (MigratedClasses d) dg;
  '(dg, sorted) ← deprecatedDeclaredClassesDigest (DeclaredV0Classes d) dg;
  let dg := poseidon_update (poseidon_update dg felt_One) felt_Zero in
  dg ← storageDiffDigest (StorageDiffs d) dg;
  dg ← noncesDigest (Nonces d) dg;
  Ok (poseidon_Finish dg, set_V0 d sorted).

Definition StateDiff_Commitment (d : StateDiff) : OC (F * StateDiff) :=
  let version : F := felt_Zero in
  hashOfDeployedContracts ← updatedContractsDigest (DeployedContracts d) (ReplacedClasses d) newPoseidonDigest;
  hashOfDeclaredClasses ← declaredClassesDigest (DeclaredV1Classes d) (MigratedClasses d) newPoseidonDigest;
  '(hashOfOldDeclaredClasses, sorted) ← deprecatedDeclaredClassesDigest (DeclaredV0Classes d) newPoseidonDigest;
  hashOfStorageDomain ← storageDiffDigest (StorageDiffs d) newPoseidonDigest;
  hashOfStorageDomain ← noncesDigest (Nonces d) hashOfStorageDomain;
  let commitmentDigest :=
    poseidon_updateArray newPoseidonDigest
      [version; poseidon_Finish hashOfDeployedContracts; poseidon_Finish hashOfDeclaredClasses;
       poseidon_Finish hashOfOldDeclaredClasses; felt_of 1; felt_of 0; poseidon_Finish hashOfStorageDomain] in
  Ok (poseidon_Finish commitmentDigest, set_V0 d sorted).

End diff.

Arguments StateDiff F {_}.

(** * What the hash of a state diff binds

    The hash is that of one array ([diff_array]), in which every list comes after
    its length.  Unless two arrays collide, diffs with the same hash change the
    same contracts, classes, storage cells and nonces. *)

Section facts.
Context {F : Type} `{!FieldElement F} `{!FieldArith F} `{!FieldArithLaws F} `{!HashFns F}.
Implicit Types (m : gmap F (option F)) (d : StateDiff F) (l : list (F * F)).

(** ** Sorted keys *)

Lemma elem_sorted_keys {V} (m : gmap F V) k : k ∈ sortedFeltKeys m <-> is_Some (m !! k).
Proof.
  unfold sortedFeltKeys. rewrite sort_slice_perm, list_elem_of_fmap. split.
  - intros ([k' v] & -> & Hv). apply elem_of_map_to_list in Hv. by eexists.
  - intros [v Hv]. exists (k, v). by rewrite elem_of_map_to_list.
Qed.

Lemma length_sorted_keys {V} (m : gmap F V) : length (sortedFeltKeys m) = size m.
Proof. unfold sortedFeltKeys. by rewrite sort_slice_perm, length_fmap, length_map_to_list. Qed.

(** ** Association lists *)

(** What a value points to; [no_nil] is assumed of the maps. *)
Definition valof (v : option (option F)) : F := default felt_Zero (default None v).

Definition alist m : list (F * F) := (fun k => (k, valof (m !! k))) <$> sortedFeltKeys m.

Definition no_nil m : Prop := forall k, m !! k ≠ Some None.

Lemma elem_alist m k v : no_nil m -> (k, v) ∈ alist m <-> m !! k = Some (Some v).
Proof.
  intros Hn. unfold alist. rewrite list_elem_of_fmap. split.
  - intros (k' & [= -> ->] & Hk). apply elem_sorted_keys in Hk as [[w|] Hk]; [by rewrite Hk|by destruct (Hn k')].
  - intros E. exists k. unfold valof. rewrite E. split; [done|]. apply elem_sorted_keys. by eexists.
Qed.

Lemma alist_inj m m' : no_nil m -> no_nil m' -> alist m = alist m' -> m = m'.
Proof.
  intros Hn Hn' E. apply map_eq. intros k.
  destruct (m !! k) as [[v|]|] eqn:Ek; [|by destruct (Hn k)|].
  - apply elem_alist in Ek; [|done]. rewrite E in Ek. apply elem_alist in Ek; [|done]. done.
  - destruct (m' !! k) as [[v|]|] eqn:Ek'; [|by destruct (Hn' k)|done].
    apply elem_alist in Ek'; [|done]. rewrite <- E in Ek'. apply elem_alist in Ek'; [|done]. congruence.
Qed.

Lemma length_alist m : length (alist m) = size m.
Proof. unfold alist. by rewrite length_fmap, length_sorted_keys. Qed.

Fixpoint flat l : list F := match l with [] => [] | (k, v) :: l' => k :: v :: flat l' end.

Lemma flat_inj l l' r r' : length l = length l' -> flat l ++ r = flat l' ++ r' -> l = l' /\ r = r'.
Proof.
  revert l'. induction l as [|[k v] l IH]; intros [|[k' v'] l'] Hl E; try done.
  cbn [flat app] in E. injection E as -> -> E. simpl in Hl. apply IH in E as [-> ->]; [done|lia].
Qed.

(** A list after its length. *)
Definition counted l : list F := felt_of (Z.of_nat (length l)) :: flat l.

Definition small (n : nat) : Prop := Z.of_nat n < 2 ^ 63.

Lemma counted_inj l l' r r' :
  small (length l) -> small (length l') -> counted l ++ r = counted l' ++ r' -> l = l' /\ r = r'.
Proof.
  unfold small. intros Hs Hs' E. unfold counted in E. cbn [app] in E. injection E as E1 E2.
  apply felt_of_u64_inj in E1; [|lia|lia]. apply flat_inj in E2; [done|lia].
Qed.

(** ** Digests as arrays *)

Lemma digest_entries_spec dg m ks :
  (forall k, k ∈ ks -> exists v, m !! k = Some (Some v)) ->
  digest_entries dg m ks = Ok (poseidon_updateArray dg (flat ((fun k => (k, valof (m !! k))) <$> ks))).
Proof.
  revert dg. induction ks as [|k ks IH]; intros dg Hk; [done|].
  cbn [digest_entries]. destruct (Hk k ltac:(set_solver)) as [v Hv]. rewrite Hv. change (default None (Some (Some v))) with (Some v).
  unfold digest_entry, ptr, mbind, outcome_bind. cbv beta iota. rewrite IH by set_solver. cbn [fmap list_fmap flat]. rewrite Hv. done.
Qed.

Lemma digest_map_spec dg m :
  no_nil m -> digest_entries dg m (sortedFeltKeys m) = Ok (poseidon_updateArray dg (flat (alist m))).
Proof.
  intros Hn. apply digest_entries_spec. intros k Hk. apply elem_sorted_keys in Hk as [[v|] Hk]; [by eexists|by destruct (Hn k)].
Qed.

Lemma updateArray_app (dg : PoseidonDigest F) xs ys :
  poseidon_updateArray (poseidon_updateArray dg xs) ys = poseidon_updateArray dg (xs ++ ys).
Proof. unfold poseidon_updateArray. by rewrite foldl_app. Qed.

Lemma update_array1 (dg : PoseidonDigest F) x : poseidon_update dg x = poseidon_updateArray dg [x].
Proof. done. Qed.

(** ** Well-formed diffs *)

Definition updated_contracts d : gmap F (option F) := ReplacedClasses d ∪ DeployedContracts d.
Definition casm_classes d : gmap F (option F) := DeclaredV1Classes d ∪ (Some <$> MigratedClasses d).

(** No nil pointers, lengths that fit an [int], and what the sequencer
    guarantees: a contract is not deployed and replaced, a class not declared and
    migrated, in the same diff. *)
Record diff_wf d : Prop := {
  wf_updated : no_nil (updated_contracts d);
  wf_classes : no_nil (DeclaredV1Classes d);
  wf_nonces : no_nil (Nonces d);
  wf_storage a s : StorageDiffs d !! a = Some s -> no_nil s /\ small (size s);
  wf_v0 : Forall is_Some (DeclaredV0Classes d);
  wf_disjoint : DeployedContracts d ##ₘ ReplacedClasses d;
  wf_disjoint_classes : DeclaredV1Classes d ##ₘ (Some <$> MigratedClasses d);
  wf_sizes : small (size (DeployedContracts d) + size (ReplacedClasses d)) /\
    small (size (DeclaredV1Classes d) + size (MigratedClasses d)) /\
    small (length (DeclaredV0Classes d)) /\ small (size (StorageDiffs d)) /\ small (size (Nonces d));
}.

(** The classes in the order in which they are hashed. *)
Definition class_keys d : list F :=
  sort_slice felt_less ((map_to_list (DeclaredV1Classes d)).*1 ++ (map_to_list (MigratedClasses d)).*1).
Definition class_alist d : list (F * F) := (fun k => (k, valof (casm_classes d !! k))) <$> class_keys d.

Definition v0_sorted d : list F := sort_slice felt_less (omap id (DeclaredV0Classes d)).

(** The storage of the contracts, each with its sorted entries. *)
Definition storage_alist d : list (F * list (F * F)) :=
  (fun a => (a, alist (default ∅ (StorageDiffs d !! a)))) <$> sortedFeltKeys (StorageDiffs d).

Definition flat_storage (s : list (F * list (F * F))) : list F := concat ((fun '(a, l) => a :: counted l) <$> s).

Definition diff_array d : list F :=
  [starknetStateDiff0] ++ counted (alist (updated_contracts d)) ++ counted (class_alist d) ++
  (felt_of (Z.of_nat (length (v0_sorted d))) :: v0_sorted d) ++ [felt_One; felt_Zero] ++
  (felt_of (Z.of_nat (length (storage_alist d))) :: flat_storage (storage_alist d)) ++ counted (alist (Nonces d)).

Lemma u64_i64_small z : 0 <= z < 2 ^ 63 -> u64 (i64 z) = z.
Proof. intros Hz. rewrite i64_small, u64_small; lia. Qed.

Lemma updated_digest_spec d dg :
  diff_wf d ->
  updatedContractsDigest (DeployedContracts d) (ReplacedClasses d) dg =
    Ok (poseidon_updateArray dg (counted (alist (updated_contracts d)))).
Proof.
  intros Hw. destruct (wf_sizes d Hw) as (Hs & _). unfold small in Hs.
  unfold updatedContractsDigest, maps_Copy. cbv zeta. rewrite map_union_empty. fold (updated_contracts d).
  rewrite digest_map_spec by apply Hw. f_equal. rewrite update_array1, updateArray_app. f_equal.
  unfold counted. rewrite length_alist. unfold updated_contracts at 2.
  rewrite map_size_disj_union by (symmetry; apply Hw). cbn [app]. f_equal. f_equal. rewrite u64_i64_small; lia.
Qed.

Lemma elem_class_keys d k : k ∈ class_keys d <-> is_Some (casm_classes d !! k).
Proof.
  unfold class_keys, casm_classes. rewrite sort_slice_perm, elem_of_app, !list_elem_of_fmap.
  rewrite lookup_union_is_Some, lookup_fmap, fmap_is_Some. split.
  - intros [([k' v] & -> & Hv)|([k' v] & -> & Hv)]; apply elem_of_map_to_list in Hv; [left|right]; by eexists.
  - intros [[v Hv]|[v Hv]]; [left|right]; exists (k, v); by rewrite elem_of_map_to_list.
Qed.

Lemma casm_no_nil d : diff_wf d -> no_nil (casm_classes d).
Proof.
  intros Hw k. unfold casm_classes. rewrite lookup_union_Some_raw, lookup_fmap. pose proof (wf_classes d Hw k).
  intros [?|[_ E]]; [done|]. by destruct (MigratedClasses d !! k).
Qed.

Lemma elem_class_alist d k v : diff_wf d -> (k, v) ∈ class_alist d <-> casm_classes d !! k = Some (Some v).
Proof.
  intros Hw. pose proof (casm_no_nil d Hw) as Hn. unfold class_alist. rewrite list_elem_of_fmap. split.
  - intros (k' & [= -> ->] & Hk). apply elem_class_keys in Hk as [[w|] Hk]; [by rewrite Hk|by destruct (Hn k')].
  - intros E. exists k. unfold valof. rewrite E. split; [done|]. apply elem_class_keys. by eexists.
Qed.

Lemma class_alist_inj d d' : diff_wf d -> diff_wf d' -> class_alist d = class_alist d' -> casm_classes d = casm_classes d'.
Proof.
  intros Hw Hw' E. pose proof (casm_no_nil d Hw) as Hn. pose proof (casm_no_nil d' Hw') as Hn'.
  apply map_eq. intros k. destruct (casm_classes d !! k) as [[v|]|] eqn:Ek; [|by destruct (Hn k)|].
  - apply elem_class_alist in Ek; [|done]. rewrite E in Ek. apply elem_class_alist in Ek; [|done]. done.
  - destruct (casm_classes d' !! k) as [[v|]|] eqn:Ek'; [|by destruct (Hn' k)|done].
    apply elem_class_alist in Ek'; [|done]. rewrite <- E in Ek'. apply elem_class_alist in Ek'; [|done]. congruence.
Qed.

Lemma length_class_alist d : length (class_alist d) = (size (DeclaredV1Classes d) + size (MigratedClasses d))%nat.
Proof.
  unfold class_alist, class_keys. rewrite length_fmap, sort_slice_perm, length_app, !length_fmap, !length_map_to_list. done.
Qed.

Lemma digest_classes_spec d dg ks :
  diff_wf d -> (forall k, k ∈ ks -> is_Some (casm_classes d !! k)) ->
  digest_classes dg (DeclaredV1Classes d) (MigratedClasses d) ks =
    Ok (poseidon_updateArray dg (flat ((fun k => (k, valof (casm_classes d !! k))) <$> ks))).
Proof.
  intros Hw. revert dg. induction ks as [|k ks IH]; intros dg Hk; [done|].
  cbn [digest_classes fmap list_fmap flat]. destruct (Hk k ltac:(set_solver)) as [c Hc].
  assert (Hx : exists v, casm_classes d !! k = Some (Some v) /\
    match DeclaredV1Classes d !! k with
    | Some casmHash => digest_entry dg k casmHash
    | None => digest_entry dg k (Some (default felt_Zero (MigratedClasses d !! k)))
    end = Ok (poseidon_update (poseidon_update dg k) v)).
  { unfold casm_classes in *. rewrite lookup_union, lookup_fmap in *. pose proof (wf_classes d Hw k) as Hn.
    destruct (DeclaredV1Classes d !! k) as [[v|]|]; [|done|].
    - exists v. by rewrite union_Some_l || (destruct (MigratedClasses d !! k); done).
    - destruct (MigratedClasses d !! k) as [v|]; [|done]. by exists v. }
  destruct Hx as (v & Ev & ->). unfold mbind, outcome_bind. rewrite IH by set_solver.
  rewrite Ev. done.
Qed.

Lemma declared_digest_spec d dg :
  diff_wf d ->
  declaredClassesDigest (DeclaredV1Classes d) (MigratedClasses d) dg =
    Ok (poseidon_updateArray dg (counted (class_alist d))).
Proof.
  intros Hw. destruct (wf_sizes d Hw) as (_ & Hs & _). unfold small in Hs.
  unfold declaredClassesDigest. cbv zeta. fold (class_keys d).
  rewrite (digest_classes_spec d) by (done || intros k; apply elem_class_keys).
  f_equal. rewrite update_array1, updateArray_app. f_equal. unfold counted. rewrite length_class_alist.
  cbn [app]. f_equal. f_equal. rewrite u64_i64_small; lia.
Qed.

Lemma derefs_omap {E A} (l : list (option A)) : Forall is_Some l -> derefs (E:=E) l = Ok (omap id l).
Proof.
  intros Hl. unfold derefs. replace (mapM (fun x => x) l) with (Some (omap id l)); [done|].
  symmetry. induction Hl as [|x l [a ->] Hl IH]; [done|]. cbn [mapM mbind option_bind omap list_omap id]. by rewrite IH.
Qed.

Lemma length_v0_sorted d : diff_wf d -> length (v0_sorted d) = length (DeclaredV0Classes d).
Proof.
  intros Hw. unfold v0_sorted. rewrite sort_slice_perm. pose proof (wf_v0 d Hw) as H.
  induction H as [|x l [a ->] Hl IH]; [done|].
  change (omap id (Some a :: l)) with (a :: omap id l). cbn [length]. by rewrite IH.
Qed.

Lemma v0_digest_spec d dg :
  diff_wf d ->
  deprecatedDeclaredClassesDigest (DeclaredV0Classes d) dg =
    Ok (poseidon_updateArray dg (felt_of (Z.of_nat (length (v0_sorted d))) :: v0_sorted d), Some <$> v0_sorted d).
Proof.
  intros Hw. unfold deprecatedDeclaredClassesDigest. rewrite derefs_omap by apply Hw.
  unfold mbind, outcome_bind. by rewrite length_v0_sorted.
Qed.

Lemma digest_storage_spec d dg addrs :
  diff_wf d -> (forall a, a ∈ addrs -> is_Some (StorageDiffs d !! a)) ->
  digest_storage dg (StorageDiffs d) addrs =
    Ok (poseidon_updateArray dg (flat_storage ((fun a => (a, alist (default ∅ (StorageDiffs d !! a)))) <$> addrs))).
Proof.
  intros Hw. revert dg. induction addrs as [|a addrs IH]; intros dg Ha; [done|].
  cbn [digest_storage]. cbv zeta. destruct (Ha a ltac:(set_solver)) as [s Hs].
  destruct (wf_storage d Hw a s Hs) as [Hn _].
  assert (Hd : no_nil (default ∅ (StorageDiffs d !! a))) by (rewrite Hs; done).
  rewrite digest_map_spec by done. unfold mbind, outcome_bind. rewrite IH by set_solver.
  f_equal. rewrite !update_array1, !updateArray_app. f_equal.
  unfold flat_storage. cbn [fmap list_fmap concat]. unfold counted. rewrite length_alist, length_sorted_keys. done.
Qed.

Lemma length_storage_alist d : length (storage_alist d) = size (StorageDiffs d).
Proof. unfold storage_alist. by rewrite length_fmap, length_sorted_keys. Qed.

Lemma storage_digest_spec d dg :
  diff_wf d ->
  storageDiffDigest (StorageDiffs d) dg =
    Ok (poseidon_updateArray dg (felt_of (Z.of_nat (length (storage_alist d))) :: flat_storage (storage_alist d))).
Proof.
  intros Hw. unfold storageDiffDigest. cbv zeta.
  rewrite digest_storage_spec by (done || intros a; apply elem_sorted_keys).
  by rewrite update_array1, updateArray_app, length_storage_alist.
Qed.

Lemma nonces_digest_spec d dg :
  diff_wf d -> noncesDigest (Nonces d) dg = Ok (poseidon_updateArray dg (counted (alist (Nonces d)))).
Proof.
  intros Hw. unfold noncesDigest. cbv zeta. rewrite digest_map_spec by apply Hw.
  by rewrite update_array1, updateArray_app; unfold counted; rewrite length_alist.
Qed.

(** The hash of a diff is the hash of its array; the classes are left sorted. *)
Lemma StateDiff_Hash_spec d :
  diff_wf d -> StateDiff_Hash d = Ok (PoseidonArray (diff_array d), set_V0 d (Some <$> v0_sorted d)).
Proof.
  intros Hw. unfold StateDiff_Hash. cbv zeta. unfold mbind, outcome_bind.
  rewrite updated_digest_spec, declared_digest_spec, v0_digest_spec by done.
  rewrite storage_digest_spec, nonces_digest_spec by done. f_equal. f_equal.
  rewrite !update_array1, !updateArray_app. rewrite poseidon_fed. unfold diff_array. by rewrite <- ?app_assoc.
Qed.

(** ** Binding *)

(** The parts of two diffs that the hash compares. *)
Definition same_changes d d' : Prop :=
  updated_contracts d = updated_contracts d' /\ casm_classes d = casm_classes d' /\
  omap id (DeclaredV0Classes d) ≡ₚ omap id (DeclaredV0Classes d') /\
  StorageDiffs d = StorageDiffs d' /\ Nonces d = Nonces d'.

Lemma cons_eq {A} (x y : A) (l k : list A) : x :: l = y :: k -> x = y /\ l = k.
Proof. by intros [= -> ->]. Qed.

Lemma flat_storage_inj s s' r r' :
  length s = length s' -> Forall (fun x => small (length x.2)) s -> Forall (fun x => small (length x.2)) s' ->
  flat_storage s ++ r = flat_storage s' ++ r' -> s = s' /\ r = r'.
Proof.
  revert s'. induction s as [|[a l] s IH]; intros [|[a' l'] s'] Hl Hs Hs' E; try done.
  apply Forall_cons in Hs as [Hx Hs], Hs' as [Hx' Hs']. unfold flat_storage in E.
  cbn [fmap list_fmap concat app] in E.
  apply cons_eq in E as [-> E]. rewrite <- !app_assoc in E.
  apply counted_inj in E as [-> E]; [|done|done]. simpl in Hl.
  apply IH in E as [-> ->]; [done|lia|done|done].
Qed.

Lemma storage_alist_inj d d' :
  diff_wf d -> diff_wf d' -> storage_alist d = storage_alist d' -> StorageDiffs d = StorageDiffs d'.
Proof.
  intros Hw Hw' E.
  assert (Hx : forall e : StateDiff F, forall a l, (a, l) ∈ storage_alist e <-> exists s, StorageDiffs e !! a = Some s /\ l = alist s).
  { intros e a l. unfold storage_alist. rewrite list_elem_of_fmap. split.
    - intros (b & [= -> ->] & Hb). apply elem_sorted_keys in Hb as [s Hs]. exists s. by rewrite Hs.
    - intros (s & Hs & ->). exists a. rewrite Hs. split; [done|]. apply elem_sorted_keys. by eexists. }
  apply map_eq. intros a. destruct (StorageDiffs d !! a) as [s|] eqn:Ea.
  - assert (Hi : (a, alist s) ∈ storage_alist d) by (apply Hx; eauto). rewrite E in Hi.
    apply Hx in Hi as (s' & Ea' & El). rewrite Ea'. f_equal.
    destruct (wf_storage d Hw a s Ea), (wf_storage d' Hw' a s' Ea'). by apply alist_inj.
  - destruct (StorageDiffs d' !! a) as [s'|] eqn:Ea'; [|done].
    assert (Hi : (a, alist s') ∈ storage_alist d') by (apply Hx; eauto). rewrite <- E in Hi.
    apply Hx in Hi as (s & Ea2 & _). congruence.
Qed.

Lemma storage_alist_small d : diff_wf d -> Forall (fun x => small (length x.2)) (storage_alist d).
Proof.
  intros Hw. apply Forall_forall. intros [a l] Hi. unfold storage_alist in Hi.
  apply list_elem_of_fmap in Hi as (b & [= -> ->] & Hb). apply elem_sorted_keys in Hb as [s Hs].
  rewrite Hs. cbn [snd]. change (default ∅ (Some s)) with s. rewrite length_alist. by apply (wf_storage d Hw b).
Qed.

(** The array of a diff can be read back. *)
Lemma diff_array_inj d d' : diff_wf d -> diff_wf d' -> diff_array d = diff_array d' -> same_changes d d'.
Proof.
  intros Hw Hw' E. unfold diff_array in E. apply app_inv_head in E.
  destruct (wf_sizes d Hw) as (S1 & S2 & S3 & S4 & S5), (wf_sizes d' Hw') as (S1' & S2' & S3' & S4' & S5').
  assert (Hu : forall e, diff_wf e -> size (updated_contracts e) = (size (DeployedContracts e) + size (ReplacedClasses e))%nat).
  { intros e He. unfold updated_contracts. rewrite map_size_disj_union by (symmetry; apply He). lia. }
  apply counted_inj in E as [E1 E]; [|by rewrite length_alist, Hu|by rewrite length_alist, Hu].
  apply counted_inj in E as [E2 E]; [|by rewrite length_class_alist|by rewrite length_class_alist].
  cbn [app] in E. injection E as En E. rewrite !length_v0_sorted in En by done.
  apply felt_of_u64_inj in En; [|unfold small in *; lia|unfold small in *; lia].
  apply app_inj_1 in E as [E3 E]; [|rewrite !length_v0_sorted by done; lia].
  injection E as En2 E. rewrite !length_storage_alist in En2.
  apply felt_of_u64_inj in En2; [|unfold small in *; lia|unfold small in *; lia].
  apply flat_storage_inj in E as [E4 E]; [|rewrite !length_storage_alist; lia|by apply storage_alist_small..].
  rewrite <- (app_nil_r (counted (alist (Nonces d)))), <- (app_nil_r (counted (alist (Nonces d')))) in E.
  apply counted_inj in E as [E5 _]; [|by rewrite length_alist|by rewrite length_alist].
  split_and!.
  - apply alist_inj; [apply Hw|apply Hw'|done].
  - by apply class_alist_inj.
  - unfold v0_sorted in E3. rewrite <- (sort_slice_perm felt_less (omap id (DeclaredV0Classes d))), E3. apply sort_slice_perm.
  - by apply storage_alist_inj.
  - apply alist_inj; [apply Hw|apply Hw'|done].
Qed.

(** C22: unless the two arrays that are hashed collide, two state diffs with the
    same hash change the same things: the same contracts get the same classes,
    the same classes get the same compiled classes, the same old classes are
    declared, the same storage cells and nonces are set to the same values.  The
    hash is always computed, and the only change it makes to the diff is the order
    of its declared classes. *)
Theorem state_diff_hash_binds d d' :
  diff_wf d -> diff_wf d' -> no_collision [QPos (diff_array d); QPos (diff_array d')] ->
  exists h h' e e',
    StateDiff_Hash d = Ok (h, e) /\ StateDiff_Hash d' = Ok (h', e') /\
    same_changes d e /\ same_changes d' e' /\ (h = h' -> same_changes d d').
Proof.
  intros Hw Hw' HQ. rewrite (StateDiff_Hash_spec d Hw), (StateDiff_Hash_spec d' Hw').
  assert (Hs : forall e, same_changes e (set_V0 e (Some <$> v0_sorted e))).
  { intros e. split_and!; try done. cbn [set_V0 DeclaredV0Classes].
    assert (Ho : forall l : list F, omap id (Some <$> l) = l) by (induction l as [|x l IH]; [done|]; cbn; by f_equal).
    rewrite Ho. symmetry. apply sort_slice_perm. }
  do 4 eexists. split_and!; [done|done|apply Hs|apply Hs|].
  intros E. apply diff_array_inj; [done|done|].
  assert (Eq : QPos (diff_array d) = QPos (diff_array d')) by (apply HQ; [in_list|in_list|done]).
  exact (f_equal (fun q => match q with QPos l | QPed l => l end) Eq).
Qed.

End facts.
