(* ===== verification/Block.v ===== *)
(** * Blocks, receipts and commitments

    [src/core/receipt.go], [src/core/block.go], [src/core/trie_interfaces.go] and
    the commitments of [src/core/transaction.go]: the hashes of receipts, the
    commitments over temporary tries, and the hash of a block in its four
    versions.  Pointers to field elements and to optional structures are
    options; the pointers of the slices of a block (transactions, receipts,
    events, messages) are not nil.  The goroutines that compute the parts of a
    hash write to different variables and are joined: they are computed in turn.
    [StateDiff_Hash] sorts a slice of the diff in place, so that the functions
    return the diff as well. *)
From stdpp Require Import prelude gmap strings list.
From Stdlib Require Import ZArith Lia.
From S2P Require Import Prelude Felt FeltArith BitArray TrieNode Trie Poseidon Transaction StateDiff.

Local Open Scope Z_scope.

Section block.
Context {F : Type} `{!FieldElement F} `{!FieldArith F} `{!HashFns F}.
Context `{!Semver}.
Context (Keccak256 : list Z -> list Z).

Abbreviation OC := (outcome coreError).

(** ** Temporary tries *)

(** The mutable tries a backend makes: the interface [Trie] of the source. *)
Record TempTrie := mkTempTrie {
  tt_state : Type;
  tt_new : Z -> OC tt_state;
  tt_Update : F -> F -> SE tt_state coreError unit;
  tt_Hash : SE tt_state coreError F;
}.

(** Runs a function on a new trie. *)
Definition run_on (b : TempTrie) {A} (height : Z) (f : SE (tt_state b) coreError A) : OC A :=
  s ← tt_new b height; (f s).1.

Record TempTrieBackend := mkBackend {
  RunOnTempTriePedersen : TempTrie;
  RunOnTempTriePoseidon : TempTrie;
}.

(** The errors of the trie. *)
Definition of_trie {S A} (m : SE S (trieError (F:=F)) A) : SE S coreError A :=
  fun s =>
    let '(o, s') := m s in
    (match o with Ok a => Ok a | Err _ => Err ErrTrie | Panic => Panic | NoFuel => NoFuel end, s').

(** The reader of [EmptyNodeDatabase]. *)
Definition EmptyNodeReader : dbReader (F:=F) := fun _ _ _ _ => Ok [].

(** A trie of [trie2] on an empty database. *)
Definition trie2_temp (hashFn : F -> F -> F) : TempTrie := {|
  tt_state := Trie (F:=F);
  tt_new h := (of_trie (lift (New (Some EmptyNodeReader) felt_Zero felt_Zero h)) tt).1;
  tt_Update k v := of_trie (Trie.Update (Some EmptyNodeReader) k v);
  tt_Hash := of_trie (Trie_Hash hashFn);
|}.

Definition TrieBackend : TempTrieBackend := mkBackend (trie2_temp Pedersen) (trie2_temp Poseidon).

(** ** Commitments *)

Definition commitmentTrieHeight : Z := 64.

(** The leaves are written at their indices. *)
Fixpoint update_leaves (b : TempTrie) (i : Z) (results : list F) : SE (tt_state b) coreError unit :=
  match results with
  | [] => mret tt
  | r :: rs => tt_Update b (felt_of i) r;; update_leaves b (i + 1) rs
  end.

(** The results of the workers. *)
Fixpoint process_all {A} (process : A -> OC F) (items : list A) : OC (list F) :=
  match items with
  | [] => Ok []
  | x :: xs => r ← process x; rs ← process_all process xs; Ok (r :: rs)
  end.

(** The commitment is read through a pointer that is set when everything went
    well: an error of the trie is not returned, the pointer is nil. *)
Definition calculateCommitment {A} (items : list A) (b : TempTrie) (process : A -> OC F) : OC F :=
  match run_on b commitmentTrieHeight
          (results ← lift (process_all process items); update_leaves b 0 results;; tt_Hash b) with
  | Ok root => Ok root
  | Err _ => Panic
  | Panic => Panic
  | NoFuel => NoFuel
  end.

(** ** Receipts *)

Record GasConsumed := mkGas { gc_L1Gas : Z; gc_L1DataGas : Z; gc_L2Gas : Z }.

Record Event := mkEvent {
  ev_From : option F;
  ev_Keys : list F;
  ev_Data : list F;
}.

(** [To] is an Ethereum address, 20 bytes. *)
Record L2ToL1Message := mkMessage {
  msg_From : option F;
  msg_Payload : list F;
  msg_To : list Z;
}.

(** The part of the receipt that is hashed; the total gas consumed is nil when
    the execution resources are. *)
Record TransactionReceipt := mkReceipt {
  rc_Fee : option F;
  rc_Events : list Event;
  rc_TotalGasConsumed : option GasConsumed;
  rc_L2ToL1Message : list L2ToL1Message;
  rc_TransactionHash : option F;
  rc_Reverted : bool;
  rc_RevertReason : list Z;
}.

Fixpoint digest_messages (d : PoseidonDigest F) (messages : list L2ToL1Message) : OC (PoseidonDigest F) :=
  match messages with
  | [] => Ok d
  | msg :: rest =>
      from ← ptr (msg_From msg);
      let d := poseidon_updateArray d [from; FromBytes (msg_To msg); felt_of (Z.of_nat (length (msg_Payload msg)))] in
      digest_messages (poseidon_updateArray d (msg_Payload msg)) rest
  end.

Definition messagesSentHash (messages : list L2ToL1Message) : OC F :=
  let d := poseidon_update newPoseidonDigest (felt_of (Z.of_nat (length messages))) in
  d ← digest_messages d messages;
  Ok (poseidon_Finish d).

Definition receipt_hash (r : TransactionReceipt) : OC F :=
  let revertReasonHash : F := if rc_Reverted r then StarknetKeccak Keccak256 (rc_RevertReason r) else felt_Zero in
  let totalGasConsumed := default (mkGas 0 0 0) (rc_TotalGasConsumed r) in
  sentMessageHash ← messagesSentHash (rc_L2ToL1Message r);
  PoseidonElems [rc_TransactionHash r; rc_Fee r; Some sentMessageHash; Some revertReasonHash; Some felt_Zero;
    Some (felt_of (gc_L1Gas totalGasConsumed)); Some (felt_of (gc_L1DataGas totalGasConsumed))].

Definition receiptCommitment (receipts : list TransactionReceipt) (backend : TempTrieBackend) : OC F :=
  calculateCommitment receipts (RunOnTempTriePoseidon backend) receipt_hash.

(** ** Commitments of transactions and events *)

Definition is_invoke (t : Transaction F) : bool := match t with TxInvoke _ => true | _ => false end.

Definition transactionCommitmentPedersen (transactions : list (Transaction F)) (protocolVersion : list Z)
    (backend : TempTrieBackend) : OC F :=
  blockVersion ← ParseBlockVersion protocolVersion;
  let hashFunc (t : Transaction F) : OC F :=
    let signatureHash :=
      if semver_GreaterThanEqual blockVersion (semver_New 0 11 1) || is_invoke t then PedersenArray (tx_Signature t)
      else PedersenArray [] in
    h ← ptr (tx_Hash t); Ok (Pedersen h signatureHash) in
  calculateCommitment transactions (RunOnTempTriePedersen backend) hashFunc.

Definition transactionCommitmentPoseidon0134 (transactions : list (Transaction F)) (backend : TempTrieBackend) : OC F :=
  calculateCommitment transactions (RunOnTempTriePoseidon backend) (fun t =>
    h ← ptr (tx_Hash t);
    let d := poseidon_update newPoseidonDigest h in
    let d := match tx_Signature t with [] => d | sig => poseidon_updateArray d sig end in
    Ok (poseidon_Finish d)).

Definition transactionCommitmentPoseidon0132 (transactions : list (Transaction F)) (backend : TempTrieBackend) : OC F :=
  calculateCommitment transactions (RunOnTempTriePoseidon backend) (fun t =>
    h ← ptr (tx_Hash t);
    let d := poseidon_update newPoseidonDigest h in
    let d := match tx_Signature t with [] => poseidon_update d felt_Zero | sig => poseidon_updateArray d sig end in
    Ok (poseidon_Finish d)).

(** The events of a block with the hashes of their transactions. *)
Definition event_items (receipts : list TransactionReceipt) : list (Event * option F) :=
  concat ((fun r => (fun e => (e, rc_TransactionHash r)) <$> rc_Events r) <$> receipts).

Definition event_hash (item : Event * option F) : OC F :=
  let '(e, txHash) := item in
  d ← update_ptrs newPoseidonDigest [ev_From e; txHash; Some (felt_of (Z.of_nat (length (ev_Keys e))))];
  let d := poseidon_updateArray d (ev_Keys e) in
  let d := poseidon_update d (felt_of (Z.of_nat (length (ev_Data e)))) in
  Ok (poseidon_Finish (poseidon_updateArray d (ev_Data e))).

Definition eventCommitmentPoseidon (receipts : list TransactionReceipt) (backend : TempTrieBackend) : OC F :=
  calculateCommitment (event_items receipts) (RunOnTempTriePoseidon backend) event_hash.

Definition eventCommitmentPedersen (receipts : list TransactionReceipt) (backend : TempTrieBackend) : OC F :=
  calculateCommitment (concat (rc_Events <$> receipts)) (RunOnTempTriePedersen backend) (fun e =>
    PedersenElems [ev_From e; Some (PedersenArray (ev_Keys e)); Some (PedersenArray (ev_Data e))]).

(** ** Blocks *)

Record GasPrice := mkPrice { PriceInWei : option F; PriceInFri : option F }.

(** [L1DAMode]: [Calldata] is 0, [Blob] is 1. *)
Definition Blob : Z := 1.

Record Header := mkHeader {
  hd_Hash : option F;
  hd_ParentHash : option F;
  hd_Number : Z;
  hd_GlobalStateRoot : option F;
  hd_SequencerAddress : option F;
  hd_TransactionCount : Z;
  hd_EventCount : Z;
  hd_Timestamp : Z;
  hd_ProtocolVersion : list Z;
  hd_L1GasPriceETH : option F;
  hd_L1GasPriceSTRK : option F;
  hd_L1DAMode : Z;
  hd_L1DataGasPrice : option GasPrice;
  hd_L2GasPrice : option GasPrice;
}.

Record Block := mkBlock {
  bk_Header : Header;
  bk_Transactions : list (Transaction F);
  bk_Receipts : list TransactionReceipt;
}.

Definition L2GasConsumed (b : Block) : OC Z :=
  foldl (fun acc r => s ← acc; g ← ptr (rc_TotalGasConsumed r); Ok (u64 (s + gc_L2Gas g))) (Ok 0) (bk_Receipts b).

Record BlockCommitments := mkCommitments {
  cm_TransactionCommitment : option F;
  cm_EventCommitment : option F;
  cm_ReceiptCommitment : option F;
  cm_StateDiffCommitment : option F;
  cm_StateDiffLength : Z;
}.

Definition starknetBlockHash0 : F := FromBytes (str "STARKNET_BLOCK_HASH0"%string).
Definition starknetBlockHash1 : F := FromBytes (str "STARKNET_BLOCK_HASH1"%string).
Definition starknetGasPrices0 : F := FromBytes (str "STARKNET_GAS_PRICES0"%string).

Definition MarshalBlockNumber (blockNumber : Z) : list Z := be_bytes 8 blockNumber.

(** [binary.BigEndian.Uint64] reads eight bytes and panics on fewer. *)
Definition UnmarshalBlockNumber (val : list Z) : OC Z :=
  if (length val <? 8)%nat then Panic else Ok (be_val (take 8 val)).

Definition ConcatCounts (txCount eventCount stateDiffLen l1Mode : Z) : F :=
  let l1DAByte := if l1Mode =? Blob then 128 else 0 in
  FromBytes (be_bytes 8 txCount ++ be_bytes 8 eventCount ++ be_bytes 8 stateDiffLen ++ [l1DAByte] ++ replicate 7 0).

Definition gasPricesHash (gasPrices dataGasPrices l2GasPrices : GasPrice) : OC F :=
  PoseidonElems [Some starknetGasPrices0; PriceInWei gasPrices; PriceInFri gasPrices;
    PriceInWei dataGasPrices; PriceInFri dataGasPrices; PriceInWei l2GasPrices; PriceInFri l2GasPrices].

(** The hash, the commitments, and the diff that was hashed. *)
Abbreviation hashed := (F * BlockCommitments * option (StateDiff F))%type.

Definition diff_length (stateDiff : option (StateDiff F)) : Z :=
  match stateDiff with Some d => Length d | None => 0 end.

Definition pre07Hash (b : Block) (stateDiff : option (StateDiff F)) (chain : F) (backend : TempTrieBackend) : OC hashed :=
  let h := bk_Header b in
  txCommitment ← transactionCommitmentPedersen (bk_Transactions b) (hd_ProtocolVersion h) backend;
  let sdLength := diff_length stateDiff in
  r ← PedersenElems [Some (felt_of (hd_Number h)); hd_GlobalStateRoot h; Some felt_Zero; Some felt_Zero;
    Some (felt_of (hd_TransactionCount h)); Some txCommitment; Some felt_Zero; Some felt_Zero; Some felt_Zero;
    Some felt_Zero; Some chain; hd_ParentHash h];
  Ok (r, mkCommitments (Some txCommitment) None None None sdLength, stateDiff).

Definition post0134Hash (b : Block) (stateDiff : option (StateDiff F)) (backend : TempTrieBackend) : OC hashed :=
  let h := bk_Header b in
  txCommitment ← transactionCommitmentPoseidon0134 (bk_Transactions b) backend;
  eCommitment ← eventCommitmentPoseidon (bk_Receipts b) backend;
  rCommitment ← receiptCommitment (bk_Receipts b) backend;
  sd ← ptr stateDiff;
  let sdLength := Length sd in
  '(sdCommitment, sd') ← StateDiff_Hash sd;
  let concatCounts := ConcatCounts (hd_TransactionCount h) (hd_EventCount h) sdLength (hd_L1DAMode h) in
  dataPrice ← ptr (hd_L1DataGasPrice h);
  l2Price ← ptr (hd_L2GasPrice h);
  pricesHash ← gasPricesHash (mkPrice (hd_L1GasPriceETH h) (hd_L1GasPriceSTRK h)) dataPrice l2Price;
  r ← PoseidonElems [Some starknetBlockHash1; Some (felt_of (hd_Number h)); hd_GlobalStateRoot h;
    hd_SequencerAddress h; Some (felt_of (hd_Timestamp h)); Some concatCounts; Some sdCommitment;
    Some txCommitment; Some eCommitment; Some rCommitment; Some pricesHash;
    Some (FromBytes (hd_ProtocolVersion h)); Some felt_Zero; hd_ParentHash h];
  Ok (r, mkCommitments (Some txCommitment) (Some eCommitment) (Some rCommitment) (Some sdCommitment) sdLength, Some sd').

(** A pointer, or zero. *)
Definition or_zero (p : option F) : option F := Some (default felt_Zero p).

Definition Post0132Hash (b : Block) (stateDiff : option (StateDiff F)) (backend : TempTrieBackend) : OC hashed :=
  let h := bk_Header b in
  txCommitment ← transactionCommitmentPoseidon0132 (bk_Transactions b) backend;
  eCommitment ← eventCommitmentPoseidon (bk_Receipts b) backend;
  rCommitment ← receiptCommitment (bk_Receipts b) backend;
  sd ← ptr stateDiff;
  let sdLength := Length sd in
  '(sdCommitment, sd') ← StateDiff_Hash sd;
  let concatCounts := ConcatCounts (hd_TransactionCount h) (hd_EventCount h) sdLength (hd_L1DAMode h) in
  let dataPrice := default (mkPrice None None) (hd_L1DataGasPrice h) in
  r ← PoseidonElems [Some starknetBlockHash0; Some (felt_of (hd_Number h)); hd_GlobalStateRoot h;
    or_zero (hd_SequencerAddress h); Some (felt_of (hd_Timestamp h)); Some concatCounts; Some sdCommitment;
    Some txCommitment; Some eCommitment; Some rCommitment; hd_L1GasPriceETH h; or_zero (hd_L1GasPriceSTRK h);
    or_zero (PriceInWei dataPrice); or_zero (PriceInFri dataPrice);
    Some (FromBytes (hd_ProtocolVersion h)); Some felt_Zero; hd_ParentHash h];
  Ok (r, mkCommitments (Some txCommitment) (Some eCommitment) (Some rCommitment) (Some sdCommitment) sdLength, Some sd').

Definition post07Hash (b : Block) (stateDiff : option (StateDiff F)) (overrideSeqAddr : option F)
    (backend : TempTrieBackend) : OC hashed :=
  let h := bk_Header b in
  let seqAddr := match overrideSeqAddr with Some a => Some a | None => hd_SequencerAddress h end in
  let sdLength := diff_length stateDiff in
  txCommitment ← transactionCommitmentPedersen (bk_Transactions b) (hd_ProtocolVersion h) backend;
  eCommitment ← eventCommitmentPedersen (bk_Receipts b) backend;
  rCommitment ← receiptCommitment (bk_Receipts b) backend;
  r ← PedersenElems [Some (felt_of (hd_Number h)); hd_GlobalStateRoot h; seqAddr; Some (felt_of (hd_Timestamp h));
    Some (felt_of (hd_TransactionCount h)); Some txCommitment; Some (felt_of (hd_EventCount h)); Some eCommitment;
    Some felt_Zero; Some felt_Zero; hd_ParentHash h];
  Ok (r, mkCommitments (Some txCommitment) (Some eCommitment) (Some rCommitment) None sdLength, stateDiff).

Definition BlockHash (b : Block) (stateDiff : option (StateDiff F)) (network : Network F)
    (overrideSeqAddr : option F) (backend : TempTrieBackend) : OC hashed :=
  let metaInfo := net_MetaInfo network in
  blockVer ← ParseBlockVersion (hd_ProtocolVersion (bk_Header b));
  if semver_GreaterThanEqual blockVer Ver0_13_4 then post0134Hash b stateDiff backend
  else if semver_GreaterThanEqual blockVer Ver0_13_2 then Post0132Hash b stateDiff backend
  else if hd_Number (bk_Header b) <? First07Block metaInfo then
    pre07Hash b stateDiff (L2ChainIDFelt network) backend
  else post07Hash b stateDiff overrideSeqAddr backend.

(** ** [VerifyBlockHash] *)

(** The transactions and the receipts have the same hashes. *)
Fixpoint check_receipts (txs : list (Transaction F)) (receipts : list TransactionReceipt) : OC unit :=
  match txs, receipts with
  | t :: txs', r :: receipts' =>
      h ← ptr (tx_Hash t);
      h' ← ptr (rc_TransactionHash r);
      if bool_decide (h = h') then check_receipts txs' receipts' else Err ErrReceiptHash
  | _, _ => Ok tt
  end.

(** An index of a slice. *)
Definition slice_at {A} (l : list A) (i : nat) : OC A := ptr (l !! i).

Definition in_unverifiable (range : option (list Z)) (number : Z) : OC bool :=
  match range with
  | None => Ok false
  | Some r =>
      lo ← slice_at r 0;
      if number <? lo then Ok false
      else hi ← slice_at r 1; Ok (number <=? hi)
  end.

(** The candidates for the address of the sequencer; [None] is no override. *)
Definition fallback_addresses (b : Block) (metaInfo : BlockHashMetaInfo F) : list (option F) :=
  match hd_SequencerAddress (bk_Header b) with
  | Some _ => [None]
  | None =>
      Some felt_Zero :: match FallBackSequencerAddress metaInfo with Some a => [Some a] | None => [] end
  end.

Fixpoint verify_candidates (b : Block) (network : Network F) (stateDiff : option (StateDiff F))
    (backend : TempTrieBackend) (skipVerification : bool) (candidates : list (option F))
  : OC (BlockCommitments * option (StateDiff F)) :=
  match candidates with
  | [] => Err ErrCannotVerifyBlockHash
  | overrideSeq :: rest =>
      '(hash, commitments, sd) ← BlockHash b stateDiff network overrideSeq backend;
      h ← ptr (hd_Hash (bk_Header b));
      if bool_decide (hash = h) then Ok (commitments, sd)
      else if skipVerification then Ok (commitments, sd)
      else verify_candidates b network sd backend skipVerification rest
  end.

Definition VerifyBlockHash (b : Block) (network : Network F) (stateDiff : option (StateDiff F))
    (backend : TempTrieBackend) : OC (BlockCommitments * option (StateDiff F)) :=
  if negb (length (bk_Transactions b) =? length (bk_Receipts b))%nat then Err ErrReceiptCount
  else
    check_receipts (bk_Transactions b) (bk_Receipts b);;
    let metaInfo := net_MetaInfo network in
    skipVerification ← in_unverifiable (UnverifiableRange metaInfo) (hd_Number (bk_Header b));
    (if skipVerification then Ok tt
     else VerifyTransactions (bk_Transactions b) network (hd_ProtocolVersion (bk_Header b)));;
    verify_candidates b network stateDiff backend skipVerification (fallback_addresses b metaInfo).

End block.

Arguments Event F : clear implicits.
Arguments L2ToL1Message F : clear implicits.
Arguments TransactionReceipt F : clear implicits.
Arguments GasPrice F : clear implicits.
Arguments Header F : clear implicits.
Arguments Block F : clear implicits.
Arguments BlockCommitments F : clear implicits.
