(* ===== verification/CommitmentFacts.v ===== *)
(** * Commitments over temporary tries

    The commitment of a list of leaves is the root of the canonical tree that has
    them at their indices ([calculateCommitment] over [trie2]); the hash of a
    canonical tree determines the tree unless nodes collide, so a commitment
    binds its leaves. *)
From stdpp Require Import prelude gmap list.
From Stdlib Require Import ZArith Lia.
From S2P Require Import Prelude Felt FeltArith BitArray BitArrayFacts TrieNode Trie TrieSpec TrieTheorems.
From S2P Require Import Poseidon Transaction TransactionFacts StateDiff Block.

Local Open Scope Z_scope.

Section commitments.
Context {F : Type} `{!FieldElement F} `{!FieldArith F} `{!FieldArithLaws F}.
Variable hf : F -> F -> F.

Abbreviation tree := (stree F).
Implicit Types (t : tree) (ot : option tree) (leaves : list F).

(** ** The hash of a tree determines it *)

(** What is hashed for a node. *)
Inductive nquery :=
| NQBin (l r : F)
| NQEdge (c : F) (p : list bool).

Definition nrun (q : nquery) : F :=
  match q with
  | NQBin l r => hf l r
  | NQEdge c p => felt_Add (hf c (to_felt (path_of p))) (felt_SetBytes (be_bytes 32 (Z.of_nat (length p))))
  end.

Fixpoint node_queries t : list nquery :=
  match t with
  | SLeaf _ => []
  | SBin l r => NQBin (shash hf l) (shash hf r) :: node_queries l ++ node_queries r
  | SEdge p c => NQEdge (shash hf c) p :: node_queries c
  end.

Definition onode_queries ot : list nquery := match ot with Some t => node_queries t | None => [] end.

(** Different nodes have different hashes, and no node the hash of the empty
    trie. *)
Definition nodes_distinct (qs : list nquery) : Prop :=
  (forall q q', q ∈ qs -> q' ∈ qs -> nrun q = nrun q' -> q = q') /\ (forall q, q ∈ qs -> nrun q ≠ felt_Zero).

Lemma nodes_distinct_sub qs qs' : (forall q, q ∈ qs -> q ∈ qs') -> nodes_distinct qs' -> nodes_distinct qs.
Proof. intros Hs [H1 H2]. split; [intros q q' ? ?; apply H1; by apply Hs|intros q ?; by apply H2, Hs]. Qed.

Lemma shash_inj h t t' :
  canon h t -> canon h t' -> nodes_distinct (node_queries t ++ node_queries t') -> shash hf t = shash hf t' -> t = t'.
Proof.
  revert h t'. induction t as [v|l IHl r IHr|p c IH]; intros h t' Hc Hc' Hd E.
  - destruct Hc as [-> _]. destruct t' as [v'|l' r'|p' c']; [by simpl in E; subst|..].
    + by destruct Hc' as (h' & ? & _).
    + destruct Hc' as (Hp & _ & h' & Eh & _). by destruct p'.
  - destruct Hc as (h0 & -> & Hl & Hr). destruct t' as [v'|l' r'|p' c'].
    + by destruct Hc' as [? _].
    + destruct Hc' as (h1 & [= <-] & Hl' & Hr').
      assert (Eq : NQBin (shash hf l) (shash hf r) = NQBin (shash hf l') (shash hf r')) by (apply Hd; [set_solver..|done]).
      injection Eq as El Er. f_equal.
      * eapply IHl; [done..| |done]. eapply nodes_distinct_sub; [|done]. set_solver.
      * eapply IHr; [done..| |done]. eapply nodes_distinct_sub; [|done]. set_solver.
    + assert (Eq : NQBin (shash hf l) (shash hf r) = NQEdge (shash hf c') p') by (apply Hd; [set_solver..|done]). done.
  - destruct Hc as (Hp & Hne & h0 & -> & Hc). destruct t' as [v'|l' r'|p' c'].
    + destruct Hc' as [Eh _]. by destruct p.
    + assert (Eq : NQEdge (shash hf c) p = NQBin (shash hf l') (shash hf r')) by (apply Hd; [set_solver..|done]). done.
    + destruct Hc' as (_ & _ & h1 & Eh & Hc').
      assert (Eq : NQEdge (shash hf c) p = NQEdge (shash hf c') p') by (apply Hd; [set_solver..|done]).
      injection Eq as Ec <-. f_equal. assert (h1 = h0) as -> by lia.
      eapply IH; [done..| |done]. eapply nodes_distinct_sub; [|done]. set_solver.
Qed.

Lemma shash_root_query t : (exists q, q ∈ node_queries t /\ shash hf t = nrun q) \/ exists v, t = SLeaf v.
Proof. destruct t as [v|l r|p c]; [right; by eexists|left; eexists; split; [left|done]..]. Qed.

Lemma oshash_inj h ot ot' :
  (0 < h)%nat -> ocanon h ot -> ocanon h ot' -> nodes_distinct (onode_queries ot ++ onode_queries ot') ->
  oshash hf ot = oshash hf ot' -> ot = ot'.
Proof.
  intros Hh Hc Hc' Hd E. destruct ot as [t|], ot' as [t'|]; cbn [oshash onode_queries ocanon] in *.
  - f_equal. by eapply shash_inj.
  - exfalso. destruct (shash_root_query t) as [(q & Hq & Eq)|[v ->]]; [|destruct Hc; lia].
    apply (proj2 Hd q); [set_solver|congruence].
  - exfalso. destruct (shash_root_query t') as [(q & Hq & Eq)|[v ->]]; [|destruct Hc'; lia].
    apply (proj2 Hd q); [set_solver|congruence].
  - done.
Qed.

(** ** The tree of a list of leaves *)

Definition leaf_at leaves (i : Z) : F := default felt_Zero (leaves !! Z.to_nat i).

(** A canonical tree with the leaves at their indices and nothing else. *)
Definition tree_of leaves ot : Prop :=
  ocanon 64 ot /\ forall k, map_of ot k = match decide (length k = 64%nat) with
                                   | left _ => leaf_at leaves (bits_val k)
                                   | right _ => felt_Zero
                                   end.

Lemma index_key i : is_u64 i -> key_bits 64 (felt_of i : F) = bits_n 64 i.
Proof. intros Hi. unfold key_bits. by rewrite felt_of_u64_val. Qed.

Fixpoint leaf_ops (i : Z) leaves : list (trie_op (F:=F)) :=
  match leaves with [] => [] | v :: l => OpUpdate (felt_of i) v :: leaf_ops (i + 1) l end.

(** The map after the leaves are written from an index on. *)
Lemma leaf_ops_map leaves i m k :
  0 <= i -> i + Z.of_nat (length leaves) <= 2 ^ 64 ->
  ops_map 64 m (leaf_ops i leaves) k =
    match decide (length k = 64%nat /\ i <= bits_val k < i + Z.of_nat (length leaves)) with
    | left _ => leaf_at leaves (bits_val k - i)
    | right _ => m k
    end.
Proof.
  unfold ops_map. revert i m. induction leaves as [|v leaves IH]; intros i m Hi Hl.
  - cbn [leaf_ops foldl length]. destruct (decide _) as [[_ ?]|_]; [lia|done].
  - cbn [leaf_ops foldl length op_map] in *. rewrite IH by lia.
    rewrite index_key by lia. unfold upd.
    assert (Hk : k = bits_n 64 i <-> length k = 64%nat /\ bits_val k = i).
    { split.
      - intros ->. split; [apply length_bits_n|].
        apply (bits_n_inj 64); [|lia|].
        + pose proof (bits_val_range (bits_n 64 i)) as Hr. by rewrite length_bits_n in Hr.
        + rewrite <- (bits_n_val (bits_n 64 i)) at 2. by rewrite length_bits_n.
      - intros [E <-]. by rewrite <- E, bits_n_val. }
    destruct (decide (length k = 64%nat /\ i + 1 <= bits_val k < i + 1 + Z.of_nat (length leaves))) as [[H1 H2]|H1].
    + destruct (decide _) as [_|N]; [|destruct N; split; [done|lia]].
      unfold leaf_at. replace (Z.to_nat (bits_val k - i)) with (S (Z.to_nat (bits_val k - (i + 1)))) by lia. done.
    + destruct (decide (k = bits_n 64 i)) as [E|E].
      * apply Hk in E as [E1 E2]. destruct (decide _) as [_|N]; [|destruct N; split; [done|lia]].
        by rewrite E2, Z.sub_diag.
      * destruct (decide _) as [[H2 H3]|_]; [|done]. exfalso. destruct (decide (bits_val k = i)); [by apply E, Hk|].
        apply H1. split; [done|lia].
Qed.

Abbreviation backend := (trie2_temp hf).

Lemma of_trie_wp {S A} (m : SE S (trieError (F:=F)) A) (Q : A -> S -> Prop) s : wp m Q s -> wp (of_trie m) Q s.
Proof. intros (a & s' & E & HQ)%wp_elim. apply (wp_intro _ _ _ a s'); [|done]. unfold of_trie. by rewrite E. Qed.

Lemma update_leaves_wp leaves i s ot :
  trie_rep hf (Some EmptyNodeReader) 64 s ot ->
  wp (update_leaves backend i leaves) (fun _ s' => exists ot', trie_rep hf (Some EmptyNodeReader) 64 s' ot' /\
    forall k, map_of ot' k = ops_map 64 (map_of ot) (leaf_ops i leaves) k) s.
Proof.
  revert i s ot. induction leaves as [|v leaves IH]; intros i s ot Hs.
  - apply wp_ret. by exists ot.
  - cbn [update_leaves]. apply wp_bind. cbn [trie2_temp tt_Update].
    eapply wp_mono; [apply of_trie_wp, (wp_Update hf _ 64 s ot), Hs|]. intros _ s' (ot' & Hs' & _ & _ & Hm).
    eapply wp_mono; [apply (IH (i + 1) s' ot' Hs')|]. intros _ s'' (ot'' & Hs'' & Hm'').
    exists ot''. split; [done|]. intros k. rewrite Hm''. cbn [leaf_ops]. unfold ops_map. cbn [foldl].
    by apply ops_map_ext.
Qed.

(** A temporary trie is empty. *)
Lemma temp_new h : tt_new backend h = Ok (NewEmpty (F:=F) h).
Proof.
  cbn [trie2_temp tt_new]. unfold of_trie, lift, New, new_trie, felt_IsZero. by rewrite bool_decide_true.
Qed.

(** The commitment of processed items is the root of their tree. *)
Lemma commitment_root {A} (items : list A) (process : A -> outcome coreError F) leaves :
  process_all process items = Ok leaves -> Z.of_nat (length leaves) <= 2 ^ 64 ->
  exists ot, calculateCommitment items backend process = Ok (oshash hf ot) /\ tree_of leaves ot.
Proof.
  intros Hp Hl. unfold calculateCommitment, run_on.
  rewrite temp_new.
  assert (Hr : trie_rep hf (Some EmptyNodeReader) 64 (NewEmpty (F:=F) commitmentTrieHeight) None) by (apply NewEmpty_rep; lia).
  assert (Hw : wp (results ← lift (process_all process items); update_leaves backend 0 results;; tt_Hash backend)
    (fun h _ => exists ot, h = oshash hf ot /\ tree_of leaves ot) (NewEmpty (F:=F) commitmentTrieHeight)).
  { apply wp_bind, (wp_intro _ _ _ leaves (NewEmpty commitmentTrieHeight)); [by rewrite Hp|]. apply wp_bind.
    eapply wp_mono; [apply update_leaves_wp, Hr|]. intros _ s' (ot & Hs' & Hm).
    cbn [tt_Hash trie2_temp]. eapply wp_mono; [apply of_trie_wp, (wp_Hash hf _ 64 s' ot Hs')|].
    intros h s'' (-> & _). exists ot. split; [done|]. split; [apply Hs'|]. intros k. rewrite Hm, leaf_ops_map by lia.
    pose proof (bits_val_range k) as Hb.
    destruct (decide (length k = 64%nat)) as [E|E].
    - destruct (decide _) as [_|N]; [by rewrite Z.sub_0_r|]. rewrite E in Hb. unfold leaf_at.
      rewrite lookup_ge_None_2; [done|]. destruct (decide (bits_val k < Z.of_nat (length leaves))); [|lia].
      destruct N. split; [done|lia].
    - by destruct (decide _) as [[? _]|_]. }
  apply wp_elim in Hw as (h & s' & Hrun & ot & -> & Ht). exists ot. split; [|done].
  change (Ok (E:=coreError) (NewEmpty (F:=F) commitmentTrieHeight) ≫= ?k) with (k (NewEmpty (F:=F) commitmentTrieHeight)).
  cbv beta. by rewrite Hrun.
Qed.

(** The tree of a list of leaves is unique. *)
Lemma tree_of_unique leaves ot ot' : tree_of leaves ot -> tree_of leaves ot' -> ot = ot'.
Proof. intros [Hc Hm] [Hc' Hm']. eapply map_of_inj; [done|done|]. intros k. by rewrite Hm, Hm'. Qed.

(** The leaves of a tree. *)
Lemma tree_of_leaf leaves ot i : is_u64 i -> tree_of leaves ot -> map_of ot (bits_n 64 i) = leaf_at leaves i.
Proof.
  intros Hi [_ Hm]. rewrite Hm. destruct (decide _) as [_|N]; [|by rewrite length_bits_n in N].
  f_equal. apply (bits_n_inj 64); [|lia|].
  - pose proof (bits_val_range (bits_n 64 i)) as Hr. by rewrite length_bits_n in Hr.
  - rewrite <- (bits_n_val (bits_n 64 i)) at 2. by rewrite length_bits_n.
Qed.

(** Commitments that are equal have the same leaves. *)
Lemma leaves_bound leaves leaves' ot ot' :
  tree_of leaves ot -> tree_of leaves' ot' -> nodes_distinct (onode_queries ot ++ onode_queries ot') ->
  oshash hf ot = oshash hf ot' -> forall i, is_u64 i -> leaf_at leaves i = leaf_at leaves' i.
Proof.
  intros Ht Ht' Hd E i Hi. assert (ot = ot') as -> by (eapply (oshash_inj 64); [lia|apply Ht|apply Ht'|done|done]).
  by rewrite <- (tree_of_leaf leaves ot' i), <- (tree_of_leaf leaves' ot' i).
Qed.

(** C23: a commitment over a temporary trie is computed without an error: it is the
    root of the canonical tree of height 64 that has the hash of each item at its
    index and nothing else.  Two lists of items with the same commitment have the
    same hashes at every index, unless two nodes of their trees collide; a list
    that is longer than the other has only zero hashes behind its end. *)
Theorem commitment_binds_leaves {A B} (items : list A) (items' : list B) process process' leaves leaves' :
  process_all process items = Ok leaves -> process_all process' items' = Ok leaves' ->
  Z.of_nat (length leaves) <= 2 ^ 64 -> Z.of_nat (length leaves') <= 2 ^ 64 ->
  exists ot ot',
    calculateCommitment items backend process = Ok (oshash hf ot) /\
    calculateCommitment items' backend process' = Ok (oshash hf ot') /\
    tree_of leaves ot /\ tree_of leaves' ot' /\
    (nodes_distinct (onode_queries ot ++ onode_queries ot') -> oshash hf ot = oshash hf ot' ->
     forall i, is_u64 i -> leaf_at leaves i = leaf_at leaves' i).
Proof.
  intros Hp Hp' Hl Hl'. destruct (commitment_root _ _ _ Hp Hl) as (ot & E & Ht).
  destruct (commitment_root _ _ _ Hp' Hl') as (ot' & E' & Ht'). exists ot, ot'. split_and!; [done..|].
  by apply leaves_bound.
Qed.

End commitments.
