(* ===== verification/BlockFacts.v ===== *)
(** * What a verified block hash binds

    [ConcatCounts] packs the counts of a block into one element without loss.  Two
    blocks of the current version of the protocol that are verified and have the
    same hash agree on their headers, state diffs, transactions, events and
    receipts, unless arrays or trie nodes that are hashed for them collide. *)
From stdpp Require Import prelude gmap list.
From Stdlib Require Import ZArith Lia.
From S2P Require Import Prelude Felt FeltArith BitArray BitArrayFacts TrieNode Trie TrieSpec TrieTheorems.
From S2P Require Import Poseidon PoseidonFacts Transaction TransactionFacts StateDiff Block CommitmentFacts.

Local Open Scope Z_scope.

(** ** Counts *)

Section counts.
Context {F : Type} `{!FieldElement F} `{!FieldArith F} `{!FieldArithLaws F}.

(** The integer of the packed bytes. *)
Lemma counts_val t e s m :
  is_u64 t -> is_u64 e -> is_u64 s ->
  be_val (be_bytes 8 t ++ be_bytes 8 e ++ be_bytes 8 s ++ [if m =? Blob then 128 else 0] ++ replicate 7 0) =
    2 ^ 63 * (t * 2 ^ 129 + e * 2 ^ 65 + s * 2 + (if m =? Blob then 1 else 0)).
Proof.
  intros Ht He Hs. rewrite !be_val_app, !be_val_bytes, !length_app, !length_be_bytes.
  change (256 ^ Z.of_nat 8) with (2 ^ 64). rewrite !Z.mod_small by lia.
  change (be_val (replicate 7 0)) with 0. change (length (replicate 7 0)) with 7%nat.
  destruct (m =? Blob); vm_compute (256 ^ _); vm_compute (be_val [_]); change (length [_]) with 1%nat; lia.
Qed.

(** C24: the number of transactions, of events and of changes of the state and the
    availability mode are packed without loss: although the 256 bits are reduced
    modulo the prime of the field, [ConcatCounts] is injective on all 64-bit
    counts, up to the modes that are not [Blob]. *)
Theorem ConcatCounts_injective t e s m t' e' s' m' :
  is_u64 t -> is_u64 e -> is_u64 s -> is_u64 t' -> is_u64 e' -> is_u64 s' ->
  (ConcatCounts t e s m : F) = ConcatCounts t' e' s' m' ->
  t = t' /\ e = e' /\ s = s' /\ (m =? Blob) = (m' =? Blob).
Proof.
  intros Ht He Hs Ht' He' Hs' E. apply (f_equal felt_val) in E. unfold ConcatCounts in E.
  assert (Hb : forall a b c d, is_bytes (be_bytes 8 a ++ be_bytes 8 b ++ be_bytes 8 c ++ [if d =? Blob then 128 else 0] ++ replicate 7 0)).
  { intros a b c d. repeat apply Forall_app_2; auto using be_bytes_range.
    - constructor; [destruct (d =? Blob); lia|constructor].
    - repeat (constructor; [lia|]). constructor. }
  rewrite !felt_SetBytes_val, !counts_val in E by auto. apply PoseidonFacts.mod_eq_diff in E.
  apply Z.mod_divide in E as [k E]; [|done]. unfold stark_prime in E.
  destruct (m =? Blob), (m' =? Blob); assert (k = 0) as -> by lia; split_and!; lia || done.
Qed.

End counts.

(** ** Blocks of the current version *)

Section blocks.
Context {F : Type} `{!FieldElement F} `{!FieldArith F} `{!FieldArithLaws F} `{!HashFns F}.
Context `{SV : !Semver} `{SL : !SemverLaws}.
Context (Keccak256 : list Z -> list Z).
Implicit Types (b : Block F) (sd : StateDiff F) (n : Network F) (t : Transaction F) (r : TransactionReceipt F).

(** Splits a computation that returned into its steps. *)
Ltac bind_inv H :=
  repeat match type of H with
  | (?o ≫= _) = Ok _ =>
      let E := fresh "E" in destruct o eqn:E; cbn [mbind outcome_bind] in H; try discriminate H
  | (match ?p with (_, _) => _ end) = Ok _ => destruct p
  end.

Lemma ptr_Ok {E A} (p : option A) a : ptr (E:=E) p = Ok a -> p = Some a.
Proof. by destruct p; intros [= ->]. Qed.

Lemma derefs_Ok {E A} (l : list (option A)) l' : derefs (E:=E) l = Ok l' -> l = Some <$> l'.
Proof.
  unfold derefs. destruct (mapM (fun x => x) l) as [k|] eqn:Hm; [|done]. intros [= <-].
  apply mapM_Some in Hm. induction Hm as [|x y l k Hx Hl IH]; [done|]. cbn. by rewrite Hx, IH.
Qed.

Lemma PoseidonElems_Ok {E} (l : list (option F)) x :
  PoseidonElems (E:=E) l = Ok x -> exists l', l = Some <$> l' /\ x = PoseidonArray l'.
Proof.
  unfold PoseidonElems, mbind, outcome_bind. destruct (derefs l) as [l'| | |] eqn:Hd; try done. intros [= <-].
  exists l'. split; [by apply (derefs_Ok (E:=E))|done].
Qed.

(** ** The array of a block *)

(** What is hashed besides the numbers of the header. *)
Record view := mkView {
  vw_root : F; vw_seq : F; vw_parent : F;
  vw_tx : F; vw_ev : F; vw_rc : F; vw_sd : F;
  vw_prices : list F;
}.

Definition view_array (h : Header F) sd (v : view) : list F :=
  [starknetBlockHash1; felt_of (hd_Number h); vw_root v; vw_seq v; felt_of (hd_Timestamp h);
   ConcatCounts (hd_TransactionCount h) (hd_EventCount h) (Length sd) (hd_L1DAMode h);
   vw_sd v; vw_tx v; vw_ev v; vw_rc v; PoseidonArray (starknetGasPrices0 :: vw_prices v);
   FromBytes (hd_ProtocolVersion h); felt_Zero; vw_parent v].

(** The prices of a header: gas, data and L2, in the two units. *)
Definition header_prices (h : Header F) : list (option F) :=
  let price (p : option (GasPrice F)) := [p ≫= PriceInWei; p ≫= PriceInFri] in
  [hd_L1GasPriceETH h; hd_L1GasPriceSTRK h] ++ price (hd_L1DataGasPrice h) ++ price (hd_L2GasPrice h).

(** The parts of the hash of a block are those of a view. *)
Record is_view b sd (v : view) : Prop := {
  iv_root : hd_GlobalStateRoot (bk_Header b) = Some (vw_root v);
  iv_seq : hd_SequencerAddress (bk_Header b) = Some (vw_seq v);
  iv_parent : hd_ParentHash (bk_Header b) = Some (vw_parent v);
  iv_prices : header_prices (bk_Header b) = Some <$> vw_prices v;
  iv_tx : transactionCommitmentPoseidon0134 (bk_Transactions b) TrieBackend = Ok (vw_tx v);
  iv_ev : eventCommitmentPoseidon (bk_Receipts b) TrieBackend = Ok (vw_ev v);
  iv_rc : receiptCommitment Keccak256 (bk_Receipts b) TrieBackend = Ok (vw_rc v);
  iv_sd : exists sd', StateDiff_Hash sd = Ok (vw_sd v, sd');
}.

Lemma post0134_view b sd res :
  post0134Hash Keccak256 b (Some sd) TrieBackend = Ok res ->
  exists v, is_view b sd v /\ res.1.1 = PoseidonArray (view_array (bk_Header b) sd v).
Proof.
  intros Hr. unfold post0134Hash in Hr. cbv zeta in Hr. change (ptr (Some sd) ≫= ?k) with (k sd) in Hr. bind_inv Hr.
  repeat match goal with E : ptr _ = Ok _ |- _ => apply ptr_Ok in E end.
  match goal with E : gasPricesHash _ _ _ = Ok _ |- _ => apply PoseidonElems_Ok in E as (pl & Ep & ->) end.
  match goal with E : PoseidonElems _ = Ok _ |- _ => apply PoseidonElems_Ok in E as (l & El & ->) end.
  injection Hr as <-.
  repeat (destruct l as [|? l]; [discriminate El|]). destruct l; [|discriminate El]. injection El as. simplify_eq.
  repeat (destruct pl as [|? pl]; [discriminate Ep|]). destruct pl; [|discriminate Ep]. injection Ep as. simplify_eq.
  eexists (mkView _ _ _ _ _ _ _ [_; _; _; _; _; _]). split; [|done].
  split; cbn; try eassumption; try congruence; [|by eexists]. unfold header_prices.
  repeat match goal with E : _ = Some _ |- _ => rewrite E; clear E end. cbn. congruence.
Qed.

(** ** Lists of items behind a commitment *)

Lemma process_all_Forall2 {A} (process : A -> outcome coreError F) items leaves :
  process_all process items = Ok leaves -> Forall2 (fun x y => process x = Ok y) items leaves.
Proof.
  revert leaves. induction items as [|x items IH]; intros leaves Hp; cbn [process_all] in Hp.
  - injection Hp as <-. constructor.
  - bind_inv Hp. injection Hp as <-. constructor; [done|by apply IH].
Qed.

Lemma commitment_Ok {A} (items : list A) bk (process : A -> outcome coreError F) c :
  calculateCommitment items bk process = Ok c -> exists leaves, process_all process items = Ok leaves.
Proof.
  unfold calculateCommitment, run_on. destruct (tt_new bk commitmentTrieHeight) as [s| | |]; try done.
  unfold mbind at 1, outcome_bind. unfold mbind, SE_bind, lift.
  destruct (process_all process items) as [l| | |]; try done. by exists l.
Qed.

Section items.
Context {A : Type} (process : A -> outcome coreError F) (arr : A -> list F) (ok : A -> Prop).
Hypothesis process_arr : forall x y, process x = Ok y -> ok x /\ y = PoseidonArray (arr x).

Definition item_leaves (items : list A) : list F := (fun x => PoseidonArray (arr x)) <$> items.

(** The nodes of the trees over two lists of items are different. *)
Definition trees_distinct (items items' : list A) : Prop :=
  forall ot ot', tree_of (item_leaves items) ot -> tree_of (item_leaves items') ot' ->
    nodes_distinct Poseidon (onode_queries Poseidon ot ++ onode_queries Poseidon ot').

Lemma commitment_items items c :
  calculateCommitment items (trie2_temp Poseidon) process = Ok c ->
  Forall ok items /\ process_all process items = Ok (item_leaves items).
Proof.
  intros Hc. destruct (commitment_Ok _ _ _ _ Hc) as [leaves Hp]. rewrite Hp.
  apply process_all_Forall2 in Hp. unfold item_leaves. clear Hc.
  induction Hp as [|x y items leaves Hx Hp [IH1 IH2]]; [done|].
  apply process_arr in Hx as [Hok ->]. injection IH2 as ->. split; [by constructor|done].
Qed.

(** Two lists of the same length with the same commitment have the same arrays. *)
Lemma commitment_arrays items items' c Q :
  calculateCommitment items (trie2_temp Poseidon) process = Ok c ->
  calculateCommitment items' (trie2_temp Poseidon) process = Ok c ->
  length items = length items' -> Z.of_nat (length items) < 2 ^ 64 -> trees_distinct items items' ->
  no_collision Q -> (forall x, x ∈ items ++ items' -> QPos (arr x) ∈ Q) ->
  Forall ok items /\ Forall ok items' /\ arr <$> items = arr <$> items'.
Proof.
  intros Hc Hc' Hl Hs Hd HQ Hin.
  destruct (commitment_items _ _ Hc) as [Hok Hp]. destruct (commitment_items _ _ Hc') as [Hok' Hp'].
  split_and!; [done|done|].
  assert (Hlen : length (item_leaves items) = length items) by apply length_fmap.
  assert (Hlen' : length (item_leaves items') = length items') by apply length_fmap.
  destruct (commitment_root Poseidon _ _ _ Hp) as (ot & E & Ht); [lia|].
  destruct (commitment_root Poseidon _ _ _ Hp') as (ot' & E' & Ht'); [lia|].
  assert (Eo : oshash Poseidon ot = oshash Poseidon ot') by congruence.
  pose proof (leaves_bound Poseidon _ _ _ _ Ht Ht' (Hd _ _ Ht Ht') Eo) as Hleaf.
  apply list_eq. intros i. rewrite !list_lookup_fmap. destruct (items !! i) as [x|] eqn:Ex.
  - pose proof (lookup_lt_Some _ _ _ Ex) as Hi.
    destruct (lookup_lt_is_Some_2 items' i ltac:(lia)) as [x' Ex']. rewrite Ex'. cbn. f_equal.
    specialize (Hleaf (Z.of_nat i) ltac:(lia)). unfold leaf_at, item_leaves in Hleaf.
    rewrite Nat2Z.id, !list_lookup_fmap, Ex, Ex' in Hleaf. cbn in Hleaf.
    assert (Eq : QPos (arr x) = QPos (arr x')).
    { apply HQ; [apply Hin, elem_of_app; left; by eapply list_elem_of_lookup_2
                |apply Hin, elem_of_app; right; by eapply list_elem_of_lookup_2|done]. }
    exact (f_equal (fun q => match q with QPos l | QPed l => l end) Eq).
  - apply lookup_ge_None in Ex. by rewrite (proj2 (lookup_ge_None items' i)) by lia.
Qed.

End items.

(** ** Transactions, events and receipts as arrays *)

Definition tx_process t : outcome coreError F :=
  h ← ptr (tx_Hash t);
  let d := poseidon_update newPoseidonDigest h in
  let d := match tx_Signature t with [] => d | sig => poseidon_updateArray d sig end in
  Ok (poseidon_Finish d).

Definition tx_array t : list F := default felt_Zero (tx_Hash t) :: tx_Signature t.

Lemma tx_process_arr t y : tx_process t = Ok y -> is_Some (tx_Hash t) /\ y = PoseidonArray (tx_array t).
Proof.
  unfold tx_process, tx_array. destruct (tx_Hash t) as [h|]; [|done]. change (ptr (Some h) ≫= ?k) with (k h).
  intros [= <-]. split; [done|]. rewrite <- poseidon_fed. destruct (tx_Signature t); [done|].
  by rewrite update_array1, updateArray_app.
Qed.

Definition event_array (item : Event F * option F) : list F :=
  let e := item.1 in
  [default felt_Zero (ev_From e); default felt_Zero item.2; felt_of (Z.of_nat (length (ev_Keys e)))] ++ ev_Keys e ++
  felt_of (Z.of_nat (length (ev_Data e))) :: ev_Data e.

Definition event_ok (item : Event F * option F) : Prop := is_Some (ev_From item.1) /\ is_Some item.2.

Lemma event_hash_arr item y : event_hash item = Ok y -> event_ok item /\ y = PoseidonArray (event_array item).
Proof.
  destruct item as [e h]. unfold event_hash, event_ok, event_array, update_ptrs. cbn [fst snd].
  destruct (ev_From e) as [f|]; [|done]. destruct h as [h|]; [|done].
  change (derefs (E:=coreError) [Some f; Some h; Some (felt_of (Z.of_nat (length (ev_Keys e))))])
    with (Ok (E:=coreError) [f; h; felt_of (Z.of_nat (length (ev_Keys e)))]).
  unfold mbind, outcome_bind. intros [= <-]. split; [done|].
  by rewrite <- poseidon_fed, update_array1, !updateArray_app.
Qed.

Definition event_wf (e : Event F) : Prop := small (length (ev_Keys e)) /\ small (length (ev_Data e)).

(** An event can be read back from its array. *)
Lemma event_array_inj i i' :
  event_ok i -> event_ok i' -> event_wf i.1 -> event_wf i'.1 -> event_array i = event_array i' -> i = i'.
Proof.
  destruct i as [[f ks ds] h], i' as [[f' ks' ds'] h'].
  intros [[x Ex] [y Ey]] [[x' Ex'] [y' Ey']] [Hk Hd] [Hk' Hd']. unfold event_array, small in *.
  cbn [fst snd ev_From ev_Keys ev_Data] in *. subst. cbn [default from_option id app]. intros E.
  apply cons_eq in E as [-> E]. apply cons_eq in E as [-> E]. apply cons_eq in E as [En E].
  apply felt_of_u64_inj in En; [|lia|lia]. apply app_inj_1 in E as [-> E]; [|lia]. by apply cons_eq in E as [_ ->].
Qed.

Definition message_array (m : L2ToL1Message F) : list F :=
  [default felt_Zero (msg_From m); FromBytes (msg_To m); felt_of (Z.of_nat (length (msg_Payload m)))] ++ msg_Payload m.

Definition messages_array (ms : list (L2ToL1Message F)) : list F :=
  felt_of (Z.of_nat (length ms)) :: concat (message_array <$> ms).

Lemma digest_messages_arr d ms d' :
  digest_messages d ms = Ok d' ->
  Forall (fun m => is_Some (msg_From m)) ms /\ d' = poseidon_updateArray d (concat (message_array <$> ms)).
Proof.
  revert d. induction ms as [|m ms IH]; intros d Hm; cbn [digest_messages] in Hm; [by injection Hm as <-|].
  bind_inv Hm. match goal with E : ptr _ = Ok _ |- _ => apply ptr_Ok in E; rename E into Ef end.
  apply IH in Hm as [Hok ->]. split; [constructor; [by rewrite Ef|done]|].
  cbn [fmap list_fmap concat]. unfold message_array at 2. rewrite Ef. by rewrite !updateArray_app.
Qed.

Definition message_wf (m : L2ToL1Message F) : Prop :=
  length (msg_To m) = 20%nat /\ is_bytes (msg_To m) /\ small (length (msg_Payload m)).

Lemma address_small l : length l = 20%nat -> is_bytes l -> be_val l < stark_prime.
Proof. intros Hl Hb. apply be_val_range in Hb. rewrite Hl in Hb. assert (256 ^ Z.of_nat 20 < stark_prime) by done. lia. Qed.

Lemma messages_inj ms ms' :
  length ms = length ms' -> Forall (fun m => is_Some (msg_From m)) ms -> Forall (fun m => is_Some (msg_From m)) ms' ->
  Forall message_wf ms -> Forall message_wf ms' -> concat (message_array <$> ms) = concat (message_array <$> ms') -> ms = ms'.
Proof.
  revert ms'. induction ms as [|m ms IH]; intros [|m' ms'] Hl H1 H2 H3 H4 E; try done.
  apply Forall_cons in H1 as [[f Hf] H1], H2 as [[f' Hf'] H2], H3 as [(L & B & S) H3], H4 as [(L' & B' & S') H4].
  cbn [fmap list_fmap concat] in E. destruct m as [mf mp mt], m' as [mf' mp' mt']. unfold small in *.
  unfold message_array at 1 3 in E. cbn [msg_From msg_Payload msg_To] in *. subst. cbn [default from_option id app] in E.
  apply cons_eq in E as [-> E]. apply cons_eq in E as [Et E]. apply cons_eq in E as [En E].
  apply felt_of_u64_inj in En; [|lia|lia]. apply app_inj_1 in E as [-> E]; [|lia].
  apply FromBytes_inj in Et; [|done|done|congruence|by apply address_small|by apply address_small]. subst.
  f_equal. apply IH; try done. simpl in Hl. lia.
Qed.

(** What is hashed of a receipt: hash, fee, messages, the hash of the revert
    reason and the gas of the two kinds of L1 gas. *)
Definition revert_hash r : F := if rc_Reverted r then StarknetKeccak Keccak256 (rc_RevertReason r) else felt_Zero.
Definition gas_of r : GasConsumed := default (mkGas 0 0 0) (rc_TotalGasConsumed r).

Definition receipt_array r : list F :=
  [default felt_Zero (rc_TransactionHash r); default felt_Zero (rc_Fee r);
   PoseidonArray (messages_array (rc_L2ToL1Message r)); revert_hash r; felt_Zero;
   felt_of (gc_L1Gas (gas_of r)); felt_of (gc_L1DataGas (gas_of r))].

Definition receipt_ok r : Prop :=
  is_Some (rc_TransactionHash r) /\ is_Some (rc_Fee r) /\ Forall (fun m => is_Some (msg_From m)) (rc_L2ToL1Message r).

Lemma receipt_hash_arr r y : receipt_hash Keccak256 r = Ok y -> receipt_ok r /\ y = PoseidonArray (receipt_array r).
Proof.
  unfold receipt_hash. intros Hr. cbv zeta in Hr. bind_inv Hr.
  match goal with E : messagesSentHash _ = Ok _ |- _ => rename E into Em end.
  unfold messagesSentHash in Em. cbv zeta in Em. bind_inv Em. injection Em as <-.
  match goal with E : digest_messages _ _ = Ok _ |- _ => apply digest_messages_arr in E as [Hok ->] end.
  apply PoseidonElems_Ok in Hr as (l & El & ->). unfold receipt_ok, receipt_array.
  destruct (rc_TransactionHash r) as [h|]; [|by destruct l]. destruct (rc_Fee r) as [fee|]; [|by destruct l as [|? [|? l]]].
  split; [done|]. f_equal.
  rewrite update_array1, updateArray_app, poseidon_fed in El. cbn [app] in El.
  repeat (destruct l as [|? l]; [discriminate El|]). destruct l; [|discriminate El].
  cbn in El. injection El as. subst. done.
Qed.

Definition receipt_wf r : Prop :=
  small (length (rc_L2ToL1Message r)) /\ Forall message_wf (rc_L2ToL1Message r) /\
  is_u64 (gc_L1Gas (gas_of r)) /\ is_u64 (gc_L1DataGas (gas_of r)) /\ Forall event_wf (rc_Events r).

(** Receipts that agree on what is hashed. *)
Definition same_receipt r r' : Prop :=
  rc_TransactionHash r = rc_TransactionHash r' /\ rc_Fee r = rc_Fee r' /\ rc_L2ToL1Message r = rc_L2ToL1Message r' /\
  revert_hash r = revert_hash r' /\ gc_L1Gas (gas_of r) = gc_L1Gas (gas_of r') /\
  gc_L1DataGas (gas_of r) = gc_L1DataGas (gas_of r').

Lemma receipt_array_inj Q r r' :
  no_collision Q -> QPos (messages_array (rc_L2ToL1Message r)) ∈ Q -> QPos (messages_array (rc_L2ToL1Message r')) ∈ Q ->
  receipt_ok r -> receipt_ok r' -> receipt_wf r -> receipt_wf r' ->
  receipt_array r = receipt_array r' -> same_receipt r r'.
Proof.
  intros HQ Hq Hq' ([h Hh] & [fe Hfe] & Hm) ([h' Hh'] & [fe' Hfe'] & Hm') (S & W & G & D & _) (S' & W' & G' & D' & _) E.
  unfold receipt_array in E. rewrite Hh, Hh', Hfe, Hfe' in E. cbn [default from_option id] in E.
  apply cons_eq in E as [Eh E]. apply cons_eq in E as [Ef E]. apply cons_eq in E as [Em E].
  apply cons_eq in E as [Er E]. apply cons_eq in E as [_ E]. apply cons_eq in E as [Eg E]. apply cons_eq in E as [Ed _].
  apply felt_of_u64_inj in Eg, Ed; [|done..].
  assert (Eq : QPos (messages_array (rc_L2ToL1Message r)) = QPos (messages_array (rc_L2ToL1Message r'))) by (by apply HQ).
  apply (f_equal (fun q => match q with QPos l | QPed l => l end)) in Eq. apply cons_eq in Eq as [En Eq]. unfold small in *.
  apply felt_of_u64_inj in En; [|lia|lia].
  split_and!; [congruence|congruence|apply messages_inj; done || lia|done|done|done].
Qed.

(** ** Verified blocks *)

(** A block of version 0.13.4 or later that is not exempt from verification. *)
Definition modern n b : Prop :=
  (exists ver, ParseBlockVersion (hd_ProtocolVersion (bk_Header b)) = Ok ver /\
    semver_GreaterThanEqual ver Ver0_13_4 = true) /\
  in_unverifiable (UnverifiableRange (net_MetaInfo n)) (hd_Number (bk_Header b)) = Ok false.

(** The values are of their types, the counts are those of the lists. *)
Record block_wf b sd : Prop := {
  bw_number : is_u64 (hd_Number (bk_Header b));
  bw_time : is_u64 (hd_Timestamp (bk_Header b));
  bw_txs : hd_TransactionCount (bk_Header b) = Z.of_nat (length (bk_Transactions b));
  bw_events : hd_EventCount (bk_Header b) = Z.of_nat (length (event_items (bk_Receipts b)));
  bw_small : small (length (bk_Transactions b)) /\ small (length (event_items (bk_Receipts b)));
  bw_receipts : Forall receipt_wf (bk_Receipts b);
  bw_diff : diff_wf sd;
}.

(** Everything that is hashed for a block, the nodes of tries excepted. *)
Definition block_arrays n b sd (v : view) : list (query F) :=
  [QPos (view_array (bk_Header b) sd v); QPos (starknetGasPrices0 :: vw_prices v); QPos (diff_array sd)] ++
  ((fun t => QPos (tx_array t)) <$> bk_Transactions b) ++
  ((fun e => QPos (event_array e)) <$> event_items (bk_Receipts b)) ++
  ((fun r => QPos (receipt_array r)) <$> bk_Receipts b) ++
  ((fun r => QPos (messages_array (rc_L2ToL1Message r))) <$> bk_Receipts b) ++
  concat (queries <$> omap (tx_content n) (bk_Transactions b)).

Record no_block_collision n b sd b' sd' : Prop := {
  nb_arrays v v' : is_view b sd v -> is_view b' sd' v' -> no_collision (block_arrays n b sd v ++ block_arrays n b' sd' v');
  nb_txs : trees_distinct tx_array (bk_Transactions b) (bk_Transactions b');
  nb_events : trees_distinct event_array (event_items (bk_Receipts b)) (event_items (bk_Receipts b'));
  nb_receipts : trees_distinct receipt_array (bk_Receipts b) (bk_Receipts b');
}.

Record same_header (h h' : Header F) : Prop := {
  sh_number : hd_Number h = hd_Number h';
  sh_parent : hd_ParentHash h = hd_ParentHash h';
  sh_root : hd_GlobalStateRoot h = hd_GlobalStateRoot h';
  sh_seq : hd_SequencerAddress h = hd_SequencerAddress h';
  sh_time : hd_Timestamp h = hd_Timestamp h';
  sh_txs : hd_TransactionCount h = hd_TransactionCount h';
  sh_events : hd_EventCount h = hd_EventCount h';
  sh_mode : (hd_L1DAMode h =? Blob) = (hd_L1DAMode h' =? Blob);
  sh_prices : header_prices h = header_prices h';
  sh_version : (FromBytes (hd_ProtocolVersion h) : F) = FromBytes (hd_ProtocolVersion h');
}.

(** The transactions of such a block are verified. *)
Lemma modern_not_old s ver :
  ParseBlockVersion s = Ok ver -> semver_GreaterThanEqual ver Ver0_13_4 = true ->
  semver_LessThan ver (semver_New 0 11 0) = false.
Proof.
  intros Hp Hge.
  assert (Hn : exists x y z, ver = semver_New x y z).
  { unfold ParseBlockVersion in Hp. destruct s as [|ch s]; [injection Hp as <-; eauto|].
    destruct (version_vals 3 _) as [[|x [|y [|z [|? ?]]]]|]; try done. injection Hp as <-. eauto. }
  destruct Hn as (x & y & z & ->). apply semver_GreaterThanEqual_New in Hge.
  apply not_true_iff_false. rewrite semver_LessThan_New. unfold ver_le in *. lia.
Qed.

(** What a verification establishes. *)
Lemma verify_loop_Ok txs n :
  verify_transactions_loop txs n = Ok tt ->
  Forall (fun t => exists h, tx_Hash t = Some h /\ TransactionHash t n = Ok h) txs.
Proof.
  induction txs as [|t txs IH]; intros Hv; [constructor|]. cbn [verify_transactions_loop] in Hv.
  destruct (TransactionHash t n) as [h| | |] eqn:Eh; try done. bind_inv Hv.
  match goal with E : ptr _ = Ok _ |- _ => apply ptr_Ok in E; rename E into Ep end.
  case_bool_decide; [|done]. subst. constructor; [by exists a|by apply IH].
Qed.

Lemma verified_block n b sd res :
  modern n b -> VerifyBlockHash Keccak256 b n (Some sd) TrieBackend = Ok res ->
  length (bk_Transactions b) = length (bk_Receipts b) /\
  Forall (fun t => exists h, tx_Hash t = Some h /\ TransactionHash t n = Ok h) (bk_Transactions b) /\
  exists v, is_view b sd v /\ hd_Hash (bk_Header b) = Some (PoseidonArray (view_array (bk_Header b) sd v)).
Proof.
  intros [(ver & Hver & Hge) Hun] Hv. pose proof (modern_not_old _ _ Hver Hge) as Hlt. unfold VerifyBlockHash in Hv.
  destruct (Nat.eqb_spec (length (bk_Transactions b)) (length (bk_Receipts b))) as [Hl|]; [|done]. cbn [negb] in Hv.
  destruct (check_receipts _ _) as [[]| | |]; try done. change (Ok () ≫= ?k) with (k ()) in Hv. cbv beta zeta in Hv.
  rewrite Hun in Hv. change (Ok false ≫= ?k) with (k false) in Hv. cbv beta iota in Hv.
  unfold VerifyTransactions in Hv. rewrite Hver in Hv. change (Ok ver ≫= ?k) with (k ver) in Hv. cbv beta in Hv.
  rewrite Hlt in Hv. destruct (verify_transactions_loop _ _) as [[]| | |] eqn:Et; try done.
  change (Ok () ≫= ?k) with (k ()) in Hv. cbv beta in Hv. split; [done|]. split; [by apply verify_loop_Ok|].
  assert (Hb : forall ov, BlockHash Keccak256 b (Some sd) n ov TrieBackend = post0134Hash Keccak256 b (Some sd) TrieBackend).
  { intros ov. unfold BlockHash. rewrite Hver. change (Ok ver ≫= ?k) with (k ver). cbv beta zeta. by rewrite Hge. }
  assert (Hc : exists c rest, fallback_addresses b (net_MetaInfo n) = c :: rest /\ (is_Some (hd_SequencerAddress (bk_Header b)) -> rest = [])).
  { unfold fallback_addresses. destruct (hd_SequencerAddress (bk_Header b)) as [a|].
    - by exists None, [].
    - do 2 eexists. split; [done|]. by intros [? ?]. }
  destruct Hc as (c & rest & Ec & Hrest). rewrite Ec in Hv. cbn [verify_candidates] in Hv. rewrite Hb in Hv.
  destruct (post0134Hash Keccak256 b (Some sd) TrieBackend) as [[[hash cm] sd'] | | |] eqn:Ep; try done.
  destruct (post0134_view _ _ _ Ep) as (v & Hview & Eh). cbn [fst] in Eh. subst hash.
  rewrite Hrest in Hv by (rewrite (iv_seq _ _ _ Hview); done).
  change (Ok ?x ≫= ?k) with (k x) in Hv. cbv beta iota in Hv. bind_inv Hv.
  match goal with E : ptr _ = Ok _ |- _ => apply ptr_Ok in E; rename E into Ehash end.
  case_bool_decide; [|done]. exists v. split; [done|]. by rewrite Ehash; f_equal.
Qed.

(** The array of a block determines the header and the commitments. *)
Lemma view_array_inj b b' sd sd' v v' Q :
  no_collision Q -> QPos (starknetGasPrices0 :: vw_prices v) ∈ Q -> QPos (starknetGasPrices0 :: vw_prices v') ∈ Q ->
  block_wf b sd -> block_wf b' sd' -> is_view b sd v -> is_view b' sd' v' ->
  view_array (bk_Header b) sd v = view_array (bk_Header b') sd' v' ->
  same_header (bk_Header b) (bk_Header b') /\
  vw_tx v = vw_tx v' /\ vw_ev v = vw_ev v' /\ vw_rc v = vw_rc v' /\ vw_sd v = vw_sd v'.
Proof.
  intros HQ Hq Hq' W W' V V' E. unfold view_array in E.
  do 5 (apply cons_eq in E as [? E]). apply cons_eq in E as [Ec E].
  do 4 (apply cons_eq in E as [? E]). apply cons_eq in E as [Ep E].
  do 2 (apply cons_eq in E as [? E]). apply cons_eq in E as [? _].
  destruct (bw_small _ _ W) as [S1 S2], (bw_small _ _ W') as [S1' S2']. unfold small in *.
  apply ConcatCounts_injective in Ec as (Et & Ee & _ & Em);
    [|rewrite ?(bw_txs _ _ W), ?(bw_events _ _ W), ?(bw_txs _ _ W'), ?(bw_events _ _ W'); try lia; apply u64_range..].
  assert (Eq : QPos (starknetGasPrices0 :: vw_prices v) = QPos (starknetGasPrices0 :: vw_prices v')) by (by apply HQ).
  apply (f_equal (fun q => match q with QPos l | QPed l => l end)) in Eq. apply cons_eq in Eq as [_ Eq].
  split; [|done].
  split; try done.
  - eapply felt_of_u64_inj; [apply W|apply W'|done].
  - rewrite (iv_parent _ _ _ V), (iv_parent _ _ _ V'). congruence.
  - rewrite (iv_root _ _ _ V), (iv_root _ _ _ V'). congruence.
  - rewrite (iv_seq _ _ _ V), (iv_seq _ _ _ V'). congruence.
  - eapply felt_of_u64_inj; [apply W|apply W'|done].
  - rewrite (iv_prices _ _ _ V), (iv_prices _ _ _ V'). congruence.
Qed.

(** Equal arrays of transactions are equal hashes and signatures. *)
Lemma tx_arrays_eq txs txs' :
  Forall (fun t => is_Some (tx_Hash t)) txs -> Forall (fun t => is_Some (tx_Hash t)) txs' ->
  tx_array <$> txs = tx_array <$> txs' -> tx_Hash <$> txs = tx_Hash <$> txs' /\ tx_Signature <$> txs = tx_Signature <$> txs'.
Proof.
  intros H. revert txs'. induction H as [|t txs [h Ht] H IH]; intros [|t' txs'] H' E; try done.
  apply Forall_cons in H' as [[h' Ht'] H']. cbn [fmap list_fmap] in *. apply cons_eq in E as [Ea E].
  unfold tx_array in Ea. apply cons_eq in Ea as [Eh Es]. rewrite Ht, Ht' in *. cbn in Eh.
  destruct (IH _ H' E) as [-> ->]. split; f_equal; congruence.
Qed.

(** Transactions with the same verified hash have the same content. *)
Lemma tx_contents_eq n txs txs' Q :
  no_collision Q -> (forall t c, t ∈ txs ++ txs' -> tx_content n t = Some c -> forall q, q ∈ queries c -> q ∈ Q) ->
  Forall (fun t => exists h, tx_Hash t = Some h /\ TransactionHash t n = Ok h) txs ->
  Forall (fun t => exists h, tx_Hash t = Some h /\ TransactionHash t n = Ok h) txs' ->
  tx_Hash <$> txs = tx_Hash <$> txs' ->
  Forall2 (fun t t' => forall c c', tx_content n t = Some c -> tx_content n t' = Some c' -> c = c') txs txs'.
Proof.
  intros HQ Hin H. revert txs' Hin. induction H as [|t txs (h & Ht & Hh) H IH]; intros [|t' txs'] Hin H' E; try done.
  apply Forall_cons in H' as [(h' & Ht' & Hh') H']. cbn [fmap list_fmap] in E. apply cons_eq in E as [Eh E].
  constructor; [|apply IH; [intros u c Hu; apply Hin; set_solver|done|done]].
  intros c c' Hc Hc'. rewrite (content_hash n t c Hc) in Hh. rewrite (content_hash n t' c' Hc') in Hh'.
  apply content_binding; [by eapply tx_content_wf|by eapply tx_content_wf| |congruence].
  assert (Hm : forall q, q ∈ queries c ++ queries c' -> q ∈ Q).
  { intros q [Hq|Hq]%elem_of_app; [apply (Hin t c)|apply (Hin t' c')]; set_solver. }
  intros q q' Hq Hq'. apply HQ; by apply Hm.
Qed.

Lemma receipts_eq Q rs rs' :
  no_collision Q -> (forall r, r ∈ rs ++ rs' -> QPos (messages_array (rc_L2ToL1Message r)) ∈ Q) ->
  Forall receipt_ok rs -> Forall receipt_ok rs' -> Forall receipt_wf rs -> Forall receipt_wf rs' ->
  receipt_array <$> rs = receipt_array <$> rs' -> Forall2 same_receipt rs rs'.
Proof.
  intros HQ Hin H. revert rs' Hin. induction H as [|r rs Hr H IH]; intros [|r' rs'] Hin H' W W' E; try done.
  apply Forall_cons in H' as [Hr' H'], W as [Wr W], W' as [Wr' W']. cbn [fmap list_fmap] in E. apply cons_eq in E as [Er E].
  constructor; [|apply IH; [intros u Hu; apply Hin; set_solver|done..]].
  apply (receipt_array_inj Q); [done|apply Hin; set_solver|apply Hin; set_solver|done..].
Qed.

Lemma events_eq items items' :
  Forall event_ok items -> Forall event_ok items' -> Forall (fun i => event_wf i.1) items ->
  Forall (fun i => event_wf i.1) items' -> event_array <$> items = event_array <$> items' -> items = items'.
Proof.
  intros H. revert items'. induction H as [|i items Hi H IH]; intros [|i' items'] H' W W' E; try done.
  apply Forall_cons in H' as [Hi' H'], W as [Wi W], W' as [Wi' W']. cbn [fmap list_fmap] in E. apply cons_eq in E as [Ei E].
  f_equal; [by apply event_array_inj|by apply IH].
Qed.

Lemma event_items_wf rs : Forall receipt_wf rs -> Forall (fun i => event_wf i.1) (event_items rs).
Proof.
  intros H. unfold event_items. induction H as [|r rs (_ & _ & _ & _ & He) H IH]; [constructor|].
  cbn [fmap list_fmap concat]. apply Forall_app_2; [|done]. by apply Forall_fmap.
Qed.

(** The arrays of the parts are among those of the block. *)
Lemma block_arrays_in n b sd v :
  (forall t, t ∈ bk_Transactions b -> QPos (tx_array t) ∈ block_arrays n b sd v) /\
  (forall e, e ∈ event_items (bk_Receipts b) -> QPos (event_array e) ∈ block_arrays n b sd v) /\
  (forall r, r ∈ bk_Receipts b -> QPos (receipt_array r) ∈ block_arrays n b sd v) /\
  (forall r, r ∈ bk_Receipts b -> QPos (messages_array (rc_L2ToL1Message r)) ∈ block_arrays n b sd v) /\
  (forall t c q, t ∈ bk_Transactions b -> tx_content n t = Some c -> q ∈ queries c -> q ∈ block_arrays n b sd v).
Proof.
  unfold block_arrays. split_and!.
  - intros t Ht. rewrite !elem_of_app. right. left. apply list_elem_of_fmap. by exists t.
  - intros e He. rewrite !elem_of_app. do 2 right. left. apply list_elem_of_fmap. by exists e.
  - intros r Hr. rewrite !elem_of_app. do 3 right. left. apply list_elem_of_fmap. by exists r.
  - intros r Hr. rewrite !elem_of_app. do 4 right. left. apply list_elem_of_fmap. by exists r.
  - intros t c q Ht Hc Hq. rewrite !elem_of_app. do 5 right. apply list_elem_of_In, in_concat. exists (queries c). rewrite <- !list_elem_of_In. split; [|done].
    apply list_elem_of_fmap. exists c. split; [done|]. apply list_elem_of_omap. by exists t.
Qed.

(** Equal commitments to the state diff are equal changes. *)
Lemma views_same_changes n b b' sd sd' v v' :
  no_collision (block_arrays n b sd v ++ block_arrays n b' sd' v') -> diff_wf sd -> diff_wf sd' ->
  is_view b sd v -> is_view b' sd' v' -> vw_sd v = vw_sd v' -> same_changes sd sd'.
Proof.
  intros HQ W W' V V' Esd. apply diff_array_inj; [done|done|].
  destruct (iv_sd _ _ _ V) as [e1 Hs], (iv_sd _ _ _ V') as [e2 Hs'].
  rewrite StateDiff_Hash_spec in Hs, Hs' by done. injection Hs as Hs _. injection Hs' as Hs' _.
  assert (Eq : QPos (diff_array sd) = QPos (diff_array sd')).
  { apply HQ; [apply elem_of_app; left; do 2 right; left|apply elem_of_app; right; do 2 right; left|cbn [run]; congruence]. }
  exact (f_equal (fun q => match q with QPos l | QPed l => l end) Eq).
Qed.

(** C25: verified blocks are bound by their hash.  Two blocks of version 0.13.4 or
    later that pass [VerifyBlockHash] on the same network, have the same hash and
    counts that are those of their lists, have the same header (number, parent,
    state root, sequencer, time, counts, availability mode, prices, version), state
    diffs with the same changes, transactions with the same hashes, signatures and
    contents, the same events with the same transaction hashes, and receipts with
    the same fees, messages, revert reasons and L1 gas, unless two of the arrays or
    trie nodes that are hashed for them collide. *)
Theorem verified_blocks_agree n b b' sd sd' res res' :
  modern n b -> modern n b' -> block_wf b sd -> block_wf b' sd' ->
  VerifyBlockHash Keccak256 b n (Some sd) TrieBackend = Ok res ->
  VerifyBlockHash Keccak256 b' n (Some sd') TrieBackend = Ok res' ->
  hd_Hash (bk_Header b) = hd_Hash (bk_Header b') -> no_block_collision n b sd b' sd' ->
  same_header (bk_Header b) (bk_Header b') /\ same_changes sd sd' /\
  tx_Hash <$> bk_Transactions b = tx_Hash <$> bk_Transactions b' /\
  tx_Signature <$> bk_Transactions b = tx_Signature <$> bk_Transactions b' /\
  Forall2 (fun t t' => forall c c', tx_content n t = Some c -> tx_content n t' = Some c' -> c = c')
    (bk_Transactions b) (bk_Transactions b') /\
  event_items (bk_Receipts b) = event_items (bk_Receipts b') /\
  Forall2 same_receipt (bk_Receipts b) (bk_Receipts b').
Proof.
  intros M M' W W' Hv Hv' Eh [HQ Dt De Dr].
  destruct (verified_block _ _ _ _ M Hv) as (Hl & Ht & v & V & Hh).
  destruct (verified_block _ _ _ _ M' Hv') as (Hl' & Ht' & v' & V' & Hh').
  specialize (HQ v v' V V'). set (Q := block_arrays n b sd v ++ block_arrays n b' sd' v') in HQ.
  destruct (block_arrays_in n b sd v) as (A1 & A2 & A3 & A4 & A5), (block_arrays_in n b' sd' v') as (B1 & B2 & B3 & B4 & B5).
  assert (HinL : forall q, q ∈ block_arrays n b sd v -> q ∈ Q) by (intros; apply elem_of_app; by left).
  assert (HinR : forall q, q ∈ block_arrays n b' sd' v' -> q ∈ Q) by (intros; apply elem_of_app; by right).
  assert (Ea : view_array (bk_Header b) sd v = view_array (bk_Header b') sd' v').
  { assert (Eq : QPos (view_array (bk_Header b) sd v) = QPos (view_array (bk_Header b') sd' v')).
    { apply HQ; [apply HinL; left|apply HinR; left|cbn [run]; congruence]. }
    exact (f_equal (fun q => match q with QPos l | QPed l => l end) Eq). }
  destruct (view_array_inj b b' sd sd' v v' Q HQ) as (SH & Etx & Eev & Erc & Esd); [apply HinL; right; left|apply HinR; right; left|done..|].
  destruct (bw_small _ _ W) as [S1 S2], (bw_small _ _ W') as [S1' S2']. unfold small in S1, S2, S1', S2'.
  assert (Hlt : length (bk_Transactions b) = length (bk_Transactions b')).
  { pose proof (sh_txs _ _ SH) as E. rewrite (bw_txs _ _ W), (bw_txs _ _ W') in E. lia. }
  assert (Hle : length (event_items (bk_Receipts b)) = length (event_items (bk_Receipts b'))).
  { pose proof (sh_events _ _ SH) as E. rewrite (bw_events _ _ W), (bw_events _ _ W') in E. lia. }
  assert (Hmem : forall q, q ∈ block_arrays n b sd v \/ q ∈ block_arrays n b' sd' v' -> q ∈ Q) by (intros q [?|?]; auto).
  destruct (commitment_arrays tx_process tx_array _ tx_process_arr (bk_Transactions b) (bk_Transactions b') (vw_tx v) Q)
    as (Ot & Ot' & At); [apply V|rewrite Etx; apply V'|done|lia|done|done| |].
  { intros x [Hx|Hx]%elem_of_app; apply Hmem; [left; by apply A1|right; by apply B1]. }
  destruct (commitment_arrays event_hash event_array _ event_hash_arr (event_items (bk_Receipts b)) (event_items (bk_Receipts b')) (vw_ev v) Q)
    as (Oe & Oe' & Ae); [apply V|rewrite Eev; apply V'|done|lia|done|done| |].
  { intros x [Hx|Hx]%elem_of_app; apply Hmem; [left; by apply A2|right; by apply B2]. }
  destruct (commitment_arrays (receipt_hash Keccak256) receipt_array _ receipt_hash_arr (bk_Receipts b) (bk_Receipts b') (vw_rc v) Q)
    as (Or & Or' & Ar); [apply V|rewrite Erc; apply V'|lia|lia|done|done| |].
  { intros x [Hx|Hx]%elem_of_app; apply Hmem; [left; by apply A3|right; by apply B3]. }
  destruct (tx_arrays_eq _ _ Ot Ot' At) as [Eth Ets].
  pose proof (views_same_changes n b b' sd sd' v v' HQ (bw_diff _ _ W) (bw_diff _ _ W') V V' Esd) as SC.
  do 4 (split; [done|]). split; [|split].
  - apply (tx_contents_eq n _ _ Q HQ); [|done..]. intros t c Hx Hc q Hq. apply Hmem.
    apply elem_of_app in Hx as [Hx|Hx]; [left; by eapply A5|right; by eapply B5].
  - apply events_eq; [done|done|apply event_items_wf, W|apply event_items_wf, W'|done].
  - apply (receipts_eq Q _ _ HQ); [|done|done|apply W|apply W'|done].
    intros x [Hx|Hx]%elem_of_app; apply Hmem; [left; by apply A4|right; by apply B4].
Qed.

End blocks.
