(* ===== verification/HashWitness.v ===== *)
(** * Hashes, transactions and blocks at concrete inputs

    The hash of the Poseidon tests of the repository, computed by the model, and
    examples of the theorems on hashing: a curve of integers for the tables of
    Pedersen, and a small hash function for transactions, state diffs and blocks,
    whose collisions are checked by computation. *)
From stdpp Require Import prelude gmap strings list.
From Stdlib Require Import ZArith Lia.
From S2P Require Import Prelude Felt FeltArith BitArray BitArrayFacts TrieNode Trie TrieSpec TrieTheorems.
From S2P Require Import Poseidon PoseidonFacts Pedersen Transaction TransactionFacts.
From S2P Require Import StateDiff Block CommitmentFacts BlockFacts.

Local Open Scope Z_scope.

Abbreviation SF := StarkField.

(** ** Poseidon *)

Module poseidon_tests.

#[local] Instance real_hades : HashFns SF := {| Poseidon.Pedersen x y := x; hades := hadesPermutation |}.

(** The value of [TestPoseidon]. *)
Example poseidon_1_2 :
  felt_val (Poseidon (felt_of 1 : SF) (felt_of 2)) = 0x5d44a3decb2b2e0cc71071f7b802f45dd792d064f0fc7316c46514f70f9891a.
Proof. vm_compute. reflexivity. Qed.



End poseidon_tests.

(** The state of the test and the precomputed one. *)
Lemma hades_is_permutation_witness :
  (hadesPermutation (felt_of 1 : SF, felt_of 2 : SF, felt_of 2 : SF) = hadesPermutation emptyDataInput <->
   (felt_of 1 : SF, felt_of 2 : SF, felt_of 2 : SF) = emptyDataInput) /\
  hadesPermutation (felt_of 1 : SF, felt_of 2 : SF, felt_of 2 : SF) =
    hadesPermutationRounds (felt_of 1 : SF, felt_of 2 : SF, felt_of 2 : SF) /\
  setRoundKeys (F:=SF) = Some (roundKeys <$> (Z.of_nat <$> seq 0 (Z.to_nat totalRounds))).
Proof. apply (hades_is_permutation (felt_of 1 : SF, felt_of 2 : SF, felt_of 2 : SF) emptyDataInput). Defined.

(** ** Pedersen *)

Module integer_curve.

(** The integers as a curve: every point is its first coordinate. *)
#[local] Instance integers : Curve SF := {|
  G1Jac := Z; G1Affine := Z; jac_zero := 0; aff_zero := 0;
  affine_point x y := x; jacobian_point x y := x;
  AddMixed := Z.add; DoubleAssign x := x + x; FromAffine x := x; FromJacobian x := x;
  BatchJacobianToAffineG1 l := l; jac_X := stark; jac_Z x := stark 1;
  felt_Inverse x := x; felt_Square x := x;
|}.

#[local] Instance integers_laws : CurveLaws SF.
Proof.
  refine {| point := Z; padd := Z.add; pzero := 0; pX x := felt_Mul (stark x) (stark 1); jac_pt x := x; aff_pt x := x |};
    try done; intros; try lia; try apply list_fmap_id.
Defined.

Lemma pedersen_windows_witness :
  pedersen (stark 3) (stark (2 ^ 250)) = pedersen_reference (stark 3) (stark (2 ^ 250)).
Proof. apply (pedersen_windows (stark 3) (stark (2 ^ 250))). Defined.

End integer_curve.

(** ** A small hash function *)

Definition mix3 (k : Z) (x y z : SF) : SF :=
  stark (fold_high (proj1_sig x * 1000003 + proj1_sig y * 998244353 + proj1_sig z * 131071 + k)).

#[export] Instance toy_hashes : HashFns SF := {|
  Poseidon.Pedersen x y := mix3 1 x y (stark 5);
  hades s := let '(a, b, c) := s in (mix3 7 a b c, mix3 11 b c a, mix3 13 c a b);
|}.

(** Versions as triples. *)
Definition ver_leb (a b c a' b' c' : Z) : bool := (a <? a') || ((a =? a') && ((b <? b') || ((b =? b') && (c <=? c')))).

Lemma ver_leb_spec a b c a' b' c' : ver_leb a b c a' b' c' = true <-> ver_le a b c a' b' c'.
Proof. unfold ver_leb, ver_le. rewrite !orb_true_iff, !andb_true_iff, !orb_true_iff, !andb_true_iff. lia. Qed.

#[export] Instance triples : Semver := {|
  semver := Z * Z * Z;
  semver_New a b c := (a, b, c);
  semver_LessThan '(a, b, c) '(a', b', c') := negb (ver_leb a' b' c' a b c);
  semver_GreaterThanEqual '(a, b, c) '(a', b', c') := ver_leb a' b' c' a b c;
  semver_Major v := v.1.1;
  semver_Minor v := v.1.2;
|}.

#[export] Instance triples_laws : SemverLaws.
Proof.
  split; intros; cbn; [rewrite negb_true_iff, <- not_true_iff_false|..|done|done]; by rewrite ver_leb_spec.
Qed.

#[export] Instance query_eq_dec : EqDecision (query SF).
Proof. solve_decision. Defined.

(** Collisions, checked. *)
Definition no_collision_b (qs : list (query SF)) : bool :=
  let rs := (fun q => (run q, q)) <$> qs in
  forallb (fun x => forallb (fun y => negb (bool_decide (x.1 = y.1)) || bool_decide (x.2 = y.2)) rs) rs.

Lemma no_collision_checked qs : no_collision_b qs = true -> no_collision qs.
Proof.
  unfold no_collision_b. intros H q q' Hq Hq' E. rewrite forallb_forall in H.
  assert (Hin : forall q, q ∈ qs -> List.In (run q, q) ((fun q => (run q, q)) <$> qs)).
  { intros x Hx. apply list_elem_of_In, list_elem_of_fmap. by exists x. }
  specialize (H _ (Hin q Hq)). rewrite forallb_forall in H. specialize (H _ (Hin q' Hq')). cbn [fst snd] in H.
  apply orb_true_iff in H as [H|H]; [|by apply bool_decide_eq_true_1 in H].
  apply negb_true_iff, bool_decide_eq_false_1 in H. done.
Qed.

(** ** Transactions *)

Definition sepolia : Network SF := mkNetwork (str "SN_SEPOLIA"%string) (mkMeta None 0 None).

Definition gas_bounds (price : Z) : gmap Z (ResourceBounds SF) :=
  {[ ResourceL1Gas := mkBounds 100 (Some (stark price)); ResourceL2Gas := mkBounds 7 (Some (stark 3)) ]}.

(** An invoke transaction of version 3 with a price, a signature and a hash. *)
Definition invoke3 (price : Z) (sig : list SF) (h : option SF) : InvokeTransaction SF :=
  mkInvoke h [stark 1; stark 2] sig None None (Some (stark 3)) None (Some (stark 9)) (Some (stark 77))
    (gas_bounds price) 5 [] [] 0 0 [].

Definition invoke_a : Transaction SF := TxInvoke (invoke3 1000 [stark 41] None).
Definition invoke_b : Transaction SF := TxInvoke (invoke3 (1000 + 2 ^ 128) [stark 42] None).

Definition the_content (t : Transaction SF) : content SF :=
  default (CDeclare0 felt_Zero felt_Zero felt_Zero felt_Zero felt_Zero) (tx_content sepolia t).

(** The two transactions differ in the signature and in the high bits of a price:
    their hashes and contents are the same. *)
Lemma transaction_hash_binds_witness :
  TransactionHash invoke_a sepolia = TransactionHash invoke_b sepolia /\ the_content invoke_a = the_content invoke_b.
Proof.
  assert (H1 : tx_content sepolia invoke_a = Some (the_content invoke_a)) by reflexivity.
  assert (H2 : tx_content sepolia invoke_b = Some (the_content invoke_b)) by reflexivity.
  assert (H3 : exists h, TransactionHash invoke_a sepolia = Ok h /\ TransactionHash invoke_b sepolia = Ok h).
  { eexists. split; reflexivity. }
  destruct H3 as (h & H3 & H4). split; [congruence|].
  apply (transaction_hash_binds sepolia sepolia invoke_a invoke_b _ _ h H1 H2 H3 H4).
  apply no_collision_checked. vm_compute. reflexivity.
Defined.

(** ** State diffs *)

Lemma no_nil_checked (m : gmap SF (option SF)) :
  forallb (fun kv => bool_decide (is_Some kv.2)) (map_to_list m) = true -> no_nil m.
Proof.
  intros H k Hk. rewrite forallb_forall in H. apply elem_of_map_to_list, list_elem_of_In, H in Hk.
  apply bool_decide_eq_true_1 in Hk as [? ?]. done.
Qed.

(** A diff with two declared classes in an order. *)
Definition diff_of (classes : list (option SF)) : StateDiff SF :=
  mkDiff {[ stark 1 := {[ stark 2 := Some (stark 3) ]} ]} {[ stark 77 := Some (stark 9) ]}
    {[ stark 5 := Some (stark 6) ]} classes {[ stark 8 := Some (stark 10) ]} ∅ ∅.

Lemma diff_of_wf classes :
  Forall is_Some classes -> small (length classes) -> diff_wf (diff_of classes).
Proof.
  intros Hc Hs. split.
  - unfold updated_contracts. cbn [ReplacedClasses DeployedContracts diff_of]. rewrite (left_id_L ∅ (∪)).
    apply no_nil_checked. vm_compute. reflexivity.
  - apply no_nil_checked. vm_compute. reflexivity.
  - apply no_nil_checked. vm_compute. reflexivity.
  - intros a s Ha. cbn in Ha. apply lookup_singleton_Some in Ha as [_ <-]. split; [|vm_compute; reflexivity].
    apply no_nil_checked. vm_compute. reflexivity.
  - done.
  - cbn [DeployedContracts ReplacedClasses diff_of]. apply map_disjoint_empty_r.
  - cbn [DeclaredV1Classes MigratedClasses diff_of]. rewrite fmap_empty. apply map_disjoint_empty_r.
  - split_and!; [vm_compute; reflexivity|vm_compute; reflexivity|exact Hs|vm_compute; reflexivity|vm_compute; reflexivity].
Qed.

Definition diff_a : StateDiff SF := diff_of [Some (stark 9); Some (stark 4)].
Definition diff_b : StateDiff SF := diff_of [Some (stark 4); Some (stark 9)].

(** The order in which classes are declared does not change the hash. *)
Lemma state_diff_hash_binds_witness :
  exists h h' e e',
    StateDiff_Hash diff_a = Ok (h, e) /\ StateDiff_Hash diff_b = Ok (h', e') /\
    same_changes diff_a e /\ same_changes diff_b e' /\ (h = h' -> same_changes diff_a diff_b).
Proof.
  apply (state_diff_hash_binds diff_a diff_b).
  - apply diff_of_wf; [by repeat constructor|vm_compute; reflexivity].
  - apply diff_of_wf; [by repeat constructor|vm_compute; reflexivity].
  - apply no_collision_checked. vm_compute. reflexivity.
Defined.

(** ** Counts *)

Lemma ConcatCounts_injective_witness :
  (ConcatCounts (2 ^ 63) 5 1 0 : SF) = ConcatCounts (2 ^ 63) 5 1 7 /\
  2 ^ 63 = 2 ^ 63 /\ 5 = 5 /\ 1 = 1 /\ (0 =? Blob) = (7 =? Blob).
Proof.
  assert (E : (ConcatCounts (2 ^ 63) 5 1 0 : SF) = ConcatCounts (2 ^ 63) 5 1 7).
  { unfold ConcatCounts. do 4 f_equal. }
  split; [exact E|].
  apply (ConcatCounts_injective (F:=SF) (2 ^ 63) 5 1 0 (2 ^ 63) 5 1 7); [lia..|exact E].
Defined.

(** ** Commitments *)

#[export] Instance nquery_eq_dec : EqDecision (nquery (F:=SF)).
Proof. solve_decision. Defined.

Definition nodes_distinct_b (qs : list (nquery (F:=SF))) : bool :=
  forallb (fun q => negb (bool_decide (nrun Poseidon q = felt_Zero)) &&
    forallb (fun q' => negb (bool_decide (nrun Poseidon q = nrun Poseidon q')) || bool_decide (q = q')) qs) qs.

Lemma nodes_distinct_checked qs : nodes_distinct_b qs = true -> nodes_distinct Poseidon qs.
Proof.
  unfold nodes_distinct_b. intros H. rewrite forallb_forall in H. split.
  - intros q q' Hq%list_elem_of_In Hq'%list_elem_of_In E. specialize (H q Hq). apply andb_true_iff in H as [_ H].
    rewrite forallb_forall in H. specialize (H q' Hq'). apply orb_true_iff in H as [H|H]; [|by apply bool_decide_eq_true_1 in H].
    apply negb_true_iff, bool_decide_eq_false_1 in H. done.
  - intros q Hq%list_elem_of_In. specialize (H q Hq). apply andb_true_iff in H as [H _].
    by apply negb_true_iff, bool_decide_eq_false_1 in H.
Qed.

(** The trees of no leaf and of one leaf. *)
Lemma tree_of_none : tree_of (F:=SF) [] None.
Proof.
  split; [done|]. intros k. unfold map_of, leaf_at. cbn. by destruct (decide _).
Qed.

Definition one_tree (x : SF) : stree SF := SEdge (replicate 64 false) (SLeaf x).

Lemma tree_of_one (x : SF) : x ≠ felt_Zero -> tree_of [x] (Some (one_tree x)).
Proof.
  intros Hx. split.
  - split; [done|]. split; [done|]. exists 0%nat. done.
  - intros k. unfold map_of, one_tree. cbn [olookup slookup]. rewrite length_replicate.
    case_bool_decide as E.
    + case_bool_decide as E2.
      * assert (Ek : k = replicate 64 false) by (rewrite <- (take_drop 64 k), E, E2; apply app_nil_r). subst k. done.
      * destruct (decide (length k = 64%nat)) as [El|El]; [|done]. destruct E2. apply drop_ge. lia.
    + destruct (decide (length k = 64%nat)) as [El|El]; [|done]. unfold leaf_at. cbn [default].
      pose proof (bits_val_range k) as Hr. destruct (Z.to_nat (bits_val k)) eqn:En; [|done]. exfalso. apply E.
      rewrite take_ge by lia. rewrite <- (bits_n_val k), El. assert (bits_val k = 0) as -> by lia. apply bits_n_0.
Qed.

Lemma commitment_binds_leaves_witness :
  exists ot ot',
    calculateCommitment [tt] (trie2_temp Poseidon) (fun _ => Ok (stark 3)) = Ok (oshash Poseidon ot) /\
    calculateCommitment [true] (trie2_temp Poseidon) (fun _ => Ok (stark 4)) = Ok (oshash Poseidon ot') /\
    tree_of [stark 3] ot /\ tree_of [stark 4] ot' /\
    (nodes_distinct Poseidon (onode_queries Poseidon ot ++ onode_queries Poseidon ot') ->
     oshash Poseidon ot = oshash Poseidon ot' ->
     forall i, is_u64 i -> leaf_at [stark 3] i = leaf_at [stark 4] i).
Proof.
  apply (commitment_binds_leaves Poseidon [tt] [true] (fun _ => Ok (stark 3)) (fun _ => Ok (stark 4)) [stark 3] [stark 4]);
    [reflexivity|reflexivity|vm_compute; discriminate|vm_compute; discriminate].
Defined.

(** ** Blocks *)

Definition is_ok {E A} (o : outcome E A) : bool := match o with Ok _ => true | _ => false end.

Lemma is_ok_inv {E A} (o : outcome E A) : is_ok o = true -> exists a, o = Ok a.
Proof. destruct o; try done. eauto. Qed.

Definition ok_or {E A} (d : A) (o : outcome E A) : A := match o with Ok a => a | _ => d end.

Definition toy_keccak (l : list Z) : list Z := [Z.of_nat (length l)].

(** The view of a block, evaluated. *)
Definition the_view (b : Block SF) (sd : StateDiff SF) : view (F:=SF) :=
  let z := felt_Zero : SF in
  mkView (default z (hd_GlobalStateRoot (bk_Header b))) (default z (hd_SequencerAddress (bk_Header b)))
    (default z (hd_ParentHash (bk_Header b)))
    (ok_or z (transactionCommitmentPoseidon0134 (bk_Transactions b) TrieBackend))
    (ok_or z (eventCommitmentPoseidon (bk_Receipts b) TrieBackend))
    (ok_or z (receiptCommitment toy_keccak (bk_Receipts b) TrieBackend))
    (ok_or (z, sd) (StateDiff_Hash sd)).1
    (default z <$> header_prices (bk_Header b)).

Lemma view_unique b sd v : is_view toy_keccak b sd v -> v = the_view b sd.
Proof.
  intros [H1 H2 H3 H4 H5 H6 H7 [sd' H8]]. unfold the_view. rewrite H1, H2, H3, H4, H5, H6, H7, H8.
  destruct v. cbn. f_equal. rewrite <- list_fmap_compose. symmetry. apply list_fmap_id.
Qed.

(** Lists with one item each. *)
Lemma trees_distinct_one {A} (arr : A -> list SF) (x x' : A) :
  PoseidonArray (arr x) ≠ felt_Zero -> PoseidonArray (arr x') ≠ felt_Zero ->
  nodes_distinct_b (node_queries Poseidon (one_tree (PoseidonArray (arr x))) ++
                    node_queries Poseidon (one_tree (PoseidonArray (arr x')))) = true ->
  trees_distinct arr [x] [x'].
Proof.
  intros Hx Hx' Hd ot ot' Ht Ht'.
  rewrite (tree_of_unique _ _ _ Ht (tree_of_one _ Hx)), (tree_of_unique _ _ _ Ht' (tree_of_one _ Hx')).
  by apply nodes_distinct_checked.
Qed.

Lemma felt_ne_checked (x y : SF) : bool_decide (x = y) = false -> x ≠ y.
Proof. apply bool_decide_eq_false_1. Qed.

Definition tx_hash_value : SF := ok_or felt_Zero (TransactionHash invoke_a sepolia).

Definition sample_tx (price : Z) : Transaction SF := TxInvoke (invoke3 price [stark 41] (Some tx_hash_value)).

Definition sample_receipt (l2gas : Z) : TransactionReceipt SF :=
  mkReceipt (Some (stark 12)) [mkEvent (Some (stark 1)) [stark 2; stark 3] [stark 4]] (Some (mkGas 1 2 l2gas))
    [mkMessage (Some (stark 5)) [stark 6] (replicate 20 7)] (Some tx_hash_value) false [].

Definition sample_header (h : option SF) : Header SF :=
  mkHeader h (Some (stark 100)) 4 (Some (stark 101)) (Some (stark 102)) 1 1 1700000000 (str "0.13.4"%string)
    (Some (stark 103)) (Some (stark 104)) Blob (Some (mkPrice (Some (stark 105)) (Some (stark 106))))
    (Some (mkPrice (Some (stark 107)) (Some (stark 108)))).

Definition sample_block (h : option SF) (price l2gas : Z) : Block SF :=
  mkBlock (sample_header h) [sample_tx price] [sample_receipt l2gas].

Definition block_hash_value : SF :=
  match BlockHash toy_keccak (sample_block None 1000 3) (Some diff_a) sepolia None TrieBackend with
  | Ok (h, _, _) => h
  | _ => felt_Zero
  end.

(** Two blocks that differ in what is not hashed: the high bits of a price, the
    L2 gas of a receipt, the order of the declared classes. *)
Definition block_a : Block SF := sample_block (Some block_hash_value) 1000 3.
Definition block_b : Block SF := sample_block (Some block_hash_value) (1000 + 2 ^ 128) 4.

Lemma sample_wf h price l2gas sd : diff_wf sd -> block_wf (sample_block h price l2gas) sd.
Proof.
  intros Hsd. split; try (cbn; lia); try done.
  constructor; [|constructor]. split; [done|]. split.
  { constructor; [|constructor]. split; [done|]. split; [|done]. cbn [msg_To]. apply Forall_replicate. lia. }
  split; [cbn; lia|]. split; [cbn; lia|]. constructor; [done|constructor].
Qed.

Lemma sample_no_collision : no_block_collision toy_keccak sepolia block_a diff_a block_b diff_b.
Proof.
  split.
  - intros v v' -> %view_unique -> %view_unique. apply no_collision_checked. vm_compute. reflexivity.
  - apply trees_distinct_one; [apply felt_ne_checked|apply felt_ne_checked|]; vm_compute; reflexivity.
  - apply trees_distinct_one; [apply felt_ne_checked|apply felt_ne_checked|]; vm_compute; reflexivity.
  - apply trees_distinct_one; [apply felt_ne_checked|apply felt_ne_checked|]; vm_compute; reflexivity.
Qed.

Lemma sample_modern h price l2gas : modern sepolia (sample_block h price l2gas).
Proof. split; [|done]. exists (0, 13, 4). done. Qed.

Lemma verified_blocks_agree_witness :
  same_header (bk_Header block_a) (bk_Header block_b) /\ same_changes diff_a diff_b /\
  tx_Hash <$> bk_Transactions block_a = tx_Hash <$> bk_Transactions block_b /\
  tx_Signature <$> bk_Transactions block_a = tx_Signature <$> bk_Transactions block_b /\
  Forall2 (fun t t' => forall c c', tx_content sepolia t = Some c -> tx_content sepolia t' = Some c' -> c = c')
    (bk_Transactions block_a) (bk_Transactions block_b) /\
  event_items (bk_Receipts block_a) = event_items (bk_Receipts block_b) /\
  Forall2 (same_receipt toy_keccak) (bk_Receipts block_a) (bk_Receipts block_b).
Proof.
  assert (Ha : is_ok (VerifyBlockHash toy_keccak block_a sepolia (Some diff_a) TrieBackend) = true) by (vm_compute; reflexivity).
  assert (Hb : is_ok (VerifyBlockHash toy_keccak block_b sepolia (Some diff_b) TrieBackend) = true) by (vm_compute; reflexivity).
  apply is_ok_inv in Ha as [ra Ha]. apply is_ok_inv in Hb as [rb Hb].
  apply (verified_blocks_agree toy_keccak sepolia block_a block_b diff_a diff_b ra rb).
  - apply sample_modern.
  - apply sample_modern.
  - apply sample_wf, diff_of_wf; [by repeat constructor|vm_compute; reflexivity].
  - apply sample_wf, diff_of_wf; [by repeat constructor|vm_compute; reflexivity].
  - exact Ha.
  - exact Hb.
  - reflexivity.
  - apply sample_no_collision.
Defined.
