(* ===== verification/Class.v ===== *)
(** * Classes

    [src/core/class.go] and [src/core/crypto/blake2s]: class definitions and
    their hashes, the hash of compiled classes with both of its versions, the
    records of compiled class hashes and of declared classes.  The hash of classes
    of Cairo 0, which formats their program as JSON, is not modelled. *)
From Stdlib Require Import Ascii String.
From stdpp Require Import prelude gmap list.
From Stdlib Require Import ZArith Lia List.
From S2P Require Import Prelude Felt FeltArith Poseidon Transaction.

Local Open Scope Z_scope.

(** ** [blake2s] *)

(** [Sum256] of a third-party package: 32 bytes.  Its incremental form hashes the
    concatenation of what is written to it. *)
Class Blake2s := {
  Sum256 : list Z -> list Z;
}.

Class Blake2sLaws `{!Blake2s} : Prop := {
  Sum256_length l : length (Sum256 l) = 32%nat;
  Sum256_bytes l : is_bytes (Sum256 l);
}.

(** [binary.LittleEndian.PutUint32] of a conversion to 32 bits. *)
Definition le_word (v : Z) : list Z := reverse (be_bytes 4 v).

Definition smallFeltThresholdLow : Z := 2 ^ 63.
Definition largeFeltMarker : Z := 2 ^ 31.

Section blake2s.
Context {F : Type} `{!FieldElement F}.

(** [Bits]: the four limbs of the integer. *)
Definition felt_limb (f : F) (i : Z) : Z := Z.shiftr (felt_val f) (64 * i) mod 2 ^ 64.

(** The bytes [encodeFeltInto] writes. *)
Definition encodeFelt (f : F) : list Z :=
  if (felt_limb f 3 =? 0) && (felt_limb f 2 =? 0) && (felt_limb f 1 =? 0) &&
     (felt_limb f 0 <? smallFeltThresholdLow)
  then
    let val := felt_limb f 0 in
    le_word (Z.shiftr val 32) ++ le_word val
  else
    le_word (Z.lor (Z.shiftr (felt_limb f 3) 32) largeFeltMarker) ++ le_word (felt_limb f 3) ++
    le_word (Z.shiftr (felt_limb f 2) 32) ++ le_word (felt_limb f 2) ++
    le_word (Z.shiftr (felt_limb f 1) 32) ++ le_word (felt_limb f 1) ++
    le_word (Z.shiftr (felt_limb f 0) 32) ++ le_word (felt_limb f 0).

Definition encodeFelts (felts : list F) : list Z := concat (encodeFelt <$> felts).

Context `{!Blake2s}.

Definition blake2sArray (felts : list F) : F := felt_SetBytes (reverse (Sum256 (encodeFelts felts))).

(** The bytes written to the hasher. *)
Record Blake2sDigest := mkBlake { hasher : list Z }.

Definition newBlake2sDigest : Blake2sDigest := mkBlake [].

Definition blake_update (d : Blake2sDigest) (elem : F) : Blake2sDigest :=
  mkBlake (hasher d ++ encodeFelts [elem]).

Definition blake_updateArray (d : Blake2sDigest) (elems : list F) : Blake2sDigest := foldl blake_update d elems.

Definition blake_finish (d : Blake2sDigest) : F := felt_SetBytes (reverse (Sum256 (hasher d))).

End blake2s.

(** ** [class.go]: definitions *)

Section classes.
Context {F : Type} `{!FieldElement F} `{!FieldArith F} `{!HashFns F} `{!Blake2s}.
Abbreviation OC := (outcome coreError).

Record DeprecatedEntryPoint := mkDeprecatedEntryPoint {
  de_Selector : option F;
  de_Offset : option F;
}.

Record DeprecatedCairoClass := mkDeprecatedCairoClass {
  dcc_Abi : list Z;
  dcc_Externals : list DeprecatedEntryPoint;
  dcc_L1Handlers : list DeprecatedEntryPoint;
  dcc_Constructors : list DeprecatedEntryPoint;
  dcc_Program : list Z;
}.

Inductive SegmentLengths :=
| mkSegment (Children : list SegmentLengths) (Length : Z).

Record CasmEntryPoint := mkCasmEntryPoint {
  ce_Offset : Z;
  ce_Builtins : list (list Z);
  ce_Selector : option F;
}.

(** The fields that are not hashed are left out. *)
Record CasmClass := mkCasm {
  Bytecode : list F;
  cc_External : list CasmEntryPoint;
  cc_L1Handler : list CasmEntryPoint;
  cc_Constructor : list CasmEntryPoint;
  BytecodeSegmentLengths : SegmentLengths;
}.

Record SierraEntryPoint := mkSierraEntryPoint {
  se_Index : Z;
  se_Selector : option F;
}.

Record SierraEntryPointsByType := mkEntryPoints {
  sp_Constructor : list SierraEntryPoint;
  sp_External : list SierraEntryPoint;
  sp_L1Handler : list SierraEntryPoint;
}.

Record SierraClass := mkSierra {
  sc_Abi : list Z;
  sc_AbiHash : option F;
  sc_EntryPoints : SierraEntryPointsByType;
  sc_Program : list F;
  sc_ProgramHash : option F;
  sc_SemanticVersion : list Z;
  sc_Compiled : option CasmClass;
}.

Inductive ClassDefinition :=
| DeprecatedCairo (c : DeprecatedCairoClass)
| Sierra (c : SierraClass).

(** ** Hashes of Sierra classes *)

Fixpoint sierra_digest (d : PoseidonDigest F) (entryPoints : list SierraEntryPoint) : OC (PoseidonDigest F) :=
  match entryPoints with
  | [] => Ok d
  | ep :: rest =>
      sel ← ptr (se_Selector ep);
      sierra_digest (poseidon_update (poseidon_update d sel) (felt_of (se_Index ep))) rest
  end.

Definition sierraEntryPointsHash (entryPoints : list SierraEntryPoint) : OC F :=
  d ← sierra_digest newPoseidonDigest entryPoints; Ok (poseidon_Finish d).

Definition sierra_Hash (c : SierraClass) : OC F :=
  externalEntryPointsHash ← sierraEntryPointsHash (sp_External (sc_EntryPoints c));
  l1HandlerEntryPointsHash ← sierraEntryPointsHash (sp_L1Handler (sc_EntryPoints c));
  constructorHash ← sierraEntryPointsHash (sp_Constructor (sc_EntryPoints c));
  PoseidonElems [Some (FromBytes (str "CONTRACT_CLASS_V"%string ++ sc_SemanticVersion c));
    Some externalEntryPointsHash; Some l1HandlerEntryPointsHash; Some constructorHash;
    sc_AbiHash c; sc_ProgramHash c].

(** ** Compiled classes *)

Inductive CasmHashVersion := HashVersionV1 | HashVersionV2.

Record casmDigest := mkCasmDigest {
  cd_version : CasmHashVersion;
  cd_poseidon : PoseidonDigest F;
  cd_blake2s : Blake2sDigest;
}.

Definition newCasmDigest (version : CasmHashVersion) : casmDigest :=
  mkCasmDigest version newPoseidonDigest newBlake2sDigest.

Definition casm_update (d : casmDigest) (elem : F) : casmDigest :=
  match cd_version d with
  | HashVersionV1 => mkCasmDigest (cd_version d) (poseidon_update (cd_poseidon d) elem) (cd_blake2s d)
  | HashVersionV2 => mkCasmDigest (cd_version d) (cd_poseidon d) (blake_update (cd_blake2s d) elem)
  end.

Definition casm_finish (d : casmDigest) : F :=
  match cd_version d with
  | HashVersionV1 => poseidon_Finish (cd_poseidon d)
  | HashVersionV2 => blake_finish (cd_blake2s d)
  end.

Definition casmHashArray (version : CasmHashVersion) (felts : list F) : F :=
  match version with
  | HashVersionV1 => PoseidonArray felts
  | HashVersionV2 => blake2sArray felts
  end.

(** [bytecode[lo:hi]] for a slice without spare capacity. *)
Definition slice {A} (l : list A) (lo hi : Z) : OC (list A) :=
  if (lo <=? hi) && (hi <=? Z.of_nat (length l)) then Ok (take (Z.to_nat (hi - lo)) (drop (Z.to_nat lo) l))
  else Panic.

Section segments.
Variables (bytecode : list F) (version : CasmHashVersion).

(** The loop of [digestSegment]: the offset is a variable of the enclosing
    function, [one] treats one segment and returns its length, its hash and the
    offset. *)
Definition segments_loop (one : SegmentLengths -> Z -> OC (Z * F * Z)) :=
  fix go (segments : list SegmentLengths) (startingOffset totalLength : Z) (digest : casmDigest)
    : OC (Z * F * Z) :=
    match segments with
    | [] => Ok (totalLength, felt_Add (casm_finish digest) felt_One, startingOffset)
    | segment :: rest =>
        '(curSegmentLength, curSegmentHash, startingOffset) ← one segment startingOffset;
        let digest := casm_update (casm_update digest (felt_of curSegmentLength)) curSegmentHash in
        go rest (u64 (startingOffset + curSegmentLength)) (u64 (totalLength + curSegmentLength)) digest
    end.

(** One turn of the loop. *)
Fixpoint segment_hash (segment : SegmentLengths) (startingOffset : Z) : OC (Z * F * Z) :=
  match segment with
  | mkSegment [] len =>
      segmentBytecode ← slice bytecode startingOffset (u64 (startingOffset + len));
      Ok (len, casmHashArray version segmentBytecode, startingOffset)
  | mkSegment children _ => segments_loop segment_hash children startingOffset 0 (newCasmDigest version)
  end.

Definition digestSegment (segments : list SegmentLengths) (startingOffset : Z) : OC (Z * F * Z) :=
  segments_loop segment_hash segments startingOffset 0 (newCasmDigest version).

Definition SegmentedBytecodeHash (segmentLengths : list SegmentLengths) : OC F :=
  '(_, hash, _) ← digestSegment segmentLengths 0; Ok hash.

End segments.

Definition compiledBuiltinsHash (builtins : list (list Z)) (version : CasmHashVersion) : F :=
  casm_finish (foldl casm_update (newCasmDigest version) (FromBytes <$> builtins)).

Fixpoint casm_entries (d : casmDigest) (entryPoints : list CasmEntryPoint) (version : CasmHashVersion)
  : OC casmDigest :=
  match entryPoints with
  | [] => Ok d
  | ep :: rest =>
      sel ← ptr (ce_Selector ep);
      casm_entries
        (foldl casm_update d [sel; felt_of (ce_Offset ep); compiledBuiltinsHash (ce_Builtins ep) version])
        rest version
  end.

Definition compiledEntryPointsHash (entryPoints : list CasmEntryPoint) (version : CasmHashVersion) : OC F :=
  d ← casm_entries (newCasmDigest version) entryPoints version; Ok (casm_finish d).

Definition compiledClassV1Prefix : F := FromBytes (str "COMPILED_CLASS_V1"%string).

Definition casm_Hash (c : CasmClass) (version : CasmHashVersion) : OC F :=
  let '(mkSegment children _) := BytecodeSegmentLengths c in
  bytecodeHash ←
    match children with
    | [] => Ok (casmHashArray version (Bytecode c))
    | _ => SegmentedBytecodeHash (Bytecode c) version children
    end;
  externalEntryPointsHash ← compiledEntryPointsHash (cc_External c) version;
  l1HandlerEntryPointsHash ← compiledEntryPointsHash (cc_L1Handler c) version;
  constructorHash ← compiledEntryPointsHash (cc_Constructor c) version;
  Ok (casmHashArray version [compiledClassV1Prefix; externalEntryPointsHash; l1HandlerEntryPointsHash;
    constructorHash; bytecodeHash]).

(** ** [VerifyClassHashes] *)

Inductive classError :=
| ErrCannotVerifyClassHash
| ErrClassHash (e : coreError)
| ErrDataTooShort
| ErrDecodeClass.

(** In the order in which the map is iterated. *)
Fixpoint verify_class_loop (classes : list (F * ClassDefinition)) : outcome classError unit :=
  match classes with
  | [] => Ok tt
  | (_, DeprecatedCairo _) :: rest => verify_class_loop rest
  | (hash, Sierra c) :: rest =>
      match sierra_Hash c with
      | Ok cHash => if negb (bool_decide (cHash = hash)) then Err ErrCannotVerifyClassHash else verify_class_loop rest
      | Err e => Err (ErrClassHash e)
      | Panic => Panic
      | NoFuel => NoFuel
      end
  end.

Definition VerifyClassHashes (order : gmap F ClassDefinition -> list (F * ClassDefinition))
    (classes : gmap F ClassDefinition) : outcome classError unit := verify_class_loop (order classes).

(** ** Records *)

Record DeclaredClassDefinition := mkDeclared {
  dd_At : Z;
  dd_Class : ClassDefinition;
}.

(** The codec of class definitions is a third-party package. *)
Variable cbor_Marshal : ClassDefinition -> list Z.
Variable cbor_Unmarshal : list Z -> option ClassDefinition.

Definition minDeclaredClassSize : Z := 8.

Definition declared_MarshalBinary (d : DeclaredClassDefinition) : list Z :=
  be_bytes 8 (dd_At d) ++ cbor_Marshal (dd_Class d).

Definition declared_UnmarshalBinary (data : list Z) : outcome classError DeclaredClassDefinition :=
  if Z.of_nat (length data) <? minDeclaredClassSize then Err ErrDataTooShort
  else
    match cbor_Unmarshal (drop 8 data) with
    | Some c => Ok (mkDeclared (be_val (take 8 data)) c)
    | None => Err ErrDecodeClass
    end.

(** ** Compiled class hashes over time *)

Record ClassCasmHashMetadata := mkMetadata {
  declaredAt : Z;
  casmHashV2 : F;
  migratedAt : Z;
  casmHashV1 : option F;
}.

Inductive metadataError :=
| ErrCannotMigrateV2Declared
| ErrCannotMigrateBeforeDeclared
| ErrCannotMigrateAlreadyMigrated
| ErrCannotUnmigrateNotMigrated
| ErrNotDeclaredYet
| ErrMetadataTooShort.

(** The first hash is given as a pointer. *)
Definition NewCasmHashMetadataDeclaredV1 (at_ : Z) (v1 : option F) (v2 : F) : ClassCasmHashMetadata :=
  mkMetadata at_ v2 0 v1.

Definition NewCasmHashMetadataDeclaredV2 (at_ : Z) (v2 : F) : ClassCasmHashMetadata := mkMetadata at_ v2 0 None.

Definition IsMigrated (c : ClassCasmHashMetadata) : bool := 0 <? migratedAt c.

Definition IsMigratedAt (c : ClassCasmHashMetadata) (height : Z) : bool :=
  (0 <? migratedAt c) && (migratedAt c <=? height).

Definition IsDeclaredWithV2 (c : ClassCasmHashMetadata) : bool := bool_decide (casmHashV1 c = None).

Definition CasmHash (c : ClassCasmHashMetadata) : outcome metadataError F :=
  if IsDeclaredWithV2 c || IsMigrated c then Ok (casmHashV2 c) else ptr (casmHashV1 c).

Definition CasmHashAt (c : ClassCasmHashMetadata) (height : Z) : outcome metadataError F :=
  if height <? declaredAt c then Err ErrNotDeclaredYet
  else if IsDeclaredWithV2 c || IsMigratedAt c height then Ok (casmHashV2 c)
  else ptr (casmHashV1 c).

Definition set_migratedAt (c : ClassCasmHashMetadata) (n : Z) : ClassCasmHashMetadata :=
  mkMetadata (declaredAt c) (casmHashV2 c) n (casmHashV1 c).

Definition Migrate (c : ClassCasmHashMetadata) (at_ : Z) : outcome metadataError ClassCasmHashMetadata :=
  if IsDeclaredWithV2 c then Err ErrCannotMigrateV2Declared
  else if at_ <=? declaredAt c then Err ErrCannotMigrateBeforeDeclared
  else if IsMigrated c then Err ErrCannotMigrateAlreadyMigrated
  else Ok (set_migratedAt c at_).

Definition Unmigrate (c : ClassCasmHashMetadata) : outcome metadataError ClassCasmHashMetadata :=
  if negb (IsMigrated c) then Err ErrCannotUnmigrateNotMigrated else Ok (set_migratedAt c 0).

Definition metadata_MarshalBinary (c : ClassCasmHashMetadata) : list Z :=
  be_bytes 8 (declaredAt c) ++ felt_Bytes (casmHashV2 c) ++
  (if 0 <? migratedAt c then 1 :: be_bytes 8 (migratedAt c) else [0]) ++
  match casmHashV1 c with Some h => 1 :: felt_Bytes h | None => [0] end.

Definition metadata_minSize : Z := 8 + 32 + 1 + 1.

(** [data[i]] *)
Definition byte_at {E} (data : list Z) (i : nat) : outcome E Z := ptr (data !! i).

Definition metadata_UnmarshalBinary (data : list Z) : outcome metadataError ClassCasmHashMetadata :=
  if Z.of_nat (length data) <? metadata_minSize then Err ErrMetadataTooShort
  else
    let at_ := be_val (take 8 data) in
    let v2 := felt_SetBytes (take 32 (drop 8 data)) in
    flag ← byte_at data 40;
    '(migrated, offset) ←
      (if flag =? 1 then
         if (length data <? 49)%nat then Err ErrMetadataTooShort
         else Ok (be_val (take 8 (drop 41 data)), 49%nat)
       else Ok (0, 41%nat));
    flag1 ← byte_at data offset;
    if flag1 =? 1 then
      if (length data <? S offset + 32)%nat then Err ErrMetadataTooShort
      else Ok (mkMetadata at_ v2 migrated (Some (felt_SetBytes (take 32 (drop (S offset) data)))))
    else Ok (mkMetadata at_ v2 migrated None).

End classes.

Arguments DeprecatedCairoClass F : clear implicits.
Arguments CasmClass F : clear implicits.
Arguments SierraClass F : clear implicits.
Arguments ClassDefinition F : clear implicits.
Arguments DeclaredClassDefinition F : clear implicits.
Arguments ClassCasmHashMetadata F : clear implicits.
Arguments casmDigest F : clear implicits.
