(* ===== verification/ClassFacts.v ===== *)
(** * Facts about classes

    The encoding that is hashed with Blake2s is uniquely decodable, digests of
    compiled classes hash arrays, the hash of segmented bytecode is the one of its
    pieces, and the records of compiled class hashes are read back. *)
From stdpp Require Import prelude gmap list.
From Stdlib Require Import ZArith Lia.
From S2P Require Import Prelude Felt FeltArith Poseidon PoseidonFacts Transaction Class.

Local Open Scope Z_scope.

(** ** Words *)

Lemma length_le_word v : length (le_word v) = 4%nat.
Proof. unfold le_word. by rewrite length_reverse, length_be_bytes. Qed.

Lemma le_word_inj v w : le_word v = le_word w -> be_bytes 4 v = be_bytes 4 w.
Proof. unfold le_word. intros E. apply (f_equal reverse) in E. by rewrite !reverse_involutive in E. Qed.

Lemma be_bytes_mod_inj n v w : be_bytes n v = be_bytes n w -> v mod 256 ^ Z.of_nat n = w mod 256 ^ Z.of_nat n.
Proof. intros E. apply (f_equal be_val) in E. by rewrite !be_val_bytes in E. Qed.

Lemma le_word_app_inj v w l k : le_word v ++ l = le_word w ++ k -> be_bytes 4 v = be_bytes 4 w /\ l = k.
Proof.
  intros E. apply app_inj_1 in E as [E1 E2]; [|by rewrite !length_le_word]. split; [by apply le_word_inj|done].
Qed.

(** A bit above a number. *)
Lemma lor_pow2 a n : 0 <= n -> 0 <= a < 2 ^ n -> Z.lor a (2 ^ n) = a + 2 ^ n.
Proof.
  intros Hn Ha. symmetry. rewrite <- Z.add_lor_land.
  assert (E : Z.land a (2 ^ n) = 0).
  { apply Z.bits_inj'. intros i Hi. rewrite Z.land_spec, Z.bits_0.
    destruct (decide (i = n)) as [->|]; [by rewrite (testbit_high n) by lia|].
    by rewrite Z.pow2_bits_false, andb_false_r. }
  rewrite E. lia.
Qed.

Section blake.
Context {F : Type} `{!FieldElement F} `{!FieldElementLaws F}.
Implicit Types (x y f : F) (l k : list F).

Lemma limb_low f i : 0 <= i -> be_bytes 4 (felt_limb f i) = be_bytes 4 (Z.shiftr (felt_val f) (64 * i)).
Proof.
  intros Hi. unfold felt_limb. rewrite <- (be_bytes_mod 4 (_ mod _)), <- (be_bytes_mod 4 (Z.shiftr _ _)).
  change (256 ^ Z.of_nat 4) with (2 ^ 32). f_equal.
  apply Z.bits_inj'. intros n Hn. rewrite !testbit_mod_pow2 by lia. bool_cases; done.
Qed.

Lemma limb_high f i :
  0 <= i -> be_bytes 4 (Z.shiftr (felt_limb f i) 32) = be_bytes 4 (Z.shiftr (felt_val f) (64 * i + 32)).
Proof.
  intros Hi. unfold felt_limb. rewrite <- (be_bytes_mod 4 (Z.shiftr _ 32)), <- (be_bytes_mod 4 (Z.shiftr (felt_val f) _)).
  change (256 ^ Z.of_nat 4) with (2 ^ 32). f_equal.
  apply Z.bits_inj'. intros n Hn. rewrite !testbit_mod_pow2 by lia. rewrite !Z.shiftr_spec by lia.
  rewrite testbit_mod_pow2 by lia. rewrite Z.shiftr_spec by lia.
  bool_cases; try done; try (exfalso; lia); cbn [andb]; f_equal; lia.
Qed.

(** An element is its eight words. *)
Lemma words_eq x y :
  (forall i, 0 <= i < 8 -> be_bytes 4 (Z.shiftr (felt_val x) (32 * i)) = be_bytes 4 (Z.shiftr (felt_val y) (32 * i))) ->
  x = y.
Proof.
  intros Hw. apply felt_val_inj.
  assert (Hr : forall z : F, felt_val z = felt_val z mod 256 ^ Z.of_nat 32).
  { intros z. symmetry. apply Z.mod_small. pose proof (felt_val_range z). assert (stark_prime < 256 ^ Z.of_nat 32) by done. lia. }
  rewrite (Hr x), (Hr y). apply be_bytes_mod_inj.
  assert (Hn : forall n : nat, (n <= 8)%nat -> be_bytes (4 * n) (felt_val x) = be_bytes (4 * n) (felt_val y)).
  { induction n as [|n IH]; intros Hn; [done|].
    replace (4 * S n)%nat with (4 + 4 * n)%nat by lia. rewrite !(be_bytes_app (4 * n) 4), IH by lia. f_equal.
    replace (8 * Z.of_nat (4 * n)) with (32 * Z.of_nat n) by lia. apply Hw. lia. }
  exact (Hn 8%nat ltac:(lia)).
Qed.

Definition is_small (f : F) : bool :=
  (felt_limb f 3 =? 0) && (felt_limb f 2 =? 0) && (felt_limb f 1 =? 0) && (felt_limb f 0 <? smallFeltThresholdLow).

Lemma limb_range f i : 0 <= felt_limb f i < 2 ^ 64.
Proof. unfold felt_limb. apply Z.mod_pos_bound. lia. Qed.

Lemma top_limb f : 0 <= Z.shiftr (felt_limb f 3) 32 < 2 ^ 28.
Proof.
  pose proof (limb_range f 3) as Hr. rewrite Z.shiftr_div_pow2 by lia. split; [apply Z.div_pos; lia|].
  apply Z.div_lt_upper_bound; [lia|]. unfold felt_limb. rewrite Z.shiftr_div_pow2 by lia.
  pose proof (felt_val_range f) as Hv. assert (stark_prime < 2 ^ 192 * 2 ^ 60) by done.
  assert (felt_val f / 2 ^ (64 * 3) < 2 ^ 60) by (apply Z.div_lt_upper_bound; lia).
  assert (0 <= felt_val f / 2 ^ (64 * 3)) by (apply Z.div_pos; lia).
  rewrite Z.mod_small by lia. lia.
Qed.

(** The first word of an encoding has its top bit set exactly for large elements. *)
Lemma first_word f :
  exists w (l : list Z), encodeFelt f = le_word w ++ l /\ is_small f = (w mod 256 ^ Z.of_nat 4 <? 2 ^ 31) /\
    length l = (if is_small f then 4 else 28)%nat.
Proof.
  unfold encodeFelt. fold (is_small f). destruct (is_small f) eqn:E.
  - eexists _, _. split; [done|]. split; [|by rewrite length_le_word]. symmetry. apply Z.ltb_lt.
    unfold is_small in E. rewrite !andb_true_iff in E. destruct E as [_ E%Z.ltb_lt]. pose proof (limb_range f 0) as Hr.
    rewrite Z.shiftr_div_pow2 by lia. unfold smallFeltThresholdLow in E.
    assert (felt_limb f 0 / 2 ^ 32 < 2 ^ 31) by (apply Z.div_lt_upper_bound; lia).
    assert (0 <= felt_limb f 0 / 2 ^ 32) by (apply Z.div_pos; lia).
    rewrite Z.mod_small by (change (256 ^ Z.of_nat 4) with (2 ^ 32); lia). lia.
  - eexists _, _. split; [done|]. split; [|by rewrite !length_app, !length_le_word]. symmetry. apply Z.ltb_ge.
    change (256 ^ Z.of_nat 4) with (2 ^ 32). pose proof (top_limb f) as Ht.
    assert (El : Z.lor (Z.shiftr (felt_limb f 3) 32) largeFeltMarker = Z.shiftr (felt_limb f 3) 32 + 2 ^ 31).
    { apply lor_pow2; lia. }
    rewrite El, Z.mod_small; lia.
Qed.

Lemma shiftr_0 (v : Z) : v = Z.shiftr v (32 * 0).
Proof. by rewrite Z.mul_0_r, Z.shiftr_0_r. Qed.

Lemma small_val f : is_small f = true -> felt_val f = felt_limb f 0.
Proof.
  unfold is_small. rewrite !andb_true_iff, !Z.eqb_eq, Z.ltb_lt. intros [[[E3 E2] E1] _].
  unfold felt_limb in *. change (64 * 0) with 0. rewrite Z.shiftr_0_r.
  apply Z.bits_inj'. intros n Hn. rewrite testbit_mod_pow2 by lia.
  destruct (Z.ltb_spec n 64); simpl; [done|]. pose proof (felt_val_range f). assert (stark_prime < 2 ^ 256) by done.
  assert (Hb : forall i, 0 <= i -> Z.shiftr (felt_val f) (64 * i) mod 2 ^ 64 = 0 -> 64 * i <= n < 64 * i + 64 ->
    Z.testbit (felt_val f) n = false).
  { intros i Hi E Hr. apply (f_equal (fun v => Z.testbit v (n - 64 * i))) in E.
    rewrite testbit_mod_pow2, Z.bits_0, Z.shiftr_spec in E by lia.
    destruct (Z.ltb_spec (n - 64 * i) 64); [|lia]. simpl in E. by replace (n - 64 * i + 64 * i) with n in E by lia. }
  destruct (Z.lt_ge_cases n 128); [apply (Hb 1); [lia|done|lia]|].
  destruct (Z.lt_ge_cases n 192); [apply (Hb 2); [lia|done|lia]|].
  destruct (Z.lt_ge_cases n 256); [apply (Hb 3); [lia|done|lia]|].
  apply (testbit_high 256); lia.
Qed.

Lemma encodeFelt_inj x y : is_small x = is_small y -> encodeFelt x = encodeFelt y -> x = y.
Proof.
  unfold encodeFelt. fold (is_small x) (is_small y). intros Es. rewrite Es. destruct (is_small y) eqn:Ey; intros E.
  - apply le_word_app_inj in E as [E1 E0]. apply le_word_inj in E0.
    apply felt_val_inj. rewrite (small_val x), (small_val y) by done.
    assert (Hv : forall f, felt_limb f 0 = felt_limb f 0 mod 256 ^ Z.of_nat 8).
    { intros f. symmetry. apply Z.mod_small. pose proof (limb_range f 0). done. }
    rewrite (Hv x), (Hv y). apply be_bytes_mod_inj. rewrite !(be_bytes_app 4 4), E0. f_equal.
    change (8 * Z.of_nat 4) with 32. done.
  - apply le_word_app_inj in E as [Et E].
    assert (Et' : be_bytes 4 (Z.shiftr (felt_limb x 3) 32) = be_bytes 4 (Z.shiftr (felt_limb y 3) 32)).
    { apply be_bytes_mod_inj in Et. pose proof (top_limb x). pose proof (top_limb y).
      rewrite !(lor_pow2 _ 31), !Z.mod_small in Et by (change (256 ^ Z.of_nat 4) with (2 ^ 32); lia).
      f_equal. lia. }
    do 6 (apply le_word_app_inj in E as [?E E]). apply le_word_inj in E.
    rewrite !limb_high in * by lia. rewrite !limb_low in * by lia.
    apply words_eq. intros i Hi.
    assert (i = 0 \/ i = 1 \/ i = 2 \/ i = 3 \/ i = 4 \/ i = 5 \/ i = 6 \/ i = 7) as Hc by lia.
    destruct Hc as [->|[->|[->|[->|[->|[->|[->| ->]]]]]]]; assumption.
Qed.

(** Equal encodings of lists have equal heads. *)
Lemma encodeFelt_app_inj x y r s : encodeFelt x ++ r = encodeFelt y ++ s -> x = y /\ r = s.
Proof.
  intros E. destruct (first_word x) as (w & l & Ex & Sx & Lx), (first_word y) as (w' & l' & Ey & Sy & Ly).
  assert (Es : is_small x = is_small y).
  { rewrite Sx, Sy. rewrite Ex, Ey, <- !app_assoc in E. apply le_word_app_inj in E as [E _].
    apply be_bytes_mod_inj in E. by rewrite E. }
  apply app_inj_1 in E as [E1 E2]; [split; [by apply encodeFelt_inj|done]|].
  rewrite Ex, Ey, !length_app, !length_le_word, Lx, Ly, Es. done.
Qed.

(** the bytes that are hashed with Blake2s determine the elements: the encoding
    with two words for small elements and eight words with a marker for large
    ones is uniquely decodable for arrays of any length. *)
Theorem blake_encoding_injective l k : encodeFelts l = encodeFelts k -> l = k.
Proof.
  revert k. induction l as [|x l IH]; intros [|y k] E; [done|..].
  - exfalso. destruct (first_word y) as (w & r & Ey & _). cbn [encodeFelts fmap list_fmap concat] in E.
    unfold encodeFelts in E. cbn in E. rewrite Ey in E. apply (f_equal length) in E.
    rewrite !length_app, length_le_word in E. simpl in E. lia.
  - exfalso. destruct (first_word x) as (w & r & Ey & _).
    unfold encodeFelts in E. cbn in E. rewrite Ey in E. apply (f_equal length) in E.
    rewrite !length_app, length_le_word in E. simpl in E. lia.
  - apply encodeFelt_app_inj in E as [-> E]. f_equal. by apply IH.
Qed.

End blake.

(** ** Digests and segments of compiled classes *)

Section casm.
Context {F : Type} `{!FieldElement F} `{!HashFns F} `{!Blake2s}.
Implicit Types (v : CasmHashVersion) (l code : list F) (lens : list Z).

Lemma casm_digest_array v l : casm_finish (foldl casm_update (newCasmDigest v) l) = casmHashArray v l.
Proof.
  destruct v.
  - assert (Hf : forall p b, foldl casm_update (mkCasmDigest HashVersionV1 p b) l =
      mkCasmDigest HashVersionV1 (poseidon_updateArray p l) b).
    { induction l as [|x l IH]; intros p b; [done|]. cbn [foldl]. apply IH. }
    unfold newCasmDigest. rewrite Hf. apply poseidon_absorb.
  - assert (Hf : forall p b, foldl casm_update (mkCasmDigest HashVersionV2 p b) l =
      mkCasmDigest HashVersionV2 p (mkBlake (hasher b ++ encodeFelts l))).
    { induction l as [|x l IH]; intros p b.
      - destruct b. unfold encodeFelts. cbn. by rewrite app_nil_r.
      - cbn [foldl]. unfold casm_update at 2. cbn [cd_version cd_poseidon cd_blake2s]. rewrite IH.
        unfold blake_update, encodeFelts. cbn. by rewrite app_nil_r, app_assoc. }
    unfold newCasmDigest. rewrite Hf. done.
Qed.

(** Segments without children. *)
Definition flat_segments (lens : list Z) : list SegmentLengths := mkSegment [] <$> lens.

(** What is hashed for consecutive segments: their lengths and hashes. *)
Fixpoint segment_elems v code lens : list F :=
  match lens with
  | [] => []
  | n :: rest =>
      felt_of n :: casmHashArray v (take (Z.to_nat n) code) :: segment_elems v (drop (Z.to_nat n) code) rest
  end.

Lemma segments_loop_flat bytecode v lens off total d :
  Forall (fun n => 0 <= n) lens -> 0 <= off -> off + foldr Z.add 0 lens <= Z.of_nat (length bytecode) ->
  Z.of_nat (length bytecode) < 2 ^ 64 ->
  exists total' off', segments_loop (segment_hash bytecode v) (flat_segments lens) off total d =
    Ok (total', felt_Add (casm_finish (foldl casm_update d (segment_elems v (drop (Z.to_nat off) bytecode) lens))) felt_One, off').
Proof.
  intros Hl. revert off total d. induction Hl as [|n lens Hn Hl IH]; intros off total d Ho Hs Hb.
  { eexists _, _. done. }
  cbn [foldr] in Hs. assert (Hf : 0 <= foldr Z.add 0 lens).
  { clear -Hl. induction Hl; simpl; lia. }
  cbn [flat_segments fmap list_fmap segments_loop segment_hash]. unfold slice.
  rewrite (u64_small (off + n)) by lia. destruct (Z.leb_spec off (off + n)); [|lia].
  destruct (Z.leb_spec (off + n) (Z.of_nat (length bytecode))); [|lia]. cbn [andb].
  unfold mbind, outcome_bind. replace (off + n - off) with n by lia.
  rewrite (u64_small (off + n)) by lia.
  destruct (IH (off + n) (u64 (total + n)) (casm_update (casm_update d (felt_of n))
    (casmHashArray v (take (Z.to_nat n) (drop (Z.to_nat off) bytecode))))) as (t' & o' & E); [lia|lia|lia|].
  exists t', o'. unfold flat_segments in E. rewrite E. cbn [segment_elems foldl]. rewrite drop_drop.
  by rewrite Z2Nat.inj_add by lia.
Qed.

(** bytecode that is split into segments is hashed piece by piece: for segments
    without children that fit into the bytecode, the hash is one plus the hash of
    the array of the length and hash of each consecutive piece, with Poseidon as
    with Blake2s, and there is no panic. *)
Theorem segmented_hash_pieces bytecode v lens :
  Forall (fun n => 0 <= n) lens -> foldr Z.add 0 lens <= Z.of_nat (length bytecode) < 2 ^ 64 ->
  SegmentedBytecodeHash bytecode v (flat_segments lens) =
    Ok (felt_Add (casmHashArray v (segment_elems v bytecode lens)) felt_One).
Proof.
  intros Hl Hs. unfold SegmentedBytecodeHash, digestSegment.
  destruct (segments_loop_flat bytecode v lens 0 0 (newCasmDigest v)) as (t & o & E); [done|lia|lia|lia|].
  rewrite E. unfold mbind, outcome_bind. change (Z.to_nat 0) with 0%nat. by rewrite drop_0, casm_digest_array.
Qed.

(** a segment that is not the last and has children is counted twice: the
    recursive call has already moved the offset by its length.  Bytecode that
    consists of such a segment and one more is not hashed: the slice of the last
    segment is out of range and the function panics. *)
Theorem nested_segments_panic bytecode v n m :
  0 < n -> 0 < m -> Z.of_nat (length bytecode) = n + m -> n + m < 2 ^ 63 ->
  SegmentedBytecodeHash bytecode v [mkSegment [mkSegment [] n] n; mkSegment [] m] = Panic.
Proof.
  intros Hn Hm Hb Hs. unfold SegmentedBytecodeHash, digestSegment.
  cbn [segments_loop segment_hash]. unfold slice. change (0 + n) with n. rewrite (u64_small n) by lia.
  destruct (Z.leb_spec 0 n); [|lia]. destruct (Z.leb_spec n (Z.of_nat (length bytecode))); [|lia]. cbn [andb].
  unfold mbind, outcome_bind. cbn beta iota. rewrite ?Z.add_0_l, ?(u64_small n), ?(u64_small (n + n)) by lia.
  rewrite (u64_small (n + n + m)) by lia.
  destruct (Z.leb_spec (n + n) (n + n + m)); [|lia].
  destruct (Z.leb_spec (n + n + m) (Z.of_nat (length bytecode))); [lia|]. done.
Qed.

End casm.

(** ** Records of compiled class hashes *)

Section metadata.
Context {F : Type} `{!FieldElement F} `{!FieldElementLaws F}.
Implicit Types (c : ClassCasmHashMetadata F).

Definition metadata_wf c : Prop := is_u64 (declaredAt c) /\ is_u64 (migratedAt c).

Lemma be_val_u64 n : is_u64 n -> be_val (be_bytes 8 n) = n.
Proof. intros Hn. rewrite be_val_bytes. by apply Z.mod_small. Qed.

(** Fixed parts of a record. *)
Lemma take_drop_mid {A} (l1 l2 l3 : list A) n k :
  length l1 = n -> length l2 = k -> take k (drop n (l1 ++ l2 ++ l3)) = l2.
Proof. intros <- <-. by rewrite drop_app_length, take_app_length. Qed.

Lemma lookup_mid {A} (l1 : list A) x l2 n : length l1 = n -> (l1 ++ x :: l2) !! n = Some x.
Proof. intros <-. by rewrite lookup_app_r, Nat.sub_diag by lia. Qed.

(** the record of the compiled hashes of a class is read back from its bytes,
    whether or not the class was migrated and whichever hashes it has. *)
Theorem metadata_roundtrip c :
  metadata_wf c -> metadata_UnmarshalBinary (metadata_MarshalBinary c) = Ok c.
Proof.
  intros [Hd Hm]. destruct c as [d v2 m v1]. simpl in Hd, Hm. unfold metadata_MarshalBinary. cbn [declaredAt casmHashV2 migratedAt casmHashV1].
  set (tl := match v1 with Some h => 1 :: felt_Bytes h | None => [0] end).
  pose proof (length_be_bytes 8 d) as L1. pose proof (felt_bytes_length v2) as L2.
  assert (Ltl : length tl = match v1 with Some _ => 33%nat | None => 1%nat end).
  { unfold tl. destruct v1; [|done]. simpl. by rewrite felt_bytes_length. }
  assert (Hmin : forall k : list Z, (length k >= 2)%nat ->
    Z.of_nat (length (be_bytes 8 d ++ felt_Bytes v2 ++ k)) <? metadata_minSize = false).
  { intros k Hk. apply Z.ltb_ge. rewrite !length_app, L1, L2. unfold metadata_minSize. lia. }
  assert (H8 : forall k : list Z, be_val (take 8 (be_bytes 8 d ++ felt_Bytes v2 ++ k)) = d).
  { intros k. rewrite take_app_length' by done. by apply be_val_u64. }
  assert (H32 : forall k : list Z, felt_SetBytes (take 32 (drop 8 (be_bytes 8 d ++ felt_Bytes v2 ++ k))) = v2).
  { intros k. rewrite take_drop_mid by done. apply felt_SetBytes_Bytes. }
  assert (H40 : forall x (k : list Z), byte_at (E:=metadataError) (be_bytes 8 d ++ felt_Bytes v2 ++ x :: k) 40 = Ok x).
  { intros x k. unfold byte_at. rewrite app_assoc, (lookup_mid (be_bytes 8 d ++ felt_Bytes v2)); [done|].
    by rewrite length_app, L1, L2. }
  assert (Hend : forall pre k : list Z, length pre = length k ->
    (fl ← byte_at (E:=metadataError) (pre ++ tl) (length k);
     if fl =? 1 then
       if (length (pre ++ tl) <? S (length k) + 32)%nat then Err ErrMetadataTooShort
       else Ok (mkMetadata d v2 m (Some (felt_SetBytes (take 32 (drop (S (length k)) (pre ++ tl))))))
     else Ok (mkMetadata d v2 m None)) = Ok (mkMetadata d v2 m v1)).
  { intros pre k Hk. unfold byte_at. unfold tl in *. destruct v1 as [h|]; rewrite (lookup_mid pre) by done; [|done].
    pose proof (felt_bytes_length h) as Lh. unfold mbind, outcome_bind. cbn [ptr]. change (1 =? 1) with true. cbv iota.
    assert (Eb : Nat.ltb (length (pre ++ 1 :: felt_Bytes h)) (S (length k) + 32)%nat = false).
    { apply Nat.ltb_ge. rewrite length_app. cbn [length]. lia. }
    rewrite Eb. do 3 f_equal. rewrite (cons_middle 1 pre), app_assoc.
    replace (S (length k)) with (length (pre ++ [1])) by (rewrite length_app; simpl; lia).
    rewrite drop_app_length, <- Lh, firstn_all. apply felt_SetBytes_Bytes. }
  unfold metadata_UnmarshalBinary. cbv zeta. destruct (Z.ltb_spec 0 m) as [Hpos|Hz].
  - rewrite Hmin by (rewrite length_app; simpl; rewrite ?length_be_bytes; lia).
    rewrite H8, H32.
    change ((1 :: be_bytes 8 m) ++ tl) with (1 :: (be_bytes 8 m ++ tl)). rewrite H40.
    unfold mbind at 1, outcome_bind at 1. change (1 =? 1) with true. cbv iota.
    assert (Eb : Nat.ltb (length (be_bytes 8 d ++ felt_Bytes v2 ++ 1 :: be_bytes 8 m ++ tl)) 49 = false).
    { apply Nat.ltb_ge. rewrite !length_app, L1, L2. cbn [length]. rewrite length_app, length_be_bytes. lia. }
    rewrite Eb. unfold mbind at 1, outcome_bind at 1.
    assert (Ew : be_bytes 8 d ++ felt_Bytes v2 ++ 1 :: be_bytes 8 m ++ tl =
      (be_bytes 8 d ++ felt_Bytes v2 ++ [1]) ++ be_bytes 8 m ++ tl) by (by rewrite <- !app_assoc).
    assert (L : length (be_bytes 8 d ++ felt_Bytes v2 ++ [1]) = 41%nat) by (by rewrite !length_app, L1, L2).
    rewrite Ew, take_drop_mid by (done || by rewrite length_be_bytes). rewrite be_val_u64 by done.
    rewrite app_assoc. pose proof (Hend ((be_bytes 8 d ++ felt_Bytes v2 ++ [1]) ++ be_bytes 8 m) (replicate 49 0)) as He.
    rewrite length_replicate in He. apply He. by rewrite length_app, L, length_be_bytes.
  - assert (m = 0) as -> by lia.
    rewrite Hmin by (rewrite length_app, Ltl; simpl; destruct v1; lia).
    rewrite H8, H32.
    change ([0] ++ tl) with (0 :: tl). rewrite H40.
    unfold mbind at 1, outcome_bind at 1. change (0 =? 1) with false. cbv iota.
    unfold mbind at 1, outcome_bind at 1.
    assert (Ew : be_bytes 8 d ++ felt_Bytes v2 ++ 0 :: tl = (be_bytes 8 d ++ felt_Bytes v2 ++ [0]) ++ tl)
      by (by rewrite <- !app_assoc).
    rewrite Ew. pose proof (Hend (be_bytes 8 d ++ felt_Bytes v2 ++ [0]) (replicate 41 0)) as He.
    rewrite length_replicate in He. apply He. by rewrite !length_app, L1, L2.
Qed.

(** The compiled hash of a class over time: none before it is declared, the first
    hash until it is migrated, the second from then on; undoing the migration
    restores the record. *)
Lemma casm_hash_over_time d (v1 : F) v2 m h c :
  is_u64 d -> is_u64 m -> 0 <= h -> Migrate (NewCasmHashMetadataDeclaredV1 d (Some v1) v2) m = Ok c ->
  CasmHashAt c h = (if h <? d then Err ErrNotDeclaredYet else if h <? m then Ok v1 else Ok v2) /\
  Unmigrate c = Ok (NewCasmHashMetadataDeclaredV1 d (Some v1) v2).
Proof.
  intros Hd Hm Hh E. unfold Migrate, IsDeclaredWithV2, IsMigrated in E. cbn in E.
  destruct (Z.leb_spec m d); [done|]. injection E as <-.
  unfold CasmHashAt, Unmigrate, IsMigrated, IsDeclaredWithV2, IsMigratedAt. cbn.
  destruct (Z.ltb_spec 0 m); [|lia]. cbn. split; [|done].
  destruct (Z.ltb_spec h d); [done|]. destruct (Z.ltb_spec h m), (Z.leb_spec m h); try lia; done.
Qed.

End metadata.
