(* ===== verification/State.v ===== *)
(** * The state

    [src/core/state]: contracts, classes and storage over the tries of
    [src/core/trie2] and the raw trie database, with the history of their values.

    A state has a database, which it only reads, and a batch of it, to which it
    writes.  Its tries and objects are changed in place.  The objects belong to
    one state and are only reached through its map: they are values of that map,
    and a nil entry marks a deleted contract.  Go maps are iterated in any order
    ([MapOrder]).  The tasks of a pool run one after the other; they work on
    different objects and merge under a lock. *)
From Stdlib Require Import String.
From stdpp Require Import prelude gmap list.
From Stdlib Require Import ZArith Lia.
From S2P Require Import Prelude Felt FeltArith BitArray TrieNode Trie MemDB TrieDB.
From S2P Require Import Poseidon Transaction StateDiff Block Class.

Local Open Scope Z_scope.

(** ** Computations on a part of a state *)

Definition map_err {E E' A} (f : E -> E') (o : outcome E A) : outcome E' A :=
  match o with Ok a => Ok a | Err e => Err (f e) | Panic => Panic | NoFuel => NoFuel end.

Definition zoom {S T E E' A} (get : S -> T) (set : S -> T -> S) (f : E -> E') (m : SE T E A) : SE S E' A :=
  fun s => let '(o, t) := m (get s) in (map_err f o, set s t).

(** [for] over a slice. *)
Fixpoint each {S E A} (l : list A) (f : A -> SE S E unit) : SE S E unit :=
  match l with
  | [] => mret tt
  | x :: l' => f x;; each l' f
  end.

(** The result of a task of a pool: an error does not stop the others. *)
Definition attempt {S E A} (m : SE S E A) : SE S E (E + A) := fun s =>
  match m s with
  | (Ok a, s') => (Ok (inr a), s')
  | (Err e, s') => (Ok (inl e), s')
  | (Panic, s') => (Panic, s')
  | (NoFuel, s') => (NoFuel, s')
  end.

(** The database a state reads. *)
Abbreviation disk := memory.Database.

(** The orders in which maps are iterated. *)
Class MapOrder (F : Type) `{!FieldElement F} := {
  map_order : forall {V : Type}, gmap F V -> list (F * V);
  node_order : gmap BitArray (TrieNode F) -> list (BitArray * TrieNode F);
}.

Class MapOrderLaws (F : Type) `{!FieldElement F} `{!MapOrder F} : Prop := {
  map_order_perm {V} (m : gmap F V) : map_order m ≡ₚ map_to_list m;
  node_order_perm m : node_order m ≡ₚ map_to_list m;
}.

(** The codec of stored classes, which wraps a third-party package. *)
Class ClassCodec (F : Type) := {
  class_Marshal : DeclaredClassDefinition F -> bytes;
  class_Unmarshal : bytes -> option (DeclaredClassDefinition F);
}.

Class ClassCodecLaws (F : Type) `{!ClassCodec F} : Prop := {
  class_roundtrip c : class_Unmarshal (class_Marshal c) = Some c;
}.

Section state.
Context {F : Type} `{!FieldElement F} `{!FieldArith F} `{!HashFns F} `{SV : !Semver} `{!MapOrder F} `{!ClassCodec F}.
Abbreviation trie := (Trie.Trie (F:=F)).
Abbreviation mergeSet := (MergeNodeSet (F:=F)).

Inductive stateError :=
| ErrDB (e : dbError)
| ErrTrie (e : trieError (F:=F))
| ErrUnmarshalContract
| ErrUnmarshalClass
| ErrMetadata (e : metadataError)
| ErrMergeNodes
| ErrContractAlreadyDeployed
| ErrNoHistoryValue
| ErrHistoricalTrieNotSupported
| ErrCommitmentMismatch.

Abbreviation OS := (outcome stateError).

(** ** [contract.go] *)

Record stateContract := mkContract {
  ct_Nonce : F;
  ct_ClassHash : F;
  ct_DeployedHeight : Z;
  ct_StorageRoot : F;
}.

Definition contractEncSize : nat := 104.
Definition contractEmptyRootEncSize : nat := 72.

Definition newContractDeployed (classHash : F) (deployHeight : Z) : stateContract :=
  mkContract felt_Zero classHash deployHeight felt_Zero.

Definition marshalFull (s : stateContract) : bytes :=
  felt_Bytes (ct_Nonce s) ++ felt_Bytes (ct_ClassHash s) ++ felt_Bytes (ct_StorageRoot s) ++
  be_bytes 8 (ct_DeployedHeight s).

Definition marshalEmptyRoot (s : stateContract) : bytes :=
  felt_Bytes (ct_Nonce s) ++ felt_Bytes (ct_ClassHash s) ++ be_bytes 8 (ct_DeployedHeight s).

Definition contract_MarshalBinary (s : stateContract) : bytes :=
  if felt_IsZero (ct_StorageRoot s) then marshalEmptyRoot s else marshalFull s.

Definition unmarshalFull (data : bytes) : stateContract :=
  mkContract (felt_SetBytes (take 32 data)) (felt_SetBytes (take 32 (drop 32 data)))
    (be_val (take 8 (drop 96 data))) (felt_SetBytes (take 32 (drop 64 data))).

(** The storage root of the receiver, which is new, stays zero. *)
Definition unmarshalEmptyRoot (data : bytes) : stateContract :=
  mkContract (felt_SetBytes (take 32 data)) (felt_SetBytes (take 32 (drop 32 data)))
    (be_val (take 8 (drop 64 data))) felt_Zero.

Definition contract_UnmarshalBinary (data : bytes) : option stateContract :=
  if (length data =? contractEncSize)%nat then Some (unmarshalFull data)
  else if (length data =? contractEmptyRootEncSize)%nat then Some (unmarshalEmptyRoot data)
  else None.

Definition contract_commitment (s : stateContract) : F :=
  let h1 := Pedersen (ct_ClassHash s) (ct_StorageRoot s) in
  let h2 := Pedersen h1 (ct_Nonce s) in
  Pedersen h2 felt_Zero.

(** ** [schema.go] *)

Definition ContractKey (addr : F) : bytes := Bucket_Key contract [felt_Bytes addr].
Definition ClassKey (classHash : F) : bytes := Bucket_Key class [felt_Bytes classHash].
Definition MetadataKey (classHash : F) : bytes := Bucket_Key classCasmHashMetadata [felt_Bytes classHash].
Definition ContractStorageHistoryKey (addr loc : F) : bytes :=
  Bucket_Key contractStorageHistory [felt_Bytes addr; felt_Bytes loc].
Definition ContractNonceHistoryKey (addr : F) : bytes := Bucket_Key contractNonceHistory [felt_Bytes addr].
Definition ContractClassHashHistoryKey (addr : F) : bytes := Bucket_Key contractClassHashHistory [felt_Bytes addr].
Definition ContractNonceHistoryAtBlockKey (addr : F) (blockNum : Z) : bytes :=
  Bucket_Key contractNonceHistory [felt_Bytes addr; be_bytes 8 blockNum].
Definition ContractClassHashHistoryAtBlockKey (addr : F) (blockNum : Z) : bytes :=
  Bucket_Key contractClassHashHistory [felt_Bytes addr; be_bytes 8 blockNum].
Definition ContractStorageHistoryAtBlockKey (addr key : F) (blockNum : Z) : bytes :=
  Bucket_Key contractStorageHistory [felt_Bytes addr; felt_Bytes key; be_bytes 8 blockNum].

(** ** [accessors.go] *)

Section accessors.
Context {S : Type} `{!KVStore S}.

Definition WriteContractRecord (addr : F) (c : stateContract) : SE S dbError unit :=
  kv_put (ContractKey addr) (contract_MarshalBinary c).

Definition WriteContract (addr nonce classHash : F) (deployHeight : Z) : SE S dbError unit :=
  WriteContractRecord addr (mkContract nonce classHash deployHeight felt_Zero).

Definition DeleteContract (addr : F) : SE S dbError unit := kv_del (ContractKey addr).

Definition WriteNonceHistory (addr : F) (blockNum : Z) (nonce : F) : SE S dbError unit :=
  kv_put (ContractNonceHistoryAtBlockKey addr blockNum) (felt_Bytes nonce).

Definition WriteClassHashHistory (addr : F) (blockNum : Z) (classHash : F) : SE S dbError unit :=
  kv_put (ContractClassHashHistoryAtBlockKey addr blockNum) (felt_Bytes classHash).

Definition WriteStorageHistory (addr key : F) (blockNum : Z) (value : F) : SE S dbError unit :=
  kv_put (ContractStorageHistoryAtBlockKey addr key blockNum) (felt_Bytes value).

Definition DeleteStorageHistory (addr key : F) (blockNum : Z) : SE S dbError unit :=
  kv_del (ContractStorageHistoryAtBlockKey addr key blockNum).

Definition DeleteNonceHistory (addr : F) (blockNum : Z) : SE S dbError unit :=
  kv_del (ContractNonceHistoryAtBlockKey addr blockNum).

Definition DeleteClassHashHistory (addr : F) (blockNum : Z) : SE S dbError unit :=
  kv_del (ContractClassHashHistoryAtBlockKey addr blockNum).

Definition WriteClass (classHash : F) (c : DeclaredClassDefinition F) : SE S dbError unit :=
  kv_put (ClassKey classHash) (class_Marshal c).

Definition DeleteClass (classHash : F) : SE S dbError unit := kv_del (ClassKey classHash).

End accessors.

Definition db_Get (d : disk) (k : bytes) : OS bytes := map_err ErrDB (memory.Get d k).

Definition GetContract (d : disk) (addr : F) : OS stateContract :=
  val ← db_Get d (ContractKey addr);
  match contract_UnmarshalBinary val with Some c => Ok c | None => Err ErrUnmarshalContract end.

Definition HasContract (d : disk) (addr : F) : OS bool := map_err ErrDB (memory.Has d (ContractKey addr)).

Definition GetClass (d : disk) (classHash : F) : OS (DeclaredClassDefinition F) :=
  val ← db_Get d (ClassKey classHash);
  match class_Unmarshal val with Some c => Ok c | None => Err ErrUnmarshalClass end.

Definition HasClass (d : disk) (classHash : F) : OS bool := map_err ErrDB (memory.Has d (ClassKey classHash)).

(** [ClassCasmHashMetadataBucket.Get] *)
Definition GetMetadata (d : disk) (classHash : F) : OS (ClassCasmHashMetadata F) :=
  val ← db_Get d (MetadataKey classHash); map_err ErrMetadata (metadata_UnmarshalBinary val).

Definition is_not_found (e : stateError) : bool := match e with ErrDB ErrNotFound => true | _ => false end.

(** ** [database.go] *)

Definition ClassTrieHeight : Z := 251.
Definition ContractTrieHeight : Z := 251.
Definition ContractStorageTrieHeight : Z := 251.

(** The reader of a trie of the raw database. *)
Definition reader_of (d : disk) (id : TrieID F) : option (dbReader (F:=F)) := Some (NodeReader d id).

Definition open_trie (d : disk) (id : TrieID F) (height : Z) : OS trie :=
  map_err ErrTrie (Trie.New (reader_of d id) (id_Owner id) (StateComm id) height).

Definition db_ClassTrie (d : disk) (stateComm : F) : OS trie := open_trie d (ClassTrieID stateComm) ClassTrieHeight.

Definition db_ContractTrie (d : disk) (stateComm : F) : OS trie :=
  open_trie d (ContractTrieID stateComm) ContractTrieHeight.

Definition db_ContractStorageTrie (d : disk) (stateComm owner : F) : OS trie :=
  open_trie d (ContractStorageTrieID stateComm owner) ContractStorageTrieHeight.

(** ** [state_reader.go]: the history *)

(** The block number at the end of a key. *)
Definition key_block (prefix : bytes) (k : option bytes) : OS Z :=
  map_err ErrDB (BigEndian_Uint64 (drop (length prefix) (default [] k))).

Abbreviation IS := (SE memory.iterator stateError).
Definition on_iter {A} (m : SE memory.iterator dbError A) : IS A := zoom id (fun _ i => i) ErrDB m.

(** Whether [Seek], which returned [ok], has found the key of the block. *)
Definition exact_hit (prefix : bytes) (blockNum : Z) (ok : bool) : IS bool :=
  if negb ok then mret false
  else k ← on_iter memory.Key; n ← lift (key_block prefix k); mret (n =? blockNum).

Definition value_at (prefix : bytes) (blockNum : Z) : IS bytes :=
  ok ← on_iter (memory.Seek (prefix ++ be_bytes 8 blockNum));
  exact_ ← exact_hit prefix blockNum ok;
  (if negb exact_ then p ← on_iter memory.Prev; if negb p then fail ErrNoHistoryValue else mret tt else mret tt);;
  on_iter memory.Value.

Definition valueAt (d : disk) (prefix : bytes) (blockNum : Z) : OS bytes :=
  it ← map_err ErrDB (memory.NewIterator d prefix true);
  (value_at prefix blockNum it).1.

Definition getHistoricalValue (d : disk) (prefix : bytes) (blockNum : Z) : OS F :=
  match valueAt d prefix blockNum with
  | Ok val => Ok (felt_SetBytes val)
  | Err ErrNoHistoryValue => Ok felt_Zero
  | Err e => Err e
  | Panic => Panic
  | NoFuel => NoFuel
  end.

Definition last_updated (prefix : bytes) (upToBlock : Z) : IS Z :=
  ok ← on_iter (memory.Seek (prefix ++ be_bytes 8 upToBlock));
  exact_ ← exact_hit prefix upToBlock ok;
  if (exact_ : bool) then mret upToBlock
  else
    p ← on_iter memory.Prev;
    if negb p then mret 0
    else k ← on_iter memory.Key; lift (key_block prefix k).

Definition lastUpdatedBlockNumber (d : disk) (prefix : bytes) (upToBlock : Z) : OS Z :=
  it ← map_err ErrDB (memory.NewIterator d prefix true);
  (last_updated prefix upToBlock it).1.

Definition ContractStorageAt (d : disk) (addr key : F) (blockNum : Z) : OS F :=
  getHistoricalValue d (ContractStorageHistoryKey addr key) blockNum.

Definition ContractNonceAt (d : disk) (addr : F) (blockNum : Z) : OS F :=
  getHistoricalValue d (ContractNonceHistoryKey addr) blockNum.

Definition ContractClassHashAt (d : disk) (addr : F) (blockNum : Z) : OS F :=
  getHistoricalValue d (ContractClassHashHistoryKey addr) blockNum.

Definition ContractStorageLastUpdatedAt (d : disk) (addr key : F) (blockNum : Z) : OS Z :=
  lastUpdatedBlockNumber d (ContractStorageHistoryKey addr key) blockNum.

Definition ContractStorageLastUpdatedBlock (d : disk) (addr key : F) : OS Z :=
  lastUpdatedBlockNumber d (ContractStorageHistoryKey addr key) maxUint64.

(** The loops of [GetReverseStateDiff]: the old value of each entry. *)
Fixpoint reverse_entries {V} (old : F -> OS F) (l : list (F * V)) : OS (gmap F (option F)) :=
  match l with
  | [] => Ok ∅
  | (k, _) :: rest =>
      v ← old k;
      m ← reverse_entries old rest;
      Ok (<[k := Some v]> m)
  end.

Fixpoint reverse_storage (old : F -> F -> OS F) (l : list (F * gmap F (option F))) : OS (gmap F (gmap F (option F))) :=
  match l with
  | [] => Ok ∅
  | (addr, stDiffs) :: rest =>
      s ← reverse_entries (old addr) (map_order stDiffs);
      m ← reverse_storage old rest;
      Ok (<[addr := s]> m)
  end.

Definition GetReverseStateDiff (d : disk) (blockNum : Z) (diff : StateDiff F) : OS (StateDiff F) :=
  let before (f : Z -> OS F) : OS F := if 0 <? blockNum then f (blockNum - 1) else Ok felt_Zero in
  storage ← reverse_storage (fun addr key => before (ContractStorageAt d addr key)) (map_order (StorageDiffs diff));
  nonces ← reverse_entries (fun addr => before (ContractNonceAt d addr)) (map_order (Nonces diff));
  classes ← reverse_entries (fun addr => before (ContractClassHashAt d addr)) (map_order (ReplacedClasses diff));
  Ok (mkDiff storage nonces ∅ [] ∅ classes ∅).

Definition stateVersion0 : F := FromBytes (str "STARKNET_STATE_V0"%string).
Definition leafVersion0 : F := FromBytes (str "CONTRACT_CLASS_LEAF_V0"%string).
Definition Ver0_14_0 : semver := semver_New 0 14 0.

(** An invalid version is ignored, and is nil when it is compared. *)
Definition stateCommitment {E} (contractRoot classRoot : F) (protocolVersion : list Z) : outcome E F :=
  if felt_IsZero classRoot && felt_IsZero contractRoot then Ok felt_Zero
  else
    old ←
      (if felt_IsZero classRoot then
         match ParseBlockVersion protocolVersion with
         | Ok ver => Ok (semver_LessThan ver Ver0_14_0)
         | _ => Panic
         end
       else Ok false);
    if (old : bool) then Ok contractRoot else PoseidonElems [Some stateVersion0; Some contractRoot; Some classRoot].

End state.

Arguments stateError F : clear implicits.
Arguments stateContract F : clear implicits.
