(* ===== verification/StateUpdate.v ===== *)
(** * Updates of the state

    [src/core/state/state.go], [object.go] and [history.go]: applying the state
    update of a block to a state and reverting it, the objects of changed
    contracts, the commitment of the result, and the state at an older block. *)
From stdpp Require Import prelude gmap list.
From Stdlib Require Import ZArith Lia.
From S2P Require Import Prelude Felt FeltArith BitArray TrieNode Trie MemDB TrieDB.
From S2P Require Import Poseidon Transaction StateDiff Block Class State.

Local Open Scope Z_scope.

Section state.
Context {F : Type} `{!FieldElement F} `{!FieldArith F} `{!HashFns F} `{SV : !Semver} `{!MapOrder F} `{!ClassCodec F}.
Abbreviation trie := (Trie.Trie (F:=F)).
Abbreviation mergeSet := (MergeNodeSet (F:=F)).
Abbreviation nodeSet := (NodeSet (F:=F)).
Abbreviation OS := (outcome (stateError F)).

(** ** [object.go] *)

Record stateObject := mkObject {
  so_addr : F;
  so_contract : stateContract F;
  so_dirtyStorage : gmap F (option F);
  so_storageTrie : option trie;
}.

Definition newStateObject (addr : F) (c : stateContract F) : stateObject := mkObject addr c ∅ None.

Definition set_contract (o : stateObject) (c : stateContract F) : stateObject :=
  mkObject (so_addr o) c (so_dirtyStorage o) (so_storageTrie o).

Definition set_dirty (o : stateObject) (m : gmap F (option F)) : stateObject :=
  mkObject (so_addr o) (so_contract o) m (so_storageTrie o).

Definition set_storageTrie (o : stateObject) (t : trie) : stateObject :=
  mkObject (so_addr o) (so_contract o) (so_dirtyStorage o) (Some t).

Definition setClassHash (classHash : F) (o : stateObject) : stateObject :=
  let c := so_contract o in
  set_contract o (mkContract (ct_Nonce c) classHash (ct_DeployedHeight c) (ct_StorageRoot c)).

Definition setNonce (nonce : F) (o : stateObject) : stateObject :=
  let c := so_contract o in
  set_contract o (mkContract nonce (ct_ClassHash c) (ct_DeployedHeight c) (ct_StorageRoot c)).

Definition setStorageRoot (root : F) (o : stateObject) : stateObject :=
  let c := so_contract o in
  set_contract o (mkContract (ct_Nonce c) (ct_ClassHash c) (ct_DeployedHeight c) root).

Section object.
Variables (d : disk) (initRoot : F).
Abbreviation OM := (SE stateObject (stateError F)).

Definition storage_reader (addr : F) : option (dbReader (F:=F)) := reader_of d (ContractStorageTrieID initRoot addr).

Definition getStorageTrie : OM unit :=
  o ← get_state;
  match so_storageTrie o with
  | Some _ => mret tt
  | None => t ← lift (db_ContractStorageTrie d initRoot (so_addr o)); modify (fun o => set_storageTrie o t)
  end.

(** The storage trie that was loaded. *)
Definition on_storageTrie {A} (m : SE trie (trieError (F:=F)) A) : OM A :=
  o ← get_state;
  t ← deref (so_storageTrie o);
  let '(r, t') := m t in
  put_state (set_storageTrie o t');; lift (map_err ErrTrie r).

Definition getStorageRoot : OM F :=
  o ← get_state;
  match so_storageTrie o with
  | Some _ =>
      root ← on_storageTrie (Trie_Hash Pedersen);
      modify (setStorageRoot root);; mret root
  | None => mret (ct_StorageRoot (so_contract o))
  end.

(** Descending keys. *)
Definition dirty_keys (o : stateObject) : list F :=
  sort_slice (fun a b => felt_Cmp b a <? 0) (map_to_list (so_dirtyStorage o)).*1.

Definition update_key (o : stateObject) (key : F) : OM unit :=
  val ← deref (default None (so_dirtyStorage o !! key));
  on_storageTrie (Trie.Update (storage_reader (so_addr o)) key val).

Definition object_commit : OM (option nodeSet) :=
  getStorageTrie;;
  o ← get_state;
  each (dirty_keys o) (update_key o);;
  '(root, nodes) ← on_storageTrie (Commit Pedersen);
  modify (setStorageRoot root);;
  mret nodes.

Definition object_commitment (o : stateObject) : F := contract_commitment (so_contract o).

End object.

(** ** [state.go] *)

Definition SystemContract1Address : F := felt_One.
Definition SystemContract2Address : F := felt_of 2.
Definition SystemContractsClassHash : F := felt_Zero.

Definition IsSystemContract (addr : F) : bool :=
  bool_decide (addr = SystemContract1Address) || bool_decide (addr = SystemContract2Address).

(** [st_kv]: the database and the batch.  The tries are loaded on demand. *)
Record State := mkState {
  st_initRoot : F;
  st_kv : memory.dbBatch;
  st_contractTrie : option trie;
  st_classTrie : option trie;
  st_objects : gmap F (option stateObject);
}.

(** [New] with a batch. *)
Definition New (stateRoot : F) (kv : memory.dbBatch) : State := mkState stateRoot kv None None ∅.

Abbreviation SM := (SE State (stateError F)).

Definition st_disk (s : State) : disk := memory.bdb (st_kv s).

Definition set_kv (s : State) (kv : memory.dbBatch) : State :=
  mkState (st_initRoot s) kv (st_contractTrie s) (st_classTrie s) (st_objects s).
Definition set_contractTrie (s : State) (t : trie) : State :=
  mkState (st_initRoot s) (st_kv s) (Some t) (st_classTrie s) (st_objects s).
Definition set_classTrie (s : State) (t : trie) : State :=
  mkState (st_initRoot s) (st_kv s) (st_contractTrie s) (Some t) (st_objects s).
Definition set_objects (s : State) (m : gmap F (option stateObject)) : State :=
  mkState (st_initRoot s) (st_kv s) (st_contractTrie s) (st_classTrie s) m.
Definition set_object (addr : F) (o : option stateObject) : SM unit :=
  modify (fun s => set_objects s (<[addr := o]> (st_objects s))).

Definition on_batch {A} (m : SE memory.dbBatch dbError A) : SM A := zoom st_kv set_kv ErrDB m.

Definition from_disk {A} (f : disk -> OS A) : SM A := s ← get_state; lift (f (st_disk s)).

Definition ClassTrie : SM unit :=
  s ← get_state;
  match st_classTrie s with
  | Some _ => mret tt
  | None => t ← lift (db_ClassTrie (st_disk s) (st_initRoot s)); modify (fun s => set_classTrie s t)
  end.

Definition ContractTrie : SM unit :=
  s ← get_state;
  match st_contractTrie s with
  | Some _ => mret tt
  | None => t ← lift (db_ContractTrie (st_disk s) (st_initRoot s)); modify (fun s => set_contractTrie s t)
  end.

(** The tries, which panic when they are not loaded; [m] is given the reader. *)
Definition on_classTrie {A} (m : option (dbReader (F:=F)) -> SE trie (trieError (F:=F)) A) : SM A :=
  s ← get_state;
  t ← deref (st_classTrie s);
  let '(r, t') := m (reader_of (st_disk s) (ClassTrieID (st_initRoot s))) t in
  put_state (set_classTrie s t');; lift (map_err ErrTrie r).

Definition on_contractTrie {A} (m : option (dbReader (F:=F)) -> SE trie (trieError (F:=F)) A) : SM A :=
  s ← get_state;
  t ← deref (st_contractTrie s);
  let '(r, t') := m (reader_of (st_disk s) (ContractTrieID (st_initRoot s))) t in
  put_state (set_contractTrie s t');; lift (map_err ErrTrie r).

Definition Commitment (protocolVersion : list Z) : SM F :=
  ContractTrie;;
  ClassTrie;;
  contractRoot ← on_contractTrie (fun _ => Trie_Hash Pedersen);
  classRoot ← on_classTrie (fun _ => Trie_Hash Poseidon);
  lift (stateCommitment contractRoot classRoot protocolVersion).

Definition verifyComm (comm : option F) (protocolVersion : list Z) : SM unit :=
  curComm ← Commitment protocolVersion;
  c ← deref comm;
  if negb (bool_decide (curComm = c)) then fail ErrCommitmentMismatch else mret tt.

(** A method of the object of an address. *)
Definition on_object {A} (addr : F) (m : disk -> F -> SE stateObject (stateError F) A) : SM A :=
  s ← get_state;
  o ← deref (default None (st_objects s !! addr));
  let '(r, o') := m (st_disk s) (st_initRoot s) o in
  put_state (set_objects s (<[addr := Some o']> (st_objects s)));; lift r.

(** The pointer in the map, which is nil for deleted contracts. *)
Definition getStateObject (addr : F) : SM (option stateObject) :=
  s ← get_state;
  match st_objects s !! addr with
  | Some p => mret p
  | None =>
      c ← lift (GetContract (st_disk s) addr);
      let obj := newStateObject addr c in
      set_object addr (Some obj);;
      mret (Some obj)
  end.

Definition updateContractClasses (classes : gmap F (option F)) : SM unit :=
  each (map_order classes) (fun '(addr, classHash) =>
    p ← getStateObject addr;
    obj ← deref p;
    h ← deref classHash;
    set_object addr (Some (setClassHash h obj))).

Definition updateContractNonces (nonces : gmap F (option F)) : SM unit :=
  each (map_order nonces) (fun '(addr, nonce) =>
    p ← getStateObject addr;
    obj ← deref p;
    n ← deref nonce;
    set_object addr (Some (setNonce n obj))).

(** A system contract is made when its storage is first written. *)
Definition updateContractStorage (blockNum : Z) (storage : gmap F (gmap F (option F))) : SM unit :=
  each (map_order storage) (fun '(addr, st) =>
    r ← attempt (getStateObject addr);
    p ←
      match r with
      | inr p => mret p
      | inl e =>
          if IsSystemContract addr && is_not_found e then
            let obj := newStateObject addr (newContractDeployed SystemContractsClassHash blockNum) in
            set_object addr (Some obj);; mret (Some obj)
          else fail e
      end;
    obj ← deref p;
    set_object addr (Some (set_dirty obj st))).

Definition updateContracts (blockNum : Z) (diff : StateDiff F) : SM unit :=
  updateContractClasses (ReplacedClasses diff);;
  updateContractNonces (Nonces diff);;
  updateContractStorage blockNum (StorageDiffs diff).

Definition updateClassTrie (declaredClasses : gmap F (option F)) (classDefs : gmap F (ClassDefinition F))
    (migratedClasses : gmap F F) : SM unit :=
  each (map_order declaredClasses) (fun '(classHash, compiledClassHash) =>
    match classDefs !! classHash with
    | None => mret tt
    | Some _ =>
        h ← deref compiledClassHash;
        on_classTrie (fun rd => Trie.Update rd classHash (Poseidon leafVersion0 h))
    end);;
  each (map_order migratedClasses) (fun '(classHash, casmHash) =>
    on_classTrie (fun rd => Trie.Update rd classHash (Poseidon leafVersion0 casmHash))).

(** *** [commit] *)

Record stateUpdate := mkStateUpdate {
  su_prevComm : F;
  su_curComm : F;
  su_classNodes : option mergeSet;
  su_contractNodes : option mergeSet;
}.

Definition compareContracts (objs : gmap F (option stateObject)) (a b : F) : Z :=
  match default None (objs !! a), default None (objs !! b) with
  | None, None => 0
  | None, Some _ => 1
  | Some _, None => -1
  | Some ca, Some cb => Z.of_nat (size (so_dirtyStorage cb)) - Z.of_nat (size (so_dirtyStorage ca))
  end.

Definition sorted_contracts (objs : gmap F (option stateObject)) : list F :=
  sort_slice (fun a b => compareContracts objs a b <? 0) (map_order objs).*1.

Definition merge (merged : mergeSet) (set : option nodeSet) : OS mergeSet :=
  match set with
  | None => Ok merged
  | Some ns =>
      match MergeNodeSet_Merge merged ns (node_order (Nodes ns)) with
      | Some m => Ok m
      | None => Err ErrMergeNodes
      end
  end.

(** The task of one object: its nodes merged and its commitment. *)
Definition commit_object (merged : mergeSet) (addr : F) : SM (mergeSet * F) :=
  nodes ← on_object addr object_commit;
  merged' ← lift (merge merged nodes);
  s ← get_state;
  obj ← deref (default None (st_objects s !! addr));
  mret (merged', object_commitment obj).

(** The tasks; the commitment of a deleted contract stays zero. *)
Fixpoint commit_objects (keys : list F) (merged : mergeSet) (err : option (stateError F))
  : SM (mergeSet * list (F * F)) :=
  match keys with
  | [] => match err with Some e => fail e | None => mret (merged, []) end
  | addr :: rest =>
      s ← get_state;
      match default None (st_objects s !! addr) with
      | None =>
          '(m, comms) ← commit_objects rest merged err;
          mret (m, (addr, felt_Zero) :: comms)
      | Some _ =>
          r ← attempt (commit_object merged addr);
          match r with
          | inl e => commit_objects rest merged (Some (default e err))
          | inr (merged', comm) =>
              '(m, comms) ← commit_objects rest merged' err;
              mret (m, (addr, comm) :: comms)
          end
      end
  end.

(** A system contract without storage is removed. *)
Definition put_commitment (x : F * F) : SM unit :=
  let '(addr, comm) := x in
  on_contractTrie (fun rd => Trie.Update rd addr comm);;
  if IsSystemContract addr then
    s ← get_state;
    match default None (st_objects s !! addr) with
    | None => mret tt
    | Some _ =>
        root ← on_object addr (fun _ _ => getStorageRoot);
        if felt_IsZero root then
          on_contractTrie (fun rd => Trie.Update rd addr felt_Zero);;
          set_object addr None
        else mret tt
    end
  else mret tt.

Definition commit (protocolVersion : list Z) : SM (F * stateUpdate) :=
  s ← get_state;
  '(merged, comms) ← commit_objects (sorted_contracts (st_objects s)) (NewMergeNodeSet None) None;
  each comms put_commitment;;
  '(classRoot, classNodes) ← on_classTrie (fun _ => Commit Poseidon);
  '(contractRoot, contractNodes) ← on_contractTrie (fun _ => Commit Pedersen);
  merged' ← lift (merge merged contractNodes);
  newComm ← lift (stateCommitment contractRoot classRoot protocolVersion);
  s ← get_state;
  mret (newComm, mkStateUpdate (st_initRoot s) newComm
    (match classNodes with Some ns => Some (NewMergeNodeSet (Some ns)) | None => None end) (Some merged')).

(** *** [flush] and the history *)

Definition flush_contract (x : F * option stateObject) : SM unit :=
  match x with
  | (addr, None) => on_batch (DeleteContract addr);; on_batch (DeleteStorageNodesByPath addr)
  | (addr, Some obj) => on_batch (WriteContractRecord addr (so_contract obj))
  end.

Definition flush_class (blockNum : Z) (x : F * option (ClassDefinition F)) : SM unit :=
  match x with
  | (classHash, None) => on_batch (DeleteClass classHash)
  | (classHash, Some c) => on_batch (WriteClass classHash (mkDeclared blockNum c))
  end.

Definition flush (blockNum : Z) (update : stateUpdate) (classes : gmap F (option (ClassDefinition F))) : SM unit :=
  on_batch (raw_Update node_order map_order (su_classNodes update) (su_contractNodes update));;
  s ← get_state;
  each (map_order (st_objects s)) flush_contract;;
  each (map_order classes) (flush_class blockNum).

Definition writeHistory (blockNum : Z) (diff : StateDiff F) : SM unit :=
  each (map_order (StorageDiffs diff)) (fun '(addr, storage) =>
    each (map_order storage) (fun '(key, val) =>
      v ← deref val; on_batch (WriteStorageHistory addr key blockNum v)));;
  each (map_order (Nonces diff)) (fun '(addr, nonce) =>
    n ← deref nonce; on_batch (WriteNonceHistory addr blockNum n));;
  each (map_order (DeployedContracts diff)) (fun '(addr, classHash) =>
    h ← deref classHash; on_batch (WriteClassHashHistory addr blockNum h));;
  each (map_order (ReplacedClasses diff)) (fun '(addr, classHash) =>
    h ← deref classHash; on_batch (WriteClassHashHistory addr blockNum h)).

Definition deleteHistory (blockNum : Z) (diff : StateDiff F) : SM unit :=
  each (map_order (StorageDiffs diff)) (fun '(addr, storage) =>
    each (map_order storage) (fun '(key, _) => on_batch (DeleteStorageHistory addr key blockNum)));;
  each (map_order (Nonces diff)) (fun '(addr, _) => on_batch (DeleteNonceHistory addr blockNum));;
  each (map_order (ReplacedClasses diff)) (fun '(addr, _) => on_batch (DeleteClassHashHistory addr blockNum));;
  each (map_order (DeployedContracts diff)) (fun '(addr, _) =>
    on_batch (DeleteNonceHistory addr blockNum);; on_batch (DeleteClassHashHistory addr blockNum)).

(** *** [Update] *)

Record StateUpdate := mkUpdate {
  up_NewRoot : option F;
  up_OldRoot : option F;
  up_StateDiff : option (StateDiff F);
}.

(** The declared classes that are not stored yet. *)
Fixpoint new_classes (l : list (F * ClassDefinition F)) : SM (gmap F (option (ClassDefinition F))) :=
  match l with
  | [] => mret ∅
  | (hash, c) :: rest =>
      hasClass ← from_disk (fun d => HasClass d hash);
      m ← new_classes rest;
      mret (if (hasClass : bool) then m else <[hash := Some c]> m)
  end.

Definition deploy_contract (blockNum : Z) (x : F * option F) : SM unit :=
  let '(addr, classHash) := x in
  exists_ ← from_disk (fun d => HasContract d addr);
  if (exists_ : bool) then fail ErrContractAlreadyDeployed
  else
    h ← deref classHash;
    set_object addr (Some (newStateObject addr (newContractDeployed h blockNum))).

Definition State_Update (header : Header F) (update : StateUpdate)
    (declaredClasses : gmap F (ClassDefinition F)) (skipVerifyNewRoot : bool) : SM unit :=
  let blockNum := hd_Number header in
  let protocolVersion := hd_ProtocolVersion header in
  verifyComm (up_OldRoot update) protocolVersion;;
  dirtyClasses ← new_classes (map_order declaredClasses);
  diff ← deref (up_StateDiff update);
  updateClassTrie (DeclaredV1Classes diff) declaredClasses (MigratedClasses diff);;
  each (map_order (DeployedContracts diff)) (deploy_contract blockNum);;
  updateContracts blockNum diff;;
  '(newComm, su) ← commit protocolVersion;
  (if negb skipVerifyNewRoot then
     r ← deref (up_NewRoot update);
     if negb (bool_decide (newComm = r)) then fail ErrCommitmentMismatch else mret tt
   else mret tt);;
  flush blockNum su dirtyClasses;;
  writeHistory blockNum diff.

(** *** [Revert] *)

(** The classes of the update that were declared in the block, marked for deletion. *)
Fixpoint revert_classes (blockNum : Z) (hashes : list (option F)) : SM (gmap F (option (ClassDefinition F))) :=
  match hashes with
  | [] => mret ∅
  | p :: rest =>
      hash ← deref p;
      dc ← from_disk (fun d => GetClass d hash);
      if negb (dd_At dc =? blockNum) then revert_classes blockNum rest
      else
        match dd_Class dc with
        | Sierra _ => on_classTrie (fun rd => Trie.Update rd hash felt_Zero)
        | DeprecatedCairo _ => mret tt
        end;;
        m ← revert_classes blockNum rest;
        mret (<[hash := None]> m)
  end.

Definition revert_migrated (x : F * F) : SM unit :=
  let '(classHash, _) := x in
  metadata ← from_disk (fun d => GetMetadata d classHash);
  metadata ← lift (map_err ErrMetadata (Unmigrate metadata));
  v1CasmHash ← lift (map_err ErrMetadata (CasmHash metadata));
  on_classTrie (fun rd => Trie.Update rd classHash (Poseidon leafVersion0 v1CasmHash)).

Definition Revert (header : Header F) (update : StateUpdate) : SM unit :=
  let blockNum := hd_Number header in
  let protocolVersion := hd_ProtocolVersion header in
  verifyComm (up_NewRoot update) protocolVersion;;
  diff ← deref (up_StateDiff update);
  reverseDiff ← from_disk (fun d => GetReverseStateDiff d blockNum diff);
  dirtyClasses ← revert_classes blockNum
    (DeclaredV0Classes diff ++ ((fun x => Some x.1) <$> map_order (DeclaredV1Classes diff)));
  each (map_order (MigratedClasses diff)) revert_migrated;;
  updateContracts blockNum reverseDiff;;
  each (map_order (DeployedContracts diff)) (fun '(addr, _) => set_object addr None);;
  '(newComm, su) ← commit protocolVersion;
  r ← deref (up_OldRoot update);
  if negb (bool_decide (newComm = r)) then fail ErrCommitmentMismatch
  else
    flush blockNum su dirtyClasses;;
    deleteHistory blockNum diff.

(** ** [state_reader.go]: values of the last block *)

Definition ContractClassHash (d : disk) (addr : F) : OS F := c ← GetContract d addr; Ok (ct_ClassHash c).

Definition ContractNonce (d : disk) (addr : F) : OS F := c ← GetContract d addr; Ok (ct_Nonce c).

Definition ContractMetadata (d : disk) (addr : F) : OS (F * F * F) :=
  c ← GetContract d addr; Ok (ct_ClassHash c, ct_Nonce c, ct_StorageRoot c).

(** The leaf in the database; a missing one is zero. *)
Definition ContractStorage (d : disk) (addr key : F) : OS F :=
  match GetNodeByPath d contractTrieStorage addr (FeltToPath key ContractStorageTrieHeight) true with
  | Ok v => Ok (felt_SetBytes v)
  | Err ErrNotFound => Ok felt_Zero
  | Err e => Err (ErrDB e)
  | Panic => Panic
  | NoFuel => NoFuel
  end.

Definition ContractDeployedAt (d : disk) (addr : F) (blockNum : Z) : OS bool :=
  match GetContract d addr with
  | Ok c => Ok (ct_DeployedHeight c <=? blockNum)
  | Err e => if is_not_found e then Ok false else Err e
  | Panic => Panic
  | NoFuel => NoFuel
  end.

Definition CompiledClassHash (d : disk) (classHash : F) : OS F :=
  m ← GetMetadata d classHash; map_err ErrMetadata (CasmHash m).

Definition CompiledClassHashV2 (d : disk) (classHash : F) : OS F :=
  m ← GetMetadata d classHash; Ok (casmHashV2 m).

Definition CompiledClassHashAt (d : disk) (classHash : F) (blockNumber : Z) : OS F :=
  m ← GetMetadata d classHash; map_err ErrMetadata (CasmHashAt m blockNumber).

(** ** [history.go]: the state at a block *)

Record stateHistory := mkHistory {
  sh_blockNum : Z;
  sh_disk : disk;
}.

Definition checkDeployed (s : stateHistory) (addr : F) : OS unit :=
  isDeployed ← ContractDeployedAt (sh_disk s) addr (sh_blockNum s);
  if negb isDeployed then Err (ErrDB ErrNotFound) else Ok tt.

Definition history_ContractClassHash (s : stateHistory) (addr : F) : OS F :=
  _ ← checkDeployed s addr; ContractClassHashAt (sh_disk s) addr (sh_blockNum s).

Definition history_ContractNonce (s : stateHistory) (addr : F) : OS F :=
  _ ← checkDeployed s addr; ContractNonceAt (sh_disk s) addr (sh_blockNum s).

Definition history_ContractStorage (s : stateHistory) (addr key : F) : OS F :=
  _ ← checkDeployed s addr; ContractStorageAt (sh_disk s) addr key (sh_blockNum s).

Definition history_LastUpdatedBlock (s : stateHistory) (addr key : F) : OS Z :=
  ContractStorageLastUpdatedAt (sh_disk s) addr key (sh_blockNum s).

Definition history_Class (s : stateHistory) (classHash : F) : OS (DeclaredClassDefinition F) :=
  c ← GetClass (sh_disk s) classHash;
  if sh_blockNum s <? dd_At c then Err (ErrDB ErrNotFound) else Ok c.

Definition history_Trie (s : stateHistory) : OS trie := Err ErrHistoricalTrieNotSupported.

Definition history_CompiledClassHash (s : stateHistory) (classHash : F) : OS F :=
  CompiledClassHashAt (sh_disk s) classHash (sh_blockNum s).

End state.
