(* ===== verification/StateTree.v ===== *)
(** * The specification of the state

    The tree of a finite map, and after it the state as maps and what an update
    makes of them.

    ** The tree of a finite map

    The specification of the root of a Merkle-Patricia trie: the tree of a finite
    map is built from its entries by splitting them at the first bit of their
    keys ([build]).  It is the canonical tree of the map, so it is the one every
    trie with these contents stands for ([mpt_unique]). *)
From stdpp Require Import prelude gmap list.
From Stdlib Require Import ZArith Lia.
From S2P Require Import Prelude Felt BitArrayFacts TrieSpec TrieTheorems MemDB TrieDB TrieCommit FeltArith Poseidon.
From S2P Require Import Transaction StateDiff Block Class State StateUpdate.

Local Open Scope Z_scope.

Section build.
Context {F : Type} `{!FieldElement F}.
Abbreviation tree := (stree F).
Abbreviation entries := (list (list bool * F)).
Implicit Types (l : entries) (k : list bool).

(** A tree below one more bit of the key. *)
Definition extend (b : bool) (t : tree) : tree :=
  match t with SEdge p c => SEdge (b :: p) c | _ => SEdge [b] t end.

Definition join (t0 t1 : option tree) : option tree :=
  match t0, t1 with
  | None, None => None
  | Some t0, None => Some (extend false t0)
  | None, Some t1 => Some (extend true t1)
  | Some t0, Some t1 => Some (SBin t0 t1)
  end.

(** The entries whose keys start with a bit. *)
Definition branch (b : bool) l : entries :=
  omap (fun '(k, v) => match k with b' :: k' => if Bool.eqb b b' then Some (k', v) else None | [] => None end) l.

Fixpoint build (h : nat) l : option tree :=
  match l with
  | [] => None
  | (_, v) :: _ =>
      match h with
      | O => Some (SLeaf v)
      | S h' => join (build h' (branch false l)) (build h' (branch true l))
      end
  end.

(** The value of a key in a list of entries. *)
Fixpoint assoc l k : option F :=
  match l with
  | [] => None
  | (k', v) :: l' => if decide (k' = k) then Some v else assoc l' k
  end.

Definition entries_ok (h : nat) l : Prop := Forall (fun e => length e.1 = h /\ e.2 ≠ felt_Zero) l.

Lemma branch_ok h b l : entries_ok (S h) l -> entries_ok h (branch b l).
Proof.
  induction 1 as [|[k v] l [Hk Hv] Hl IH]; [constructor|]. unfold branch. cbn [omap list_omap].
  destruct k as [|b' k]; [done|]. simpl in Hk. destruct (Bool.eqb b b'); [|done].
  constructor; [|done]. simpl. split; [lia|done].
Qed.

Lemma assoc_branch h b l k : entries_ok (S h) l -> assoc (branch b l) k = assoc l (b :: k).
Proof.
  induction 1 as [|[k' v] l [Hk Hv] Hl IH]; [done|]. unfold branch. cbn [omap list_omap assoc].
  destruct k' as [|b' k']; [done|].
  destruct (Bool.eqb b b') eqn:E.
  - apply Bool.eqb_prop in E as ->. cbn [assoc]. fold (branch b' l). rewrite IH.
    destruct (decide (k' = k)) as [->|Hne].
    + rewrite decide_True; [done|done].
    + rewrite decide_False; [done|congruence].
  - fold (branch b l). rewrite IH, decide_False; [done|]. intros [= ->]. by destruct b.
Qed.

Lemma olookup_extend b (t : tree) h k :
  canon h t -> slookup (extend b t) k = match k with b' :: k' => if Bool.eqb b b' then slookup t k' else None | [] => None end.
Proof.
  intros Hc. assert (Hone : forall t : tree, is_edge t = false -> slookup (SEdge [b] t) k =
    match k with b' :: k' => if Bool.eqb b b' then slookup t k' else None | [] => None end).
  { clear. intros t _. destruct k as [|b' k]; [done|]. cbn [slookup length take drop].
    destruct b, b'; cbn; rewrite ?take_0, ?drop_0; done. }
  destruct t as [v|t0 t1|p c]; cbn [extend]; [by apply Hone..|].
  destruct k as [|b' k]; [done|]. cbn [slookup length take drop].
  destruct b, b'; cbn [Bool.eqb].
  - apply (f_equal (fun x : bool => if x then _ else _)), bool_decide_ext. split; [by intros [= ->]|by intros ->].
  - by rewrite bool_decide_false.
  - by rewrite bool_decide_false.
  - apply (f_equal (fun x : bool => if x then _ else _)), bool_decide_ext. split; [by intros [= ->]|by intros ->].
Qed.

Lemma canon_extend b (t : tree) h : canon h t -> canon (S h) (extend b t).
Proof.
  intros Hc. destruct t as [v|t0 t1|p c]; cbn [extend].
  - split_and!; [done|done|]. by exists h.
  - split_and!; [done|done|]. by exists h.
  - destruct Hc as (Hp & He & h' & -> & Hc). split_and!; [done|done|]. by exists h'.
Qed.

Lemma join_spec (t0 t1 : option tree) h :
  ocanon h t0 -> ocanon h t1 ->
  ocanon (S h) (join t0 t1) /\
  forall k, olookup (join t0 t1) k =
    match k with b :: k' => olookup (if b then t1 else t0) k' | [] => None end.
Proof.
  intros H0 H1. destruct t0 as [t0|], t1 as [t1|]; cbn [join ocanon olookup] in *.
  - split; [by exists h|]. intros [|[] k]; done.
  - split; [by apply canon_extend|]. intros k. rewrite (olookup_extend _ _ _ _ H0). by destruct k as [|[] k].
  - split; [by apply canon_extend|]. intros k. rewrite (olookup_extend _ _ _ _ H1). by destruct k as [|[] k].
  - split; [done|]. by intros [|[] k].
Qed.

Lemma build_spec h l :
  entries_ok h l -> ocanon h (build h l) /\ forall k, length k = h -> olookup (build h l) k = assoc l k.
Proof.
  revert l. induction h as [|h IH]; intros l Hl.
  - destruct Hl as [|[k v] l [Hk Hv] Hl]; [done|]. cbn. split; [done|].
    intros k' Hk'. destruct k'; [|done]. simpl in Hk. destruct k; [|done].
    by rewrite bool_decide_true, decide_True.
  - destruct l as [|[k0 v0] l0]; [done|]. set (l := (k0, v0) :: l0) in *.
    change (build (S h) l) with (join (build h (branch false l)) (build h (branch true l))).
    destruct (IH (branch false l)) as [C0 L0]; [by apply branch_ok|].
    destruct (IH (branch true l)) as [C1 L1]; [by apply branch_ok|].
    destruct (join_spec _ _ _ C0 C1) as [C L]. split; [done|]. intros k Hk. rewrite L.
    destruct k as [|b k]; [done|]. injection Hk as Hk.
    rewrite <- (assoc_branch h b l k Hl). destruct b; auto.
Qed.

End build.

(** ** Maps of field elements *)

Section maps.
Context {F : Type} `{!FieldElement F} `{!FieldElementLaws F}.
Abbreviation tree := (stree F).
Implicit Types (m : gmap F F) (k : F).

(** The height of the tries of the state. *)
Definition state_height : nat := 251.

(** A key that the trie does not cut. *)
Definition key_ok k : Prop := felt_val k < 2 ^ 251.

Definition map_ok m : Prop := map_Forall (fun k v => key_ok k /\ v ≠ felt_Zero) m.

Abbreviation kbits := (key_bits state_height).

Lemma kbits_inj k k' : key_ok k -> key_ok k' -> kbits k = kbits k' -> k = k'.
Proof.
  intros H H' E. apply felt_val_inj. pose proof (felt_val_range k). pose proof (felt_val_range k').
  unfold key_bits in E. apply bits_n_inj in E; [done|unfold key_ok in *; change (Z.of_nat state_height) with 251; lia..].
Qed.

(** Every path of full length is the path of a key. *)
Lemma kbits_surj l : length l = state_height -> exists k, key_ok k /\ kbits k = l.
Proof.
  intros Hl. pose proof (bits_val_range l) as Hr. rewrite Hl in Hr. change (Z.of_nat state_height) with 251 in Hr.
  assert (stark_prime < 256 ^ Z.of_nat 32 /\ 2 ^ 251 < stark_prime) as [? ?] by done.
  exists (felt_of (bits_val l)).
  assert (E : felt_val (felt_of (bits_val l) : F) = bits_val l).
  { unfold felt_of. rewrite felt_SetBytes_val by apply be_bytes_range. rewrite be_val_bytes.
    rewrite (Z.mod_small (bits_val l)), Z.mod_small by lia. done. }
  unfold key_ok, key_bits. rewrite E. split; [lia|]. rewrite <- Hl at 1. apply bits_n_val.
Qed.

Definition mpt m : option tree := build state_height ((fun '(k, v) => (kbits k, v)) <$> map_to_list m).

Lemma mpt_entries m : map_ok m -> entries_ok state_height ((fun '(k, v) => (kbits k, v)) <$> map_to_list m).
Proof.
  intros Hm. apply Forall_fmap, Forall_forall. intros [k v] Hin%elem_of_map_to_list.
  destruct (Hm k v Hin) as [_ Hv]. split; [apply length_key_bits|done].
Qed.

Lemma assoc_map_to_list m k :
  map_ok m -> key_ok k -> assoc ((fun '(k, v) => (kbits k, v)) <$> map_to_list m) (kbits k) = m !! k.
Proof.
  intros Hm Hk. rewrite <- (list_to_map_to_list (M:=gmap F) m) at 2.
  assert (Hl : Forall (fun kv => key_ok kv.1) (map_to_list m)).
  { apply Forall_forall. intros [k' v] Hin%elem_of_map_to_list. by destruct (Hm k' v Hin). }
  revert Hl. induction (map_to_list m) as [|[k' v] l IH]; intros Hl; [done|].
  apply Forall_cons in Hl as [Hk' Hl]. cbn [fmap list_fmap assoc list_to_map foldr].
  destruct (decide (k' = k)) as [->|Hne].
  - rewrite decide_True by done. cbn. by rewrite lookup_insert_eq.
  - rewrite decide_False by (intros E%kbits_inj; done). cbn. rewrite lookup_insert_ne by done. by apply IH.
Qed.

Lemma mpt_canon m : map_ok m -> ocanon state_height (mpt m).
Proof. intros Hm. by apply build_spec, mpt_entries. Qed.

Lemma mpt_lookup m k : map_ok m -> key_ok k -> map_of (mpt m) (kbits k) = default felt_Zero (m !! k).
Proof.
  intros Hm Hk. unfold map_of, mpt. rewrite (proj2 (build_spec _ _ (mpt_entries m Hm))) by apply length_key_bits.
  by rewrite assoc_map_to_list.
Qed.

Lemma map_of_length h (t : option tree) l : ocanon h t -> length l ≠ h -> map_of t l = felt_Zero.
Proof.
  intros Hc Hl. unfold map_of. destruct (olookup t l) as [v|] eqn:E; [|done].
  destruct t as [t|]; [|done]. exfalso. apply Hl. by eapply slookup_length.
Qed.

(** Any tree with the contents of the map is its tree. *)
Lemma mpt_unique m t :
  map_ok m -> ocanon state_height t ->
  (forall k, key_ok k -> map_of t (kbits k) = default felt_Zero (m !! k)) -> t = mpt m.
Proof.
  intros Hm Hc Hk. apply (map_of_inj state_height); [done|by apply mpt_canon|].
  intros l. destruct (decide (length l = state_height)) as [Hl|Hl].
  - destruct (kbits_surj l Hl) as (k & Hok & <-). by rewrite Hk, mpt_lookup.
  - by rewrite !(map_of_length state_height) by (done || by apply mpt_canon).
Qed.

Lemma mpt_empty : mpt ∅ = None.
Proof. unfold mpt. by rewrite map_to_list_empty. Qed.

(** The entries that are not zero, and the map with other entries written to it:
    writing zero removes a key. *)
Definition nz m : gmap F F := filter (fun kv => kv.2 ≠ felt_Zero) m.

Definition write m (new : gmap F F) : gmap F F := nz (new ∪ m).

Lemma nz_lookup m k : default felt_Zero (nz m !! k) = default felt_Zero (m !! k).
Proof.
  unfold nz. destruct (filter _ m !! k) as [v|] eqn:E.
  - apply map_lookup_filter_Some in E as [-> _]. done.
  - apply map_lookup_filter_None in E as [->|E]; [done|]. destruct (m !! k) as [v|] eqn:Em; [|done].
    specialize (E v eq_refl). cbn in *. destruct (decide (v = felt_Zero)) as [->|]; [done|]. by destruct E.
Qed.

Lemma nz_ok m : map_Forall (fun k _ => key_ok k) m -> map_ok (nz m).
Proof. intros Hm k v [Hk Hv]%map_lookup_filter_Some. split; [by apply (Hm k v)|done]. Qed.

Lemma write_lookup m new k :
  default felt_Zero (write m new !! k) = match new !! k with Some v => v | None => default felt_Zero (m !! k) end.
Proof.
  unfold write. rewrite nz_lookup. destruct (new !! k) as [v|] eqn:E.
  - by rewrite (lookup_union_Some_l _ _ _ _ E).
  - by rewrite lookup_union_r.
Qed.

Lemma write_ok m new : map_ok m -> map_Forall (fun k _ => key_ok k) new -> map_ok (write m new).
Proof.
  intros Hm Hn. apply nz_ok. intros k v [Hk|[_ Hk]]%lookup_union_Some_raw; [by apply (Hn k v)|by apply (Hm k v)].
Qed.

Lemma map_ok_empty : map_ok ∅.
Proof. apply map_Forall_empty. Qed.

End maps.

#[global] Opaque mpt.

(** * The specification of the state

    What the state of a Starknet node is, without tries, batches or objects: a
    map of contracts, each with its class, nonce, deployment height and storage,
    the leaves of the class trie, and the declared classes.  [apply_update] says
    what a block changes, [spec_root] what the commitment is, and [db_state]
    which databases hold a state. *)

Section spec.
Context {F : Type} `{!FieldElement F} `{!FieldArith F} `{!HashFns F} `{SV : !Semver} `{!ClassCodec F}.

Record acontract := mkAccount {
  ac_class : F;
  ac_nonce : F;
  ac_height : Z;
  ac_storage : gmap F F;
}.

Record astate := mkAState {
  as_contracts : gmap F acontract;
  as_leaves : gmap F F;
  as_classes : gmap F (DeclaredClassDefinition F);
}.

Definition empty_state : astate := mkAState ∅ ∅ ∅.

Implicit Types (σ : astate) (c : acontract) (a : F).

(** ** Commitments *)

Definition map_root (hf : F -> F -> F) (m : gmap F F) : F := oshash hf (mpt m).

(** The stored record of a contract, and its leaf in the contract trie. *)
Definition record_of c : stateContract F :=
  mkContract (ac_nonce c) (ac_class c) (ac_height c) (map_root Pedersen (ac_storage c)).

Definition leaf_of c : F := contract_commitment (record_of c).

Definition contract_leaves (contracts : gmap F acontract) : gmap F F := nz (leaf_of <$> contracts).

Definition spec_root {E} σ (protocolVersion : list Z) : outcome E F :=
  stateCommitment (map_root Pedersen (contract_leaves (as_contracts σ))) (map_root Poseidon (as_leaves σ))
    protocolVersion.

(** ** Updates *)

(** The new values of a map of pointers. *)
Definition some_values (m : gmap F (option F)) : gmap F F := omap id m.

Definition changed_contracts (diff : StateDiff F) : gset F :=
  dom (DeployedContracts diff) ∪ dom (ReplacedClasses diff) ∪ dom (Nonces diff) ∪ dom (StorageDiffs diff).

(** The contract a change starts from. *)
Definition base_contract σ (blockNum : Z) (diff : StateDiff F) a : option acontract :=
  match DeployedContracts diff !! a with
  | Some (Some h) => Some (mkAccount h felt_Zero blockNum ∅)
  | _ =>
      match as_contracts σ !! a with
      | Some c => Some c
      | None =>
          if IsSystemContract a && bool_decide (is_Some (StorageDiffs diff !! a))
          then Some (mkAccount SystemContractsClassHash felt_Zero blockNum ∅) else None
      end
  end.

Definition change_contract (diff : StateDiff F) a c : acontract :=
  mkAccount
    (default (ac_class c) (default None (ReplacedClasses diff !! a)))
    (default (ac_nonce c) (default None (Nonces diff !! a)))
    (ac_height c)
    (write (ac_storage c) (some_values (default ∅ (StorageDiffs diff !! a)))).

(** A system contract without storage is removed. *)
Definition purge a c : option acontract :=
  if IsSystemContract a && bool_decide (map_root Pedersen (ac_storage c) = felt_Zero) then None else Some c.

Definition changed_contract σ (blockNum : Z) (diff : StateDiff F) a : option acontract :=
  c ← base_contract σ blockNum diff a; purge a (change_contract diff a c).

(** A map with the values of a function on a set of keys. *)
Definition set_keys {V} (f : F -> option V) (l : list F) (m : gmap F V) : gmap F V :=
  foldr (fun a m => partial_alter (fun _ => f a) a m) m l.

Definition class_leaf (casmHash : F) : F := Poseidon leafVersion0 casmHash.

(** The classes whose definitions are given. *)
Definition declared_leaves (declared : gmap F (option F)) (classDefs : gmap F (ClassDefinition F)) : gmap F F :=
  class_leaf <$> some_values (filter (fun kv => is_Some (classDefs !! kv.1)) declared).

Definition apply_update σ (blockNum : Z) (diff : StateDiff F) (classDefs : gmap F (ClassDefinition F)) : astate :=
  mkAState
    (set_keys (changed_contract σ blockNum diff) (elements (changed_contracts diff)) (as_contracts σ))
    (write (write (as_leaves σ) (declared_leaves (DeclaredV1Classes diff) classDefs)) (class_leaf <$> MigratedClasses diff))
    (as_classes σ ∪ (mkDeclared blockNum <$> classDefs)).

(** ** States and updates the theorems are about *)

Definition contract_ok a c : Prop := a ≠ felt_Zero /\ key_ok a /\ is_u64 (ac_height c) /\ map_ok (ac_storage c).

Record state_ok σ : Prop := {
  so_contracts : map_Forall contract_ok (as_contracts σ);
  so_leaves : map_ok (as_leaves σ);
}.

(** The update of a block: pointers are not nil, contracts that are changed exist
    and contracts that are deployed do not, keys are below the bound of the
    tries. *)
Record update_ok σ (blockNum : Z) (diff : StateDiff F) : Prop := {
  uo_block : is_u64 blockNum;
  uo_deployed : map_Forall (fun a h => is_Some h /\ a ≠ felt_Zero /\ key_ok a /\ as_contracts σ !! a = None) (DeployedContracts diff);
  uo_replaced : map_Forall (fun a h => is_Some h /\ (is_Some (as_contracts σ !! a) \/ is_Some (DeployedContracts diff !! a))) (ReplacedClasses diff);
  uo_nonces : map_Forall (fun a n => is_Some n /\ (is_Some (as_contracts σ !! a) \/ is_Some (DeployedContracts diff !! a))) (Nonces diff);
  uo_storage : map_Forall (fun a st =>
    (is_Some (as_contracts σ !! a) \/ is_Some (DeployedContracts diff !! a) \/ IsSystemContract a = true) /\
    map_Forall (fun k v => is_Some v /\ key_ok k) st) (StorageDiffs diff);
  uo_declared : map_Forall (fun k h => is_Some h /\ key_ok k) (DeclaredV1Classes diff);
  uo_migrated : map_Forall (fun k _ => key_ok k) (MigratedClasses diff);
}.

(** ** Databases *)

Definition storage_of σ a : gmap F F := from_option ac_storage ∅ (as_contracts σ !! a).

Record db_state (m : gmap bytes bytes) σ : Prop := {
  ds_contract a : m !! ContractKey a = (fun c => contract_MarshalBinary (record_of c)) <$> as_contracts σ !! a;
  ds_classTrie : db_holds Poseidon m classTrie felt_Zero (mpt (as_leaves σ));
  ds_contractTrie : db_holds Pedersen m contractTrieContract felt_Zero (mpt (contract_leaves (as_contracts σ)));
  ds_storage a : a ≠ felt_Zero -> db_holds Pedersen m contractTrieStorage a (mpt (storage_of σ a));
  ds_class h : m !! ClassKey h = class_Marshal <$> as_classes σ !! h;
}.

End spec.

Arguments acontract F {_}.
Arguments astate F {_}.
