(* ===== verification/StateTries.v ===== *)
(** * The tries of a state as maps

    A trie of the state that was opened on the database and modified is the tree
    of a finite map ([trie_is]); updating it writes to the map, and committing it
    returns the root of the map and a node set that brings the database to its
    tree; then the steps of an update. *)
From stdpp Require Import prelude gmap list.
From Stdlib Require Import ZArith Lia.
From S2P Require Import Prelude Felt BitArray BitArrayFacts TrieNode Trie TrieSpec TrieRep TrieNodeFacts TrieTheorems.
From S2P Require Import MemDB MemDBFacts TrieDB TrieDBFacts TrieCommit FeltArith Poseidon Transaction StateDiff Block.
From S2P Require Import Class ClassFacts State StateUpdate StateTree.

Local Open Scope Z_scope.

(** ** Loops and parts of states *)

Lemma wp_zoom {S T E E' A} (get : S -> T) (set : S -> T -> S) (f : E -> E') (m : SE T E A) (Q : A -> S -> Prop) s :
  wp m (fun a t => Q a (set s t)) (get s) -> wp (zoom get set f m) Q s.
Proof.
  intros (a & t & E1 & HQ)%wp_elim. apply (wp_intro _ _ _ a (set s t)); [|done]. unfold zoom. by rewrite E1.
Qed.

Lemma wp_attempt {S E A} (m : SE S E A) (Q : E + A -> S -> Prop) s :
  wp m (fun a => Q (inr a)) s -> wp (attempt m) Q s.
Proof.
  intros (a & t & E1 & HQ)%wp_elim. apply (wp_intro _ _ _ (inr a) t); [|done]. unfold attempt. by rewrite E1.
Qed.

(** The invariant of a loop speaks of the entries that are done. *)
Lemma wp_each {S E A} (I : list A -> S -> Prop) (f : A -> SE S E unit) l s :
  I [] s ->
  (forall done x rest s, l = done ++ x :: rest -> I done s -> wp (f x) (fun _ s' => I (done ++ [x]) s') s) ->
  wp (each l f) (fun _ s' => I l s') s.
Proof.
  intros H0 Hstep.
  assert (H : forall rest done s, l = done ++ rest -> I done s -> wp (each rest f) (fun _ s' => I l s') s).
  { clear s H0. induction rest as [|x rest IH]; intros done s -> Hd; cbn [each].
    - wp_step. by rewrite app_nil_r.
    - wp_step. eapply wp_mono; [by apply (Hstep done x rest)|]. intros [] s' Hd'. cbv beta in Hd'.
      apply (IH (done ++ [x])); [by rewrite <- app_assoc|done]. }
  by apply (H l []).
Qed.

(** The invariant of a loop over a map, in any order of its entries. *)
Lemma wp_each_map {S E V} {F} `{!FieldElement F} (I : gmap F V -> S -> Prop) (f : F * V -> SE S E unit)
    (m : gmap F V) l s :
  l ≡ₚ map_to_list m -> I ∅ s ->
  (forall done k v s, done ⊆ m -> m !! k = Some v -> done !! k = None -> I done s ->
     wp (f (k, v)) (fun _ s' => I (<[k := v]> done) s') s) ->
  wp (each l f) (fun _ s' => I m s') s.
Proof.
  intros Hl H0 Hstep.
  assert (Hn : NoDup l.*1) by (rewrite Hl; apply NoDup_fst_map_to_list).
  assert (Em : (list_to_map l : gmap F V) = m).
  { rewrite <- (list_to_map_to_list (M:=gmap F) m). by apply list_to_map_proper. }
  rewrite <- Em. apply (wp_each (fun done s => I (list_to_map done) s)); [done|].
  intros done [k v] rest s1 -> HI.
  assert (Hk : (list_to_map (M:=gmap F V) done) !! k = None).
  { apply not_elem_of_list_to_map_1. rewrite fmap_app in Hn. apply NoDup_app in Hn as (_ & Hx & _).
    intros Hin. apply (Hx k Hin). simpl. by left. }
  eapply wp_mono; [apply (Hstep (list_to_map done) k v s1); [| |done|done]|].
  - intros k'. destruct ((list_to_map done : gmap F V) !! k') as [v'|] eqn:Ek; simpl; [|by destruct (m !! k')].
    rewrite <- Em, list_to_map_app. rewrite (lookup_union_Some_l _ _ _ _ Ek). done.
  - rewrite <- Em, list_to_map_app, lookup_union_r by done. cbn. by rewrite lookup_insert_eq.
  - intros [] s2 HI'.
    replace (list_to_map (done ++ [(k, v)]) : gmap F V) with (<[k := v]> (list_to_map done) : gmap F V); [done|].
    rewrite list_to_map_app. cbn. symmetry. apply map_eq. intros k'. destruct (decide (k' = k)) as [->|Hne].
    + by rewrite lookup_union_r, !lookup_insert_eq.
    + rewrite lookup_insert_ne by done. destruct ((list_to_map done : gmap F V) !! k') as [v'|] eqn:Ek.
      * by apply lookup_union_Some_l.
      * by rewrite lookup_union_r, lookup_insert_ne, lookup_empty.
Qed.

(** ** Writing to maps *)

Section writes.
Context {F : Type} `{!FieldElement F} `{!FieldElementLaws F}.
Implicit Types (m new : gmap F F).

Lemma nz_ext m m' : (forall k, default felt_Zero (m !! k) = default felt_Zero (m' !! k)) -> nz m = nz m'.
Proof.
  intros E. apply map_eq. intros k. unfold nz. rewrite !map_lookup_filter. specialize (E k).
  destruct (m !! k) as [v|], (m' !! k) as [w|]; cbn in *; subst; [done|..|done].
  - by rewrite option_guard_False by (intros []; done).
  - by rewrite option_guard_False by (intros []; done).
Qed.

Lemma write_ext m new x :
  map_ok x -> (forall k, default felt_Zero (x !! k) = match new !! k with Some v => v | None => default felt_Zero (m !! k) end) ->
  x = write m new.
Proof.
  intros Hx E. assert (Ex : x = nz x).
  { symmetry. apply map_filter_id. intros k v Hv. by apply (Hx k v). }
  rewrite Ex. apply nz_ext. intros k. rewrite E. destruct (new !! k) as [v|] eqn:En.
  - by rewrite (lookup_union_Some_l _ _ _ _ En).
  - by rewrite lookup_union_r.
Qed.

Lemma write_empty m : map_ok m -> write m ∅ = m.
Proof. intros Hm. symmetry. apply write_ext; [done|]. intros k. by rewrite lookup_empty. Qed.

Lemma write_insert m new k v :
  map_ok m -> map_Forall (fun k _ => key_ok k) new -> key_ok k ->
  write (write m new) {[k := v]} = write m (<[k := v]> new).
Proof.
  intros Hm Hn Hk. apply write_ext.
  - apply write_ok; [by apply write_ok|]. by intros ? ? [<- <-]%lookup_singleton_Some.
  - intros k'. rewrite !write_lookup. destruct (decide (k' = k)) as [->|Hne].
    + by rewrite lookup_singleton_eq, lookup_insert_eq.
    + by rewrite lookup_singleton_ne, lookup_insert_ne by done.
Qed.

End writes.

(** ** Tries *)

Section tries.
Context {F : Type} `{!FieldElement F} `{!FieldElementLaws F}.
Variable hf : F -> F -> F.
Variables (d : disk) (id : TrieID F) (m0 : gmap F F).
Abbreviation trie := (Trie.Trie (F:=F)).
Abbreviation rd := (reader_of d id).
Implicit Types (m : gmap F F) (s : trie).

Hypothesis d_open : kv_open d.
Hypothesis m0_ok : map_ok m0.
Hypothesis holds : db_holds hf (default ∅ (memory.db d)) (Bucket id) (id_Owner id) (mpt m0).
Hypothesis hf_nonzero : hash_nonzero hf.

(** The trie stands for a map. *)
Definition trie_is m s : Prop := map_ok m /\ commit_inv hf d id state_height (mpt m0) (s, mpt m).

Lemma ht_ok : (0 < state_height <= 255)%nat.
Proof. unfold state_height. lia. Qed.

Lemma open_trie_is stateComm :
  (stateComm = felt_Zero -> m0 = ∅) ->
  exists s, Trie.New rd (id_Owner id) stateComm 251 = Ok s /\ trie_is m0 s.
Proof.
  intros Hz. destruct (New_inv_zero hf d id state_height (mpt m0) d_open ht_ok (mpt_canon _ m0_ok) holds stateComm)
    as (s & E & Hinv).
  - intros E. rewrite (Hz E). apply mpt_empty.
  - exists s. split; [exact E|by split].
Qed.

Lemma wp_trie_update m s k v :
  trie_is m s -> key_ok k -> wp (Trie.Update rd k v) (fun _ s' => trie_is (write m {[k := v]}) s') s.
Proof.
  intros [Hm Hinv] Hk.
  assert (Hw : map_ok (write m {[k := v]})).
  { apply write_ok; [done|]. by intros ? ? [<- <-]%lookup_singleton_Some. }
  eapply wp_mono; [apply (wp_Update_inv hf d id state_height (mpt m0) d_open ht_ok (mpt_canon _ m0_ok) holds s (mpt m) k v hf_nonzero Hinv)|].
  intros _ s' (ot & Hinv' & Hu). split; [done|].
  replace (mpt (write m {[k := v]})) with ot; [done|].
  apply mpt_unique; [done|apply (ci_rep _ _ _ _ _ _ Hinv')|].
  intros k' Hk'. rewrite Hu, write_lookup. unfold upd. destruct (decide (k' = k)) as [->|Hne].
  - by rewrite decide_True, lookup_singleton_eq.
  - rewrite decide_False by (by intros ?%kbits_inj). rewrite lookup_singleton_ne by done. by apply mpt_lookup.
Qed.

Lemma wp_trie_hash m s :
  trie_is m s -> wp (Trie_Hash hf) (fun h s' => h = oshash hf (mpt m) /\ trie_is m s') s.
Proof.
  intros [Hm Hinv].
  eapply wp_mono; [apply (wp_Hash_inv hf d id state_height (mpt m0) d_open ht_ok (mpt_canon _ m0_ok) holds s (mpt m) hf_nonzero Hinv)|].
  intros h s' [-> Hinv']. done.
Qed.

(** What a commit returns. *)
Definition nodes_bring (nodes : option (NodeSet (F:=F))) m : Prop :=
  (forall ns, nodes = Some ns -> Owner ns = id_Owner id) /\
  brings hf id (mpt m0) (from_option Nodes ∅ nodes) (mpt m).

Definition committed_is m s : Prop :=
  root s = match mpt m with Some t => NHash (shash hf t) | None => NNil end.

Lemma wp_trie_commit m s :
  trie_is m s ->
  wp (Commit hf) (fun r s' => r.1 = oshash hf (mpt m) /\ nodes_bring r.2 m /\ committed_is m s') s.
Proof.
  intros [Hm Hinv].
  eapply wp_mono; [apply (wp_Commit hf d id state_height (mpt m0) d_open ht_ok (mpt_canon _ m0_ok) holds s (mpt m) hf_nonzero Hinv)|].
  intros r s' (E & _ & Ho & Hb & Hr). split; [done|]. by split; [split|].
Qed.

(** The hash of a committed trie. *)
Lemma wp_committed_hash m s :
  committed_is m s -> wp (Trie_Hash hf) (fun h s' => h = oshash hf (mpt m)) s.
Proof.
  intros Hc. unfold committed_is in Hc.
  destruct (mpt m) as [t|]; (eapply wp_intro; [unfold Trie_Hash, hashRoot, mbind, SE_bind, get_state; rewrite Hc; reflexivity|done]).
Qed.

End tries.

(** * The steps of an update

    The parts of [State_Update] and [Revert], each with what it does to a state
    that was opened on a database which holds a state of the specification: the
    tries as maps, the objects of the contracts that are changed. *)

(** ** Records of contracts *)

Section records.
Context {F : Type} `{!FieldElement F} `{!FieldElementLaws F}.

Lemma contract_roundtrip (c : stateContract F) :
  is_u64 (ct_DeployedHeight c) -> contract_UnmarshalBinary (contract_MarshalBinary c) = Some c.
Proof.
  intros Hh. destruct c as [n h dh r]. simpl in Hh. unfold contract_MarshalBinary. cbn [ct_StorageRoot].
  pose proof (felt_bytes_length n) as Ln. pose proof (felt_bytes_length h) as Lh. pose proof (felt_bytes_length r) as Lr.
  pose proof (length_be_bytes 8 dh) as Ld.
  assert (Hmid : forall (l1 l2 l3 : list Z) i, length l1 = i -> length l2 = 32%nat -> take 32 (drop i (l1 ++ l2 ++ l3)) = l2).
  { intros. by apply take_drop_mid. }
  unfold felt_IsZero. destruct (bool_decide_reflect (r = felt_Zero)) as [->|Hr].
  - unfold marshalEmptyRoot, contract_UnmarshalBinary, unmarshalEmptyRoot. cbn [ct_Nonce ct_ClassHash ct_DeployedHeight].
    rewrite !length_app, Ln, Lh, Ld. cbn [Nat.eqb contractEncSize contractEmptyRootEncSize Nat.add].
    rewrite (take_app_length' _ _ 32), (Hmid _ _ _ 32%nat), !felt_SetBytes_Bytes by done.
    rewrite app_assoc, drop_app_length' by (by rewrite length_app, Ln, Lh). rewrite firstn_all2 by lia.
    by rewrite be_val_u64.
  - unfold marshalFull, contract_UnmarshalBinary, unmarshalFull. cbn [ct_Nonce ct_ClassHash ct_DeployedHeight ct_StorageRoot].
    rewrite !length_app, Ln, Lh, Lr, Ld. cbn [Nat.eqb contractEncSize Nat.add].
    rewrite (take_app_length' _ _ 32), (Hmid _ _ _ 32%nat), !felt_SetBytes_Bytes by done.
    rewrite (app_assoc (felt_Bytes n)).
    rewrite (Hmid _ (felt_Bytes r) _ 64%nat), felt_SetBytes_Bytes by (done || by rewrite length_app, Ln, Lh).
    rewrite (app_assoc _ (felt_Bytes r)), drop_app_length' by (by rewrite !length_app, Ln, Lh, Lr).
    rewrite firstn_all2 by lia. by rewrite be_val_u64.
Qed.

End records.

(** A state is opened on a database that holds a state of the specification; the
    root zero, with which tries are not read, stands for the empty state. *)
Class opened {F : Type} `{!FieldElement F} `{!FieldElementLaws F} `{!FieldArith F} `{!HashFns F} `{!ClassCodec F}
    (kv0 : memory.dbBatch) (r0 : F) (σ : astate F) : Prop := {
  op_open : kv_open (memory.bdb kv0);
  op_held : db_state (default ∅ (memory.db (memory.bdb kv0))) σ;
  op_ok : state_ok σ;
  op_zero : r0 = felt_Zero -> as_contracts σ = ∅ /\ as_leaves σ = ∅;
}.

(** No hash is zero, which the tries take for a missing hash. *)
Class NonzeroHashes (F : Type) `{!FieldElement F} `{!FieldArith F} `{!HashFns F} : Prop := {
  pedersen_nonzero : hash_nonzero (F:=F) Pedersen;
  poseidon_nonzero : hash_nonzero (F:=F) Poseidon;
}.

Section facts.
Context {F : Type} `{!FieldElement F} `{!FieldElementLaws F} `{!FieldArith F} `{!HashFns F} `{SV : !Semver}.
Context `{!MapOrder F} `{!MapOrderLaws F} `{!ClassCodec F} `{!NonzeroHashes F}.
Abbreviation trie := (Trie.Trie (F:=F)).
Abbreviation object := (stateObject (F:=F)).
Abbreviation SM := (SE (State (F:=F)) (stateError F)).

Context (kv0 : memory.dbBatch) (r0 : F) (σ : astate F) {Hop : opened kv0 r0 σ}.
Abbreviation d := (memory.bdb kv0).

Let d_open : kv_open d := op_open.
Let held : db_state (default ∅ (memory.db d)) σ := op_held.
Let σ_ok : state_ok σ := op_ok.
Let r0_zero : r0 = felt_Zero -> as_contracts σ = ∅ /\ as_leaves σ = ∅ := op_zero.
Let pnz : hash_nonzero (F:=F) Pedersen := pedersen_nonzero.
Let qnz : hash_nonzero (F:=F) Poseidon := poseidon_nonzero.

Abbreviation leaves0 := (contract_leaves (as_contracts σ)).

Lemma leaves0_ok : map_ok leaves0.
Proof.
  apply nz_ok. intros a v Hv. apply lookup_fmap_Some in Hv as (c & _ & Hc).
  by apply (so_contracts σ σ_ok a c).
Qed.

Lemma storage_ok a : map_ok (storage_of σ a).
Proof.
  unfold storage_of. destruct (as_contracts σ !! a) as [c|] eqn:E; [|apply map_ok_empty].
  by apply (so_contracts σ σ_ok a c).
Qed.

(** The three kinds of tries. *)
Abbreviation is_contracts := (trie_is Pedersen d (ContractTrieID r0) leaves0).
Abbreviation is_classes := (trie_is Poseidon d (ClassTrieID r0) (as_leaves σ)).
Abbreviation is_storage a := (trie_is Pedersen d (ContractStorageTrieID r0 a) (storage_of σ a)).

Record st_rep (s : State) (cl lv : gmap F F) (objs : gmap F (option object)) : Prop := {
  sr_root : st_initRoot s = r0;
  sr_kv : st_kv s = kv0;
  sr_contracts : exists t, st_contractTrie s = Some t /\ is_contracts cl t;
  sr_classes : exists t, st_classTrie s = Some t /\ is_classes lv t;
  sr_objects : st_objects s = objs;
}.

(** ** The tries *)

Lemma wp_on_contractTrie {A} (m : option (dbReader (F:=F)) -> SE trie (trieError (F:=F)) A) (Q : A -> State -> Prop) s t :
  st_contractTrie s = Some t ->
  wp (m (reader_of (st_disk s) (ContractTrieID (st_initRoot s)))) (fun a t' => Q a (set_contractTrie s t')) t ->
  wp (on_contractTrie m) Q s.
Proof.
  intros Et (a & t' & E & HQ)%wp_elim. apply (wp_intro _ _ _ a (set_contractTrie s t')); [|done].
  unfold on_contractTrie, mbind, SE_bind, get_state. rewrite Et. cbn. by rewrite E.
Qed.

Lemma wp_on_classTrie {A} (m : option (dbReader (F:=F)) -> SE trie (trieError (F:=F)) A) (Q : A -> State -> Prop) s t :
  st_classTrie s = Some t ->
  wp (m (reader_of (st_disk s) (ClassTrieID (st_initRoot s)))) (fun a t' => Q a (set_classTrie s t')) t ->
  wp (on_classTrie m) Q s.
Proof.
  intros Et (a & t' & E & HQ)%wp_elim. apply (wp_intro _ _ _ a (set_classTrie s t')); [|done].
  unfold on_classTrie, mbind, SE_bind, get_state. rewrite Et. cbn. by rewrite E.
Qed.

Lemma wp_contract_update s cl lv objs k v :
  st_rep s cl lv objs -> key_ok k ->
  wp (on_contractTrie (fun rd => Trie.Update rd k v)) (fun _ s' => st_rep s' (write cl {[k := v]}) lv objs) s.
Proof.
  intros [Hr Hk (t & Et & Ht) Hc Ho] Hok. eapply wp_on_contractTrie; [done|]. unfold st_disk. rewrite Hr, Hk.
  eapply wp_mono; [apply (wp_trie_update Pedersen d (ContractTrieID r0) leaves0); try done; [apply leaves0_ok|apply held]|].
  intros [] t' Ht'. split; cbn; [done|done| |done|done]. by exists t'.
Qed.

Lemma wp_class_update s cl lv objs k v :
  st_rep s cl lv objs -> key_ok k ->
  wp (on_classTrie (fun rd => Trie.Update rd k v)) (fun _ s' => st_rep s' cl (write lv {[k := v]}) objs) s.
Proof.
  intros [Hr Hk Hc (t & Et & Ht) Ho] Hok. eapply wp_on_classTrie; [done|]. unfold st_disk. rewrite Hr, Hk.
  eapply wp_mono; [apply (wp_trie_update Poseidon d (ClassTrieID r0) (as_leaves σ)); try done; [apply σ_ok|apply held]|].
  intros [] t' Ht'. split; cbn; [done|done|done| |done]. by exists t'.
Qed.

(** ** The commitment of the old state *)

Lemma wp_load_contracts s :
  st_initRoot s = r0 -> st_kv s = kv0 -> st_contractTrie s = None ->
  wp ContractTrie (fun _ s' => exists t, is_contracts leaves0 t /\ s' = set_contractTrie s t) s.
Proof.
  intros Hr Hk Hn. destruct (open_trie_is Pedersen d (ContractTrieID r0) leaves0 d_open leaves0_ok (ds_contractTrie _ _ held) r0)
    as (t & E & Ht).
  { intros [-> _]%r0_zero. unfold contract_leaves. by rewrite fmap_empty. }
  unfold ContractTrie. wp_step. wp_step. rewrite Hn. wp_step. unfold st_disk. rewrite Hr, Hk.
  eapply wp_lift; [unfold db_ContractTrie, open_trie, ContractTrieHeight; cbn [StateComm]; by rewrite E|]. wp_step. by exists t.
Qed.

Lemma wp_load_classes s :
  st_initRoot s = r0 -> st_kv s = kv0 -> st_classTrie s = None ->
  wp ClassTrie (fun _ s' => exists t, is_classes (as_leaves σ) t /\ s' = set_classTrie s t) s.
Proof.
  intros Hr Hk Hn. destruct (open_trie_is Poseidon d (ClassTrieID r0) (as_leaves σ) d_open (so_leaves _ σ_ok) (ds_classTrie _ _ held) r0)
    as (t & E & Ht); [by intros [_ ?]%r0_zero|].
  unfold ClassTrie. wp_step. wp_step. rewrite Hn. wp_step. unfold st_disk. rewrite Hr, Hk.
  eapply wp_lift; [unfold db_ClassTrie, open_trie, ClassTrieHeight; cbn [StateComm]; by rewrite E|]. wp_step. by exists t.
Qed.

Lemma wp_verifyComm comm pv :
  spec_root σ pv = (Ok comm : outcome (stateError F) F) ->
  wp (verifyComm (Some comm) pv) (fun _ s' => st_rep s' leaves0 (as_leaves σ) ∅) (New r0 kv0).
Proof.
  unfold spec_root, map_root. intros Hs. unfold verifyComm, Commitment. wp_step. wp_step.
  eapply wp_mono; [by apply wp_load_contracts|]. intros [] s1 (t & Ht & ->). wp_step.
  eapply wp_mono; [by apply wp_load_classes|]. intros [] s2 (c & Hc & ->). wp_step.
  eapply wp_on_contractTrie; [done|].
  eapply wp_mono; [apply (wp_trie_hash Pedersen d (ContractTrieID r0) leaves0); try done; [apply leaves0_ok|apply held]|].
  intros h1 t' [-> Ht']. wp_step. eapply wp_on_classTrie; [done|].
  eapply wp_mono; [apply (wp_trie_hash Poseidon d (ClassTrieID r0) (as_leaves σ)); try done; [apply σ_ok|apply held]|].
  intros h2 c' [-> Hc']. eapply wp_lift; [exact Hs|]. wp_step. eapply wp_deref; [done|].
  rewrite bool_decide_true by done. cbn [negb]. wp_step.
  split; cbn; [done|done|by exists t'|by exists c'|done].
Qed.

(** ** The class trie *)

Lemma declared_leaves_lookup (m : gmap F (option F)) (defs : gmap F (ClassDefinition F)) k :
  declared_leaves m defs !! k =
    match m !! k, defs !! k with Some (Some h), Some _ => Some (class_leaf h) | _, _ => None end.
Proof.
  unfold declared_leaves, some_values. rewrite lookup_fmap, lookup_omap, map_lookup_filter.
  destruct (m !! k) as [v|]; [|done]. cbn. destruct (defs !! k) as [c|] eqn:E.
  - rewrite option_guard_True by (by eexists). by destruct v.
  - rewrite option_guard_False; [by destruct v|]. by intros [? ?].
Qed.

Lemma declared_leaves_insert (m : gmap F (option F)) (defs : gmap F (ClassDefinition F)) k h :
  declared_leaves (<[k := Some h]> m) defs =
    match defs !! k with Some _ => <[k := class_leaf h]> (declared_leaves m defs) | None => base.delete k (declared_leaves m defs) end.
Proof.
  apply map_eq. intros k'. rewrite declared_leaves_lookup. destruct (decide (k' = k)) as [->|Hne].
  - rewrite lookup_insert_eq. destruct (defs !! k); [by rewrite lookup_insert_eq|by rewrite lookup_delete_eq].
  - rewrite lookup_insert_ne by done. destruct (defs !! k).
    + rewrite lookup_insert_ne by done. by rewrite declared_leaves_lookup.
    + rewrite lookup_delete_ne by done. by rewrite declared_leaves_lookup.
Qed.

Lemma declared_keys_ok (m : gmap F (option F)) (defs : gmap F (ClassDefinition F)) :
  map_Forall (fun k h => is_Some h /\ key_ok k) m -> map_Forall (fun k _ => key_ok k) (declared_leaves m defs).
Proof.
  intros Hm k v. rewrite declared_leaves_lookup. destruct (m !! k) as [h|] eqn:E; [|done]. intros _.
  by apply (Hm k h).
Qed.

Lemma fmap_keys_ok {A} (f : A -> F) (m : gmap F A) :
  map_Forall (fun k _ => key_ok k) m -> map_Forall (fun k _ => key_ok k) (f <$> m).
Proof. intros Hm k v (x & _ & Hx)%lookup_fmap_Some. by apply (Hm k x). Qed.

Lemma wp_updateClassTrie s cl lv objs declared defs migrated :
  st_rep s cl lv objs -> map_ok lv ->
  map_Forall (fun k h => is_Some h /\ key_ok k) declared -> map_Forall (fun k _ => key_ok k) migrated ->
  wp (updateClassTrie declared defs migrated) (fun _ s' =>
    st_rep s' cl (write (write lv (declared_leaves declared defs)) (class_leaf <$> migrated)) objs) s.
Proof.
  intros Hs Hlv Hd Hm. unfold updateClassTrie. wp_step. eapply wp_mono.
  - apply (wp_each_map (fun done s => st_rep s cl (write lv (declared_leaves done defs)) objs) _ declared); [apply map_order_perm| |].
    { replace (declared_leaves ∅ defs) with (∅ : gmap F F); [by rewrite write_empty|].
      apply map_eq. intros k. by rewrite declared_leaves_lookup, !lookup_empty. }
    intros done k v s1 Hsub Hk Hnone Hs1. destruct (Hd k v Hk) as [[h ->] Hok].
    assert (Hdone : map_Forall (fun k _ => key_ok k) (declared_leaves done defs)).
    { apply declared_keys_ok. intros k' v' Hk'. apply (Hd k' v'). by eapply lookup_weaken. }
    rewrite declared_leaves_insert. destruct (defs !! k) as [c|] eqn:Ec.
    + wp_step. eapply wp_deref; [done|]. rewrite <- write_insert by done. by apply wp_class_update.
    + wp_step. rewrite delete_id; [done|]. by rewrite declared_leaves_lookup, Hnone.
  - intros [] s1 Hs1. set (lv1 := write lv (declared_leaves declared defs)) in *.
    assert (Hlv1 : map_ok lv1) by (apply write_ok; [done|by apply declared_keys_ok]).
    apply (wp_each_map (fun done s => st_rep s cl (write lv1 (class_leaf <$> done)) objs) _ migrated); [apply map_order_perm| |].
    { rewrite fmap_empty. by rewrite write_empty. }
    intros done k v s2 Hsub Hk Hnone Hs2. rewrite fmap_insert, <- write_insert; [|done| |by apply (Hm k v)].
    + apply wp_class_update; [done|by apply (Hm k v)].
    + apply fmap_keys_ok. intros k' v' Hk'. apply (Hm k' v'). by eapply lookup_weaken.
Qed.

End facts.
