(* ===== verification/StateObjects.v ===== *)
(** * The objects of an update

    What the loops of [State_Update] over deployed contracts, replaced classes,
    nonces and storage leave in the map of objects: at every address, the contract
    the change starts from with the new values, whatever the order of the maps. *)
From stdpp Require Import prelude gmap list.
From Stdlib Require Import ZArith Lia.
From S2P Require Import Prelude Felt FeltArith Trie MemDB MemDBFacts.
From S2P Require Import Poseidon Transaction StateDiff Block Class State StateUpdate StateTree StateTries.

Local Open Scope Z_scope.

Section objects.
Context {F : Type} `{!FieldElement F} `{!FieldElementLaws F} `{!FieldArith F} `{!HashFns F} `{SV : !Semver}.
Context `{!MapOrder F} `{!MapOrderLaws F} `{!ClassCodec F} `{!NonzeroHashes F}.
Abbreviation object := (stateObject (F:=F)).

Context (kv0 : memory.dbBatch) (r0 : F) (σ : astate F) {Hop : opened kv0 r0 σ}.
Variable blk : Z.
Abbreviation rep := (st_rep kv0 r0 σ).
Implicit Types (a : F) (c : acontract F) (d r n : option (option F)) (st : option (gmap F (option F))).
Implicit Types (D R N : gmap F (option F)) (S : gmap F (gmap F (option F))) (s : State (F:=F)) (objs : gmap F (option object)).

(** ** Objects by address *)

(** The contract a change starts from, by what the diff says of the address. *)
Definition base_at a d st : option (acontract F) :=
  match d with
  | Some (Some h) => Some (mkAccount h felt_Zero blk ∅)
  | _ =>
      match as_contracts σ !! a with
      | Some c => Some c
      | None =>
          if IsSystemContract a && bool_decide (is_Some st)
          then Some (mkAccount SystemContractsClassHash felt_Zero blk ∅) else None
      end
  end.

Lemma base_at_contract (diff : StateDiff F) a :
  base_contract σ blk diff a = base_at a (DeployedContracts diff !! a) (StorageDiffs diff !! a).
Proof. done. Qed.

Definition pre_object a c r n st : object :=
  mkObject a
    (mkContract (default (ac_nonce c) (default None n)) (default (ac_class c) (default None r)) (ac_height c)
      (map_root Pedersen (ac_storage c)))
    (default ∅ st) None.

Definition object_at a d r n st : option object :=
  match d, r, n, st with
  | None, None, None, None => None
  | _, _, _, _ => (fun c => pre_object a c r n st) <$> base_at a d st
  end.

Definition objs_rep objs (D R N : gmap F (option F)) (S : gmap F (gmap F (option F))) : Prop :=
  forall a, objs !! a = Some <$> object_at a (D !! a) (R !! a) (N !! a) (S !! a).

(** The state with the objects of a part of the diff. *)
Definition obj_inv cl lv D R N S s : Prop := exists objs, rep s cl lv objs /\ objs_rep objs D R N S.

Lemma map_root_empty hf : map_root hf (∅ : gmap F F) = felt_Zero.
Proof. unfold map_root. by rewrite mpt_empty. Qed.

Lemma pre_object_new a h : newStateObject a (newContractDeployed h blk) = pre_object a (mkAccount h felt_Zero blk ∅) None None None.
Proof. unfold newStateObject, newContractDeployed, pre_object. cbn. by rewrite map_root_empty. Qed.

Lemma pre_object_loaded a c : newStateObject a (record_of c) = pre_object a c None None None.
Proof. done. Qed.

Lemma pre_object_class a c h n st : setClassHash h (pre_object a c None n st) = pre_object a c (Some (Some h)) n st.
Proof. reflexivity. Qed.

Lemma pre_object_nonce a c r x st : setNonce x (pre_object a c r None st) = pre_object a c r (Some (Some x)) st.
Proof. reflexivity. Qed.

Lemma pre_object_dirty a c r n m : set_dirty (pre_object a c r n None) m = pre_object a c r n (Some m).
Proof. reflexivity. Qed.

Lemma object_at_some a c d r n st :
  base_at a d st = Some c -> is_Some d \/ is_Some r \/ is_Some n \/ is_Some st ->
  object_at a d r n st = Some (pre_object a c r n st).
Proof.
  intros Hb Hs. unfold object_at. rewrite Hb.
  destruct d; [reflexivity|]. destruct r; [reflexivity|]. destruct n; [reflexivity|]. destruct st; [reflexivity|].
  by destruct Hs as [[]|[[]|[[]|[]]]].
Qed.

(** ** Reading contracts *)

Lemma db_Get_contract a :
  db_Get (F:=F) (memory.bdb kv0) (ContractKey a) =
    match as_contracts σ !! a with
    | Some c => Ok (contract_MarshalBinary (record_of c))
    | None => Err (ErrDB ErrNotFound)
    end.
Proof.
  unfold db_Get. pose proof (kv_get_spec (S:=memory.Database) _ (ContractKey a) op_open) as E. cbn in E.
  rewrite E, (ds_contract _ _ op_held). by destruct (as_contracts σ !! a).
Qed.

Lemma GetContract_spec a :
  GetContract (memory.bdb kv0) a =
    match as_contracts σ !! a with Some c => Ok (record_of c) | None => Err (ErrDB ErrNotFound) end.
Proof.
  unfold GetContract. rewrite db_Get_contract. destruct (as_contracts σ !! a) as [c|] eqn:E; [|done].
  cbn. rewrite contract_roundtrip; [done|]. by apply (so_contracts σ op_ok a c).
Qed.

Lemma HasContract_spec a : HasContract (F:=F) (memory.bdb kv0) a = Ok (bool_decide (is_Some (as_contracts σ !! a))).
Proof.
  unfold HasContract, memory.Has. pose proof (ds_contract _ _ (op_held (kv0:=kv0) (σ:=σ)) a) as E.
  destruct (op_open (kv0:=kv0)) as [m Em]. rewrite Em in *. cbn in E. cbn. do 2 f_equal.
  apply bool_decide_ext. by rewrite E, fmap_is_Some.
Qed.

(** ** The loops *)

Lemma wp_set_object a (o : option object) (Q : unit -> State -> Prop) s :
  Q tt (set_objects s (<[a := o]> (st_objects s))) -> wp (set_object a o) Q s.
Proof. intros HQ. unfold set_object. by wp_step. Qed.

Lemma rep_set_object s cl lv objs a o :
  rep s cl lv objs -> rep (set_objects s (<[a := o]> (st_objects s))) cl lv (<[a := o]> objs).
Proof. intros [H1 H2 H3 H4 <-]. by split. Qed.

(** The object of a contract that exists. *)
Lemma wp_getStateObject a c cl lv D R N S s :
  obj_inv cl lv D R N S s -> base_at a (D !! a) (S !! a) = Some c ->
  (D !! a = None -> S !! a = None -> as_contracts σ !! a = Some c) ->
  wp (getStateObject a) (fun p s' => p = Some (pre_object a c (R !! a) (N !! a) (S !! a)) /\
    exists objs, rep s' cl lv objs /\
      forall b, b ≠ a -> objs !! b = Some <$> object_at b (D !! b) (R !! b) (N !! b) (S !! b)) s.
Proof.
  intros (objs & Hs & Ho) Hb Hdisk. unfold getStateObject. wp_step. wp_step.
  rewrite (sr_objects _ _ _ _ _ _ _ Hs), Ho.
  destruct (object_at a (D !! a) (R !! a) (N !! a) (S !! a)) as [o|] eqn:Eo; cbn [fmap option_fmap option_map].
  - wp_step. split; [|by exists objs]. f_equal. unfold object_at in Eo. rewrite Hb in Eo. cbn in Eo.
    destruct (D !! a), (R !! a), (N !! a), (S !! a); congruence.
  - assert (D !! a = None /\ R !! a = None /\ N !! a = None /\ S !! a = None) as (Ed & Er & En & Es).
    { unfold object_at in Eo. rewrite Hb in Eo. by destruct (D !! a), (R !! a), (N !! a), (S !! a). }
    wp_step. eapply wp_lift; [unfold st_disk; rewrite (sr_kv _ _ _ _ _ _ _ Hs), GetContract_spec, (Hdisk Ed Es); done|].
    wp_step. apply wp_set_object. wp_step. split; [by rewrite Er, En, Es|].
    exists (<[a := Some (newStateObject a (record_of c))]> objs). split; [by apply rep_set_object|].
    intros b Hne. rewrite lookup_insert_ne by done. apply Ho.
Qed.

(** A step of a loop: the object of one address is set. *)
Lemma obj_inv_set cl lv D R N S D' R' N' S' s a o objs :
  rep s cl lv objs ->
  (forall b, b ≠ a -> objs !! b = Some <$> object_at b (D !! b) (R !! b) (N !! b) (S !! b)) ->
  (forall b, b ≠ a -> D' !! b = D !! b /\ R' !! b = R !! b /\ N' !! b = N !! b /\ S' !! b = S !! b) ->
  object_at a (D' !! a) (R' !! a) (N' !! a) (S' !! a) = Some o ->
  obj_inv cl lv D' R' N' S' (set_objects s (<[a := Some o]> (st_objects s))).
Proof.
  intros Hs Ho Hne Ha. exists (<[a := Some o]> objs). split; [by apply rep_set_object|].
  intros b. destruct (decide (b = a)) as [->|Hb].
  - by rewrite lookup_insert_eq, Ha.
  - rewrite lookup_insert_ne by done. destruct (Hne b Hb) as (-> & -> & -> & ->). by apply Ho.
Qed.

Definition base_ok D a : Prop := is_Some (as_contracts σ !! a) \/ is_Some (D !! a).

Lemma wp_deploy D cl lv s :
  rep s cl lv ∅ -> map_Forall (fun a h => is_Some h /\ as_contracts σ !! a = None) D ->
  wp (each (map_order D) (deploy_contract blk)) (fun _ s' => obj_inv cl lv D ∅ ∅ ∅ s') s.
Proof.
  intros Hs HD. apply (wp_each_map (fun done s => obj_inv cl lv done ∅ ∅ ∅ s)); [apply map_order_perm| |].
  - exists ∅. split; [done|]. intros a. by rewrite !lookup_empty.
  - intros done a v s1 Hsub Ha Hnone (objs & Hs1 & Ho). destruct (HD a v Ha) as [[h ->] Hnew].
    unfold deploy_contract, from_disk. wp_step. wp_step. wp_step.
    eapply wp_lift; [unfold st_disk; by rewrite (sr_kv _ _ _ _ _ _ _ Hs1), HasContract_spec|].
    rewrite bool_decide_false by (rewrite Hnew; by intros []). wp_step. eapply wp_deref; [done|]. apply wp_set_object.
    eapply obj_inv_set; [done| | |].
    + intros b _. apply Ho.
    + intros b Hb. by rewrite lookup_insert_ne.
    + rewrite lookup_insert_eq, !lookup_empty, pre_object_new. done.
Qed.

Lemma base_at_ok D a : map_Forall (fun _ h => is_Some h) D -> base_ok D a -> exists c,
  (forall st, base_at a (D !! a) st = Some c) /\ (D !! a = None -> as_contracts σ !! a = Some c).
Proof.
  intros HD Ha. unfold base_at. destruct (D !! a) as [h|] eqn:Ed.
  - destruct (HD a h Ed) as [x ->]. eexists. split; [done|]. done.
  - destruct Ha as [[c Hc]|Ha]; [|rewrite Ed in Ha; by destruct Ha]. rewrite Hc. by exists c.
Qed.

Lemma wp_classes D R cl lv s :
  obj_inv cl lv D ∅ ∅ ∅ s -> map_Forall (fun _ h => is_Some h) D ->
  map_Forall (fun a h => is_Some h /\ base_ok D a) R ->
  wp (updateContractClasses R) (fun _ s' => obj_inv cl lv D R ∅ ∅ s') s.
Proof.
  intros Hs HD HR. apply (wp_each_map (fun done s => obj_inv cl lv D done ∅ ∅ s)); [apply map_order_perm|done|].
  intros done a v s1 Hsub Ha Hnone Hs1. destruct (HR a v Ha) as [[h ->] Hok].
  destruct (base_at_ok D a HD Hok) as (c & Hc & Hd).
  wp_step. eapply wp_mono; [apply (wp_getStateObject a c _ _ _ _ _ _ _ Hs1); [apply Hc|intros ? _; by apply Hd]|].
  intros p s2 [-> (objs & Hs2 & Ho)]. wp_step. eapply wp_deref; [done|]. wp_step. eapply wp_deref; [done|].
  apply wp_set_object. eapply obj_inv_set; [done|done| |].
  - intros b Hb. by rewrite lookup_insert_ne.
  - rewrite lookup_insert_eq, Hnone, pre_object_class. apply object_at_some; [apply Hc|eauto].
Qed.

Lemma wp_nonces D R N cl lv s :
  obj_inv cl lv D R ∅ ∅ s -> map_Forall (fun _ h => is_Some h) D ->
  map_Forall (fun a h => is_Some h /\ base_ok D a) N ->
  wp (updateContractNonces N) (fun _ s' => obj_inv cl lv D R N ∅ s') s.
Proof.
  intros Hs HD HN. apply (wp_each_map (fun done s => obj_inv cl lv D R done ∅ s)); [apply map_order_perm|done|].
  intros done a v s1 Hsub Ha Hnone Hs1. destruct (HN a v Ha) as [[h ->] Hok].
  destruct (base_at_ok D a HD Hok) as (c & Hc & Hd).
  wp_step. eapply wp_mono; [apply (wp_getStateObject a c _ _ _ _ _ _ _ Hs1); [apply Hc|intros ? _; by apply Hd]|].
  intros p s2 [-> (objs & Hs2 & Ho)]. wp_step. eapply wp_deref; [done|]. wp_step. eapply wp_deref; [done|].
  apply wp_set_object. eapply obj_inv_set; [done|done| |].
  - intros b Hb. by rewrite lookup_insert_ne.
  - rewrite lookup_insert_eq, Hnone, pre_object_nonce. apply object_at_some; [apply Hc|eauto].
Qed.

(** A system contract that is not stored. *)
Lemma attempt_missing a cl lv D R N S s :
  obj_inv cl lv D R N S s -> D !! a = None -> R !! a = None -> N !! a = None -> S !! a = None ->
  as_contracts σ !! a = None -> attempt (getStateObject a) s = (Ok (inl (ErrDB ErrNotFound)), s).
Proof.
  intros (objs & Hs & Ho) Ed Er En Es Hnew. unfold attempt, getStateObject, mbind, SE_bind, get_state.
  rewrite (sr_objects _ _ _ _ _ _ _ Hs), Ho, Ed, Er, En, Es. cbn [object_at fmap option_fmap option_map].
  unfold lift, st_disk. by rewrite (sr_kv _ _ _ _ _ _ _ Hs), GetContract_spec, Hnew.
Qed.

Lemma wp_storage D R N S cl lv s :
  obj_inv cl lv D R N ∅ s -> map_Forall (fun _ h => is_Some h) D ->
  map_Forall (fun a _ => base_ok D a) R -> map_Forall (fun a _ => base_ok D a) N ->
  map_Forall (fun a _ => base_ok D a \/ IsSystemContract a = true) S ->
  wp (updateContractStorage blk S) (fun _ s' => obj_inv cl lv D R N S s') s.
Proof.
  intros Hs HD HR HN HS. apply (wp_each_map (fun done s => obj_inv cl lv D R N done s)); [apply map_order_perm|done|].
  intros done a st s1 Hsub Ha Hnone Hs1.
  destruct (decide (is_Some (as_contracts σ !! a) \/ is_Some (D !! a))) as [Hok|Hno].
  - destruct (base_at_ok D a HD Hok) as (c & Hc & Hd).
    wp_step. apply wp_attempt. eapply wp_mono; [apply (wp_getStateObject a c _ _ _ _ _ _ _ Hs1); [apply Hc|intros ? _; by apply Hd]|].
    intros p s2 [-> (objs & Hs2 & Ho)]. wp_step. wp_step. wp_step. eapply wp_deref; [done|].
    apply wp_set_object. eapply obj_inv_set; [done|done| |].
    + intros b Hb. by rewrite lookup_insert_ne.
    + rewrite lookup_insert_eq, Hnone, pre_object_dirty. apply object_at_some; [apply Hc|eauto].
  - assert (as_contracts σ !! a = None /\ D !! a = None) as [Hnew Ed].
    { split; apply eq_None_not_Some; intros ?; apply Hno; [by left|by right]. }
    assert (R !! a = None) as Er by (destruct (R !! a) eqn:E; [by destruct (Hno (HR a _ E))|done]).
    assert (N !! a = None) as En by (destruct (N !! a) eqn:E; [by destruct (Hno (HN a _ E))|done]).
    destruct (HS a st Ha) as [?|Hsys]; [done|].
    wp_step. eapply wp_intro; [by eapply attempt_missing|]. rewrite Hsys. cbn [andb is_not_found].
    wp_step. wp_step. apply wp_set_object. wp_step. wp_step. eapply wp_deref; [done|].
    apply wp_set_object. destruct Hs1 as (objs & Hs1 & Ho).
    eapply obj_inv_set; [by apply rep_set_object| | |].
    + intros b Hb. rewrite lookup_insert_ne by done. apply Ho.
    + intros b Hb. by rewrite lookup_insert_ne.
    + rewrite lookup_insert_eq, pre_object_new, pre_object_dirty, Ed, Er, En. apply object_at_some; [|eauto].
      unfold base_at. by rewrite Hnew, Hsys.
Qed.

(** The changes of a diff, from the objects of the deployed contracts. *)
Lemma wp_updateContracts (diff : StateDiff F) cl lv s :
  obj_inv cl lv (DeployedContracts diff) ∅ ∅ ∅ s -> update_ok σ blk diff ->
  wp (updateContracts blk diff) (fun _ s' =>
    obj_inv cl lv (DeployedContracts diff) (ReplacedClasses diff) (Nonces diff) (StorageDiffs diff) s') s.
Proof.
  intros Hs Hup. unfold updateContracts.
  assert (HD : map_Forall (fun _ h => is_Some h) (DeployedContracts diff)).
  { intros a h Ha. by apply (uo_deployed _ _ _ Hup a h). }
  wp_step. eapply wp_mono; [apply wp_classes; [done|done|apply Hup]|]. intros [] s1 H1.
  wp_step. eapply wp_mono; [apply wp_nonces; [done|done|apply Hup]|]. intros [] s2 H2.
  apply wp_storage; [done|done|..].
  - intros a h Ha. by apply (uo_replaced _ _ _ Hup a h).
  - intros a h Ha. by apply (uo_nonces _ _ _ Hup a h).
  - intros a st Ha. destruct (uo_storage _ _ _ Hup a st Ha) as [[?|[?|?]] _]; [left; by left|left; by right|by right].
Qed.

End objects.
