(* ===== verification/StateCommit.v ===== *)
(** * Committing a state

    [commit]: every object writes its changes to its storage trie and commits it,
    its commitment becomes a leaf of the contract trie, system contracts without
    storage are removed, and both tries of the state are committed.  The node
    sets bring the database to the tries of the new state, and the commitment is
    the one of the new maps. *)
From stdpp Require Import prelude gmap list.
From Stdlib Require Import ZArith Lia Permutation.
From S2P Require Import Prelude Felt FeltArith BitArray BitArrayFacts TrieNode TrieNodeFacts Trie TrieSpec TrieRep.
From S2P Require Import TrieTheorems MemDB MemDBFacts TrieDB TrieDBFacts TrieCommit.
From S2P Require Import Poseidon Transaction StateDiff Block Class State StateUpdate StateTree StateTries StateObjects.

Local Open Scope Z_scope.

Lemma each_fmap {S E A B} (g : A -> B) (f : B -> SE S E unit) l : each (g <$> l) f = each l (fun x => f (g x)).
Proof. induction l as [|x l IH]; [done|]. cbn [fmap list_fmap each]. by rewrite IH. Qed.

(** A loop over the keys of a map, in any order. *)
Lemma wp_each_keys {S E V} {F} `{!FieldElement F} (I : gmap F V -> S -> Prop) (f : F -> SE S E unit)
    (m : gmap F V) l s :
  l ≡ₚ (map_to_list m).*1 -> I ∅ s ->
  (forall done k v s, done ⊆ m -> m !! k = Some v -> done !! k = None -> I done s ->
     wp (f k) (fun _ s' => I (<[k := v]> done) s') s) ->
  wp (each l f) (fun _ s' => I m s') s.
Proof.
  intros (l' & -> & Hl)%Permutation_map_inv H0 Hstep.
  rewrite each_fmap. apply (wp_each_map I); [by symmetry|done|]. intros done k v s1 Hs Hk Hn HI. by apply Hstep.
Qed.

Section commits.
Context {F : Type} `{!FieldElement F} `{!FieldElementLaws F} `{!FieldArith F} `{!HashFns F} `{SV : !Semver}.
Context `{!MapOrder F} `{!MapOrderLaws F} `{!ClassCodec F} `{!NonzeroHashes F}.
Abbreviation object := (stateObject (F:=F)).

Context (kv0 : memory.dbBatch) (r0 : F) (σ : astate F) {Hop : opened kv0 r0 σ}.
Abbreviation rep := (st_rep kv0 r0 σ).
Abbreviation d := (memory.bdb kv0).
Abbreviation storage_id a := (ContractStorageTrieID r0 a).
Abbreviation is_storage a := (trie_is Pedersen d (storage_id a) (storage_of σ a)).
Implicit Types (a k : F) (o : object) (objs : gmap F (option object)) (s : State (F:=F)).

(** ** One object *)

Record object_ok a o : Prop := {
  oo_addr : so_addr o = a;
  oo_fresh : so_storageTrie o = None;
  oo_dirty : map_Forall (fun k v => is_Some v /\ key_ok k) (so_dirtyStorage o);
  oo_nonzero : a ≠ felt_Zero;
  oo_key : key_ok a;
}.

Definition new_storage a o : gmap F F := write (storage_of σ a) (some_values (so_dirtyStorage o)).

Definition new_root a o : F := map_root Pedersen (new_storage a o).

Definition with_root (c : stateContract F) (root : F) : stateContract F :=
  mkContract (ct_Nonce c) (ct_ClassHash c) (ct_DeployedHeight c) root.

(** The record of the contract after the commit. *)
Definition new_record a o : stateContract F := with_root (so_contract o) (new_root a o).

Record committed_object a o o' : Prop := {
  co_record : so_contract o' = new_record a o;
  co_trie : exists t, so_storageTrie o' = Some t /\ committed_is Pedersen (new_storage a o) t;
}.

Lemma some_keys_ok (m : gmap F (option F)) :
  map_Forall (fun k v => is_Some v /\ key_ok k) m -> map_Forall (fun k _ => key_ok k) (some_values m).
Proof.
  intros Hm k v. unfold some_values. rewrite lookup_omap. intros (x & Hx & _)%bind_Some. by apply (Hm k x).
Qed.

Lemma new_storage_ok a o : object_ok a o -> map_ok (new_storage a o).
Proof. intros Ho. apply write_ok; [by eapply storage_ok|]. apply some_keys_ok, Ho. Qed.

Lemma storage_held a : a ≠ felt_Zero -> db_holds Pedersen (default ∅ (memory.db d)) (Bucket (storage_id a)) (id_Owner (storage_id a)) (mpt (storage_of σ a)).
Proof. intros Ha. by apply (ds_storage _ _ (op_held (kv0:=kv0))). Qed.

Lemma wp_on_storageTrie {A} (m : SE Trie.Trie (trieError (F:=F)) A) (Q : A -> object -> Prop) o t :
  so_storageTrie o = Some t -> wp m (fun x t' => Q x (set_storageTrie o t')) t -> wp (on_storageTrie m) Q o.
Proof.
  intros Et (x & t' & E1 & HQ)%wp_elim. apply (wp_intro _ _ _ x (set_storageTrie o t')); [|done].
  unfold on_storageTrie, mbind, SE_bind, get_state. rewrite Et. cbn. by rewrite E1.
Qed.

Lemma wp_getStorageTrie a o :
  object_ok a o ->
  wp (getStorageTrie d r0) (fun _ o' => exists t, o' = set_storageTrie o t /\ is_storage a (storage_of σ a) t) o.
Proof.
  intros [Ha Hf _ Hz Hk]. unfold getStorageTrie. wp_step. wp_step. rewrite Hf, Ha.
  destruct (open_trie_is Pedersen d (storage_id a) (storage_of σ a) op_open (storage_ok kv0 r0 σ a)
    (storage_held a Hz) r0) as (t & E & Ht).
  { intros Hr. unfold storage_of. by rewrite (proj1 (op_zero (kv0:=kv0) Hr)). }
  wp_step. eapply wp_lift; [unfold db_ContractStorageTrie, open_trie, ContractStorageTrieHeight; cbn [StateComm]; by rewrite E|].
  wp_step. by exists t.
Qed.

Lemma wp_object_commit a o :
  object_ok a o ->
  wp (object_commit d r0) (fun nodes o' => committed_object a o o' /\
    nodes_bring Pedersen (storage_id a) (storage_of σ a) nodes (new_storage a o)) o.
Proof.
  intros Ho. unfold object_commit. wp_step. eapply wp_mono; [by apply (wp_getStorageTrie a)|].
  intros [] o1 (t & -> & Ht). wp_step. wp_step. wp_step.
  eapply wp_mono.
  - apply (wp_each_keys (fun done o1 => exists t, o1 = set_storageTrie o t /\
      is_storage a (write (storage_of σ a) (some_values done)) t) _ (so_dirtyStorage o)).
    + apply sort_slice_perm.
    + exists t. split; [done|]. unfold some_values. rewrite omap_empty, write_empty; [done|by eapply storage_ok].
    + intros done k v o1 Hsub Hk Hnone (t1 & -> & Ht1). destruct (oo_dirty a o Ho k v Hk) as [[x ->] Hok].
      unfold update_key. cbn [so_dirtyStorage so_addr set_storageTrie]. rewrite Hk. wp_step. eapply wp_deref; [done|].
      eapply wp_on_storageTrie; [done|]. rewrite (oo_addr a o Ho).
      eapply wp_mono; [apply (wp_trie_update Pedersen d (storage_id a) (storage_of σ a) op_open
        (storage_ok kv0 r0 σ a) (storage_held a (oo_nonzero a o Ho)) pedersen_nonzero _ _ k x Ht1 Hok)|].
      intros [] t2 Ht2. exists t2. split; [done|]. unfold some_values. rewrite (omap_insert_Some _ _ _ _ x) by done.
      rewrite <- write_insert; [done|by eapply storage_ok| |done].
      apply some_keys_ok. intros k' v' Hk'. apply (oo_dirty a o Ho k' v'). by eapply lookup_weaken.
  - intros [] o1 (t1 & -> & Ht1). wp_step. eapply wp_on_storageTrie; [done|].
    eapply wp_mono; [apply (wp_trie_commit Pedersen d (storage_id a) (storage_of σ a) op_open
      (storage_ok kv0 r0 σ a) (storage_held a (oo_nonzero a o Ho)) pedersen_nonzero _ _ Ht1)|].
    intros [root nodes] t2 (Hr & Hb & Hc). cbn [fst snd] in *. wp_step. wp_step. wp_step. split; [|exact Hb]. subst root.
    split; cbn [so_contract so_storageTrie setStorageRoot set_contract set_storageTrie ct_Nonce ct_ClassHash ct_DeployedHeight].
    { unfold new_record, with_root, new_root, map_root, new_storage.  reflexivity. } exists t2. split; [reflexivity|exact Hc].
Qed.

(** ** All objects *)

Lemma wp_on_object {A} a (m : disk -> F -> SE object (stateError F) A) (Q : A -> State -> Prop) s o :
  st_objects s !! a = Some (Some o) ->
  wp (m (st_disk s) (st_initRoot s)) (fun x o' => Q x (set_objects s (<[a := Some o']> (st_objects s)))) o ->
  wp (on_object a m) Q s.
Proof.
  intros Eo (x & o' & E1 & HQ)%wp_elim.
  apply (wp_intro _ _ _ x (set_objects s (<[a := Some o']> (st_objects s)))); [|done].
  unfold on_object, mbind, SE_bind, get_state. rewrite Eo. cbn. unfold st_disk in *. by rewrite E1.
Qed.

(** Merging the nodes of a storage trie whose owner has no nodes yet. *)
Lemma merge_storage_nodes (merged : MergeNodeSet (F:=F)) a (nodes : option NodeSet) :
  a ≠ felt_Zero -> ChildSets merged !! a = None -> (forall ns, nodes = Some ns -> Owner ns = a) ->
  exists m, merge merged nodes = Ok m /\ OwnerSet m = OwnerSet merged /\
    ChildSets m !! a = nodes /\ forall b, b ≠ a -> ChildSets m !! b = ChildSets merged !! b.
Proof.
  intros Ha Hn Ho. destruct nodes as [ns|]; [|by exists merged]. specialize (Ho ns eq_refl).
  unfold merge, MergeNodeSet_Merge, felt_IsZero. rewrite Ho, bool_decide_false, Hn by done. eexists. split; [done|]. cbn.
  split_and!; [done|by rewrite lookup_insert_eq|]. intros b Hb. by rewrite lookup_insert_ne.
Qed.

(** What the commit does at an address. *)
Definition committed_at a (p p' : option (option object)) (nodes : option (NodeSet (F:=F))) : Prop :=
  match p with
  | Some (Some o) =>
      (exists o', p' = Some (Some o') /\ committed_object a o o') /\
      brings Pedersen (storage_id a) (mpt (storage_of σ a)) (from_option Nodes ∅ nodes) (mpt (new_storage a o))
  | _ => p' = p /\ nodes = None
  end.

Definition new_comm a (p : option (option object)) : F :=
  match p with Some (Some o) => contract_commitment (new_record a o) | _ => felt_Zero end.

Definition objects_ok objs : Prop := map_Forall (fun a p => forall o, p = Some o -> object_ok a o) objs.

Lemma wp_commit_object a o merged s cl lv objs :
  rep s cl lv objs -> objs !! a = Some (Some o) -> object_ok a o -> ChildSets merged !! a = None ->
  wp (commit_object merged a) (fun r s' => exists o',
    rep s' cl lv (<[a := Some o']> objs) /\ r.2 = new_comm a (Some (Some o)) /\ OwnerSet r.1 = OwnerSet merged /\
    committed_at a (Some (Some o)) (Some (Some o')) (ChildSets r.1 !! a) /\
    forall b, b ≠ a -> ChildSets r.1 !! b = ChildSets merged !! b) s.
Proof.
  intros Hs Hp Ho Hn. destruct Hs as [Hr Hk Hc Hl Hobj]. unfold commit_object. wp_step.
  eapply (wp_on_object a _ _ _ o); [by rewrite Hobj|]. unfold st_disk. rewrite Hk, Hr.
  eapply wp_mono; [by apply (wp_object_commit a)|]. intros nodes o' [Hco [Hown Hb]].
  destruct (merge_storage_nodes merged a nodes (oo_nonzero a o Ho) Hn Hown) as (m & Em & Eo & Ea & Eb).
  wp_step. eapply wp_lift; [exact Em|]. wp_step. wp_step. wp_step.
  eapply wp_deref; [cbn [st_objects set_objects]; by rewrite lookup_insert_eq|]. wp_step.
  exists o'. split_and!; cbn [fst snd].
  - split; [exact Hr|exact Hk|exact Hc|exact Hl|]. cbn. by rewrite Hobj.
  - unfold object_commitment. by rewrite (co_record _ _ _ Hco).
  - done.
  - rewrite Ea. split; [by exists o'|done].
  - done.
Qed.

Definition committed_keys (keys : list F) objs objs' (merged m : MergeNodeSet (F:=F)) : Prop :=
  OwnerSet m = OwnerSet merged /\
  forall a, if decide (a ∈ keys) then committed_at a (objs !! a) (objs' !! a) (ChildSets m !! a)
            else objs' !! a = objs !! a /\ ChildSets m !! a = ChildSets merged !! a.

Lemma wp_commit_objects keys merged s cl lv objs :
  rep s cl lv objs -> (forall a o, a ∈ keys -> objs !! a = Some (Some o) -> object_ok a o) ->
  NoDup keys -> (forall a, a ∈ keys -> ChildSets merged !! a = None) ->
  wp (commit_objects keys merged None) (fun r s' => exists objs',
    rep s' cl lv objs' /\ committed_keys keys objs objs' merged r.1 /\
    r.2 = (fun a => (a, new_comm a (objs !! a))) <$> keys) s.
Proof.
  revert merged s objs. induction keys as [|a keys IH]; intros merged s objs Hs Hok Hd Hn; cbn [commit_objects].
  { wp_step. exists objs. split_and!; [done| |done]. split; [done|]. intros a.
    rewrite decide_False by apply not_elem_of_nil. done. }
  apply NoDup_cons in Hd as [Hni Hd]. wp_step. wp_step. rewrite (sr_objects _ _ _ _ _ _ _ Hs).
  assert (Hother : forall objs1 objs' (m1 m : MergeNodeSet (F:=F)) p,
    objs1 !! a = p -> (forall b, b ≠ a -> objs1 !! b = objs !! b) ->
    OwnerSet m1 = OwnerSet merged -> (forall b, b ≠ a -> ChildSets m1 !! b = ChildSets merged !! b) ->
    committed_at a (objs !! a) p (ChildSets m1 !! a) ->
    committed_keys keys objs1 objs' m1 m -> committed_keys (a :: keys) objs objs' merged m).
  { intros objs1 objs' m1 m p Ha Hb Ho Hm Hat [Ho' Hk]. split; [congruence|]. intros b. specialize (Hk b).
    destruct (decide (b = a)) as [->|Hne].
    - rewrite decide_True by (by left). rewrite decide_False in Hk by done. destruct Hk as [-> ->]. by rewrite Ha.
    - rewrite Hb, Hm in Hk by done. destruct (decide (b ∈ keys)).
      + by rewrite decide_True by (by right).
      + by rewrite decide_False by (by intros [?|?]%elem_of_cons). }
  destruct (default None (objs !! a)) as [o|] eqn:Ep.
  - assert (Ea : objs !! a = Some (Some o)) by (by destruct (objs !! a) as [[]|]; simplify_eq/=).
    wp_step. apply wp_attempt.
    eapply wp_mono; [apply (wp_commit_object a o merged _ cl lv objs); [done|done|apply Hok; [by left|done]|apply Hn; by left]|].
    intros [merged1 comm] s1 (o' & Hs1 & Hcm & Eo & Hat & Hb). cbn [fst snd] in *. subst comm. wp_step.
    eapply wp_mono; [apply (IH merged1 s1 (<[a := Some o']> objs)); [done| |done|]|].
    + intros b ob Hbin. rewrite lookup_insert_ne by (by intros ->). apply Hok. by right.
    + intros b Hbin. rewrite Hb by (by intros ->). apply Hn. by right.
    + intros [m comms] s2 (objs' & Hs2 & Hk2 & Ec). cbn [fst snd] in *. wp_step.
      exists objs'. split_and!; [done| |].
      * eapply (Hother _ _ _ _ (Some (Some o'))); [apply lookup_insert_eq| |done|done| |exact Hk2].
        -- intros b Hne. by rewrite lookup_insert_ne.
        -- by rewrite Ea.
      * cbn [snd fmap list_fmap]. rewrite Ea, Ec. f_equal. apply list_fmap_ext. intros i b Hib. cbn.
        rewrite lookup_insert_ne; [done|]. intros ->. apply Hni. by eapply list_elem_of_lookup_2.
  - wp_step. eapply wp_mono; [apply (IH merged s objs); [done| |done|]|].
    + intros b ob Hbin. apply Hok. by right.
    + intros b Hbin. apply Hn. by right.
    + intros [m comms] s2 (objs' & Hs2 & Hk2 & Ec). cbn [fst snd] in *. wp_step.
      exists objs'. split_and!; [done| |].
      * eapply (Hother objs); [done|done|done|done| |exact Hk2].
        unfold committed_at. destruct (objs !! a) as [[]|]; [done|..]; (split; [done|apply Hn; by left]).
      * cbn [snd fmap list_fmap]. rewrite Ec. f_equal. by destruct (objs !! a) as [[]|].
Qed.

(** ** The leaves of the contract trie *)

(** A system contract that is left without storage. *)
Definition purged a o : bool := IsSystemContract a && bool_decide (new_root a o = felt_Zero).

Definition final_at a (p p' : option (option object)) : Prop :=
  match p with
  | Some (Some o) =>
      if purged a o then p' = Some None else exists o', p' = Some (Some o') /\ so_contract o' = new_record a o
  | _ => p' = p
  end.

Definition final_comm a (p : option (option object)) : F :=
  match p with
  | Some (Some o) => if purged a o then felt_Zero else contract_commitment (new_record a o)
  | _ => felt_Zero
  end.

Lemma wp_getStorageRoot a o o' :
  committed_object a o o' ->
  wp getStorageRoot (fun root o2 => root = new_root a o /\ so_contract o2 = new_record a o) o'.
Proof.
  intros [Hr (t & Et & Hc)]. unfold getStorageRoot. wp_step. wp_step. rewrite Et. wp_step.
  eapply wp_on_storageTrie; [done|]. eapply wp_mono; [by apply wp_committed_hash|]. intros root t' ->.
  wp_step. wp_step. wp_step. split; [done|]. cbn. unfold new_record, with_root. by rewrite Hr.
Qed.

Section leaves.
Variables (lv : gmap F F) (objs objs' : gmap F (option object)).
Abbreviation leaves0 := (contract_leaves (as_contracts σ)).
Hypothesis keys_ok : map_Forall (fun a _ => key_ok a) objs.
Hypothesis committed : forall a, exists nodes, committed_at a (objs !! a) (objs' !! a) nodes.

(** The leaves written for a set of addresses. *)
Definition final_leaves (done : gmap F (option object)) : gmap F F := map_imap (fun a _ => Some (final_comm a (objs !! a))) done.

Definition leaves_inv (done : gmap F (option object)) s : Prop := exists objs1,
  rep s (write leaves0 (final_leaves done)) lv objs1 /\
  forall a, if decide (is_Some (done !! a)) then final_at a (objs !! a) (objs1 !! a) else objs1 !! a = objs' !! a.

Lemma final_leaves_insert done a v :
  final_leaves (<[a := v]> done) = <[a := final_comm a (objs !! a)]> (final_leaves done).
Proof. unfold final_leaves. by rewrite (map_imap_insert_Some _ _ _ _ (final_comm a (objs !! a))). Qed.

Lemma final_leaves_keys done :
  (forall a, is_Some (done !! a) -> is_Some (objs !! a)) -> map_Forall (fun a _ => key_ok a) (final_leaves done).
Proof.
  intros Hd a v. unfold final_leaves. rewrite map_lookup_imap. intros (x & Hx & _)%bind_Some.
  destruct (Hd a) as [p Hp]; [by eexists|]. by apply (keys_ok a p).
Qed.

Lemma leaves_inv_step done s s1 a v objs1 p :
  (forall b, if decide (is_Some (done !! b)) then final_at b (objs !! b) (objs1 !! b) else objs1 !! b = objs' !! b) ->
  rep s1 (write leaves0 (final_leaves (<[a := v]> done))) lv (<[a := p]> objs1) ->
  final_at a (objs !! a) (Some p) -> leaves_inv (<[a := v]> done) s1.
Proof.
  intros Ho Hs Hf. exists (<[a := p]> objs1). split; [done|]. intros b. specialize (Ho b).
  destruct (decide (b = a)) as [->|Hne].
  - rewrite !lookup_insert_eq. rewrite decide_True by (by eexists). done.
  - by rewrite !lookup_insert_ne by done.
Qed.

Lemma wp_put_commitment done a v s :
  (forall b, is_Some (done !! b) -> is_Some (objs !! b)) -> is_Some (objs !! a) -> done !! a = None ->
  leaves_inv done s ->
  wp (put_commitment (a, new_comm a (objs !! a))) (fun _ s' => leaves_inv (<[a := v]> done) s') s.
Proof.
  intros Hd [p Hp] Hn (objs1 & Hs & Ho).
  assert (Hk : key_ok a) by (by apply (keys_ok a p)).
  assert (Hkeys := final_leaves_keys done Hd).
  assert (Ha : objs1 !! a = objs' !! a).
  { specialize (Ho a). rewrite decide_False in Ho; [done|]. rewrite Hn. by intros []. }
  unfold put_commitment. wp_step. eapply wp_mono; [by apply wp_contract_update|]. intros [] s1 Hs1.
  rewrite write_insert in Hs1; [|by eapply leaves0_ok|done|done].
  destruct (committed a) as [nodes Hat]. rewrite Hp in Hat, Hs1. cbn [new_comm] in *.
  destruct p as [o|].
  2:{ destruct Hat as [Hat _]. assert (Hs2 : leaves_inv (<[a := v]> done) s1).
      { eapply (leaves_inv_step done s s1 a _ objs1 None); [done| |by rewrite Hp].
        rewrite final_leaves_insert, Hp. cbn. rewrite (insert_id objs1) by (by rewrite Ha). done. }
      destruct (IsSystemContract a); [|by wp_step]. wp_step. wp_step.
      rewrite (sr_objects _ _ _ _ _ _ _ Hs1), Ha, Hat. cbn. by wp_step. }
  destruct Hat as [(o' & Eo' & Hco) _].
  assert (Hlive : purged a o = false -> forall o2 s2, so_contract o2 = new_record a o ->
    rep s2 (write leaves0 (<[a := new_comm a (Some (Some o))]> (final_leaves done))) lv (<[a := Some o2]> objs1) ->
    leaves_inv (<[a := v]> done) s2).
  { intros Hpu o2 s2 Hr Hs2. eapply (leaves_inv_step done s s2 a _ objs1 (Some o2)); [done| |].
    - rewrite final_leaves_insert, Hp. cbn [final_comm]. by rewrite Hpu.
    - rewrite Hp. cbn [final_at]. rewrite Hpu. by exists o2. }
  destruct (IsSystemContract a) eqn:Esys.
  2:{ wp_step. apply (Hlive (ltac:(unfold purged; by rewrite Esys)) o'); [apply Hco|].
      rewrite (insert_id objs1) by (by rewrite Ha). done. }
  wp_step. wp_step. rewrite (sr_objects _ _ _ _ _ _ _ Hs1), Ha, Eo'. cbn [from_option id]. wp_step.
  eapply (wp_on_object a _ _ _ o'); [by rewrite (sr_objects _ _ _ _ _ _ _ Hs1), Ha, Eo'|].
  eapply wp_mono; [by apply (wp_getStorageRoot a o)|]. intros root o2 [-> Hr2].
  assert (Hs2 := rep_set_object kv0 r0 σ s1 _ _ _ a (Some o2) Hs1).
  unfold felt_IsZero. destruct (bool_decide (new_root a o = felt_Zero)) eqn:Ez.
  - assert (Hpu : purged a o = true) by (unfold purged; by rewrite Esys, Ez).
    wp_step. eapply wp_mono; [by apply wp_contract_update|]. intros [] s3 Hs3. apply wp_set_object.
    eapply (leaves_inv_step done s _ a _ objs1 None); [done| |by rewrite Hp; cbn; rewrite Hpu].
    rewrite write_insert in Hs3; [|by eapply leaves0_ok| |done].
    + rewrite insert_insert_eq in Hs3. rewrite final_leaves_insert, Hp. cbn [final_comm]. rewrite Hpu.
      apply (rep_set_object kv0 r0 σ _ _ _ _ a None) in Hs3. by rewrite insert_insert_eq in Hs3.
    + by apply map_Forall_insert_2.
  - wp_step. apply (Hlive (ltac:(unfold purged; by rewrite Esys, Ez)) o2); done.
Qed.

End leaves.

(** ** The commit *)

Definition next_leaves objs : gmap F F :=
  write (contract_leaves (as_contracts σ)) (map_imap (fun a p => Some (final_comm a (Some p))) objs).

Record commit_post objs lv (su : stateUpdate (F:=F)) s : Prop := {
  cp_kv : st_kv s = kv0;
  cp_objects a : final_at a (objs !! a) (st_objects s !! a);
  cp_wf : forall m, su_classNodes su = Some m \/ su_contractNodes su = Some m -> wf_sets m;
  cp_classes : brings Poseidon (ClassTrieID r0) (mpt (as_leaves σ))
    (set_for (ClassTrieID r0) (su_classNodes su) (su_contractNodes su)) (mpt lv);
  cp_contracts : brings Pedersen (ContractTrieID r0) (mpt (contract_leaves (as_contracts σ)))
    (set_for (ContractTrieID r0) (su_classNodes su) (su_contractNodes su)) (mpt (next_leaves objs));
  cp_storage a :
    let nodes := set_for (storage_id a) (su_classNodes su) (su_contractNodes su) in
    match objs !! a with
    | Some (Some o) => brings Pedersen (storage_id a) (mpt (storage_of σ a)) nodes (mpt (new_storage a o))
    | _ => nodes = ∅
    end;
}.

Lemma merge_contract_nodes (m : MergeNodeSet (F:=F)) (nodes : option NodeSet) :
  OwnerSet m = OwnerSet (NewMergeNodeSet None) -> (forall ns, nodes = Some ns -> Owner ns = felt_Zero) ->
  exists m', merge m nodes = Ok m' /\ Nodes (OwnerSet m') = from_option Nodes ∅ nodes /\ ChildSets m' = ChildSets m.
Proof.
  intros Em Ho. destruct nodes as [ns|]; [|by exists m; rewrite Em]. specialize (Ho ns eq_refl).
  unfold merge, MergeNodeSet_Merge, felt_IsZero. rewrite bool_decide_true by done.
  destruct (Merge_exact (OwnerSet m) ns (node_order (Nodes ns))) as (x & Ex & Hx & _).
  - rewrite Em. split; by vm_compute.
  - apply node_order_perm.
  - by rewrite Em.
  - rewrite Ex. cbn. eexists. split; [done|]. cbn. split; [|done]. rewrite Hx, Em. apply map_union_empty.
Qed.

Lemma class_nodes_set (nodes : option (NodeSet (F:=F))) (contracts : option MergeNodeSet) :
  (forall ns, nodes = Some ns -> Owner ns = felt_Zero) ->
  set_for (ClassTrieID r0) (match nodes with Some ns => Some (NewMergeNodeSet (Some ns)) | None => None end) contracts =
    from_option Nodes ∅ nodes.
Proof.
  intros Ho. destruct nodes as [ns|]; [|done]. specialize (Ho ns eq_refl). cbn. unfold felt_IsZero.
  by rewrite bool_decide_true.
Qed.

Lemma elem_of_keys {V} (m : gmap F V) a : a ∈ (map_to_list m).*1 <-> is_Some (m !! a).
Proof.
  rewrite list_elem_of_fmap. split.
  - intros ([k v] & -> & Hin%elem_of_map_to_list). by eexists.
  - intros [v Hv]. exists (a, v). by rewrite elem_of_map_to_list.
Qed.

(** The loop that writes the leaves of all objects. *)
Lemma wp_put_commitments s lv objs objs' keys :
  rep s (contract_leaves (as_contracts σ)) lv objs' -> map_Forall (fun a _ => key_ok a) objs ->
  (forall a, exists nodes, committed_at a (objs !! a) (objs' !! a) nodes) -> keys ≡ₚ (map_to_list objs).*1 ->
  wp (each ((fun a => (a, new_comm a (objs !! a))) <$> keys) put_commitment)
    (fun _ s' => exists objs1, rep s' (next_leaves objs) lv objs1 /\ forall a, final_at a (objs !! a) (objs1 !! a)) s.
Proof.
  intros Hs Hkeys Hc Hp. rewrite each_fmap. eapply wp_mono.
  - apply (wp_each_keys (leaves_inv lv objs objs') _ objs); [done| |].
    + exists objs'. split; [|by intros a; rewrite lookup_empty, decide_False by (by intros [])].
      unfold final_leaves. rewrite map_imap_empty, write_empty; [done|by eapply leaves0_ok].
    + intros done a v s1 Hsub Ha Hn Hinv. apply wp_put_commitment; try done.
      intros b [x Hx]. eapply lookup_weaken in Hx; [|done]. by eexists.
  - intros [] s1 (objs1 & Hs1 & Ho). exists objs1. split.
    + replace (next_leaves objs) with (write (contract_leaves (as_contracts σ)) (final_leaves objs objs)); [done|].
      unfold next_leaves. f_equal. apply map_eq. intros a. unfold final_leaves. rewrite !map_lookup_imap.
      by destruct (objs !! a).
    + intros a. specialize (Ho a). destruct (objs !! a) as [p|] eqn:Ep.
      * by rewrite decide_True in Ho by (by eexists).
      * rewrite decide_False in Ho by (by intros []). rewrite Ho. destruct (Hc a) as [nodes Hat].
        rewrite Ep in Hat. by destruct Hat.
Qed.

(** The contract trie and the class trie. *)
Lemma wp_commit_contractTrie s cl t :
  st_contractTrie s = Some t -> trie_is Pedersen d (ContractTrieID r0) (contract_leaves (as_contracts σ)) cl t ->
  wp (on_contractTrie (fun _ => Commit Pedersen)) (fun r s' =>
    r.1 = map_root Pedersen cl /\ nodes_bring Pedersen (ContractTrieID r0) (contract_leaves (as_contracts σ)) r.2 cl /\
    exists t', s' = set_contractTrie s t') s.
Proof.
  intros Et Ht. eapply wp_on_contractTrie; [exact Et|].
  eapply wp_mono; [apply (wp_trie_commit Pedersen d (ContractTrieID r0) (contract_leaves (as_contracts σ)) op_open
    (leaves0_ok kv0 r0 σ) (ds_contractTrie _ _ op_held) pedersen_nonzero _ _ Ht)|].
  intros r t' (E1 & Hb & _). split_and!; [done|done|by exists t'].
Qed.

Lemma wp_commit_classTrie s lv t :
  st_classTrie s = Some t -> trie_is Poseidon d (ClassTrieID r0) (as_leaves σ) lv t ->
  wp (on_classTrie (fun _ => Commit Poseidon)) (fun r s' =>
    r.1 = map_root Poseidon lv /\ nodes_bring Poseidon (ClassTrieID r0) (as_leaves σ) r.2 lv /\
    exists t', s' = set_classTrie s t') s.
Proof.
  intros Et Ht. eapply wp_on_classTrie; [exact Et|].
  eapply wp_mono; [apply (wp_trie_commit Poseidon d (ClassTrieID r0) (as_leaves σ) op_open
    (so_leaves _ op_ok) (ds_classTrie _ _ op_held) poseidon_nonzero _ _ Ht)|].
  intros r t' (E1 & Hb & _). split_and!; [done|done|by exists t'].
Qed.

Lemma commit_post_intro objs lv s (merged m : MergeNodeSet (F:=F)) (classNodes contractNodes : option NodeSet) prev cur :
  st_kv s = kv0 -> (forall a, final_at a (objs !! a) (st_objects s !! a)) ->
  (forall a, exists p', committed_at a (objs !! a) p' (ChildSets merged !! a)) ->
  nodes_bring Poseidon (ClassTrieID r0) (as_leaves σ) classNodes lv ->
  nodes_bring Pedersen (ContractTrieID r0) (contract_leaves (as_contracts σ)) contractNodes (next_leaves objs) ->
  Nodes (OwnerSet m) = from_option Nodes ∅ contractNodes -> ChildSets m = ChildSets merged ->
  commit_post objs lv
    (mkStateUpdate prev cur (match classNodes with Some ns => Some (NewMergeNodeSet (Some ns)) | None => None end) (Some m)) s.
Proof.
  intros Hk Hf Hc [Hco Hcb] [_ Hb] Em Ec.
  split; cbn [su_classNodes su_contractNodes]; [done|done| | | |].
  - intros x [Hx|[= <-]].
    + destruct classNodes as [ns|]; [|done]. assert (x = NewMergeNodeSet (Some ns)) as -> by congruence.
      apply NewMergeNodeSet_wf. apply Hcb.
    + split; [rewrite Em; apply Hb|]. rewrite Ec. intros a ns Ha. destruct (Hc a) as [p' Hat]. rewrite Ha in Hat.
      unfold committed_at in Hat. destruct (objs !! a) as [[o|]|]; [|by destruct Hat..]. apply Hat.
  - rewrite class_nodes_set; done.
  - cbn [set_for from_option]. by rewrite Em.
  - intros a. cbn [set_for mbind option_bind]. rewrite Ec. destruct (Hc a) as [p' Hat]. unfold committed_at in Hat.
    destruct (objs !! a) as [[o|]|].
    + destruct Hat as [_ Hat]. by destruct (ChildSets merged !! a).
    + by destruct Hat as [_ ->].
    + by destruct Hat as [_ ->].
Qed.

Lemma wp_commit s lv objs pv comm :
  rep s (contract_leaves (as_contracts σ)) lv objs ->
  objects_ok objs -> map_Forall (fun a _ => key_ok a) objs ->
  stateCommitment (map_root Pedersen (next_leaves objs)) (map_root Poseidon lv) pv = (Ok comm : outcome (stateError F) F) ->
  wp (commit pv) (fun r s' => r.1 = comm /\ commit_post objs lv r.2 s') s.
Proof.
  intros Hs Hok Hkeys Hcomm. unfold commit. wp_step. wp_step. rewrite (sr_objects _ _ _ _ _ _ _ Hs).
  assert (Hp : sorted_contracts objs ≡ₚ (map_to_list objs).*1).
  { unfold sorted_contracts. rewrite sort_slice_perm. by rewrite map_order_perm. }
  wp_step. eapply wp_mono; [apply (wp_commit_objects _ _ _ _ _ _ Hs)|].
  - intros a o _ Ha. by apply (Hok a (Some o)).
  - rewrite Hp. apply NoDup_fst_map_to_list.
  - intros a _. apply lookup_empty.
  - intros [merged comms] s1 (objs1 & Hs1 & [Eo Hk] & Ec). cbn [fst snd] in *. subst comms.
    assert (Hat : forall a, committed_at a (objs !! a) (objs1 !! a) (ChildSets merged !! a)).
    { intros a. specialize (Hk a). destruct (decide _) as [Hin|Hni]; [done|]. rewrite Hp, elem_of_keys in Hni.
      destruct Hk as [-> ->]. destruct (objs !! a) eqn:Ea; [by destruct Hni|]. done. }
    wp_step. eapply wp_mono; [apply (wp_put_commitments _ _ _ _ _ Hs1); eauto|].
    intros [] s2 (objs2 & Hs2 & Hf). destruct Hs2 as [Hr2 Hk2 (t1 & Et1 & Ht1) (t2 & Et2 & Ht2) Ho2].
    wp_step. eapply wp_mono; [by apply (wp_commit_classTrie s2 lv t2)|].
    intros [r1 cn] s3 (E1 & Hb1 & t3 & ->). cbn [fst snd] in *. wp_step.
    eapply wp_mono; [by apply (wp_commit_contractTrie _ (next_leaves objs) t1)|].
    intros [r2 tn] s4 (E2 & Hb2 & t4 & ->). cbn [fst snd] in *. subst r1 r2.
    destruct (merge_contract_nodes merged tn Eo) as (m & Em & En & Ech); [apply Hb2|].
    wp_step. eapply wp_lift; [exact Em|]. wp_step. eapply wp_lift; [exact Hcomm|]. wp_step. wp_step. wp_step.
    split; [done|]. cbn [snd]. eapply commit_post_intro; cbn [st_kv st_objects set_contractTrie set_classTrie].
    + done.
    + by rewrite Ho2.
    + intros a. by eexists.
    + done.
    + done.
    + done.
    + done.
Qed.

End commits.
