(* ===== verification/StateFlush.v ===== *)
(** * Writing a committed state

    [flush] writes the nodes, the records of contracts and the classes of a
    commit to the batch: afterwards the batch holds the tries of the new maps,
    the records of the objects that are left, nothing of deleted contracts, and
    the keys of other buckets are what they were. *)
From stdpp Require Import prelude gmap list.
From Stdlib Require Import ZArith Lia.
From S2P Require Import Prelude Felt FeltArith BitArray BitArrayFacts TrieNode TrieNodeFacts Trie TrieSpec TrieRep.
From S2P Require Import TrieTheorems MemDB MemDBFacts TrieDB TrieDBFacts TrieCommit.
From S2P Require Import Poseidon Transaction StateDiff Block Class State StateUpdate StateTree StateTries.
From S2P Require Import StateObjects StateCommit.

Local Open Scope Z_scope.

(** ** Postconditions of one run *)

Lemma wp_and {S E A} (m : SE S E A) (P Q : A -> S -> Prop) s :
  wp m P s -> wp m Q s -> wp m (fun a s' => P a s' /\ Q a s') s.
Proof.
  intros (a & s1 & E1 & HP)%wp_elim HQ. eapply wp_intro; [exact E1|]. split; [done|].
  by eapply wp_result in HQ.
Qed.

Lemma wp_forall {S E A X} (m : SE S E A) (Q : X -> A -> S -> Prop) s (x0 : X) :
  (forall x, wp m (Q x) s) -> wp m (fun a s' => forall x, Q x a s') s.
Proof.
  intros HQ. pose proof (HQ x0) as (a & s1 & E1 & _)%wp_elim. eapply wp_intro; [exact E1|].
  intros x. by eapply wp_result; [apply HQ|].
Qed.

(** ** Keys *)

Section keys.
Context {F : Type} `{!FieldElement F} `{!FieldElementLaws F}.

Lemma felt_key_inj b (a a' : F) : Bucket_Key b [felt_Bytes a] = Bucket_Key b [felt_Bytes a'] -> a = a'.
Proof. unfold Bucket_Key. cbn [concat]. rewrite !app_nil_r. intros [= E]. by apply felt_Bytes_inj. Qed.

Lemma ContractKey_inj (a a' : F) : ContractKey a = ContractKey a' -> a = a'.
Proof. apply felt_key_inj. Qed.

Lemma ClassKey_inj (h h' : F) : ClassKey h = ClassKey h' -> h = h'.
Proof. apply felt_key_inj. Qed.

Lemma key_bytes b (a : F) : is_bytes (Bucket_Key b [felt_Bytes a]).
Proof.
  constructor; [pose proof (bucket_byte_range b); lia|]. cbn [concat]. rewrite app_nil_r. apply felt_bytes_range.
Qed.

(** A key is of one bucket. *)
Lemma head_bucket b b' k : head k = Some (bucket_byte b) -> head k = Some (bucket_byte b') -> b = b'.
Proof. intros -> E1. apply bucket_byte_inj. by injection E1. Qed.

Lemma other_key_bucket b k : head k = Some (bucket_byte b) -> node_bucket b = false -> other_key k.
Proof. intros Hk Hb b' Hb' E1. rewrite (head_bucket b b' k Hk E1) in Hb. congruence. Qed.

(** Below the prefix of a storage trie there are only keys of its bucket. *)
Lemma storage_prefix_head (o : F) k :
  head k ≠ Some (bucket_byte contractTrieStorage) -> HasPrefix k (storage_prefix_of o) = false.
Proof.
  intros Hk. apply not_true_iff_false. rewrite HasPrefix_spec. intros [r ->]. by apply Hk.
Qed.

End keys.

Section flush.
Context {F : Type} `{!FieldElement F} `{!FieldElementLaws F} `{!FieldArith F} `{!HashFns F} `{SV : !Semver}.
Context `{!MapOrder F} `{!MapOrderLaws F} `{!ClassCodec F} `{!NonzeroHashes F}.
Abbreviation object := (stateObject (F:=F)).
Abbreviation kvs := (memory.dbBatch).

Variable d : memory.Database.
#[local] Existing Instance batch_laws.
Abbreviation kopen := (kv_open (KVLaws := batch_laws d)).
Implicit Types (a : F) (k : bytes) (m : gmap bytes bytes) (s : State (F:=F)) (kv : memory.dbBatch).

Lemma wp_on_batch {A} (x : SE memory.dbBatch dbError A) (Q : A -> State (F:=F) -> Prop) s :
  wp x (fun r kv => Q r (set_kv s kv)) (st_kv s) -> wp (on_batch x) Q s.
Proof. apply wp_zoom. Qed.

(** ** Contracts *)

Definition contract_entry (p : option object) : option bytes :=
  (fun o => contract_MarshalBinary (so_contract o)) <$> p.

Record contracts_written (objs : gmap F (option object)) m m' : Prop := {
  cw_contract a : m' !! ContractKey a = match objs !! a with Some p => contract_entry p | None => m !! ContractKey a end;
  cw_storage a p lf : a ≠ felt_Zero -> wf p ->
    m' !! nodeKeyByPath contractTrieStorage a p lf =
      match objs !! a with Some None => None | _ => m !! nodeKeyByPath contractTrieStorage a p lf end;
  cw_other k : head k ≠ Some (bucket_byte contract) -> head k ≠ Some (bucket_byte contractTrieStorage) ->
    m' !! k = m !! k;
}.

Lemma contracts_written_step objs a o m m1 kv :
  contracts_written objs m m1 -> objs !! a = None -> kopen kv -> view kv = m1 ->
  wp (match o with
      | None => DeleteContract a;; DeleteStorageNodesByPath a
      | Some ob => WriteContractRecord a (so_contract ob)
      end) (fun _ kv' => kopen kv' /\ contracts_written (<[a := o]> objs) m (view kv')) kv.
Proof.
  intros [Hc Hst Hoth] Ha Hkv Ev.
  assert (Hins : forall b : F, b ≠ a -> (<[a := o]> objs) !! b = objs !! b) by (intros; by rewrite lookup_insert_ne).
  destruct o as [ob|].
  - eapply wp_mono; [apply (kv_put_spec (KVLaws := batch_laws d)); done|]. intros [] kv' [Hk Hm]. split; [done|].
    change (kv_map kv') with (view kv') in Hm. change (kv_map kv) with (view kv) in Hm. rewrite Hm, Ev. split.
    + intros b. destruct (decide (b = a)) as [->|Hne]; [by rewrite !lookup_insert_eq|].
      rewrite lookup_insert_ne by (by intros ?%ContractKey_inj). by rewrite Hins, Hc.
    + intros b p lf Hb Hp. rewrite lookup_insert_ne by done. rewrite Hst by done.
      destruct (decide (b = a)) as [->|Hne]; [by rewrite lookup_insert_eq, Ha|by rewrite Hins].
    + intros k H1 H2. rewrite lookup_insert_ne by (by intros <-). by apply Hoth.
  - wp_step. eapply wp_mono; [apply (kv_del_spec (KVLaws := batch_laws d)); done|]. intros [] kv1 [Hk1 Hm1].
    change (kv_map kv1) with (view kv1) in Hm1. change (kv_map kv) with (view kv) in Hm1. rewrite Ev in Hm1.
    eapply wp_mono; [by apply (wp_DeleteStorageNodes a (KVLaws0 := batch_laws d))|]. intros [] kv' (Hk & Hm & Hm'). split; [done|].
    change (kv_map kv1) with (view kv1) in Hm, Hm'. change (kv_map kv') with (view kv') in Hm, Hm'. rewrite Hm1 in Hm, Hm'. split.
    + intros b. rewrite Hm by apply key_bytes. rewrite storage_prefix_head by done.
      destruct (decide (b = a)) as [->|Hne]; [by rewrite lookup_insert_eq, lookup_delete_eq|].
      rewrite lookup_delete_ne by (by intros ?%ContractKey_inj). by rewrite Hins, Hc.
    + intros b p lf Hb Hp. rewrite Hm by (by apply nodeKey_bytes).
      pose proof (storage_prefix a (ContractStorageTrieID felt_Zero b) p lf (fun _ => Hb)) as E.
      unfold storage_prefix_of. cbn [Bucket id_Owner] in E. rewrite E.
      destruct (decide (b = a)) as [->|Hne]; [by rewrite bool_decide_true, lookup_insert_eq|].
      rewrite bool_decide_false by naive_solver. rewrite lookup_delete_ne by done. by rewrite Hins, Hst.
    + intros k H1 H2. rewrite Hm' by done.
      rewrite lookup_delete_ne by (by intros <-). by apply Hoth.
Qed.

Lemma set_kv_kv s kv kv' : set_kv (set_kv s kv) kv' = set_kv s kv'.
Proof. done. Qed.

(** The state with another batch, whose contents satisfy a predicate. *)
Definition batch_inv s (P : gmap bytes bytes -> Prop) s' : Prop :=
  exists kv, s' = set_kv s kv /\ kopen kv /\ P (view kv).

Lemma wp_batch_step s (P : gmap bytes bytes -> Prop) (Q : gmap bytes bytes -> Prop) (x : SE memory.dbBatch dbError unit) s1 :
  batch_inv s P s1 ->
  (forall kv, kopen kv -> P (view kv) -> wp x (fun _ kv' => kopen kv' /\ Q (view kv')) kv) ->
  wp (on_batch x) (fun _ s' => batch_inv s Q s') s1.
Proof.
  intros (kv & -> & Hk & HP) Hx. apply wp_on_batch. eapply wp_mono; [by apply Hx|].
  intros [] kv' [Hk' HQ]. by exists kv'.
Qed.

Lemma wp_flush_contracts s m objs s1 :
  batch_inv s (fun m1 => m1 = m) s1 ->
  wp (each (map_order objs) flush_contract) (fun _ s' => batch_inv s (contracts_written objs m) s') s1.
Proof.
  intros Hs. apply (wp_each_map (fun done s' => batch_inv s (contracts_written done m) s')); [apply map_order_perm| |].
  - destruct Hs as (kv & -> & Hk & <-). exists kv. split_and!; [done|done|]. split; intros; by rewrite ?lookup_empty.
  - intros done a o s2 _ _ Hn Hs2. unfold flush_contract.
    assert (Hst := fun m1 kv Hw Hk => contracts_written_step done a o m m1 kv Hw Hn Hk).
    destruct o as [ob|].
    + eapply wp_batch_step; [exact Hs2|]. intros kv Hk HP. by eapply Hst.
    + destruct Hs2 as (kv & -> & Hk & HP). specialize (Hst _ kv HP Hk eq_refl).
      apply wp_elim in Hst as (x & kv' & E1 & Hk' & Hw). unfold mbind, SE_bind in E1.
      destruct (DeleteContract a kv) as [[|?| |] kv1] eqn:E2; try done.
      wp_step. apply wp_on_batch. eapply wp_intro; [exact E2|]. apply wp_on_batch. eapply wp_intro; [exact E1|].
      by exists kv'.
Qed.

(** ** Classes *)

Definition class_entry (blk : Z) (p : option (ClassDefinition F)) : option bytes :=
  (fun c => class_Marshal (mkDeclared blk c)) <$> p.

Record classes_written (blk : Z) (classes : gmap F (option (ClassDefinition F))) m m' : Prop := {
  kw_class h : m' !! ClassKey h = match classes !! h with Some p => class_entry blk p | None => m !! ClassKey h end;
  kw_other k : head k ≠ Some (bucket_byte class) -> m' !! k = m !! k;
}.

Lemma wp_flush_classes s m blk classes s1 :
  batch_inv s (fun m1 => m1 = m) s1 ->
  wp (each (map_order classes) (flush_class blk)) (fun _ s' => batch_inv s (classes_written blk classes m) s') s1.
Proof.
  intros Hs. apply (wp_each_map (fun done s' => batch_inv s (classes_written blk done m) s')); [apply map_order_perm| |].
  - destruct Hs as (kv & -> & Hk & <-). exists kv. split_and!; [done|done|]. split; intros; by rewrite ?lookup_empty.
  - intros done h p s2 _ _ Hn Hs2. unfold flush_class.
    assert (Hstep : forall m1 m2, classes_written blk done m m1 -> m2 !! ClassKey h = class_entry blk p ->
      (forall k, k ≠ ClassKey h -> m2 !! k = m1 !! k) -> classes_written blk (<[h := p]> done) m m2).
    { intros m1 m2 [H1 H2] E1 E2. split.
      - intros h'. destruct (decide (h' = h)) as [->|Hne]; [by rewrite lookup_insert_eq|].
        rewrite lookup_insert_ne by done. rewrite E2 by (by intros ?%ClassKey_inj). apply H1.
      - intros k Hk. rewrite E2 by (by intros ->). by apply H2. }
    destruct p as [c|]; (eapply wp_batch_step; [exact Hs2|]); intros kv Hk HP.
    + eapply wp_mono; [apply (kv_put_spec (KVLaws := batch_laws d)); done|]. intros [] kv' [Hk' Hm]. split; [done|].
      eapply Hstep; [exact HP|..]; change (kv_map kv') with (view kv') in Hm; rewrite Hm.
      * by rewrite lookup_insert_eq.
      * intros k Hne. by rewrite lookup_insert_ne.
    + eapply wp_mono; [apply (kv_del_spec (KVLaws := batch_laws d)); done|]. intros [] kv' [Hk' Hm]. split; [done|].
      eapply Hstep; [exact HP|..]; change (kv_map kv') with (view kv') in Hm; rewrite Hm.
      * by rewrite lookup_delete_eq.
      * intros k Hne. by rewrite lookup_delete_ne.
Qed.

(** ** Nodes *)

Record nodes_written (classes contracts : option (MergeNodeSet (F:=F))) m m' : Prop := {
  nw_node id p lf : Type_ id ≠ TEmpty -> wf p ->
    m' !! nodeKeyByPath (Bucket id) (id_Owner id) p lf =
      default (m !! nodeKeyByPath (Bucket id) (id_Owner id) p lf) (says (set_for id classes contracts) p lf);
  nw_other k : other_key k -> m' !! k = m !! k;
}.

Lemma wp_flush_nodes s classes contracts m s1 :
  batch_inv s (fun m1 => m1 = m) s1 -> (forall x, classes = Some x \/ contracts = Some x -> wf_sets x) ->
  wp (on_batch (raw_Update node_order map_order classes contracts))
    (fun _ s' => batch_inv s (nodes_written classes contracts m) s') s1.
Proof.
  intros Hs Hw. eapply wp_batch_step; [exact Hs|]. intros kv Hk <-.
  assert (Hn := wp_raw_Update (KVLaws0 := batch_laws d) node_order map_order node_order_perm map_order_perm classes contracts kv Hk
    (fun x E => Hw x (or_introl E)) (fun x E => Hw x (or_intror E))).
  assert (Ho : wp (raw_Update node_order map_order classes contracts)
    (fun _ kv' => forall k, other_key k -> view kv' !! k = view kv !! k) kv).
  { apply (wp_forall _ (fun k _ kv' => other_key k -> view kv' !! k = view kv !! k) kv []). intros k.
    destruct (decide (head k = Some (bucket_byte classTrie) \/ head k = Some (bucket_byte contractTrieContract) \/
      head k = Some (bucket_byte contractTrieStorage))) as [Hb|Hb].
    - eapply wp_mono; [exact Hn|]. intros _ kv' _ Hk'. exfalso.
      destruct Hb as [Hb|[Hb|Hb]]; by eapply Hk' in Hb.
    - eapply wp_mono; [apply (wp_raw_Update_other (KVLaws0 := batch_laws d) node_order map_order classes contracts k kv Hk)|].
      + intros b Hb' E1. apply Hb. destruct b; try done; eauto.
      + by intros _ kv' [_ E1] _. }
  eapply wp_mono; [apply wp_and; [exact Hn|exact Ho]|]. intros [] kv' [[Hk' Hm] Hf]. split; [done|]. by split.
Qed.

End flush.

(** ** The batch after a flush *)

(** The buckets of the state itself: all but the ones of the history. *)
Definition state_bucket (b : innerBucket) : bool :=
  match b with classTrie | contractTrieContract | contractTrieStorage | contract | class => true | _ => false end.

Definition outside (k : bytes) : Prop := forall b, state_bucket b = true -> head k ≠ Some (bucket_byte b).

Section result.
Context {F : Type} `{!FieldElement F} `{!FieldElementLaws F} `{!FieldArith F} `{!HashFns F} `{SV : !Semver}.
Context `{!MapOrder F} `{!MapOrderLaws F} `{!ClassCodec F} `{!NonzeroHashes F}.
Abbreviation object := (stateObject (F:=F)).
Context (kv0 : memory.dbBatch) (r0 : F) (σ : astate F) {Hop : opened kv0 r0 σ}.
Abbreviation m0 := (default ∅ (memory.db (memory.bdb kv0))).
Implicit Types (a : F) (objs : gmap F (option object)) (s : State (F:=F)).

(** The state the objects of a commit stand for. *)
Record next_state blk objs (lv : gmap F F) (classes : gmap F (option (ClassDefinition F))) (σ' : astate F) : Prop := {
  ns_contract a :
    match objs !! a with
    | Some (Some o) =>
        if purged σ a o then as_contracts σ' !! a = None
        else exists c, as_contracts σ' !! a = Some c /\ record_of c = new_record σ a o /\ ac_storage c = new_storage σ a o
    | Some None => as_contracts σ' !! a = None
    | None => as_contracts σ' !! a = as_contracts σ !! a
    end;
  ns_leaves : as_leaves σ' = lv;
  ns_class h :
    as_classes σ' !! h =
      match classes !! h with Some p => mkDeclared blk <$> p | None => as_classes σ !! h end;
}.

Lemma next_contract_leaves blk objs lv classes σ' :
  next_state blk objs lv classes σ' -> contract_leaves (as_contracts σ') = next_leaves σ objs.
Proof.
  intros Hn. unfold contract_leaves, next_leaves, write. apply nz_ext. intros a.
  rewrite lookup_fmap. pose proof (ns_contract _ _ _ _ _ Hn a) as Ha.
  assert (Ei : forall (f : F -> option object -> F), map_imap (fun a p => Some (f a p)) objs !! a = f a <$> objs !! a).
  { intros f. rewrite map_lookup_imap. by destruct (objs !! a). }
  destruct (objs !! a) as [p|] eqn:Ep.
  - erewrite lookup_union_Some_l by (rewrite Ei; done). cbn [default from_option id].
    destruct p as [o|]; cbn [final_comm]; [|by rewrite Ha].
    destruct (purged σ a o); [by rewrite Ha|]. destruct Ha as (c & -> & Hr & _). cbn. unfold leaf_of. by rewrite Hr.
  - rewrite lookup_union_r by (by rewrite Ei). rewrite Ha.
    rewrite <- lookup_fmap. symmetry. apply nz_lookup.
Qed.

Lemma db_holds_ext hf m m' b (o : F) t :
  (forall p lf, wf p -> m' !! nodeKeyByPath b o p lf = m !! nodeKeyByPath b o p lf) ->
  db_holds hf m b o t -> db_holds hf m' b o t.
Proof. intros E1 Hm l lf Hl. rewrite E1 by (by apply path_of_spec). by apply Hm. Qed.

Section assemble.
Variables (blk : Z) (objs : gmap F (option object)) (lv : gmap F F) (classes : gmap F (option (ClassDefinition F))).
Variables (σ' : astate F) (su : stateUpdate (F:=F)) (s : State (F:=F)).
Hypothesis next : next_state blk objs lv classes σ'.
Hypothesis post : commit_post kv0 r0 σ objs lv su s.
Variables m1 m2 m3 : gmap bytes bytes.
Hypothesis nodes : nodes_written (su_classNodes su) (su_contractNodes su) m0 m1.
Hypothesis contracts : contracts_written (st_objects s) m1 m2.
Hypothesis declared : classes_written blk classes m2 m3.

Lemma flushed_contract a : m3 !! ContractKey a = (fun c => contract_MarshalBinary (record_of c)) <$> as_contracts σ' !! a.
Proof.
  rewrite (kw_other _ _ _ _ declared) by done. rewrite (cw_contract _ _ _ contracts).
  pose proof (cp_objects _ _ _ _ _ _ _ post a) as Hf. pose proof (ns_contract _ _ _ _ _ next a) as Ha.
  destruct (objs !! a) as [[o|]|]; cbn [final_at] in Hf.
  - destruct (purged σ a o); [by rewrite Hf, Ha|]. destruct Hf as (o' & -> & Hr). destruct Ha as (c & -> & Hc & _).
    cbn. by rewrite Hr, Hc.
  - by rewrite Hf, Ha.
  - rewrite Hf, Ha. rewrite (nw_other _ _ _ _ nodes) by (by apply (other_key_bucket contract)). apply (ds_contract _ _ op_held).
Qed.

Lemma flushed_class h : m3 !! ClassKey h = class_Marshal <$> as_classes σ' !! h.
Proof.
  rewrite (kw_class _ _ _ _ declared), (ns_class _ _ _ _ _ next).
  destruct (classes !! h) as [p|]; [by destruct p|].
  rewrite (cw_other _ _ _ contracts) by done.
  rewrite (nw_other _ _ _ _ nodes) by (by apply (other_key_bucket class)). apply (ds_class _ _ op_held).
Qed.

Lemma flushed_node b (o : F) p lf :
  wf p -> node_bucket b = true -> b ≠ contractTrieStorage ->
  m3 !! nodeKeyByPath b o p lf = m1 !! nodeKeyByPath b o p lf.
Proof.
  intros Hp Hb Hne. assert (Hk : forall b', b' ≠ b -> head (nodeKeyByPath b o p lf) ≠ Some (bucket_byte b')).
  { intros b' Hb' E1. apply Hb'. symmetry. exact (head_bucket b b' (nodeKeyByPath b o p lf) eq_refl E1). }
  rewrite (kw_other _ _ _ _ declared) by (apply Hk; intros E1; by rewrite <- E1 in Hb).
  apply (cw_other _ _ _ contracts); apply Hk; [intros E1; by rewrite <- E1 in Hb|done].
Qed.

Lemma flushed_storage a : a ≠ felt_Zero -> db_holds Pedersen m3 contractTrieStorage a (mpt (storage_of σ' a)).
Proof.
  intros Hz. pose proof (cp_objects _ _ _ _ _ _ _ post a) as Hf. pose proof (ns_contract _ _ _ _ _ next a) as Ha.
  pose proof (cp_storage _ _ _ _ _ _ _ post a) as Hb. cbn zeta in Hb.
  assert (E3 : forall p lf, wf p -> m3 !! nodeKeyByPath contractTrieStorage a p lf =
    match st_objects s !! a with Some None => None | _ => m1 !! nodeKeyByPath contractTrieStorage a p lf end).
  { intros p lf Hp. rewrite (kw_other _ _ _ _ declared) by done. by apply (cw_storage _ _ _ contracts). }
  assert (Hgone : st_objects s !! a = Some None -> as_contracts σ' !! a = None ->
    db_holds Pedersen m3 contractTrieStorage a (mpt (storage_of σ' a))).
  { intros Es E' l lf Hl. rewrite E3 by (by apply path_of_spec). rewrite Es. unfold storage_of. rewrite E'. cbn.
    by rewrite mpt_empty. }
  assert (Hkeep : st_objects s !! a ≠ Some None -> db_holds Pedersen m1 contractTrieStorage a (mpt (storage_of σ' a)) ->
    db_holds Pedersen m3 contractTrieStorage a (mpt (storage_of σ' a))).
  { intros Es. apply db_holds_ext. intros p lf Hp. rewrite E3 by done. by destruct (st_objects s !! a) as [[]|]. }
  assert (Hn := fun p lf => nw_node _ _ _ _ nodes (ContractStorageTrieID r0 a) p lf (ltac:(done))).
  cbn [Bucket id_Owner] in Hn. pose proof (ds_storage _ _ (op_held (kv0:=kv0) (σ:=σ)) a Hz) as Hold.
  destruct (objs !! a) as [[o|]|]; cbn [final_at] in Hf.
  - destruct (purged σ a o); [by apply Hgone|]. destruct Hf as (o' & Eo & _). destruct Ha as (c & Ec & _ & Est).
    apply Hkeep; [by rewrite Eo|]. unfold storage_of at 1. rewrite Ec. cbn. rewrite Est.
    destruct Hb as [_ Hb]. apply (Hb _ _ Hold). intros p lf Hp. by apply Hn.
  - by apply Hgone.
  - apply Hkeep; [by rewrite Hf|]. unfold storage_of at 1. rewrite Ha. eapply db_holds_ext; [|exact Hold].
    intros p lf Hp. rewrite Hn, Hb by done. unfold says. by rewrite lookup_empty.
Qed.

Lemma flushed_state : db_state m3 σ'.
Proof.
  split.
  - apply flushed_contract.
  - rewrite (ns_leaves _ _ _ _ _ next). destruct (cp_classes _ _ _ _ _ _ _ post) as [_ Hb].
    eapply Hb; [apply (ds_classTrie _ _ op_held)|]. intros p lf Hp. rewrite flushed_node by done.
    by apply (nw_node _ _ _ _ nodes (ClassTrieID r0)).
  - rewrite (next_contract_leaves _ _ _ _ _ next). destruct (cp_contracts _ _ _ _ _ _ _ post) as [_ Hb].
    eapply Hb; [apply (ds_contractTrie _ _ op_held)|]. intros p lf Hp. rewrite flushed_node by done.
    by apply (nw_node _ _ _ _ nodes (ContractTrieID r0)).
  - apply flushed_storage.
  - apply flushed_class.
Qed.

Lemma flushed_outside k : outside k -> m3 !! k = m0 !! k.
Proof.
  intros Hk. rewrite (kw_other _ _ _ _ declared) by (by apply Hk).
  rewrite (cw_other _ _ _ contracts) by (done || by apply Hk). apply (nw_other _ _ _ _ nodes).
  intros b Hb'. apply Hk. unfold node_bucket, state_bucket in *. by destruct b.
Qed.

End assemble.

Lemma wp_flush blk su classes s lv objs σ' :
  commit_post kv0 r0 σ objs lv su s -> next_state blk objs lv classes σ' ->
  batch_usable kv0 -> view kv0 = m0 ->
  wp (flush blk su classes) (fun _ s' =>
    batch_inv (memory.bdb kv0) s (fun m => db_state m σ' /\ forall k, outside k -> m !! k = m0 !! k) s') s.
Proof.
  intros Hp Hn Hu Hv. unfold flush. wp_step.
  eapply wp_mono; [apply (wp_flush_nodes (memory.bdb kv0) s _ _ m0)|].
  - exists kv0. split_and!; [|done|done]. rewrite <- (cp_kv _ _ _ _ _ _ _ Hp). by destruct s.
  - apply (cp_wf _ _ _ _ _ _ _ Hp).
  - intros [] s1 (kv1 & -> & Hk1 & Hw1). wp_step. wp_step. wp_step. cbn [st_objects set_kv].
    eapply wp_mono; [apply (wp_flush_contracts (memory.bdb kv0) s (view kv1)); by exists kv1|].
    intros [] s2 (kv2 & -> & Hk2 & Hw2).
    eapply wp_mono; [apply (wp_flush_classes (memory.bdb kv0) s (view kv2) blk classes); by exists kv2|].
    intros [] s3 (kv3 & -> & Hk3 & Hw3). exists kv3. split_and!; [done|done|..].
    + by eapply flushed_state.
    + by eapply flushed_outside.
Qed.

End result.
