(* ===== verification/StateHistory.v ===== *)
(** * The history of the state

    Values at older blocks: every block writes the values it changes under a key
    that ends with its number.  [writeHistory] and [deleteHistory] change exactly
    the entries of their block, and [valueAt] finds the latest entry that is not
    after a block. *)
From stdpp Require Import prelude gmap list.
From Stdlib Require Import ZArith Lia.
From S2P Require Import Prelude Felt FeltArith MemDB MemDBFacts TrieDB TrieDBFacts.
From S2P Require Import Poseidon Transaction StateDiff Block Class ClassFacts State StateUpdate StateTree StateTries.
From S2P Require Import StateCommit StateFlush.

Local Open Scope Z_scope.

(** ** Keys *)

Section keys.
Context {F : Type} `{!FieldElement F} `{!FieldElementLaws F}.
Implicit Types (a j : F) (n : Z).

Lemma be8_inj n n' : is_u64 n -> is_u64 n' -> be_bytes 8 n = be_bytes 8 n' -> n = n'.
Proof. intros Hn Hn' E. rewrite <- (be_val_u64 n), <- (be_val_u64 n'), E by done. done. Qed.

Lemma felt_bytes_app_inj a a' (l l' : bytes) : felt_Bytes a ++ l = felt_Bytes a' ++ l' -> a = a' /\ l = l'.
Proof.
  intros E. apply app_inj_1 in E as [E ->]; [|by rewrite !felt_bytes_length]. by apply felt_Bytes_inj in E as ->.
Qed.

Lemma storage_key_inj a j n a' j' n' :
  is_u64 n -> is_u64 n' -> ContractStorageHistoryAtBlockKey a j n = ContractStorageHistoryAtBlockKey a' j' n' ->
  a = a' /\ j = j' /\ n = n'.
Proof.
  intros Hn Hn'. unfold ContractStorageHistoryAtBlockKey, Bucket_Key. cbn [concat]. rewrite !app_nil_r.
  intros [= E]. apply felt_bytes_app_inj in E as [-> E]. apply felt_bytes_app_inj in E as [-> E].
  by apply be8_inj in E as ->.
Qed.

Lemma nonce_key_inj a n a' n' :
  is_u64 n -> is_u64 n' -> ContractNonceHistoryAtBlockKey a n = ContractNonceHistoryAtBlockKey a' n' -> a = a' /\ n = n'.
Proof.
  intros Hn Hn'. unfold ContractNonceHistoryAtBlockKey, Bucket_Key. cbn [concat]. rewrite !app_nil_r.
  intros [= E]. apply felt_bytes_app_inj in E as [-> E]. by apply be8_inj in E as ->.
Qed.

Lemma class_key_inj a n a' n' :
  is_u64 n -> is_u64 n' -> ContractClassHashHistoryAtBlockKey a n = ContractClassHashHistoryAtBlockKey a' n' -> a = a' /\ n = n'.
Proof.
  intros Hn Hn'. unfold ContractClassHashHistoryAtBlockKey, Bucket_Key. cbn [concat]. rewrite !app_nil_r.
  intros [= E]. apply felt_bytes_app_inj in E as [-> E]. by apply be8_inj in E as ->.
Qed.

(** The keys of a block in the three buckets of the history. *)
Inductive history_key n : bytes -> Prop :=
| history_storage a j : history_key n (ContractStorageHistoryAtBlockKey a j n)
| history_nonce a : history_key n (ContractNonceHistoryAtBlockKey a n)
| history_class a : history_key n (ContractClassHashHistoryAtBlockKey a n).

(** The contract and the location of a key are read from its bytes. *)
Lemma history_key_read n k :
  let a := felt_SetBytes (take 32 (drop 1 k)) in let j := felt_SetBytes (take 32 (drop 33 k)) in
  history_key n k <->
    k = ContractStorageHistoryAtBlockKey a j n \/ k = ContractNonceHistoryAtBlockKey a n \/ k = ContractClassHashHistoryAtBlockKey a n.
Proof.
  intros a j. split; [|by intros [E|[E|E]]; rewrite E; constructor].
  assert (Hr : forall b (x : F) l, felt_SetBytes (take 32 (drop 1 (b :: felt_Bytes x ++ l))) = x).
  { intros b x l. change (drop 1 (b :: felt_Bytes x ++ l)) with (felt_Bytes x ++ l). rewrite take_app_length' by (by rewrite felt_bytes_length). apply felt_SetBytes_Bytes. }
  subst a j. intros [x y|x|x]; unfold ContractStorageHistoryAtBlockKey, ContractNonceHistoryAtBlockKey,
    ContractClassHashHistoryAtBlockKey, Bucket_Key; cbn [concat]; rewrite !Hr; [left|right; by left|right; by right].
  replace (drop 33 (bucket_byte contractStorageHistory :: felt_Bytes x ++ felt_Bytes y ++ be_bytes 8 n ++ []))
    with (felt_Bytes y ++ be_bytes 8 n ++ []).
  - rewrite take_app_length' by (by rewrite felt_bytes_length). by rewrite felt_SetBytes_Bytes.
  - change (drop 33 (?b :: ?l)) with (drop 32 l). by rewrite drop_app_length' by (by rewrite felt_bytes_length).
Qed.

#[global] Instance history_key_dec n k : Decision (history_key n k).
Proof.
  destruct (history_key_read n k) as [H1 H2].
  match type of H2 with ?P -> _ => destruct (decide P) as [H|H] end; [left; by apply H2|right; by intros ?%H1].
Defined.

End keys.

(** ** Loops that set keys *)

Section loops.
Context {F : Type} `{!FieldElement F} `{!FieldElementLaws F} `{!FieldArith F} `{!HashFns F} `{SV : !Semver}.
Context `{!MapOrder F} `{!MapOrderLaws F} `{!ClassCodec F}.
Variable d : memory.Database.
Variable s0 : State (F:=F).
Abbreviation SM := (SE (State (F:=F)) (stateError F)).
Abbreviation holds m := (batch_inv d s0 (fun m' => m' = m)).
Implicit Types (m : gmap bytes bytes) (k : bytes).

(** [set] says which keys get which values, [None] deletes. *)
Definition changed_by (set : bytes -> option bytes -> Prop) m m' : Prop :=
  forall k, (forall x, set k x -> m' !! k = x) /\ ((forall x, ~ set k x) -> m' !! k = m !! k).

Lemma wp_put k v m s : holds m s ->
  wp (on_batch (kv_put k v) : SM unit) (fun _ s' => batch_inv d s0 (changed_by (fun k' x => k' = k /\ x = Some v) m) s') s.
Proof.
  intros Hs. eapply wp_batch_step; [exact Hs|]. intros kv Hk <-.
  eapply wp_mono; [by apply (kv_put_spec (KVLaws := batch_laws d))|]. intros [] kv' [Hk' Hm]. split; [done|].
  change (kv_map kv') with (view kv') in Hm. change (kv_map kv) with (view kv) in Hm. rewrite Hm. intros k'. split.
  - intros x [-> ->]. by rewrite lookup_insert_eq.
  - intros Hn. apply lookup_insert_ne. intros ->. by eapply Hn.
Qed.

Lemma wp_del k m s : holds m s ->
  wp (on_batch (kv_del k) : SM unit) (fun _ s' => batch_inv d s0 (changed_by (fun k' x => k' = k /\ x = None) m) s') s.
Proof.
  intros Hs. eapply wp_batch_step; [exact Hs|]. intros kv Hk <-.
  eapply wp_mono; [by apply (kv_del_spec (KVLaws := batch_laws d))|]. intros [] kv' [Hk' Hm]. split; [done|].
  change (kv_map kv') with (view kv') in Hm. change (kv_map kv) with (view kv) in Hm. rewrite Hm. intros k'. split.
  - intros x [-> ->]. by rewrite lookup_delete_eq.
  - intros Hn. apply lookup_delete_ne. intros ->. by eapply Hn.
Qed.

Lemma wp_set_loop {V} (D : gmap F V) (K : F -> V -> bytes -> option bytes -> Prop) (f : F * V -> SM unit) m s :
  (forall a v a' v' k x x', K a v k x -> K a' v' k x' -> a = a') ->
  (forall a v m1 s1, D !! a = Some v -> holds m1 s1 ->
     wp (f (a, v)) (fun _ s' => batch_inv d s0 (changed_by (K a v) m1) s') s1) ->
  holds m s ->
  wp (each (map_order D) f) (fun _ s' =>
    batch_inv d s0 (changed_by (fun k x => exists a v, D !! a = Some v /\ K a v k x) m) s') s.
Proof.
  intros Hdis Hf Hs.
  apply (wp_each_map (fun done s' => batch_inv d s0 (changed_by (fun k x => exists a v, done !! a = Some v /\ K a v k x) m) s'));
    [apply map_order_perm| |].
  - destruct Hs as (kv & -> & Hk & <-). exists kv. split_and!; [done|done|]. intros k. split; [|done].
    intros x (a & v & Ha & _). by rewrite lookup_empty in Ha.
  - intros done a v s1 _ Ha Hn (kv & -> & Hk & Hm). eapply wp_mono; [by apply (Hf a v (view kv)); [|exists kv]|].
    intros [] s2 (kv' & -> & Hk' & Hm'). exists kv'. split_and!; [done|done|]. intros k.
    destruct (Hm k) as [H1 H2], (Hm' k) as [H3 H4]. split.
    + intros x (b & w & Hb & HK). destruct (decide (b = a)) as [->|Hne].
      * rewrite lookup_insert_eq in Hb. injection Hb as <-. by apply H3.
      * rewrite lookup_insert_ne in Hb by done. rewrite H4; [by apply H1; eauto|].
        intros x' HK'. by destruct (Hne (Hdis _ _ _ _ _ _ _ HK HK')).
    + intros Hno. rewrite H4, H2; [done|..].
      * intros x (b & w & Hb & HK). apply (Hno x). exists b, w. rewrite lookup_insert_ne; [done|]. intros ->. congruence.
      * intros x HK. apply (Hno x). exists a, v. by rewrite lookup_insert_eq.
Qed.

(** ** The entries of a block *)

(** What is written, or deleted, for the storage, the nonces and the classes. *)
Record history_change (n : Z) (fs : F -> F -> option (option bytes)) (fn fc : F -> option (option bytes)) m m' : Prop := {
  hc_storage a j n' : is_u64 n' ->
    m' !! ContractStorageHistoryAtBlockKey a j n' =
      if decide (n' = n) then default (m !! ContractStorageHistoryAtBlockKey a j n') (fs a j)
      else m !! ContractStorageHistoryAtBlockKey a j n';
  hc_nonce a n' : is_u64 n' ->
    m' !! ContractNonceHistoryAtBlockKey a n' =
      if decide (n' = n) then default (m !! ContractNonceHistoryAtBlockKey a n') (fn a)
      else m !! ContractNonceHistoryAtBlockKey a n';
  hc_class a n' : is_u64 n' ->
    m' !! ContractClassHashHistoryAtBlockKey a n' =
      if decide (n' = n) then default (m !! ContractClassHashHistoryAtBlockKey a n') (fc a)
      else m !! ContractClassHashHistoryAtBlockKey a n';
  hc_other k : ~ history_key (F:=F) n k -> m' !! k = m !! k;
}.

Lemma history_change_refl n m : history_change n (fun _ _ => None) (fun _ => None) (fun _ => None) m m.
Proof. split; intros; by try destruct (decide _). Qed.

(** One more loop: of storage, nonces or classes. *)
Lemma history_change_storage n fs fn fc m m1 m2 (S : gmap F (gmap F (option F))) (val : option F -> option (option bytes)) :
  is_u64 n -> history_change n fs fn fc m m1 ->
  changed_by (fun k x => exists a st, S !! a = Some st /\
    exists j v, st !! j = Some v /\ k = ContractStorageHistoryAtBlockKey a j n /\ val v = Some x) m1 m2 ->
  (forall a st j v, S !! a = Some st -> st !! j = Some v -> is_Some (val v)) ->
  history_change n (fun a j => match S !! a ≫= (fun st => st !! j) with Some v => val v | None => fs a j end) fn fc m m2.
Proof.
  intros Hn [H1 H2 H3 H4] Hc Hval. split.
  - intros a j n' Hn'. destruct (Hc (ContractStorageHistoryAtBlockKey a j n')) as [Hset Hkeep].
    assert (Hk : n' ≠ n \/ S !! a ≫= (fun st => st !! j) = None ->
      m2 !! ContractStorageHistoryAtBlockKey a j n' = m1 !! ContractStorageHistoryAtBlockKey a j n').
    { intros Hor. apply Hkeep. intros x (a' & st & Ha & j' & v & Hj & Ek & _).
      apply storage_key_inj in Ek as (-> & -> & ->); [|done|done]. destruct Hor as [?|Hor]; [done|].
      rewrite Ha in Hor. cbn in Hor. congruence. }
    destruct (decide (n' = n)) as [->|Hne].
    + destruct (S !! a ≫= (fun st => st !! j)) as [v|] eqn:Ev.
      * apply bind_Some in Ev as (st & Ha & Hj). destruct (Hval a st j v Ha Hj) as [x Ex]. rewrite Ex. cbn.
        apply Hset. exists a, st. split; [done|]. by exists j, v.
      * rewrite Hk by (by right). rewrite H1 by done. by rewrite decide_True.
    + rewrite Hk by (by left). rewrite H1 by done. by rewrite decide_False.
  - intros a n' Hn'. rewrite <- H2 by done. apply Hc. intros x (a' & st & _ & j & v & _ & Ek & _). done.
  - intros a n' Hn'. rewrite <- H3 by done. apply Hc. intros x (a' & st & _ & j & v & _ & Ek & _). done.
  - intros k Hk. rewrite <- H4 by done. apply Hc. intros x (a' & st & _ & j & v & _ & -> & _). apply Hk. constructor.
Qed.

(** A value, or the one of before. *)
Definition orelse {A} (x y : option A) : option A := match x with Some _ => x | None => y end.

Lemma history_change_fields {V} n fs fn fc m m1 m2 (N : gmap F V) (vn vc : V -> option (option bytes)) :
  is_u64 n -> history_change n fs fn fc m m1 ->
  changed_by (fun k x => exists a v, N !! a = Some v /\
    (k = ContractNonceHistoryAtBlockKey a n /\ vn v = Some x \/ k = ContractClassHashHistoryAtBlockKey a n /\ vc v = Some x)) m1 m2 ->
  history_change n fs (fun a => orelse (N !! a ≫= vn) (fn a)) (fun a => orelse (N !! a ≫= vc) (fc a)) m m2.
Proof.
  intros Hn [H1 H2 H3 H4] Hc. split.
  - intros a j n' Hn'. rewrite <- H1 by done. apply Hc. by intros x (a' & v & _ & [[Ek _]|[Ek _]]).
  - intros a n' Hn'. destruct (Hc (ContractNonceHistoryAtBlockKey a n')) as [Hset Hkeep].
    destruct (decide (n' = n /\ is_Some (N !! a ≫= vn))) as [[-> [x Ex]]|Hno].
    + rewrite decide_True, Ex by done. cbn. apply Hset. apply bind_Some in Ex as (v & Ha & Hv). exists a, v. eauto.
    + rewrite Hkeep.
      * rewrite H2 by done. destruct (decide (n' = n)) as [->|]; [|done].
        destruct (N !! a ≫= vn); [by destruct Hno|done].
      * intros x (a' & v & Ha & [[Ek Hv]|[Ek _]]); [|done]. apply nonce_key_inj in Ek as [-> ->]; [|done|done].
        apply Hno. split; [done|]. rewrite Ha. cbn. by eexists.
  - intros a n' Hn'. destruct (Hc (ContractClassHashHistoryAtBlockKey a n')) as [Hset Hkeep].
    destruct (decide (n' = n /\ is_Some (N !! a ≫= vc))) as [[-> [x Ex]]|Hno].
    + rewrite decide_True, Ex by done. cbn. apply Hset. apply bind_Some in Ex as (v & Ha & Hv). exists a, v. eauto.
    + rewrite Hkeep.
      * rewrite H3 by done. destruct (decide (n' = n)) as [->|]; [|done].
        destruct (N !! a ≫= vc); [by destruct Hno|done].
      * intros x (a' & v & Ha & [[Ek _]|[Ek Hv]]); [done|]. apply class_key_inj in Ek as [-> ->]; [|done|done].
        apply Hno. split; [done|]. rewrite Ha. cbn. by eexists.
  - intros k Hk. rewrite <- H4 by done. apply Hc. intros x (a' & v & _ & [[-> _]|[-> _]]); apply Hk; constructor.
Qed.

(** ** [writeHistory] and [deleteHistory] *)

Definition written (p : option F) : option (option bytes) := (fun v => Some (felt_Bytes v)) <$> p.

Definition deleted {V} (_ : V) : option (option bytes) := Some None.

Lemma changed_by_ext (P Q : bytes -> option bytes -> Prop) m m' :
  (forall k x, P k x <-> Q k x) -> changed_by P m m' -> changed_by Q m m'.
Proof.
  intros E1 Hc k. destruct (Hc k) as [H1 H2]. split.
  - intros x Hx. apply H1. by apply E1.
  - intros Hn. apply H2. intros x Hx. apply (Hn x). by apply E1.
Qed.

(** A loop over the fields of contracts. *)
Lemma wp_fields_loop {V} n (D : gmap F V) (vn vc : V -> option (option bytes)) (f : F * V -> SM unit) fs fn fc m s :
  is_u64 n ->
  (forall a v m1 s1, D !! a = Some v -> holds m1 s1 -> wp (f (a, v)) (fun _ s' => batch_inv d s0 (changed_by (fun k x =>
     k = ContractNonceHistoryAtBlockKey a n /\ vn v = Some x \/ k = ContractClassHashHistoryAtBlockKey a n /\ vc v = Some x) m1) s') s1) ->
  batch_inv d s0 (history_change n fs fn fc m) s ->
  wp (each (map_order D) f) (fun _ s' => batch_inv d s0
    (history_change n fs (fun a => orelse (D !! a ≫= vn) (fn a)) (fun a => orelse (D !! a ≫= vc) (fc a)) m) s') s.
Proof.
  intros Hn Hf (kv & -> & Hk & Hh). eapply wp_mono.
  - eapply (wp_set_loop D _ f (view kv) _); [|exact Hf|by exists kv].
    intros a v a' v' k x x' [[-> _]|[-> _]] [[E1 _]|[E1 _]]; try done.
    + by apply nonce_key_inj in E1 as [-> _].
    + by apply class_key_inj in E1 as [-> _].
  - intros [] s' (kv' & -> & Hk' & Hc). exists kv'. split_and!; [done|done|]. by eapply history_change_fields.
Qed.

Lemma history_change_ext n fs fn fc fs' fn' fc' m m' :
  (forall a j, fs a j = fs' a j) -> (forall a, fn a = fn' a) -> (forall a, fc a = fc' a) ->
  history_change n fs fn fc m m' -> history_change n fs' fn' fc' m m'.
Proof.
  intros Es En Ec [H1 H2 H3 H4]. split; [..|done]; intros.
  - rewrite <- Es. by apply H1.
  - rewrite <- En. by apply H2.
  - rewrite <- Ec. by apply H3.
Qed.

Lemma wp_nonces_loop {V} n (D : gmap F V) (val : V -> option (option bytes)) (f : F * V -> SM unit) fs fn fc m s :
  is_u64 n ->
  (forall a v m1 s1, D !! a = Some v -> holds m1 s1 -> wp (f (a, v)) (fun _ s' => batch_inv d s0
     (changed_by (fun k x => k = ContractNonceHistoryAtBlockKey a n /\ val v = Some x) m1) s') s1) ->
  batch_inv d s0 (history_change n fs fn fc m) s ->
  wp (each (map_order D) f) (fun _ s' => batch_inv d s0
    (history_change n fs (fun a => orelse (D !! a ≫= val) (fn a)) fc m) s') s.
Proof.
  intros Hn Hf Hs. eapply wp_mono; [apply (wp_fields_loop n D val (fun _ => None) f fs fn fc m); [done| |done]|].
  - intros a v m1 s1 Ha Hs1. eapply wp_mono; [by apply Hf|]. intros [] s' (kv & -> & Hk & Hc).
    exists kv. split_and!; [done|done|]. eapply changed_by_ext; [|exact Hc]. naive_solver.
  - intros [] s' (kv & -> & Hk & Hc). exists kv. split_and!; [done|done|]. eapply history_change_ext; [..|exact Hc]; try done.
    intros a. cbv beta. by destruct (D !! a).
Qed.

Lemma wp_classes_loop {V} n (D : gmap F V) (val : V -> option (option bytes)) (f : F * V -> SM unit) fs fn fc m s :
  is_u64 n ->
  (forall a v m1 s1, D !! a = Some v -> holds m1 s1 -> wp (f (a, v)) (fun _ s' => batch_inv d s0
     (changed_by (fun k x => k = ContractClassHashHistoryAtBlockKey a n /\ val v = Some x) m1) s') s1) ->
  batch_inv d s0 (history_change n fs fn fc m) s ->
  wp (each (map_order D) f) (fun _ s' => batch_inv d s0
    (history_change n fs fn (fun a => orelse (D !! a ≫= val) (fc a)) m) s') s.
Proof.
  intros Hn Hf Hs. eapply wp_mono; [apply (wp_fields_loop n D (fun _ => None) val f fs fn fc m); [done| |done]|].
  - intros a v m1 s1 Ha Hs1. eapply wp_mono; [by apply Hf|]. intros [] s' (kv & -> & Hk & Hc).
    exists kv. split_and!; [done|done|]. eapply changed_by_ext; [|exact Hc]. naive_solver.
  - intros [] s' (kv & -> & Hk & Hc). exists kv. split_and!; [done|done|]. eapply history_change_ext; [..|exact Hc]; try done.
    intros a. cbv beta. by destruct (D !! a).
Qed.

(** The loops over the storage. *)
Lemma wp_storage_loop n (S : gmap F (gmap F (option F))) (val : option F -> option (option bytes))
    (g : F -> F * option F -> SM unit) fs fn fc m s :
  is_u64 n ->
  (forall a st j v m1 s1, S !! a = Some st -> st !! j = Some v -> holds m1 s1 ->
     is_Some (val v) /\ wp (g a (j, v)) (fun _ s' => batch_inv d s0
       (changed_by (fun k x => k = ContractStorageHistoryAtBlockKey a j n /\ val v = Some x) m1) s') s1) ->
  batch_inv d s0 (history_change n fs fn fc m) s ->
  wp (each (map_order S) (fun '(a, st) => each (map_order st) (g a))) (fun _ s' => batch_inv d s0
    (history_change n (fun a j => match S !! a ≫= (fun st => st !! j) with Some v => val v | None => fs a j end) fn fc m) s') s.
Proof.
  intros Hn Hg (kv & -> & Hk & Hh). eapply wp_mono.
  - eapply (wp_set_loop S (fun a st k x => exists j v, st !! j = Some v /\
      k = ContractStorageHistoryAtBlockKey a j n /\ val v = Some x) _ (view kv) _).
    + intros a v a' v' k x x' (j & w & _ & -> & _) (j' & w' & _ & E1 & _).
      by apply storage_key_inj in E1 as (-> & _).
    + intros a st m1 s1 Ha Hs1.
      apply (wp_set_loop st (fun j v k x => k = ContractStorageHistoryAtBlockKey a j n /\ val v = Some x)); [|..|done].
      * intros j v j' v' k x x' [-> _] [E1 _]. by apply storage_key_inj in E1 as (_ & -> & _).
      * intros j v m2 s2 Hj Hs2. by apply (Hg a st).
    + by exists kv.
  - intros [] s' (kv' & -> & Hk' & Hc). exists kv'. split_and!; [done|done|].
    eapply history_change_storage; [done|exact Hh|exact Hc|].
    intros a st j v Ha Hj. apply (Hg a st j v (view kv) (set_kv s0 kv) Ha Hj). by exists kv.
Qed.

Lemma wp_put_felt (x : option F) (k : bytes) m s (v : F) :
  x = Some v -> holds m s ->
  wp (v ← deref x; on_batch (kv_put k (felt_Bytes v)) : SM unit) (fun _ s' =>
    batch_inv d s0 (changed_by (fun k' y => k' = k /\ written x = Some y) m) s') s.
Proof.
  intros -> Hs. wp_step. eapply wp_deref; [done|]. eapply wp_mono; [by apply wp_put|].
  intros [] s' (kv & -> & Hk & Hc). exists kv. split_and!; [done|done|]. eapply changed_by_ext; [|exact Hc].
  intros k' y. unfold written. cbn. naive_solver.
Qed.

Section diff.
Variables (n : Z) (diff : StateDiff F).
Hypothesis n_ok : is_u64 n.

Definition written_storage a j : option (option bytes) :=
  match StorageDiffs diff !! a ≫= (fun st => st !! j) with Some v => written v | None => None end.

Lemma wp_writeHistory m s :
  map_Forall (fun _ st => map_Forall (fun _ v => is_Some v) st) (StorageDiffs diff) ->
  map_Forall (fun _ v => is_Some v) (Nonces diff) -> map_Forall (fun _ v => is_Some v) (DeployedContracts diff) ->
  map_Forall (fun _ v => is_Some v) (ReplacedClasses diff) -> holds m s ->
  wp (writeHistory n diff) (fun _ s' => batch_inv d s0 (history_change n written_storage
    (fun a => Nonces diff !! a ≫= written)
    (fun a => orelse (ReplacedClasses diff !! a ≫= written) (DeployedContracts diff !! a ≫= written)) m) s') s.
Proof.
  intros HS HN HD HR Hs. unfold writeHistory. wp_step. eapply wp_mono.
  { apply (wp_storage_loop n (StorageDiffs diff) written (fun a '(j, val) =>
      v ← deref val; on_batch (WriteStorageHistory a j n v)) (fun _ _ => None) (fun _ => None) (fun _ => None) m); [done|..].
    - intros a st j v m1 s1 Ha Hj Hs1. destruct (HS a st Ha j v Hj) as [x ->]. split; [by eexists|].
      by eapply (wp_put_felt _ _ _ _ x).
    - destruct Hs as (kv & -> & Hk & <-). exists kv. split_and!; [done|done|apply history_change_refl]. }
  intros [] s1 H1. wp_step. eapply wp_mono.
  { eapply (wp_nonces_loop n (Nonces diff) written); [done| |exact H1].
    intros a v m1 s2 Ha Hs2. destruct (HN a v Ha) as [x ->]. by apply (wp_put_felt _ _ _ _ x). }
  intros [] s2 H2. wp_step. eapply wp_mono.
  { eapply (wp_classes_loop n (DeployedContracts diff) written); [done| |exact H2].
    intros a v m1 s3 Ha Hs3. destruct (HD a v Ha) as [x ->]. by apply (wp_put_felt _ _ _ _ x). }
  intros [] s3 H3. eapply wp_mono.
  { eapply (wp_classes_loop n (ReplacedClasses diff) written); [done| |exact H3].
    intros a v m1 s4 Ha Hs4. destruct (HR a v Ha) as [x ->]. by apply (wp_put_felt _ _ _ _ x). }
  intros [] s4 (kv & -> & Hk & Hh). exists kv. split_and!; [done|done|]. eapply history_change_ext; [..|exact Hh].
  - done.
  - intros a. cbv beta. by destruct (Nonces diff !! a ≫= written).
  - intros a. cbv beta. by destruct (ReplacedClasses diff !! a ≫= written), (DeployedContracts diff !! a ≫= written).
Qed.

Lemma wp_delete_entry k m s : holds m s ->
  wp (on_batch (kv_del k) : SM unit) (fun _ s' => batch_inv d s0 (changed_by (fun k' y => k' = k /\ Some None = Some y) m) s') s.
Proof.
  intros Hs. eapply wp_mono; [by apply wp_del|].
  intros [] s' (kv & -> & Hk & Hc). exists kv. split_and!; [done|done|]. eapply changed_by_ext; [|exact Hc]. naive_solver.
Qed.

Definition deleted_storage a j : option (option bytes) :=
  match StorageDiffs diff !! a ≫= (fun st => st !! j) with Some _ => Some None | None => None end.

Lemma wp_deleteHistory m s :
  holds m s ->
  wp (deleteHistory n diff) (fun _ s' => batch_inv d s0 (history_change n deleted_storage
    (fun a => orelse (DeployedContracts diff !! a ≫= deleted) (Nonces diff !! a ≫= deleted))
    (fun a => orelse (DeployedContracts diff !! a ≫= deleted) (ReplacedClasses diff !! a ≫= deleted)) m) s') s.
Proof.
  intros Hs. unfold deleteHistory. wp_step. eapply wp_mono.
  { apply (wp_storage_loop n (StorageDiffs diff) deleted (fun a '(j, _) => on_batch (DeleteStorageHistory a j n))
      (fun _ _ => None) (fun _ => None) (fun _ => None) m); [done|..].
    - intros a st j v m1 s1 Ha Hj Hs1. split; [by eexists|]. by apply wp_delete_entry.
    - destruct Hs as (kv & -> & Hk & <-). exists kv. split_and!; [done|done|apply history_change_refl]. }
  intros [] s1 H1. wp_step. eapply wp_mono.
  { eapply (wp_nonces_loop n (Nonces diff) deleted); [done| |exact H1]. intros a v m1 s2 Ha Hs2. by apply wp_delete_entry. }
  intros [] s2 H2. wp_step. eapply wp_mono.
  { eapply (wp_classes_loop n (ReplacedClasses diff) deleted); [done| |exact H2].
    intros a v m1 s3 Ha Hs3. by apply wp_delete_entry. }
  intros [] s3 H3. eapply wp_mono.
  { eapply (wp_fields_loop n (DeployedContracts diff) deleted deleted); [done| |exact H3].
    intros a v m1 s4 Ha Hs4. wp_step. eapply wp_mono; [by apply wp_delete_entry|]. intros [] s5 (kv1 & -> & Hk1 & Hc1).
    eapply wp_mono; [apply (wp_delete_entry _ (view kv1)); by exists kv1|]. intros [] s6 (kv2 & -> & Hk2 & Hc2).
    exists kv2. split_and!; [done|done|]. intros k. destruct (Hc1 k) as [A1 B1], (Hc2 k) as [A2 B2]. split.
    - intros x [[-> [= <-]]|[-> [= <-]]]; [|by apply A2]. rewrite B2; [by apply A1|]. by intros x [E1 _].
    - intros Hno. rewrite B2, B1; [done|..].
      + intros x [-> E1]. apply (Hno x). by left.
      + intros x [-> E1]. apply (Hno x). by right. }
  intros [] s4 (kv & -> & Hk & Hh). exists kv. split_and!; [done|done|]. eapply history_change_ext; [..|exact Hh].
  - done.
  - intros a. cbv beta. by destruct (DeployedContracts diff !! a), (Nonces diff !! a).
  - intros a. cbv beta. by destruct (ReplacedClasses diff !! a), (DeployedContracts diff !! a).
Qed.

End diff.

End loops.
