(* ===== verification/StateRefine.v ===== *)
(** * Updates implement the specification

    [State_Update] on a state opened on a database that holds a state of the
    specification: with the right roots it leaves the batch with the state
    [apply_update] says, and the database for the next block when the batch is
    written; with a wrong root it returns an error and writes nothing. *)
From stdpp Require Import prelude gmap list.
From Stdlib Require Import ZArith Lia.
From S2P Require Import Prelude Felt FeltArith BitArray BitArrayFacts TrieNode Trie TrieSpec TrieRep.
From S2P Require Import TrieTheorems MemDB MemDBFacts TrieDB TrieDBFacts TrieCommit.
From S2P Require Import Poseidon Transaction StateDiff Block Class State StateUpdate StateTree StateTries.
From S2P Require Import StateObjects StateCommit StateFlush StateHistory.

Local Open Scope Z_scope.

Lemma wpe_step {S E A B} (m : SE S E A) (k : A -> SE S E B) Q R (s : S) :
  wp m (fun x s' => wpe (k x) Q R s') s -> wpe (m ≫= k) Q R s.
Proof. intros Hm. apply wpe_bind. by apply wpe_wp. Qed.

Section refine.
Context {F : Type} `{!FieldElement F} `{!FieldElementLaws F} `{!FieldArith F} `{!HashFns F} `{SV : !Semver}.
Context `{!MapOrder F} `{!MapOrderLaws F} `{!ClassCodec F} `{!NonzeroHashes F}.
Abbreviation object := (stateObject (F:=F)).
Context (kv0 : memory.dbBatch) (r0 : F) (σ : astate F) {Hop : opened kv0 r0 σ}.
Abbreviation rep := (st_rep kv0 r0 σ).
Abbreviation m0 := (default ∅ (memory.db (memory.bdb kv0))).
Implicit Types (a : F) (s : State (F:=F)) (diff : StateDiff F) (defs : gmap F (ClassDefinition F)).

(** ** The new state *)

Lemma set_keys_lookup {V} (f : F -> option V) l (m : gmap F V) a :
  set_keys f l m !! a = if decide (a ∈ l) then f a else m !! a.
Proof.
  unfold set_keys. induction l as [|b l IH]; cbn [foldr].
  - by rewrite decide_False by apply not_elem_of_nil.
  - destruct (decide (a = b)) as [->|Hne].
    + rewrite lookup_partial_alter_eq, decide_True; [done|by left].
    + rewrite lookup_partial_alter_ne, IH by done. destruct (decide (a ∈ l)).
      * by rewrite decide_True by (by right).
      * by rewrite decide_False by (by intros [?|?]%elem_of_cons).
Qed.

Lemma changed_iff diff a :
  a ∈ elements (changed_contracts diff) <->
  is_Some (DeployedContracts diff !! a) \/ is_Some (ReplacedClasses diff !! a) \/
  is_Some (Nonces diff !! a) \/ is_Some (StorageDiffs diff !! a).
Proof. rewrite elem_of_elements. unfold changed_contracts. rewrite !elem_of_union, !elem_of_dom. tauto. Qed.

Lemma base_storage blk diff a c :
  update_ok σ blk diff -> base_contract σ blk diff a = Some c -> ac_storage c = storage_of σ a.
Proof.
  intros Hup. unfold base_contract, storage_of.
  destruct (DeployedContracts diff !! a) as [[h|]|] eqn:Ed.
  - destruct (uo_deployed _ _ _ Hup a _ Ed) as (_ & _ & _ & ->). by intros [= <-].
  - destruct (uo_deployed _ _ _ Hup a _ Ed) as ([] & _). done.
  - destruct (as_contracts σ !! a) as [x|]; [by intros [= ->]|]. destruct (_ && _); [|done]. by intros [= <-].
Qed.

(** The object of an address, when the diff says something about it. *)
Lemma object_at_inv blk a d r n st o :
  object_at σ blk a d r n st = Some o -> exists c, base_at σ blk a d st = Some c /\ o = pre_object a c r n st /\
    (is_Some d \/ is_Some r \/ is_Some n \/ is_Some st).
Proof.
  unfold object_at. destruct (base_at σ blk a d st) as [c|]; [|by destruct d, r, n, st]. intros E.
  exists c. split; [done|]. destruct d, r, n, st; cbn in E; try discriminate E; injection E as <-; eauto 7.
Qed.

Lemma object_at_none blk a d r n st :
  object_at σ blk a d r n st = None ->
  is_Some d \/ is_Some r \/ is_Some n \/ is_Some st -> base_at σ blk a d st = None.
Proof.
  unfold object_at. destruct (base_at σ blk a d st) as [c|]; [|done]. intros E Hs.
  destruct d, r, n, st; cbn in E; try discriminate E. by destruct Hs as [[]|[[]|[[]|[]]]].
Qed.

Lemma changed_record diff a c :
  ac_storage c = storage_of σ a ->
  let o := pre_object a c (ReplacedClasses diff !! a) (Nonces diff !! a) (StorageDiffs diff !! a) in
  new_storage σ a o = ac_storage (change_contract diff a c) /\ new_record σ a o = record_of (change_contract diff a c).
Proof.
  intros Hst o. assert (E : new_storage σ a o = ac_storage (change_contract diff a c)).
  { unfold new_storage, change_contract. cbn [ac_storage]. by rewrite Hst. }
  split; [done|]. unfold new_record, new_root, record_of. by rewrite E.
Qed.

Lemma update_next_state blk diff defs objs classes :
  update_ok σ blk diff ->
  objs_rep σ blk objs (DeployedContracts diff) (ReplacedClasses diff) (Nonces diff) (StorageDiffs diff) ->
  (forall h, classes !! h = if decide (is_Some (as_classes σ !! h)) then None else Some <$> defs !! h) ->
  next_state σ blk objs (as_leaves (apply_update σ blk diff defs)) classes (apply_update σ blk diff defs).
Proof.
  intros Hup Ho Hcl. split; [|done|].
  - intros a. rewrite Ho. cbn [apply_update as_contracts]. rewrite set_keys_lookup.
    destruct (object_at σ blk a (DeployedContracts diff !! a) (ReplacedClasses diff !! a) (Nonces diff !! a)
      (StorageDiffs diff !! a)) as [o|] eqn:Eo; cbn [fmap option_fmap option_map].
    + apply object_at_inv in Eo as (c & Hb & -> & Hin). rewrite <- base_at_contract in Hb.
      rewrite decide_True by (by apply changed_iff).
      destruct (changed_record diff a c (base_storage blk diff a c Hup Hb)) as [Est Er].
      unfold changed_contract, purged, new_root, purge. rewrite Hb, Est, Er. cbn [mbind option_bind].
      destruct (IsSystemContract a && bool_decide (map_root Pedersen (ac_storage (change_contract diff a c)) = felt_Zero));
        [reflexivity|]. exists (change_contract diff a c). split_and!; reflexivity.
    + destruct (decide (a ∈ elements (changed_contracts diff))) as [Hin|]; [|done].
      apply changed_iff in Hin. apply object_at_none in Eo; [|done]. rewrite <- base_at_contract in Eo.
      unfold changed_contract. rewrite Eo. cbn. unfold base_contract in Eo.
      destruct (DeployedContracts diff !! a) as [[]|]; [done|..]; by destruct (as_contracts σ !! a).
  - intros h. cbn [apply_update as_classes]. rewrite Hcl. destruct (as_classes σ !! h) as [c|] eqn:Ec.
    + rewrite decide_True by (by eexists). by apply lookup_union_Some_l.
    + rewrite decide_False by (by intros []). rewrite lookup_union_r, lookup_fmap by done. by destruct (defs !! h).
Qed.

(** ** The objects *)

Lemma system_contract_ok a : IsSystemContract a = true -> a ≠ felt_Zero /\ key_ok a.
Proof.
  assert (Hv : forall n, 0 < n < 2 ^ 64 -> (felt_of n : F) ≠ felt_Zero /\ key_ok (felt_of n : F)).
  { intros n Hn. unfold key_ok. rewrite felt_of_u64_val by lia. split; [|lia].
    intros E. apply (f_equal felt_val) in E. rewrite felt_of_u64_val, felt_Zero_val in E; lia. }
  unfold IsSystemContract. intros [->%bool_decide_eq_true_1| ->%bool_decide_eq_true_1]%orb_true_iff; by apply Hv.
Qed.

Lemma base_key_ok blk diff a c :
  update_ok σ blk diff -> base_contract σ blk diff a = Some c -> a ≠ felt_Zero /\ key_ok a.
Proof.
  intros Hup. unfold base_contract. destruct (DeployedContracts diff !! a) as [h|] eqn:Ed.
  - by destruct (uo_deployed _ _ _ Hup a h Ed) as (_ & ? & ? & _).
  - destruct (as_contracts σ !! a) as [x|] eqn:Ex.
    + by destruct (so_contracts _ (op_ok (kv0:=kv0) (r0:=r0)) a x Ex) as (? & ? & _).
    + destruct (IsSystemContract a) eqn:Es; [|done]. intros _. by apply system_contract_ok.
Qed.

Lemma update_objects blk diff objs :
  update_ok σ blk diff ->
  objs_rep σ blk objs (DeployedContracts diff) (ReplacedClasses diff) (Nonces diff) (StorageDiffs diff) ->
  objects_ok objs /\ map_Forall (fun a _ => key_ok a) objs.
Proof.
  intros Hup Ho.
  assert (H : forall a p, objs !! a = Some p -> exists o c, p = Some o /\
    o = pre_object a c (ReplacedClasses diff !! a) (Nonces diff !! a) (StorageDiffs diff !! a) /\
    a ≠ felt_Zero /\ key_ok a).
  { intros a p Ha. rewrite Ho in Ha. apply fmap_Some in Ha as (o & Eo & ->).
    apply object_at_inv in Eo as (c & Hb & -> & _). rewrite <- base_at_contract in Hb.
    destruct (base_key_ok _ _ _ _ Hup Hb). by eexists _, c. }
  split; intros a p Ha; destruct (H a p Ha) as (o & c & -> & -> & Hz & Hk); [|done].
  intros o [= <-]. split; cbn [pre_object so_addr so_storageTrie so_dirtyStorage]; try done.
  destruct (StorageDiffs diff !! a) as [st|] eqn:Es; cbn; [|apply map_Forall_empty].
  by apply (uo_storage _ _ _ Hup a st).
Qed.

(** ** The declared classes *)

Lemma HasClass_spec h : HasClass (F:=F) (memory.bdb kv0) h = Ok (bool_decide (is_Some (as_classes σ !! h))).
Proof.
  unfold HasClass, memory.Has. pose proof (ds_class _ _ (op_held (kv0:=kv0) (σ:=σ)) h) as E.
  destruct (op_open (kv0:=kv0)) as [m Em]. rewrite Em in *. cbn in E. cbn. do 2 f_equal.
  apply bool_decide_ext. by rewrite E, fmap_is_Some.
Qed.

Lemma wp_new_classes_list (l : list (F * ClassDefinition F)) s :
  st_kv s = kv0 -> NoDup l.*1 ->
  wp (new_classes l) (fun m s' => s' = s /\ forall h,
    m !! h = if decide (is_Some (as_classes σ !! h)) then None else Some <$> (list_to_map l : gmap F _) !! h) s.
Proof.
  intros Hk. induction l as [|[h c] l IH]; intros Hd; cbn [new_classes].
  { wp_step. split; [done|]. intros h. rewrite !lookup_empty. by case_decide. }
  apply NoDup_cons in Hd as [Hni Hd]. unfold from_disk. wp_step. wp_step. wp_step.
  eapply wp_lift; [unfold st_disk; by rewrite Hk, HasClass_spec|]. wp_step.
  eapply wp_mono; [by apply IH|]. intros m s' [-> Hm]. wp_step. split; [done|]. intros h'.
  cbn [list_to_map foldr uncurry fst snd]. destruct (decide (h' = h)) as [->|Hne].
  - rewrite lookup_insert_eq. case_bool_decide as Hc.
    + rewrite Hm. by destruct (decide _).
    + rewrite lookup_insert_eq. by destruct (decide _).
  - rewrite lookup_insert_ne by done. case_bool_decide; [done|]. by rewrite lookup_insert_ne.
Qed.

Lemma wp_new_classes defs s :
  st_kv s = kv0 ->
  wp (new_classes (map_order defs)) (fun m s' => s' = s /\ forall h,
    m !! h = if decide (is_Some (as_classes σ !! h)) then None else Some <$> defs !! h) s.
Proof.
  intros Hk.
  assert (Hd : NoDup (map_order defs).*1) by (rewrite map_order_perm; apply NoDup_fst_map_to_list).
  eapply wp_mono; [by apply wp_new_classes_list|]. intros m s' [-> Hm]. split; [done|]. intros h. rewrite Hm.
  rewrite (list_to_map_proper (map_order defs) (map_to_list defs)) by (done || apply map_order_perm).
  by rewrite list_to_map_to_list.
Qed.

(** ** The update *)

Lemma not_history_key n b k : state_bucket b = true -> head k = Some (bucket_byte b) -> ~ history_key (F:=F) n k.
Proof.
  intros Hb Hk Hh. destruct Hh.
  - by rewrite (head_bucket b contractStorageHistory _ Hk eq_refl) in Hb.
  - by rewrite (head_bucket b contractNonceHistory _ Hk eq_refl) in Hb.
  - by rewrite (head_bucket b contractClassHashHistory _ Hk eq_refl) in Hb.
Qed.

Lemma db_state_history m m' σ' n :
  (forall k, ~ history_key (F:=F) n k -> m' !! k = m !! k) -> db_state m σ' -> db_state m' σ'.
Proof.
  intros Hk [H1 H2 H3 H4 H5]. split.
  - intros a. rewrite Hk; [apply H1|by apply (not_history_key n contract)].
  - eapply db_holds_ext; [|exact H2]. intros p lf _. apply Hk. by apply (not_history_key n classTrie).
  - eapply db_holds_ext; [|exact H3]. intros p lf _. apply Hk. by apply (not_history_key n contractTrieContract).
  - intros a Ha. eapply db_holds_ext; [|by apply H4]. intros p lf _. apply Hk. by apply (not_history_key n contractTrieStorage).
  - intros h. rewrite Hk; [apply H5|by apply (not_history_key n class)].
Qed.

Lemma update_pointers blk diff : update_ok σ blk diff ->
  map_Forall (fun _ st => map_Forall (fun _ v => is_Some v) st) (StorageDiffs diff) /\
  map_Forall (fun _ v => is_Some v) (Nonces diff) /\ map_Forall (fun _ v => is_Some v) (DeployedContracts diff) /\
  map_Forall (fun _ v => is_Some v) (ReplacedClasses diff).
Proof.
  intros Hup. split_and!.
  - intros a st Ha k v Hk. destruct (uo_storage _ _ _ Hup a st Ha) as [_ Hst]. by destruct (Hst k v Hk).
  - intros a v Ha. by destruct (uo_nonces _ _ _ Hup a v Ha).
  - intros a v Ha. by destruct (uo_deployed _ _ _ Hup a v Ha).
  - intros a v Ha. by destruct (uo_replaced _ _ _ Hup a v Ha).
Qed.

(** The entries a block adds to the history. *)
Definition block_history (blk : Z) diff : gmap bytes bytes -> gmap bytes bytes -> Prop :=
  history_change blk (written_storage diff) (fun a => Nonces diff !! a ≫= written)
    (fun a => orelse (ReplacedClasses diff !! a ≫= written) (DeployedContracts diff !! a ≫= written)).

(** What a successful update leaves in the batch. *)
Definition updated_batch (blk : Z) diff (σ' : astate F) kv : Prop :=
  kv_open (KVLaws := batch_laws (memory.bdb kv0)) kv /\ db_state (view kv) σ' /\
  exists m1, (forall k, outside k -> m1 !! k = m0 !! k) /\ block_history blk diff m1 (view kv).

Lemma wpe_State_Update header diff defs skip old new new' :
  batch_usable kv0 -> view kv0 = m0 -> update_ok σ (hd_Number header) diff ->
  spec_root σ (hd_ProtocolVersion header) = (Ok old : outcome (stateError F) F) ->
  let σ' := apply_update σ (hd_Number header) diff defs in
  spec_root σ' (hd_ProtocolVersion header) = (Ok new' : outcome (stateError F) F) ->
  wpe (State_Update header (mkUpdate (Some new) (Some old) (Some diff)) defs skip)
    (fun _ s' => (skip = true \/ new = new') /\ updated_batch (hd_Number header) diff σ' (st_kv s'))
    (fun e s' => skip = false /\ new ≠ new' /\ e = ErrCommitmentMismatch /\ st_kv s' = kv0) (New r0 kv0).
Proof.
  intros Hu Hv Hup Hold σ' Hnew. unfold State_Update. cbn [up_OldRoot up_StateDiff up_NewRoot].
  set (blk := hd_Number header) in *. set (pv := hd_ProtocolVersion header) in *.
  apply wpe_step. eapply wp_mono; [by apply (wp_verifyComm kv0 r0 σ)|]. intros [] s1 H1.
  apply wpe_step. eapply wp_mono; [apply wp_new_classes, H1|]. intros classes s' [-> Hcl].
  apply wpe_step. eapply wp_deref; [done|].
  apply wpe_step. eapply wp_mono; [apply (wp_updateClassTrie kv0 r0 σ); [exact H1|apply op_ok|apply Hup|apply Hup]|].
  intros [] s2 H2. apply wpe_step. eapply wp_mono; [apply (wp_deploy kv0 r0 σ); [exact H2|]|].
  { intros a h Ha. by destruct (uo_deployed _ _ _ Hup a h Ha) as (? & _ & _ & ?). }
  intros [] s3 H3. apply wpe_step. eapply wp_mono; [by apply (wp_updateContracts kv0 r0 σ)|].
  intros [] s4 (objs & H4 & Ho). destruct (update_objects _ _ _ Hup Ho) as [Hok Hkeys].
  pose proof (update_next_state blk diff defs objs classes Hup Ho Hcl) as Hn. fold σ' in Hn.
  apply wpe_step. eapply wp_mono; [apply (wp_commit kv0 r0 σ s4 _ objs pv new' H4 Hok Hkeys)|].
  { rewrite <- (next_contract_leaves σ _ _ _ _ _ Hn). exact Hnew. }
  intros [comm su] s5 [Ec Hp]. cbn [fst snd] in *. subst comm.
  assert (Hrest : skip = true \/ new = new' ->
    wp (flush blk su classes;; writeHistory blk diff)
      (fun _ s' => (skip = true \/ new = new') /\ updated_batch blk diff σ' (st_kv s')) s5).
  { intros Hor. wp_step. eapply wp_mono; [by apply (wp_flush kv0 r0 σ blk su classes s5 _ objs σ' Hp Hn)|].
    intros [] s6 (kv1 & -> & Hk1 & Hd1 & Hout). destruct (update_pointers _ _ Hup) as (P1 & P2 & P3 & P4).
    eapply wp_mono; [apply (wp_writeHistory (memory.bdb kv0) s5 blk diff (uo_block _ _ _ Hup) (view kv1)); try done; by exists kv1|].
    intros [] s7 (kv2 & -> & Hk2 & Hh). split; [done|]. split_and!; [done| |].
    - eapply db_state_history; [apply (hc_other _ _ _ _ _ _ Hh)|done].
    - by exists (view kv1). }
  destruct skip; cbn [negb].
  - apply wpe_step. wp_step. apply wpe_wp. apply Hrest. by left.
  - apply wpe_bind. apply wpe_step. eapply wp_deref; [done|].
    destruct (bool_decide_reflect (new' = new)) as [->|Hne]; cbn [negb].
    + apply wpe_wp. wp_step. apply wpe_wp, Hrest. by right.
    + split_and!; [done|by intros ->|done|]. apply (cp_kv _ _ _ _ _ _ _ Hp).
Qed.

(** ** The next state is one of the specification again *)

Lemma change_contract_ok diff blk a c :
  update_ok σ blk diff -> contract_ok a c -> contract_ok a (change_contract diff a c).
Proof.
  intros Hup (Hz & Hk & Hh & Hs). do 3 (split; [done|]). apply write_ok; [done|]. apply some_keys_ok.
  destruct (StorageDiffs diff !! a) as [st|] eqn:Es; cbn; [|apply map_Forall_empty].
  by apply (uo_storage _ _ _ Hup a st).
Qed.

Lemma base_contract_ok diff blk a c :
  update_ok σ blk diff -> base_contract σ blk diff a = Some c -> contract_ok a c.
Proof.
  intros Hup Hb. destruct (base_key_ok _ _ _ _ Hup Hb) as [Hz Hk]. unfold base_contract in Hb.
  assert (Hnew : forall h, contract_ok a (mkAccount h felt_Zero blk ∅)).
  { intros h. do 2 (split; [done|]). split; [apply (uo_block _ _ _ Hup)|apply map_ok_empty]. }
  destruct (DeployedContracts diff !! a) as [[h|]|] eqn:Ed; [by injection Hb as <-|..];
    (destruct (as_contracts σ !! a) as [x|] eqn:Ex;
     [injection Hb as <-; by apply (so_contracts _ (op_ok (kv0:=kv0) (r0:=r0)))|]);
    (destruct (_ && _); [by injection Hb as <-|done]).
Qed.

Lemma apply_update_ok blk diff defs : update_ok σ blk diff -> state_ok (apply_update σ blk diff defs).
Proof.
  intros Hup. split.
  - intros a c. cbn [apply_update as_contracts]. rewrite set_keys_lookup.
    destruct (decide _); [|apply (so_contracts _ (op_ok (kv0:=kv0) (r0:=r0)))].
    unfold changed_contract, purge. intros (b & Hb & Hc)%bind_Some. destruct (_ && _); [done|]. injection Hc as <-.
    eapply change_contract_ok; [done|]. by eapply base_contract_ok.
  - apply write_ok; [apply write_ok; [apply op_ok|by apply declared_keys_ok, Hup]|]. apply fmap_keys_ok, Hup.
Qed.

End refine.

(** ** The theorems *)

Section theorems.
Context {F : Type} `{!FieldElement F} `{!FieldElementLaws F} `{!FieldArith F} `{!HashFns F} `{SV : !Semver}.
Context `{!MapOrder F} `{!MapOrderLaws F} `{!ClassCodec F} `{!NonzeroHashes F}.

(** The batch of a block. *)
Definition fresh (d : memory.Database) : memory.dbBatch := memory.mkDbBatch d memory.newBatch.

(** An update that succeeds, its batch written to the database. *)
Lemma update_written (d : memory.Database) (r0 : F) σ header diff defs skip old new new' :
  opened (fresh d) r0 σ -> update_ok σ (hd_Number header) diff ->
  spec_root σ (hd_ProtocolVersion header) = (Ok old : outcome (stateError F) F) ->
  spec_root (apply_update σ (hd_Number header) diff defs) (hd_ProtocolVersion header) =
    (Ok new' : outcome (stateError F) F) ->
  skip = true \/ new = new' -> new' ≠ felt_Zero ->
  exists s kv m0 m1 m2,
    State_Update header (mkUpdate (Some new) (Some old) (Some diff)) defs skip (StateUpdate.New r0 (fresh d)) = (Ok tt, s) /\
    st_disk s = d /\ memory.batch_Write (st_kv s) = (Ok tt, kv) /\
    opened (fresh (memory.bdb kv)) new' (apply_update σ (hd_Number header) diff defs) /\
    memory.db d = Some m0 /\ memory.db (memory.bdb kv) = Some m2 /\
    (forall k, outside k -> m1 !! k = m0 !! k) /\ block_history (hd_Number header) diff m1 m2.
Proof.
  intros Hop Hup Hold Hnew Hor Hz. assert (Hd := op_open (kv0 := fresh d)). destruct Hd as [m Hm]. cbn in Hm.
  pose proof (wpe_State_Update (fresh d) r0 σ header diff defs skip old new new' (newBatch_usable d) eq_refl Hup Hold Hnew) as Hw.
  destruct (State_Update _ _ _ _ _) as [o s] eqn:E. eapply wpe_elim in Hw; [|exact E].
  destruct Hw as [([] & -> & _ & [Hu Hb] & Hst & m1 & Hout & Hh)|(e & -> & -> & Hne & _)]; [|by destruct Hor].
  cbn [memory.bdb fresh] in Hb.
  assert (Hw : wp memory.batch_Write (fun _ kv => memory.db (memory.bdb kv) = Some (view (st_kv s))) (st_kv s)).
  { eapply wp_mono; [apply (wp_batch_Write _ m); [done|by rewrite Hb]|]. intros [] kv [Ekv _]. by rewrite Ekv. }
  apply wp_elim in Hw as ([] & kv & Ew & Hkv). exists s, kv, m, m1, (view (st_kv s)).
  do 3 (split; [done|]). split_and!; [|done|done| |done].
  - split; [by eexists|cbn; by rewrite Hkv|by apply (apply_update_ok (fresh d) r0)|done].
  - intros k Hk. rewrite (Hout k Hk). cbn. by rewrite Hm.
Qed.

(** C26: an update of the state implements the specification.  On a database that
    holds a state, a state opened at its root with a new batch applies the update
    of a block, with the right roots, without an error, whatever the order in
    which Go iterates over the maps; writing the batch gives a database that holds
    the state after the update (contracts with their classes, nonces and storage,
    the class trie, the declared classes, and no trace of removed contracts), and
    on which the state of the next block can be opened at the new root in the same
    way.  (Tries are not read at root zero, so the new root must not be zero.) *)
Theorem update_refines (d : memory.Database) (r0 : F) σ header diff defs skip old new new' :
  opened (fresh d) r0 σ -> update_ok σ (hd_Number header) diff ->
  spec_root σ (hd_ProtocolVersion header) = (Ok old : outcome (stateError F) F) ->
  spec_root (apply_update σ (hd_Number header) diff defs) (hd_ProtocolVersion header) =
    (Ok new' : outcome (stateError F) F) ->
  skip = true \/ new = new' -> new' ≠ felt_Zero ->
  exists s kv,
    State_Update header (mkUpdate (Some new) (Some old) (Some diff)) defs skip (StateUpdate.New r0 (fresh d)) = (Ok tt, s) /\
    st_disk s = d /\ memory.batch_Write (st_kv s) = (Ok tt, kv) /\
    opened (fresh (memory.bdb kv)) new' (apply_update σ (hd_Number header) diff defs).
Proof.
  intros Hop Hup Hold Hnew Hor Hz.
  destruct (update_written d r0 σ header diff defs skip old new new' Hop Hup Hold Hnew Hor Hz)
    as (s & kv & _ & _ & _ & E1 & E2 & E3 & E4 & _). by exists s, kv.
Qed.

(** the roots of an update are checked, and an update with a wrong new root
    changes nothing: it returns the error of a mismatch exactly when the root is
    to be verified and is not the commitment of the state after the update, and
    then the batch is the one it was. *)
Theorem wrong_root_writes_nothing (d : memory.Database) (r0 : F) σ header diff defs skip old new new' :
  opened (fresh d) r0 σ -> update_ok σ (hd_Number header) diff ->
  spec_root σ (hd_ProtocolVersion header) = (Ok old : outcome (stateError F) F) ->
  spec_root (apply_update σ (hd_Number header) diff defs) (hd_ProtocolVersion header) =
    (Ok new' : outcome (stateError F) F) ->
  exists o s, State_Update header (mkUpdate (Some new) (Some old) (Some diff)) defs skip (StateUpdate.New r0 (fresh d)) = (o, s) /\
    (o = Ok tt \/ o = Err ErrCommitmentMismatch) /\
    (o = Err ErrCommitmentMismatch <-> skip = false /\ new ≠ new') /\
    (o = Err ErrCommitmentMismatch -> st_kv s = fresh d).
Proof.
  intros Hop Hup Hold Hnew.
  pose proof (wpe_State_Update (fresh d) r0 σ header diff defs skip old new new' (newBatch_usable d) eq_refl Hup Hold Hnew) as Hw.
  destruct (State_Update _ _ _ _ _) as [o s] eqn:E. eapply wpe_elim in Hw; [|exact E].
  exists o, s. split; [done|].
  destruct Hw as [([] & -> & Hor & _)|(e & -> & Hs & Hne & -> & Hk)]; split_and!; try done; [by left| |by right].
  split; [done|]. intros [-> Hne]. by destruct Hor.
Qed.

End theorems.
