(* ===== verification/StateErrors.v ===== *)
(** * Errors of the state

    An update or a revert that returns an error has written nothing: everything
    before [flush] leaves the batch alone, and [flush] and the history return no
    error on a batch that is open.  Nothing is assumed about the state, its tries
    or the arguments. *)
From stdpp Require Import prelude gmap list.
From Stdlib Require Import ZArith Lia.
From S2P Require Import Prelude Felt FeltArith BitArray TrieNode Trie MemDB MemDBFacts TrieDB TrieDBFacts.
From S2P Require Import Poseidon Transaction StateDiff Block Class State StateUpdate StateTries.

Local Open Scope Z_scope.

Section errors.
Context {F : Type} `{!FieldElement F} `{!FieldElementLaws F} `{!FieldArith F} `{!HashFns F} `{SV : !Semver}.
Context `{!MapOrder F} `{!ClassCodec F}.
Abbreviation SM := (SE (State (F:=F)) (stateError F)).
Implicit Types (s : State (F:=F)).

(** ** Computations that leave the batch alone *)

Definition keeps {A} (m : SM A) : Prop := forall s o s', m s = (o, s') -> st_kv s' = st_kv s.

Lemma kept_bind {A B} (m : SM A) (k : A -> SM B) : keeps m -> (forall a, keeps (k a)) -> keeps (m ≫= k).
Proof.
  intros Hm Hk s o s'. unfold mbind, SE_bind. destruct (m s) as [o1 s1] eqn:E1. pose proof (Hm _ _ _ E1) as H1.
  destruct o1; [|by intros [= _ <-]..]. intros E2. rewrite <- H1. by eapply Hk.
Qed.

Lemma kept_ret {A} (a : A) : keeps (mret a).
Proof. by intros s o s' [= _ <-]. Qed.

Lemma keeps_fail {A} e : keeps (fail e : SM A).
Proof. by intros s o s' [= _ <-]. Qed.

Lemma keeps_lift {A} (x : outcome (stateError F) A) : keeps (lift x).
Proof. by intros s o s' [= _ <-]. Qed.

Lemma keeps_deref {A} (x : option A) : keeps (deref x).
Proof. destruct x; by intros s o s' [= _ <-]. Qed.

Lemma kept_get : keeps get_state.
Proof. by intros s o s' [= _ <-]. Qed.

Lemma keeps_modify (g : State -> State) : (forall s, st_kv (g s) = st_kv s) -> keeps (modify g).
Proof. intros Hg s o s' [= _ <-]. apply Hg. Qed.

Lemma keeps_each {A} (l : list A) (f : A -> SM unit) : (forall x, keeps (f x)) -> keeps (each l f).
Proof. intros Hf. induction l as [|x l IH]; cbn [each]; [apply kept_ret|]. by apply kept_bind. Qed.

Lemma keeps_attempt {A} (m : SM A) : keeps m -> keeps (attempt m).
Proof.
  intros Hm s o s'. unfold attempt. destruct (m s) as [o1 s1] eqn:E1. pose proof (Hm _ _ _ E1) as H1.
  destruct o1; by intros [= _ <-].
Qed.

Lemma keeps_set_object a p : keeps (set_object (F:=F) a p).
Proof. by apply keeps_modify. Qed.

Lemma keeps_from_disk {A} (f : disk -> outcome (stateError F) A) : keeps (from_disk f).
Proof. apply kept_bind; [apply kept_get|]. intros s. apply keeps_lift. Qed.

Lemma keeps_on_classTrie {A} (m : option (dbReader (F:=F)) -> SE Trie.Trie (trieError (F:=F)) A) : keeps (on_classTrie m).
Proof.
  intros s o s'. unfold on_classTrie, mbind, SE_bind, get_state. destruct (st_classTrie s) as [t|]; cbn; [|by intros [= _ <-]].
  destruct (m _ t) as [r t']. cbn. by intros [= _ <-].
Qed.

Lemma keeps_on_contractTrie {A} (m : option (dbReader (F:=F)) -> SE Trie.Trie (trieError (F:=F)) A) : keeps (on_contractTrie m).
Proof.
  intros s o s'. unfold on_contractTrie, mbind, SE_bind, get_state. destruct (st_contractTrie s) as [t|]; cbn; [|by intros [= _ <-]].
  destruct (m _ t) as [r t']. cbn. by intros [= _ <-].
Qed.

Lemma keeps_on_object {A} a (m : disk -> F -> SE (stateObject (F:=F)) (stateError F) A) : keeps (on_object a m).
Proof.
  intros s o s'. unfold on_object, mbind, SE_bind, get_state.
  destruct (default None (st_objects s !! a)) as [ob|]; cbn; [|by intros [= _ <-]].
  destruct (m _ _ ob) as [r ob']. cbn. by intros [= _ <-].
Qed.

End errors.

(** One step through a computation that leaves the batch alone. *)
Create HintDb keeps.
#[export] Hint Resolve kept_ret keeps_fail keeps_lift keeps_deref kept_get keeps_set_object keeps_from_disk
  keeps_on_classTrie keeps_on_contractTrie keeps_on_object : keeps.

Ltac keeps_step :=
  match goal with
  | |- keeps (_ ≫= _) => apply kept_bind; [|intros ?]
  | |- keeps (each _ _) => apply keeps_each; intros ?
  | |- keeps (attempt _) => apply keeps_attempt
  | |- keeps (modify _) => by apply keeps_modify
  | |- keeps (match ?x with _ => _ end) => destruct x
  | |- keeps _ => solve [auto with keeps]
  end.

Ltac keeps := repeat keeps_step.

Section updates.
Context {F : Type} `{!FieldElement F} `{!FieldElementLaws F} `{!FieldArith F} `{!HashFns F} `{SV : !Semver}.
Context `{!MapOrder F} `{!ClassCodec F}.
Abbreviation SM := (SE (State (F:=F)) (stateError F)).

Lemma keeps_verifyComm c pv : keeps (verifyComm (F:=F) c pv).
Proof. unfold verifyComm, Commitment, ContractTrie, ClassTrie. keeps. Qed.

Lemma keeps_getStateObject a : keeps (getStateObject (F:=F) a).
Proof. unfold getStateObject. keeps. Qed.

Lemma keeps_updateContracts n (diff : StateDiff F) : keeps (updateContracts n diff).
Proof.
  pose proof keeps_getStateObject.
  unfold updateContracts, updateContractClasses, updateContractNonces, updateContractStorage. keeps.
Qed.

Lemma keeps_updateClassTrie a b c : keeps (updateClassTrie (F:=F) a b c).
Proof. unfold updateClassTrie. keeps. Qed.

Lemma keeps_new_classes l : keeps (new_classes (F:=F) l).
Proof. induction l as [|[h c] l IH]; cbn [new_classes]; keeps. Qed.

Lemma keeps_revert_classes n l : keeps (revert_classes (F:=F) n l).
Proof. induction l as [|p l IH]; cbn [revert_classes]; keeps. Qed.

Lemma keeps_commit_objects keys merged err : keeps (commit_objects (F:=F) keys merged err).
Proof.
  revert merged err. induction keys as [|a keys IH]; intros merged err; cbn [commit_objects]; unfold commit_object; keeps.
Qed.

Lemma keeps_commit pv : keeps (commit (F:=F) pv).
Proof. pose proof keeps_commit_objects. unfold commit, put_commitment. keeps. Qed.

(** ** Computations without errors on an open batch *)

Definition no_error {A} (m : SM A) : Prop := forall s o s',
  batch_usable (st_kv s) -> m s = (o, s') -> (forall e, o ≠ Err e) /\ (forall a, o = Ok a -> batch_usable (st_kv s')).

Lemma no_error_bind {A B} (m : SM A) (k : A -> SM B) : no_error m -> (forall a, no_error (k a)) -> no_error (m ≫= k).
Proof.
  intros Hm Hk s o s' Hs. unfold mbind, SE_bind. destruct (m s) as [o1 s1] eqn:E1. destruct (Hm _ _ _ Hs E1) as [He Ha].
  destruct o1 as [a|e| |]; [|by destruct (He e)|by intros [= <- _]..]. intros E2. eapply Hk; [by apply (Ha a)|exact E2].
Qed.

Lemma no_error_ret {A} (a : A) : no_error (mret a).
Proof. intros s o s' Hs [= <- <-]. done. Qed.

Lemma no_error_deref {A} (x : option A) : no_error (deref x).
Proof. destruct x; intros s o s' Hs [= <- <-]; done. Qed.

Lemma no_error_get : no_error get_state.
Proof. intros s o s' Hs [= <- <-]. done. Qed.

Lemma no_error_each {A} (l : list A) (f : A -> SM unit) : (forall x, no_error (f x)) -> no_error (each l f).
Proof. intros Hf. induction l as [|x l IH]; cbn [each]; [apply no_error_ret|]. by apply no_error_bind. Qed.

Lemma no_error_on_batch {A} (x : SE memory.dbBatch dbError A) :
  (forall kv, batch_usable kv -> wp x (fun _ kv' => batch_usable kv') kv) -> no_error (on_batch x).
Proof.
  intros Hx s o s' Hs E1. specialize (Hx _ Hs). apply wp_elim in Hx as (a & kv' & E2 & Hk).
  unfold on_batch, zoom in E1. rewrite E2 in E1. injection E1 as <- <-. done.
Qed.

Lemma wp_batch_put (k v : bytes) kv : batch_usable kv -> wp (kv_put k v) (fun _ kv' => batch_usable kv') kv.
Proof.
  intros Hk. eapply wp_mono; [by apply (kv_put_spec (KVLaws := batch_laws (memory.bdb kv)))|]. by intros [] kv' [[? _] _].
Qed.

Lemma wp_batch_del (k : bytes) kv : batch_usable kv -> wp (kv_del k) (fun _ kv' => batch_usable kv') kv.
Proof.
  intros Hk. eapply wp_mono; [by apply (kv_del_spec (KVLaws := batch_laws (memory.bdb kv)))|]. by intros [] kv' [[? _] _].
Qed.

Lemma wp_batch_delrange (a b : bytes) kv : batch_usable kv -> wp (kv_delrange a b) (fun _ kv' => batch_usable kv') kv.
Proof.
  intros Hk. eapply wp_mono; [by apply (kv_delrange_spec (KVLaws := batch_laws (memory.bdb kv)))|]. by intros [] kv' [[? _] _].
Qed.

Lemma wp_batch_nodes b o (nodes : gmap BitArray (TrieNode F)) kv :
  batch_usable kv -> wp (update_nodes node_order b o nodes) (fun _ kv' => batch_usable kv') kv.
Proof.
  intros Hk. apply wp_for_each_inv; [|done]. intros x kv1 H1. unfold updateNode.
  destruct (is_deleted x.2); [by apply wp_batch_del|by apply wp_batch_put].
Qed.

Lemma no_error_flush n su classes : no_error (flush (F:=F) n su classes).
Proof.
  unfold flush. apply no_error_bind; [|intros _; apply no_error_bind; [apply no_error_get|intros s1; apply no_error_bind; [|intros _]]].
  - apply no_error_on_batch. intros kv Hk. unfold raw_Update. wp_step.
    eapply wp_mono; [by apply wp_batch_nodes|]. intros [] kv1 H1. wp_step.
    eapply wp_mono; [by apply wp_batch_nodes|]. intros [] kv2 H2.
    apply wp_for_each_inv; [|done]. intros x kv3 H3. by apply wp_batch_nodes.
  - apply no_error_each. intros [a [o|]]; cbn [flush_contract].
    + apply no_error_on_batch. intros kv Hk. by apply wp_batch_put.
    + apply no_error_bind; [|intros _]; apply no_error_on_batch; intros kv Hk; [by apply wp_batch_del|by apply wp_batch_delrange].
  - apply no_error_each. intros [h [c|]]; cbn [flush_class]; apply no_error_on_batch; intros kv Hk;
      [by apply wp_batch_put|by apply wp_batch_del].
Qed.

Lemma no_error_put_felt (x : option F) (k : F -> bytes) : no_error (v ← deref x; on_batch (kv_put (k v) (felt_Bytes v)) : SM unit).
Proof.
  apply no_error_bind; [apply no_error_deref|]. intros v. apply no_error_on_batch. intros kv Hk. by apply wp_batch_put.
Qed.

Lemma no_error_del k : no_error (on_batch (kv_del k) : SM unit).
Proof. apply no_error_on_batch. intros kv Hk. by apply wp_batch_del. Qed.

Lemma no_error_writeHistory n (diff : StateDiff F) : no_error (writeHistory n diff).
Proof.
  unfold writeHistory.
  repeat (apply no_error_bind; [|intros _]); apply no_error_each; intros [a v].
  - apply no_error_each. intros [j x]. apply (no_error_put_felt x (fun _ => ContractStorageHistoryAtBlockKey a j n)).
  - apply (no_error_put_felt v (fun _ => ContractNonceHistoryAtBlockKey a n)).
  - apply (no_error_put_felt v (fun _ => ContractClassHashHistoryAtBlockKey a n)).
  - apply (no_error_put_felt v (fun _ => ContractClassHashHistoryAtBlockKey a n)).
Qed.

Lemma no_error_deleteHistory n (diff : StateDiff F) : no_error (deleteHistory n diff).
Proof.
  unfold deleteHistory.
  repeat (apply no_error_bind; [|intros _]); apply no_error_each; intros [a v].
  - apply no_error_each. intros [j x]. apply no_error_del.
  - apply no_error_del.
  - apply no_error_del.
  - apply no_error_bind; [|intros _]; apply no_error_del.
Qed.

(** ** The theorem *)

(** An error leaves the batch as it was. *)
Definition error_keeps {A} (m : SM A) : Prop := forall s e s',
  batch_usable (st_kv s) -> m s = (Err e, s') -> st_kv s' = st_kv s.

Lemma keeps_error_keeps {A} (m : SM A) : keeps m -> error_keeps m.
Proof. intros Hm s e s' _ E1. by eapply Hm. Qed.

Lemma no_error_error_keeps {A} (m : SM A) : no_error m -> error_keeps m.
Proof. intros Hm s e s' Hs E1. destruct (Hm _ _ _ Hs E1) as [He _]. by destruct (He e). Qed.

Lemma error_keeps_bind {A B} (m : SM A) (k : A -> SM B) :
  keeps m -> (forall a, error_keeps (k a)) -> error_keeps (m ≫= k).
Proof.
  intros Hm Hk s e s' Hs. unfold mbind, SE_bind. destruct (m s) as [o1 s1] eqn:E1. pose proof (Hm _ _ _ E1) as H1.
  destruct o1; try done; [|by intros [= _ <-]]. intros E2. rewrite <- H1. eapply Hk; [by rewrite H1|exact E2].
Qed.

(** C28: an update or a revert of the state that returns an error has written
    nothing: the batch is what it was, for every state, update and set of classes,
    correct or not, as long as the batch was open. *)
Theorem failed_update_writes_nothing (header : Header F) update defs skip s e s' :
  batch_usable (st_kv s) ->
  (State_Update header update defs skip s = (Err e, s') -> st_kv s' = st_kv s) /\
  (Revert header update s = (Err e, s') -> st_kv s' = st_kv s).
Proof.
  intros Hs. pose proof keeps_verifyComm. pose proof keeps_updateContracts. pose proof keeps_updateClassTrie.
  pose proof keeps_new_classes. pose proof keeps_revert_classes. pose proof keeps_commit. split.
  - assert (Hk : error_keeps (State_Update header update defs skip)); [|intros E1; by eapply Hk].
    unfold State_Update. repeat (apply error_keeps_bind; [try (unfold deploy_contract; by keeps)|intros ?]).
    destruct a5 as [comm su]. apply error_keeps_bind; [keeps|]. intros _. apply no_error_error_keeps.
    apply no_error_bind; [apply no_error_flush|]. intros _. apply no_error_writeHistory.
  - assert (Hk : error_keeps (Revert header update)); [|intros E1; by eapply Hk].
    unfold Revert. repeat (apply error_keeps_bind; [try (unfold revert_migrated; by keeps)|intros ?]).
    destruct a6 as [comm su]. apply error_keeps_bind; [keeps|]. intros r. destruct (negb _).
    + apply keeps_error_keeps. keeps.
    + apply no_error_error_keeps. apply no_error_bind; [apply no_error_flush|]. intros _. apply no_error_deleteHistory.
Qed.

End updates.
