(* ===== verification/StateQuery.v ===== *)
(** * Queries of the history

    [valueAt] and [lastUpdatedBlockNumber] seek in the sorted keys of a prefix:
    they find the latest entry that is not after a block. *)
From stdpp Require Import prelude gmap list sorting.
From Stdlib Require Import ZArith Lia.
From S2P Require Import Prelude Felt FeltArith MemDB MemDBFacts TrieDB TrieDBFacts.
From S2P Require Import Poseidon Transaction StateDiff Block Class ClassFacts State StateTries StateHistory.

Local Open Scope Z_scope.

(** ** The order of keys is the order of blocks *)

Lemma bytes_lt_val a b :
  is_bytes a -> is_bytes b -> length a = length b -> bytes_lt a b <-> be_val a < be_val b.
Proof.
  unfold bytes_lt. intros Ha. revert b. induction Ha as [|x a Hx Ha IH]; intros b Hb Hl.
  { destruct b; [done|done]. }
  destruct Hb as [|y b Hy Hb]; [done|]. injection Hl as Hl. cbn [bytes_Compare]. rewrite !be_val_cons, <- Hl.
  pose proof (be_val_range a Ha). pose proof (be_val_range b Hb) as Hr. rewrite <- Hl in Hr.
  set (w := 256 ^ Z.of_nat (length a)) in *.
  destruct (Z.ltb_spec x y); [split; [nia|lia]|]. destruct (Z.ltb_spec y x); [split; [lia|nia]|].
  assert (x = y) as -> by lia. rewrite IH by done. lia.
Qed.

Lemma block_key_lt pre n n' :
  is_u64 n -> is_u64 n' -> bytes_lt (pre ++ be_bytes 8 n) (pre ++ be_bytes 8 n') <-> n < n'.
Proof.
  intros Hn Hn'. unfold bytes_lt. rewrite bytes_Compare_app.
  pose proof (bytes_lt_val (be_bytes 8 n) (be_bytes 8 n') (be_bytes_range 8 n) (be_bytes_range 8 n')) as H.
  unfold bytes_lt in H. rewrite H by (by rewrite !length_be_bytes). by rewrite !be_val_u64.
Qed.

(** ** Seeking *)

Section query.
Context {F : Type} `{!FieldElement F} `{!FieldElementLaws F}.
Variables (d : memory.Database) (m : gmap bytes bytes) (pre : bytes).
Hypothesis d_open : memory.db d = Some m.
Hypothesis pre_bytes : is_bytes pre.
Hypothesis pre_bound : exists b pre', pre = b :: pre' /\ b < 255.

(** The keys under the prefix end with a block. *)
Hypothesis shape : forall k, is_Some (m !! k) -> HasPrefix k pre = true -> exists n, is_u64 n /\ k = pre ++ be_bytes 8 n.

Abbreviation entry n := (m !! (pre ++ be_bytes 8 n)).

Lemma query_keys k :
  k ∈ memory.iter_keys m pre true <-> exists n, is_u64 n /\ k = pre ++ be_bytes 8 n /\ is_Some (entry n).
Proof.
  rewrite iter_keys_elem. pose proof (UpperBound_exact pre pre_bytes) as Hu.
  destruct (UpperBound pre) as [u|].
  2:{ destruct pre_bound as (b & pre' & -> & Hb). apply Forall_cons in Hu as [-> _]. done. }
  split.
  - intros (Hm & Hp & _). destruct (shape k Hm Hp) as (n & Hn & ->). by exists n.
  - intros (n & Hn & -> & Hm). assert (Hp : HasPrefix (pre ++ be_bytes 8 n) pre = true).
    { apply HasPrefix_spec. by eexists. }
    split_and!; [done|done|]. intros _. cbn.
    assert (Hb : is_bytes (pre ++ be_bytes 8 n)) by (apply Forall_app; split; [done|apply be_bytes_range]).
    specialize (Hu _ Hb). rewrite Hp in Hu. unfold memory.in_range in Hu. by apply andb_true_iff in Hu as [_ ?].
Qed.

(** The keys around the position of a block. *)
Lemma seek_block blk :
  is_u64 blk -> exists i (p : nat), memory.NewIterator d pre true = Ok i /\
    memory.closed i = false /\ memory.keys i = memory.iter_keys m pre true /\
    Forall2 (fun k v => m !! k = Some v) (memory.keys i) (memory.values i) /\
    memory.Seek (pre ++ be_bytes 8 blk) i = (Ok (memory.valid (memory.set_ind i (Z.of_nat p))), memory.set_ind i (Z.of_nat p)) /\
    (p <= length (memory.keys i))%nat /\
    (forall n, is_u64 n -> is_Some (entry n) -> n < blk <-> pre ++ be_bytes 8 n ∈ take p (memory.keys i)) /\
    (forall n, is_u64 n -> is_Some (entry n) -> blk <= n <-> pre ++ be_bytes 8 n ∈ drop p (memory.keys i)).
Proof.
  intros Hb. set (ks := memory.iter_keys m pre true). set (i := memory.mkIter (-1) ks (omap (fun k => m !! k) ks) false).
  destruct (Seek_position i (pre ++ be_bytes 8 blk) eq_refl (iter_keys_sorted m pre true)) as (p & Es & Hd & Hp).
  exists i, p. split_and!; [unfold memory.NewIterator; by rewrite d_open|done|done| |done|done|..].
  - apply iter_values, iter_keys_present.
  - intros n Hn He.
    assert (Hin : pre ++ be_bytes 8 n ∈ ks) by (apply query_keys; by exists n).
    pose proof (iter_keys_sorted m pre true) as Hso. fold ks in Hso. rewrite <- (take_drop p ks) in Hso, Hin.
    change (memory.keys i) with ks in *. rewrite <- (block_key_lt pre) by done. rewrite <- bytes_less_lt. split.
    + intros Hlt. apply elem_of_app in Hin as [Hin|Hin]; [done|]. apply Hd in Hin as [_ Hf]. congruence.
    + intros Ht. apply not_false_iff_true. intros Hf.
      assert (Hdr : pre ++ be_bytes 8 n ∈ drop p ks) by (apply Hd; by rewrite take_drop in Hin).
      apply (bytes_lt_irrefl (pre ++ be_bytes 8 n)). by eapply StronglySorted_app_1_elem_of.
  - intros n Hn He.
    assert (Hin : pre ++ be_bytes 8 n ∈ ks) by (apply query_keys; by exists n).
    change (memory.keys i) with ks in *. rewrite Hd.
    assert (Hl : bytes_less (pre ++ be_bytes 8 n) (pre ++ be_bytes 8 blk) = true <-> n < blk).
    { by rewrite bytes_less_lt, block_key_lt. }
    destruct (bytes_less _ _); split; [|naive_solver lia|done|]; intros; [exfalso|]; try (split; [done|]); intuition lia.
Qed.

(** The key of a block and the one before it. *)
Lemma key_block_key n : is_u64 n -> key_block (F:=F) pre (Some (pre ++ be_bytes 8 n)) = Ok n.
Proof.
  intros Hn. unfold key_block. cbn [default from_option id]. rewrite drop_app_length. unfold BigEndian_Uint64.
  rewrite length_be_bytes, Nat.ltb_irrefl, firstn_all2 by (by rewrite length_be_bytes). by rewrite be_val_u64.
Qed.

(** What is found at a block: its own entry, else the latest one before it. *)
Inductive found_at blk : option (Z * bytes) -> Prop :=
| found_some n v : is_u64 n -> n <= blk -> entry n = Some v ->
    (forall n', is_u64 n' -> n < n' <= blk -> entry n' = None) -> found_at blk (Some (n, v))
| found_none : (forall n', is_u64 n' -> n' <= blk -> entry n' = None) -> found_at blk None.

Lemma found_at_fun blk r r' : found_at blk r -> found_at blk r' -> r = r'.
Proof.
  intros [n v Hn Hle Hv Hl|Hl] [n' v' Hn' Hle' Hv' Hl'|Hl'].
  - destruct (Z.lt_trichotomy n n') as [H|[->|H]]; [|congruence|].
    + by rewrite (Hl n') in Hv' by lia.
    + by rewrite (Hl' n) in Hv by lia.
  - by rewrite Hl' in Hv.
  - by rewrite Hl in Hv'.
  - done.
Qed.

Definition value_of (r : option (Z * bytes)) : outcome (stateError F) bytes :=
  match r with Some (_, v) => Ok v | None => Err ErrNoHistoryValue end.

Definition block_of (r : option (Z * bytes)) : outcome (stateError F) Z :=
  match r with Some (n, _) => Ok n | None => Ok 0 end.

(** Reading the iterator at a position. *)
Lemma iter_Key i j k :
  memory.closed i = false -> memory.keys i !! j = Some k ->
  memory.Key (memory.set_ind i (Z.of_nat j)) = (Ok (Some k), memory.set_ind i (Z.of_nat j)).
Proof.
  intros Hc Hk. pose proof (lookup_lt_Some _ _ _ Hk).
  unfold memory.Key, memory.Valid, memory.check_open, mbind, SE_bind, get_state, memory.valid. cbn. rewrite Hc. cbn. rewrite Hc. cbn.
  destruct (Z.leb_spec 0 (Z.of_nat j)); [|lia]. destruct (Z.ltb_spec (Z.of_nat j) (Z.of_nat (length (memory.keys i)))); [|lia].
  cbn. by rewrite Nat2Z.id, Hk.
Qed.

Lemma iter_Value i j k :
  memory.closed i = false -> Forall2 (fun k v => m !! k = Some v) (memory.keys i) (memory.values i) ->
  memory.keys i !! j = Some k ->
  exists v, m !! k = Some v /\ (memory.Value (memory.set_ind i (Z.of_nat j))).1 = Ok v.
Proof.
  intros Hc Hv Hk. pose proof (lookup_lt_Some _ _ _ Hk).
  destruct (Forall2_lookup_l _ _ _ _ _ Hv Hk) as (v & Ev & Em). exists v. split; [done|].
  unfold memory.Value, memory.UncopiedValue, mbind, SE_bind, get_state, memory.valid. cbn. rewrite Hc.
  destruct (Z.leb_spec 0 (Z.of_nat j)); [|lia]. destruct (Z.ltb_spec (Z.of_nat j) (Z.of_nat (length (memory.keys i)))); [|lia].
  cbn. by rewrite Nat2Z.id, Ev.
Qed.

Lemma iter_Prev i p :
  memory.closed i = false ->
  memory.Prev (memory.set_ind i (Z.of_nat p)) =
    match p with
    | O => (Ok false, memory.set_ind i (-1))
    | S p' => (Ok true, memory.set_ind i (Z.of_nat p'))
    end.
Proof.
  intros Hc. unfold memory.Prev, memory.check_open, mbind, SE_bind, get_state, put_state. cbn. rewrite Hc. cbn.
  destruct p as [|p']; [done|]. cbn [memory.curInd memory.set_ind].
  destruct (Z.eqb_spec (Z.of_nat (S p')) 0); [lia|]. destruct (Z.eqb_spec (Z.of_nat (S p')) (-1)); [lia|].
  unfold memory.set_ind. cbn. do 2 f_equal. lia.
Qed.

(** The three outcomes of a seek. *)
Inductive seek_result (i : memory.iterator) (p : nat) blk : Prop :=
| seek_exact : memory.keys i !! p = Some (pre ++ be_bytes 8 blk) -> seek_result i p blk
| seek_before p' n : p = S p' -> memory.keys i !! p' = Some (pre ++ be_bytes 8 n) -> is_u64 n -> n < blk ->
    (forall k, memory.keys i !! p = Some k -> exists n', is_u64 n' /\ blk < n' /\ k = pre ++ be_bytes 8 n') ->
    (forall n', is_u64 n' -> n < n' <= blk -> entry n' = None) -> seek_result i p blk
| seek_nothing : p = O ->
    (forall k, memory.keys i !! p = Some k -> exists n', is_u64 n' /\ blk < n' /\ k = pre ++ be_bytes 8 n') ->
    (forall n', is_u64 n' -> n' <= blk -> entry n' = None) -> seek_result i p blk.

Lemma seek_cases i p blk :
  is_u64 blk -> memory.keys i = memory.iter_keys m pre true -> (p <= length (memory.keys i))%nat ->
  (forall n, is_u64 n -> is_Some (entry n) -> n < blk <-> pre ++ be_bytes 8 n ∈ take p (memory.keys i)) ->
  (forall n, is_u64 n -> is_Some (entry n) -> blk <= n <-> pre ++ be_bytes 8 n ∈ drop p (memory.keys i)) ->
  seek_result i p blk.
Proof.
  intros Hb Hk Hp Ht Hd. pose proof (iter_keys_sorted m pre true) as Hso. rewrite <- Hk in Hso.
  assert (Hkey : forall j k, memory.keys i !! j = Some k -> exists n, is_u64 n /\ k = pre ++ be_bytes 8 n /\ is_Some (entry n)).
  { intros j k Hj. apply query_keys. rewrite <- Hk. by eapply list_elem_of_lookup_2. }
  assert (Hhere : is_Some (entry blk) -> memory.keys i !! p = Some (pre ++ be_bytes 8 blk)).
  { intros He. pose proof (proj1 (Hd blk Hb He) ltac:(lia)) as Hin. destruct (drop p (memory.keys i)) as [|k0 l] eqn:Ed; [by apply elem_of_nil in Hin|].
    assert (Hk0 : memory.keys i !! p = Some k0) by (rewrite <- (Nat.add_0_r p), <- lookup_drop, Ed; done). rewrite Hk0.
    apply elem_of_cons in Hin as [->|Hin]; [done|]. destruct (Hkey p k0 Hk0) as (n0 & Hn0 & -> & He0).
    assert (blk <= n0) by (apply (Hd n0 Hn0 He0); by left).
    rewrite <- (take_drop p), Ed in Hso. apply StronglySorted_app_1_r, StronglySorted_inv in Hso as [_ Hall].
    eapply Forall_forall in Hall; [|exact Hin]. apply block_key_lt in Hall; [lia|done|done]. }
  assert (Hafter : entry blk = None -> forall k, memory.keys i !! p = Some k -> exists n', is_u64 n' /\ blk < n' /\ k = pre ++ be_bytes 8 n').
  { intros Hno k Hkp. destruct (Hkey p k Hkp) as (n0 & Hn0 & -> & He0). exists n0. split_and!; [lia|lia| |done].
    assert (blk <= n0). { apply (Hd n0 Hn0 He0). apply (list_elem_of_lookup_2 _ 0). by rewrite lookup_drop, Nat.add_0_r. }
    assert (n0 ≠ blk) by (intros ->; rewrite Hno in He0; by destruct He0). lia. }
  destruct (entry blk) as [v|] eqn:Eb; [apply seek_exact; by apply Hhere|]. specialize (Hafter eq_refl).
  destruct p as [|p'].
  - apply seek_nothing; [done|done|]. intros n' Hn' Hle. destruct (entry n') as [v|] eqn:En; [|done].
    destruct (decide (n' = blk)) as [->|]; [congruence|].
    assert (Hin : pre ++ be_bytes 8 n' ∈ take 0 (memory.keys i)) by (apply (Ht n' Hn'); [by eexists|lia]).
    by apply elem_of_nil in Hin.
  - destruct (lookup_lt_is_Some_2 (memory.keys i) p') as [k1 Hk1]; [lia|].
    destruct (Hkey p' k1 Hk1) as (n1 & Hn1 & -> & He1).
    assert (Hlt : n1 < blk).
    { apply (Ht n1 Hn1 He1). apply (list_elem_of_lookup_2 _ p'). rewrite lookup_take_lt; [done|lia]. }
    apply (seek_before i (S p') blk p' n1); try done. intros n' Hn' Hr. destruct (entry n') as [v|] eqn:En; [|done].
    destruct (decide (n' = blk)) as [->|]; [congruence|].
    assert (Hin : pre ++ be_bytes 8 n' ∈ take (S p') (memory.keys i)) by (apply (Ht n' Hn'); [by eexists|lia]).
    rewrite (take_S_r _ _ _ Hk1) in Hin. apply elem_of_app in Hin as [Hin|Hin%list_elem_of_singleton].
    + exfalso. rewrite <- (take_drop p' (memory.keys i)) in Hso. rewrite (drop_S _ _ _ Hk1) in Hso.
      assert (bytes_lt (pre ++ be_bytes 8 n') (pre ++ be_bytes 8 n1)) as Hl.
      { eapply StronglySorted_app_1_elem_of; [exact Hso|exact Hin|]. by left. }
      apply block_key_lt in Hl; [lia|done|done].
    + apply app_inv_head in Hin. apply be8_inj in Hin; [lia|done|done].
Qed.

(** Whether a seek was exact, at a position of the iterator. *)
Lemma exact_hit_at i p blk n :
  memory.closed i = false -> memory.keys i !! p = Some (pre ++ be_bytes 8 n) -> is_u64 n ->
  exact_hit (F:=F) pre blk true (memory.set_ind i (Z.of_nat p)) = (Ok (n =? blk), memory.set_ind i (Z.of_nat p)).
Proof.
  intros Hc Hk Hn. unfold exact_hit. cbn [negb]. unfold on_iter, zoom, mbind, SE_bind, id.
  rewrite (iter_Key _ _ _ Hc Hk). cbn [map_err]. unfold lift. by rewrite key_block_key.
Qed.

Lemma exact_hit_step i p blk :
  memory.closed i = false ->
  (forall k, memory.keys i !! p = Some k -> exists n', is_u64 n' /\ blk < n' /\ k = pre ++ be_bytes 8 n') ->
  exact_hit (F:=F) pre blk (memory.valid (memory.set_ind i (Z.of_nat p))) (memory.set_ind i (Z.of_nat p)) =
    (Ok false, memory.set_ind i (Z.of_nat p)).
Proof.
  intros Hc Ha. destruct (memory.valid _) eqn:Ev; [|done]. unfold memory.valid in Ev. cbn in Ev.
  apply andb_true_iff in Ev as [_ Ev%Z.ltb_lt]. destruct (lookup_lt_is_Some_2 (memory.keys i) p) as [k Hk]; [lia|].
  destruct (Ha k Hk) as (n' & Hn' & Hlt & ->). rewrite (exact_hit_at i p blk n') by done. do 2 f_equal. lia.
Qed.

(** [valueAt] and [lastUpdatedBlockNumber] find the latest entry that is not
    after the block. *)
Lemma query_found blk :
  is_u64 blk -> exists r, found_at blk r /\ valueAt d pre blk = value_of r /\ lastUpdatedBlockNumber d pre blk = block_of r.
Proof.
  intros Hb. destruct (seek_block blk Hb) as (i & p & Ei & Hc & Hk & Hv & Es & Hp & Ht & Hd).
  pose proof (seek_cases i p blk Hb Hk Hp Ht Hd) as Hr.
  unfold valueAt, lastUpdatedBlockNumber. rewrite Ei. cbn [map_err]. unfold mbind at 1 2, outcome_bind.
  unfold value_at, last_updated, on_iter, zoom, mbind, SE_bind, id. rewrite Es. cbn [map_err].
  destruct Hr as [He|p' n -> Hkn Hn Hlt Ha Hbet| -> Ha Hno].
  - pose proof (lookup_lt_Some _ _ _ He) as Hl.
    assert (Ev : memory.valid (memory.set_ind i (Z.of_nat p)) = true).
    { unfold memory.valid. cbn. apply andb_true_iff. split; [apply Z.leb_le|apply Z.ltb_lt]; lia. }
    rewrite Ev, (exact_hit_at i p blk blk) by done. rewrite Z.eqb_refl. cbn [negb].
    destruct (iter_Value i p _ Hc Hv He) as (v & Em & E1). exists (Some (blk, v)). split_and!.
    + apply found_some; [done|lia|done|lia].
    + cbn [mret SE_ret]. destruct (memory.Value _) as [o i'] eqn:E2. cbn in E1. by subst o.
    + done.
  - rewrite exact_hit_step by done. cbn [negb]. rewrite iter_Prev by done. cbn [map_err negb].
    destruct (iter_Value i p' _ Hc Hv Hkn) as (v & Em & E1). exists (Some (n, v)). split_and!.
    + apply found_some; [done|lia|done|done].
    + cbn [mret SE_ret]. destruct (memory.Value _) as [o i'] eqn:E2. cbn in E1. by subst o.
    + rewrite (iter_Key i p' _ Hc Hkn). cbn [map_err]. unfold lift. by rewrite key_block_key.
  - rewrite exact_hit_step by done. cbn [negb]. rewrite iter_Prev by done. cbn [map_err negb].
    exists None. split_and!; [by apply found_none|done|done].
Qed.

End query.
