(* ===== verification/StateChain.v ===== *)
(** * Chains of blocks

    The databases that updates of consecutive blocks lead to: they hold the state
    after the last block, and their history answers queries about every earlier
    block with the values of the state after that block. *)
From stdpp Require Import prelude gmap list.
From Stdlib Require Import ZArith Lia.
From S2P Require Import Prelude Felt FeltArith BitArray BitArrayFacts TrieNode Trie TrieSpec TrieRep.
From S2P Require Import TrieTheorems MemDB MemDBFacts TrieDB TrieDBFacts TrieCommit.
From S2P Require Import Poseidon Transaction StateDiff Block Class State StateUpdate StateTree StateTries.
From S2P Require Import StateObjects StateCommit StateFlush StateHistory StateQuery StateRefine.

Local Open Scope Z_scope.

Section chain.
Context {F : Type} `{!FieldElement F} `{!FieldElementLaws F} `{!FieldArith F} `{!HashFns F} `{SV : !Semver}.
Context `{!MapOrder F} `{!MapOrderLaws F} `{!ClassCodec F} `{!NonzeroHashes F}.
Implicit Types (a j : F) (σ : astate F) (τ : Z -> astate F) (m : gmap bytes bytes) (diff : StateDiff F).

(** ** Values of the history *)

(** The value of a prefix at a block: the latest entry, or zero. *)
Definition past m (pre : bytes) (n : Z) (x : F) : Prop :=
  exists r, found_at m pre n r /\ x = from_option (fun nv => felt_SetBytes nv.2) felt_Zero r.

Definition value_storage σ a j : F := default felt_Zero (storage_of σ a !! j).
Definition value_nonce σ a : F := from_option ac_nonce felt_Zero (as_contracts σ !! a).
Definition value_class σ a : F := from_option ac_class felt_Zero (as_contracts σ !! a).

(** System contracts have no class and no nonce. *)
Definition system_plain σ : Prop := forall a c, IsSystemContract a = true -> as_contracts σ !! a = Some c ->
  ac_class c = felt_Zero /\ ac_nonce c = felt_Zero.

Definition no_system diff : Prop := forall a, IsSystemContract a = true ->
  DeployedContracts diff !! a = None /\ ReplacedClasses diff !! a = None /\ Nonces diff !! a = None.

Definition history_bucket (b : innerBucket) : bool :=
  match b with contractStorageHistory | contractNonceHistory | contractClassHashHistory => true | _ => false end.

Record history_of m (B : Z) τ : Prop := {
  hf_keys b k : history_bucket b = true -> head k = Some (bucket_byte b) -> is_Some (m !! k) ->
    exists n, is_u64 n /\ history_key (F:=F) n k;
  hf_future n k : is_u64 n -> B < n -> history_key (F:=F) n k -> m !! k = None;
  hf_storage a j n : -1 <= n <= B -> past m (ContractStorageHistoryKey a j) n (value_storage (τ n) a j);
  hf_nonce a n : -1 <= n <= B -> past m (ContractNonceHistoryKey a) n (value_nonce (τ n) a);
  hf_class a n : -1 <= n <= B -> past m (ContractClassHashHistoryKey a) n (value_class (τ n) a);
  hf_system : system_plain (τ B);
}.

Lemma storage_key_split a j n :
  ContractStorageHistoryAtBlockKey a j n = ContractStorageHistoryKey a j ++ be_bytes 8 n.
Proof.
  unfold ContractStorageHistoryAtBlockKey, ContractStorageHistoryKey, Bucket_Key. cbn [concat].
  rewrite !app_nil_r. cbn. by rewrite <- app_assoc.
Qed.

Lemma nonce_key_split a n : ContractNonceHistoryAtBlockKey a n = ContractNonceHistoryKey a ++ be_bytes 8 n.
Proof.
  unfold ContractNonceHistoryAtBlockKey, ContractNonceHistoryKey, Bucket_Key. cbn [concat]. by rewrite !app_nil_r.
Qed.

Lemma class_key_split a n : ContractClassHashHistoryAtBlockKey a n = ContractClassHashHistoryKey a ++ be_bytes 8 n.
Proof.
  unfold ContractClassHashHistoryAtBlockKey, ContractClassHashHistoryKey, Bucket_Key. cbn [concat]. by rewrite !app_nil_r.
Qed.

(** A key of the history belongs to one block. *)
Lemma history_key_block n n' k : is_u64 n -> is_u64 n' -> history_key (F:=F) n k -> history_key (F:=F) n' k -> n = n'.
Proof.
  intros Hn Hn' H1 H2. enough (H : forall k', history_key (F:=F) n' k' -> k = k' -> n = n') by eauto. clear H2.
  intros k' H2 E1. destruct H1 as [a j|a|a], H2 as [a' j'|a'|a']; try done.
  - by apply storage_key_inj in E1 as (_ & _ & ->).
  - by apply nonce_key_inj in E1 as [_ ->].
  - by apply class_key_inj in E1 as [_ ->].
Qed.

Lemma past_ext m m' pre n (x : F) :
  (forall n, m' !! (pre ++ be_bytes 8 n) = m !! (pre ++ be_bytes 8 n)) -> past m pre n x -> past m' pre n x.
Proof.
  intros E1 (r & Hr & ->). exists r. split; [|done]. destruct Hr as [n1 v Hn1 Hle Hv Hl|Hl].
  - apply found_some; [done|done|by rewrite E1|]. intros. rewrite E1. by apply Hl.
  - apply found_none. intros. rewrite E1. by apply Hl.
Qed.

(** ** One more block *)

(** The entries of a prefix before and after a block was written. *)
Lemma past_next m m' pre B (new : option (option bytes)) :
  is_u64 (B + 1) ->
  (forall n, is_u64 n -> m' !! (pre ++ be_bytes 8 n) =
     if decide (n = B + 1) then default (m !! (pre ++ be_bytes 8 n)) new else m !! (pre ++ be_bytes 8 n)) ->
  (forall n, is_u64 n -> B < n -> m !! (pre ++ be_bytes 8 n) = None) ->
  (forall n x, -1 <= n <= B -> past m pre n x -> past m' pre n x) /\
  (forall x, past m pre B x -> (forall v, new ≠ Some v) -> past m' pre (B + 1) x) /\
  (forall v, new = Some (Some v) -> past m' pre (B + 1) (felt_SetBytes v)).
Proof.
  intros Hb Hm Hf.
  assert (Hold : forall n, is_u64 n -> n <= B -> m' !! (pre ++ be_bytes 8 n) = m !! (pre ++ be_bytes 8 n)).
  { intros n Hn Hle. rewrite Hm by done. by rewrite decide_False by lia. }
  split_and!.
  - intros n x Hn (r & Hr & ->). exists r. split; [|done]. destruct Hr as [n1 v Hn1 Hle Hv Hl|Hl].
    + apply found_some; [done|done|by rewrite Hold by lia|]. intros n' Hn' Hr. rewrite Hold by lia. by apply Hl.
    + apply found_none. intros n' Hn' Hle. rewrite Hold by lia. by apply Hl.
  - intros x (r & Hr & ->) Hnone. exists r. split; [|done].
    assert (Hnew : m' !! (pre ++ be_bytes 8 (B + 1)) = None).
    { rewrite Hm, decide_True by done. destruct new as [v|]; [by destruct (Hnone v)|]. cbn. apply Hf; [done|lia]. }
    destruct Hr as [n1 v Hn1 Hle Hv Hl|Hl].
    + apply found_some; [done|lia|by rewrite Hold by lia|]. intros n' Hn' Hr.
      destruct (decide (n' = B + 1)) as [->|]; [done|]. rewrite Hold by lia. apply Hl; [done|lia].
    + apply found_none. intros n' Hn' Hle. destruct (decide (n' = B + 1)) as [->|]; [done|].
      rewrite Hold by lia. apply Hl; [done|lia].
  - intros v ->. exists (Some (B + 1, v)). split; [|done]. apply found_some; [done|lia| |lia].
    rewrite Hm by done. by rewrite decide_True.
Qed.

Lemma prefix_next m m' pre B b new (val : Z -> F) (x' : F) :
  b = B + 1 -> is_u64 b -> -1 <= B ->
  (forall n, is_u64 n -> m' !! (pre ++ be_bytes 8 n) =
     if decide (n = b) then default (m !! (pre ++ be_bytes 8 n)) new else m !! (pre ++ be_bytes 8 n)) ->
  (forall n, is_u64 n -> B < n -> m !! (pre ++ be_bytes 8 n) = None) ->
  (forall n, -1 <= n <= B -> past m pre n (val n)) ->
  (new = None /\ x' = val B) \/ new = Some (Some (felt_Bytes x')) ->
  forall n, -1 <= n <= b -> past m' pre n (if decide (n = b) then x' else val n).
Proof.
  intros -> Hb HB Hm Hf Hold Hx n Hn. destruct (past_next m m' pre B new Hb Hm Hf) as (H1 & H2 & H3).
  destruct (decide (n = B + 1)) as [->|].
  - destruct Hx as [[-> ->]| ->]; [apply H2; [apply Hold; lia|done]|].
    rewrite <- (felt_SetBytes_Bytes x'). by apply H3.
  - apply H1; [lia|]. apply Hold. lia.
Qed.

(** A map whose root is zero is empty. *)
Lemma map_root_zero (mp : gmap F F) : map_ok mp -> map_root Pedersen mp = felt_Zero -> mp = ∅.
Proof.
  intros Hm Hr. unfold map_root in Hr. pose proof (mpt_canon mp Hm) as Hc.
  assert (Hnone : mpt mp = None).
  { destruct (mpt mp) as [t|] eqn:E1; [|done]. exfalso. cbn in Hc, Hr.
    eapply (pedersen_nonzero state_height t); [done|unfold state_height; lia| |done].
    rewrite (canon_leaf_iff _ _ Hc). by apply bool_decide_eq_false_2. }
  apply map_eq. intros k. rewrite lookup_empty. destruct (mp !! k) as [v|] eqn:Ek; [|done].
  destruct (Hm k v Ek) as [Hk Hv]. pose proof (mpt_lookup mp k Hm Hk) as E1. rewrite Hnone, Ek in E1. cbn in E1. congruence.
Qed.

Section block.
Context (kv0 : memory.dbBatch) (r0 : F) (σ : astate F) {Hop : opened kv0 r0 σ}.
Variables (blk : Z) (diff : StateDiff F) (defs : gmap F (ClassDefinition F)).
Hypothesis up_ok : update_ok σ blk diff.
Hypothesis plain : no_system diff.
Hypothesis σ_plain : system_plain σ.
Abbreviation σ' := (apply_update σ blk diff defs).

Lemma contract_after a :
  as_contracts σ' !! a =
    if decide (a ∈ elements (changed_contracts diff)) then changed_contract σ blk diff a else as_contracts σ !! a.
Proof. apply set_keys_lookup. Qed.

Lemma storage_after a j :
  value_storage σ' a j =
    match StorageDiffs diff !! a ≫= (fun st => st !! j) with Some (Some v) => v | _ => value_storage σ a j end.
Proof.
  unfold value_storage at 1. unfold storage_of. rewrite contract_after.
  destruct (decide _) as [Hin|Hni].
  2:{ rewrite changed_iff in Hni. destruct (StorageDiffs diff !! a) eqn:Es; [|done]. exfalso. apply Hni. eauto. }
  unfold changed_contract. destruct (base_contract σ blk diff a) as [c|] eqn:Eb; cbn [mbind option_bind].
  - pose proof (base_storage σ blk diff a c up_ok Eb) as Est. pose proof (base_contract_ok kv0 r0 σ diff blk a c up_ok Eb) as Hok.
    pose proof (change_contract_ok σ diff blk a c up_ok Hok) as (_ & _ & _ & Hok').
    assert (E1 : default felt_Zero (ac_storage (change_contract diff a c) !! j) =
      match StorageDiffs diff !! a ≫= (fun st => st !! j) with Some (Some v) => v | _ => value_storage σ a j end).
    { unfold change_contract. cbn [ac_storage]. rewrite write_lookup, Est. unfold some_values. rewrite lookup_omap.
      destruct (StorageDiffs diff !! a) as [st|]; cbn; [|by rewrite lookup_empty]. by destruct (st !! j) as [[v|]|]. }
    unfold purge. destruct (_ && _) eqn:Ep; [|done]. apply andb_true_iff in Ep as [_ Ez%bool_decide_eq_true_1].
    rewrite <- E1, (map_root_zero _ Hok' Ez). done.
  - cbn. destruct (StorageDiffs diff !! a) as [st|] eqn:Es; cbn.
    + exfalso. destruct (uo_storage _ _ _ up_ok a st Es) as [Hor _]. unfold base_contract in Eb. rewrite Es in Eb.
      destruct (DeployedContracts diff !! a) as [[h|]|] eqn:Ed; [done|by destruct (uo_deployed _ _ _ up_ok a _ Ed) as [[] _]|].
      destruct (as_contracts σ !! a); [done|]. rewrite bool_decide_true in Eb by (by eexists).
      destruct Hor as [[? ?]|[[? ?]|Hs]]; [done|done|]. by rewrite Hs in Eb.
    + unfold value_storage, storage_of. unfold base_contract in Eb.
      destruct (DeployedContracts diff !! a) as [[h|]|]; [done|..]; by destruct (as_contracts σ !! a).
Qed.

(** A contract that is not of the system is not removed. *)
Lemma changed_plain a : IsSystemContract a = false ->
  changed_contract σ blk diff a = change_contract diff a <$> base_contract σ blk diff a.
Proof. intros Hs. unfold changed_contract, purge. rewrite Hs. by destruct (base_contract σ blk diff a). Qed.

(** The contract a change starts from has the old fields, or new ones. *)
Lemma base_fields a c : base_contract σ blk diff a = Some c ->
  ac_nonce c = value_nonce σ a /\
  ac_class c = match DeployedContracts diff !! a with Some (Some h) => h | _ => value_class σ a end.
Proof.
  unfold base_contract, value_nonce, value_class. destruct (DeployedContracts diff !! a) as [[h|]|] eqn:Ed.
  - destruct (uo_deployed _ _ _ up_ok a _ Ed) as (_ & _ & _ & ->). by intros [= <-].
  - by destruct (uo_deployed _ _ _ up_ok a _ Ed) as [[] _].
  - destruct (as_contracts σ !! a) as [x|]; [by intros [= ->]|].
    destruct (IsSystemContract a && bool_decide (is_Some (StorageDiffs diff !! a))); intros E1; [|discriminate].
    injection E1 as <-. split; reflexivity.
Qed.

Lemma base_missing a : base_contract σ blk diff a = None ->
  as_contracts σ !! a = None /\ ReplacedClasses diff !! a = None /\ Nonces diff !! a = None /\ DeployedContracts diff !! a = None.
Proof.
  unfold base_contract. destruct (DeployedContracts diff !! a) as [[h|]|] eqn:Ed; [done|..].
  { by destruct (uo_deployed _ _ _ up_ok a _ Ed) as [[] _]. }
  destruct (as_contracts σ !! a) as [x|] eqn:Ex; [done|]. intros _. split_and!; [done|..|done].
  - destruct (ReplacedClasses diff !! a) as [h|] eqn:Er; [|done]. exfalso.
    destruct (uo_replaced _ _ _ up_ok a h Er) as [_ Hor]. rewrite Ex, Ed in Hor. by destruct Hor as [[]|[]].
  - destruct (Nonces diff !! a) as [h|] eqn:Er; [|done]. exfalso.
    destruct (uo_nonces _ _ _ up_ok a h Er) as [_ Hor]. rewrite Ex, Ed in Hor. by destruct Hor as [[]|[]].
Qed.

(** System contracts stay without class and nonce. *)
Lemma system_after : system_plain σ'.
Proof.
  intros a c Hs. rewrite contract_after. destruct (decide _); [|by apply σ_plain].
  destruct (plain a Hs) as (Ed & Er & En). unfold changed_contract, base_contract, purge. rewrite Ed, Hs.
  intros (b & Hb & Hc)%bind_Some. cbn [andb] in Hc. destruct (bool_decide (map_root _ _ = _)); [done|]. injection Hc as <-.
  unfold change_contract. rewrite Er, En. cbn. destruct (as_contracts σ !! a) as [x|] eqn:Ex.
  - injection Hb as <-. by apply (σ_plain a).
  - destruct (_ && _); [|done]. by injection Hb as <-.
Qed.

Lemma system_values (ς : astate F) a : system_plain ς -> IsSystemContract a = true ->
  value_nonce ς a = felt_Zero /\ value_class ς a = felt_Zero.
Proof.
  intros Hp Hs. unfold value_nonce, value_class. destruct (as_contracts ς !! a) as [c|] eqn:Ec; [|done]. cbn.
  by destruct (Hp a c Hs Ec).
Qed.

Lemma nonce_after a :
  value_nonce σ' a = match Nonces diff !! a with Some (Some n) => n | _ => value_nonce σ a end.
Proof.
  destruct (IsSystemContract a) eqn:Hs.
  { destruct (plain a Hs) as (_ & _ & ->). rewrite (proj1 (system_values σ' a system_after Hs)).
    by rewrite (proj1 (system_values σ a σ_plain Hs)). }
  unfold value_nonce at 1. rewrite contract_after. destruct (decide _) as [Hin|Hni].
  - rewrite (changed_plain a Hs). destruct (base_contract σ blk diff a) as [c|] eqn:Eb; cbn.
    + rewrite (proj1 (base_fields a c Eb)). by destruct (Nonces diff !! a) as [[]|].
    + destruct (base_missing a Eb) as (E1 & _ & -> & _). unfold value_nonce. by rewrite E1.
  - destruct (Nonces diff !! a) as [v|] eqn:En; [|done]. exfalso. apply Hni, changed_iff. rewrite En. eauto.
Qed.

Lemma class_after a :
  value_class σ' a =
    match ReplacedClasses diff !! a with
    | Some (Some h) => h
    | _ => match DeployedContracts diff !! a with Some (Some h) => h | _ => value_class σ a end
    end.
Proof.
  destruct (IsSystemContract a) eqn:Hs.
  { destruct (plain a Hs) as (-> & -> & _). rewrite (proj2 (system_values σ' a system_after Hs)).
    by rewrite (proj2 (system_values σ a σ_plain Hs)). }
  unfold value_class at 1. rewrite contract_after. destruct (decide _) as [Hin|Hni].
  - rewrite (changed_plain a Hs). destruct (base_contract σ blk diff a) as [c|] eqn:Eb; cbn.
    + rewrite (proj2 (base_fields a c Eb)). by destruct (ReplacedClasses diff !! a) as [[]|].
    + destruct (base_missing a Eb) as (E1 & -> & _ & ->). unfold value_class. by rewrite E1.
  - rewrite changed_iff in Hni. destruct (ReplacedClasses diff !! a) as [v|] eqn:En; [exfalso; apply Hni; eauto|].
    destruct (DeployedContracts diff !! a) as [w|] eqn:Ed; [exfalso; apply Hni; eauto|done].
Qed.

(** The history with one more block. *)
Lemma history_next m0 m1 m2 B τ :
  blk = B + 1 -> -1 <= B -> τ B = σ -> history_of m0 B τ ->
  (forall k, outside k -> m1 !! k = m0 !! k) -> block_history blk diff m1 m2 ->
  history_of m2 blk (fun n => if decide (n = blk) then σ' else τ n).
Proof.
  intros Eb HB Eτ [Hkeys Hfut Hst Hno Hcl _] Hout Hch.
  pose proof (uo_block _ _ _ up_ok) as Hu.
  assert (Hm1 : forall n k, history_key (F:=F) n k -> m1 !! k = m0 !! k).
  { intros n k Hh. apply Hout. intros b Hb E1. by eapply (not_history_key n b k). }
  assert (Hfut1 : forall n k, is_u64 n -> B < n -> history_key (F:=F) n k -> m1 !! k = None).
  { intros n k Hn Hlt Hh. rewrite (Hm1 n) by done. by eapply Hfut. }
  assert (Hpast : forall pre n x, (forall n, history_key (F:=F) n (pre ++ be_bytes 8 n)) -> past m0 pre n x -> past m1 pre n x).
  { intros pre n x Hpre. apply past_ext. intros n'. by apply (Hm1 n'). }
  split.
  - intros b k Hb Hh Hk. destruct (decide (history_key (F:=F) blk k)) as [|Hnk]; [eauto|].
    apply (Hkeys b k Hb Hh). rewrite <- Hout, <- (hc_other _ _ _ _ _ _ Hch k Hnk); [done|].
    intros b' Hb' E1. rewrite Hh in E1. injection E1 as E1%bucket_byte_inj. subst b'. by destruct b.
  - intros n k Hn Hlt Hh. rewrite (hc_other _ _ _ _ _ _ Hch); [apply (Hfut1 n); [done|lia|done]|].
    intros Hh'. enough (n = blk) by lia. by apply (history_key_block n blk k).
  - intros a j n Hn.
    assert (Hk : forall n, history_key (F:=F) n (ContractStorageHistoryKey a j ++ be_bytes 8 n)).
    { intros n'. rewrite <- storage_key_split. constructor. }
    replace (value_storage _ a j) with (if decide (n = blk) then value_storage (apply_update σ blk diff defs) a j
      else value_storage (τ n) a j) by (by destruct (decide _)).
    apply (prefix_next m1 m2 _ B blk (written_storage diff a j) (fun n => value_storage (τ n) a j)); try done.
    + intros n' Hn'. rewrite <- storage_key_split. by apply (hc_storage _ _ _ _ _ _ Hch).
    + intros n' Hn' Hlt. by apply (Hfut1 n').
    + intros n' Hn'. by apply Hpast, Hst.
    + rewrite storage_after, Eτ. unfold written_storage.
      destruct (StorageDiffs diff !! a) as [st|] eqn:Es; cbn; [|by left].
      destruct (st !! j) as [v|] eqn:Ej; [|by left]. right.
      destruct (uo_storage _ _ _ up_ok a st Es) as [_ Hall]. by destruct (Hall j v Ej) as [[w ->] _].
  - intros a n Hn.
    assert (Hk : forall n, history_key (F:=F) n (ContractNonceHistoryKey a ++ be_bytes 8 n)).
    { intros n'. rewrite <- nonce_key_split. constructor. }
    replace (value_nonce _ a) with (if decide (n = blk) then value_nonce (apply_update σ blk diff defs) a
      else value_nonce (τ n) a) by (by destruct (decide _)).
    apply (prefix_next m1 m2 _ B blk (Nonces diff !! a ≫= written) (fun n => value_nonce (τ n) a)); try done.
    + intros n' Hn'. rewrite <- nonce_key_split. by apply (hc_nonce _ _ _ _ _ _ Hch).
    + intros n' Hn' Hlt. by apply (Hfut1 n').
    + intros n' Hn'. by apply Hpast, Hno.
    + rewrite nonce_after, Eτ. destruct (Nonces diff !! a) as [v|] eqn:Es; cbn; [|by left]. right.
      by destruct (uo_nonces _ _ _ up_ok a v Es) as [[w ->] _].
  - intros a n Hn.
    assert (Hk : forall n, history_key (F:=F) n (ContractClassHashHistoryKey a ++ be_bytes 8 n)).
    { intros n'. rewrite <- class_key_split. constructor. }
    replace (value_class _ a) with (if decide (n = blk) then value_class (apply_update σ blk diff defs) a
      else value_class (τ n) a) by (by destruct (decide _)).
    apply (prefix_next m1 m2 _ B blk (orelse (ReplacedClasses diff !! a ≫= written) (DeployedContracts diff !! a ≫= written))
      (fun n => value_class (τ n) a)); try done.
    + intros n' Hn'. rewrite <- class_key_split. by apply (hc_class _ _ _ _ _ _ Hch).
    + intros n' Hn' Hlt. by apply (Hfut1 n').
    + intros n' Hn'. by apply Hpast, Hcl.
    + rewrite class_after, Eτ. destruct (ReplacedClasses diff !! a) as [v|] eqn:Es; cbn.
      * right. by destruct (uo_replaced _ _ _ up_ok a v Es) as [[w ->] _].
      * destruct (DeployedContracts diff !! a) as [v|] eqn:Ed; cbn; [|by left]. right.
        by destruct (uo_deployed _ _ _ up_ok a v Ed) as [[w ->] _].
  - rewrite decide_True by done. apply system_after.
Qed.

End block.

(** ** Chains *)

(** The databases that blocks lead to, from an empty one: each block is applied to
    the state opened at the root of the last one, with a new batch, which is
    written.  [τ n] is the state after block [n]. *)
Inductive chain : Z -> memory.Database -> F -> (Z -> astate F) -> Prop :=
| chain_genesis d : memory.db d = Some ∅ -> chain (-1) d felt_Zero (fun _ => empty_state)
| chain_block B d r τ header diff defs skip old new new' s kv :
    chain B d r τ ->
    hd_Number header = B + 1 -> update_ok (τ B) (B + 1) diff -> no_system diff ->
    spec_root (τ B) (hd_ProtocolVersion header) = (Ok old : outcome (stateError F) F) ->
    spec_root (apply_update (τ B) (B + 1) diff defs) (hd_ProtocolVersion header) = (Ok new' : outcome (stateError F) F) ->
    skip = true \/ new = new' -> new' ≠ felt_Zero ->
    State_Update header (mkUpdate (Some new) (Some old) (Some diff)) defs skip (StateUpdate.New r (fresh d)) = (Ok tt, s) ->
    memory.batch_Write (st_kv s) = (Ok tt, kv) ->
    chain (B + 1) (memory.bdb kv) new' (fun n => if decide (n = B + 1) then apply_update (τ B) (B + 1) diff defs else τ n).

Lemma genesis_opened d : memory.db d = Some ∅ -> opened (fresh d) felt_Zero (empty_state : astate F).
Proof.
  intros Hd. assert (Hno : forall hf b o, db_holds hf (∅ : gmap bytes bytes) b o (mpt (∅ : gmap F F))).
  { intros hf b o l lf _. by rewrite mpt_empty, lookup_empty. }
  split.
  - by exists ∅.
  - cbn [fresh memory.bdb]. rewrite Hd. split; cbn [default from_option id empty_state as_contracts as_leaves as_classes].
    + intros a. by rewrite !lookup_empty.
    + apply Hno.
    + replace (contract_leaves (∅ : gmap F (acontract F))) with (∅ : gmap F F); [apply Hno|].
      unfold contract_leaves. rewrite fmap_empty. by unfold nz; rewrite map_filter_empty.
    + intros a _. unfold storage_of. cbn. rewrite lookup_empty. apply Hno.
    + intros h. by rewrite !lookup_empty.
  - split; [apply map_Forall_empty|apply map_ok_empty].
  - done.
Qed.

Lemma genesis_history : history_of ∅ (-1) (fun _ => (empty_state : astate F)).
Proof.
  assert (Hp : forall pre n, past ∅ pre n felt_Zero).
  { intros pre n. exists None. split; [|done]. apply found_none. intros. apply lookup_empty. }
  split.
  - intros b k _ _ [v Hv]. by rewrite lookup_empty in Hv.
  - intros n k _ _ _. apply lookup_empty.
  - intros a j n _. replace (value_storage _ a j) with (felt_Zero : F); [apply Hp|].
    unfold value_storage, storage_of. cbn. rewrite lookup_empty. cbn. by rewrite lookup_empty.
  - intros a n _. replace (value_nonce _ a) with (felt_Zero : F); [apply Hp|].
    unfold value_nonce. cbn. by rewrite lookup_empty.
  - intros a n _. replace (value_class _ a) with (felt_Zero : F); [apply Hp|].
    unfold value_class. cbn. by rewrite lookup_empty.
  - intros a c _ Hc. cbn in Hc. by rewrite lookup_empty in Hc.
Qed.

(** Every database of a chain holds the state after its last block, and the
    history of all of them. *)
Lemma chain_invariant B d r τ : chain B d r τ ->
  -1 <= B < 2 ^ 64 /\ opened (fresh d) r (τ B) /\ exists m, memory.db d = Some m /\ history_of m B τ.
Proof.
  intros Hc. induction Hc as [d Hd|B d r τ header diff defs skip old new new' s kv Hc IH Hn Hup Hpl Hold Hnew Hor Hz Hs Hw].
  { split; [lia|]. split; [by apply genesis_opened|]. exists ∅. split; [done|apply genesis_history]. }
  destruct IH as (HB & Hop & m & Hm & Hh). rewrite <- Hn in *.
  destruct (update_written d r (τ B) header diff defs skip old new new' Hop Hup Hold Hnew Hor Hz)
    as (s' & kv' & m0 & m1 & m2 & E1 & _ & E3 & Hop' & Em & Em2 & Hout & Hbh).
  rewrite Hs in E1. injection E1 as <-. rewrite Hw in E3. injection E3 as <-. rewrite Hm in Em. injection Em as <-.
  pose proof (uo_block _ _ _ Hup). split; [lia|]. split; [by rewrite decide_True|].
  exists m2. split; [done|]. eapply (history_next (fresh d) r (τ B)); try done; [|lia]. apply Hh.
Qed.

(** A valid block extends a chain. *)
Lemma chain_next B d r τ (header : Header F) diff defs skip old new new' :
  chain B d r τ ->
  hd_Number header = B + 1 -> update_ok (τ B) (B + 1) diff -> no_system diff ->
  spec_root (τ B) (hd_ProtocolVersion header) = (Ok old : outcome (stateError F) F) ->
  spec_root (apply_update (τ B) (B + 1) diff defs) (hd_ProtocolVersion header) = (Ok new' : outcome (stateError F) F) ->
  skip = true \/ new = new' -> new' ≠ felt_Zero ->
  exists d', chain (B + 1) d' new' (fun n => if decide (n = B + 1) then apply_update (τ B) (B + 1) diff defs else τ n).
Proof.
  intros Hc Hn Hup Hpl Hold Hnew Hor Hz. destruct (chain_invariant _ _ _ _ Hc) as (_ & Hop & _).
  destruct (update_written d r (τ B) header diff defs skip old new new') as (s & kv & _ & _ & _ & E1 & _ & E2 & _);
    rewrite ?Hn; try done.
  exists (memory.bdb kv). by eapply chain_block.
Qed.

(** ** Queries on a chain *)

Lemma history_query d m B τ (pre : bytes) b l (x : F) n :
  memory.db d = Some m -> history_of m B τ -> history_bucket b = true -> pre = bucket_byte b :: l -> is_bytes l ->
  (forall n' k, history_key (F:=F) n' k -> HasPrefix k pre = true -> k = pre ++ be_bytes 8 n') ->
  is_u64 n -> past m pre n x -> getHistoricalValue d pre n = Ok x.
Proof.
  intros Hd Hh Hb -> Hl Hkey Hn (r & Hr & ->). pose proof (bucket_byte_range b).
  destruct (query_found (F:=F) d m (bucket_byte b :: l) Hd) with (blk := n) as (r' & Hr' & Ev & _); [..|done|].
  - constructor; [lia|done].
  - exists (bucket_byte b), l. split; [done|lia].
  - intros k Hk Hp. destruct (hf_keys _ _ _ Hh b k Hb) as (n' & Hn' & Hkk); [|done|].
    + apply HasPrefix_spec in Hp as [t ->]. done.
    + exists n'. split; [done|]. by apply Hkey.
  - rewrite (found_at_fun _ _ _ _ _ Hr Hr') in *. unfold getHistoricalValue. rewrite Ev. by destruct r' as [[n1 v]|].
Qed.

(** C29: the databases that blocks lead to from an empty one are well formed: they
    are open and hold the state after the last block in all their tables and
    tries, addresses and keys fit the tries, no value or address is zero, heights
    fit 64 bits, and system contracts have no class and no nonce. *)
Theorem chain_well_formed B d r τ : chain B d r τ ->
  exists m, memory.db d = Some m /\ db_state m (τ B) /\ state_ok (τ B) /\ system_plain (τ B) /\
    (r = felt_Zero -> as_contracts (τ B) = ∅ /\ as_leaves (τ B) = ∅).
Proof.
  intros Hc. destruct (chain_invariant _ _ _ _ Hc) as (_ & Hop & m & Hm & Hh). exists m.
  pose proof (op_held (kv0 := fresh d) (σ := τ B)) as Hs. cbn in Hs. rewrite Hm in Hs.
  split_and!; [done|done|apply op_ok|apply (hf_system _ _ _ Hh)|apply op_zero].
Qed.

(** C27: on every database that blocks lead to from an empty one, the history
    answers queries about older blocks with the state after that block: the
    storage, the nonce and the class of every contract at every block of the chain
    are those the specification of the updates gives, zero for contracts and
    locations without a value, whatever later blocks changed, and whether or not
    the contract still exists. *)
Theorem past_values B d r τ n a j : chain B d r τ -> 0 <= n <= B ->
  ContractStorageAt d a j n = Ok (value_storage (τ n) a j) /\
  ContractNonceAt d a n = Ok (value_nonce (τ n) a) /\
  ContractClassHashAt d a n = Ok (value_class (τ n) a).
Proof.
  intros Hc Hn. destruct (chain_invariant _ _ _ _ Hc) as (HB & _ & m & Hm & Hh).
  unfold ContractStorageAt, ContractNonceAt, ContractClassHashAt. split_and!.
  - eapply (history_query d m B τ _ contractStorageHistory); try done; [| |lia|apply (hf_storage _ _ _ Hh); lia].
    + cbn [concat]. rewrite app_nil_r. apply Forall_app. split; apply felt_bytes_range.
    + intros n' k Hk (t & E1)%HasPrefix_spec. revert E1. destruct Hk as [a' j'|a'|a']; intros E1; try done.
      rewrite storage_key_split in *. unfold ContractStorageHistoryKey, Bucket_Key in E1 |- *. cbn [concat] in E1 |- *.
      rewrite !app_nil_r in *. rewrite <- !app_comm_cons, <- !app_assoc in E1. injection E1 as E1.
      apply felt_bytes_app_inj in E1 as [-> E1]. by apply felt_bytes_app_inj in E1 as [-> _].
  - eapply (history_query d m B τ _ contractNonceHistory); try done; [| |lia|apply (hf_nonce _ _ _ Hh); lia].
    + cbn [concat]. rewrite app_nil_r. apply felt_bytes_range.
    + intros n' k Hk (t & E1)%HasPrefix_spec. revert E1. destruct Hk as [a' j'|a'|a']; intros E1; try done.
      rewrite nonce_key_split in *. unfold ContractNonceHistoryKey, Bucket_Key in E1 |- *. cbn [concat] in E1 |- *.
      rewrite !app_nil_r in *. rewrite <- !app_comm_cons in E1. injection E1 as E1. by apply felt_bytes_app_inj in E1 as [-> _].
  - eapply (history_query d m B τ _ contractClassHashHistory); try done; [| |lia|apply (hf_class _ _ _ Hh); lia].
    + cbn [concat]. rewrite app_nil_r. apply felt_bytes_range.
    + intros n' k Hk (t & E1)%HasPrefix_spec. revert E1. destruct Hk as [a' j'|a'|a']; intros E1; try done.
      rewrite class_key_split in *. unfold ContractClassHashHistoryKey, Bucket_Key in E1 |- *. cbn [concat] in E1 |- *.
      rewrite !app_nil_r in *. rewrite <- !app_comm_cons in E1. injection E1 as E1. by apply felt_bytes_app_inj in E1 as [-> _].
Qed.

End chain.
