(* ===== verification/StateWitness.v ===== *)
(** * The state at concrete inputs

    Two blocks applied to an empty database: a contract is deployed and changed,
    and a system contract gets storage and loses it again. *)
From stdpp Require Import prelude gmap strings list.
From Stdlib Require Import ZArith Lia.
From S2P Require Import Prelude Felt FeltArith BitArray BitArrayFacts TrieNode Trie TrieSpec TrieRep TrieTheorems.
From S2P Require Import MemDB MemDBFacts TrieDB TrieDBFacts TrieCommit.
From S2P Require Import Poseidon Transaction StateDiff Block HashWitness Class ClassFacts State StateUpdate StateTree StateTries.
From S2P Require Import StateHistory StateQuery StateRefine StateErrors StateChain.

Local Open Scope Z_scope.

(** A hash function with small values that are not zero. *)
Definition small_hash (x y : SF) : SF := stark (1 + Z.land (proj1_sig x * 31 + proj1_sig y * 17 + 5) (Z.ones 16)).

#[local] Instance small_hashes : HashFns SF := {|
  Poseidon.Pedersen := small_hash;
  hades s := let '(a, b, c) := s in (small_hash a b, small_hash b c, small_hash c a);
|}.

#[local] Instance key_order : MapOrder SF := {| map_order V m := map_to_list m; node_order m := map_to_list m |}.

#[local] Instance key_order_laws : MapOrderLaws SF.
Proof. by split. Qed.

#[local] Instance no_classes : ClassCodec SF := {| class_Marshal c := [dd_At c]; class_Unmarshal b := None |}.

Lemma small_hash_val x y : 1 <= felt_val (small_hash x y) <= 2 ^ 16.
Proof.
  unfold small_hash. rewrite stark_val. cbn [stark proj1_sig]. rewrite stark_reduce_mod, Z.land_ones by lia.
  set (v := _ mod 2 ^ 16). assert (0 <= v < 2 ^ 16) by (apply Z.mod_pos_bound; lia).
  rewrite Z.mod_small; [lia|]. unfold stark_prime. lia.
Qed.

Lemma small_hash_nonzero hf : (forall x y, 1 <= felt_val (hf x y) <= 2 ^ 16) -> hash_nonzero (F:=SF) hf.
Proof.
  intros Hv h t Hc Hh Hl E. apply (f_equal felt_val) in E. rewrite felt_Zero_val in E. destruct t as [v|l r|p c]; [done|..]; cbn [shash] in E.
  - specialize (Hv (shash hf l) (shash hf r)). lia.
  - specialize (Hv (shash hf c) (to_felt (path_of p))). cbn in Hc. destruct Hc as (_ & _ & h' & -> & _).
    rewrite felt_Add_val in E.
    rewrite felt_SetBytes_val, be_val_bytes in E by apply be_bytes_range.
    change (256 ^ Z.of_nat 32) with (2 ^ 256) in E. rewrite (Z.mod_small (Z.of_nat _) (2 ^ 256)) in E by lia.
    unfold stark_prime in E. rewrite (Z.mod_small (Z.of_nat _)), Z.mod_small in E by lia. lia.
Qed.

#[local] Instance small_nonzero : NonzeroHashes SF.
Proof. split; apply small_hash_nonzero; intros; apply small_hash_val. Qed.

(** ** Two blocks *)

Definition header_at (n : Z) : Header SF :=
  mkHeader None None n None None 0 0 0 (str "0.13.2"%string) None None 0 None None.

(** Deploys a contract with a class, a nonce and storage; writes a value of the
    first system contract. *)
Definition diff0 : StateDiff SF :=
  mkDiff {[ stark 100 := {[ stark 5 := Some (stark 55) ]}; stark 1 := {[ stark 9 := Some (stark 90) ]} ]}
    {[ stark 100 := Some (stark 1) ]} {[ stark 100 := Some (stark 7) ]} [] ∅ ∅ ∅.

(** Changes the contract and empties the system contract, which is removed. *)
Definition diff1 : StateDiff SF :=
  mkDiff {[ stark 100 := {[ stark 5 := Some (stark 66) ]}; stark 1 := {[ stark 9 := Some (stark 0) ]} ]}
    {[ stark 100 := Some (stark 2) ]} ∅ [] ∅ {[ stark 100 := Some (stark 8) ]} ∅.

Definition σ0 : astate SF := apply_update empty_state 0 diff0 ∅.
Definition σ1 : astate SF := apply_update σ0 1 diff1 ∅.

Definition root_of (σ : astate SF) : SF :=
  match spec_root (E := stateError SF) σ (str "0.13.2"%string) with Ok r => r | _ => stark 0 end.

Ltac by_eval := unfold key_ok; refine (bool_decide_eq_true_1 _ _); vm_compute; reflexivity.

Lemma found_contract (σ : astate SF) a :
  match as_contracts σ !! a with Some _ => true | None => false end = true -> is_Some (as_contracts σ !! a).
Proof. by destruct (as_contracts σ !! a). Qed.

Lemma update0_ok : update_ok empty_state 0 diff0.
Proof.
  split; cbn [diff0 StorageDiffs Nonces DeployedContracts DeclaredV1Classes ReplacedClasses MigratedClasses].
  - done.
  - apply map_Forall_singleton. split_and!; [by eexists|by_eval|by_eval|done].
  - apply map_Forall_empty.
  - apply map_Forall_singleton. split; [by eexists|]. right. by eexists.
  - apply map_Forall_insert_2; [|apply map_Forall_singleton]; (split; [|apply map_Forall_singleton; split; [by eexists|by_eval]]).
    + right. left. by eexists.
    + right. right. vm_compute. reflexivity.
  - apply map_Forall_empty.
  - apply map_Forall_empty.
Qed.

Lemma update1_ok : update_ok σ0 1 diff1.
Proof.
  split; cbn [diff1 StorageDiffs Nonces DeployedContracts DeclaredV1Classes ReplacedClasses MigratedClasses].
  - done.
  - apply map_Forall_empty.
  - apply map_Forall_singleton. split; [by eexists|]. left. apply found_contract. vm_compute. reflexivity.
  - apply map_Forall_singleton. split; [by eexists|]. left. apply found_contract. vm_compute. reflexivity.
  - apply map_Forall_insert_2; [|apply map_Forall_singleton]; (split; [|apply map_Forall_singleton; split; [by eexists|by_eval]]).
    + left. apply found_contract. vm_compute. reflexivity.
    + right. right. vm_compute. reflexivity.
  - apply map_Forall_empty.
  - apply map_Forall_empty.
Qed.

Lemma root_eval {E} (o : outcome E SF) r : match o with Ok x => bool_decide (x = r) | _ => false end = true -> o = Ok r.
Proof. destruct o; try done. by intros ->%bool_decide_eq_true_1. Qed.

Ltac by_root := apply root_eval; vm_compute; reflexivity.

Definition empty_db : memory.Database := memory.New.

Lemma update_refines_witness :
  exists s kv,
    State_Update (header_at 0) (mkUpdate (Some (root_of σ0)) (Some felt_Zero) (Some diff0)) ∅ false
      (StateUpdate.New felt_Zero (fresh empty_db)) = (Ok tt, s) /\
    st_disk s = empty_db /\ memory.batch_Write (st_kv s) = (Ok tt, kv) /\
    opened (fresh (memory.bdb kv)) (root_of σ0) σ0.
Proof.
  apply (update_refines empty_db felt_Zero empty_state (header_at 0) diff0 ∅ false felt_Zero (root_of σ0) (root_of σ0)).
  - by apply genesis_opened.
  - exact update0_ok.
  - by_root.
  - by_root.
  - by right.
  - by_eval.
Defined.

(** The states after the blocks. *)
Definition states (n : Z) : astate SF :=
  if decide (n = 0 + 1) then σ1 else if decide (n = -1 + 1) then σ0 else empty_state.

Ltac by_lookup := intros a Ha; cbn [StorageDiffs Nonces DeployedContracts ReplacedClasses]; split_and!; try done;
  apply lookup_singleton_ne; intros <-; vm_compute in Ha; discriminate.

Lemma plain0 : no_system diff0.
Proof. by_lookup. Qed.

Lemma plain1 : no_system diff1.
Proof. by_lookup. Qed.

Lemma two_blocks : exists d, chain 1 d (root_of σ1) states.
Proof.
  destruct (chain_next (-1) empty_db felt_Zero (fun _ => empty_state) (header_at 0) diff0 ∅ false felt_Zero (root_of σ0) (root_of σ0))
    as [d H1]; [by apply chain_genesis|done|exact update0_ok|exact plain0|by_root|by_root|by right|by_eval|].
  apply (chain_next _ d _ _ (header_at 1) diff1 ∅ true (root_of σ0) felt_Zero (root_of σ1) H1);
    [done|exact update1_ok|exact plain1|by_root|by_root|by left|by_eval].
Qed.

(** The first block is read on the database after the second. *)
Lemma past_values_witness : exists d r, chain 1 d r states /\
  ContractStorageAt d (stark 100) (stark 5) 0 = Ok (stark 55) /\ ContractNonceAt d (stark 100) 0 = Ok (stark 1) /\
  ContractStorageAt d (stark 1) (stark 9) 0 = Ok (stark 90) /\ ContractStorageAt d (stark 1) (stark 9) 1 = Ok (stark 0).
Proof.
  destruct two_blocks as [d Hd]. exists d, (root_of σ1).
  destruct (past_values 1 d _ states 0 (stark 100) (stark 5) Hd) as (-> & -> & _); [lia|].
  destruct (past_values 1 d _ states 0 (stark 1) (stark 9) Hd) as (-> & _); [lia|].
  destruct (past_values 1 d _ states 1 (stark 1) (stark 9) Hd) as (-> & _); [lia|].
  split_and!; [exact Hd|by_root..].
Defined.

Lemma chain_well_formed_witness : exists d m, memory.db d = Some m /\ db_state m σ1 /\ state_ok σ1.
Proof.
  destruct two_blocks as [d Hd]. exists d. destruct (chain_well_formed 1 d _ states Hd) as (m & Hm & Hs & Hk & _).
  by exists m.
Defined.

(** An update with a wrong old root. *)
Lemma failed_update_writes_nothing_witness :
  exists e s', State_Update (header_at 0) (mkUpdate (Some (root_of σ0)) (Some (stark 5)) (Some diff0)) ∅ false
      (StateUpdate.New felt_Zero (fresh empty_db)) = (Err e, s') /\ st_kv s' = fresh empty_db.
Proof.
  destruct (State_Update _ _ _ _ _) as [o s'] eqn:E1.
  assert (He : match o with Err _ => true | _ => false end = true).
  { change o with ((o, s').1). rewrite <- E1. vm_compute. reflexivity. }
  destruct o as [|e| |]; try done. exists e, s'. split; [done|].
  by apply (failed_update_writes_nothing (header_at 0) (mkUpdate (Some (root_of σ0)) (Some (stark 5)) (Some diff0)) ∅ false
    (StateUpdate.New felt_Zero (fresh empty_db)) e s'); [apply newBatch_usable|].
Defined.

(** Elements of both lengths. *)
Lemma blake_encoding_injective_witness :
  length (encodeFelts [stark 5; stark (2 ^ 63); stark 2]) = 48%nat /\
  [stark (2 ^ 63 - 1 - 4); stark (2 ^ 63)] = [stark (2 ^ 63 - 5); stark (2 ^ 62 + 2 ^ 62)].
Proof.
  split; [vm_compute; reflexivity|].
  apply (blake_encoding_injective (F:=SF) [stark (2 ^ 63 - 1 - 4); stark (2 ^ 63)] [stark (2 ^ 63 - 5); stark (2 ^ 62 + 2 ^ 62)]).
  vm_compute. reflexivity.
Defined.
