(* ===== verification/Bloom.v ===== *)
(** * Bloom filters of events

    [src/core/aggregated_bloom_filter.go], [..._rows.go], [..._view.go] and
    [EventsBloom] of [src/core/transaction.go]: the bloom filter of the events of
    a block, the matrix that collects the filters of 8192 blocks, one bit per
    block in each row, and its encoding, which is also queried in place.  Bit sets
    and bloom filters are third-party packages. *)
From stdpp Require Import prelude gmap list.
From Stdlib Require Import ZArith Lia.
From S2P Require Import Prelude Felt MemDB Block.

Local Open Scope Z_scope.

(** ** Packages *)

(** [bitset]: growing sets of bits.  Operations that change a set are functions
    to the new set; [NextSetMany] is called with a buffer of a length. *)
Class BitSets := {
  BitSet : Type;
  bs_Zero : BitSet;
  bs_New : Z -> BitSet;
  bs_FromWithLength : Z -> list Z -> BitSet;
  bs_Len : BitSet -> Z;
  bs_Test : BitSet -> Z -> bool;
  bs_Set : BitSet -> Z -> BitSet;
  bs_Clear : BitSet -> Z -> BitSet;
  bs_SetAll : BitSet -> BitSet;
  bs_ClearAll : BitSet -> BitSet;
  bs_Count : BitSet -> Z;
  bs_NextSetMany : BitSet -> Z -> Z -> list Z;
  bs_NextSet : BitSet -> Z -> option Z;
  bs_InPlaceUnion : BitSet -> BitSet -> BitSet;
  bs_InPlaceIntersection : BitSet -> BitSet -> BitSet;
  bs_None : BitSet -> bool;
  bs_Words : BitSet -> list Z;
  bs_MarshalBinary : BitSet -> bytes;
}.

(** What its documentation says of the operations. *)
Class BitSetLaws `{!BitSets} : Prop := {
  bs_Len_nonneg b : 0 <= bs_Len b;
  bs_Test_range b i : bs_Test b i = true -> 0 <= i < bs_Len b;
  bs_Zero_len : bs_Len bs_Zero = 0;
  bs_New_len n : 0 <= n -> bs_Len (bs_New n) = n;
  bs_New_test n i : bs_Test (bs_New n) i = false;
  bs_Set_len b i : 0 <= i -> bs_Len (bs_Set b i) = Z.max (bs_Len b) (i + 1);
  bs_Set_test b i j : 0 <= i -> bs_Test (bs_Set b i) j = (j =? i) || bs_Test b j;
  bs_Clear_len b i : bs_Len (bs_Clear b i) = bs_Len b;
  bs_Clear_test b i j : bs_Test (bs_Clear b i) j = negb (j =? i) && bs_Test b j;
  bs_SetAll_len b : bs_Len (bs_SetAll b) = bs_Len b;
  bs_SetAll_test b i : bs_Test (bs_SetAll b) i = (0 <=? i) && (i <? bs_Len b);
  bs_ClearAll_len b : bs_Len (bs_ClearAll b) = bs_Len b;
  bs_ClearAll_test b i : bs_Test (bs_ClearAll b) i = false;
  bs_members b : bs_NextSetMany b 0 (bs_Count b) = filter (fun i => bs_Test b i = true) (seqZ 0 (bs_Len b));
  bs_NextSet_some b i j : bs_NextSet b i = Some j ->
    i <= j /\ bs_Test b j = true /\ forall k, i <= k < j -> bs_Test b k = false;
  bs_NextSet_none b i k : bs_NextSet b i = None -> i <= k -> bs_Test b k = false;
  bs_Union_len a b : bs_Len a = bs_Len b -> bs_Len (bs_InPlaceUnion a b) = bs_Len a;
  bs_Union_test a b i : bs_Test (bs_InPlaceUnion a b) i = bs_Test a i || bs_Test b i;
  bs_Intersection_len a b : bs_Len a = bs_Len b -> bs_Len (bs_InPlaceIntersection a b) = bs_Len a;
  bs_Intersection_test a b i : bs_Test (bs_InPlaceIntersection a b) i = bs_Test a i && bs_Test b i;
  bs_None_iff b : bs_None b = true <-> forall i, bs_Test b i = false;
  bs_Words_length b (k : nat) : bs_Len b = 64 * Z.of_nat k -> length (bs_Words b) = k;
  bs_Words_range b : Forall (fun v => is_u64 v) (bs_Words b);
  bs_Words_test b (w : nat) v r :
    bs_Words b !! w = Some v -> 0 <= r < 64 -> Z.testbit v r = bs_Test b (64 * Z.of_nat w + r);
  bs_From_len n ws : n = 64 * Z.of_nat (length ws) -> bs_Len (bs_FromWithLength n ws) = n;
  bs_From_words n ws : n = 64 * Z.of_nat (length ws) -> Forall (fun v => is_u64 v) ws -> bs_Words (bs_FromWithLength n ws) = ws;
  bs_Marshal_bytes b : bs_MarshalBinary b = be_bytes 8 (bs_Len b) ++ concat (be_bytes 8 <$> bs_Words b);
}.

(** [bloom]: a filter of [m] bits and [k] hash functions; [Locations] are the
    hashes of the data before they are reduced. *)
Class Blooms `{!BitSets} := {
  BloomFilter : Type;
  bloom_New : Z -> Z -> BloomFilter;
  bloom_Cap : BloomFilter -> Z;
  bloom_K : BloomFilter -> Z;
  bloom_BitSet : BloomFilter -> BitSet;
  bloom_Test : BloomFilter -> bytes -> bool;
  bloom_TestOrAdd : BloomFilter -> bytes -> bool * BloomFilter;
  bloom_Locations : bytes -> Z -> list Z;
}.

Class BloomLaws `{!BitSets} `{!Blooms} : Prop := {
  bloom_Locations_u64 d k : Forall (fun v => is_u64 v) (bloom_Locations d k);
  bloom_New_spec m k : 0 < m -> 0 < k ->
    bloom_Cap (bloom_New m k) = m /\ bloom_K (bloom_New m k) = k /\
    bs_Len (bloom_BitSet (bloom_New m k)) = m /\ forall i, bs_Test (bloom_BitSet (bloom_New m k)) i = false;
  bloom_Add_spec f d :
    let f' := (bloom_TestOrAdd f d).2 in
    bloom_Cap f' = bloom_Cap f /\ bloom_K f' = bloom_K f /\
    bs_Len (bloom_BitSet f') = bs_Len (bloom_BitSet f) /\
    forall i, bs_Test (bloom_BitSet f') i =
      bs_Test (bloom_BitSet f) i || bool_decide (i ∈ (fun l => l mod bloom_Cap f) <$> bloom_Locations d (bloom_K f));
  bloom_Test_spec f d :
    bloom_Test f d = forallb (fun l => bs_Test (bloom_BitSet f) (l mod bloom_Cap f)) (bloom_Locations d (bloom_K f));
}.

(** ** Errors *)

Inductive filterError :=
| ErrAggregatedBloomFilterBlockOutOfRange
| ErrBloomFilterSizeMismatch
| ErrMatchesBufferNil
| ErrMatchesBufferSizeMismatch
| ErrBloomFilterHeaderTooShort
| ErrBloomFilterRowCountMismatch
| ErrBloomFilterLenMismatch
| ErrBloomFilterRangeMismatch
| ErrBloomFilterRowBlobLenMismatch
| ErrBloomFilterRowBitsetLenMismatch
| ErrReadTooShort
| ErrCbor
| ErrStore (e : dbError)
| ErrFilterInit (e : filterError)
| ErrMaxScannedBlockLimitExceed
| ErrAggregatedBloomFilterFallbackNil
| ErrFetchedFilterBoundsMismatch
| ErrNilRunningFilter
| ErrUndefinedRangeEnd
| ErrBlockPruned (block oldest : Z)
| ErrPreConfirmed.

Definition EventsBloomLength : Z := 8192.
Definition EventsBloomHashFuncs : Z := 6.
Definition NumBlocksPerFilter : Z := 8192.
Definition MaxBlockOffsetPerFilter : Z := NumBlocksPerFilter - 1.

Definition wordsPerFilterRow : nat := Z.to_nat ((NumBlocksPerFilter + 63) / 64).
Definition filterBytesUint32 : nat := 4.
Definition filterBytesUint64 : nat := 8.
Definition filterHeaderSize : nat := 2 * filterBytesUint64 + filterBytesUint32.
Definition filterRowLenSize : nat := filterBytesUint32.
Definition filterBitsetLenSize : nat := filterBytesUint64.
Definition filterRowBlobLen : nat := filterBitsetLenSize + wordsPerFilterRow * filterBytesUint64.
Definition filterRowSize : nat := filterRowLenSize + filterRowBlobLen.

(** [binary.AppendVarint]: the sign in the lowest bit, seven bits in each byte. *)
Fixpoint append_uvarint (fuel : nat) (buf : bytes) (x : Z) : bytes :=
  match fuel with
  | O => buf
  | S fuel' =>
      if 128 <=? x then append_uvarint fuel' (buf ++ [Z.lor (x mod 256) 128 mod 256]) (Z.shiftr x 7)
      else buf ++ [x mod 256]
  end.

Definition AppendVarint (buf : bytes) (x : Z) : bytes :=
  let ux := u64 (Z.shiftl (u64 x) 1) in
  append_uvarint 10 buf (if x <? 0 then Z.lxor ux (2 ^ 64 - 1) else ux).

(** [binary.BigEndian.Uint32] and [Uint64] of [data[off:]]. *)
Definition uint_at {E} (n off : nat) (data : bytes) : outcome E Z :=
  if (length data <? off + n)%nat then Panic else Ok (be_val (take n (drop off data))).

Section bloom.
Context {F : Type} `{!FieldElement F} `{!BitSets} `{!Blooms}.
Abbreviation O := (outcome filterError).

(** ** [EventsBloom] *)

Definition key_and_index (key : F) (index : Z) : bytes := AppendVarint (felt_Bytes key) index.

Fixpoint bloom_keys (filter : BloomFilter) (index : Z) (keys : list F) : BloomFilter :=
  match keys with
  | [] => filter
  | key :: keys' => bloom_keys (bloom_TestOrAdd filter (key_and_index key index)).2 (index + 1) keys'
  end.

Definition bloom_event (filter : BloomFilter) (event : Event F) : O BloomFilter :=
  match ev_From event with
  | None => Panic
  | Some from => Ok (bloom_keys (bloom_TestOrAdd filter (felt_Bytes from)).2 0 (ev_Keys event))
  end.

Fixpoint bloom_events (filter : BloomFilter) (events : list (Event F)) : O BloomFilter :=
  match events with
  | [] => Ok filter
  | ev :: events' => f ← bloom_event filter ev; bloom_events f events'
  end.

Fixpoint bloom_receipts (filter : BloomFilter) (receipts : list (TransactionReceipt F)) : O BloomFilter :=
  match receipts with
  | [] => Ok filter
  | r :: receipts' => f ← bloom_events filter (rc_Events r); bloom_receipts f receipts'
  end.

Definition EventsBloom (receipts : list (TransactionReceipt F)) : O BloomFilter :=
  bloom_receipts (bloom_New EventsBloomLength EventsBloomHashFuncs) receipts.

End bloom.

Section filters.
Context `{!BitSets} `{!Blooms}.
Abbreviation O := (outcome filterError).

(** ** Rows *)

(** The matrix in memory, and its encoding. *)
Record memRows := mkMem { mem_rows : list BitSet }.
Record blobRows := mkBlob { blob_data : bytes }.

Class bloomRows (R : Type) := {
  intersectRows : R -> list Z -> list Z -> O (list Z);
  unmarshalRows : bytes -> O R;
}.

(** [s[:n]] of a slice that is shorter. *)
Definition reslice {A} (n : nat) (l : list A) : O (list A) :=
  if (length l <? n)%nat then Panic else Ok (take n l).

Fixpoint mem_intersect (rows : list BitSet) (indices matchWords : list Z) : O (list Z) :=
  match indices with
  | [] => Ok matchWords
  | index :: indices' =>
      match rows !! Z.to_nat index with
      | None => Panic
      | Some b =>
          row ← reslice wordsPerFilterRow (bs_Words b);
          mem_intersect rows indices' (zip_with Z.land matchWords row)
      end
  end.

Definition mem_intersectRows (r : memRows) (indices matchWords : list Z) : O (list Z) :=
  m ← reslice wordsPerFilterRow matchWords; mem_intersect (mem_rows r) indices m.

(** The bytes of the words of a row, after its lengths are checked. *)
Definition rowWordBytes (r : blobRows) (index : Z) : O bytes :=
  let data := blob_data r in
  let offset := (filterHeaderSize + Z.to_nat index * filterRowSize)%nat in
  blobLen ← uint_at 4 offset data;
  if negb (blobLen =? Z.of_nat filterRowBlobLen) then Err ErrBloomFilterRowBlobLenMismatch
  else
    let offset := (offset + filterRowLenSize)%nat in
    bitsetLen ← uint_at 8 offset data;
    if negb (bitsetLen =? NumBlocksPerFilter) then Err ErrBloomFilterRowBitsetLenMismatch
    else
      let offset := (offset + filterBitsetLenSize)%nat in
      reslice (wordsPerFilterRow * filterBytesUint64) (drop offset data).

(** The words of the bytes: eight bytes each. *)
Definition words_of_bytes (wordBytes : bytes) : list Z :=
  (fun w => be_val (take 8 (drop (w * filterBytesUint64) wordBytes))) <$> seq 0 wordsPerFilterRow.

Fixpoint unmarshal_rows (blob : blobRows) (is_ : list Z) : O (list BitSet) :=
  match is_ with
  | [] => Ok []
  | i :: is_' =>
      wordBytes ← rowWordBytes blob i;
      rows ← unmarshal_rows blob is_';
      Ok (bs_FromWithLength NumBlocksPerFilter (words_of_bytes wordBytes) :: rows)
  end.

Definition mem_unmarshalRows (data : bytes) : O memRows :=
  rows ← unmarshal_rows (mkBlob data) (seqZ 0 EventsBloomLength); Ok (mkMem rows).

Fixpoint blob_intersect (r : blobRows) (indices matchWords : list Z) : O (list Z) :=
  match indices with
  | [] => Ok matchWords
  | index :: indices' =>
      wordBytes ← rowWordBytes r index;
      blob_intersect r indices' (zip_with Z.land matchWords (words_of_bytes wordBytes))
  end.

Definition blob_intersectRows (r : blobRows) (indices matchWords : list Z) : O (list Z) :=
  m ← reslice wordsPerFilterRow matchWords; blob_intersect r indices m.

#[export] Instance mem_methods : bloomRows memRows := {|
  intersectRows := mem_intersectRows;
  unmarshalRows := mem_unmarshalRows;
|}.

#[export] Instance blob_methods : bloomRows blobRows := {|
  intersectRows := blob_intersectRows;
  unmarshalRows data := Ok (mkBlob data);
|}.

(** ** Views *)

Record filterView (R : Type) := mkView {
  bitmap : R;
  fromBlock : Z;
  toBlock : Z;
}.

Definition AggregatedBloomFilter : Type := filterView memRows.
Definition AggregatedBloomFilterView : Type := filterView blobRows.

End filters.

Arguments mkView {R} _ _ _.
Arguments bitmap {R} _.
Arguments fromBlock {R} _.
Arguments toBlock {R} _.

Section views.
Context `{!BitSets} `{!Blooms}.
Abbreviation O := (outcome filterError).

Definition makeBitset : BitSet :=
  bs_Clear (bs_Set bs_Zero MaxBlockOffsetPerFilter) MaxBlockOffsetPerFilter.

Definition NewAggregatedFilter (from : Z) : AggregatedBloomFilter :=
  mkView (mkMem (replicate (Z.to_nat EventsBloomLength) makeBitset)) from (u64 (from + MaxBlockOffsetPerFilter)).

Definition out_of_range (f : AggregatedBloomFilter) (blockNumber : Z) : bool :=
  (blockNumber <? fromBlock f) || (toBlock f <? blockNumber).

(** Sets a bit of the rows of the indices. *)
Fixpoint set_rows (rows : list BitSet) (indices : list Z) (i : Z) : O (list BitSet) :=
  match indices with
  | [] => Ok rows
  | index :: indices' =>
      match rows !! Z.to_nat index with
      | None => Panic
      | Some b => set_rows (<[Z.to_nat index := bs_Set b i]> rows) indices' i
      end
  end.

Fixpoint clear_rows (rows : list BitSet) (indices : list Z) (i : Z) : O (list BitSet) :=
  match indices with
  | [] => Ok rows
  | index :: indices' =>
      match rows !! Z.to_nat index with
      | None => Panic
      | Some b => clear_rows (<[Z.to_nat index := bs_Clear b i]> rows) indices' i
      end
  end.

Definition agg_Insert (f : AggregatedBloomFilter) (filter : option BloomFilter) (blockNumber : Z)
  : O AggregatedBloomFilter :=
  if out_of_range f blockNumber then Err ErrAggregatedBloomFilterBlockOutOfRange
  else
    match filter with
    | None => Ok f
    | Some bf =>
        let b := bloom_BitSet bf in
        if negb (bs_Len b =? EventsBloomLength) then Err ErrBloomFilterSizeMismatch
        else
          rows ← set_rows (mem_rows (bitmap f)) (bs_NextSetMany b 0 (bs_Count b)) (u64 (blockNumber - fromBlock f));
          Ok (mkView (mkMem rows) (fromBlock f) (toBlock f))
    end.

Definition agg_clear (f : AggregatedBloomFilter) (blockNumber : Z) : O AggregatedBloomFilter :=
  if out_of_range f blockNumber then Err ErrAggregatedBloomFilterBlockOutOfRange
  else
    rows ← clear_rows (mem_rows (bitmap f)) (seqZ 0 EventsBloomLength) (u64 (blockNumber - fromBlock f));
    Ok (mkView (mkMem rows) (fromBlock f) (toBlock f)).

Section queries.
Context {R : Type} `{!bloomRows R}.

(** The union over the keys of the blocks that have all bits of the key.
    [innerMatches] shares its words with the slice that is intersected. *)
Fixpoint blocks_for_keys (rows : R) (keys : list bytes) (innerMatches : BitSet) : SE BitSet filterError unit :=
  match keys with
  | [] => mret tt
  | key :: keys' =>
      let indices := (fun l => l mod EventsBloomLength) <$> bloom_Locations key EventsBloomHashFuncs in
      innerWords ← lift (intersectRows rows indices (bs_Words (bs_SetAll innerMatches)));
      let innerMatches := bs_FromWithLength NumBlocksPerFilter innerWords in
      modify (fun out => bs_InPlaceUnion out innerMatches);;
      blocks_for_keys rows keys' innerMatches
  end.

(** The buffer is the state, nil is [None]. *)
Definition BlocksForKeysInto (v : filterView R) (keys : list bytes) : SE (option BitSet) filterError unit := fun out =>
  match out with
  | None => (Err ErrMatchesBufferNil, None)
  | Some b =>
      if negb (bs_Len b =? NumBlocksPerFilter) then (Err ErrMatchesBufferSizeMismatch, out)
      else
        match keys with
        | [] => (Ok tt, Some (bs_SetAll b))
        | _ =>
            let innerMatches := bs_FromWithLength NumBlocksPerFilter (replicate wordsPerFilterRow 0) in
            let '(o, b') := blocks_for_keys (bitmap v) keys innerMatches (bs_ClearAll b) in (o, Some b')
        end
  end.

Definition RangeKey (v : filterView R) : Z * Z := (fromBlock v, toBlock v).

(** The range of blocks, after the framing is checked. *)
Definition parseHeader (data : bytes) : O (Z * Z) :=
  if (length data <? filterHeaderSize)%nat then Err ErrBloomFilterHeaderTooShort
  else
    count ← uint_at 4 (2 * filterBytesUint64) data;
    if negb (count =? EventsBloomLength) then Err ErrBloomFilterRowCountMismatch
    else if negb (Z.of_nat (length data) =? Z.of_nat filterHeaderSize + count * Z.of_nat filterRowSize)
    then Err ErrBloomFilterLenMismatch
    else
      from ← uint_at 8 0 data;
      to ← uint_at 8 filterBytesUint64 data;
      if negb (to =? u64 (from + MaxBlockOffsetPerFilter)) then Err ErrBloomFilterRangeMismatch
      else Ok (from, to).

Definition view_UnmarshalBinary (data : bytes) : O (filterView R) :=
  '(from, to) ← parseHeader data;
  rows ← unmarshalRows data;
  Ok (mkView rows from to).

End queries.

(** Never fails: the buffer has the right size. *)
Definition BlocksForKeys (f : AggregatedBloomFilter) (keys : list bytes) : O BitSet :=
  match BlocksForKeysInto f keys (Some (bs_New NumBlocksPerFilter)) with
  | (Ok _, Some b) => Ok b
  | (NoFuel, _) => NoFuel
  | _ => Panic
  end.

Definition u32_bytes (n : nat) : bytes := be_bytes 4 (Z.of_nat n).

Definition marshal_row (b : BitSet) : bytes :=
  let data := bs_MarshalBinary b in u32_bytes (length data) ++ data.

Definition agg_MarshalBinary (f : AggregatedBloomFilter) : bytes :=
  be_bytes 8 (fromBlock f) ++ be_bytes 8 (toBlock f) ++ u32_bytes (length (mem_rows (bitmap f))) ++
  concat (marshal_row <$> mem_rows (bitmap f)).

End views.
