(* ===== verification/BloomFacts.v ===== *)
(** * Bloom filters of events: facts

    The bits of the matrix of filters, queries of it in memory and in its
    encoding, and the encoding. *)
From stdpp Require Import prelude gmap list.
From Stdlib Require Import ZArith Lia.
From S2P Require Import Prelude Felt MemDB Block Bloom.

Local Open Scope Z_scope.

(** Bits of a slice of words. *)
Definition word_bit (ws : list Z) (x : Z) : bool :=
  match ws !! Z.to_nat (x / 64) with Some v => Z.testbit v (x mod 64) | None => false end.

Lemma word_bit_split ws (w : nat) r : 0 <= r < 64 ->
  word_bit ws (64 * Z.of_nat w + r) = match ws !! w with Some v => Z.testbit v r | None => false end.
Proof.
  intros Hr. unfold word_bit. replace (64 * Z.of_nat w + r) with (r + Z.of_nat w * 64) by lia.
  rewrite Z.div_add, Z.mod_add, Z.div_small, Z.mod_small by lia. by rewrite Z.add_0_l, Nat2Z.id.
Qed.

Lemma split_index x : 0 <= x -> exists (w : nat) r, x = 64 * Z.of_nat w + r /\ 0 <= r < 64.
Proof.
  intros Hx. exists (Z.to_nat (x / 64)), (x mod 64). pose proof (Z.div_mod x 64 ltac:(lia)).
  pose proof (Z.mod_pos_bound x 64 ltac:(lia)). pose proof (Z.div_pos x 64 Hx ltac:(lia)). lia.
Qed.

Lemma word_bit_land ws vs x : length ws = length vs -> 0 <= x -> word_bit (zip_with Z.land ws vs) x = word_bit ws x && word_bit vs x.
Proof.
  intros Hl Hx. destruct (split_index x Hx) as (w & r & -> & Hr). rewrite !word_bit_split by done.
  rewrite lookup_zip_with. destruct (ws !! w) as [v|] eqn:Ev; cbn; [|done].
  destruct (vs !! w) as [u|] eqn:Eu; cbn; [by rewrite Z.land_spec|]. by rewrite andb_false_r.
Qed.

Lemma land_u64 a b : is_u64 a -> is_u64 b -> is_u64 (Z.land a b).
Proof.
  intros [Ha Ha'] [Hb Hb']. split; [by apply Z.land_nonneg; left|].
  destruct (Z.eq_dec (Z.land a b) 0) as [->|Hne]; [lia|].
  apply Z.log2_lt_pow2; [pose proof (proj2 (Z.land_nonneg a b) (or_introl Ha)); lia|].
  eapply Z.le_lt_trans; [by apply Z.log2_land|]. apply Z.min_lt_iff. left.
  destruct (Z.eq_dec a 0) as [->|]; [rewrite Z.land_0_l in Hne; lia|]. apply Z.log2_lt_pow2; lia.
Qed.

Lemma zip_land_u64 ws vs :
  Forall (fun v => is_u64 v) ws -> Forall (fun v => is_u64 v) vs -> Forall (fun v => is_u64 v) (zip_with Z.land ws vs).
Proof.
  intros Hw. revert vs. induction Hw as [|a ws Ha Hw IH]; intros [|b vs] Hv; cbn; try constructor.
  - apply Forall_cons in Hv as [Hb _]. by apply land_u64.
  - apply Forall_cons in Hv as [_ Hv]. by apply IH.
Qed.

Section facts.
Context `{!BitSets} `{!BitSetLaws} `{!Blooms} `{!BloomLaws}.
Abbreviation O := (outcome filterError).

(** ** Bit sets *)

Lemma words_bit b (k : nat) x : bs_Len b = 64 * Z.of_nat k -> 0 <= x -> word_bit (bs_Words b) x = bs_Test b x.
Proof.
  intros Hl Hx. destruct (split_index x Hx) as (w & r & -> & Hr). rewrite word_bit_split by done.
  destruct (bs_Words b !! w) as [v|] eqn:Ev; [by eapply bs_Words_test|].
  destruct (bs_Test b _) eqn:Et; [|done]. apply bs_Test_range in Et. apply lookup_ge_None in Ev.
  rewrite (bs_Words_length b k Hl) in Ev. lia.
Qed.

Lemma from_bit n ws x : n = 64 * Z.of_nat (length ws) -> Forall (fun v => is_u64 v) ws -> 0 <= x ->
  bs_Test (bs_FromWithLength n ws) x = word_bit ws x.
Proof.
  intros Hn Hw Hx. rewrite <- (words_bit _ (length ws)) by (by rewrite ?bs_From_len). by rewrite bs_From_words.
Qed.

Lemma full_len : NumBlocksPerFilter = 64 * Z.of_nat wordsPerFilterRow.
Proof. reflexivity. Qed.

(** ** The matrix *)

Definition column (rows : list BitSet) (i x : Z) : bool :=
  match rows !! Z.to_nat i with Some b => bs_Test b x | None => false end.

Record rows_wf (rows : list BitSet) : Prop := {
  rw_length : Z.of_nat (length rows) = EventsBloomLength;
  rw_len : Forall (fun b => bs_Len b = NumBlocksPerFilter) rows;
}.

Record agg_wf (f : AggregatedBloomFilter) : Prop := {
  aw_rows : rows_wf (mem_rows (bitmap f));
  aw_from : 0 <= fromBlock f;
  aw_to : toBlock f = fromBlock f + MaxBlockOffsetPerFilter;
  aw_range : toBlock f < 2 ^ 64;
}.

Lemma makeBitset_spec : bs_Len makeBitset = NumBlocksPerFilter /\ forall x, bs_Test makeBitset x = false.
Proof.
  unfold makeBitset. split.
  - rewrite bs_Clear_len, bs_Set_len, bs_Zero_len by (unfold MaxBlockOffsetPerFilter, NumBlocksPerFilter; lia). reflexivity.
  - intros x. rewrite bs_Clear_test, bs_Set_test by (unfold MaxBlockOffsetPerFilter, NumBlocksPerFilter; lia).
    destruct (x =? _); [done|]. cbn. destruct (bs_Test bs_Zero x) eqn:E; [|done].
    apply bs_Test_range in E. rewrite bs_Zero_len in E. lia.
Qed.

Lemma NewAggregatedFilter_spec from : 0 <= from -> from + MaxBlockOffsetPerFilter < 2 ^ 64 ->
  agg_wf (NewAggregatedFilter from) /\ fromBlock (NewAggregatedFilter from) = from /\
  forall i x, column (mem_rows (bitmap (NewAggregatedFilter from))) i x = false.
Proof.
  intros Hlo Hhi. destruct makeBitset_spec as [Hl Ht]. unfold NewAggregatedFilter. split_and!.
  - split; cbn; [|done| |].
    + split; [rewrite length_replicate; by apply Z2Nat.id|]. by apply Forall_replicate.
    + rewrite u64_small; [done|]. unfold MaxBlockOffsetPerFilter, NumBlocksPerFilter in *. lia.
    + apply u64_range.
  - done.
  - intros i x. unfold column. cbn. destruct (replicate _ _ !! _) as [b|] eqn:E; [|done].
    by apply lookup_replicate in E as [-> _].
Qed.

(** A row of a well-formed matrix. *)
Lemma row_at rows i : rows_wf rows -> 0 <= i < EventsBloomLength ->
  exists b, rows !! Z.to_nat i = Some b /\ bs_Len b = NumBlocksPerFilter.
Proof.
  intros [Hl Hf] Hi. destruct (lookup_lt_is_Some_2 rows (Z.to_nat i)) as [b Hb]; [lia|].
  exists b. split; [done|]. by eapply Forall_lookup_1 in Hf.
Qed.

(** Changes of one column of some rows. *)
Lemma rows_insert_wf rows i b : rows_wf rows -> bs_Len b = NumBlocksPerFilter -> rows_wf (<[i := b]> rows).
Proof. intros [Hl Hf] Hb. split; [by rewrite length_insert|]. by apply Forall_insert. Qed.

Lemma column_insert rows i b j x : rows_wf rows -> 0 <= i < EventsBloomLength -> 0 <= j ->
  column (<[Z.to_nat i := b]> rows) j x = if decide (j = i) then bs_Test b x else column rows j x.
Proof.
  intros [Hl _] Hi Hj. unfold column. destruct (decide (j = i)) as [->|Hne].
  - by rewrite list_lookup_insert_eq by lia.
  - rewrite list_lookup_insert_ne by lia. done.
Qed.

Lemma set_rows_spec rows indices x : rows_wf rows -> Forall (fun i => 0 <= i < EventsBloomLength) indices ->
  0 <= x < NumBlocksPerFilter ->
  exists rows', set_rows rows indices x = Ok rows' /\ rows_wf rows' /\
    forall j y, 0 <= j -> column rows' j y = column rows j y || (bool_decide (j ∈ indices) && (y =? x)).
Proof.
  intros Hw Hi Hx. revert rows Hw. induction Hi as [|i indices Hi _ IH]; intros rows Hw; cbn [set_rows].
  { exists rows. split_and!; [done|done|]. intros j y _. rewrite bool_decide_false; [by rewrite orb_false_r|apply not_elem_of_nil]. }
  destruct (row_at rows i Hw Hi) as (b & Eb & Hb). rewrite Eb.
  destruct (IH (<[Z.to_nat i := bs_Set b x]> rows)) as (rows' & E' & Hw' & Hc).
  { apply rows_insert_wf; [done|]. rewrite bs_Set_len by lia. lia. }
  exists rows'. split_and!; [done|done|]. intros j y Hj. rewrite Hc, column_insert by done.
  destruct (decide (j = i)) as [->|Hne].
  - rewrite bs_Set_test by lia. unfold column. rewrite Eb. rewrite (bool_decide_true (i ∈ i :: indices)) by left.
    destruct (y =? x), (bs_Test b y), (bool_decide (i ∈ indices)); done.
  - do 2 f_equal. apply bool_decide_ext. rewrite elem_of_cons. naive_solver.
Qed.

Lemma clear_rows_spec rows indices x : rows_wf rows -> Forall (fun i => 0 <= i < EventsBloomLength) indices ->
  exists rows', clear_rows rows indices x = Ok rows' /\ rows_wf rows' /\
    forall j y, 0 <= j -> column rows' j y = column rows j y && negb (bool_decide (j ∈ indices) && (y =? x)).
Proof.
  intros Hw Hi. revert rows Hw. induction Hi as [|i indices Hi _ IH]; intros rows Hw; cbn [clear_rows].
  { exists rows. split_and!; [done|done|]. intros j y _. rewrite bool_decide_false; [by rewrite andb_true_r|apply not_elem_of_nil]. }
  destruct (row_at rows i Hw Hi) as (b & Eb & Hb). rewrite Eb.
  destruct (IH (<[Z.to_nat i := bs_Clear b x]> rows)) as (rows' & E' & Hw' & Hc).
  { apply rows_insert_wf; [done|]. by rewrite bs_Clear_len. }
  exists rows'. split_and!; [done|done|]. intros j y Hj. rewrite Hc, column_insert by done.
  destruct (decide (j = i)) as [->|Hne].
  - rewrite bs_Clear_test. unfold column. rewrite Eb. rewrite (bool_decide_true (i ∈ i :: indices)) by left.
    destruct (y =? x), (bs_Test b y), (bool_decide (i ∈ indices)); done.
  - do 3 f_equal. apply bool_decide_ext. rewrite elem_of_cons. naive_solver.
Qed.

(** The bit of a block in the column of an index. *)
Definition bit_of (f : AggregatedBloomFilter) (i n : Z) : bool := column (mem_rows (bitmap f)) i (n - fromBlock f).

Definition bloom_bit (bf : option BloomFilter) (i : Z) : bool :=
  match bf with Some b => bs_Test (bloom_BitSet b) i | None => false end.

Definition bloom_wf (bf : option BloomFilter) : Prop :=
  match bf with Some b => bs_Len (bloom_BitSet b) = EventsBloomLength | None => True end.

Lemma offset_small f n : agg_wf f -> fromBlock f <= n <= toBlock f ->
  u64 (n - fromBlock f) = n - fromBlock f /\ 0 <= n - fromBlock f < NumBlocksPerFilter /\ out_of_range f n = false.
Proof.
  intros [_ Hlo Ht Hr] Hn. unfold MaxBlockOffsetPerFilter, NumBlocksPerFilter in *. split_and!; [apply u64_small; lia|lia|lia|].
  unfold out_of_range. destruct (Z.ltb_spec n (fromBlock f)); [lia|]. destruct (Z.ltb_spec (toBlock f) n); [lia|done].
Qed.

Lemma agg_Insert_spec f bf n : agg_wf f -> bloom_wf bf -> fromBlock f <= n <= toBlock f ->
  exists f', agg_Insert f bf n = Ok f' /\ agg_wf f' /\ fromBlock f' = fromBlock f /\ toBlock f' = toBlock f /\
    forall i m, 0 <= i -> bit_of f' i m = bit_of f i m || (bloom_bit bf i && (m =? n)).
Proof.
  intros Hf Hb Hn. destruct (offset_small f n Hf Hn) as (Ho & Hr & Hout). unfold agg_Insert. rewrite Hout.
  destruct bf as [b|]; cbn [bloom_bit bloom_wf] in *.
  2:{ exists f. split_and!; try done. intros i m _. by rewrite orb_false_r. }
  rewrite Hb. cbn [negb Z.eqb]. change (EventsBloomLength =? EventsBloomLength) with true. cbn [negb].
  rewrite bs_members, Hb, Ho.
  destruct (set_rows_spec (mem_rows (bitmap f)) (filter (fun i => bs_Test (bloom_BitSet b) i = true) (seqZ 0 EventsBloomLength))
    (n - fromBlock f)) as (rows' & E & Hw & Hc); [apply Hf| |done|].
  { apply Forall_forall. intros i Hi. apply list_elem_of_filter in Hi as [_ Hi]. apply elem_of_seqZ in Hi. lia. }
  rewrite E. eexists. split; [done|]. cbn. split_and!; [|done|done|].
  { destruct Hf as [? ? ? ?]. by split. }
  intros i m Hi. unfold bit_of. cbn. rewrite Hc by done. f_equal. f_equal.
  - destruct (bs_Test (bloom_BitSet b) i) eqn:Et.
    + apply bool_decide_eq_true_2, list_elem_of_filter. split; [done|]. apply elem_of_seqZ. apply bs_Test_range in Et. lia.
    + apply bool_decide_eq_false_2. intros Hin. apply list_elem_of_filter in Hin as [? _]. congruence.
  - apply eq_bool_prop_intro. rewrite !Is_true_true, !Z.eqb_eq. lia.
Qed.

Lemma agg_clear_spec f n : agg_wf f -> fromBlock f <= n <= toBlock f ->
  exists f', agg_clear f n = Ok f' /\ agg_wf f' /\ fromBlock f' = fromBlock f /\ toBlock f' = toBlock f /\
    forall i m, 0 <= i < EventsBloomLength -> bit_of f' i m = bit_of f i m && negb (m =? n).
Proof.
  intros Hf Hn. destruct (offset_small f n Hf Hn) as (Ho & Hr & Hout). unfold agg_clear. rewrite Hout, Ho.
  destruct (clear_rows_spec (mem_rows (bitmap f)) (seqZ 0 EventsBloomLength) (n - fromBlock f)) as (rows' & E & Hw & Hc); [apply Hf| |].
  { apply Forall_forall. intros i Hi. apply elem_of_seqZ in Hi. lia. }
  rewrite E. eexists. split; [done|]. cbn. split_and!; [|done|done|].
  { destruct Hf as [? ? ? ?]. by split. }
  intros i m Hi. unfold bit_of. cbn. rewrite Hc by lia. f_equal. f_equal.
  rewrite bool_decide_eq_true_2 by (apply elem_of_seqZ; lia). cbn.
  apply eq_bool_prop_intro. rewrite !Is_true_true, !Z.eqb_eq. lia.
Qed.

(** ** Queries *)

(** Rows whose bits are known. *)
Definition rows_cols {R} `{!bloomRows R} (r : R) (col : Z -> Z -> bool) : Prop :=
  forall indices ws, Forall (fun i => 0 <= i < EventsBloomLength) indices ->
    length ws = wordsPerFilterRow -> Forall (fun v => is_u64 v) ws ->
    exists ws', intersectRows r indices ws = Ok ws' /\ length ws' = wordsPerFilterRow /\ Forall (fun v => is_u64 v) ws' /\
      forall x, 0 <= x < NumBlocksPerFilter -> word_bit ws' x = word_bit ws x && forallb (fun i => col i x) indices.

Lemma reslice_full {A} n (l : list A) : length l = n -> reslice n l = Ok l.
Proof. intros <-. unfold reslice. by rewrite Nat.ltb_irrefl, firstn_all. Qed.

Lemma mem_rows_cols rows : rows_wf rows -> rows_cols (mkMem rows) (column rows).
Proof.
  intros Hw indices ws Hi Hl Hu. cbn [intersectRows mem_methods]. unfold mem_intersectRows. rewrite reslice_full by done.
  unfold mbind, outcome_bind. cbn [mem_rows]. revert ws Hl Hu. induction Hi as [|i indices Hi _ IH]; intros ws Hl Hu; cbn [mem_intersect].
  { exists ws. split_and!; try done. intros x _. by rewrite andb_true_r. }
  destruct (row_at rows i Hw Hi) as (b & Eb & Hb). rewrite Eb.
  pose proof (bs_Words_length b wordsPerFilterRow Hb) as Hbl. rewrite reslice_full by done. unfold mbind, outcome_bind.
  destruct (IH (zip_with Z.land ws (bs_Words b))) as (ws' & E & Hl' & Hu' & Hc).
  { rewrite length_zip_with. lia. }
  { apply zip_land_u64; [done|apply bs_Words_range]. }
  exists ws'. split_and!; try done. intros x Hx. rewrite Hc, word_bit_land by lia. cbn [forallb].
  rewrite (words_bit b wordsPerFilterRow) by (done || lia). unfold column at 2. rewrite Eb. by rewrite andb_assoc.
Qed.

(** The blocks that have all bits of a key. *)
Definition key_bits_set (col : Z -> Z -> bool) (key : bytes) (x : Z) : bool :=
  forallb (fun l => col (l mod EventsBloomLength) x) (bloom_Locations key EventsBloomHashFuncs).

Definition keys_match (col : Z -> Z -> bool) (keys : list bytes) (x : Z) : bool :=
  bool_decide (keys = []) || existsb (fun key => key_bits_set col key x) keys.

Lemma forallb_fmap {A B} (f : A -> B) (p : B -> bool) l : forallb p (f <$> l) = forallb (fun a => p (f a)) l.
Proof. induction l as [|a l IH]; [done|]. cbn. by rewrite IH. Qed.

Lemma indices_range key : Forall (fun i => 0 <= i < EventsBloomLength) ((fun l => l mod EventsBloomLength) <$> bloom_Locations key EventsBloomHashFuncs).
Proof. apply Forall_fmap, Forall_true. intros l. apply Z.mod_pos_bound. done. Qed.

Lemma blocks_for_keys_spec {R} `{!bloomRows R} (r : R) col keys inner out :
  rows_cols r col -> bs_Len inner = NumBlocksPerFilter -> bs_Len out = NumBlocksPerFilter ->
  exists out', blocks_for_keys r keys inner out = (Ok tt, out') /\ bs_Len out' = NumBlocksPerFilter /\
    forall x, 0 <= x < NumBlocksPerFilter -> bs_Test out' x = bs_Test out x || existsb (fun key => key_bits_set col key x) keys.
Proof.
  intros Hr. revert inner out. induction keys as [|key keys IH]; intros inner out Hi Ho; cbn [blocks_for_keys].
  { exists out. split_and!; [done|done|]. intros x _. by rewrite orb_false_r. }
  destruct (Hr ((fun l => l mod EventsBloomLength) <$> bloom_Locations key EventsBloomHashFuncs) (bs_Words (bs_SetAll inner)))
    as (ws & E & Hl & Hu & Hc); [apply indices_range| |apply bs_Words_range|].
  { apply bs_Words_length. by rewrite bs_SetAll_len. }
  unfold mbind, SE_bind, lift. rewrite E. cbn [modify].
  assert (Hn : NumBlocksPerFilter = 64 * Z.of_nat (length ws)) by (by rewrite Hl).
  destruct (IH (bs_FromWithLength NumBlocksPerFilter ws) (bs_InPlaceUnion out (bs_FromWithLength NumBlocksPerFilter ws)))
    as (out' & E' & Ho' & Hc').
  { by rewrite bs_From_len. }
  { rewrite bs_Union_len; [done|]. by rewrite bs_From_len. }
  exists out'. split_and!; [exact E'|done|]. intros x Hx. rewrite Hc', bs_Union_test, from_bit by (done || lia).
  rewrite Hc by done. cbn [existsb]. rewrite (words_bit _ wordsPerFilterRow) by (lia || by rewrite bs_SetAll_len).
  rewrite bs_SetAll_test, Hi. destruct (Z.leb_spec 0 x); [|lia]. destruct (Z.ltb_spec x NumBlocksPerFilter); [|lia]. cbn [andb].
  rewrite forallb_fmap. by rewrite orb_assoc.
Qed.

Lemma BlocksForKeysInto_spec {R} `{!bloomRows R} (v : filterView R) col keys out :
  rows_cols (bitmap v) col -> bs_Len out = NumBlocksPerFilter ->
  exists out', BlocksForKeysInto v keys (Some out) = (Ok tt, Some out') /\ bs_Len out' = NumBlocksPerFilter /\
    forall x, 0 <= x < NumBlocksPerFilter -> bs_Test out' x = keys_match col keys x.
Proof.
  intros Hr Ho. unfold BlocksForKeysInto. rewrite Ho. change (NumBlocksPerFilter =? NumBlocksPerFilter) with true. cbn [negb].
  destruct keys as [|key keys].
  { eexists. split_and!; [done|by rewrite bs_SetAll_len|]. intros x Hx. rewrite bs_SetAll_test, Ho. unfold keys_match. cbn.
    destruct (Z.leb_spec 0 x); [|lia]. by destruct (Z.ltb_spec x NumBlocksPerFilter); [|lia]. }
  destruct (blocks_for_keys_spec (bitmap v) col (key :: keys) (bs_FromWithLength NumBlocksPerFilter (replicate wordsPerFilterRow 0))
    (bs_ClearAll out) Hr) as (out' & E & Hl & Hc).
  { by rewrite bs_From_len by (by rewrite length_replicate). }
  { by rewrite bs_ClearAll_len. }
  rewrite E. eexists. split_and!; [done|done|]. intros x Hx. rewrite Hc, bs_ClearAll_test by done. done.
Qed.

(** ** The encoding *)

Lemma drop_concat {A} (l : list (list A)) n (i : nat) : Forall (fun x => length x = n) l -> drop (i * n) (concat l) = concat (drop i l).
Proof.
  intros Hl. revert i. induction Hl as [|x l Hx _ IH]; intros [|i]; cbn [Nat.mul]; try done.
  - cbn. by rewrite drop_nil.
  - change (drop (S i) (x :: l)) with (drop i l). cbn [concat]. rewrite <- IH, <- Hx at 1. by rewrite drop_app_add.
Qed.

Lemma length_concat_same {A} (l : list (list A)) n : Forall (fun x => length x = n) l -> length (concat l) = (length l * n)%nat.
Proof. induction 1 as [|x l Hx _ IH]; [done|]. cbn. by rewrite length_app, IH, Hx. Qed.

Lemma length_word_bytes (ws : list Z) : length (concat (be_bytes 8 <$> ws)) = (length ws * 8)%nat.
Proof.
  rewrite (length_concat_same _ 8), length_fmap; [done|]. apply Forall_fmap, Forall_true. intros. apply length_be_bytes.
Qed.

Lemma length_marshal_row b : bs_Len b = NumBlocksPerFilter -> length (marshal_row b) = filterRowSize.
Proof.
  intros Hb. unfold marshal_row, u32_bytes. rewrite length_app, length_be_bytes, bs_Marshal_bytes, length_app, length_be_bytes, length_word_bytes.
  by rewrite (bs_Words_length b wordsPerFilterRow Hb).
Qed.

Lemma words_of_bytes_concat ws : length ws = wordsPerFilterRow -> Forall (fun v => is_u64 v) ws ->
  words_of_bytes (concat (be_bytes 8 <$> ws)) = ws.
Proof.
  intros Hl Hu. apply list_eq. intros j. unfold words_of_bytes. rewrite list_lookup_fmap.
  destruct (decide (j < wordsPerFilterRow)%nat) as [Hj|Hj].
  2:{ rewrite lookup_ge_None_2 by (rewrite length_seq; lia). symmetry. apply lookup_ge_None. lia. }
  rewrite lookup_seq_lt by done. cbn [fmap option_fmap option_map]. rewrite Nat.add_0_l. unfold filterBytesUint64.
  rewrite drop_concat by (apply Forall_fmap, Forall_true; intros; apply length_be_bytes). rewrite <- fmap_drop.
  destruct (lookup_lt_is_Some_2 ws j) as [v Hv]; [lia|]. rewrite Hv, (drop_S _ _ _ Hv). cbn [fmap list_fmap concat].
  rewrite take_app_length' by (by rewrite length_be_bytes). f_equal. rewrite be_val_bytes. apply Z.mod_small.
  by eapply Forall_lookup_1 in Hu.
Qed.

Section encoded.
Variable f : AggregatedBloomFilter.
Hypothesis f_wf : agg_wf f.
Abbreviation rows := (mem_rows (bitmap f)).

Lemma marshal_split : exists hdr, length hdr = filterHeaderSize /\ agg_MarshalBinary f = hdr ++ concat (marshal_row <$> rows) /\
  hdr = be_bytes 8 (fromBlock f) ++ be_bytes 8 (toBlock f) ++ u32_bytes (length rows).
Proof.
  exists (be_bytes 8 (fromBlock f) ++ be_bytes 8 (toBlock f) ++ u32_bytes (length rows)). split; [|split].
  - unfold u32_bytes. rewrite !length_app, !length_be_bytes. reflexivity.
  - unfold agg_MarshalBinary. rewrite <- !app_assoc. reflexivity.
  - reflexivity.
Qed.

Lemma marshal_lengths : Forall (fun x => length x = filterRowSize) (marshal_row <$> rows).
Proof.
  apply Forall_fmap. eapply Forall_impl; [apply (rw_len _ (aw_rows _ f_wf))|]. intros b Hb. by apply length_marshal_row.
Qed.

Lemma length_marshal :
  Z.of_nat (length (agg_MarshalBinary f)) = Z.of_nat filterHeaderSize + EventsBloomLength * Z.of_nat filterRowSize.
Proof.
  destruct marshal_split as (hdr & Hl & -> & _). rewrite length_app, Hl.
  rewrite (length_concat_same _ _ marshal_lengths), length_fmap, Nat2Z.inj_add, Nat2Z.inj_mul.
  by rewrite (rw_length _ (aw_rows _ f_wf)).
Qed.

Lemma uint_at_app {E} n off (pre v post : bytes) : length pre = off -> length v = n ->
  uint_at (E:=E) n off (pre ++ v ++ post) = Ok (be_val v).
Proof.
  intros <- <-. unfold uint_at. rewrite !length_app. destruct (Nat.ltb_spec (length pre + (length v + length post)) (length pre + length v)); [lia|].
  by rewrite drop_app_length, take_app_length.
Qed.

Lemma rowWordBytes_marshal i b : 0 <= i -> rows !! Z.to_nat i = Some b ->
  rowWordBytes (mkBlob (agg_MarshalBinary f)) i = Ok (concat (be_bytes 8 <$> bs_Words b)).
Proof.
  intros Hi Hb. destruct marshal_split as (hdr & Hl & E & _).
  assert (Hlen : bs_Len b = NumBlocksPerFilter) by (by eapply Forall_lookup_1 in Hb; [|apply (rw_len _ (aw_rows _ f_wf))]).
  pose proof (bs_Words_length b wordsPerFilterRow Hlen) as Hw.
  set (pre := hdr ++ concat (marshal_row <$> take (Z.to_nat i) rows)).
  set (post := concat (marshal_row <$> drop (S (Z.to_nat i)) rows)).
  assert (Epre : length pre = (filterHeaderSize + Z.to_nat i * filterRowSize)%nat).
  { unfold pre. rewrite length_app, Hl. rewrite (length_concat_same _ filterRowSize), length_fmap, length_take_le.
    - done.
    - apply lookup_lt_Some in Hb. lia.
    - rewrite fmap_take. apply Forall_take, marshal_lengths. }
  assert (Esplit : agg_MarshalBinary f =
    pre ++ u32_bytes (length (bs_MarshalBinary b)) ++ be_bytes 8 (bs_Len b) ++ concat (be_bytes 8 <$> bs_Words b) ++ post).
  { rewrite E. unfold pre, post. rewrite <- (take_drop_middle rows _ b Hb) at 1.
    rewrite fmap_app, concat_app, fmap_cons. cbn [concat]. unfold marshal_row at 2. rewrite bs_Marshal_bytes at 2. by rewrite <- !app_assoc. }
  assert (Ebl : length (bs_MarshalBinary b) = filterRowBlobLen).
  { rewrite bs_Marshal_bytes, length_app, length_be_bytes, length_word_bytes, Hw. reflexivity. }
  rewrite Ebl in Esplit. set (n4 := u32_bytes filterRowBlobLen) in *. set (n8 := be_bytes 8 (bs_Len b)) in *.
  assert (L4 : length n4 = 4%nat) by apply length_be_bytes. assert (L8 : length n8 = 8%nat) by apply length_be_bytes.
  assert (V4 : be_val n4 = Z.of_nat filterRowBlobLen) by (unfold n4, u32_bytes; rewrite be_val_bytes; reflexivity).
  assert (V8 : be_val n8 = NumBlocksPerFilter) by (unfold n8; rewrite be_val_bytes, Hlen; reflexivity).
  assert (U1 : uint_at (E:=filterError) 4 (filterHeaderSize + Z.to_nat i * filterRowSize) (agg_MarshalBinary f) = Ok (be_val n4)).
  { rewrite Esplit. by apply uint_at_app. }
  assert (U2 : uint_at (E:=filterError) 8 (filterHeaderSize + Z.to_nat i * filterRowSize + filterRowLenSize) (agg_MarshalBinary f) = Ok (be_val n8)).
  { rewrite Esplit, app_assoc. apply uint_at_app; [|done]. by rewrite length_app, Epre, L4. }
  unfold rowWordBytes. cbn [blob_data]. rewrite U1, V4. unfold mbind, outcome_bind. rewrite Z.eqb_refl. cbn [negb].
  rewrite U2, V8, Z.eqb_refl. cbn [negb]. clear U1 U2.
  replace (drop _ (agg_MarshalBinary f)) with (concat (be_bytes 8 <$> bs_Words b) ++ post).
  - unfold reslice. rewrite length_app, length_word_bytes, Hw. unfold filterBytesUint64.
    destruct (Nat.ltb_spec (wordsPerFilterRow * 8 + length post) (wordsPerFilterRow * 8)); [lia|].
    by rewrite take_app_length' by (by rewrite length_word_bytes, Hw).
  - rewrite Esplit, !app_assoc, <- (app_assoc _ _ post). rewrite drop_app_length'; [done|].
    by rewrite !length_app, Epre, L4, L8.
Qed.

Lemma parseHeader_marshal : parseHeader (agg_MarshalBinary f) = Ok (fromBlock f, toBlock f).
Proof.
  destruct marshal_split as (hdr & Hl & E & Eh). destruct f_wf as [Hr Hlo Ht Hhi].
  assert (H4 : uint_at (E:=filterError) 4 (2 * filterBytesUint64) (agg_MarshalBinary f) = Ok EventsBloomLength).
  { rewrite E, Eh, app_assoc, <- app_assoc, uint_at_app by (unfold u32_bytes; rewrite ?length_app, !length_be_bytes; reflexivity).
    unfold u32_bytes. rewrite be_val_bytes, (rw_length _ Hr). reflexivity. }
  assert (H8 : forall n, 0 <= n < 2 ^ 64 -> be_val (be_bytes 8 n) = n).
  { intros n Hn. rewrite be_val_bytes. by apply Z.mod_small. }
  unfold MaxBlockOffsetPerFilter, NumBlocksPerFilter in *.
  assert (Hfrom : uint_at (E:=filterError) 8 0 (agg_MarshalBinary f) = Ok (fromBlock f)).
  { rewrite E, Eh, <- app_assoc. etransitivity; [by apply (uint_at_app 8 0 []); [|apply length_be_bytes]|]. by rewrite H8 by lia. }
  assert (Hto : uint_at (E:=filterError) 8 filterBytesUint64 (agg_MarshalBinary f) = Ok (toBlock f)).
  { rewrite E, Eh, <- !app_assoc, uint_at_app by (apply length_be_bytes). by rewrite H8 by lia. }
  pose proof length_marshal as Hlen. unfold parseHeader.
  destruct (Nat.ltb_spec (length (agg_MarshalBinary f)) filterHeaderSize); [unfold EventsBloomLength in Hlen; lia|].
  rewrite H4, Hfrom, Hto. unfold mbind, outcome_bind. rewrite Z.eqb_refl. cbn [negb].
  rewrite (proj2 (Z.eqb_eq _ _) Hlen). cbn [negb].
  rewrite (u64_small (fromBlock f + _)) by (unfold MaxBlockOffsetPerFilter, NumBlocksPerFilter; lia).
  destruct (Z.eqb_spec (toBlock f) (fromBlock f + MaxBlockOffsetPerFilter)); [done|].
  unfold MaxBlockOffsetPerFilter, NumBlocksPerFilter in *. lia.
Qed.

Lemma unmarshal_rows_marshal is_ : Forall (fun i => 0 <= i < EventsBloomLength) is_ ->
  unmarshal_rows (mkBlob (agg_MarshalBinary f)) is_ =
    Ok ((fun i => bs_FromWithLength NumBlocksPerFilter (from_option bs_Words [] (rows !! Z.to_nat i))) <$> is_).
Proof.
  induction 1 as [|i is_ Hi _ IH]; cbn [unmarshal_rows fmap list_fmap]; [done|].
  destruct (row_at rows i (aw_rows _ f_wf) Hi) as (b & Eb & Hb). rewrite (rowWordBytes_marshal i b) by (done || lia).
  unfold mbind, outcome_bind. rewrite IH, Eb. cbn [from_option]. rewrite words_of_bytes_concat; [done| |apply bs_Words_range].
  by apply bs_Words_length.
Qed.

Lemma unmarshal_mem : exists f', view_UnmarshalBinary (agg_MarshalBinary f) = Ok f' /\ agg_wf f' /\
  fromBlock f' = fromBlock f /\ toBlock f' = toBlock f /\
  forall i n, 0 <= i < EventsBloomLength -> bit_of f' i n = bit_of f i n.
Proof.
  unfold view_UnmarshalBinary. rewrite parseHeader_marshal. unfold mbind, outcome_bind. cbn [unmarshalRows mem_methods].
  unfold mem_unmarshalRows. rewrite unmarshal_rows_marshal.
  2:{ apply Forall_forall. intros i Hi. apply elem_of_seqZ in Hi. lia. }
  unfold mbind, outcome_bind. eexists. split; [reflexivity|]. cbn [fromBlock toBlock bitmap mem_rows].
  assert (Hrow : forall i b, 0 <= i < EventsBloomLength -> rows !! Z.to_nat i = Some b ->
    bs_Len (bs_FromWithLength NumBlocksPerFilter (bs_Words b)) = NumBlocksPerFilter /\
    forall x, bs_Test (bs_FromWithLength NumBlocksPerFilter (bs_Words b)) x = bs_Test b x).
  { intros i b Hi Hb. destruct (row_at rows i (aw_rows _ f_wf) Hi) as (b' & Eb & Hl). rewrite Hb in Eb. injection Eb as <-.
    assert (Hn : NumBlocksPerFilter = 64 * Z.of_nat (length (bs_Words b))) by (by rewrite (bs_Words_length b wordsPerFilterRow)).
    split; [by apply bs_From_len|]. intros x. destruct (Z.leb_spec 0 x) as [Hx|Hx].
    - rewrite from_bit by (done || apply bs_Words_range). by apply (words_bit b wordsPerFilterRow).
    - destruct (bs_Test (bs_FromWithLength _ _) x) eqn:E1; [apply bs_Test_range in E1; lia|].
      destruct (bs_Test b x) eqn:E2; [apply bs_Test_range in E2; lia|done]. }
  split_and!; [|done|done|].
  - destruct f_wf as [Hw Hlo Ht Hhi]. split; try done. cbn [bitmap mem_rows]. split.
    + rewrite length_fmap, length_seqZ. by apply Z2Nat.id.
    + apply Forall_fmap, Forall_forall. intros i Hi. apply elem_of_seqZ in Hi. cbn.
      destruct (row_at rows i Hw) as (b & Eb & _); [lia|]. rewrite Eb. apply (Hrow i); [lia|done].
  - intros i n Hi. unfold bit_of, column. cbn [bitmap mem_rows fromBlock]. rewrite list_lookup_fmap.
    rewrite (lookup_seqZ_lt 0 EventsBloomLength) by lia. cbn [fmap option_fmap option_map]. rewrite Z2Nat.id, Z.add_0_l by lia.
    destruct (row_at rows i (aw_rows _ f_wf) Hi) as (b & Eb & _). rewrite Eb. cbn [from_option]. by apply (Hrow i).
Qed.

Lemma unmarshal_blob : view_UnmarshalBinary (agg_MarshalBinary f) = Ok (mkView (mkBlob (agg_MarshalBinary f)) (fromBlock f) (toBlock f)).
Proof. unfold view_UnmarshalBinary. by rewrite parseHeader_marshal. Qed.

Lemma blob_rows_cols : rows_cols (mkBlob (agg_MarshalBinary f)) (column rows).
Proof.
  intros indices ws Hi Hl Hu. cbn [intersectRows blob_methods]. unfold blob_intersectRows. rewrite reslice_full by done.
  unfold mbind, outcome_bind. revert ws Hl Hu. induction Hi as [|i indices Hi _ IH]; intros ws Hl Hu; cbn [blob_intersect].
  { exists ws. split_and!; try done. intros x _. by rewrite andb_true_r. }
  destruct (row_at rows i (aw_rows _ f_wf) Hi) as (b & Eb & Hb). rewrite (rowWordBytes_marshal i b) by (done || lia).
  pose proof (bs_Words_length b wordsPerFilterRow Hb) as Hbl.
  unfold mbind, outcome_bind. rewrite words_of_bytes_concat by (done || apply bs_Words_range).
  destruct (IH (zip_with Z.land ws (bs_Words b))) as (ws' & E & Hl' & Hu' & Hc).
  { rewrite length_zip_with. lia. }
  { apply zip_land_u64; [done|apply bs_Words_range]. }
  exists ws'. split_and!; try done. intros x Hx. rewrite Hc, word_bit_land by lia. cbn [forallb].
  rewrite (words_bit b wordsPerFilterRow) by (done || lia). unfold column at 2. rewrite Eb. by rewrite andb_assoc.
Qed.

End encoded.

(** ** The filter of the events of a block *)

Definition events_bloom_ok (bf : BloomFilter) : Prop :=
  bloom_Cap bf = EventsBloomLength /\ bloom_K bf = EventsBloomHashFuncs /\ bs_Len (bloom_BitSet bf) = EventsBloomLength.

Definition bloom_has (bf : BloomFilter) (key : bytes) : bool :=
  forallb (fun l => bs_Test (bloom_BitSet bf) (l mod EventsBloomLength)) (bloom_Locations key EventsBloomHashFuncs).

Lemma bloom_Test_has bf key : events_bloom_ok bf -> bloom_Test bf key = bloom_has bf key.
Proof. intros (Hc & Hk & _). by rewrite bloom_Test_spec, Hc, Hk. Qed.

Lemma bloom_add bf d : events_bloom_ok bf ->
  events_bloom_ok (bloom_TestOrAdd bf d).2 /\ bloom_has (bloom_TestOrAdd bf d).2 d = true /\
  forall key, bloom_has bf key = true -> bloom_has (bloom_TestOrAdd bf d).2 key = true.
Proof.
  intros (Hc & Hk & Hl). destruct (bloom_Add_spec bf d) as (Hc' & Hk' & Hl' & Ht). split_and!.
  - unfold events_bloom_ok. by rewrite Hc', Hk', Hl'.
  - apply forallb_forall. intros l Hin. rewrite Ht, Hc, Hk. apply orb_true_intro. right.
    apply bool_decide_eq_true_2, list_elem_of_fmap. exists l. split; [done|]. by apply list_elem_of_In.
  - intros key Hh. unfold bloom_has in *. rewrite forallb_forall in Hh. apply forallb_forall. intros l Hin.
    rewrite Ht. by rewrite (Hh l Hin).
Qed.

End facts.

Section events.
Context {F : Type} `{!FieldElement F} `{!BitSets} `{!BitSetLaws} `{!Blooms} `{!BloomLaws}.

(** The keys of an event are in the filter, with their indices. *)
Definition event_in (bf : BloomFilter) (ev : Event F) : Prop :=
  exists from, ev_From ev = Some from /\ bloom_has bf (felt_Bytes from) = true /\
    forall (i : nat) k, ev_Keys ev !! i = Some k -> bloom_has bf (key_and_index k (Z.of_nat i)) = true.

Definition extends (bf bf' : BloomFilter) : Prop := events_bloom_ok bf' /\ forall key, bloom_has bf key = true -> bloom_has bf' key = true.

Lemma event_in_extends bf bf' ev : extends bf bf' -> event_in bf ev -> event_in bf' ev.
Proof. intros [_ He] (from & Ef & Hf & Hk). exists from. split_and!; [done|by apply He|]. intros i k Hi. by apply He, Hk. Qed.

Lemma bloom_keys_in keys bf (i0 : nat) : events_bloom_ok bf ->
  extends bf (bloom_keys bf (Z.of_nat i0) keys) /\
  forall (i : nat) k, keys !! i = Some k -> bloom_has (bloom_keys bf (Z.of_nat i0) keys) (key_and_index k (Z.of_nat (i0 + i))) = true.
Proof.
  revert bf i0. induction keys as [|k keys IH]; intros bf i0 Hok; cbn [bloom_keys]; [done|].
  destruct (bloom_add bf (key_and_index k (Z.of_nat i0)) Hok) as (Hok' & Hin & Hold).
  replace (Z.of_nat i0 + 1) with (Z.of_nat (S i0)) by lia. destruct (IH _ (S i0) Hok') as ([Hok2 He] & Hk). split.
  - split; [done|]. intros key Hh. by apply He, Hold.
  - intros [|i] k' Hk'; cbn in Hk'.
    + injection Hk' as <-. rewrite Nat.add_0_r. by apply He.
    + replace (i0 + S i)%nat with (S i0 + i)%nat by lia. by apply Hk.
Qed.

Lemma bloom_event_in bf ev bf' : events_bloom_ok bf -> bloom_event bf ev = Ok bf' -> extends bf bf' /\ event_in bf' ev.
Proof.
  intros Hok. unfold bloom_event. destruct (ev_From ev) as [from|] eqn:Ef; [|done]. intros [= <-].
  destruct (bloom_add bf (felt_Bytes from) Hok) as (Hok1 & Hin & Hold).
  destruct (bloom_keys_in (ev_Keys ev) _ 0 Hok1) as ([Hok2 He] & Hk). split.
  - split; [done|]. intros key Hh. by apply He, Hold.
  - exists from. split_and!; [done|by apply He|]. intros i k Hi. by apply (Hk i).
Qed.

Lemma bloom_events_in evs bf bf' : events_bloom_ok bf -> bloom_events bf evs = Ok bf' ->
  extends bf bf' /\ Forall (event_in bf') evs.
Proof.
  revert bf. induction evs as [|ev evs IH]; intros bf Hok; cbn [bloom_events]; [by intros [= <-]|].
  unfold mbind, outcome_bind. destruct (bloom_event bf ev) as [bf1|e| |] eqn:E1; try done. intros E2.
  destruct (bloom_event_in _ _ _ Hok E1) as [[Hok1 He1] Hin1]. destruct (IH _ Hok1 E2) as [[Hok2 He2] Hin2]. split.
  - split; [done|]. intros key Hh. by apply He2, He1.
  - constructor; [|done]. by eapply event_in_extends.
Qed.

Lemma bloom_receipts_in rs bf bf' : events_bloom_ok bf -> bloom_receipts bf rs = Ok bf' ->
  extends bf bf' /\ Forall (fun r => Forall (event_in bf') (rc_Events r)) rs.
Proof.
  revert bf. induction rs as [|r rs IH]; intros bf Hok; cbn [bloom_receipts]; [by intros [= <-]|].
  unfold mbind, outcome_bind. destruct (bloom_events bf (rc_Events r)) as [bf1|e| |] eqn:E1; try done. intros E2.
  destruct (bloom_events_in _ _ _ Hok E1) as [[Hok1 He1] Hin1]. destruct (IH _ Hok1 E2) as [[Hok2 He2] Hin2]. split.
  - split; [done|]. intros key Hh. by apply He2, He1.
  - constructor; [|done]. eapply Forall_impl; [exact Hin1|]. intros ev Hev. by eapply event_in_extends.
Qed.

(** No event of a block is missing in its filter. *)
Lemma EventsBloom_complete rs bf : EventsBloom (F:=F) rs = Ok bf ->
  events_bloom_ok bf /\ Forall (fun r => Forall (event_in bf) (rc_Events r)) rs.
Proof.
  intros E. destruct (bloom_New_spec EventsBloomLength EventsBloomHashFuncs) as (Hc & Hk & Hl & _); [done|done|].
  apply bloom_receipts_in in E; [|done]. by destruct E as [[? _] ?].
Qed.

End events.
