(* ===== verification/EventFilter.v ===== *)
(** * The running event filter

    [src/core/running_event_filter.go]: the filter of the current window of
    blocks, which is stored when the window is full, its initialisation, snapshot
    and reorgs; what filters and event queries need of the database; and event
    queries. *)
From stdpp Require Import prelude gmap list.
From Stdlib Require Import ZArith Lia.
From S2P Require Import Prelude Felt MemDB TrieDB FeltArith Block State Bloom.

Local Open Scope Z_scope.

(** The codec of byte strings and the cache are third-party packages. *)
Class CborBytes := {
  cbor_Marshal : bytes -> bytes;
  cbor_Unmarshal : bytes -> option bytes;
}.

Class CborBytesLaws `{!CborBytes} : Prop := {
  cbor_roundtrip b : cbor_Unmarshal (cbor_Marshal b) = Some b;
}.

(** A cache of a bounded size; [lru_contents] is what it holds. *)
Class LRU (V : Type) := {
  lruCache : Type;
  lru_contents : lruCache -> gmap (Z * Z) V;
  lru_New : Z -> lruCache;
  lru_Get : lruCache -> Z * Z -> option V * lruCache;
  lru_Add : lruCache -> Z * Z -> V -> lruCache;
  lru_Purge : lruCache -> lruCache;
}.

Class LRULaws (V : Type) `{!LRU V} : Prop := {
  lru_New_contents n : lru_contents (lru_New n) = ∅;
  lru_Get_value c k : (lru_Get c k).1 = lru_contents c !! k;
  lru_Get_contents c k : lru_contents (lru_Get c k).2 = lru_contents c;
  lru_Add_contents c k v : lru_contents (lru_Add c k v) ⊆ <[k := v]> (lru_contents c);
  lru_Purge_contents c : lru_contents (lru_Purge c) = ∅;
}.

(** What is read of the blocks of the chain: typed accessors of
    [src/core/accessors.go] and [src/pruner], which decode what the database
    holds. *)
Record TransactionEvents (F : Type) := mkTxEvents {
  te_Events : list (Event F);
  te_TransactionHash : option F;
}.

Arguments mkTxEvents {F} _ _.
Arguments te_Events {F} _.
Arguments te_TransactionHash {F} _.

Class BlockReader (F : Type) `{!FieldElement F} := {
  ChainHeight : disk -> outcome dbError Z;
  GetReceiptsByBlockNumber : disk -> Z -> outcome dbError (list (TransactionReceipt F));
  GetTransactionEventsByBlockNumber : disk -> Z -> outcome dbError (list (TransactionEvents F));
  GetBlockHeaderHashByNumber : disk -> Z -> outcome dbError F;
  BlockHeaderNumberByHash : disk -> F -> outcome dbError Z;
  L1HeadBlockNumber : disk -> outcome dbError Z;
  HasBlockCommitments : disk -> Z -> outcome dbError unit;
  OldestRetainedBlock : disk -> outcome dbError Z;
}.

(** Stores that write to a database. *)
Class Backed (S : Type) := {
  st_database : S -> disk;
  set_database : S -> disk -> S;
}.

#[export] Instance disk_backed : Backed disk := {| st_database d := d; set_database _ d := d |}.

#[export] Instance batch_backed : Backed memory.dbBatch := {|
  st_database b := memory.bdb b;
  set_database b d := memory.mkDbBatch d (memory.bat b);
|}.

Section running.
Context {F : Type} `{!FieldElement F} `{!FieldArith F} `{!BitSets} `{!Blooms} `{!CborBytes} `{!BlockReader F}.
Abbreviation O := (outcome filterError).
Abbreviation ABF := (AggregatedBloomFilter).

(** ** Buckets *)

Definition range_key_Marshal (k : Z * Z) : bytes := be_bytes 8 k.1 ++ be_bytes 8 k.2.

Definition AggregatedBloomFilterKey (from to : Z) : bytes :=
  Bucket_Key aggregatedBloomFilters [range_key_Marshal (from, to)].

(** [cbor.Unmarshal] of a value that decodes itself from a byte string. *)
Definition cbor_decode {A} (decode : bytes -> O A) (data : bytes) : O A :=
  match cbor_Unmarshal data with Some b => decode b | None => Err ErrCbor end.

Definition get_filter {A} (decode : bytes -> O A) (d : disk) (k : Z * Z) : O A :=
  data ← map_err ErrStore (memory.Get d (AggregatedBloomFilterKey k.1 k.2));
  cbor_decode decode data.

(** [AggregatedBloomFiltersBucket.Get] *)
Definition GetAggregatedBloomFilter (d : disk) (k : Z * Z) : O ABF := get_filter view_UnmarshalBinary d k.

Definition GetAggregatedBloomFilterView (d : disk) (k : Z * Z) : O AggregatedBloomFilterView :=
  get_filter view_UnmarshalBinary d k.

Definition is_missing (e : filterError) : bool := match e with ErrStore ErrNotFound => true | _ => false end.

(** ** The running filter *)

(** An initialiser returns the window and the next block. *)
Definition initializer : Type := SE disk filterError (option ABF * Z).

Record RunningEventFilter := mkRunning {
  rf_inner : option ABF;
  rf_next : Z;
  rf_initialize : option initializer;
  rf_initErr : option filterError;
  rf_once : bool;
}.

Definition NewRunningEventFilterHot (filter : ABF) (nextBlock : Z) : RunningEventFilter :=
  mkRunning (Some filter) nextBlock None None false.

Definition NewRunningEventFilterLazy (initialize : initializer) : RunningEventFilter :=
  mkRunning None 0 (Some initialize) None false.

Definition set_window (f : RunningEventFilter) (inner : ABF) : RunningEventFilter :=
  mkRunning (Some inner) (rf_next f) (rf_initialize f) (rf_initErr f) (rf_once f).

Definition set_next (f : RunningEventFilter) (next : Z) : RunningEventFilter :=
  mkRunning (rf_inner f) next (rf_initialize f) (rf_initErr f) (rf_once f).

(** The filter and the store it writes to. *)
Section operations.
Context {S : Type} `{!KVStore S} `{!Backed S}.
Abbreviation RM := (SE (RunningEventFilter * S) filterError).

Definition ensureInit : RM unit := fun '(f, s) =>
  match rf_initialize f with
  | Some initialize =>
      if rf_once f then
        (match rf_initErr f with Some e => Err e | None => Ok tt end, (f, s))
      else
        match initialize (st_database s) with
        | (Ok (inner, next), d) => (Ok tt, (mkRunning inner next (Some initialize) (rf_initErr f) true, set_database s d))
        | (Err e, d) =>
            (Err (ErrFilterInit e),
             (mkRunning (rf_inner f) (rf_next f) (Some initialize) (Some (ErrFilterInit e)) true, set_database s d))
        | (Panic, d) => (Panic, (f, set_database s d))
        | (NoFuel, d) => (NoFuel, (f, set_database s d))
        end
  | None => (match rf_initErr f with Some e => Err e | None => Ok tt end, (f, s))
  end.

Definition on_store {A} (m : SE S dbError A) : RM A := zoom snd (fun x s => (x.1, s)) ErrStore m.

Definition inner_filter : RM ABF := x ← get_state; deref (rf_inner x.1).

Definition insert (bloom : option BloomFilter) (blockNumber : Z) : RM unit :=
  ensureInit;;
  inner ← inner_filter;
  inner' ← lift (agg_Insert inner bloom blockNumber);
  modify (fun x => (set_window x.1 inner', x.2));;
  (if blockNumber =? toBlock inner' then
     on_store (kv_put (AggregatedBloomFilterKey (RangeKey inner').1 (RangeKey inner').2) (cbor_Marshal (agg_MarshalBinary inner')));;
     modify (fun x => (set_window x.1 (NewAggregatedFilter (u64 (blockNumber + 1))), x.2))
   else mret tt);;
  modify (fun x => (set_next x.1 (u64 (blockNumber + 1)), x.2)).

(** Reads of the filter. *)
Definition rf_FromBlock : RM Z := ensureInit;; inner ← inner_filter; mret (fromBlock inner).
Definition rf_ToBlock : RM Z := ensureInit;; inner ← inner_filter; mret (toBlock inner).
Definition rf_NextBlock : RM Z := ensureInit;; x ← get_state; mret (rf_next x.1).
Definition rf_InnerFilter : RM ABF := ensureInit;; inner_filter.
Definition rf_BlocksForKeys (keys : list bytes) : RM BitSet := ensureInit;; inner ← inner_filter; lift (BlocksForKeys inner keys).

(** The window before is read from the database. *)
Definition onReorg : RM unit :=
  ensureInit;;
  inner ← inner_filter;
  x ← get_state;
  let currRangeStart := fromBlock inner in
  let curBlock := u64 (rf_next x.1 - 1) in
  (if curBlock =? u64 (currRangeStart - 1) then
     on_store (kv_del (AggregatedBloomFilterKey (RangeKey inner).1 (RangeKey inner).2));;
     let rangeStartAligned := curBlock - curBlock mod NumBlocksPerFilter in
     let rangeEndAligned := u64 (rangeStartAligned + MaxBlockOffsetPerFilter) in
     y ← get_state;
     lastStoredFilter ← lift (GetAggregatedBloomFilter (st_database y.2) (rangeStartAligned, rangeEndAligned));
     modify (fun x => (set_window x.1 lastStoredFilter, x.2))
   else mret tt);;
  modify (fun x => (set_next x.1 curBlock, x.2));;
  inner' ← inner_filter;
  cleared ← lift (agg_clear inner' curBlock);
  modify (fun x => (set_window x.1 cleared, x.2)).

End operations.

(** ** The stored snapshot *)

Definition rf_MarshalBinary (f : RunningEventFilter) : O bytes :=
  match rf_inner f with
  | None => Panic
  | Some inner =>
      let innerBytes := agg_MarshalBinary inner in
      Ok (u32_bytes (length innerBytes) ++ innerBytes ++ be_bytes 8 (rf_next f))
  end.

Definition rf_UnmarshalBinary (data : bytes) : O RunningEventFilter :=
  if (length data <? 4)%nat then Err ErrReadTooShort
  else
    let innerLen := be_val (take 4 data) in
    let rest := drop 4 data in
    if Z.of_nat (length rest) <? innerLen then Err ErrReadTooShort
    else
      inner ← view_UnmarshalBinary (take (Z.to_nat innerLen) rest);
      let rest := drop (Z.to_nat innerLen) rest in
      if (length rest <? 8)%nat then Err ErrReadTooShort
      else Ok (mkRunning (Some inner) (be_val (take 8 rest)) None None false).

Definition RunningEventFilterKey : bytes := Bucket_Key runningEventFilter [].

Definition GetRunningEventFilter (d : disk) : O RunningEventFilter :=
  data ← map_err ErrStore (memory.Get d RunningEventFilterKey);
  cbor_decode rf_UnmarshalBinary data.

Definition rf_Write : SE (RunningEventFilter * disk) filterError unit :=
  ensureInit;;
  x ← get_state;
  data ← lift (rf_MarshalBinary x.1);
  on_store (memory.Put RunningEventFilterKey (cbor_Marshal data)).

(** ** Initialisation *)

Abbreviation DM := (SE (RunningEventFilter * disk) filterError).

(** Inserts the blocks [from], ..., [latest]; the fuel is their number. *)
Fixpoint fill_loop (fuel : nat) (blockNum latest : Z) : DM unit :=
  if negb (blockNum <=? latest) then mret tt
  else
    match fuel with
    | 0%nat => out_of_fuel
    | Datatypes.S fuel' =>
        x ← get_state;
        receipts ← lift (map_err ErrStore (GetReceiptsByBlockNumber x.2 blockNum));
        bloom ← lift (EventsBloom receipts);
        insert (Some bloom) blockNum;;
        fill_loop fuel' (u64 (blockNum + 1)) latest
    end.

Definition fillRunningEventFilter (from latest : Z) : DM unit :=
  fill_loop (Z.to_nat (latest - from + 1)) from latest.

(** The block after the last window that is stored, or 0. *)
Fixpoint scan_back (fuel : nat) (d : disk) (rangeStart rangeEnd : Z) : O Z :=
  match fuel with
  | 0%nat => NoFuel
  | Datatypes.S fuel' =>
      match GetAggregatedBloomFilter d (rangeStart, rangeEnd) with
      | Ok _ => Ok (u64 (rangeEnd + 1))
      | Err e =>
          if negb (is_missing e) then Err e
          else if rangeStart =? 0 then Ok 0
          else scan_back fuel' d (u64 (rangeStart - NumBlocksPerFilter)) (u64 (rangeEnd - NumBlocksPerFilter))
      | Panic => Panic
      | NoFuel => NoFuel
      end
  end.

(** Runs operations of a filter on the database of an initialiser. *)
Definition with_filter (f : RunningEventFilter) (m : DM unit) : SE disk filterError RunningEventFilter := fun d =>
  match m (f, d) with
  | (Ok _, (f', d')) => (Ok f', d')
  | (Err e, (_, d')) => (Err e, d')
  | (Panic, (_, d')) => (Panic, d')
  | (NoFuel, (_, d')) => (NoFuel, d')
  end.

Definition rebuildRunningEventFilter (latest : Z) : SE disk filterError RunningEventFilter :=
  d ← get_state;
  let rangeStartAligned := latest - latest mod NumBlocksPerFilter in
  let rangeEnd := u64 (rangeStartAligned + MaxBlockOffsetPerFilter) in
  continueFrom ← lift (scan_back (Datatypes.S (Z.to_nat (latest / NumBlocksPerFilter))) d rangeStartAligned rangeEnd);
  with_filter (NewRunningEventFilterHot (NewAggregatedFilter continueFrom) continueFrom)
    (fillRunningEventFilter continueFrom latest).

Definition InitializeRunningEventFilter : SE disk filterError RunningEventFilter :=
  d ← get_state;
  match ChainHeight d with
  | Err ErrNotFound => mret (NewRunningEventFilterHot (NewAggregatedFilter 0) 0)
  | Err e => fail (ErrStore e)
  | Panic => panic
  | NoFuel => out_of_fuel
  | Ok latest =>
      match GetRunningEventFilter d with
      | Panic => panic
      | NoFuel => out_of_fuel
      | Err e => if is_missing e then rebuildRunningEventFilter latest else fail e
      | Ok stored =>
          (* A stored filter is hot: its getters return its fields. *)
          let next := rf_next stored in
          inner ← deref (rf_inner stored);
          if next =? u64 (latest + 1) then mret (NewRunningEventFilterHot inner next)
          else if (next <=? latest) && (latest <=? toBlock inner) then
            with_filter (NewRunningEventFilterHot inner next) (fillRunningEventFilter next latest)
          else rebuildRunningEventFilter latest
      end
  end.

(** As the initialiser of a lazy filter. *)
Definition default_initializer : initializer :=
  f ← InitializeRunningEventFilter; mret (rf_inner f, rf_next f).

End running.

(** * Event queries

    [src/blockchain/event_matcher.go],
    [src/blockchain/aggregated_bloom_filter_cache.go] and
    [src/blockchain/event_filter.go]: which events a query asks for, the iterator
    over the blocks that may have such events, and queries, which return a part
    of the events and a token to continue with. *)

Section query.
Context {F : Type} `{!FieldElement F} `{!FieldArith F} `{!MapOrder F}.
Context `{!BitSets} `{!Blooms} `{!CborBytes} `{!BlockReader F} `{!LRU AggregatedBloomFilterView}.
Abbreviation O := (outcome filterError).

(** ** [EventMatcher] *)

Record EventMatcher := mkMatcher {
  contractAddresses : list F;
  contractAddressBytes : list bytes;
  keysMap : list (gmap F unit);
}.

Definition makeKeysMaps (filterKeys : list (list F)) : list (gmap F unit) :=
  (fun keys => list_to_map ((fun k => (k, tt)) <$> keys)) <$> filterKeys.

Definition NewEventMatcher (addresses : list F) (keys : list (list F)) : EventMatcher :=
  mkMatcher addresses (felt_Bytes <$> addresses) (makeKeysMaps keys).

(** The loop over the keys of an event. *)
Fixpoint match_keys (maps : list (gmap F unit)) (eventKeys : list F) : bool :=
  match eventKeys with
  | [] => true
  | eventKey :: eventKeys' =>
      match maps with
      | [] => true
      | m :: maps' =>
          if bool_decide (m = ∅) then match_keys maps' eventKeys'
          else match m !! eventKey with Some _ => match_keys maps' eventKeys' | None => false end
      end
  end.

Definition MatchesEventKeys (e : EventMatcher) (eventKeys : list F) : bool :=
  if (length eventKeys <? length (keysMap e))%nat then false else match_keys (keysMap e) eventKeys.

(** Whether one of the keys of an index is in the filter. *)
Fixpoint test_keys (filter : BloomFilter) (index : Z) (possible : bool) (keys : list (F * unit)) : bool :=
  match keys with
  | [] => possible
  | (key, _) :: keys' =>
      if bloom_Test filter (key_and_index key index) then true else test_keys filter index false keys'
  end.

Fixpoint test_indices (filter : BloomFilter) (index : Z) (possible : bool) (maps : list (gmap F unit)) : bool :=
  match maps with
  | [] => possible
  | m :: maps' =>
      let possible := test_keys filter index possible (map_order m) in
      if possible then test_indices filter (index + 1) possible maps' else false
  end.

Definition TestBloom (e : EventMatcher) (filter : BloomFilter) : bool :=
  if negb (bool_decide (contractAddressBytes e = [])) && negb (existsb (bloom_Test filter) (contractAddressBytes e))
  then false
  else test_indices filter 0 true (keysMap e).

Definition matchesAllBlocks (e : EventMatcher) : bool :=
  bool_decide (contractAddressBytes e = []) && forallb (fun m => bool_decide (m = ∅)) (keysMap e).

(** The intersection over the indices; [out] is the state. *)
Section candidates.
Context {R : Type} `{!bloomRows R}.
Variable filter : filterView R.

(** One lookup into the buffer [innerMatch], intersected with the result. *)
Definition intersect_keys (keys : list bytes) (innerMatch out : BitSet) : O (BitSet * BitSet) :=
  match BlocksForKeysInto filter keys (Some innerMatch) with
  | (Ok _, Some inner) => Ok (inner, bs_InPlaceIntersection out inner)
  | (Ok _, None) => Panic
  | (Err e, _) => Err e
  | (Panic, _) => Panic
  | (NoFuel, _) => NoFuel
  end.

Fixpoint candidate_indices (index : Z) (maps : list (gmap F unit)) (innerMatch out : BitSet) : O BitSet :=
  match maps with
  | [] => Ok out
  | m :: maps' =>
      let keys := (fun k => key_and_index k.1 index) <$> map_order m in
      '(innerMatch, out) ← intersect_keys keys innerMatch out;
      if bs_None out then Ok out else candidate_indices (index + 1) maps' innerMatch out
  end.

Definition getCandidateBlocksForFilterInto (e : EventMatcher) (out : option BitSet) : O BitSet :=
  match out with
  | None => Err ErrMatchesBufferNil
  | Some b =>
      if negb (bs_Len b =? NumBlocksPerFilter) then Err ErrMatchesBufferSizeMismatch
      else
        let out := bs_SetAll b in
        let innerMatch := bs_New NumBlocksPerFilter in
        if bool_decide (contractAddressBytes e = []) then candidate_indices 0 (keysMap e) innerMatch out
        else
          '(innerMatch, out) ← intersect_keys (contractAddressBytes e) innerMatch out;
          if bs_None out then Ok out else candidate_indices 0 (keysMap e) innerMatch out
  end.

End candidates.

(** ** Events of a block *)

Record FilteredEvent := mkFiltered {
  fe_Event : Event F;
  fe_BlockNumber : Z;
  fe_BlockHash : option F;
  fe_TransactionHash : option F;
  fe_TransactionIndex : Z;
  fe_EventIndex : Z;
}.

(** The events found, the number of events passed, and the hash of the block once
    it is read; whether the chunk is full. *)
Record scan := mkScan {
  sc_matched : list FilteredEvent;
  sc_processed : Z;
  sc_hash : option (option F);
}.

Inductive scanned := Continue (s : scan) | ChunkSizeReached (s : scan).

Section scan_block.
Variables (e : EventMatcher) (blockNum : Z) (skippedEvents chunkSize : Z).

Definition count_event (s : scan) : scan := mkScan (sc_matched s) (u64 (sc_processed s + 1)) (sc_hash s).

(** The hash of the block is read when the first event matches. *)
Definition scan_event (blockHashFn : unit -> O (option F)) (txHash : option F) (txIndex i : Z) (event : Event F)
    (s : scan) : O scanned :=
  if sc_processed s <? skippedEvents then Ok (Continue (count_event s))
  else
    contains ←
      (if bool_decide (contractAddresses e = []) then Ok true
       else match ev_From event with None => Panic | Some from => Ok (bool_decide (from ∈ contractAddresses e)) end);
    if negb contains then Ok (Continue (count_event s))
    else if negb (MatchesEventKeys e (ev_Keys event)) then Ok (Continue (count_event s))
    else if Z.of_nat (length (sc_matched s)) <? chunkSize then
      hash ← match sc_hash s with Some h => Ok h | None => blockHashFn tt end;
      Ok (Continue (count_event (mkScan (sc_matched s ++ [mkFiltered event blockNum hash txHash txIndex i])
        (sc_processed s) (Some hash))))
    else Ok (ChunkSizeReached s).

Fixpoint scan_events (blockHashFn : unit -> O (option F)) (txHash : option F) (txIndex i : Z)
    (events : list (Event F)) (s : scan) : O scanned :=
  match events with
  | [] => Ok (Continue s)
  | event :: events' =>
      r ← scan_event blockHashFn txHash txIndex i event s;
      match r with
      | Continue s' => scan_events blockHashFn txHash txIndex (i + 1) events' s'
      | ChunkSizeReached s' => Ok (ChunkSizeReached s')
      end
  end.

Fixpoint scan_transactions (blockHashFn : unit -> O (option F)) (txIndex : Z) (txs : list (TransactionEvents F))
    (s : scan) : O scanned :=
  match txs with
  | [] => Ok (Continue s)
  | tx :: txs' =>
      r ← scan_events blockHashFn (te_TransactionHash tx) txIndex 0 (te_Events tx) s;
      match r with
      | Continue s' => scan_transactions blockHashFn (txIndex + 1) txs' s'
      | ChunkSizeReached s' => Ok (ChunkSizeReached s')
      end
  end.

Definition AppendBlockEventsFromTransactionEvents (matchedEventsSofar : list FilteredEvent)
    (blockHashFn : unit -> O (option F)) (blockEvents : list (TransactionEvents F)) : O scanned :=
  scan_transactions blockHashFn 0 blockEvents (mkScan matchedEventsSofar 0 None).

(** The same loop over receipts, with the hash at hand. *)
Definition receipt_events (r : TransactionReceipt F) : TransactionEvents F :=
  mkTxEvents (rc_Events r) (rc_TransactionHash r).

Definition AppendBlockEventsFromReceipts (matchedEventsSofar : list FilteredEvent) (blockHash : option F)
    (receipts : list (TransactionReceipt F)) : O scanned :=
  scan_transactions (fun _ => Ok blockHash) 0 (receipt_events <$> receipts) (mkScan matchedEventsSofar 0 None).

End scan_block.

Definition MatchesAddress (e : EventMatcher) (eventFrom : option F) : bool :=
  if bool_decide (contractAddresses e = []) then true
  else match eventFrom with None => false | Some from => bool_decide (from ∈ contractAddresses e) end.

(** ** The cache of windows and the iterator over blocks *)

Record AggregatedBloomFilterCache := mkCache {
  ca_cache : lruCache (V := AggregatedBloomFilterView);
  ca_fallback : option (disk -> Z * Z -> O AggregatedBloomFilterView);
}.

Definition NewAggregatedBloomCache (size : Z) : AggregatedBloomFilterCache := mkCache (lru_New size) None.

Definition WithFallback (c : AggregatedBloomFilterCache) (f : disk -> Z * Z -> O AggregatedBloomFilterView) :=
  mkCache (ca_cache c) (Some f).

Definition cache_Reset (c : AggregatedBloomFilterCache) : AggregatedBloomFilterCache :=
  mkCache (lru_Purge (ca_cache c)) (ca_fallback c).

Definition SetMany (c : AggregatedBloomFilterCache) (views : list AggregatedBloomFilterView) :=
  mkCache (foldl (fun l v => lru_Add l (RangeKey v) v) (ca_cache c) views) (ca_fallback c).

Record MatchedBlockIterator := mkIterator {
  it_currentBits : option BitSet;
  it_nextIndex : Z;
  it_rangeStart : Z;
  it_currentWindowStart : Z;
  it_rangeEnd : Z;
  it_done : bool;
  it_maxScanned : Z;
  it_scannedCount : Z;
}.

(** The running filter is a pointer that may be nil. *)
Definition NewMatchedBlockIterator (from to maxScanned : Z) (runningFilter : option RunningEventFilter)
  : O MatchedBlockIterator :=
  match runningFilter with
  | None => Err ErrNilRunningFilter
  | Some _ =>
      let windowStart := from - from mod NumBlocksPerFilter in
      Ok (mkIterator None 0 from windowStart to (to <? from) maxScanned 0)
  end.

(** What an iteration changes: the iterator, the cache, and, when the running
    filter is not initialised yet, the filter and the database. *)
Record qstate := mkQ {
  q_it : MatchedBlockIterator;
  q_cache : AggregatedBloomFilterCache;
  q_filter : RunningEventFilter;
  q_db : disk;
}.

Abbreviation QM := (SE qstate filterError).

Definition set_it (q : qstate) (it : MatchedBlockIterator) : qstate := mkQ it (q_cache q) (q_filter q) (q_db q).

Definition set_lru (q : qstate) (c : lruCache) : qstate :=
  mkQ (q_it q) (mkCache c (ca_fallback (q_cache q))) (q_filter q) (q_db q).

Definition on_running {A} (m : SE (RunningEventFilter * disk) filterError A) : QM A :=
  zoom (fun q => (q_filter q, q_db q)) (fun q x => mkQ (q_it q) (q_cache q) x.1 x.2) id m.

Definition with_bits (it : MatchedBlockIterator) (b : BitSet) (next : Z) : MatchedBlockIterator :=
  mkIterator (Some b) next (it_rangeStart it) (it_currentWindowStart it) (it_rangeEnd it) (it_done it)
    (it_maxScanned it) (it_scannedCount it).

Definition with_window (it : MatchedBlockIterator) (w : Z) : MatchedBlockIterator :=
  mkIterator (it_currentBits it) (it_nextIndex it) (it_rangeStart it) w (it_rangeEnd it) (it_done it)
    (it_maxScanned it) (it_scannedCount it).

Definition finished (it : MatchedBlockIterator) : MatchedBlockIterator :=
  mkIterator (it_currentBits it) (it_nextIndex it) (it_rangeStart it) (it_currentWindowStart it) (it_rangeEnd it) true
    (it_maxScanned it) (it_scannedCount it).

Definition set_bits (b : BitSet) : QM unit := modify (fun q => set_it q (with_bits (q_it q) b (it_nextIndex (q_it q)))).

Section iterator.
Variable e : EventMatcher.

Definition candidates_of {R} `{!bloomRows R} (filter : filterView R) : QM unit :=
  q ← get_state;
  b ← lift (getCandidateBlocksForFilterInto filter e (it_currentBits (q_it q)));
  set_bits b.

Definition fillCurrentBits (fromAligned toAligned : Z) : QM unit :=
  if matchesAllBlocks e then
    q ← get_state;
    b ← deref (it_currentBits (q_it q));
    set_bits (bs_SetAll b)
  else
    runningFrom ← on_running rf_FromBlock;
    if fromAligned =? runningFrom then
      inner ← on_running rf_InnerFilter;
      candidates_of inner
    else
      q ← get_state;
      let '(found, c) := lru_Get (ca_cache (q_cache q)) (fromAligned, toAligned) in
      modify (fun q => set_lru q c);;
      match found with
      | Some filter => candidates_of filter
      | None =>
          match ca_fallback (q_cache q) with
          | None => fail ErrAggregatedBloomFilterFallbackNil
          | Some fallback =>
              filter ← lift (fallback (q_db q) (fromAligned, toAligned));
              if negb (fromBlock filter =? fromAligned) || negb (toBlock filter =? toAligned)
              then fail ErrFetchedFilterBoundsMismatch
              else
                modify (fun q => set_lru q (lru_Add (ca_cache (q_cache q)) (RangeKey filter) filter));;
                candidates_of filter
          end
      end.

Definition loadNextWindow : QM unit :=
  q ← get_state;
  let it := q_it q in
  if it_done it then mret tt
  else
    let '(windowStart, it') :=
      match it_currentBits it with
      | None => (it_currentWindowStart it, with_bits it (bs_New NumBlocksPerFilter) (it_rangeStart it mod NumBlocksPerFilter))
      | Some b => (u64 (it_currentWindowStart it + NumBlocksPerFilter), with_bits it b 0)
      end in
    modify (fun q => set_it q it');;
    if it_rangeEnd it <? windowStart then modify (fun q => set_it q (finished (q_it q)))
    else
      let fromAligned := windowStart - windowStart mod NumBlocksPerFilter in
      let toAligned := u64 (fromAligned + NumBlocksPerFilter - 1) in
      fillCurrentBits fromAligned toAligned;;
      modify (fun q => set_it q (with_window (q_it q) fromAligned)).

(** An error finishes the iteration. *)
Definition load_or_finish : QM unit := fun q =>
  match loadNextWindow q with
  | (Err err, q') => (Err err, set_it q' (finished (q_it q')))
  | r => r
  end.

(** Loads windows until one has a block, or the range ends. *)
Fixpoint next_set (fuel : nat) : QM (option Z) :=
  q ← get_state;
  b ← deref (it_currentBits (q_it q));
  match bs_NextSet b (it_nextIndex (q_it q)) with
  | Some next => mret (Some next)
  | None =>
      match fuel with
      | 0%nat => out_of_fuel
      | S fuel' =>
          load_or_finish;;
          q' ← get_state;
          if it_done (q_it q') then mret None else next_set fuel'
      end
  end.

(** A block, the end, or the limit of scanned blocks with the block after it. *)
Inductive next_result := NextBlockNumber (n : Z) | NextEnd | NextLimit (n : Z).

Definition yield_block (blockNum next : Z) : QM next_result :=
  modify (fun q => let it := q_it q in
    set_it q (mkIterator (it_currentBits it) (u64 (next + 1)) (it_rangeStart it) (it_currentWindowStart it) (it_rangeEnd it)
      (it_done it) (it_maxScanned it) (if 0 <? it_maxScanned it then u64 (it_scannedCount it + 1) else it_scannedCount it)));;
  q ← get_state;
  if (0 <? it_maxScanned (q_it q)) && (it_maxScanned (q_it q) <? it_scannedCount (q_it q)) then
    modify (fun q => set_it q (finished (q_it q)));;
    mret (NextLimit blockNum)
  else mret (NextBlockNumber blockNum).

(** The windows up to the end of the range bound the loop. *)
Definition it_Next : QM next_result :=
  q ← get_state;
  if it_done (q_it q) then mret NextEnd
  else
    (if it_currentBits (q_it q) then mret tt else load_or_finish);;
    q ← get_state;
    if it_done (q_it q) then mret NextEnd
    else
      next ← next_set (Z.to_nat ((it_rangeEnd (q_it q) - it_currentWindowStart (q_it q)) / NumBlocksPerFilter + 2));
      match next with
      | None => mret NextEnd
      | Some next =>
          q ← get_state;
          let blockNum := u64 (it_currentWindowStart (q_it q) + next) in
          if it_rangeEnd (q_it q) <? blockNum then
            modify (fun q => set_it q (finished (q_it q)));; mret NextEnd
          else yield_block blockNum next
      end.

End iterator.

(** ** [EventFilter] *)

Definition PreConfirmedFilterSentinel : Z := 2 ^ 64 - 1.

(** The blocks above the head of the chain, with their filters. *)
Record preConfirmedEntry := mkEntry {
  pe_Number : Z;
  pe_Receipts : list (TransactionReceipt F);
  pe_Bloom : BloomFilter;
}.

(** [Length], the number of the block [Head] and [OldestFirstWithBloom]. *)
Record PreConfirmedReader := mkReader {
  pc_Length : Z;
  pc_HeadNumber : Z;
  pc_OldestFirst : list preConfirmedEntry;
}.

Record EventFilter := mkEventFilter {
  ef_fromBlock : Z;
  ef_toBlock : Z;
  ef_matcher : EventMatcher;
  ef_maxScanned : Z;
  ef_preConfirmedFn : disk -> O (option PreConfirmedReader);
}.

Definition newEventFilter (addresses : list F) (keys : list (list F)) (from to : Z)
    (preConfirmedFn : disk -> O (option PreConfirmedReader)) : EventFilter :=
  mkEventFilter from to (NewEventMatcher addresses keys) (2 ^ 64 - 1) preConfirmedFn.

Definition WithLimit (e : EventFilter) (limit : Z) : EventFilter :=
  mkEventFilter (ef_fromBlock e) (ef_toBlock e) (ef_matcher e) limit (ef_preConfirmedFn e).

Definition EventFilterFrom : Z := 0.
Definition EventFilterTo : Z := 1.

Definition SetRangeEndBlockByNumber (e : EventFilter) (filterRange blockNumber : Z) : O EventFilter :=
  if filterRange =? EventFilterFrom then
    Ok (mkEventFilter blockNumber (ef_toBlock e) (ef_matcher e) (ef_maxScanned e) (ef_preConfirmedFn e))
  else if filterRange =? EventFilterTo then
    Ok (mkEventFilter (ef_fromBlock e) blockNumber (ef_matcher e) (ef_maxScanned e) (ef_preConfirmedFn e))
  else Err ErrUndefinedRangeEnd.

Definition SetRangeEndBlockByHash (d : disk) (e : EventFilter) (filterRange : Z) (blockHash : F) : O EventFilter :=
  blockNum ← map_err ErrStore (BlockHeaderNumberByHash d blockHash);
  SetRangeEndBlockByNumber e filterRange blockNum.

Definition SetRangeEndBlockToL1Head (d : disk) (e : EventFilter) (filterRange : Z) : O EventFilter :=
  l1Head ← map_err ErrStore (L1HeadBlockNumber d);
  SetRangeEndBlockByNumber e filterRange l1Head.

Record ContinuationToken := mkToken {
  tk_fromBlock : Z;
  tk_processedEvents : Z;
}.

Definition emptyToken : ContinuationToken := mkToken 0 0.

Definition token_IsEmpty (c : ContinuationToken) : bool := (tk_fromBlock c =? 0) && (tk_processedEvents c =? 0).

(** [src/pruner/retention.go] *)
Definition RequireRetained (d : disk) (blockNumber : Z) : O unit :=
  match HasBlockCommitments d blockNumber with
  | Ok _ => Ok tt
  | Err ErrNotFound =>
      Err (ErrBlockPruned blockNumber (match OldestRetainedBlock d with Ok oldest => oldest | _ => 0 end))
  | Err e => Err (ErrStore e)
  | Panic => Panic
  | NoFuel => NoFuel
  end.

Section events.
Variable e : EventFilter.

Definition headAndPreConfirmed (d : disk) : O (Z * option PreConfirmedReader) :=
  let chain_head := map_err ErrStore (ChainHeight d) in
  let above_head :=
    match ef_preConfirmedFn e d with
    | Ok (Some p) =>
        if pc_Length p =? 0 then latest ← chain_head; Ok (latest, None)
        else Ok (u64 (pc_HeadNumber p - pc_Length p), Some p)
    | Ok None | Err _ => latest ← chain_head; Ok (latest, None)
    | Panic => Panic
    | NoFuel => NoFuel
    end in
  if ef_toBlock e =? PreConfirmedFilterSentinel then above_head
  else
    latest ← chain_head;
    if ef_toBlock e <=? latest then Ok (latest, None) else above_head.

(** The loop over the blocks of the iterator. *)
Fixpoint canonical_loop (fuel : nat) (fromBlock : Z) (chunkSize skippedEvents lastProcessed : Z)
    (matchedEvents : list FilteredEvent) : QM (list FilteredEvent * ContinuationToken) :=
  match fuel with
  | 0%nat => out_of_fuel
  | S fuel' =>
      let stop last :=
        q ← get_state;
        let it := q_it q in
        if (it_maxScanned it <? it_scannedCount it) && (last <=? ef_toBlock e)
        then mret (matchedEvents, mkToken last 0) else mret (matchedEvents, emptyToken) in
      next ← it_Next (ef_matcher e);
      match next with
      | NextEnd => stop lastProcessed
      | NextLimit n => stop n
      | NextBlockNumber n =>
          q ← get_state;
          blockEvents ← lift (map_err ErrStore (GetTransactionEventsByBlockNumber (q_db q) n));
          let skippedEvents := if n =? fromBlock then skippedEvents else 0 in
          r ← lift (AppendBlockEventsFromTransactionEvents (ef_matcher e) n skippedEvents chunkSize matchedEvents
                (fun _ => h ← map_err ErrStore (GetBlockHeaderHashByNumber (q_db q) n); Ok (Some h)) blockEvents);
          match r with
          | ChunkSizeReached s => mret (sc_matched s, mkToken n (sc_processed s))
          | Continue s => canonical_loop fuel' fromBlock chunkSize skippedEvents n (sc_matched s)
          end
      end
  end.

Definition canonicalEvents (matchedEvents : list FilteredEvent) (fromBlock toBlock skippedEvents chunkSize : Z)
  : QM (list FilteredEvent * ContinuationToken) :=
  q ← get_state;
  it ← lift (NewMatchedBlockIterator fromBlock toBlock (ef_maxScanned e) (Some (q_filter q)));
  modify (fun q => set_it q it);;
  canonical_loop (Z.to_nat (toBlock - fromBlock + 3)) fromBlock chunkSize skippedEvents 0 matchedEvents.

(** The loop over the blocks above the head. *)
Fixpoint preConfirmed_loop (fromBlock chunkSize skippedEvents : Z) (entries : list preConfirmedEntry)
    (matchedEvents : list FilteredEvent) : O (list FilteredEvent * ContinuationToken) :=
  match entries with
  | [] => Ok (matchedEvents, emptyToken)
  | entry :: entries' =>
      let blockNumber := pe_Number entry in
      if blockNumber <? fromBlock then preConfirmed_loop fromBlock chunkSize skippedEvents entries' matchedEvents
      else if ef_toBlock e <? blockNumber then Ok (matchedEvents, emptyToken)
      else
        let skippedEvents := if blockNumber =? fromBlock then skippedEvents else 0 in
        if negb (TestBloom (ef_matcher e) (pe_Bloom entry))
        then preConfirmed_loop fromBlock chunkSize skippedEvents entries' matchedEvents
        else
          r ← AppendBlockEventsFromReceipts (ef_matcher e) blockNumber skippedEvents chunkSize matchedEvents None
                (pe_Receipts entry);
          match r with
          | ChunkSizeReached s => Ok (sc_matched s, mkToken blockNumber (sc_processed s))
          | Continue s => preConfirmed_loop fromBlock chunkSize skippedEvents entries' (sc_matched s)
          end
  end.

Definition preConfirmedEvents (matchedEvents : list FilteredEvent) (preConfirmed : option PreConfirmedReader)
    (fromBlock skippedEvents chunkSize : Z) : O (list FilteredEvent * ContinuationToken) :=
  match preConfirmed with
  | None => Ok (matchedEvents, emptyToken)
  | Some p =>
      if pc_Length p =? 0 then Ok (matchedEvents, emptyToken)
      else
        let fromBlock := if fromBlock =? PreConfirmedFilterSentinel then pc_HeadNumber p else fromBlock in
        preConfirmed_loop fromBlock chunkSize skippedEvents (pc_OldestFirst p) matchedEvents
  end.

Definition Events (cToken : option ContinuationToken) (chunkSize : Z) : QM (list FilteredEvent * ContinuationToken) :=
  q ← get_state;
  '(latest, preConfirmed) ← lift (headAndPreConfirmed (q_db q));
  let '(startBlock, skippedEvents) :=
    match cToken with
    | Some t => (tk_fromBlock t, tk_processedEvents t)
    | None => (ef_fromBlock e, 0)
    end in
  (if startBlock <=? latest then lift (RequireRetained (q_db q) startBlock) else mret tt);;
  if ef_toBlock e <=? latest then canonicalEvents [] startBlock (ef_toBlock e) skippedEvents chunkSize
  else if startBlock <=? latest then
    '(matchedEvents, t) ← canonicalEvents [] startBlock latest skippedEvents chunkSize;
    if negb (token_IsEmpty t) then mret (matchedEvents, t)
    else lift (preConfirmedEvents matchedEvents preConfirmed startBlock 0 chunkSize)
  else lift (preConfirmedEvents [] preConfirmed startBlock skippedEvents chunkSize).

End events.
End query.
