(* ===== verification/EventFacts.v ===== *)
(** * Event queries: facts

    The blocks an event matcher selects have all events it matches; the iterator
    yields the selected blocks in order; a query returns the matching events in
    order, and its token stands for the rest of them. *)
From stdpp Require Import prelude gmap list.
From Stdlib Require Import ZArith Lia.
From S2P Require Import Prelude Felt FeltArith MemDB MemDBFacts TrieDB Block State Bloom BloomFacts EventFilter.

Local Open Scope Z_scope.

(** ** Matchers *)

Section matcher.
Context {F : Type} `{!FieldElement F} `{!FieldElementLaws F} `{!FieldArith F} `{!MapOrder F} `{!MapOrderLaws F}.
Context `{!BitSets} `{!BitSetLaws} `{!Blooms} `{!BloomLaws}.
Implicit Types (e : EventMatcher (F:=F)) (maps : list (gmap F unit)).

Definition event_matches e (ev : Event F) : bool := MatchesAddress e (ev_From ev) && MatchesEventKeys e (ev_Keys ev).

(** The keys a filter is asked for at an index. *)
Definition keys_at (m : gmap F unit) (index : Z) : list bytes := (fun k => key_and_index k.1 index) <$> map_order m.

Definition has_any (has : bytes -> bool) (keys : list bytes) : bool := bool_decide (keys = []) || existsb has keys.

Fixpoint maps_match (has : bytes -> bool) (index : Z) maps : bool :=
  match maps with
  | [] => true
  | m :: maps' => has_any has (keys_at m index) && maps_match has (index + 1) maps'
  end.

(** What a filter says of a block, given the keys it has. *)
Definition candidate e (has : bytes -> bool) : bool :=
  has_any has (contractAddressBytes e) && maps_match has 0 (keysMap e).

Record matcher_wf e : Prop := {
  mw_bytes : contractAddressBytes e = felt_Bytes <$> contractAddresses e;
}.

Lemma NewEventMatcher_wf addresses keys : matcher_wf (NewEventMatcher addresses keys).
Proof. by split. Qed.

Lemma map_order_elem (m : gmap F unit) k : k ∈ (map_order m).*1 <-> is_Some (m !! k).
Proof.
  rewrite map_order_perm, list_elem_of_fmap. split.
  - intros ([k' u] & -> & Hin). apply elem_of_map_to_list in Hin. by eexists.
  - intros [u Hu]. exists (k, u). split; [done|]. by apply elem_of_map_to_list.
Qed.

Lemma keys_at_nil (m : gmap F unit) index : keys_at m index = [] <-> m = ∅.
Proof.
  unfold keys_at. split; [|intros ->].
  - intros E%fmap_nil_inv. pose proof (map_order_perm m) as Hp. rewrite E in Hp. symmetry in Hp.
    apply Permutation_nil_r in Hp. by apply map_to_list_empty_iff.
  - pose proof (map_order_perm (∅ : gmap F unit)) as Hp. rewrite map_to_list_empty in Hp. apply Permutation_nil_r in Hp. by rewrite Hp.
Qed.

Lemma has_any_key has (m : gmap F unit) index k :
  is_Some (m !! k) -> has (key_and_index k index) = true -> has_any has (keys_at m index) = true.
Proof.
  intros Hk Hh. unfold has_any. apply orb_true_intro. right. apply existsb_exists. exists (key_and_index k index). split; [|done].
  apply list_elem_of_In. unfold keys_at. apply map_order_elem in Hk. apply list_elem_of_fmap in Hk as ([k' u] & -> & Hin).
  apply list_elem_of_fmap. by exists (k', u).
Qed.

Lemma has_any_empty has (m : gmap F unit) index : m = ∅ -> has_any has (keys_at m index) = true.
Proof. intros Hm. unfold has_any. rewrite bool_decide_true; [done|]. by apply keys_at_nil. Qed.

(** No block with a matching event is left out. *)
Lemma maps_match_complete has maps (i0 : nat) keys :
  (length maps <= length keys)%nat -> match_keys maps keys = true ->
  (forall (i : nat) k, keys !! i = Some k -> has (key_and_index k (Z.of_nat (i0 + i))) = true) ->
  maps_match has (Z.of_nat i0) maps = true.
Proof.
  revert i0 keys. induction maps as [|m maps IH]; intros i0 keys Hl Hm Hk; [done|].
  destruct keys as [|k keys]; cbn in Hl; [lia|]. cbn [match_keys] in Hm. cbn [maps_match].
  replace (Z.of_nat i0 + 1) with (Z.of_nat (S i0)) by lia. apply andb_true_iff. split.
  - destruct (bool_decide_reflect (m = ∅)) as [->|Hne]; [by apply has_any_empty|].
    destruct (m !! k) as [u|] eqn:Eu; [|done]. apply (has_any_key has m _ k); [by eexists|].
    specialize (Hk 0%nat k eq_refl). by rewrite Nat.add_0_r in Hk.
  - apply (IH (S i0) keys); [lia| |].
    + destruct (bool_decide (m = ∅)); [done|]. by destruct (m !! k).
    + intros i k' Hi. replace (S i0 + i)%nat with (i0 + S i)%nat by lia. by apply (Hk (S i)).
Qed.

Lemma candidate_complete e bf ev :
  matcher_wf e -> event_in bf ev -> event_matches e ev = true -> candidate e (bloom_has bf) = true.
Proof.
  intros Hw (from & Ef & Hf & Hk) Hm. apply andb_true_iff in Hm as [Ha Hke]. unfold candidate. apply andb_true_iff. split.
  - unfold MatchesAddress in Ha. rewrite Ef in Ha. unfold has_any. rewrite (mw_bytes e Hw).
    destruct (bool_decide_reflect (contractAddresses e = [])) as [->|Hne]; [done|]. apply bool_decide_eq_true_1 in Ha.
    apply orb_true_intro. right. apply existsb_exists. exists (felt_Bytes from). split; [|done].
    apply list_elem_of_In, list_elem_of_fmap. by exists from.
  - unfold MatchesEventKeys in Hke. destruct (Nat.ltb_spec (length (ev_Keys ev)) (length (keysMap e))); [done|].
    apply (maps_match_complete _ _ 0 (ev_Keys ev)); [done|done|]. intros i k Hi. by apply Hk.
Qed.

Lemma has_any_ext has has' keys : (forall k, has k = has' k) -> has_any has keys = has_any has' keys.
Proof. intros E. unfold has_any. f_equal. induction keys as [|k keys IH]; [done|]. cbn. by rewrite E, IH. Qed.

Lemma candidate_ext e has has' : (forall k, has k = has' k) -> candidate e has = candidate e has'.
Proof.
  intros E. unfold candidate. rewrite (has_any_ext has has') by done. f_equal. generalize 0 as index.
  induction (keysMap e) as [|m maps IH]; intros index; [done|]. cbn. by rewrite IH, (has_any_ext has has').
Qed.

Lemma matches_all_candidate e has : matchesAllBlocks e = true -> candidate e has = true.
Proof.
  intros [Ha Hm]%andb_true_iff. unfold candidate, has_any. rewrite Ha. cbn [orb andb]. generalize 0 as index.
  induction (keysMap e) as [|m maps IH]; intros index; [done|]. cbn [forallb] in Hm. apply andb_true_iff in Hm as [Hm Hms].
  cbn [maps_match]. rewrite has_any_empty by (by apply bool_decide_eq_true_1 in Hm). by apply IH.
Qed.

(** [TestBloom] *)
Lemma test_keys_spec bf index (l : list (F * unit)) : events_bloom_ok bf ->
  test_keys bf index true l = has_any (bloom_has bf) ((fun k => key_and_index k.1 index) <$> l).
Proof.
  intros Hok. destruct l as [|[k u] l]; [done|]. unfold has_any. cbn [test_keys fmap list_fmap]. rewrite bool_decide_false by done.
  cbn [orb existsb fst]. rewrite bloom_Test_has by done. destruct (bloom_has bf _); [done|]. cbn [orb].
  induction l as [|[k' u'] l IH]; [done|]. cbn [test_keys fmap list_fmap existsb fst]. rewrite bloom_Test_has by done.
  by destruct (bloom_has bf _).
Qed.

Lemma TestBloom_spec e bf : events_bloom_ok bf -> TestBloom e bf = candidate e (bloom_has bf).
Proof.
  intros Hok. unfold TestBloom, candidate, has_any.
  assert (Ex : existsb (bloom_Test bf) (contractAddressBytes e) = existsb (bloom_has bf) (contractAddressBytes e)).
  { induction (contractAddressBytes e) as [|b l IH]; [done|]. cbn. by rewrite IH, bloom_Test_has. }
  rewrite Ex. clear Ex. destruct (bool_decide _), (existsb _ _); cbn [negb andb orb]; try done.
  all: generalize 0 as index; induction (keysMap e) as [|m maps IH]; intros index; [done|]; cbn [test_indices maps_match];
    rewrite test_keys_spec by done; fold (keys_at m index); unfold has_any in *; destruct (_ || _); cbn [andb]; [apply IH|reflexivity].
Qed.

(** ** Candidate blocks of a window *)

Section candidates.
Context {R : Type} `{!bloomRows R}.
Variables (v : filterView R) (col : Z -> Z -> bool).
Hypothesis cols : rows_cols (bitmap v) col.

Abbreviation has x := (fun key => key_bits_set col key x).

Lemma intersect_keys_spec keys inner out : bs_Len inner = NumBlocksPerFilter -> bs_Len out = NumBlocksPerFilter ->
  exists inner' out', intersect_keys v keys inner out = Ok (inner', out') /\
    bs_Len inner' = NumBlocksPerFilter /\ bs_Len out' = NumBlocksPerFilter /\
    forall x, 0 <= x < NumBlocksPerFilter -> bs_Test out' x = bs_Test out x && has_any (has x) keys.
Proof.
  intros Hi Ho. destruct (BlocksForKeysInto_spec v col keys inner cols Hi) as (inner' & E & Hl & Hc).
  unfold intersect_keys. rewrite E. exists inner', (bs_InPlaceIntersection out inner'). split_and!; [done|done| |].
  - rewrite bs_Intersection_len; [done|congruence].
  - intros x Hx. by rewrite bs_Intersection_test, Hc.
Qed.

Lemma candidate_indices_spec maps index inner out : bs_Len inner = NumBlocksPerFilter -> bs_Len out = NumBlocksPerFilter ->
  exists out', candidate_indices v index maps inner out = Ok out' /\ bs_Len out' = NumBlocksPerFilter /\
    forall x, 0 <= x < NumBlocksPerFilter -> bs_Test out' x = bs_Test out x && maps_match (has x) index maps.
Proof.
  revert index inner out. induction maps as [|m maps IH]; intros index inner out Hi Ho; cbn [candidate_indices maps_match].
  { exists out. split_and!; [done|done|]. intros x _. by rewrite andb_true_r. }
  destruct (intersect_keys_spec (keys_at m index) inner out Hi Ho) as (inner' & out' & E & Hi' & Ho' & Hc).
  unfold keys_at in E. rewrite E. unfold mbind, outcome_bind. destruct (bs_None out') eqn:En.
  - exists out'. split_and!; [done|done|]. intros x Hx. rewrite bs_None_iff in En. rewrite En.
    rewrite andb_assoc, <- Hc by done. by rewrite En.
  - destruct (IH (index + 1) inner' out' Hi' Ho') as (out2 & E2 & Ho2 & Hc2). exists out2. split_and!; [done|done|].
    intros x Hx. rewrite Hc2, Hc by done. by rewrite andb_assoc.
Qed.

Lemma getCandidateBlocks_spec e b : bs_Len b = NumBlocksPerFilter ->
  exists out, getCandidateBlocksForFilterInto v e (Some b) = Ok out /\ bs_Len out = NumBlocksPerFilter /\
    forall x, 0 <= x < NumBlocksPerFilter -> bs_Test out x = candidate e (has x).
Proof.
  intros Hb. unfold getCandidateBlocksForFilterInto. rewrite Hb, Z.eqb_refl. cbn [negb].
  assert (Hi : bs_Len (bs_New NumBlocksPerFilter) = NumBlocksPerFilter) by (by apply bs_New_len).
  assert (Ho : bs_Len (bs_SetAll b) = NumBlocksPerFilter) by (by rewrite bs_SetAll_len).
  assert (Hall : forall x, 0 <= x < NumBlocksPerFilter -> bs_Test (bs_SetAll b) x = true).
  { intros x Hx. rewrite bs_SetAll_test, Hb. destruct (Z.leb_spec 0 x); [|lia]. by destruct (Z.ltb_spec x NumBlocksPerFilter); [|lia]. }
  unfold candidate. destruct (bool_decide_reflect (contractAddressBytes e = [])) as [En|Hne].
  - destruct (candidate_indices_spec (keysMap e) 0 _ _ Hi Ho) as (out & E & Hl & Hc). exists out. split_and!; [done|done|].
    intros x Hx. rewrite Hc, Hall by done. rewrite En. done.
  - destruct (intersect_keys_spec (contractAddressBytes e) _ _ Hi Ho) as (inner' & out' & E & Hi' & Ho' & Hc).
    rewrite E. unfold mbind, outcome_bind. destruct (bs_None out') eqn:En.
    + exists out'. split_and!; [done|done|]. intros x Hx. rewrite bs_None_iff in En. specialize (Hc x Hx).
      rewrite En, Hall in Hc by done. cbn [andb] in Hc. by rewrite <- Hc, En.
    + destruct (candidate_indices_spec (keysMap e) 0 _ _ Hi' Ho') as (out & E2 & Hl & Hc2). exists out. split_and!; [done|done|].
      intros x Hx. by rewrite Hc2, Hc, Hall.
Qed.

End candidates.

End matcher.

(** ** The iterator over blocks *)

(** The start of the window of a block. *)
Definition window_of (n : Z) : Z := n - n mod NumBlocksPerFilter.

Lemma window_spec n : 0 <= n -> 0 <= window_of n <= n /\ n < window_of n + NumBlocksPerFilter /\ window_of n mod NumBlocksPerFilter = 0.
Proof.
  intros Hn. unfold window_of, NumBlocksPerFilter. pose proof (Z.mod_pos_bound n 8192 ltac:(lia)).
  pose proof (Z.div_mod n 8192 ltac:(lia)). pose proof (Z.div_pos n 8192 Hn ltac:(lia)). split_and!; try lia.
  rewrite Zminus_mod_idemp_r, Z.sub_diag. done.
Qed.

Lemma aligned_lt a b : a mod NumBlocksPerFilter = 0 -> b mod NumBlocksPerFilter = 0 -> a < b -> a + NumBlocksPerFilter <= b.
Proof.
  unfold NumBlocksPerFilter. intros Ha Hb Hl. pose proof (Z.div_mod a 8192 ltac:(lia)). pose proof (Z.div_mod b 8192 ltac:(lia)). nia.
Qed.

Lemma aligned_next a : a mod NumBlocksPerFilter = 0 -> (a + NumBlocksPerFilter) mod NumBlocksPerFilter = 0.
Proof. unfold NumBlocksPerFilter. intros Ha. rewrite <- Zplus_mod_idemp_r, Z_mod_same_full, Z.add_0_r. done. Qed.

Section iterator.
Context {F : Type} `{!FieldElement F} `{!FieldElementLaws F} `{!FieldArith F} `{!MapOrder F} `{!MapOrderLaws F}.
Context `{!BitSets} `{!BitSetLaws} `{!Blooms} `{!BloomLaws} `{!CborBytes} `{!BlockReader F}.
Context `{!LRU AggregatedBloomFilterView} `{!LRULaws AggregatedBloomFilterView}.
Variables (e : EventMatcher (F:=F)) (latest : Z) (bloom_at : Z -> BloomFilter).
Hypothesis latest_ok : 0 <= latest /\ latest + 4 * NumBlocksPerFilter < 2 ^ 64.

Definition cand (n : Z) : bool := candidate e (bloom_has (bloom_at n)).

(** A view of a window has the bits of the filters of its blocks. *)
Definition view_ok {R} `{!bloomRows R} (v : filterView R) (w : Z) : Prop :=
  fromBlock v = w /\ toBlock v = w + MaxBlockOffsetPerFilter /\
  exists col, rows_cols (bitmap v) col /\
    forall n i, w <= n <= w + MaxBlockOffsetPerFilter -> n <= latest -> 0 <= i < EventsBloomLength ->
      col i (n - w) = bs_Test (bloom_BitSet (bloom_at n)) i.

(** The filter is initialised. *)
Definition rf_ready (f : RunningEventFilter) : Prop := rf_initErr f = None /\ (rf_initialize f = None \/ rf_once f = true).

(** What queries read: the running window, the windows before it, the cache. *)
Record index_ok (q : qstate) (inner : AggregatedBloomFilter) (fb : disk -> Z * Z -> outcome filterError AggregatedBloomFilterView) : Prop := {
  io_ready : rf_ready (q_filter q);
  io_inner : rf_inner (q_filter q) = Some inner;
  io_window : view_ok inner (window_of (latest + 1));
  io_fallback : ca_fallback (q_cache q) = Some fb;
  io_stored w : w mod NumBlocksPerFilter = 0 -> 0 <= w -> w < window_of (latest + 1) ->
    exists v, fb (q_db q) (w, w + MaxBlockOffsetPerFilter) = Ok v /\ view_ok v w;
  io_cached w v : lru_contents (ca_cache (q_cache q)) !! (w, w + MaxBlockOffsetPerFilter) = Some v ->
    w < window_of (latest + 1) -> view_ok v w;
}.

Variables (inner : AggregatedBloomFilter) (fb : disk -> Z * Z -> outcome filterError AggregatedBloomFilterView).
Abbreviation indexed q := (index_ok q inner fb).
Implicit Types (q : qstate) (it : MatchedBlockIterator).

Lemma index_ok_it q it : indexed q -> indexed (set_it q it).
Proof. by intros [? ? ? ? ? ?]; split. Qed.

Lemma ensureInit_ready (f : RunningEventFilter) (d : disk) : rf_ready f -> ensureInit (f, d) = (Ok tt, (f, d)).
Proof. intros [He [Hi|Ho]]; unfold ensureInit; [by rewrite Hi, He|]. destruct (rf_initialize f); by rewrite ?Ho, He. Qed.

Lemma on_running_ready {A} (m : SE (RunningEventFilter * disk) filterError A) a q :
  m (q_filter q, q_db q) = (Ok a, (q_filter q, q_db q)) -> on_running m q = (Ok a, q).
Proof. intros E. unfold on_running, zoom. rewrite E. by destruct q. Qed.

Lemma running_reads q : indexed q ->
  on_running rf_FromBlock q = (Ok (fromBlock inner), q) /\ on_running rf_InnerFilter q = (Ok inner, q).
Proof.
  intros Hq. destruct (io_ready _ _ _ Hq) as [He Hi].
  split; apply on_running_ready; unfold rf_FromBlock, rf_InnerFilter, inner_filter, mbind, SE_bind, get_state;
    rewrite (ensureInit_ready _ _ (io_ready _ _ _ Hq)); cbn; by rewrite (io_inner _ _ _ Hq).
Qed.

(** The bits of the current window are right. *)
Definition bits_ok (b : BitSet) (w : Z) : Prop :=
  bs_Len b = NumBlocksPerFilter /\
  forall n, w <= n <= w + MaxBlockOffsetPerFilter -> n <= latest -> bs_Test b (n - w) = cand n.

Lemma view_bits {R} `{!bloomRows R} (v : filterView R) w b : view_ok v w -> bs_Len b = NumBlocksPerFilter ->
  exists out, getCandidateBlocksForFilterInto v e (Some b) = Ok out /\ bits_ok out w.
Proof.
  intros (_ & _ & col & Hc & Hb) Hl. destruct (getCandidateBlocks_spec v col Hc e b Hl) as (out & E & Hl' & Ht).
  exists out. split; [done|]. split; [done|]. intros n Hn Hlat.
  rewrite Ht by (unfold MaxBlockOffsetPerFilter in *; lia). apply candidate_ext. intros key. unfold key_bits_set, bloom_has.
  induction (bloom_Locations key EventsBloomHashFuncs) as [|l ls IH]; [done|]. cbn [forallb]. rewrite IH. f_equal.
  apply Hb; [done|done|]. by apply Z.mod_pos_bound.
Qed.

Lemma wp_candidates_of {R} `{!bloomRows R} (v : filterView R) w q b :
  indexed q -> view_ok v w -> it_currentBits (q_it q) = Some b -> bs_Len b = NumBlocksPerFilter ->
  wp (candidates_of e v) (fun _ q' => exists b', bits_ok b' w /\ q' = set_it q (with_bits (q_it q) b' (it_nextIndex (q_it q)))) q.
Proof.
  intros Hq Hv Hb Hl. destruct (view_bits v w b Hv Hl) as (out & E & Ho). unfold candidates_of. wp_step. wp_step. wp_step.
  rewrite Hb. eapply wp_lift; [exact E|]. unfold set_bits. wp_step. by exists out.
Qed.

(** Only the bits and the cache change. *)
Definition filled q q' (w : Z) : Prop :=
  indexed q' /\ q_filter q' = q_filter q /\ q_db q' = q_db q /\
  exists b, bits_ok b w /\ q_it q' = with_bits (q_it q) b (it_nextIndex (q_it q)).

Lemma filled_bits q q' w b : indexed q' -> q_filter q' = q_filter q -> q_db q' = q_db q -> q_it q' = q_it q -> bits_ok b w ->
  filled q (set_it q' (with_bits (q_it q') b (it_nextIndex (q_it q')))) w.
Proof. intros Hq Ef Ed Ei Hb. split; [by apply index_ok_it|]. split_and!; [done|done|]. exists b. split; [done|]. cbn. by rewrite Ei. Qed.

Lemma index_ok_lru q c : indexed q ->
  (forall w v, lru_contents c !! (w, w + MaxBlockOffsetPerFilter) = Some v -> w < window_of (latest + 1) -> view_ok v w) ->
  indexed (set_lru q c).
Proof. intros [? ? ? ? ? ?] Hc. by split. Qed.

Lemma wp_fillCurrentBits q w b :
  indexed q -> 0 <= w <= latest -> w mod NumBlocksPerFilter = 0 ->
  it_currentBits (q_it q) = Some b -> bs_Len b = NumBlocksPerFilter ->
  wp (fillCurrentBits e w (w + MaxBlockOffsetPerFilter)) (fun _ q' => filled q q' w) q.
Proof.
  intros Hq Hw Ha Hb Hl. unfold fillCurrentBits. destruct (matchesAllBlocks e) eqn:Em.
  { wp_step. wp_step. wp_step. eapply wp_deref; [exact Hb|]. unfold set_bits. wp_step. apply filled_bits; try done.
    split; [by rewrite bs_SetAll_len|]. intros n Hn _. unfold cand. rewrite matches_all_candidate by done.
    rewrite bs_SetAll_test, Hl. unfold MaxBlockOffsetPerFilter in *. destruct (Z.leb_spec 0 (n - w)); [|lia].
    by destruct (Z.ltb_spec (n - w) NumBlocksPerFilter); [|lia]. }
  destruct (running_reads q Hq) as [E1 E2]. destruct (window_spec (latest + 1)) as (Hwin & Hwin' & Hwa); [lia|].
  pose proof (io_window _ _ _ Hq) as Hin. pose proof (proj1 Hin) as Efrom.
  wp_step. eapply wp_intro; [exact E1|]. rewrite Efrom. destruct (Z.eqb_spec w (window_of (latest + 1))) as [->|Hne].
  { wp_step. eapply wp_intro; [exact E2|]. eapply wp_mono; [by apply (wp_candidates_of inner (window_of (latest + 1)) q b)|].
    intros [] q' (b' & Hb' & ->). by apply filled_bits. }
  assert (Hlt : w < window_of (latest + 1)).
  { destruct (Z.lt_trichotomy w (window_of (latest + 1))) as [|[?|Hgt]]; [done|done|].
    pose proof (aligned_lt _ _ Hwa Ha Hgt). lia. }
  wp_step. wp_step. destruct (lru_Get _ _) as [found c] eqn:Eg.
  assert (Ef : found = lru_contents (ca_cache (q_cache q)) !! (w, w + MaxBlockOffsetPerFilter)) by (by rewrite <- lru_Get_value, Eg).
  assert (Ec : lru_contents c = lru_contents (ca_cache (q_cache q))) by (by rewrite <- (lru_Get_contents (ca_cache (q_cache q)) (w, w + MaxBlockOffsetPerFilter)), Eg).
  assert (Hq1 : indexed (set_lru q c)).
  { apply index_ok_lru; [done|]. rewrite Ec. apply (io_cached _ _ _ Hq). }
  wp_step. wp_step. destruct found as [v|].
  { eapply wp_mono; [apply (wp_candidates_of v w (set_lru q c) b); [done| |done|done]|].
    - exact (io_cached _ _ _ Hq w v (eq_sym Ef) Hlt).
    - intros [] q' (b' & Hb' & ->). by apply filled_bits. }
  rewrite (io_fallback _ _ _ Hq). destruct (io_stored _ _ _ Hq w Ha) as (v & Ev & Hv); [lia|done|].
  wp_step. eapply wp_lift; [exact Ev|]. destruct Hv as (Hv1 & Hv2 & Hv3). rewrite Hv1, Hv2, !Z.eqb_refl. cbn [negb orb].
  wp_step. wp_step. set (q2 := set_lru _ _).
  assert (Hq2 : indexed q2).
  { unfold q2. apply index_ok_lru; [done|]. intros w' v' Hlook Hw'.
    eapply lookup_weaken in Hlook; [|apply lru_Add_contents]. unfold RangeKey in Hlook. rewrite Hv1, Hv2 in Hlook.
    destruct (decide (w' = w)) as [->|Hw2].
    - rewrite lookup_insert_eq in Hlook. injection Hlook as <-. done.
    - rewrite lookup_insert_ne in Hlook by congruence. apply (io_cached _ _ _ Hq); [|done]. rewrite <- Ec. exact Hlook. }
  eapply wp_mono; [by apply (wp_candidates_of v w q2 b)|]. intros [] q' (b' & Hb' & ->). by apply filled_bits.
Qed.



(** Positions of the iterator: the next block to look at is [p]. *)
Variable to : Z.
Hypothesis to_ok : 0 <= to <= latest.

Record it_ok it (p : Z) : Prop := {
  ik_end : it_rangeEnd it = to;
  ik_done : it_done it = false;
  ik_window : match it_currentBits it with
    | None => p = it_rangeStart it /\ it_currentWindowStart it = window_of p /\ 0 <= p <= to
    | Some b => exists w, it_currentWindowStart it = w /\ 0 <= w <= to /\ w mod NumBlocksPerFilter = 0 /\
        p = w + it_nextIndex it /\ 0 <= it_nextIndex it <= NumBlocksPerFilter /\ bits_ok b w
    end;
}.

(** What the loops do not change. *)
Definition kept q q' : Prop :=
  q_filter q' = q_filter q /\ q_db q' = q_db q /\ it_rangeEnd (q_it q') = it_rangeEnd (q_it q) /\
  it_maxScanned (q_it q') = it_maxScanned (q_it q) /\ it_scannedCount (q_it q') = it_scannedCount (q_it q).

Lemma kept_trans q q' q'' : kept q q' -> kept q' q'' -> kept q q''.
Proof. unfold kept. intuition congruence. Qed.

(** After a window was loaded: the iteration is over, or at a block of a window. *)
Definition loaded q (w i : Z) q' : Prop :=
  indexed q' /\ kept q q' /\
  ((it_done (q_it q') = true /\ to < w) \/
   (it_ok (q_it q') (w + i) /\ is_Some (it_currentBits (q_it q')) /\ it_currentWindowStart (q_it q') = w)).

Lemma wp_load_window q q1 w i b :
  indexed q1 -> kept q q1 -> it_rangeEnd (q_it q1) = to -> it_done (q_it q1) = false ->
  0 <= w <= to -> w mod NumBlocksPerFilter = 0 -> 0 <= i <= NumBlocksPerFilter -> it_nextIndex (q_it q1) = i ->
  it_currentBits (q_it q1) = Some b -> bs_Len b = NumBlocksPerFilter ->
  wp (let fromAligned := w - w mod NumBlocksPerFilter in
      let toAligned := u64 (fromAligned + NumBlocksPerFilter - 1) in
      fillCurrentBits e fromAligned toAligned;;
      modify (fun q => set_it q (with_window (q_it q) fromAligned))) (fun _ q' => loaded q w i q') q1.
Proof.
  intros Hq Hk Hend Hdone Hw Ha Hi Hni Hb Hl. cbv zeta. rewrite Ha, Z.sub_0_r.
  rewrite (u64_small (w + NumBlocksPerFilter - 1)) by (unfold NumBlocksPerFilter in *; lia).
  replace (w + NumBlocksPerFilter - 1) with (w + MaxBlockOffsetPerFilter) by (unfold MaxBlockOffsetPerFilter; lia).
  wp_step. eapply wp_mono; [apply (wp_fillCurrentBits q1 w b); (done || lia)|].
  intros [] q2 (Hq2 & Ef & Ed & b' & Hb' & Ei). wp_step. split; [by apply index_ok_it|]. split.
  - eapply kept_trans; [exact Hk|]. unfold kept. cbn. by rewrite Ei.
  - right. cbn [q_it set_it]. rewrite Ei. split; [|split; [by eexists|done]]. split; [done|done|]. cbn. exists w.
    split_and!; try done; try lia.
Qed.

Lemma wp_loadNextWindow q p :
  indexed q -> it_ok (q_it q) p ->
  wp (loadNextWindow e) (fun _ q' =>
    match it_currentBits (q_it q) with
    | None => loaded q (window_of p) (p mod NumBlocksPerFilter) q' /\ it_done (q_it q') = false
    | Some _ => loaded q (it_currentWindowStart (q_it q) + NumBlocksPerFilter) 0 q'
    end) q.
Proof.
  intros Hq [Hend Hdone Hwin]. unfold loadNextWindow. wp_step. wp_step. rewrite Hdone.
  destruct (it_currentBits (q_it q)) as [b|] eqn:Eb.
  - destruct Hwin as (w & Ew & Hw & Ha & -> & Hn & Hbits). rewrite Ew. wp_step. wp_step.
    rewrite (u64_small (w + NumBlocksPerFilter)) by (unfold NumBlocksPerFilter in *; lia). rewrite Hend.
    destruct (Z.ltb_spec to (w + NumBlocksPerFilter)).
    + wp_step. split; [by apply index_ok_it, index_ok_it|]. split; [done|]. left. cbn. done.
    + apply (wp_load_window q _ (w + NumBlocksPerFilter) 0 b); try done.
      * by apply index_ok_it.
      * unfold NumBlocksPerFilter in *. lia.
      * by apply aligned_next.
      * by destruct Hbits.
  - destruct Hwin as (-> & Ew & Hp). rewrite Ew. wp_step. wp_step. rewrite Hend.
    destruct (window_spec (it_rangeStart (q_it q))) as (Hw1 & Hw2 & Hw3); [lia|].
    destruct (Z.ltb_spec to (window_of (it_rangeStart (q_it q)))); [lia|].
    eapply wp_mono; [eapply (wp_load_window q _ (window_of (it_rangeStart (q_it q))) (it_rangeStart (q_it q) mod NumBlocksPerFilter) (bs_New NumBlocksPerFilter)); try done|].
    + by apply index_ok_it.
    + lia.
    + pose proof (Z.mod_pos_bound (it_rangeStart (q_it q)) NumBlocksPerFilter ltac:(done)). lia.
    + by apply bs_New_len.
    + intros [] q' Hl. split; [done|]. destruct Hl as (_ & _ & [[_ ?]|[Hit _]]); [lia|]. apply Hit.
Qed.

Lemma wp_load_or_finish q (Q : unit -> qstate -> Prop) : wp (loadNextWindow e) Q q -> wp (load_or_finish e) Q q.
Proof.
  intros Hw. apply wp_elim in Hw as ([] & q' & E & HQ). eapply wp_intro; [|exact HQ]. unfold load_or_finish. by rewrite E.
Qed.

(** No block before [n] is a candidate. *)
Definition no_cand (p n : Z) : Prop := forall m, p <= m < n -> m <= to -> cand m = false.

Lemma wp_next_set fuel q p b :
  indexed q -> it_ok (q_it q) p -> it_currentBits (q_it q) = Some b ->
  to - it_currentWindowStart (q_it q) < Z.of_nat fuel * NumBlocksPerFilter ->
  wp (next_set e fuel) (fun r q' => indexed q' /\ kept q q' /\
    match r with
    | None => it_done (q_it q') = true /\ no_cand p (to + 1)
    | Some x => exists p', it_ok (q_it q') p' /\ is_Some (it_currentBits (q_it q')) /\ 0 <= x < NumBlocksPerFilter /\
        let n := it_currentWindowStart (q_it q') + x in
        p <= n /\ it_nextIndex (q_it q') <= x /\ no_cand p n /\ (n <= latest -> cand n = true)
    end) q.
Proof.
  revert q p b. induction fuel as [|fuel IH]; intros q p b Hq Hit Hb Hf.
  { destruct Hit as [_ _ Hwin]. rewrite Hb in Hwin. destruct Hwin as (w & Ew & Hw & _). lia. }
  cbn [next_set]. wp_step. wp_step. wp_step. eapply wp_deref; [exact Hb|].
  destruct Hit as [Hend Hdone Hwin] eqn:Ehit. clear Ehit. pose proof Hwin as Hwin0. rewrite Hb in Hwin0. destruct Hwin0 as (w & Ew & Hw & Ha & Ep & Hn & Hbits).
  destruct (bs_NextSet b (it_nextIndex (q_it q))) as [x|] eqn:Ex.
  - wp_step. apply bs_NextSet_some in Ex as (Hle & Ht & Hbefore). pose proof (bs_Test_range _ _ Ht) as Hx. rewrite (proj1 Hbits) in Hx.
    split; [done|]. split; [done|]. exists p. split; [by split|]. split; [by rewrite Hb; eexists|]. split; [lia|]. rewrite Ew. cbv zeta.
    split; [lia|]. split; [done|]. split.
    + intros m Hm Hmt. rewrite <- (proj2 Hbits m) by (unfold MaxBlockOffsetPerFilter; lia). apply Hbefore. lia.
    + intros Hlat. rewrite <- (proj2 Hbits) by (unfold MaxBlockOffsetPerFilter; lia). by replace (w + x - w) with x by lia.
  - assert (Hno : no_cand p (w + NumBlocksPerFilter)).
    { intros m Hm Hmt. rewrite <- (proj2 Hbits m) by (unfold MaxBlockOffsetPerFilter; lia). eapply bs_NextSet_none; [exact Ex|]. lia. }
    wp_step. apply wp_load_or_finish. eapply wp_mono; [apply (wp_loadNextWindow q p Hq); by split|].
    intros [] q1. rewrite Hb, Ew. intros (Hq1 & Hk1 & Hor). wp_step. wp_step. destruct Hor as [[Hd Hto]|(Hit1 & [b1 Hb1] & Ew1)].
    + rewrite Hd. wp_step. split; [done|]. split; [done|]. split; [done|]. intros m Hm Hmt. apply Hno; lia.
    + rewrite (ik_done _ _ Hit1). eapply wp_mono; [apply (IH q1 _ b1 Hq1 Hit1 Hb1); lia|].
      intros r q2 (Hq2 & Hk2 & Hr). split; [done|]. split; [by eapply kept_trans|].
      assert (Hjoin : forall n, w + NumBlocksPerFilter + 0 <= n -> no_cand (w + NumBlocksPerFilter + 0) n -> no_cand p n).
      { intros n Hn' Hnc m Hm Hmt. destruct (Z.lt_ge_cases m (w + NumBlocksPerFilter)); [apply Hno|apply Hnc]; lia. }
      destruct r as [x|].
      * destruct Hr as (p' & Hit' & Hs & Hx & Hle & Hni & Hnc & Hc). exists p'. repeat (split; [first [done|lia|by apply Hjoin; [lia|]]|]). done.
      * destruct Hr as [Hd Hnc]. split; [done|]. destruct (Z.le_gt_cases (w + NumBlocksPerFilter + 0) (to + 1)); [by apply Hjoin|].
        intros m Hm Hmt. apply Hno; lia.
Qed.



Lemma it_ok_pos it p : it_ok it p -> 0 <= p <= to + NumBlocksPerFilter.
Proof.
  intros [_ _ Hwin]. destruct (it_currentBits it); [|unfold NumBlocksPerFilter; lia].
  destruct Hwin as (w & _ & Hw & _ & -> & Hn & _). lia.
Qed.

(** The block that is found is yielded, unless the limit is reached. *)
Definition next_post q (p : Z) (r : next_result) q' : Prop :=
  indexed q' /\ q_filter q' = q_filter q /\ q_db q' = q_db q /\ it_maxScanned (q_it q') = it_maxScanned (q_it q) /\
  let max := it_maxScanned (q_it q) in
  let count := it_scannedCount (q_it q) in
  let count' := it_scannedCount (q_it q') in
  match r with
  | NextEnd => no_cand p (to + 1) /\ count' = count
  | NextBlockNumber n => p <= n <= to /\ cand n = true /\ no_cand p n /\ it_ok (q_it q') (n + 1) /\
      count' = (if 0 <? max then count + 1 else count) /\ (0 < max -> count' <= max)
  | NextLimit n => p <= n <= to /\ cand n = true /\ no_cand p n /\ 0 < max /\ count' = count + 1 /\ max < count'
  end.

Lemma wp_yield q0 q p p0 x b :
  indexed q -> kept q0 q -> it_ok (q_it q) p -> it_currentBits (q_it q) = Some b -> 0 <= x < NumBlocksPerFilter ->
  0 <= it_scannedCount (q_it q0) < 2 ^ 64 - 1 ->
  let n := it_currentWindowStart (q_it q) + x in
  p0 <= n <= to -> no_cand p0 n -> cand n = true ->
  wp (yield_block n x) (next_post q0 p0) q.
Proof.
  intros Hq (Ef & Ed & _ & Em & Ec) [Hend Hdone Hwin] Hb Hx Hcount n Hn Hno Hc. rewrite Hb in Hwin.
  destruct Hwin as (w & Ew & Hw & Ha & _ & _ & Hbits).
  unfold yield_block. wp_step. wp_step. wp_step. wp_step. cbn [q_it set_it it_maxScanned it_scannedCount].
  rewrite Em, Ec. rewrite (u64_small (it_scannedCount (q_it q0) + 1)) by lia.
  rewrite (u64_small (x + 1)) by (unfold NumBlocksPerFilter in *; lia).
  assert (Hnext : it_ok (mkIterator (it_currentBits (q_it q)) (x + 1) (it_rangeStart (q_it q)) (it_currentWindowStart (q_it q))
    (it_rangeEnd (q_it q)) (it_done (q_it q)) (it_maxScanned (q_it q))
    (if 0 <? it_maxScanned (q_it q0) then it_scannedCount (q_it q0) + 1 else it_scannedCount (q_it q0))) (n + 1)).
  { split; [done|done|]. cbn. rewrite Hb. exists w. split_and!; try done; unfold n; lia. }
  revert Hnext. unfold next_post. destruct (Z.ltb_spec 0 (it_maxScanned (q_it q0))); cbn [andb]; intros Hnext.
  - destruct (Z.ltb_spec (it_maxScanned (q_it q0)) (it_scannedCount (q_it q0) + 1)).
    + wp_step. wp_step. wp_step. split; [by apply index_ok_it, index_ok_it|]. cbn. split_and!; try done; lia.
    + wp_step. split; [by apply index_ok_it|]. cbn. rewrite Em in Hnext. split_and!; try done; lia.
  - wp_step. split; [by apply index_ok_it|]. cbn. rewrite Em in Hnext. split_and!; try done; lia.
Qed.

Lemma wp_it_Next q p :
  indexed q -> it_ok (q_it q) p -> 0 <= it_scannedCount (q_it q) < 2 ^ 64 - 1 ->
  wp (it_Next e) (next_post q p) q.
Proof.
  intros Hq Hit Hcount. unfold it_Next. wp_step. wp_step. rewrite (ik_done _ _ Hit).
  assert (Hload : wp (if it_currentBits (q_it q) then mret tt else load_or_finish e)
    (fun _ q1 => indexed q1 /\ kept q q1 /\ it_ok (q_it q1) p /\ is_Some (it_currentBits (q_it q1))) q).
  { destruct (it_currentBits (q_it q)) as [b|] eqn:Eb; [by wp_step; rewrite Eb|]. apply wp_load_or_finish.
    eapply wp_mono; [by apply (wp_loadNextWindow q p)|]. intros [] q1. rewrite Eb. intros [(Hq1 & Hk & Hor) Hd].
    destruct Hor as [[? _]|(Hit1 & Hs & _)]; [congruence|]. split_and!; try done.
    by replace p with (window_of p + p mod NumBlocksPerFilter) by (unfold window_of; lia). }
  wp_step. eapply wp_mono; [exact Hload|]. intros [] q1 (Hq1 & Hk1 & Hit1 & b & Hb). wp_step. wp_step.
  rewrite (ik_done _ _ Hit1), (ik_end _ _ Hit1). wp_step. eapply wp_mono.
  { apply (wp_next_set _ q1 p b Hq1 Hit1 Hb). destruct Hit1 as [_ _ Hw]. rewrite Hb in Hw. destruct Hw as (w & -> & Hw & _).
    pose proof (Z.div_mod (to - w) NumBlocksPerFilter ltac:(done)). pose proof (Z.mod_pos_bound (to - w) NumBlocksPerFilter ltac:(done)).
    pose proof (Z.div_pos (to - w) NumBlocksPerFilter ltac:(lia) ltac:(done)). rewrite Z2Nat.id by lia. nia. }
  intros [x|] q2 (Hq2 & Hk2 & Hr); pose proof (kept_trans _ _ _ Hk1 Hk2) as Hk.
  - destruct Hr as (p' & Hit2 & [b2 Hb2] & Hx & Hle & _ & Hno & Hc). wp_step. wp_step. rewrite (ik_end _ _ Hit2).
    pose proof (ik_window _ _ Hit2) as Hw. rewrite Hb2 in Hw. destruct Hw as (w & Ew & Hw & _).
    rewrite (u64_small (it_currentWindowStart (q_it q2) + x)) by (unfold NumBlocksPerFilter in *; lia).
    destruct (Z.ltb_spec to (it_currentWindowStart (q_it q2) + x)).
    + wp_step. wp_step. wp_step. destruct Hk as (E1 & E2 & E3 & E4 & E5).
      split; [by apply index_ok_it|]. cbn. split_and!; try done. intros m Hm Hmt. apply Hno; lia.
    + apply (wp_yield q q2 p' p x b2); (done || lia || (apply Hc; lia)).
  - destruct Hr as [Hd Hno]. wp_step. destruct Hk as (E1 & E2 & E3 & E4 & E5). split; [done|]. cbn. by split_and!.
Qed.

End iterator.
