(* ===== verification/EventIndex.v ===== *)
(** * The running event filter: facts

    The window of the running filter and the windows that are stored have the
    bits of the filters of the blocks of the chain, after any blocks were added
    and reverted. *)
From stdpp Require Import prelude gmap list.
From Stdlib Require Import ZArith Lia.
From S2P Require Import Prelude Felt FeltArith MemDB MemDBFacts TrieDB Block State StateTries Bloom BloomFacts EventFilter EventFacts.

Local Open Scope Z_scope.

Section running.
Context {F : Type} `{!FieldElement F} `{!FieldArith F} `{!BlockReader F}.
Context `{!BitSets} `{!BitSetLaws} `{!Blooms} `{!BloomLaws} `{!CborBytes} `{!CborBytesLaws}.
Implicit Types (bl : Z -> BloomFilter) (f : RunningEventFilter) (d : disk).

(** The bits of the filters of blocks from [w] on, before [next]. *)
Definition has_bits bl (g : AggregatedBloomFilter) (next : Z) : Prop :=
  forall i n, 0 <= i < EventsBloomLength -> fromBlock g <= n <= fromBlock g + MaxBlockOffsetPerFilter ->
    bit_of g i n = bs_Test (bloom_BitSet (bl n)) i && (n <? next).

Definition window_key (w : Z) : bytes := AggregatedBloomFilterKey w (w + MaxBlockOffsetPerFilter).

Definition stored_window bl d (w : Z) : Prop :=
  exists g, agg_wf g /\ fromBlock g = w /\ has_bits bl g (w + NumBlocksPerFilter) /\
    kv_map d !! window_key w = Some (cbor_Marshal (agg_MarshalBinary g)).

Record running_ok bl (next : Z) f d : Prop := {
  ro_open : kv_open d;
  ro_ready : rf_ready f;
  ro_next : rf_next f = next /\ 0 <= next;
  ro_inner : exists g, rf_inner f = Some g /\ agg_wf g /\ fromBlock g = window_of next /\ has_bits bl g next;
  ro_stored w : w mod NumBlocksPerFilter = 0 -> 0 <= w -> w + NumBlocksPerFilter <= next -> stored_window bl d w;
}.

Lemma window_key_inj w w' : 0 <= w -> w < 2 ^ 64 -> 0 <= w' -> w' < 2 ^ 64 -> window_key w = window_key w' -> w = w'.
Proof.
  intros Hw1 Hw2 Hw3 Hw4. unfold window_key, AggregatedBloomFilterKey, Bucket_Key, range_key_Marshal. cbn [fst snd concat].
  rewrite !app_nil_r. intros E. apply (f_equal tail) in E. cbn [tail] in E. apply app_inj_1 in E as [E _]; [|by rewrite !length_be_bytes].
  apply (f_equal be_val) in E. rewrite !be_val_bytes in E. rewrite !Z.mod_small in E; [done|..]; rewrite ?Z.pow_mul_r; lia.
Qed.

Lemma has_bits_ext bl bl' g next : agg_wf g -> (forall n, 0 <= n < next -> bl n = bl' n) -> has_bits bl g next -> has_bits bl' g next.
Proof.
  intros Hw E Hb i n Hi Hn. pose proof (aw_from _ Hw). rewrite Hb by done.
  destruct (Z.ltb_spec n next); [by rewrite E by lia|by rewrite !andb_false_r].
Qed.

Lemma running_ok_ext bl bl' next f d : (forall n, 0 <= n < next -> bl n = bl' n) -> running_ok bl next f d -> running_ok bl' next f d.
Proof.
  intros E [Ho Hr Hn (g & ? & ? & ? & Hb) Hs]. split; try done.
  - exists g. split_and!; try done. by eapply has_bits_ext.
  - intros w Ha Hw Hle. destruct (Hs w Ha Hw Hle) as (g' & ? & ? & Hb' & ?). exists g'. split_and!; try done.
    eapply has_bits_ext; [done| |exact Hb']. intros n Hlt. apply E. lia.
Qed.

Lemma window_of_aligned n : n mod NumBlocksPerFilter = 0 -> window_of n = n.
Proof. unfold window_of. intros ->. lia. Qed.

(** The windows of consecutive blocks. *)
Lemma window_succ n : 0 <= n -> n + 1 <> window_of n + NumBlocksPerFilter -> window_of (n + 1) = window_of n.
Proof.
  intros Hn Hne. destruct (window_spec n) as (Hw1 & Hw2 & Hw3); [done|]. destruct (window_spec (n + 1)) as (Hw4 & Hw5 & Hw6); [lia|].
  destruct (Z.lt_trichotomy (window_of n) (window_of (n + 1))) as [Hlt|[->|Hlt]]; [|done|].
  - pose proof (aligned_lt _ _ Hw3 Hw6 Hlt). lia.
  - pose proof (aligned_lt _ _ Hw6 Hw3 Hlt). lia.
Qed.

(** Only windows are written. *)
Definition off_windows d d' : Prop := forall k, (forall w, k <> window_key w) -> kv_map d !! k = kv_map d' !! k.

(** A block is added. *)
Lemma wp_filter_insert bl next f d : running_ok bl next f d -> bs_Len (bloom_BitSet (bl next)) = EventsBloomLength ->
  next + 2 * NumBlocksPerFilter < 2 ^ 64 ->
  wp (insert (Some (bl next)) next) (fun _ x => running_ok bl (next + 1) x.1 x.2 /\ off_windows d x.2) (f, d).
Proof.
  intros [Ho Hr [Hn Hn0] (g & Hg & Hw & Hfrom & Hbits) Hs] Hlen Hbound. destruct (window_spec next Hn0) as (Hw1 & Hw2 & Hw3).
  unfold insert. wp_step. eapply wp_intro; [by apply ensureInit_ready|]. wp_step. unfold inner_filter. wp_step. wp_step. eapply wp_deref; [exact Hg|].
  pose proof (aw_to _ Hw) as Hto. unfold MaxBlockOffsetPerFilter in Hto.
  destruct (agg_Insert_spec g (Some (bl next)) next Hw Hlen) as (g' & E & Hw' & Hf' & Ht' & Hb'); [rewrite Hto, Hfrom; lia|].
  wp_step. eapply wp_lift; [exact E|]. wp_step. wp_step.
  assert (Hbits' : has_bits bl g' (next + 1)).
  { intros i n Hi Hin. rewrite Hb' by lia. rewrite Hf' in Hin. rewrite Hbits by done. cbn [bloom_bit].
    destruct (Z.eqb_spec n next) as [->|Hne].
    - destruct (Z.ltb_spec next next); [lia|]. destruct (Z.ltb_spec next (next + 1)); [|lia]. by rewrite andb_false_r.
    - rewrite andb_false_r, orb_false_r. f_equal. destruct (Z.ltb_spec n next), (Z.ltb_spec n (next + 1)); (done || lia). }
  rewrite Ht', Hto, Hfrom. rewrite (u64_small (next + 1)) by (unfold NumBlocksPerFilter in *; lia).
  destruct (Z.eqb_spec next (window_of next + (NumBlocksPerFilter - 1))) as [Efull|Hne].
  - assert (Hnext : window_of (next + 1) = next + 1).
    { apply window_of_aligned. rewrite Efull. replace (window_of next + (NumBlocksPerFilter - 1) + 1) with (window_of next + NumBlocksPerFilter) by lia.
      by apply aligned_next. }
    wp_step. wp_step. apply wp_zoom. eapply wp_mono; [by apply kv_put_spec|]. intros [] d' [Ho' Hm']. wp_step. wp_step.
    destruct (NewAggregatedFilter_spec (next + 1)) as (Hnw & Hnf & Hnc); [lia|unfold MaxBlockOffsetPerFilter, NumBlocksPerFilter in *; lia|].
    assert (Ekey : AggregatedBloomFilterKey (RangeKey g').1 (RangeKey g').2 = window_key (window_of next)).
    { unfold RangeKey, window_key. cbn. by rewrite Hf', Ht', Hto, Hfrom. }
    rewrite Ekey in Hm'. split; [|intros k Hk; cbn [snd]; by rewrite Hm', lookup_insert_ne by done].
    split; [done|done|cbn; lia| |].
    + eexists. split_and!; [done|done|by rewrite Hnf|]. intros i n Hi Hin. unfold bit_of. rewrite Hnc, Hnf in *.
      destruct (Z.ltb_spec n (next + 1)); [lia|by rewrite andb_false_r].
    + intros w Ha Hw0 Hle. cbn [snd]. destruct (Z.eq_dec w (window_of next)) as [->|Hwne].
      * exists g'. split_and!; [done|by rewrite Hf'| |by rewrite Hm', lookup_insert_eq]. replace (window_of next + NumBlocksPerFilter) with (next + 1) by lia. done.
      * destruct (Hs w Ha Hw0) as (g2 & ? & ? & ? & Hk).
        { destruct (Z.lt_trichotomy w (window_of next)) as [Hlt|[?|Hgt]]; [|done|]; [pose proof (aligned_lt _ _ Ha Hw3 Hlt)|pose proof (aligned_lt _ _ Hw3 Ha Hgt)]; lia. }
        exists g2. split_and!; try done. rewrite Hm', lookup_insert_ne; [done|]. intros Ekw. apply Hwne. symmetry.
        apply window_key_inj in Ekw; unfold NumBlocksPerFilter in *; lia.
  - wp_step. wp_step. wp_step. assert (Hnext : window_of (next + 1) = window_of next) by (apply window_succ; lia).
    split; [|done]. split; [done|done|cbn; lia| |].
    + exists g'. split_and!; [done|done|congruence|done].
    + intros w Ha Hw0 Hle. apply Hs; [done|done|].
      destruct (Z.le_gt_cases (w + NumBlocksPerFilter) next); [done|].
      pose proof (aligned_lt _ _ Hw3 (aligned_next _ Ha) ltac:(lia)). lia.
Qed.

(** ** Reads of the stored windows *)

Lemma get_window bl d w {R} `{!bloomRows R} : kv_open d -> stored_window bl d w ->
  exists g, agg_wf g /\ fromBlock g = w /\ has_bits bl g (w + NumBlocksPerFilter) /\
    get_filter (view_UnmarshalBinary (R:=R)) d (w, w + MaxBlockOffsetPerFilter) = view_UnmarshalBinary (agg_MarshalBinary g).
Proof.
  intros Ho (g & Hw & Hf & Hb & Hk). exists g. split_and!; try done. unfold get_filter. cbn [fst snd].
  pose proof (kv_get_spec d (window_key w) Ho) as Eg. unfold window_key in *. rewrite Hk in Eg. cbn [kv_get Database_store] in Eg.
  rewrite Eg. cbn [map_err]. unfold mbind, outcome_bind, cbor_decode. by rewrite cbor_roundtrip.
Qed.

Lemma get_stored bl d w : kv_open d -> stored_window bl d w ->
  exists g, GetAggregatedBloomFilter d (w, w + MaxBlockOffsetPerFilter) = Ok g /\ agg_wf g /\ fromBlock g = w /\
    has_bits bl g (w + NumBlocksPerFilter).
Proof.
  intros Ho Hs. destruct (get_window bl d w (R:=memRows) Ho Hs) as (g & Hw & Hf & Hb & E). unfold GetAggregatedBloomFilter. rewrite E.
  destruct (unmarshal_mem g Hw) as (g' & E' & Hw' & Hf' & _ & Hb'). exists g'. split_and!; [done|done|congruence|].
  intros i n Hi Hn. rewrite Hb' by done. apply Hb; [done|congruence].
Qed.

Lemma has_bits_view latest bl next g {R} `{!bloomRows R} (v : filterView R) : agg_wf g -> has_bits bl g next ->
  Z.min (latest + 1) (fromBlock g + NumBlocksPerFilter) <= next ->
  fromBlock v = fromBlock g -> toBlock v = toBlock g -> rows_cols (bitmap v) (column (mem_rows (bitmap g))) ->
  view_ok latest bl v (fromBlock g).
Proof.
  intros Hw Hb Hnext Ef Et Hc. split; [done|]. split; [rewrite Et; apply Hw|]. eexists. split; [exact Hc|]. intros n i Hn Hl Hi.
  specialize (Hb i n Hi Hn). unfold bit_of in Hb. rewrite Hb. unfold MaxBlockOffsetPerFilter in *. destruct (Z.ltb_spec n next); [by rewrite andb_true_r|lia].
Qed.

Lemma get_stored_view latest bl d w : kv_open d -> stored_window bl d w ->
  exists v, GetAggregatedBloomFilterView d (w, w + MaxBlockOffsetPerFilter) = Ok v /\ view_ok latest bl v w.
Proof.
  intros Ho Hs. destruct (get_window bl d w (R:=blobRows) Ho Hs) as (g & Hw & <- & Hb & E). unfold GetAggregatedBloomFilterView. rewrite E.
  rewrite unmarshal_blob by done. eexists. split; [done|]. apply (has_bits_view latest bl (fromBlock g + NumBlocksPerFilter) g); try done; [lia|].
  by apply blob_rows_cols.
Qed.

(** The column of the last block is cleared. *)
Lemma clear_last bl next g : agg_wf g -> 1 <= next -> fromBlock g = window_of (next - 1) -> has_bits bl g next ->
  exists g', agg_clear g (next - 1) = Ok g' /\ agg_wf g' /\ fromBlock g' = window_of (next - 1) /\ has_bits bl g' (next - 1).
Proof.
  intros Hw Hn Hf Hb. destruct (window_spec (next - 1)) as (Hv1 & Hv2 & _); [lia|].
  destruct (agg_clear_spec g (next - 1) Hw) as (g' & E & Hw' & Hf' & _ & Hb').
  { rewrite (aw_to _ Hw), Hf. unfold MaxBlockOffsetPerFilter. lia. }
  exists g'. split_and!; [done|done|congruence|]. intros i n Hi Hin. rewrite Hf' in Hin. rewrite Hb', Hb by done.
  rewrite <- andb_assoc. f_equal. destruct (Z.ltb_spec n next), (Z.ltb_spec n (next - 1)), (Z.eqb_spec n (next - 1)); (done || lia).
Qed.

(** Whether the last block is in the window before. *)
Lemma window_crossed next : 1 <= next < 2 ^ 64 ->
  if next - 1 =? u64 (window_of next - 1) then window_of next = next /\ window_of (next - 1) + NumBlocksPerFilter = next
  else window_of (next - 1) = window_of next.
Proof.
  intros Hn. destruct (window_spec next) as (Hw1 & Hw2 & Hw3); [lia|]. destruct (window_spec (next - 1)) as (Hv1 & Hv2 & Hv3); [lia|].
  destruct (Z.eqb_spec (next - 1) (u64 (window_of next - 1))) as [E|Hne].
  - assert (Hal : window_of next = next).
    { destruct (Z.eq_dec (window_of next) 0) as [E0|]; [rewrite E0 in E; change (u64 (0 - 1)) with (2 ^ 64 - 1) in E; lia|].
      rewrite u64_small in E by lia. lia. }
    split; [done|]. pose proof (aligned_lt _ _ Hv3 Hw3). lia.
  - destruct (Z.eq_dec (window_of next) next) as [E|Hne2].
    + rewrite E, u64_small in Hne by lia. done.
    + replace next with (next - 1 + 1) at 2 by lia. symmetry. apply window_succ; [lia|]. intros E. apply Hne2.
      apply window_of_aligned. replace next with (window_of (next - 1) + NumBlocksPerFilter) by lia. by apply aligned_next.
Qed.

(** The last block is reverted; no window before it is dropped. *)
Lemma wp_onReorg bl next f d : running_ok bl next f d -> 1 <= next -> next + NumBlocksPerFilter < 2 ^ 64 ->
  wp onReorg (fun _ x => running_ok bl (next - 1) x.1 x.2 /\ off_windows d x.2 /\
    forall w, w mod NumBlocksPerFilter = 0 -> 0 <= w -> w + NumBlocksPerFilter <= next -> stored_window bl x.2 w) (f, d).
Proof.
  intros [Ho Hr [Hn _] (g & Hg & Hw & Hfrom & Hbits) Hs] Hn1 Hbound. destruct (window_spec next) as (Hw1 & Hw2 & Hw3); [lia|].
  destruct (window_spec (next - 1)) as (Hv1 & Hv2 & Hv3); [lia|]. pose proof (window_crossed next) as Hcross.
  unfold onReorg. wp_step. eapply wp_intro; [by apply ensureInit_ready|]. wp_step. unfold inner_filter. wp_step. wp_step. eapply wp_deref; [exact Hg|].
  wp_step. wp_step. cbn [fst snd]. rewrite Hn, Hfrom, (u64_small (next - 1)) by (unfold NumBlocksPerFilter in *; lia).
  destruct (next - 1 =? u64 (window_of next - 1)); (lapply Hcross; [clear Hcross|unfold NumBlocksPerFilter in *; lia]).
  - intros [Hal Hprev].
    wp_step. wp_step. apply wp_zoom. eapply wp_mono; [by apply kv_del_spec|]. intros [] d' [Ho' Hm']. cbn [fst snd].
    assert (Ekey : AggregatedBloomFilterKey (RangeKey g).1 (RangeKey g).2 = window_key next).
    { unfold RangeKey, window_key. cbn. by rewrite (aw_to _ Hw), Hfrom, Hal. }
    rewrite Ekey in Hm'.
    assert (Hs' : forall w, w mod NumBlocksPerFilter = 0 -> 0 <= w -> w + NumBlocksPerFilter <= next -> stored_window bl d' w).
    { intros w Ha Hw0 Hle. destruct (Hs w Ha Hw0 Hle) as (g2 & ? & ? & ? & Hk). exists g2. split_and!; try done.
      rewrite Hm', lookup_delete_ne; [done|]. intros Ekw. apply window_key_inj in Ekw; unfold NumBlocksPerFilter in *; lia. }
    wp_step. wp_step. wp_step. cbn [snd st_database disk_backed].
    replace (next - 1 - (next - 1) mod NumBlocksPerFilter) with (window_of (next - 1)) by done.
    rewrite (u64_small (window_of (next - 1) + MaxBlockOffsetPerFilter)) by (unfold MaxBlockOffsetPerFilter, NumBlocksPerFilter in *; lia).
    destruct (get_stored bl d' (window_of (next - 1)) Ho') as (g0 & E0 & Hw0 & Hf0 & Hb0); [apply Hs'; lia|].
    eapply wp_lift; [exact E0|]. rewrite Hprev in Hb0. destruct (clear_last bl next g0 Hw0 Hn1 Hf0 Hb0) as (g1 & E1 & Hg1 & Hf1 & Hb1).
    wp_steps. eapply wp_deref; [reflexivity|]. wp_step. eapply wp_lift; [exact E1|]. wp_step.
    split; [|split; [intros k Hk; cbn [snd]; by rewrite Hm', lookup_delete_ne by done|done]].
    split; [done|done|cbn; lia|by exists g1|]. intros w Ha Hw0' Hle. apply Hs'; [done|done|lia].
  - intros Hwin. destruct (clear_last bl next g Hw) as (g1 & E1 & Hg1 & Hf1 & Hb1); [done|congruence|done|].
    wp_steps. eapply wp_deref; [exact Hg|]. wp_step. eapply wp_lift; [exact E1|]. wp_step.
    split; [|done]. split; [done|done|cbn; lia|by exists g1|]. intros w Ha Hw0' Hle. apply Hs; [done|done|lia].
Qed.

(** ** Blocks are added and reverted *)

Inductive chain_op := AddBlock (bf : BloomFilter) | RevertBlock.

(** The filters of the chain, the first block first. *)
Definition apply_op (c : list BloomFilter) (op : chain_op) : list BloomFilter :=
  match op with AddBlock bf => c ++ [bf] | RevertBlock => take (length c - 1) c end.

Definition op_allowed (c : list BloomFilter) (op : chain_op) : Prop :=
  match op with AddBlock bf => bs_Len (bloom_BitSet bf) = EventsBloomLength | RevertBlock => c <> [] end.

Fixpoint ops_allowed (c : list BloomFilter) (ops : list chain_op) : Prop :=
  match ops with [] => True | op :: ops' => op_allowed c op /\ ops_allowed (apply_op c op) ops' end.

(** What the store of blocks does with the filter. *)
Definition filter_op (c : list BloomFilter) (op : chain_op) : SE (RunningEventFilter * disk) filterError unit :=
  match op with AddBlock bf => insert (Some bf) (Z.of_nat (length c)) | RevertBlock => onReorg end.

Fixpoint filter_ops (c : list BloomFilter) (ops : list chain_op) : SE (RunningEventFilter * disk) filterError unit :=
  match ops with [] => mret tt | op :: ops' => filter_op c op;; filter_ops (apply_op c op) ops' end.

Definition bloom_at (c : list BloomFilter) (n : Z) : BloomFilter := default (bloom_New EventsBloomLength EventsBloomHashFuncs) (c !! Z.to_nat n).

Definition tracks (c : list BloomFilter) f d : Prop := running_ok (bloom_at c) (Z.of_nat (length c)) f d.

Lemma wp_filter_op c op f d : tracks c f d -> op_allowed c op -> Z.of_nat (length c) + 2 * NumBlocksPerFilter < 2 ^ 64 ->
  wp (filter_op c op) (fun _ x => tracks (apply_op c op) x.1 x.2) (f, d).
Proof.
  intros Ht Hop Hb. destruct op as [bf|]; cbn [filter_op op_allowed apply_op] in *; unfold tracks in *.
  - set (c' := c ++ [bf]). assert (Ebf : bloom_at c' (Z.of_nat (length c)) = bf).
    { unfold bloom_at, c'. rewrite Nat2Z.id, lookup_app_r, Nat.sub_diag by lia. done. }
    assert (Hlen : Z.of_nat (length c') = Z.of_nat (length c) + 1) by (unfold c'; rewrite length_app; cbn; lia).
    rewrite Hlen. pose proof (wp_filter_insert (bloom_at c') (Z.of_nat (length c)) f d) as Hi. rewrite Ebf in Hi.
    eapply wp_mono; [apply Hi; [|done|done]|by intros _ x [? _]].
    eapply running_ok_ext; [|exact Ht]. intros n Hn. unfold bloom_at, c'. by rewrite lookup_app_l by lia.
  - assert (Hlen : (1 <= length c)%nat) by (destruct c; [done|cbn; lia]).
    rewrite length_take, Nat.min_l, Nat2Z.inj_sub by lia. eapply wp_mono; [apply (wp_onReorg (bloom_at c)); [exact Ht|lia|]|].
    { unfold NumBlocksPerFilter in *. lia. }
    intros _ [f' d'] [Hr _]. eapply running_ok_ext; [|exact Hr]. intros n Hn. unfold bloom_at. by rewrite lookup_take_lt by lia.
Qed.

Lemma wp_filter_ops ops c f d : tracks c f d -> ops_allowed c ops ->
  Z.of_nat (length c + length ops) + 2 * NumBlocksPerFilter < 2 ^ 64 ->
  wp (filter_ops c ops) (fun _ x => tracks (foldl apply_op c ops) x.1 x.2) (f, d).
Proof.
  revert c f d. induction ops as [|op ops IH]; intros c f d Ht Ha Hb; cbn [filter_ops foldl]; [by wp_step|].
  cbn [ops_allowed length] in *. destruct Ha as [Ha Has]. wp_step. eapply wp_mono; [apply wp_filter_op; [done|done|lia]|].
  intros _ [f' d'] Ht'. apply IH; [done|done|]. assert (length (apply_op c op) <= length c + 1)%nat; [|lia].
  destruct op; cbn; rewrite ?length_app, ?length_take; cbn; lia.
Qed.

(** An empty window. *)
Lemma running_new bl k d : kv_open d -> 0 <= k -> k + NumBlocksPerFilter <= 2 ^ 64 -> k mod NumBlocksPerFilter = 0 ->
  (forall w, w mod NumBlocksPerFilter = 0 -> 0 <= w -> w + NumBlocksPerFilter <= k -> stored_window bl d w) ->
  running_ok bl k (NewRunningEventFilterHot (NewAggregatedFilter k) k) d.
Proof.
  intros Ho Hk Hb Ha Hs. destruct (NewAggregatedFilter_spec k) as (Hw & Hf & Hc); [done|unfold MaxBlockOffsetPerFilter; lia|].
  split; [done|by split; [|left]|done| |done]. eexists. split_and!; [done|done|by rewrite Hf, window_of_aligned|].
  intros i n Hi Hn. unfold bit_of. rewrite Hc, Hf in *. destruct (Z.ltb_spec n k); [lia|]. by rewrite andb_false_r.
Qed.

Lemma tracks_empty d : kv_open d -> tracks [] (NewRunningEventFilterHot (NewAggregatedFilter 0) 0) d.
Proof.
  intros Ho. apply running_new; [done|done|done|done|]. intros w _ Hw0 Hle. unfold NumBlocksPerFilter in *. lia.
Qed.

(** ** Initialisation *)

Lemma get_missing d w : kv_open d -> kv_map d !! window_key w = None ->
  GetAggregatedBloomFilter d (w, w + MaxBlockOffsetPerFilter) = Err (ErrStore ErrNotFound).
Proof.
  intros Ho Hk. unfold GetAggregatedBloomFilter, get_filter. cbn [fst snd]. pose proof (kv_get_spec d (window_key w) Ho) as Eg.
  unfold window_key in *. rewrite Hk in Eg. cbn [kv_get Database_store] in Eg. by rewrite Eg.
Qed.

(** The windows before [k] are stored, those from [k] on are not. *)
Record windows_until bl d (k top : Z) : Prop := {
  wu_aligned : k mod NumBlocksPerFilter = 0 /\ 0 <= k;
  wu_stored w : w mod NumBlocksPerFilter = 0 -> 0 <= w -> w + NumBlocksPerFilter <= k -> stored_window bl d w;
  wu_missing w : w mod NumBlocksPerFilter = 0 -> k <= w <= top -> kv_map d !! window_key w = None;
}.

Lemma scan_back_finds bl d k top fuel r : kv_open d -> windows_until bl d k top -> r mod NumBlocksPerFilter = 0 -> 0 <= r <= top ->
  top + NumBlocksPerFilter < 2 ^ 64 -> k <= r + NumBlocksPerFilter -> r < Z.of_nat fuel * NumBlocksPerFilter ->
  scan_back fuel d r (r + MaxBlockOffsetPerFilter) = Ok k.
Proof.
  intros Ho Hu. revert r. induction fuel as [|fuel IH]; intros r Ha Hr Htop Hk Hf; [lia|]. cbn [scan_back].
  destruct (wu_aligned _ _ _ _ Hu) as [Hka Hk0].
  destruct (Z.le_gt_cases k r) as [Hle|Hgt].
  - rewrite get_missing; [|done|by apply (wu_missing _ _ _ _ Hu); [|lia]]. cbn [is_missing negb].
    destruct (Z.eqb_spec r 0) as [->|Hne]; [f_equal; lia|].
    pose proof (aligned_lt 0 r eq_refl Ha ltac:(lia)) as Hr1.
    rewrite !u64_small by (unfold MaxBlockOffsetPerFilter, NumBlocksPerFilter in *; lia).
    replace (r + MaxBlockOffsetPerFilter - NumBlocksPerFilter) with (r - NumBlocksPerFilter + MaxBlockOffsetPerFilter) by lia.
    apply IH; try lia.
    + unfold NumBlocksPerFilter in *. by rewrite Zminus_mod, Ha.
    + unfold NumBlocksPerFilter in *. lia.
  - pose proof (aligned_lt _ _ Ha Hka Hgt) as Hle.
    destruct (get_stored bl d r Ho) as (g & E & _); [apply (wu_stored _ _ _ _ Hu); lia|]. rewrite E.
    unfold MaxBlockOffsetPerFilter. rewrite u64_small by (unfold NumBlocksPerFilter in *; lia). f_equal. lia.
Qed.

Section rebuild.
Variables (bl : Z -> BloomFilter) (latest : Z) (rs : Z -> list (TransactionReceipt F)).

(** The receipts of the chain, which do not depend on the windows. *)
Definition holds_receipts d : Prop :=
  forall n, 0 <= n <= latest -> forall d', off_windows d d' -> kv_open d' -> GetReceiptsByBlockNumber d' n = Ok (rs n).

Hypothesis blooms : forall n, 0 <= n <= latest -> EventsBloom (rs n) = Ok (bl n).
Hypothesis latest_ok : 0 <= latest /\ latest + 2 * NumBlocksPerFilter < 2 ^ 64.

Lemma wp_fill_loop fuel n f d : running_ok bl n f d -> holds_receipts d -> n <= latest + 1 -> latest - n < Z.of_nat fuel ->
  wp (fill_loop fuel n latest) (fun _ x => running_ok bl (latest + 1) x.1 x.2) (f, d).
Proof.
  revert n f d. induction fuel as [|fuel IH]; intros n f d Hr Hh Hn Hf; cbn [fill_loop].
  { destruct (Z.leb_spec n latest); [lia|]. cbn [negb]. wp_step. by replace (latest + 1) with n by lia. }
  destruct (Z.leb_spec n latest); cbn [negb]; [|wp_step; by replace (latest + 1) with n by lia].
  pose proof (ro_next _ _ _ _ Hr) as [_ Hn0]. wp_step. wp_step. wp_step. cbn [snd].
  eapply wp_lift; [rewrite (Hh n ltac:(lia) d (fun _ _ => eq_refl) (ro_open _ _ _ _ Hr)); reflexivity|].
  wp_step. eapply wp_lift; [apply blooms; lia|]. wp_step. eapply wp_mono.
  { apply wp_filter_insert; [done| |unfold NumBlocksPerFilter in *; lia]. destruct (EventsBloom_complete _ _ (blooms n ltac:(lia))) as [(_ & _ & ?) _]. done. }
  intros _ [f' d'] [Hr' Ho]. rewrite u64_small by (unfold NumBlocksPerFilter in *; lia). apply IH; [done| |lia|lia].
  intros m Hm d2 Hd2 Hopen. apply (Hh m Hm); [|done]. intros key Hkey. rewrite (Ho key Hkey). by apply Hd2.
Qed.

(** The window of the head is rebuilt from the receipts. *)
Lemma wp_rebuild k d : kv_open d -> windows_until bl d k (window_of latest) -> k <= latest + 1 -> holds_receipts d ->
  wp (rebuildRunningEventFilter latest) (fun f' d' => running_ok bl (latest + 1) f' d') d.
Proof.
  intros Ho Hu Hk Hh. destruct (window_spec latest) as (Hw1 & Hw2 & Hw3); [lia|]. destruct (wu_aligned _ _ _ _ Hu) as [Hka Hk0].
  unfold rebuildRunningEventFilter. wp_step. wp_step. wp_step.
  replace (latest - latest mod NumBlocksPerFilter) with (window_of latest) by done.
  rewrite u64_small by (unfold MaxBlockOffsetPerFilter, NumBlocksPerFilter in *; lia). eapply wp_lift.
  { apply (scan_back_finds bl d k (window_of latest)); try done; [lia|unfold NumBlocksPerFilter in *; lia|lia|].
    pose proof (Z.div_pos latest NumBlocksPerFilter ltac:(lia) ltac:(done)). rewrite Nat2Z.inj_succ, Z2Nat.id by done.
    pose proof (Z.div_mod latest NumBlocksPerFilter ltac:(done)). unfold window_of, NumBlocksPerFilter in *. lia. }
  assert (Hnew : running_ok bl k (NewRunningEventFilterHot (NewAggregatedFilter k) k) d).
  { apply running_new; try done; [unfold NumBlocksPerFilter in *; lia|]. apply (wu_stored _ _ _ _ Hu). }
  pose proof (wp_fill_loop (Z.to_nat (latest - k + 1)) k _ d Hnew Hh Hk ltac:(lia)) as Hfill.
  apply wp_elim in Hfill as ([] & [f' d'] & E & Hr). eapply wp_intro; [|exact Hr]. unfold with_filter, fillRunningEventFilter. by rewrite E.
Qed.

End rebuild.

(** ** Theorems *)

(** C31: the running filter follows the chain: when blocks are added and reverted
    in any order, from an empty chain on, every operation succeeds, and after them
    the window of the filter has exactly the bits of the filters of the blocks of
    the chain, and so have all windows before it in the database. *)
Theorem filter_tracks_chain ops d : kv_open d -> ops_allowed [] ops ->
  Z.of_nat (length ops) + 2 * NumBlocksPerFilter < 2 ^ 64 ->
  exists f' d', filter_ops [] ops (NewRunningEventFilterHot (NewAggregatedFilter 0) 0, d) = (Ok tt, (f', d')) /\
    tracks (foldl apply_op [] ops) f' d'.
Proof.
  intros Ho Ha Hb. pose proof (wp_filter_ops ops [] _ d (tracks_empty d Ho) Ha Hb) as Hw.
  apply wp_elim in Hw as ([] & [f' d'] & E & Ht). eauto.
Qed.

(** C32: without a stored snapshot the filter is rebuilt: when the windows before
    some window are stored and the later ones are not, the initialisation ends
    with the filter of the whole chain, the rest of which it reads from the
    receipts. *)
Theorem rebuilt_filter bl latest rs k d : kv_open d -> ChainHeight d = Ok latest ->
  GetRunningEventFilter d = Err (ErrStore ErrNotFound) ->
  0 <= latest -> latest + 2 * NumBlocksPerFilter < 2 ^ 64 ->
  windows_until bl d k (window_of latest) -> k <= latest + 1 ->
  holds_receipts latest rs d -> (forall n, 0 <= n <= latest -> EventsBloom (rs n) = Ok (bl n)) ->
  exists f' d', InitializeRunningEventFilter d = (Ok f', d') /\ running_ok bl (latest + 1) f' d'.
Proof.
  intros Ho Hh Hg Hl Hb Hu Hk Hr Hbl. pose proof (wp_rebuild bl latest rs Hbl (conj Hl Hb) k d Ho Hu Hk Hr) as Hw.
  apply wp_elim in Hw as (f' & d' & E & Hok). exists f', d'. split; [|done]. unfold InitializeRunningEventFilter, mbind, SE_bind, get_state.
  by rewrite Hh, Hg.
Qed.

(** A window that is stored past the head. *)
Lemma initialize_after_stored bl d w : kv_open d -> 0 <= w -> w mod NumBlocksPerFilter = 0 -> w + 2 * NumBlocksPerFilter < 2 ^ 64 ->
  stored_window bl d w -> ChainHeight d = Ok (w + NumBlocksPerFilter - 2) -> GetRunningEventFilter d = Err (ErrStore ErrNotFound) ->
  InitializeRunningEventFilter d =
    (Ok (NewRunningEventFilterHot (NewAggregatedFilter (w + NumBlocksPerFilter)) (w + NumBlocksPerFilter)), d).
Proof.
  intros Ho Hw Ha Hb Hs Hh Hg. unfold InitializeRunningEventFilter, mbind, SE_bind, get_state. rewrite Hh, Hg. cbn [is_missing].
  unfold rebuildRunningEventFilter, mbind, SE_bind, get_state, lift.
  assert (Hwin : w + NumBlocksPerFilter - 2 - (w + NumBlocksPerFilter - 2) mod NumBlocksPerFilter = w).
  { unfold NumBlocksPerFilter in *. replace (w + 8192 - 2) with (w + 8190) by lia. rewrite Zplus_mod, Ha. change ((0 + 8190 mod 8192) mod 8192) with 8190. lia. }
  rewrite Hwin, u64_small by (unfold MaxBlockOffsetPerFilter, NumBlocksPerFilter in *; lia). cbn [scan_back].
  destruct (get_stored bl d w Ho Hs) as (g & E & _). rewrite E.
  replace (w + MaxBlockOffsetPerFilter + 1) with (w + NumBlocksPerFilter) by (unfold MaxBlockOffsetPerFilter; lia).
  rewrite u64_small by (unfold NumBlocksPerFilter in *; lia). unfold with_filter, fillRunningEventFilter.
  replace (Z.to_nat (w + NumBlocksPerFilter - 2 - (w + NumBlocksPerFilter) + 1)) with 0%nat by lia. cbn [fill_loop].
  by destruct (Z.leb_spec (w + NumBlocksPerFilter) (w + NumBlocksPerFilter - 2)); [lia|].
Qed.

(** C33: a reorg over the start of a window leaves a stale window in the database:
    the window of the block that is reverted stays stored, although it is not full
    any more. When the node then starts without a snapshot of the filter, it takes
    that window for full and starts after it, and the next block of the chain is
    refused as out of range. *)
Theorem stale_window_stops_chain bl next f d f' d' : running_ok bl next f d ->
  1 <= next -> next mod NumBlocksPerFilter = 0 -> next + NumBlocksPerFilter < 2 ^ 64 ->
  onReorg (f, d) = (Ok tt, (f', d')) -> ChainHeight d' = Ok (next - 2) -> GetRunningEventFilter d' = Err (ErrStore ErrNotFound) ->
  exists f'', InitializeRunningEventFilter d' = (Ok f'', d') /\
    forall bf, insert bf (next - 1) (f'', d') = (Err ErrAggregatedBloomFilterBlockOutOfRange, (f'', d')).
Proof.
  intros Hr Hn Ha Hb Ereorg Hh Hg.
  assert (Hw : 0 <= next - NumBlocksPerFilter) by (pose proof (aligned_lt 0 next eq_refl Ha ltac:(lia)); lia).
  assert (Hwa : (next - NumBlocksPerFilter) mod NumBlocksPerFilter = 0) by (unfold NumBlocksPerFilter in *; by rewrite Zminus_mod, Ha).
  pose proof (wp_onReorg bl next f d Hr Hn Hb) as Hwp. apply wp_elim in Hwp as ([] & [f1 d1] & E & Hok & _ & Hs). rewrite Ereorg in E.
  injection E as <- <-. specialize (Hs _ Hwa Hw ltac:(lia)). eexists. split.
  { rewrite (initialize_after_stored bl d' (next - NumBlocksPerFilter)); try done; [apply (ro_open _ _ _ _ Hok)|lia|].
    rewrite Hh. f_equal. lia. }
  intros bf. replace (next - NumBlocksPerFilter + NumBlocksPerFilter) with next by lia.
  assert (Eout : agg_Insert (NewAggregatedFilter next) bf (next - 1) = Err ErrAggregatedBloomFilterBlockOutOfRange).
  { unfold agg_Insert, out_of_range, NewAggregatedFilter. cbn [fromBlock]. by destruct (Z.ltb_spec (next - 1) next); [|lia]. }
  unfold insert, mbind, SE_bind. rewrite ensureInit_ready by (by split; [|left]).
  unfold inner_filter, mbind, SE_bind, get_state, deref, mret, SE_ret, lift, NewRunningEventFilterHot. cbn [fst rf_inner].
  by rewrite Eout.
Qed.

End running.
