(* ===== verification/EventPages.v ===== *)
(** * Pages of event queries

    A query returns a part of the events that match, in order, and a token; the
    pages of a query together are all events that match. *)
From stdpp Require Import prelude gmap list.
From Stdlib Require Import ZArith Lia.
From S2P Require Import Prelude Felt FeltArith MemDB MemDBFacts TrieDB Block State Bloom BloomFacts EventFilter EventFacts EventIndex.

Local Open Scope Z_scope.

(** ** Events of a block *)

Section block.
Context {F : Type} `{!FieldElement F} `{!FieldElementLaws F} `{!FieldArith F} `{!MapOrder F} `{!MapOrderLaws F}.
Context `{!BitSets} `{!BitSetLaws} `{!Blooms} `{!BloomLaws}.
Abbreviation O := (outcome filterError).

(** The events of a block one after the other: the transaction, its index, the
    index of the event and the event. *)
Definition located : Type := option F * Z * Z * Event F.

Fixpoint flat_tx (h : option F) (t i : Z) (evs : list (Event F)) : list located :=
  match evs with [] => [] | ev :: evs' => (h, t, i, ev) :: flat_tx h t (i + 1) evs' end.

Fixpoint flat_txs (t : Z) (txs : list (TransactionEvents F)) : list located :=
  match txs with [] => [] | tx :: txs' => flat_tx (te_TransactionHash tx) t 0 (te_Events tx) ++ flat_txs (t + 1) txs' end.

Lemma flat_tx_all (P : Event F -> Prop) h t i evs : Forall P evs -> Forall (fun x : located => P x.2) (flat_tx h t i evs).
Proof. intros Hp. revert i. induction Hp as [|ev evs Hev _ IH]; intros i; cbn [flat_tx]; [done|]. constructor; [done|apply IH]. Qed.

(** The events of receipts. *)
Lemma flat_receipts (P : Event F -> Prop) rs t : Forall (fun r => Forall P (rc_Events r)) rs ->
  Forall (fun x : located => P x.2) (flat_txs t (receipt_events <$> rs)).
Proof.
  intros Hp. revert t. induction Hp as [|r rs Hr _ IH]; intros t; cbn [fmap list_fmap flat_txs]; [done|].
  apply Forall_app. split; [by apply flat_tx_all|apply IH].
Qed.

Variables (e : EventMatcher (F:=F)) (n : Z) (h : option F).

(** The events that match, from the position [skip] on; [pos] is the position of
    the first event of the list. *)
Fixpoint found (pos skip : Z) (l : list located) : list (FilteredEvent (F:=F)) :=
  match l with
  | [] => []
  | (th, t, i, ev) :: l' =>
      (if pos <? skip then [] else if event_matches e ev then [mkFiltered ev n h th t i] else []) ++ found (pos + 1) skip l'
  end.

Lemma found_skip pos skip skip' l : skip <= pos -> skip' <= pos -> found pos skip l = found pos skip' l.
Proof.
  revert pos. induction l as [|[[[th t] i] ev] l IH]; intros pos Hs Hs'; [done|]. cbn [found].
  destruct (Z.ltb_spec pos skip); [lia|]. destruct (Z.ltb_spec pos skip'); [lia|]. f_equal. apply IH; lia.
Qed.

Lemma found_none pos skip l : Forall (fun x => event_matches e x.2 = false) l -> found pos skip l = [].
Proof.
  intros Hl. revert pos. induction Hl as [|[[[th t] i] ev] l Hx _ IH]; intros pos; [done|]. cbn [found]. cbn in Hx. rewrite Hx, IH.
  by destruct (pos <? skip).
Qed.

Variables (skip chunk : Z) (hashFn : unit -> O (option F)).
Hypothesis hash_ok : hashFn tt = Ok h.

(** The loops over the list. *)
Fixpoint scan_list (l : list located) (s : scan (F:=F)) : O scanned :=
  match l with
  | [] => Ok (Continue s)
  | (th, t, i, ev) :: l' =>
      r ← scan_event e n skip chunk hashFn th t i ev s;
      match r with Continue s' => scan_list l' s' | ChunkSizeReached s' => Ok (ChunkSizeReached s') end
  end.

Lemma scan_list_app l l' s : scan_list (l ++ l') s =
  (r ← scan_list l s; match r with Continue s' => scan_list l' s' | ChunkSizeReached s' => Ok (ChunkSizeReached s') end).
Proof.
  revert s. induction l as [|[[[th t] i] ev] l IH]; intros s; [done|]. cbn [app scan_list]. unfold mbind, outcome_bind.
  destruct (scan_event _ _ _ _ _ _ _ _ _ s) as [[s'|s']|?| |]; try done.
Qed.

Lemma scan_events_list th t i evs s : scan_events e n skip chunk hashFn th t i evs s = scan_list (flat_tx th t i evs) s.
Proof.
  revert i s. induction evs as [|ev evs IH]; intros i s; [done|]. cbn [scan_events flat_tx scan_list]. unfold mbind, outcome_bind.
  destruct (scan_event _ _ _ _ _ _ _ _ _ s) as [[s'|s']|?| |]; try done.
Qed.

Lemma scan_transactions_list t txs s : scan_transactions e n skip chunk hashFn t txs s = scan_list (flat_txs t txs) s.
Proof.
  revert t s. induction txs as [|tx txs IH]; intros t s; [done|]. cbn [scan_transactions flat_txs].
  rewrite scan_list_app, scan_events_list. unfold mbind, outcome_bind. destruct (scan_list _ s) as [[s'|s']|?| |]; try done.
Qed.

Definition hash_state (s : scan (F:=F)) : Prop := sc_hash s = None \/ sc_hash s = Some h.

(** One event: it is counted, and appended when it matches and there is room. *)
Lemma scan_event_spec th t i ev s pos : is_Some (ev_From ev) -> hash_state s -> sc_processed s = pos -> 0 <= pos < 2 ^ 64 - 1 ->
  let add := if pos <? skip then [] else if event_matches e ev then [mkFiltered ev n h th t i] else [] in
  (exists s', scan_event e n skip chunk hashFn th t i ev s = Ok (Continue s') /\ hash_state s' /\ sc_processed s' = pos + 1 /\
     sc_matched s' = sc_matched s ++ add /\ (add = [] \/ Z.of_nat (length (sc_matched s)) < chunk)) \/
  (scan_event e n skip chunk hashFn th t i ev s = Ok (ChunkSizeReached s) /\ skip <= pos /\
     chunk <= Z.of_nat (length (sc_matched s))).
Proof.
  intros [from Ef] Hh Hp Hpos. unfold scan_event, event_matches, MatchesAddress. rewrite Ef, Hp.
  assert (Hcount : forall x : scan (F:=F), sc_processed x = pos -> sc_processed (count_event x) = pos + 1).
  { intros x Hx. unfold count_event. cbn. rewrite Hx, u64_small; lia. }
  destruct (Z.ltb_spec pos skip).
  { left. eexists. split_and!; [done|done|by apply Hcount|by rewrite app_nil_r|by left]. }
  set (addr := if bool_decide (contractAddresses e = []) then true else bool_decide (from ∈ contractAddresses e)).
  replace (if bool_decide (contractAddresses e = []) then Ok true else Ok (bool_decide (from ∈ contractAddresses e)))
    with (Ok addr : O bool) by (unfold addr; by destruct (bool_decide _)).
  unfold mbind at 1, outcome_bind at 1. destruct addr; cbn [negb andb].
  2:{ left. eexists. split_and!; [done|done|by apply Hcount|by rewrite app_nil_r|by left]. }
  destruct (MatchesEventKeys e (ev_Keys ev)); cbn [negb].
  2:{ left. eexists. split_and!; [done|done|by apply Hcount|by rewrite app_nil_r|by left]. }
  destruct (Z.ltb_spec (Z.of_nat (length (sc_matched s))) chunk); [|by right].
  left. assert (Ehash : (match sc_hash s with Some h0 => Ok h0 | None => hashFn tt end) = (Ok h : O (option F))).
  { destruct Hh as [-> | ->]; [done|done]. }
  rewrite Ehash. eexists. split_and!; [done|by right| |done|by right]. apply Hcount. done.
Qed.

Lemma scan_list_spec l s pos : Forall (fun x : located => is_Some (ev_From x.2)) l -> hash_state s -> sc_processed s = pos ->
  0 <= pos -> pos + Z.of_nat (length l) < 2 ^ 64 ->
  (exists s', scan_list l s = Ok (Continue s') /\ sc_matched s' = sc_matched s ++ found pos skip l /\
     (sc_matched s' = sc_matched s \/ Z.of_nat (length (sc_matched s')) <= chunk)) \/
  (exists s' pre, scan_list l s = Ok (ChunkSizeReached s') /\ sc_matched s' = sc_matched s ++ pre /\
     let k := sc_processed s' in pos <= k /\ skip <= k /\ found pos skip l = pre ++ found pos k l /\
     chunk <= Z.of_nat (length (sc_matched s')) /\ (sc_matched s' = sc_matched s \/ Z.of_nat (length (sc_matched s')) <= chunk)).
Proof.
  intros Hl. revert s pos. induction Hl as [|[[[th t] i] ev] l Hx _ IH]; intros s pos Hh Hp Hpos Hb; cbn [scan_list found].
  { left. exists s. rewrite app_nil_r. eauto. }
  cbn [length] in Hb. cbn in Hx. set (add := if pos <? skip then [] else _).
  destruct (scan_event_spec th t i ev s pos Hx Hh Hp) as [(s1 & E1 & Hh1 & Hp1 & Hm1 & Hroom)|(E1 & Hsk & Hfull)]; [lia|..];
    unfold mbind, outcome_bind; rewrite E1.
  - fold add in Hm1, Hroom. assert (Hlen1 : sc_matched s1 = sc_matched s \/ Z.of_nat (length (sc_matched s1)) <= chunk).
    { destruct Hroom as [Ea|Hr]; [left; by rewrite Hm1, Ea, app_nil_r|right]. rewrite Hm1, length_app.
      assert (length add <= 1)%nat by (unfold add; repeat case_match; cbn; lia). lia. }
    destruct (IH s1 (pos + 1) Hh1 Hp1) as [(s' & E & Hm & Hc)|(s' & pre & E & Hm & Hk & Hsk & Hf & Hfull & Hc)]; [lia|lia|..].
    + left. exists s'. split_and!; [done|by rewrite Hm, Hm1, app_assoc|]. destruct Hc as [Hc|Hc]; [|by right]. rewrite Hc. by destruct Hlen1; [left|right].
    + right. exists s', (add ++ pre). split_and!; [done|by rewrite Hm, Hm1, app_assoc|lia|done| |done|].
      * rewrite Hf. destruct (Z.ltb_spec pos (sc_processed s')); [|lia]. cbn [app]. by rewrite app_assoc.
      * destruct Hc as [Hc|Hc]; [|by right]. rewrite Hc. by destruct Hlen1; [left|right].
  - right. exists s, []. rewrite app_nil_r, Hp. split_and!; [done|done|lia|lia| |done|by left].
    cbn [app]. unfold add. destruct (Z.ltb_spec pos skip); [lia|]. destruct (Z.ltb_spec pos pos); [lia|]. f_equal. apply found_skip; lia.
Qed.

End block.


(** ** Queries *)

Section pages.
Context {F : Type} `{!FieldElement F} `{!FieldElementLaws F} `{!FieldArith F} `{!MapOrder F} `{!MapOrderLaws F}.
Context `{!BitSets} `{!BitSetLaws} `{!Blooms} `{!BloomLaws} `{!CborBytes} `{!BlockReader F}.
Context `{!LRU AggregatedBloomFilterView} `{!LRULaws AggregatedBloomFilterView}.

(** The chain that is queried: the events, the hash and the filter of each block. *)
Record eventChain := mkEventChain {
  ch_latest : Z;
  ch_events : Z -> list (TransactionEvents F);
  ch_hash : Z -> F;
  ch_bloom : Z -> BloomFilter;
}.

(** The database holds the chain, and the filters of its blocks have their
    events. *)
Record holds_chain (c : eventChain) (d : disk) : Prop := {
  hc_latest : 0 <= ch_latest c /\ ch_latest c + 4 * NumBlocksPerFilter < 2 ^ 64;
  hc_height : ChainHeight d = Ok (ch_latest c);
  hc_events n : 0 <= n <= ch_latest c -> GetTransactionEventsByBlockNumber d n = Ok (ch_events c n);
  hc_hash n : 0 <= n <= ch_latest c -> GetBlockHeaderHashByNumber d n = Ok (ch_hash c n);
  hc_count n : 0 <= n <= ch_latest c -> Z.of_nat (length (flat_txs 0 (ch_events c n))) < 2 ^ 64;
  hc_bloom n : 0 <= n <= ch_latest c ->
    Forall (fun x => event_in (ch_bloom c n) x.2) (flat_txs 0 (ch_events c n));
}.

(** The pages of a query: each query continues with the token of the one before,
    until the token is empty. *)
Fixpoint pages (e : EventFilter (F:=F)) (chunk : Z) (fuel : nat) (t : option ContinuationToken)
  : SE qstate filterError (list (list (FilteredEvent (F:=F)))) :=
  match fuel with
  | 0%nat => out_of_fuel
  | S fuel' =>
      '(evs, t') ← Events e t chunk;
      if token_IsEmpty t' then mret [evs]
      else ps ← pages e chunk fuel' (Some t'); mret (evs :: ps)
  end.

Variables (e : EventFilter (F:=F)) (c : eventChain) (d : disk).
Hypothesis chain : holds_chain c d.
Abbreviation latest := (ch_latest c).
Abbreviation to := (ef_toBlock e).
Abbreviation m := (ef_matcher e).

(** The events of a block that match, from a position on, and those of the blocks
    up to the end of the query. *)
Definition found_block (n skip : Z) : list (FilteredEvent (F:=F)) :=
  found m n (Some (ch_hash c n)) 0 skip (flat_txs 0 (ch_events c n)).

Fixpoint found_blocks (count : nat) (n : Z) : list (FilteredEvent (F:=F)) :=
  match count with 0%nat => [] | S count' => found_block n 0 ++ found_blocks count' (n + 1) end.

Definition all (n : Z) : list (FilteredEvent (F:=F)) := found_blocks (Z.to_nat (to + 1 - n)) n.

Definition rest (n skip : Z) : list (FilteredEvent (F:=F)) := found_block n skip ++ all (n + 1).

Lemma all_step n : n <= to -> all n = rest n 0.
Proof.
  intros Hn. unfold all, rest. replace (Z.to_nat (to + 1 - n)) with (S (Z.to_nat (to + 1 - (n + 1)))) by lia. done.
Qed.

Lemma all_end n : to < n -> all n = [].
Proof. intros Hn. unfold all. by replace (Z.to_nat (to + 1 - n)) with 0%nat by lia. Qed.

Hypothesis wf : matcher_wf m.
Hypothesis to_ok : 0 <= to <= latest.

Lemma found_block_none n skip : 0 <= n <= latest -> cand m (ch_bloom c) n = false -> found_block n skip = [].
Proof.
  intros Hn Hc. apply found_none. pose proof (hc_bloom _ _ chain n Hn) as Hall. eapply Forall_impl; [exact Hall|].
  intros x Hx. cbv beta. destruct (event_matches m x.2) eqn:Em; [|done]. unfold cand in Hc.
  by rewrite (candidate_complete m (ch_bloom c n) x.2) in Hc.
Qed.

(** What is left of a query that starts at [f] after [skip] events, at [p]. *)
Definition pending (f skip p : Z) : list (FilteredEvent (F:=F)) := if p =? f then rest f skip else all p.

Lemma pending_skip f skip p n : 0 <= f <= p -> p < n -> n <= to + 1 -> no_cand m (ch_bloom c) to p n ->
  pending f skip p = all n.
Proof.
  intros Hf Hp Hn Hno.
  assert (Hall : forall k, 0 <= n - Z.of_nat k -> p <= n - Z.of_nat k -> all (n - Z.of_nat k) = all n).
  { induction k as [|k IH]; intros Hk0 Hk; [by rewrite Z.sub_0_r|]. rewrite all_step by lia. unfold rest.
    rewrite found_block_none; [|lia|apply Hno; lia]. cbn [app]. rewrite <- IH by lia. f_equal. lia. }
  unfold pending. destruct (Z.eqb_spec p f) as [->|Hne].
  - unfold rest. rewrite found_block_none; [|lia|apply Hno; lia]. cbn [app]. specialize (Hall (Z.to_nat (n - (f + 1)))).
    rewrite Z2Nat.id in Hall by lia. replace (n - (n - (f + 1))) with (f + 1) in Hall by lia. apply Hall; lia.
  - specialize (Hall (Z.to_nat (n - p))). rewrite Z2Nat.id in Hall by lia.
    replace (n - (n - p)) with p in Hall by lia. apply Hall; lia.
Qed.

Lemma pending_at f skip p n : 0 <= f <= p -> p <= n <= to -> no_cand m (ch_bloom c) to p n ->
  pending f skip p = rest n (if n =? f then skip else 0).
Proof.
  intros Hf Hn Hno. destruct (Z.eq_dec p n) as [->|Hne].
  - unfold pending. destruct (Z.eqb_spec n f) as [->|]; [done|]. apply all_step. lia.
  - rewrite (pending_skip f skip p n) by (done || lia). destruct (Z.eqb_spec n f); [lia|]. apply all_step. lia.
Qed.

Lemma pending_end f skip p : 0 <= f <= p -> f <= to -> no_cand m (ch_bloom c) to p (to + 1) -> pending f skip p = [].
Proof.
  intros Hf Hto Hno. destruct (Z.le_gt_cases p to).
  - rewrite (pending_skip f skip p (to + 1)) by (done || lia). apply all_end. lia.
  - unfold pending. destruct (Z.eqb_spec p f); [lia|]. by apply all_end.
Qed.

(** One block: all its events are looked at, or the page is full. *)
Lemma block_spec n skip chunk ms : 0 <= n <= latest -> Z.of_nat (length ms) <= chunk ->
  exists r, AppendBlockEventsFromTransactionEvents m n skip chunk ms
      (fun _ => h ← map_err ErrStore (GetBlockHeaderHashByNumber d n); Ok (Some h)) (ch_events c n) = Ok r /\
    match r with
    | Continue s => sc_matched s = ms ++ found_block n skip /\ Z.of_nat (length (sc_matched s)) <= chunk
    | ChunkSizeReached s => exists pre, sc_matched s = ms ++ pre /\ found_block n skip = pre ++ found_block n (sc_processed s) /\
        0 <= sc_processed s /\ skip <= sc_processed s /\ Z.of_nat (length (sc_matched s)) = chunk
    end.
Proof.
  intros Hn Hms. unfold AppendBlockEventsFromTransactionEvents. rewrite scan_transactions_list.
  pose proof (hc_bloom _ _ chain n Hn) as Hin.
  assert (Hfrom : Forall (fun x : located => is_Some (ev_From x.2)) (flat_txs 0 (ch_events c n))).
  { eapply Forall_impl; [exact Hin|]. intros x (from & E & _). by rewrite E. }
  assert (Hh : (h ← map_err ErrStore (GetBlockHeaderHashByNumber d n); Ok (Some h)) = Ok (Some (ch_hash c n))) by by rewrite (hc_hash _ _ chain n Hn).
  destruct (scan_list_spec m n (Some (ch_hash c n)) skip chunk
      (fun _ => h ← map_err ErrStore (GetBlockHeaderHashByNumber d n); Ok (Some h)) Hh _ (mkScan ms 0 None) 0 Hfrom)
      as [(s & E & Hm & Hc)|(s & pre & E & Hm & Hk & Hsk & Hf & Hfull & Hc)];
    [by left|done|done|by apply (hc_count _ _ chain)|..].
  - exists (Continue s). split; [exact E|]. split; [done|]. destruct Hc as [-> | ]; [done|done].
  - exists (ChunkSizeReached s). split; [exact E|]. exists pre. split_and!; try done. destruct Hc as [Hc|]; [|lia].
    rewrite Hc in *. cbn [sc_matched] in *. lia.
Qed.

Variables (inner : AggregatedBloomFilter) (fb : disk -> Z * Z -> outcome filterError AggregatedBloomFilterView).
Abbreviation indexed q := (index_ok latest (ch_bloom c) q inner fb).

(** A page of a query that starts at block [f] after [skip] events. *)
Definition page (f skip chunk : Z) (r : list (FilteredEvent (F:=F)) * ContinuationToken) : Prop :=
  Z.of_nat (length r.1) <= chunk /\
  ((token_IsEmpty r.2 = true /\ r.1 = rest f skip) \/
   (token_IsEmpty r.2 = false /\ f <= tk_fromBlock r.2 <= to /\ (f < tk_fromBlock r.2 \/ r.1 <> []) /\
    rest f skip = r.1 ++ rest (tk_fromBlock r.2) (tk_processedEvents r.2))).

(** The loop has passed the blocks before [p]. *)
Record loop_ok (f skip chunk : Z) (q : qstate) (p : Z) (ms : list (FilteredEvent (F:=F))) : Prop := {
  lo_index : indexed q;
  lo_db : q_db q = d;
  lo_it : it_ok m latest (ch_bloom c) to (q_it q) p;
  lo_pos : f <= p;
  lo_done : rest f skip = ms ++ pending f skip p;
  lo_first : p = f -> ms = [];
  lo_room : Z.of_nat (length ms) <= chunk;
  lo_count : 0 <= it_scannedCount (q_it q) <= it_maxScanned (q_it q) /\ it_scannedCount (q_it q) <= p - f;
}.

Lemma wp_canonical_loop fuel f skip chunk sk last q p ms :
  0 <= f <= to -> 1 <= chunk -> loop_ok f skip chunk q p ms -> (p = f -> sk = skip) -> to + 2 - p <= Z.of_nat fuel -> (1 <= fuel)%nat ->
  wp (canonical_loop e fuel f chunk sk last ms)
    (fun r q' => indexed q' /\ q_db q' = d /\ page f skip chunk r) q.
Proof.
  intros Hf Hchunk. revert sk last q p ms. induction fuel as [|fuel IH]; intros sk last q p ms Hl Hsk Hfuel Hone; [lia|].
  cbn [canonical_loop]. destruct Hl as [Hq Hd Hit Hp Hdone Hfirst Hroom [Hc1 Hc2]]. pose proof (hc_latest _ _ chain) as Hlat.
  pose proof (it_ok_pos _ _ _ _ _ _ Hit) as Hpos. wp_step. eapply wp_mono.
  { apply (wp_it_Next m latest (ch_bloom c) Hlat inner fb to to_ok q p Hq Hit). unfold NumBlocksPerFilter in *. lia. }
  intros r q1 (Hq1 & _ & Ed & Emax & Hr). cbv zeta in Hr. rewrite Hd in Ed. destruct r as [n| |n].
  - destruct Hr as (Hn & _ & Hno & Hit1 & Ec & Hmax). wp_step. wp_step. wp_step.
    eapply wp_lift; [rewrite Ed, (hc_events _ _ chain) by lia; reflexivity|].
    destruct (block_spec n (if n =? f then sk else 0) chunk ms) as (r & E & Hr); [lia|done|]. wp_step.
    eapply wp_lift; [rewrite Ed; exact E|].
    assert (Hat : pending f skip p = rest n (if n =? f then sk else 0)).
    { rewrite (pending_at f skip p n) by (done || lia). destruct (Z.eqb_spec n f); [|done]. rewrite Hsk by lia. done. }
    rewrite Hat in Hdone. destruct r as [s|s].
    + destruct Hr as [Hm Hlen]. apply (IH _ _ q1 (n + 1)); [|lia|lia|lia]. split; try done; try lia.
      * rewrite Hdone, Hm, <- app_assoc. unfold rest at 1, pending. by destruct (Z.eqb_spec (n + 1) f); [lia|].
      * rewrite Emax, Ec. destruct (Z.ltb_spec 0 (it_maxScanned (q_it q))); lia.
    + destruct Hr as (pre & Hm & Hfound & Hk0 & Hk & Hfull). wp_step. split_and!; [done|done|]. split; [cbn [fst]; lia|]. right. cbn [fst snd tk_fromBlock tk_processedEvents].
      assert (Hne : sc_matched s <> []) by (intros E0; rewrite E0 in Hfull; cbn in Hfull; lia).
      split_and!; [|lia|lia|by right|].
      * unfold token_IsEmpty. cbn. destruct (Z.eqb_spec n 0) as [->|]; [|done]. destruct (Z.eqb_spec (sc_processed s) 0) as [E0|]; [|done].
        exfalso. apply Hne. assert (f = 0) as -> by lia. rewrite Hm, Hfirst by lia. rewrite E0 in Hfound. cbn in Hfound, Hk.
        assert (Hpre : length (found_block 0 0) = (length pre + length (found_block 0 0))%nat).
        { rewrite <- length_app, <- Hfound. unfold found_block. f_equal. apply found_skip; lia. }
        by destruct pre; [|cbn in Hpre; lia].
      * rewrite Hdone, Hm. unfold rest. by rewrite Hfound, !app_assoc.
  - destruct Hr as [Hno Ec]. wp_step. wp_step. rewrite Emax, Ec. destruct (Z.ltb_spec (it_maxScanned (q_it q)) (it_scannedCount (q_it q))); [lia|].
    cbn [andb]. wp_step. split_and!; [done|done|]. split; [done|]. left. split; [done|]. cbn.
    by rewrite Hdone, (pending_end f skip p), app_nil_r by (done || lia).
  - destruct Hr as (Hn & _ & Hno & Hmax & Ec & Hover). wp_step. wp_step. rewrite Emax.
    destruct (Z.ltb_spec (it_maxScanned (q_it q)) (it_scannedCount (q_it q1))); [|lia]. destruct (Z.leb_spec n to); [|lia]. cbn [andb].
    wp_step. split_and!; [done|done|]. split; [done|]. right. cbn [fst snd tk_fromBlock tk_processedEvents].
    split_and!; [|lia|lia|lia|].
    + unfold token_IsEmpty. cbn. by destruct (Z.eqb_spec n 0); [lia|].
    + rewrite Hdone, (pending_at f skip p n) by (done || lia). by destruct (Z.eqb_spec n f); [lia|].
Qed.

Hypothesis max_ok : 0 <= ef_maxScanned e.

Lemma wp_canonicalEvents f skip chunk q : indexed q -> q_db q = d -> 0 <= f <= to -> 1 <= chunk ->
  wp (canonicalEvents e [] f to skip chunk) (fun r q' => indexed q' /\ q_db q' = d /\ page f skip chunk r) q.
Proof.
  intros Hq Hd Hf Hchunk. unfold canonicalEvents. wp_step. wp_step. wp_step. eapply wp_lift; [reflexivity|]. wp_step. wp_step.
  apply (wp_canonical_loop _ f skip chunk skip 0 _ f []); [done|done| |done|lia|lia].
  split; try done; try (cbn; lia).
  - by apply index_ok_it.
  - destruct (window_spec f) as (Hw & _ & _); [lia|]. split; [done| |].
    + cbn. by destruct (Z.ltb_spec to f); [lia|].
    + cbn. split_and!; (done || lia).
  - unfold pending. by rewrite Z.eqb_refl.
Qed.

Hypothesis retained : forall n, ef_fromBlock e <= n <= to -> HasBlockCommitments d n = Ok tt.

Definition starts (t : option ContinuationToken) (f skip : Z) : Prop :=
  match t with Some t => tk_fromBlock t = f /\ tk_processedEvents t = skip | None => f = ef_fromBlock e /\ skip = 0 end.

Lemma wp_Events t f skip chunk q : indexed q -> q_db q = d -> starts t f skip -> 0 <= f -> ef_fromBlock e <= f <= to -> 1 <= chunk ->
  wp (Events e t chunk) (fun r q' => indexed q' /\ q_db q' = d /\ page f skip chunk r) q.
Proof.
  intros Hq Hd Ht Hf0 Hf Hchunk. unfold Events. wp_step. wp_step. wp_step. eapply (wp_lift _ _ _ (latest, None)).
  { rewrite Hd. unfold headAndPreConfirmed, PreConfirmedFilterSentinel. rewrite (hc_height _ _ chain). cbn [map_err].
    pose proof (hc_latest _ _ chain). destruct (Z.eqb_spec to (2 ^ 64 - 1)); [unfold NumBlocksPerFilter in *; lia|].
    unfold mbind, outcome_bind. by destruct (Z.leb_spec to latest); [|lia]. }
  assert (Est : (match t with Some t => (tk_fromBlock t, tk_processedEvents t) | None => (ef_fromBlock e, 0) end) = (f, skip)).
  { destruct t as [t|]; destruct Ht as [-> ->]; done. }
  cbv beta iota. rewrite Est. wp_step. destruct (Z.leb_spec f latest); [|lia].
  eapply wp_lift; [unfold RequireRetained; by rewrite Hd, retained by lia|]. destruct (Z.leb_spec to latest); [|lia].
  apply wp_canonicalEvents; (done || lia).
Qed.

(** Each page has an event or ends in a later block. *)
Lemma wp_pages fuel t f skip chunk q : indexed q -> q_db q = d -> starts t f skip -> 0 <= f -> ef_fromBlock e <= f <= to -> 1 <= chunk ->
  to - f + Z.of_nat (length (rest f skip)) < Z.of_nat fuel ->
  wp (pages e chunk fuel t) (fun ps q' => indexed q' /\ concat ps = rest f skip /\
    Forall (fun evs => Z.of_nat (length evs) <= chunk) ps) q.
Proof.
  revert t f skip q. induction fuel as [|fuel IH]; intros t f skip q Hq Hd Ht Hf0 Hf Hchunk Hfuel; [lia|].
  cbn [pages]. wp_step. eapply wp_mono; [by apply (wp_Events t f skip)|].
  intros [evs t'] q1 (Hq1 & Hd1 & Hlen & [[Et Er]|(Et & Hn & Hprog & Er)]); cbn [fst snd] in *; rewrite Et.
  - wp_step. cbn [concat]. rewrite app_nil_r. auto.
  - wp_step. eapply wp_mono; [apply (IH (Some t') (tk_fromBlock t') (tk_processedEvents t') q1); try done; try lia|].
    + rewrite Er, length_app in Hfuel. destruct Hprog as [|Hne]; [lia|]. destruct evs; [done|]. cbn [length] in Hfuel. lia.
    + intros ps q2 (Hq2 & Hps & Hl). wp_step. cbn [concat]. rewrite Hps, Er. auto.
Qed.

End pages.

(** The events of a chain that a query is for, in the order of the chain. *)
Section query.
Context {F : Type} `{!FieldElement F} `{!FieldElementLaws F} `{!FieldArith F} `{!MapOrder F} `{!MapOrderLaws F}.
Context `{!BitSets} `{!BitSetLaws} `{!Blooms} `{!BloomLaws} `{!CborBytes} `{!BlockReader F}.
Context `{!LRU AggregatedBloomFilterView} `{!LRULaws AggregatedBloomFilterView}.

Definition matching_events (e : EventFilter (F:=F)) (c : eventChain) (n : Z) : list (FilteredEvent (F:=F)) :=
  (fun '(th, t, i, ev) => mkFiltered ev n (Some (ch_hash c n)) th t i) <$>
    filter (fun x : located => event_matches (ef_matcher e) x.2 = true) (flat_txs 0 (ch_events c n)).

Definition query_events (e : EventFilter (F:=F)) (c : eventChain) : list (FilteredEvent (F:=F)) :=
  seqZ (ef_fromBlock e) (ef_toBlock e + 1 - ef_fromBlock e) ≫= matching_events e c.

Lemma found_filter (m : EventMatcher (F:=F)) n h pos l : 0 <= pos ->
  found m n h pos 0 l = (fun '(th, t, i, ev) => mkFiltered ev n h th t i) <$>
    filter (fun x : located => event_matches m x.2 = true) l.
Proof.
  revert pos. induction l as [|[[[th t] i] ev] l IH]; intros pos Hpos; [done|]. cbn [found].
  destruct (Z.ltb_spec pos 0); [lia|]. rewrite filter_cons. cbn [snd]. rewrite IH by lia.
  destruct (event_matches m ev) eqn:Em; by case_decide.
Qed.

Lemma query_events_all e c : all e c (ef_fromBlock e) = query_events e c.
Proof.
  unfold query_events. remember (Z.to_nat (ef_toBlock e + 1 - ef_fromBlock e)) as count eqn:Ec.
  generalize dependent (ef_fromBlock e). induction count as [|count IH]; intros n Ec; unfold all; rewrite <- Ec; cbn [found_blocks].
  - by rewrite seqZ_nil by lia.
  - rewrite seqZ_cons by lia. cbn [mbind list_bind]. unfold found_block, matching_events at 1. rewrite found_filter by done. f_equal.
    replace (Z.succ n) with (n + 1) by lia. replace (Z.pred (ef_toBlock e + 1 - n)) with (ef_toBlock e + 1 - (n + 1)) by lia.
    rewrite <- IH by lia. unfold all. f_equal. lia.
Qed.

Context `{!CborBytesLaws}.

(** The cached windows have the bits of the blocks of the chain. *)
Definition cache_ok (c : eventChain (F:=F)) (q : qstate) : Prop :=
  ca_fallback (q_cache q) = Some GetAggregatedBloomFilterView /\
  forall w v, lru_contents (ca_cache (q_cache q)) !! (w, w + MaxBlockOffsetPerFilter) = Some v ->
    w < window_of (ch_latest c + 1) -> view_ok (ch_latest c) (ch_bloom c) v w.

Lemma running_index c q : running_ok (ch_bloom c) (ch_latest c + 1) (q_filter q) (q_db q) -> 0 <= ch_latest c -> cache_ok c q ->
  exists inner, index_ok (ch_latest c) (ch_bloom c) q inner GetAggregatedBloomFilterView.
Proof.
  intros [Ho Hr Hn (g & Hg & Hw & Hf & Hb) Hs] Hl [Hfb Hc]. destruct (window_spec (ch_latest c + 1)) as (Hw1 & Hw2 & Hw3); [lia|].
  exists g. split; try done.
  - rewrite <- Hf. apply (has_bits_view _ _ (ch_latest c + 1) g); try done; [lia|]. destruct g as [[rows] ? ?]. apply mem_rows_cols, Hw.
  - intros w Ha Hw0 Hlt. apply get_stored_view; [done|]. apply Hs; [done|done|]. pose proof (aligned_lt _ _ Ha Hw3 Hlt). lia.
Qed.

(** C30: the pages of an event query are all events the query is for. The filter
    has run over the chain and the cache has no other windows: then a query that
    is repeated with the token of the page before ends, and its pages together are
    the events of the blocks of the range that match, in the order of the chain,
    none twice and none missing; no page is longer than the chunk size, whatever
    the chunk size and the limit of blocks are. *)
Theorem event_query_complete e addresses keys c q chunk :
  running_ok (ch_bloom c) (ch_latest c + 1) (q_filter q) (q_db q) -> cache_ok c q -> holds_chain c (q_db q) ->
  ef_matcher e = NewEventMatcher addresses keys -> 0 <= ef_fromBlock e <= ef_toBlock e -> ef_toBlock e <= ch_latest c ->
  0 <= ef_maxScanned e -> 1 <= chunk ->
  (forall n, ef_fromBlock e <= n <= ef_toBlock e -> HasBlockCommitments (q_db q) n = Ok tt) ->
  exists ps q', pages e chunk (Z.to_nat (ef_toBlock e - ef_fromBlock e) + length (query_events e c) + 1) None q = (Ok ps, q') /\
    concat ps = query_events e c /\ Forall (fun evs => Z.of_nat (length evs) <= chunk) ps.
Proof.
  intros Hr Hc Hh Em Hf Ht Hmax Hchunk Hret. pose proof (hc_latest _ _ Hh) as [Hl _].
  destruct (running_index c q Hr Hl Hc) as [inner Hq].
  assert (Hwf : matcher_wf (ef_matcher e)) by (rewrite Em; apply NewEventMatcher_wf).
  assert (Erest : rest e c (ef_fromBlock e) 0 = query_events e c) by (rewrite <- all_step by lia; apply query_events_all).
  pose proof (wp_pages e c (q_db q) Hh Hwf ltac:(lia) inner GetAggregatedBloomFilterView Hmax Hret
    (Z.to_nat (ef_toBlock e - ef_fromBlock e) + length (query_events e c) + 1) None (ef_fromBlock e) 0 chunk q Hq eq_refl) as Hw.
  rewrite Erest in Hw. lapply Hw; [clear Hw; intros Hw|done]. specialize (Hw ltac:(lia) ltac:(lia) Hchunk ltac:(lia)).
  apply wp_elim in Hw as (ps & q' & E & _ & Hps & Hlen). eauto.
Qed.

End query.
