(* ===== verification/EventWitness.v ===== *)
(** * Event filters and queries at concrete inputs

    Bit sets as functions, filters with one hash function, a chain of two blocks. *)
From stdpp Require Import prelude gmap list.
From Stdlib Require Import ZArith Lia.
From S2P Require Import Prelude Felt FeltArith MemDB MemDBFacts TrieDB Block State Bloom BloomFacts EventFilter EventFacts EventIndex EventPages.

Local Open Scope Z_scope.

(** ** Bit sets *)

Record bits := mkBits { b_len : Z; b_test : Z -> bool }.

Definition bits_len (b : bits) : Z := Z.max 0 (b_len b).
Definition bits_has (b : bits) (i : Z) : bool := (0 <=? i) && (i <? bits_len b) && b_test b i.
Definition bits_members (b : bits) : list Z := filter (fun i => bits_has b i = true) (seqZ 0 (bits_len b)).

(** The number with the given bits. *)
Fixpoint number (k : nat) (f : Z -> bool) : Z :=
  match k with 0%nat => 0 | S k' => Z.b2z (f 0) + 2 * number k' (fun i => f (i + 1)) end.

Lemma number_bits k f r : 0 <= r -> Z.testbit (number k f) r = f r && (r <? Z.of_nat k).
Proof.
  revert f r. induction k as [|k IH]; intros f r Hr; cbn [number].
  { rewrite Z.bits_0. destruct (Z.ltb_spec r (Z.of_nat 0)); [lia|]. by rewrite andb_false_r. }
  destruct (Z.eq_dec r 0) as [->|Hne].
  - rewrite (Z.add_comm (Z.b2z _)), Z.testbit_0_r. destruct (Z.ltb_spec 0 (Z.of_nat (S k))); [by rewrite andb_true_r|lia].
  - replace r with (Z.succ (r - 1)) at 1 by lia. rewrite (Z.add_comm (Z.b2z _)), Z.testbit_succ_r by lia. rewrite IH by lia.
    f_equal; [f_equal; lia|]. destruct (Z.ltb_spec (r - 1) (Z.of_nat k)), (Z.ltb_spec r (Z.of_nat (S k))); (done || lia).
Qed.

Lemma number_range k f : 0 <= number k f < 2 ^ Z.of_nat k.
Proof.
  revert f. induction k as [|k IH]; intros f; cbn [number]; [done|]. specialize (IH (fun i => f (i + 1))).
  rewrite Nat2Z.inj_succ, Z.pow_succ_r by lia. destruct (f 0); cbn [Z.b2z]; lia.
Qed.

Definition bits_words (b : bits) : list Z :=
  (fun w => number 64 (fun r => bits_has b (64 * w + r))) <$> seqZ 0 (bits_len b / 64).

#[local] Instance function_bits : BitSets := {|
  BitSet := bits;
  bs_Zero := mkBits 0 (fun _ => false);
  bs_New n := mkBits n (fun _ => false);
  bs_FromWithLength n ws := mkBits n (fun i => word_bit ws i);
  bs_Len := bits_len;
  bs_Test := bits_has;
  bs_Set b i := mkBits (Z.max (bits_len b) (i + 1)) (fun j => (j =? i) || bits_has b j);
  bs_Clear b i := mkBits (bits_len b) (fun j => negb (j =? i) && bits_has b j);
  bs_SetAll b := mkBits (bits_len b) (fun _ => true);
  bs_ClearAll b := mkBits (bits_len b) (fun _ => false);
  bs_Count b := Z.of_nat (length (bits_members b));
  bs_NextSetMany b i n := take (Z.to_nat n) (filter (fun j => i <= j) (bits_members b));
  bs_NextSet b i := head (filter (fun j => bits_has b j = true) (seqZ i (bits_len b - i)));
  bs_InPlaceUnion a b := mkBits (Z.max (bits_len a) (bits_len b)) (fun i => bits_has a i || bits_has b i);
  bs_InPlaceIntersection a b := mkBits (bits_len a) (fun i => bits_has a i && bits_has b i);
  bs_None b := bool_decide (bits_members b = []);
  bs_Words := bits_words;
  bs_MarshalBinary b := be_bytes 8 (bits_len b) ++ concat (be_bytes 8 <$> bits_words b);
|}.

Lemma has_spec b i : bits_has b i = true <-> (0 <= i < bits_len b /\ b_test b i = true).
Proof. unfold bits_has. rewrite !andb_true_iff, Z.leb_le, Z.ltb_lt. tauto. Qed.

Lemma members_spec b i : i ∈ bits_members b <-> bits_has b i = true.
Proof.
  unfold bits_members. rewrite list_elem_of_filter, elem_of_seqZ. split; [by intros [? _]|]. intros Hi. split; [done|].
  apply has_spec in Hi. lia.
Qed.

(** Two truth values with the same condition. *)
Lemma bool_eq (a b : bool) : (a = true <-> b = true) -> a = b.
Proof. destruct a, b; intuition congruence. Qed.

Lemma first_spec (p : Z -> bool) i n :
  match head (filter (fun j => p j = true) (seqZ i n)) with
  | Some j => i <= j < i + n /\ p j = true /\ forall k, i <= k < j -> p k = false
  | None => forall k, i <= k < i + n -> p k = false
  end.
Proof.
  destruct (Z.le_gt_cases n 0) as [Hn|Hn]; [rewrite seqZ_nil by done; cbn; intros; lia|].
  rewrite <- (Z2Nat.id n) by lia. generalize (Z.to_nat n) as c. clear n Hn. intros c. revert i. induction c as [|c IH]; intros i.
  { intros k Hk. lia. }
  rewrite seqZ_cons, filter_cons by lia. specialize (IH (Z.succ i)). replace (Z.pred (Z.of_nat (S c))) with (Z.of_nat c) by lia.
  destruct (p i) eqn:Ei; case_decide; try done; cbn [head].
  - split_and!; [lia|lia|done|]. intros. lia.
  - destruct (head _) as [j|].
    + destruct IH as (Hj & Hp & Hb). split_and!; [lia|lia|done|]. intros k Hk. destruct (Z.eq_dec k i) as [->|]; [done|]. apply Hb. lia.
    + intros k Hk. destruct (Z.eq_dec k i) as [->|]; [done|]. apply IH. lia.
Qed.

Lemma words_lookup b (w : nat) v : bits_words b !! w = Some v -> v = number 64 (fun r => bits_has b (64 * Z.of_nat w + r)).
Proof.
  unfold bits_words. rewrite list_lookup_fmap. destruct (seqZ 0 (bits_len b / 64) !! w) as [w'|] eqn:E; [|done].
  apply lookup_seqZ in E as [-> _]. intros [= <-]. by rewrite Z.add_0_l.
Qed.

Lemma words_count b (k : nat) : bits_len b = 64 * Z.of_nat k -> length (bits_words b) = k.
Proof. intros E. unfold bits_words. rewrite length_fmap, length_seqZ, E, Z.mul_comm, Z.div_mul, Nat2Z.id by done. done. Qed.

Lemma from_words n ws : n = 64 * Z.of_nat (length ws) -> Forall (fun v => is_u64 v) ws ->
  bits_words (mkBits n (fun i => word_bit ws i)) = ws.
Proof.
  intros Hn Hu. set (b := mkBits _ _). assert (Hl : bits_len b = 64 * Z.of_nat (length ws)) by (unfold bits_len, b; cbn; lia).
  apply (list_eq_same_length _ _ (length ws)); [done|by apply words_count|]. intros w x y Hw Hx Hy.
  apply words_lookup in Hx as ->. rewrite Forall_lookup in Hu. specialize (Hu w y Hy).
  apply Z.bits_inj'. intros r Hr. rewrite number_bits by done. destruct (Z.ltb_spec r (Z.of_nat 64)) as [Hlt|Hge].
  - rewrite andb_true_r. assert (Hin : (w < length ws)%nat) by (by apply lookup_lt_Some in Hy).
    unfold bits_has. rewrite Hl. destruct (Z.leb_spec 0 (64 * Z.of_nat w + r)); [|lia].
    destruct (Z.ltb_spec (64 * Z.of_nat w + r) (64 * Z.of_nat (length ws))); [|lia]. cbn [andb b_test b].
    rewrite word_bit_split by lia. by rewrite Hy.
  - rewrite andb_false_r. symmetry. destruct (Z.eq_dec y 0) as [->|Hy0]; [apply Z.bits_0|].
    apply Z.bits_above_log2; [lia|]. assert (Z.log2 y < 64); [|lia]. apply Z.log2_lt_pow2; lia.
Qed.

Ltac bits_case := intros; unfold bits_has; cbn [b_test]; apply bool_eq;
  rewrite ?andb_true_iff, ?orb_true_iff, ?negb_true_iff, ?Z.eqb_eq, ?Z.eqb_neq, ?Z.leb_le, ?Z.ltb_lt; unfold bits_len in *; cbn [b_len] in *.

#[local] Instance function_bits_laws : BitSetLaws.
Proof.
  split; cbn -[Z.mul Z.of_nat seqZ number Z.max be_bytes]; try (intros; unfold bits_len in *; cbn [b_len] in *; lia).
  - intros b i Hi. apply has_spec in Hi. lia.
  - intros n i. unfold bits_has. cbn. by rewrite andb_false_r.
  - bits_case. intuition lia.
  - bits_case. intuition lia.
  - bits_case. intuition lia.
  - intros b i. unfold bits_has. cbn. by rewrite andb_false_r.
  - intros b. rewrite Nat2Z.id. assert (Hall : forall l : list Z, Forall (fun j => 0 <= j) l -> filter (fun j => 0 <= j) l = l).
    { intros l Hl. induction Hl as [|j l Hj _ IH]; [done|]. by rewrite filter_cons_True, IH. }
    rewrite Hall; [by rewrite firstn_all|]. apply Forall_forall. intros i Hi%members_spec. apply has_spec in Hi. lia.
  - intros b i j E. pose proof (first_spec (bits_has b) i (bits_len b - i)) as Hf. rewrite E in Hf. intuition lia.
  - intros b i k E Hk. pose proof (first_spec (bits_has b) i (bits_len b - i)) as Hf. rewrite E in Hf.
    destruct (bits_has b k) eqn:Ek; [|done]. rewrite <- Ek. apply Hf. apply has_spec in Ek. lia.
  - intros a b i. bits_case. intuition lia.
  - intros a b i. bits_case. intuition lia.
  - intros b. rewrite bool_decide_eq_true. split.
    + intros E i. destruct (bits_has b i) eqn:Ei; [|done]. apply members_spec in Ei. rewrite E in Ei. by apply not_elem_of_nil in Ei.
    + intros Hn. destruct (bits_members b) as [|i l] eqn:E; [done|]. assert (Hi : i ∈ bits_members b) by (rewrite E; left).
      apply members_spec in Hi. by rewrite Hn in Hi.
  - intros b k. apply words_count.
  - intros b. unfold bits_words. apply Forall_fmap, Forall_forall. intros w _. cbn -[number]. apply number_range.
  - intros b w v r Hw Hr. apply words_lookup in Hw as ->. rewrite number_bits by lia.
    destruct (Z.ltb_spec r (Z.of_nat 64)); [by rewrite andb_true_r|lia].
  - intros n ws. apply from_words.
  - done.
Qed.

(** ** Filters, caches and the codec *)

Record small_bloom := mkSmall { sb_cap : Z; sb_k : Z; sb_test : Z -> bool }.

Definition sb_Cap (f : small_bloom) : Z := Z.max 1 (sb_cap f).

(** One location: the sum of the bytes with weights. *)
Definition sum_hash (d : bytes) : list Z := [foldr (fun b acc => u64 (b + 31 * acc)) 0 d].

Definition sb_add (f : small_bloom) (d : bytes) : small_bloom :=
  mkSmall (sb_cap f) (sb_k f) (fun i => sb_test f i || existsb (fun l => l mod sb_Cap f =? i) (sum_hash d)).

Definition sb_bits (f : small_bloom) : bits := mkBits (sb_Cap f) (sb_test f).

Definition sb_has (f : small_bloom) (d : bytes) : bool := forallb (fun l => bits_has (sb_bits f) (l mod sb_Cap f)) (sum_hash d).

#[local] Instance small_blooms : Blooms := {|
  BloomFilter := small_bloom;
  bloom_New m k := mkSmall m k (fun _ => false);
  bloom_Cap := sb_Cap;
  bloom_K := sb_k;
  bloom_BitSet := sb_bits;
  bloom_Test := sb_has;
  bloom_TestOrAdd f d := (sb_has f d, sb_add f d);
  bloom_Locations d k := sum_hash d;
|}.

Lemma sum_hash_u64 d : Forall (fun v => is_u64 v) (sum_hash d).
Proof. constructor; [|done]. destruct d; [done|]. apply u64_range. Qed.

#[local] Instance small_blooms_laws : BloomLaws.
Proof.
  split.
  - intros d k. apply sum_hash_u64.
  - intros m k Hm Hk. assert (Ec : sb_Cap (mkSmall m k (fun _ => false)) = m) by (unfold sb_Cap; cbn -[Z.max]; lia).
    split; [done|]. split; [done|]. split; [cbn -[Z.max sb_Cap bits_len]; unfold bits_len, sb_bits; rewrite Ec; cbn -[Z.max]; lia|].
    intros i. cbn -[Z.max]. unfold bits_has. cbn -[Z.max]. by rewrite andb_false_r.
  - intros f d. cbn -[sum_hash Z.max]. split_and!; [done|done|done|]. intros i. apply bool_eq. rewrite orb_true_iff, bool_decide_eq_true, !has_spec.
    cbn -[sum_hash Z.max]. unfold sb_Cap. cbn -[sum_hash Z.max]. rewrite orb_true_iff, existsb_exists, list_elem_of_fmap. unfold bits_len. cbn -[sum_hash Z.max]. unfold sb_Cap.
    split.
    + intros [Hr [Ht|(l & Hl & E)]]; [left; done|right]. exists l. apply Z.eqb_eq in E. apply list_elem_of_In in Hl. done.
    + intros [[Hr Ht]|(l & -> & Hl)]; [auto|]. pose proof (Z.mod_pos_bound l (Z.max 1 (sb_cap f)) ltac:(lia)). cbn [sb_cap sb_add]. split; [lia|]. right. exists l. apply list_elem_of_In in Hl. split; [done|]. apply Z.eqb_eq. done.
  - done.
Qed.

#[local] Instance map_cache : LRU AggregatedBloomFilterView := {|
  lruCache := gmap (Z * Z) AggregatedBloomFilterView;
  lru_contents c := c;
  lru_New _ := ∅;
  lru_Get c k := (c !! k, c);
  lru_Add c k v := <[k := v]> c;
  lru_Purge _ := ∅;
|}.

#[local] Instance map_cache_laws : LRULaws AggregatedBloomFilterView.
Proof. by split. Qed.

#[local] Instance plain_bytes : CborBytes := {| cbor_Marshal b := b; cbor_Unmarshal b := Some b |}.

#[local] Instance plain_bytes_laws : CborBytesLaws.
Proof. by split. Qed.

Abbreviation SF := StarkField.

#[local] Instance key_order : MapOrder SF := {| map_order V m := map_to_list m; node_order m := map_to_list m |}.

#[local] Instance key_order_laws : MapOrderLaws SF.
Proof. by split. Qed.

(** A reader of a chain with receipts; it does not look at the database. *)
Definition chain_reader (latest : Z) (rs : Z -> list (TransactionReceipt SF)) : BlockReader SF := {|
  ChainHeight _ := Ok latest;
  GetReceiptsByBlockNumber _ n := Ok (rs n);
  GetTransactionEventsByBlockNumber _ n := Ok (receipt_events <$> rs n);
  GetBlockHeaderHashByNumber _ n := Ok (stark (1000 + n));
  BlockHeaderNumberByHash _ _ := Err ErrNotFound;
  L1HeadBlockNumber _ := Ok 0;
  HasBlockCommitments _ _ := Ok tt;
  OldestRetainedBlock _ := Ok 0;
|}.

Definition empty_db : disk := memory.New.

(** ** A chain of two blocks *)

Definition ev (from : Z) (keys : list Z) : Event SF := mkEvent (Some (stark from)) (stark <$> keys) [].

Definition receipt (h : Z) (evs : list (Event SF)) : TransactionReceipt SF := mkReceipt None evs None [] (Some (stark h)) false [].

Definition two_blocks (n : Z) : list (TransactionReceipt SF) :=
  if n =? 0 then [receipt 100 [ev 7 [1; 2]; ev 8 [1]]] else if n =? 1 then [receipt 101 [ev 7 [1]]; receipt 102 []] else [].

#[local] Instance two_blocks_reader : BlockReader SF := chain_reader 1 two_blocks.

Definition block_bloom (n : Z) : BloomFilter :=
  match EventsBloom (two_blocks n) with Ok b => b | _ => bloom_New EventsBloomLength EventsBloomHashFuncs end.

Lemma block_bloom_ok n : EventsBloom (two_blocks n) = Ok (block_bloom n).
Proof. unfold block_bloom, two_blocks. destruct (n =? 0); [reflexivity|]. destruct (n =? 1); reflexivity. Qed.

Lemma block_bloom_length n : bs_Len (bloom_BitSet (block_bloom n)) = EventsBloomLength.
Proof. by destruct (EventsBloom_complete _ _ (block_bloom_ok n)) as [(_ & _ & ?) _]. Qed.

(** Two blocks are added, one is reverted and added again. *)
Definition small_ops : list chain_op := [AddBlock (block_bloom 0); AddBlock (block_bloom 1); RevertBlock; AddBlock (block_bloom 1)].

Definition small_run := filter_ops [] small_ops (NewRunningEventFilterHot (NewAggregatedFilter 0) 0, empty_db).

Lemma small_ops_allowed : ops_allowed [] small_ops.
Proof. cbn -[block_bloom bs_Len]. split_and!; (apply block_bloom_length || done). Qed.

Lemma filter_tracks_chain_witness : foldl apply_op [] small_ops = [block_bloom 0; block_bloom 1] /\
  exists f' d', filter_ops [] small_ops (NewRunningEventFilterHot (NewAggregatedFilter 0) 0, empty_db) = (Ok tt, (f', d')) /\
    tracks (foldl apply_op [] small_ops) f' d'.
Proof.
  split; [reflexivity|]. refine (filter_tracks_chain small_ops empty_db _ small_ops_allowed _); [by eexists|].
  change (length small_ops) with 4%nat. reflexivity.
Defined.

Lemma rebuilt_filter_witness :
  exists f' d', InitializeRunningEventFilter empty_db = (Ok f', d') /\ running_ok block_bloom (1 + 1) f' d'.
Proof.
  apply (rebuilt_filter block_bloom 1 two_blocks 0 empty_db); try done.
  - by eexists.
  - split; [done|intros; unfold NumBlocksPerFilter in *; lia|done].
  - intros n _. apply block_bloom_ok.
Defined.

(** ** A query over the two blocks *)

Definition small_chain : eventChain (F:=SF) :=
  mkEventChain 1 (fun n => receipt_events <$> two_blocks n) (fun n => stark (1000 + n)) block_bloom.

(** The events of one contract with one key, one block and one event in a page. *)
Definition small_query : EventFilter (F:=SF) :=
  mkEventFilter 0 1 (NewEventMatcher [stark 7] [[stark 1]]) 1 (fun _ => Ok None).

Definition small_state : qstate :=
  mkQ (mkIterator None 0 0 0 0 true 0 0) (WithFallback (NewAggregatedBloomCache 16) GetAggregatedBloomFilterView)
    (small_run.2).1 (small_run.2).2.

Lemma small_state_ok : running_ok block_bloom 2 (q_filter small_state) (q_db small_state).
Proof.
  pose proof (wp_filter_ops small_ops [] _ empty_db (tracks_empty empty_db ltac:(by eexists)) small_ops_allowed eq_refl) as Hw.
  apply wp_elim in Hw as ([] & [f d] & E & Ht). unfold small_state, small_run. cbn [q_filter q_db].
  rewrite E. cbn [fst snd] in *. eapply running_ok_ext; [|exact Ht]. intros n Hn. assert (n = 0 \/ n = 1) as [-> | ->] by lia; reflexivity.
Qed.

Lemma small_chain_ok d : holds_chain small_chain d.
Proof.
  split; try done.
  - intros n Hn. cbn [ch_latest small_chain] in Hn. assert (n = 0 \/ n = 1) as [-> | ->] by lia; reflexivity.
  - intros n Hn. apply flat_receipts. apply (EventsBloom_complete _ _ (block_bloom_ok n)).
Qed.

Example small_query_events : (fun x => (fe_BlockNumber x, fe_TransactionIndex x, fe_EventIndex x)) <$> query_events small_query small_chain
  = [(0, 0, 0); (1, 0, 0)].
Proof. vm_compute. reflexivity. Qed.

Lemma event_query_complete_witness : exists ps q',
  pages small_query 1 (Z.to_nat (1 - 0) + length (query_events small_query small_chain) + 1) None small_state = (Ok ps, q') /\
  concat ps = query_events small_query small_chain /\ Forall (fun evs => Z.of_nat (length evs) <= 1) ps.
Proof.
  refine (event_query_complete small_query [stark 7] [[stark 1]] small_chain small_state 1
    small_state_ok _ (small_chain_ok _) eq_refl _ _ _ _ _); try (cbn; lia); [|done].
  split; [reflexivity|]. intros w v E. done.
Defined.

(** ** A reorg at the start of a window *)

(** The chain after the revert; its blocks have no events. *)
Definition reverted_reader : BlockReader SF := chain_reader 8190 (fun _ => []).

Definition no_events (n : Z) : BloomFilter := bloom_New EventsBloomLength EventsBloomHashFuncs.

(** The first window is full and stored. *)
Definition full_window_db : disk :=
  memory.set_db memory.New {[ window_key 0 := agg_MarshalBinary (NewAggregatedFilter 0) ]}.

Definition second_window : RunningEventFilter := NewRunningEventFilterHot (NewAggregatedFilter 8192) 8192.

Lemma full_window_ok : running_ok no_events 8192 second_window full_window_db.
Proof.
  apply running_new; [by eexists|done|done|reflexivity|]. intros w Ha Hw Hle.
  assert (w = 0) as -> by (unfold NumBlocksPerFilter in *; lia).
  destruct (NewAggregatedFilter_spec 0) as (Hwf & Hf & Hc); [done|reflexivity|].
  exists (NewAggregatedFilter 0). split_and!; [done|done| |].
  - intros i n Hi Hn. unfold bit_of. rewrite Hc. destruct (bloom_New_spec EventsBloomLength EventsBloomHashFuncs) as (_ & _ & _ & Ht); [done|done|].
    unfold no_events. by rewrite Ht.
  - exact (lookup_singleton_eq (M := gmap bytes) (window_key 0) (agg_MarshalBinary (NewAggregatedFilter 0))).
Qed.

Definition reorged := onReorg (second_window, full_window_db).

Lemma reorged_ok : reorged = (Ok tt, reorged.2) /\ GetRunningEventFilter (reorged.2).2 = Err (ErrStore ErrNotFound).
Proof.
  pose proof (wp_onReorg no_events 8192 _ _ full_window_ok ltac:(done) eq_refl) as Hw.
  apply wp_elim in Hw as ([] & [f d] & E & Hr & Ho & _). change (reorged = (Ok tt, (f, d))) in E. rewrite E. clear E. split; [reflexivity|]. cbn [snd] in *.
  unfold GetRunningEventFilter. pose proof (kv_get_spec d RunningEventFilterKey (ro_open _ _ _ _ Hr)) as Eg. cbn [kv_get Database_store] in Eg.
  assert (Hne : forall w, RunningEventFilterKey <> window_key w) by (intros w Ek; apply (f_equal head) in Ek; discriminate).
  rewrite <- Ho in Eg by done. 
  assert (En : kv_map full_window_db !! RunningEventFilterKey = None) by (apply (lookup_singleton_ne (M := gmap bytes)); intros Ek; by apply (Hne 0)).
  rewrite En in Eg. by rewrite Eg.
Qed.

Lemma stale_window_stops_chain_witness : exists f'',
  InitializeRunningEventFilter (BlockReader0 := reverted_reader) (reorged.2).2 = (Ok f'', (reorged.2).2) /\
  forall bf, insert bf (8192 - 1) (f'', (reorged.2).2) = (Err ErrAggregatedBloomFilterBlockOutOfRange, (f'', (reorged.2).2)).
Proof.
  destruct reorged_ok as [E Hg]. refine (stale_window_stops_chain (BlockReader0 := reverted_reader) no_events 8192 second_window full_window_db
    (reorged.2).1 (reorged.2).2 full_window_ok _ _ _ _ _ Hg); [done|reflexivity|reflexivity| |reflexivity].
  rewrite <- surjective_pairing. exact E.
Defined.
