(* ===== verification/Mempool.v ===== *)
(** * The mempool

    [src/mempool/mempool.go] and [db_utils.go]: the queue of transactions in
    memory, a linked list, and its copy in the database, which a goroutine writes;
    the channel between them and the check of transactions that are pushed. *)
From stdpp Require Import prelude gmap list.
From Stdlib Require Import ZArith Lia.
From S2P Require Import Prelude Felt FeltArith MemDB TrieDB Transaction State.

Local Open Scope Z_scope.

Inductive poolError :=
| ErrTxnPoolFull
| ErrTxnPoolEmpty
| ErrDeployNotSupported
| ErrNonZeroNonce
| ErrRetrievingNonce
| ErrExistingNonce
| ErrInvokeV0NotSupported
| ErrHeadState
| ErrPoolStore (e : dbError)
| ErrPoolCbor
| ErrNotImplemented.

Section mempool.
Context {F : Type} `{!FieldElement F} `{!FieldArith F} {C : Type}.

Record BroadcastedTransaction := mkBroadcasted {
  bt_Transaction : Transaction F;
  bt_DeclaredClass : option C;
  bt_PaidFeeOnL1 : option F;
  bt_Proof : list Z;
}.

Definition bt_Hash (t : BroadcastedTransaction) : option F := tx_Hash (bt_Transaction t).

(** ** The list in memory *)

(** Nodes are objects of a heap: they are changed after they are in the list. *)
Record memPoolTxn := mkNode {
  mn_Txn : BroadcastedTransaction;
  mn_Next : option nat;
}.

Record memTxnList := mkTxnList {
  tl_nodes : gmap nat memPoolTxn;
  tl_new : nat;
  tl_head : option nat;
  tl_tail : option nat;
  tl_len : Z;
}.

Definition emptyList : memTxnList := mkTxnList ∅ 0 None None 0.

Abbreviation LM := (SE memTxnList poolError).

Definition new_node (txn : BroadcastedTransaction) : LM nat := fun t =>
  (Ok (tl_new t),
   mkTxnList (<[tl_new t := mkNode txn None]> (tl_nodes t)) (S (tl_new t)) (tl_head t) (tl_tail t) (tl_len t)).

Definition node_at (n : nat) : LM memPoolTxn := t ← get_state; deref (tl_nodes t !! n).

Definition set_Next (n next : nat) : LM unit :=
  x ← node_at n;
  modify (fun t => mkTxnList (<[n := mkNode (mn_Txn x) (Some next)]> (tl_nodes t)) (tl_new t) (tl_head t) (tl_tail t) (tl_len t)).

Definition set_ends (head tail : option nat) (len : Z) : LM unit :=
  modify (fun t => mkTxnList (tl_nodes t) (tl_new t) head tail len).

Definition list_push (newNode : nat) : LM unit :=
  t ← get_state;
  match tl_tail t with
  | Some tail => set_Next tail newNode;; set_ends (tl_head t) (Some newNode) (i64 (tl_len t + 1))
  | None => set_ends (Some newNode) (Some newNode) (i64 (tl_len t + 1))
  end.

Definition list_pop : LM BroadcastedTransaction :=
  t ← get_state;
  match tl_head t with
  | None => fail ErrTxnPoolEmpty
  | Some head =>
      headNode ← node_at head;
      set_ends (mn_Next headNode) (match mn_Next headNode with None => None | Some _ => tl_tail t end) (i64 (tl_len t - 1));;
      mret (mn_Txn headNode)
  end.

(** The transactions of [n] nodes, and the node after them. *)
Fixpoint pop_loop (n : nat) (current : option nat) : LM (list BroadcastedTransaction * option nat) :=
  match n with
  | 0%nat => mret ([], current)
  | S n' =>
      c ← deref current;
      x ← node_at c;
      '(rest, after) ← pop_loop n' (mn_Next x);
      mret (mn_Txn x :: rest, after)
  end.

Definition list_popBatch (numToPop : Z) : LM (list BroadcastedTransaction) :=
  t ← get_state;
  match tl_head t with
  | None => fail ErrTxnPoolEmpty
  | Some head =>
      let numToPop := if tl_len t <? numToPop then tl_len t else numToPop in
      (if numToPop <? 0 then panic else mret tt);;
      '(result, current) ← pop_loop (Z.to_nat numToPop) (Some head);
      set_ends current (match current with None => None | Some _ => tl_tail t end) (i64 (tl_len t - numToPop));;
      mret result
  end.

(** ** The list in the database *)

Record dbPoolTxn := mkDbTxn {
  dn_Txn : BroadcastedTransaction;
  dn_NextHash : option F;
}.

(** The codec of the entries is a third-party package. *)
Class PoolCodec := {
  item_Marshal : dbPoolTxn -> option bytes;
  item_Unmarshal : bytes -> option dbPoolTxn;
}.

Context `{!PoolCodec}.
Abbreviation O := (outcome poolError).

Definition MempoolNodeKey (txnHash : F) : bytes := Bucket_Key mempoolNode [felt_Bytes txnHash].
Definition HeadKey : bytes := Bucket_Key mempoolHead [].
Definition TailKey : bytes := Bucket_Key mempoolTail [].
Definition LengthKey : bytes := Bucket_Key mempoolLength [].

Definition pool_Get (d : disk) (k : bytes) : O bytes := map_err ErrPoolStore (memory.Get d k).

Definition GetHeadValue (d : disk) : O F := data ← pool_Get d HeadKey; Ok (felt_SetBytes data).
Definition GetTailValue (d : disk) : O F := data ← pool_Get d TailKey; Ok (felt_SetBytes data).

Definition GetTxn (d : disk) (txnHash : F) : O dbPoolTxn :=
  data ← pool_Get d (MempoolNodeKey txnHash);
  match item_Unmarshal data with Some item => Ok item | None => Err ErrPoolCbor end.

(** [big.Int.Bytes]: the absolute value without leading zeros. *)
Definition big_Bytes (z : Z) : bytes :=
  if z =? 0 then [] else be_bytes (Z.to_nat (Z.log2 (Z.abs z) / 8 + 1)) (Z.abs z).

Definition GetLenDB (d : disk) : O Z :=
  match pool_Get d LengthKey with
  | Ok data => Ok (i64 (be_val data))
  | Err (ErrPoolStore ErrNotFound) => Ok 0
  | Err e => Err e
  | Panic => Panic
  | NoFuel => NoFuel
  end.

Abbreviation WM := (SE memory.dbBatch poolError).

Definition pool_Put (k v : bytes) : WM unit := zoom id (fun _ s => s) ErrPoolStore (memory.batch_Put k v).

Definition WriteHeadValue (head : option F) : WM unit := h ← deref head; pool_Put HeadKey (felt_Bytes h).
Definition WriteTailValue (tail : option F) : WM unit := h ← deref tail; pool_Put TailKey (felt_Bytes h).
Definition WriteLenDB (l : Z) : WM unit := pool_Put LengthKey (big_Bytes l).

Definition WriteTxn (item : dbPoolTxn) : WM unit :=
  match item_Marshal item with
  | None => fail ErrPoolCbor
  | Some itemBytes => h ← deref (bt_Hash (dn_Txn item)); pool_Put (MempoolNodeKey h) itemBytes
  end.

(** What is written for a transaction; reads see the database, not the batch. *)
Definition fill_batch (userTxn : BroadcastedTransaction) : WM unit :=
  s ← get_state;
  let d := memory.bdb s in
  tailVal ← lift match GetTailValue d with
    | Ok v => Ok (Some v)
    | Err (ErrPoolStore ErrNotFound) => Ok None
    | Err e => Err e
    | Panic => Panic
    | NoFuel => NoFuel
    end;
  WriteTxn (mkDbTxn userTxn None);;
  match tailVal with
  | Some tail =>
      oldTailElem ← lift (GetTxn d tail);
      WriteTxn (mkDbTxn (dn_Txn oldTailElem) (bt_Hash userTxn))
  | None => WriteHeadValue (bt_Hash userTxn)
  end;;
  WriteTailValue (bt_Hash userTxn);;
  pLen ← lift (GetLenDB d);
  WriteLenDB (i64 (pLen + 1));;
  zoom id (fun _ s => s) ErrPoolStore memory.batch_Write.

Definition writeToDB (userTxn : BroadcastedTransaction) : SE disk poolError unit := fun d =>
  let '(o, s) := fill_batch userTxn (memory.mkDbBatch d memory.newBatch) in (o, memory.bdb s).

(** ** The pool *)

(** [sp_chan] is the channel, the oldest first, [sp_hand] what the writer has taken
    from it and not written yet, [sp_pushed] whether the channel [txPushed] has
    a value. *)
Record SequencerMempool := mkPool {
  sp_db : disk;
  sp_list : memTxnList;
  sp_maxNumTxns : Z;
  sp_chan : list BroadcastedTransaction;
  sp_closed : bool;
  sp_hand : option BroadcastedTransaction;
  sp_pushed : bool;
}.

(** The size of a channel is not negative, else [make] panics: [maxNumTxns] is
    the size of a pool that exists. *)
Definition New (mainDB : disk) (maxNumTxns : Z) : SequencerMempool :=
  mkPool mainDB emptyList maxNumTxns [] false None false.

Abbreviation PM := (SE SequencerMempool poolError).

Definition on_list {A} (m : LM A) : PM A :=
  zoom sp_list (fun p l => mkPool (sp_db p) l (sp_maxNumTxns p) (sp_chan p) (sp_closed p) (sp_hand p) (sp_pushed p)) id m.

Definition set_chan (c : list BroadcastedTransaction) (hand : option BroadcastedTransaction) : PM unit :=
  modify (fun p => mkPool (sp_db p) (sp_list p) (sp_maxNumTxns p) c (sp_closed p) hand (sp_pushed p)).

(** One step of the writer: it takes a transaction or writes the one it has; an
    error is logged, a panic is not recovered. *)
Definition writer_step : PM unit :=
  p ← get_state;
  match sp_hand p with
  | Some txn =>
      let '(o, d) := writeToDB txn (sp_db p) in
      modify (fun p => mkPool d (sp_list p) (sp_maxNumTxns p) (sp_chan p) (sp_closed p) None (sp_pushed p));;
      lift match o with Ok _ | Err _ => Ok tt | Panic => Panic | NoFuel => NoFuel end
  | None =>
      match sp_chan p with
      | [] => mret tt
      | txn :: rest => set_chan rest (Some txn)
      end
  end.

Fixpoint writer_steps (n : nat) : PM unit :=
  match n with 0%nat => mret tt | S n' => writer_step;; writer_steps n' end.

(** The channel is closed and the writer runs until it has nothing left; two steps
    for each transaction are enough. *)
Definition pool_Close : PM unit :=
  p ← get_state;
  if sp_closed p then panic
  else
    modify (fun p => mkPool (sp_db p) (sp_list p) (sp_maxNumTxns p) (sp_chan p) true (sp_hand p) (sp_pushed p));;
    writer_steps (2 * length (sp_chan p) + 1).

Definition mem_push (txn : BroadcastedTransaction) : PM unit := n ← on_list (new_node txn); on_list (list_push n).

(** The loop over the entries of the database. *)
Fixpoint load_loop (fuel : nat) (currentHash : option F) : PM unit :=
  match currentHash with
  | None => mret tt
  | Some h =>
      match fuel with
      | 0%nat => out_of_fuel
      | S fuel' =>
          p ← get_state;
          curTxn ← lift (GetTxn (sp_db p) h);
          mem_push (dn_Txn curTxn);;
          load_loop fuel' (dn_NextHash curTxn)
      end
  end.

Definition LoadFromDB (fuel : nat) : PM unit :=
  p ← get_state;
  match GetHeadValue (sp_db p) with
  | Err (ErrPoolStore ErrNotFound) => mret tt
  | Err e => fail e
  | Ok headVal => load_loop fuel (Some headVal)
  | Panic => panic
  | NoFuel => out_of_fuel
  end.

(** The state of the head of the chain: its nonces. *)
Definition headState : Type := O (F -> O F).

Definition check_nonce (state : F -> O F) (sender nonce : option F) : O unit :=
  addr ← ptr sender;
  match state addr with
  | Ok existing => n ← ptr nonce; if 0 <? felt_Cmp existing n then Err ErrExistingNonce else Ok tt
  | Err _ => Err ErrRetrievingNonce
  | Panic => Panic
  | NoFuel => NoFuel
  end.

Definition pool_validate (head : headState) (p : SequencerMempool) (userTxn : BroadcastedTransaction) : O unit :=
  if sp_maxNumTxns p <=? i64 (tl_len (sp_list p) + 1) then Err ErrTxnPoolFull
  else
    state ← head;
    match bt_Transaction userTxn with
    | TxDeploy _ => Err ErrDeployNotSupported
    | TxDeployAccount t => nonce ← ptr (da_Nonce t); if negb (felt_IsZero nonce) then Err ErrNonZeroNonce else Ok tt
    | TxDeclare t => check_nonce state (dc_SenderAddress t) (dc_Nonce t)
    | TxInvoke t =>
        v ← ptr (iv_Version t);
        if version_Is v 0 then Err ErrInvokeV0NotSupported else check_nonce state (iv_SenderAddress t) (iv_Nonce t)
    | TxL1Handler _ => Ok tt
    end.

(** [between] is how many steps the writer makes between the two [select]s when
    the channel is full; then one transaction is taken from it, if there is one. *)
Definition send_to_writer (between : nat) (userTxn : BroadcastedTransaction) : PM unit :=
  p ← get_state;
  if sp_closed p then panic
  else if Z.of_nat (length (sp_chan p)) <? sp_maxNumTxns p then set_chan (sp_chan p ++ [userTxn]) (sp_hand p)
  else
    writer_steps between;;
    p ← get_state;
    set_chan (drop 1 (sp_chan p)) (sp_hand p).

Definition Push (head : headState) (between : nat) (userTxn : BroadcastedTransaction) : PM unit :=
  p ← get_state;
  lift (pool_validate head p userTxn);;
  send_to_writer between userTxn;;
  mem_push userTxn;;
  modify (fun p => mkPool (sp_db p) (sp_list p) (sp_maxNumTxns p) (sp_chan p) (sp_closed p) (sp_hand p) true).

Definition Pop : PM BroadcastedTransaction := on_list list_pop.

Definition PopBatch (numToPop : Z) : PM (list BroadcastedTransaction) :=
  if numToPop <=? 0 then mret [] else on_list (list_popBatch numToPop).

Definition Remove (hashes : list F) : PM unit := fail ErrNotImplemented.

Definition Len (p : SequencerMempool) : Z := tl_len (sp_list p).

Definition LenDB (p : SequencerMempool) : O Z := GetLenDB (sp_db p).

End mempool.
