(* ===== verification/MempoolFacts.v ===== *)
(** * The mempool: facts

    The list in memory is a queue; the list in the database gives the queue back
    when it is loaded, unless a transaction was written twice. *)
From stdpp Require Import prelude gmap list.
From Stdlib Require Import ZArith Lia.
From S2P Require Import Prelude Felt FeltArith MemDB MemDBFacts TrieDB TrieDBFacts Transaction State StateTries Mempool.

Local Open Scope Z_scope.

(** ** The list in memory *)

Section memory_list.
Context {F : Type} `{!FieldElement F} `{!FieldArith F} {C : Type}.
Abbreviation txn := (BroadcastedTransaction (F:=F) (C:=C)).
Abbreviation txns := (memTxnList (F:=F) (C:=C)).
Implicit Types (t : txns) (x : txn) (l : list txn) (locs : list nat) (nodes : gmap nat (memPoolTxn (F:=F) (C:=C))).

(** The nodes at [locs] hold the transactions [l], each with the next one. *)
Fixpoint chain_of nodes locs l : Prop :=
  match locs, l with
  | [], [] => True
  | n :: locs', x :: l' => nodes !! n = Some (mkNode x (head locs')) /\ chain_of nodes locs' l'
  | _, _ => False
  end.

Definition linked t l : Prop :=
  exists locs, chain_of (tl_nodes t) locs l /\ NoDup locs /\ Forall (fun n => (n < tl_new t)%nat) locs /\
    tl_head t = head locs /\ tl_tail t = last locs.

Record list_ok t l : Prop := {
  lk_len : tl_len t = Z.of_nat (length l) /\ Z.of_nat (length l) < 2 ^ 63;
  lk_linked : linked t l;
}.

Lemma emptyList_ok : list_ok emptyList [].
Proof. split; [done|]. exists []. repeat split; constructor. Qed.

Lemma chain_length nodes locs l : chain_of nodes locs l -> length locs = length l.
Proof. revert l. induction locs as [|n locs IH]; intros [|x l]; cbn; try done. intros [_ Hc]. f_equal. by apply IH. Qed.

Lemma chain_frame nodes nodes' locs l : (forall n, n ∈ locs -> nodes' !! n = nodes !! n) -> chain_of nodes locs l -> chain_of nodes' locs l.
Proof.
  revert l. induction locs as [|n locs IH]; intros [|x l] Hf; cbn; try done. intros [Hn Hc]. split.
  - rewrite Hf; [done|]. left.
  - apply IH; [|done]. intros m Hm. apply Hf. by right.
Qed.

(** A node is linked to the last one. *)
Lemma chain_link nodes locs l (last_ n : nat) y x : NoDup (locs ++ [last_]) -> n ∉ locs ++ [last_] ->
  chain_of nodes (locs ++ [last_]) (l ++ [y]) ->
  chain_of (<[last_ := mkNode y (Some n)]> (<[n := mkNode x None]> nodes)) ((locs ++ [last_]) ++ [n]) ((l ++ [y]) ++ [x]).
Proof.
  revert l. induction locs as [|m locs IH]; intros l Hnd Hn Hc.
  - destruct l as [|z [|? ?]]; cbn in Hc; [|naive_solver..]. cbn. rewrite lookup_insert_eq, lookup_insert_ne, lookup_insert_eq; [done|].
    intros ->. apply Hn. left.
  - destruct l as [|z l]; [destruct locs; cbn in Hc; naive_solver|]. cbn in Hc |- *. destruct Hc as [Hm Hc]. split.
    + apply NoDup_cons in Hnd as [Hnot _]. rewrite lookup_insert_ne, lookup_insert_ne.
      * rewrite Hm. by destruct locs.
      * intros ->. apply Hn. left.
      * intros ->. apply Hnot. apply elem_of_app. right. left.
    + apply IH; [by apply NoDup_cons in Hnd as [_ ?]|by intros ?; apply Hn; right|done].
Qed.

Lemma wp_set_Next t n y next x : tl_nodes t !! n = Some (mkNode y next) ->
  forall m, wp (set_Next n m) (fun _ t' => t' = mkTxnList (<[n := mkNode y (Some m)]> (tl_nodes t)) (tl_new t) (tl_head t) (tl_tail t) (tl_len t)) t.
Proof.
  intros Hn m. unfold set_Next, node_at. wp_step. wp_step. wp_step. eapply wp_deref; [exact Hn|]. wp_step. done.
Qed.

(** A new node is pushed. *)
Lemma wp_push_linked t l x : linked t l ->
  wp (n ← new_node x; list_push n) (fun _ t' => linked t' (l ++ [x]) /\ tl_len t' = i64 (tl_len t + 1)) t.
Proof.
  intros (locs & Hc & Hnd & Hlt & Hh & Ht).
  assert (Hnew : tl_new t ∉ locs) by (intros Hin; rewrite Forall_forall in Hlt; specialize (Hlt _ Hin); lia).
  wp_step. eapply wp_intro; [reflexivity|]. unfold list_push. wp_step. wp_step. cbn [tl_tail]. rewrite Ht.
  assert (Hall : Forall (fun n => (n < S (tl_new t))%nat) (locs ++ [tl_new t])).
  { apply Forall_app. split; [eapply Forall_impl; [exact Hlt|]; cbn; lia|by repeat constructor; lia]. }
  assert (Hnd' : NoDup (locs ++ [tl_new t])).
  { apply NoDup_app. split_and!; [done|intros y Hy ->%list_elem_of_singleton; done|apply NoDup_singleton]. }
  destruct locs as [|n0 locs0 _] using rev_ind.
  - cbn [last]. unfold set_ends. wp_step. apply chain_length in Hc as Hc0. destruct l; [|done].
    split; [|done]. exists [tl_new t]. cbn. rewrite lookup_insert_eq. done.
  - rewrite last_snoc. destruct l as [|y l _] using rev_ind; [apply chain_length in Hc; rewrite length_app in Hc; cbn in Hc; lia|].
    assert (Hlast : exists next, tl_nodes t !! n0 = Some (mkNode y next)).
    { clear -Hc. revert l Hc. induction locs0 as [|m locs0 IH]; intros l Hc.
      - destruct l as [|? [|? ?]]; cbn in Hc; naive_solver.
      - destruct l as [|z l]; [destruct locs0; cbn in Hc; naive_solver|]. cbn in Hc. destruct Hc as [_ Hc]. by apply (IH l). }
    destruct Hlast as [next Hlast]. wp_step. eapply wp_mono; [eapply (wp_set_Next _ n0 y next x)|].
    { cbn. rewrite lookup_insert_ne; [done|]. intros E. apply Hnew. rewrite E. apply elem_of_app. right. left. }
    intros [] t' ->. unfold set_ends. cbn [tl_head tl_new tl_len tl_nodes]. wp_step.
    split; [|done]. exists ((locs0 ++ [n0]) ++ [tl_new t]). cbn. split_and!; [|done|done| |].
    + by apply chain_link.
    + rewrite Hh. by destruct locs0.
    + by rewrite last_snoc.
Qed.

Lemma wp_push t l x : list_ok t l -> Z.of_nat (length l) + 1 < 2 ^ 63 ->
  wp (n ← new_node x; list_push n) (fun _ t' => list_ok t' (l ++ [x])) t.
Proof.
  intros [[Hlen _] Hl] Hb. eapply wp_mono; [by apply wp_push_linked|]. intros _ t' [Hl' El]. split; [|done].
  rewrite El, Hlen, length_app, i64_small by lia. cbn [length]. lia.
Qed.

Lemma wp_node_at t n x next : tl_nodes t !! n = Some (mkNode x next) ->
  wp (node_at n) (fun y t' => y = mkNode x next /\ t' = t) t.
Proof. intros Hn. unfold node_at. wp_step. wp_step. by eapply wp_deref. Qed.

Lemma last_cons_tail (n : nat) locs : last (n :: locs) = match head locs with None => Some n | Some _ => last locs end.
Proof. by destruct locs. Qed.

Lemma wp_pop t l : list_ok t l ->
  match l with
  | [] => list_pop t = (Err ErrTxnPoolEmpty, t)
  | x :: l' => wp list_pop (fun y t' => y = x /\ list_ok t' l') t
  end.
Proof.
  intros [[Hlen Hb] (locs & Hc & Hnd & Hlt & Hh & Ht)]. destruct l as [|x l], locs as [|n locs]; try done.
  - unfold list_pop, mbind, SE_bind, get_state. by rewrite Hh.
  - cbn in Hc. destruct Hc as [Hn Hc]. apply NoDup_cons in Hnd as [_ Hnd]. apply Forall_cons in Hlt as [_ Hlt]. cbn in Hh.
    unfold list_pop. wp_step. wp_step. rewrite Hh. wp_step. eapply wp_mono; [by eapply wp_node_at|]. intros y t' [-> ->].
    cbn [mn_Next mn_Txn]. wp_step. unfold set_ends. wp_step. wp_step. split; [done|].
    split; [cbn [tl_len]; cbn [length] in *; rewrite Hlen, i64_small by lia; lia|]. exists locs. cbn. split_and!; try done.
    rewrite Ht, last_cons_tail. by destruct locs.
Qed.

Lemma pop_loop_spec t locs l (k : nat) : chain_of (tl_nodes t) locs l -> (k <= length l)%nat ->
  pop_loop k (head locs) t = (Ok (take k l, head (drop k locs)), t).
Proof.
  revert locs l. induction k as [|k IH]; intros locs l Hc Hk; [done|]. destruct l as [|x l], locs as [|n locs]; cbn in Hc, Hk; try done; [lia|].
  destruct Hc as [Hn Hc]. cbn [pop_loop head]. unfold mbind, SE_bind, deref, mret, SE_ret, node_at, mbind, SE_bind, get_state, deref. cbn.
  rewrite Hn. cbn [mret SE_ret mn_Next mn_Txn]. rewrite (IH locs l) by (done || lia). done.
Qed.

Lemma chain_drop nodes locs l k : chain_of nodes locs l -> chain_of nodes (drop k locs) (drop k l).
Proof.
  revert locs l. induction k as [|k IH]; intros locs l Hc; [done|]. destruct locs, l; cbn in *; try done. apply IH. naive_solver.
Qed.

Lemma last_drop locs k : last (drop k locs) = match head (drop k locs) with None => None | Some _ => last locs end.
Proof.
  revert k. induction locs as [|n locs IH]; intros k; [by destruct k|]. destruct k as [|k]; [done|]. cbn [drop]. rewrite IH, last_cons_tail.
  destruct (head (drop k locs)) eqn:E; [|done]. destruct locs; [by rewrite drop_nil in E|done].
Qed.

Lemma popBatch_empty t n : list_ok t [] -> list_popBatch n t = (Err ErrTxnPoolEmpty, t).
Proof.
  intros [_ (locs & Hc & _ & _ & Hh & _)]. destruct locs; [|done]. unfold list_popBatch, mbind, SE_bind, get_state. by rewrite Hh.
Qed.

Lemma wp_popBatch t l (n : Z) : list_ok t l -> 0 < n -> l <> [] ->
  wp (list_popBatch n) (fun ys t' => ys = take (Z.to_nat n) l /\ list_ok t' (drop (Z.to_nat n) l)) t.
Proof.
  intros [[Hlen Hb] (locs & Hc & Hnd & Hlt & Hh & Ht)] Hn Hne. pose proof (chain_length _ _ _ Hc) as Hll.
  assert (Hhead : exists m, head locs = Some m) by (destruct locs, l; try done; by eexists). destruct Hhead as [m Hm].
  set (k := Z.to_nat (if tl_len t <? n then tl_len t else n)).
  assert (Hk : (k <= length l)%nat /\ take k l = take (Z.to_nat n) l /\ drop k l = drop (Z.to_nat n) l /\
    Z.of_nat k = (if tl_len t <? n then tl_len t else n)).
  { unfold k. rewrite Hlen. destruct (Z.ltb_spec (Z.of_nat (length l)) n) as [Hlt'|Hge].
    - rewrite Nat2Z.id, firstn_all, drop_all, !take_ge, !drop_ge by lia. done.
    - split_and!; (done || lia). }
  destruct Hk as (Hk & <- & <- & Ek). unfold list_popBatch. wp_step. wp_step. rewrite Hh, Hm. fold k. cbv zeta.
  assert (Hpos : (if tl_len t <? n then tl_len t else n) <? 0 = false) by (apply Z.ltb_ge; lia). rewrite Hpos.
  wp_step. wp_step. wp_step.
  pose proof (pop_loop_spec t locs l k Hc Hk) as Hloop. rewrite Hm in Hloop. eapply wp_intro; [exact Hloop|].
  cbv beta iota. wp_step. unfold set_ends. wp_step. wp_step. split; [done|].
  split; [cbn [tl_len]; rewrite <- Ek, Hlen, length_drop, i64_small by lia; lia|].
  exists (drop k locs). cbn. split_and!; [by apply chain_drop| | |done|by rewrite last_drop, Ht].
  - rewrite <- (take_drop k locs) in Hnd. by apply NoDup_app in Hnd as (_ & _ & ?).
  - by apply Forall_drop.
Qed.

(** ** The queue *)

Inductive queue_op := QPush (x : txn) | QPop | QPopBatch (n : Z).

(** What a queue does: transactions come out in the order they were pushed. *)
Definition queue_spec (l : list txn) (op : queue_op) : outcome poolError (list txn) * list txn :=
  match op with
  | QPush x => (Ok [], l ++ [x])
  | QPop => match l with [] => (Err ErrTxnPoolEmpty, []) | x :: l' => (Ok [x], l') end
  | QPopBatch n =>
      if n <=? 0 then (Ok [], l)
      else match l with [] => (Err ErrTxnPoolEmpty, []) | _ => (Ok (take (Z.to_nat n) l), drop (Z.to_nat n) l) end
  end.

Definition list_op (op : queue_op) : SE txns poolError (list txn) :=
  match op with
  | QPush x => n ← new_node x; list_push n;; mret []
  | QPop => y ← list_pop; mret [y]
  | QPopBatch n => if n <=? 0 then mret [] else list_popBatch n
  end.

Fixpoint run_spec (l : list txn) (ops : list queue_op) : list (outcome poolError (list txn)) :=
  match ops with [] => [] | op :: ops' => let '(o, l') := queue_spec l op in o :: run_spec l' ops' end.

Fixpoint run_list t (ops : list queue_op) : list (outcome poolError (list txn)) :=
  match ops with [] => [] | op :: ops' => let '(o, t') := list_op op t in o :: run_list t' ops' end.

Lemma list_op_refines t l op : list_ok t l -> Z.of_nat (length l) + 1 < 2 ^ 63 ->
  (list_op op t).1 = (queue_spec l op).1 /\ list_ok (list_op op t).2 (queue_spec l op).2.
Proof.
  intros Hok Hb. assert (Hwp : forall A (m : SE txns poolError A) a Q, wp m (fun y t' => y = a /\ Q t') t ->
    exists t', m t = (Ok a, t') /\ Q t') by (intros A m a Q (y & t' & E & -> & HQ)%wp_elim; eauto).
  destruct op as [x| |n]; cbn [list_op queue_spec].
  - destruct (Hwp _ (n ← new_node x; list_push n;; mret []) ([] : list txn) (fun t' => list_ok t' (l ++ [x]))) as (t' & E & Hok').
    + pose proof (wp_push t l x Hok Hb) as Hp. apply wp_elim in Hp as (u & t' & E & Hok').
      eapply (wp_intro _ _ _ _ t'); [|done]. revert E. unfold mbind, SE_bind. cbn. by destruct (list_push _ _) as [[] ?]; intros [= <- <-].
    + by rewrite E.
  - pose proof (wp_pop t l Hok) as Hp. destruct l as [|x l]; [unfold mbind, SE_bind; by rewrite Hp|].
    apply Hwp in Hp as (t' & E & Hok'). unfold mbind, SE_bind. by rewrite E.
  - destruct (Z.leb_spec n 0); [done|]. destruct l as [|x l]; [by rewrite popBatch_empty|].
    destruct (Hwp _ _ _ _ (wp_popBatch t (x :: l) n Hok ltac:(lia) ltac:(done))) as (t' & E & Hok'). by rewrite E.
Qed.

(** C34: the linked list of the pool is a queue: whatever transactions are pushed,
    popped and popped in batches, the results are those of a list that is extended
    at its end and shortened at its start, errors included, and no operation
    panics. *)
Theorem pool_is_fifo ops : Z.of_nat (length ops) < 2 ^ 62 -> run_list emptyList ops = run_spec [] ops.
Proof.
  intros Hb. enough (Hgen : forall t l, list_ok t l -> Z.of_nat (length l + length ops) < 2 ^ 62 -> run_list t ops = run_spec l ops)
    by (apply Hgen; [apply emptyList_ok|cbn; lia]).
  clear Hb. induction ops as [|op ops IH]; intros t l Hok Hb; [done|]. cbn [length run_list run_spec] in *.
  destruct (list_op_refines t l op Hok ltac:(lia)) as [E Hok']. destruct (list_op op t) as [o t'], (queue_spec l op) as [o' l'] eqn:Es.
  cbn in E, Hok'. subst o'. f_equal. apply IH; [done|]. assert (length l' <= S (length l))%nat; [|lia].
  revert Es. destruct op as [x| |n]; cbn; [intros [= <- <-]; rewrite length_app; cbn; lia|destruct l; intros [= <- <-]; cbn; lia|].
  destruct (n <=? 0); [intros [= <- <-]; lia|]. destruct l; intros [= <- <-]; rewrite ?length_drop; cbn; lia.
Qed.

End memory_list.

(** ** The list in the database *)

Section database.
Context {F : Type} `{!FieldElement F} `{!FieldElementLaws F} `{!FieldArith F} {C : Type} `{!PoolCodec (F:=F) (C:=C)}.
Abbreviation txn := (BroadcastedTransaction (F:=F) (C:=C)).
Implicit Types (x : txn) (l : list txn) (d : disk).

(** A transaction the codec accepts, whatever follows it. *)
Definition storable x : Prop := is_Some (bt_Hash x) /\
  forall next, exists b, item_Marshal (mkDbTxn x next) = Some b /\ item_Unmarshal b = Some (mkDbTxn x next).

Definition hash_of x : F := default felt_Zero (bt_Hash x).

Definition entry_at (m : gmap bytes bytes) (h : F) (x : txn) (next : option F) : Prop :=
  exists b, m !! MempoolNodeKey h = Some b /\ item_Unmarshal b = Some (mkDbTxn x next).

(** The entries of [l], each with the hash of the next. *)
Fixpoint entries (m : gmap bytes bytes) l : Prop :=
  match l with [] => True | x :: l' => entry_at m (hash_of x) x (hash_of <$> head l') /\ entries m l' end.

Record db_ok d l : Prop := {
  do_map : memory.db d = Some (default ∅ (memory.db d));
  do_entries : entries (kv_map d) l;
  do_head : kv_map d !! HeadKey = (fun x => felt_Bytes (hash_of x)) <$> head l;
  do_tail : kv_map d !! TailKey = (fun x => felt_Bytes (hash_of x)) <$> last l;
  do_len : GetLenDB d = Ok (Z.of_nat (length l));
}.

Lemma bucket_keys_ne b b' ks ks' : b <> b' -> Bucket_Key b ks <> Bucket_Key b' ks'.
Proof. intros Hne [= E _]. by apply bucket_byte_inj in E. Qed.

Lemma node_key_inj h h' : MempoolNodeKey h = MempoolNodeKey h' -> h = h'.
Proof.
  unfold MempoolNodeKey, Bucket_Key. cbn [concat]. rewrite !app_nil_r. intros E. apply (f_equal tail) in E. by apply felt_Bytes_inj.
Qed.

Lemma pool_Get_map d k : is_Some (memory.db d) ->
  pool_Get d k = match kv_map d !! k with Some v => Ok v | None => Err (ErrPoolStore ErrNotFound) end.
Proof. intros Ho. unfold pool_Get. pose proof (kv_get_spec d k Ho) as E. cbn [kv_get Database_store] in E. rewrite E. by destruct (kv_map d !! k). Qed.

Lemma GetTxn_entry d h x next : is_Some (memory.db d) -> entry_at (kv_map d) h x next -> GetTxn d h = Ok (mkDbTxn x next).
Proof. intros Ho (b & Hb & Hu). unfold GetTxn. rewrite pool_Get_map, Hb by done. unfold mbind, outcome_bind. by rewrite Hu. Qed.

Lemma be_val_big n : 0 <= n -> be_val (big_Bytes n) = n.
Proof.
  intros Hn. unfold big_Bytes. destruct (Z.eqb_spec n 0) as [->|Hne]; [done|]. rewrite Z.abs_eq by done. rewrite be_val_bytes.
  apply Z.mod_small. split; [done|]. pose proof (Z.log2_nonneg n). pose proof (Z.div_pos (Z.log2 n) 8 ltac:(lia) ltac:(lia)).
  rewrite Z2Nat.id by lia. change 256 with (2 ^ 8). rewrite <- Z.pow_mul_r by lia. apply Z.log2_lt_pow2; [lia|].
  pose proof (Z.div_mod (Z.log2 n) 8 ltac:(lia)). pose proof (Z.mod_pos_bound (Z.log2 n) 8 ltac:(lia)). lia.
Qed.

Lemma entries_lookup m l x next : entries m l -> head l = Some x -> next = hash_of <$> head (tail l) -> entry_at m (hash_of x) x next.
Proof. intros He Hh ->. destruct l; [done|]. injection Hh as <-. apply He. Qed.

Lemma entries_last m l x : entries m (l ++ [x]) -> entry_at m (hash_of x) x None.
Proof. induction l as [|y l IH]; cbn; [naive_solver|]. intros [_ He]. by apply IH. Qed.

(** An entry is added and the one before is linked to it. *)
Lemma entries_add m m' l x : entries m l ->
  (forall y next, y ∈ l -> Some y <> last l -> entry_at m (hash_of y) y next -> entry_at m' (hash_of y) y next) ->
  (forall y, last l = Some y -> entry_at m' (hash_of y) y (Some (hash_of x))) -> entry_at m' (hash_of x) x None ->
  NoDup (hash_of <$> l) -> entries m' (l ++ [x]).
Proof.
  intros He Hkeep Hlast Hx Hnd. induction l as [|y l IH]; [by cbn|]. cbn [app entries] in *. destruct He as [Hy He].
  rewrite fmap_cons in Hnd. apply NoDup_cons in Hnd as [Hnot Hnd].
  destruct l as [|z l]; [cbn; split; [|done]; by apply Hlast|]. split.
  - cbn [head app] in *. apply Hkeep; [left| |done]. rewrite last_cons_cons. intros E.
    apply Hnot. apply list_elem_of_fmap. exists y. split; [done|]. symmetry in E. apply last_Some_elem_of in E. done.
  - apply IH; [done| |done|done].
    + intros w next Hw Hne. apply Hkeep; [by right|]. by rewrite last_cons_cons.
Qed.

Abbreviation written s k v := (fun _ s' => batch_usable s' /\ memory.bdb s' = memory.bdb s /\ view s' = <[k := v]> (view s)).

Lemma wp_pool_Put k v s : batch_usable s -> wp (pool_Put k v) (written s k v) s.
Proof. intros Hs. unfold pool_Put. apply wp_zoom. by apply wp_batch_Put. Qed.

Lemma storable_hash x : storable x -> bt_Hash x = Some (hash_of x).
Proof. intros [[h Eh] _]. unfold hash_of. by rewrite Eh. Qed.

Lemma wp_WriteTxn x next s : storable x -> batch_usable s ->
  wp (WriteTxn (mkDbTxn x next)) (fun u s' => exists b, item_Unmarshal b = Some (mkDbTxn x next) /\
    written s (MempoolNodeKey (hash_of x)) b u s') s.
Proof.
  intros Hx Hs. destruct Hx as [Hh Hm] eqn:Ex. clear Ex. destruct (Hm next) as (b & Eb & Hu). unfold WriteTxn. rewrite Eb.
  wp_step. eapply wp_deref; [cbn; by apply storable_hash|]. eapply wp_mono; [by apply wp_pool_Put|]. eauto.
Qed.

(** The batch of a transaction, after the last one [old]. *)
Lemma wp_fill_batch d m x (old : option txn) n : memory.db d = Some m -> storable x ->
  match old with
  | None => m !! TailKey = None
  | Some y => storable y /\ m !! TailKey = Some (felt_Bytes (hash_of y)) /\ exists next, entry_at m (hash_of y) y next
  end -> GetLenDB d = Ok n ->
  wp (fill_batch x) (fun _ s' => exists b m1, item_Unmarshal b = Some (mkDbTxn x None) /\
    memory.bdb s' = memory.set_db d (<[LengthKey := big_Bytes (i64 (n + 1))]> (<[TailKey := felt_Bytes (hash_of x)]> m1)) /\
    match old with
    | None => m1 = <[HeadKey := felt_Bytes (hash_of x)]> (<[MempoolNodeKey (hash_of x) := b]> m)
    | Some y => exists b', item_Unmarshal b' = Some (mkDbTxn y (Some (hash_of x))) /\
        m1 = <[MempoolNodeKey (hash_of y) := b']> (<[MempoolNodeKey (hash_of x) := b]> m)
    end) (memory.mkDbBatch d memory.newBatch).
Proof.
  intros Hm Hx Hold Hlen. assert (Ho : is_Some (memory.db d)) by (rewrite Hm; by eexists).
  assert (Hmap : kv_map d = m) by (cbn; by rewrite Hm).
  unfold fill_batch. wp_step. wp_step. cbn [memory.bdb]. wp_step. eapply (wp_lift _ _ _ (hash_of <$> old)).
  { unfold GetTailValue. rewrite pool_Get_map, Hmap by done. destruct old as [y|]; [|by rewrite Hold].
    destruct Hold as (_ & -> & _). unfold mbind, outcome_bind. by rewrite felt_SetBytes_Bytes. }
  wp_step. eapply wp_mono; [by apply wp_WriteTxn|]. intros _ s1 (b & Hb & Hu1 & Hb1 & Hv1).
  change (view (memory.mkDbBatch d memory.newBatch)) with (default ∅ (memory.db d)) in Hv1. rewrite Hm in Hv1. cbn [default] in Hv1. cbn [memory.bdb] in Hb1.
  assert (Hfin : forall s2 m1, batch_usable s2 -> memory.bdb s2 = d -> view s2 = m1 ->
    wp (WriteTailValue (bt_Hash x);; pLen ← lift (GetLenDB d); WriteLenDB (i64 (pLen + 1));; zoom id (fun _ s => s) ErrPoolStore memory.batch_Write)
      (fun _ s' => memory.bdb s' = memory.set_db d (<[LengthKey := big_Bytes (i64 (n + 1))]> (<[TailKey := felt_Bytes (hash_of x)]> m1))) s2).
  { intros s2 m1 Hu2 Hb2 Hv2. unfold WriteTailValue, WriteLenDB. wp_step. wp_step. eapply wp_deref; [by apply storable_hash|].
    eapply wp_mono; [by apply wp_pool_Put|]. intros _ s3 (Hu3 & Hb3 & Hv3). wp_step. eapply wp_lift; [exact Hlen|].
    wp_step. eapply wp_mono; [by apply wp_pool_Put|]. intros _ s4 (Hu4 & Hb4 & Hv4). apply wp_zoom.
    eapply wp_mono; [apply (wp_batch_Write s4 m); [done|by rewrite Hb4, Hb3, Hb2]|]. intros _ s5 [E _]. unfold id.
    by rewrite E, Hv4, Hv3, Hv2, Hb4, Hb3, Hb2. }
  wp_step. destruct old as [y|]; cbn [fmap option_fmap option_map].
  - destruct Hold as (Hy & _ & next & He). wp_step. eapply wp_lift; [apply (GetTxn_entry d _ y next Ho); by rewrite Hmap|]. cbn [dn_Txn].
    rewrite (storable_hash x Hx). eapply wp_mono; [by apply wp_WriteTxn|]. intros _ s2 (b' & Hb' & Hu2 & Hb2 & Hv2).
    pose proof (Hfin s2 _ Hu2 ltac:(by rewrite Hb2) eq_refl) as Hw. rewrite (storable_hash x Hx) in Hw. eapply wp_mono; [exact Hw|].
    intros [] s' E. exists b, (view s2). split_and!; [done|done|]. exists b'. split; [done|]. by rewrite Hv2, Hv1.
  - rewrite (storable_hash x Hx). unfold WriteHeadValue. wp_step. eapply wp_deref; [reflexivity|].
    eapply wp_mono; [by apply wp_pool_Put|]. intros _ s2 (Hu2 & Hb2 & Hv2).
    pose proof (Hfin s2 _ Hu2 ltac:(by rewrite Hb2) eq_refl) as Hw. rewrite (storable_hash x Hx) in Hw. eapply wp_mono; [exact Hw|].
    intros [] s' E. exists b, (view s2). split_and!; [done|done|]. by rewrite Hv2, Hv1.
Qed.

(** The keys of the pool. *)
Lemma pool_keys : HeadKey <> TailKey /\ HeadKey <> LengthKey /\ TailKey <> LengthKey /\
  forall h, MempoolNodeKey h <> HeadKey /\ MempoolNodeKey h <> TailKey /\ MempoolNodeKey h <> LengthKey.
Proof. split_and!; [..|intros h; split_and!]; by apply bucket_keys_ne. Qed.

Lemma entry_frame m m' h x next : m' !! MempoolNodeKey h = m !! MempoolNodeKey h -> entry_at m h x next -> entry_at m' h x next.
Proof. intros E (b & Hb & Hu). exists b. by rewrite E. Qed.

(** What the batch leaves in the database. *)
Lemma writeToDB_run d m x old n : memory.db d = Some m -> storable x ->
  match old with
  | None => m !! TailKey = None
  | Some y => storable y /\ m !! TailKey = Some (felt_Bytes (hash_of y)) /\ exists next, entry_at m (hash_of y) y next
  end -> GetLenDB d = Ok n ->
  exists d', writeToDB x d = (Ok tt, d') /\ is_Some (memory.db d') /\
    kv_map d' !! TailKey = Some (felt_Bytes (hash_of x)) /\
    kv_map d' !! HeadKey = match old with None => Some (felt_Bytes (hash_of x)) | Some _ => m !! HeadKey end /\
    GetLenDB d' = Ok (i64 (be_val (big_Bytes (i64 (n + 1))))) /\
    match old with
    | None => entry_at (kv_map d') (hash_of x) x None
    | Some y => entry_at (kv_map d') (hash_of y) y (Some (hash_of x)) /\ (hash_of x <> hash_of y -> entry_at (kv_map d') (hash_of x) x None)
    end /\
    forall h, h <> hash_of x -> (forall y, old = Some y -> h <> hash_of y) -> kv_map d' !! MempoolNodeKey h = m !! MempoolNodeKey h.
Proof.
  intros Hm Hx Hold Hlen. pose proof (wp_fill_batch d m x old n Hm Hx Hold Hlen) as Hw.
  apply wp_elim in Hw as ([] & s' & E & b & m1 & Hb & Ebdb & Hm1). destruct pool_keys as (K1 & K2 & K3 & K4).
  exists (memory.bdb s'). unfold writeToDB. rewrite E. split; [done|]. rewrite Ebdb.
  change (kv_map (memory.set_db d ?m)) with m.
  assert (Hnode : forall h, (<[LengthKey:=big_Bytes (i64 (n + 1))]> (<[TailKey:=felt_Bytes (hash_of x)]> m1)) !! MempoolNodeKey h = m1 !! MempoolNodeKey h).
  { intros h. destruct (K4 h) as (? & ? & ?). by rewrite !lookup_insert_ne by congruence. }
  split; [by eexists|]. split; [by rewrite lookup_insert_ne, lookup_insert_eq by congruence|].
  split; [|split; [|split]].
  - rewrite !lookup_insert_ne by congruence. destruct old as [y|].
    + destruct Hm1 as (b' & _ & ->). rewrite !lookup_insert_ne; [done|apply K4..].
    + subst m1. by rewrite lookup_insert_eq.
  - unfold GetLenDB. rewrite pool_Get_map by (by eexists). change (kv_map (memory.set_db d ?m)) with m. by rewrite lookup_insert_eq.
  - destruct old as [y|].
    + destruct Hm1 as (b' & Hb' & ->). split.
      * exists b'. by rewrite Hnode, lookup_insert_eq.
      * intros Hne. exists b. rewrite Hnode, lookup_insert_ne, lookup_insert_eq; [done|]. intros Ek. apply node_key_inj in Ek. congruence.
    + subst m1. exists b. rewrite Hnode, lookup_insert_ne, lookup_insert_eq; [done|]. symmetry. apply K4.
  - intros h Hne Hney. rewrite Hnode. assert (Hk : MempoolNodeKey (hash_of x) <> MempoolNodeKey h) by (intros Ek; apply node_key_inj in Ek; congruence).
    destruct old as [y|].
    + destruct Hm1 as (b' & _ & ->). rewrite !lookup_insert_ne; [done|done|]. intros Ek. apply node_key_inj in Ek. by apply (Hney y).
    + subst m1. rewrite !lookup_insert_ne; [done|done|]. symmetry. apply K4.
Qed.

Lemma entries_of_last m l y : last l = Some y -> entries m l -> exists next, entry_at m (hash_of y) y next.
Proof. intros [l' ->]%last_Some He. eexists. by eapply entries_last. Qed.

Lemma hashes_inj l y z : NoDup (hash_of <$> l) -> y ∈ l -> z ∈ l -> hash_of y = hash_of z -> y = z.
Proof.
  induction l as [|w l IH]; [intros _ Hy; by apply not_elem_of_nil in Hy|]. rewrite fmap_cons. intros [Hnot Hnd]%NoDup_cons Hy Hz E.
  apply elem_of_cons in Hy as [-> |Hy], Hz as [-> |Hz]; [done|..|by apply IH]; exfalso; apply Hnot, list_elem_of_fmap; eauto.
Qed.

(** A transaction is added to the list. *)
Lemma writeToDB_ok d l x : db_ok d l -> Forall storable l -> storable x -> NoDup (hash_of <$> (l ++ [x])) -> Z.of_nat (length l) + 1 < 2 ^ 62 ->
  exists d', writeToDB x d = (Ok tt, d') /\ db_ok d' (l ++ [x]).
Proof.
  intros [Hm He Hh Ht Hl] Hst Hx Hnd Hb. assert (Hmap : kv_map d = default ∅ (memory.db d)) by done.
  rewrite fmap_app in Hnd. apply NoDup_app in Hnd as (Hnd & Hnot & _).
  assert (Hfresh : forall y, y ∈ l -> hash_of y <> hash_of x).
  { intros y Hy E. apply (Hnot (hash_of y)); [apply list_elem_of_fmap; by exists y|]. rewrite E. left. }
  destruct (writeToDB_run d _ x (last l) (Z.of_nat (length l)) Hm Hx) as (d' & E & Ho & T & H' & L & En & Hkeep).
  { rewrite <- Hmap. destruct (last l) as [y|] eqn:El; [|by rewrite Ht].
    split; [rewrite Forall_forall in Hst; by apply Hst, last_Some_elem_of|]. split; [by rewrite Ht|]. by apply (entries_of_last _ l). }
  { exact Hl. }
  exists d'. split; [done|]. destruct Ho as [m' Em']. split.
  - by rewrite Em'.
  - apply (entries_add (kv_map d)); try done.
    + intros y next Hy Hne. apply entry_frame. rewrite Hkeep; [done|by apply Hfresh|]. intros z Ez Eh. rewrite Ez in Hne. apply Hne. f_equal.
      apply last_Some_elem_of in Ez. by apply (hashes_inj l).
    + intros y El. rewrite El in En. apply En.
    + destruct (last l) as [y|] eqn:El; [|done]. apply En. intros Eh. apply (Hfresh y); [by apply last_Some_elem_of|done].
  - rewrite H'. destruct (last l) as [y|] eqn:El.
    + rewrite <- Hmap, Hh. by destruct l.
    + apply last_None in El. by subst l.
  - by rewrite last_snoc, T.
  - rewrite L, length_app. cbn [length]. rewrite be_val_big, !i64_small; rewrite ?i64_small; try lia. f_equal. lia.
Qed.

End database.

(** ** The pool *)

Section pool.
Context {F : Type} `{!FieldElement F} `{!FieldElementLaws F} `{!FieldArith F} {C : Type} `{!PoolCodec (F:=F) (C:=C)}.
Abbreviation txn := (BroadcastedTransaction (F:=F) (C:=C)).
Abbreviation pool := (SequencerMempool (F:=F) (C:=C)).
Implicit Types (x : txn) (l : list txn) (d : disk) (p : pool).

(** Everything but the list in memory is the same. *)
Definition same_rest p p' : Prop :=
  sp_db p' = sp_db p /\ sp_maxNumTxns p' = sp_maxNumTxns p /\ sp_chan p' = sp_chan p /\ sp_closed p' = sp_closed p /\ sp_hand p' = sp_hand p.

Lemma same_rest_trans p p' p'' : same_rest p p' -> same_rest p' p'' -> same_rest p p''.
Proof. unfold same_rest. intuition congruence. Qed.

Lemma wp_mem_push p l x : linked (sp_list p) l ->
  wp (mem_push x) (fun _ p' => linked (sp_list p') (l ++ [x]) /\ tl_len (sp_list p') = i64 (tl_len (sp_list p) + 1) /\ same_rest p p') p.
Proof.
  intros Hl. pose proof (wp_push_linked (sp_list p) l x Hl) as Hw. apply wp_elim in Hw as ([] & t' & E & Hl' & Hlen).
  eapply (wp_intro _ _ _ tt (mkPool (sp_db p) t' (sp_maxNumTxns p) (sp_chan p) (sp_closed p) (sp_hand p) (sp_pushed p))); [|done].
  revert E. unfold mem_push, on_list, zoom, mbind, SE_bind. cbn. by destruct (list_push _ _) as [[] ?]; intros [= <- <-].
Qed.

(** A part of the entries is loaded. *)
Lemma load_step p fuel h x next l : is_Some (memory.db (sp_db p)) -> linked (sp_list p) l -> entry_at (kv_map (sp_db p)) h x next ->
  exists p', load_loop (S fuel) (Some h) p = load_loop fuel next p' /\ linked (sp_list p') (l ++ [x]) /\
    tl_len (sp_list p') = i64 (tl_len (sp_list p) + 1) /\ same_rest p p'.
Proof.
  intros Ho Hl He. pose proof (wp_mem_push p l x Hl) as Hw. apply wp_elim in Hw as ([] & p' & E & Hl' & Hlen & Hs).
  exists p'. split_and!; [|done..]. cbn [load_loop]. unfold mbind, SE_bind, get_state, lift.
  rewrite (GetTxn_entry _ _ x next Ho He). cbn [dn_Txn dn_NextHash]. by rewrite E.
Qed.

Lemma load_entries l fuel p l0 : is_Some (memory.db (sp_db p)) -> entries (kv_map (sp_db p)) l -> list_ok (sp_list p) l0 ->
  Z.of_nat (length (l0 ++ l)) < 2 ^ 63 -> (length l <= fuel)%nat ->
  exists p', load_loop fuel (hash_of <$> head l) p = (Ok tt, p') /\ list_ok (sp_list p') (l0 ++ l) /\ sp_db p' = sp_db p.
Proof.
  revert fuel p l0. induction l as [|x l IH]; intros fuel p l0 Ho He Hl Hb Hf.
  { exists p. rewrite app_nil_r. by destruct fuel. }
  destruct fuel as [|fuel]; [cbn in Hf; lia|]. cbn [entries] in He. destruct He as [Hx He]. cbn [head fmap option_fmap option_map].
  destruct (load_step p fuel (hash_of x) x _ l0 Ho (lk_linked _ _ Hl) Hx) as (p1 & -> & Hl1 & Hlen1 & Hs1).
  rewrite length_app in Hb. cbn [length] in Hb, Hf. destruct Hs1 as (Ed & _).
  destruct (IH fuel p1 (l0 ++ [x])) as (p' & E & Hl' & Hd'); rewrite ?Ed; try done; [| |lia|].
  - split; [|done]. rewrite Hlen1, (proj1 (lk_len _ _ Hl)), length_app, i64_small by lia. cbn [length]. lia.
  - rewrite !length_app. cbn [length]. lia.
  - exists p'. split; [done|]. rewrite <- app_assoc in Hl'. split; [done|congruence].
Qed.

Lemma LoadFromDB_ok d l max fuel : db_ok d l -> Z.of_nat (length l) < 2 ^ 63 -> (length l <= fuel)%nat ->
  exists p', LoadFromDB fuel (New d max) = (Ok tt, p') /\ list_ok (sp_list p') l.
Proof.
  intros [Hm He Hh Ht Hl] Hb Hf. unfold LoadFromDB, mbind, SE_bind, get_state. cbn [sp_db New].
  assert (Ho : is_Some (memory.db d)) by (rewrite Hm; by eexists).
  unfold GetHeadValue. rewrite pool_Get_map, Hh by done. destruct l as [|x l]; cbn [head fmap option_fmap option_map].
  { exists (New d max). split; [done|apply emptyList_ok]. }
  unfold mbind, outcome_bind. rewrite felt_SetBytes_Bytes.
  destruct (load_entries (x :: l) fuel (New d max) [] Ho He emptyList_ok Hb Hf) as (p' & E & Hok & _). eauto.
Qed.

(** A transaction that refers to itself. *)
Lemma load_cycle fuel p h x l : is_Some (memory.db (sp_db p)) -> linked (sp_list p) l -> entry_at (kv_map (sp_db p)) h x (Some h) ->
  exists p', load_loop fuel (Some h) p = (NoFuel, p').
Proof.
  revert p l. induction fuel as [|fuel IH]; intros p l Ho Hl He; [by eexists|].
  destruct (load_step p fuel h x _ l Ho Hl He) as (p1 & -> & Hl1 & _ & Ed & _). eapply IH; rewrite ?Ed; done.
Qed.

(** Entries that lead to the hash [h]. *)
Definition start l (h : F) : F := match l with [] => h | x :: _ => hash_of x end.

Fixpoint leads_to (m : gmap bytes bytes) l (h : F) : Prop :=
  match l with [] => True | x :: l' => entry_at m (hash_of x) x (Some (start l' h)) /\ leads_to m l' h end.

Lemma leads_cycle l h x fuel p l0 : is_Some (memory.db (sp_db p)) -> linked (sp_list p) l0 ->
  leads_to (kv_map (sp_db p)) l h -> entry_at (kv_map (sp_db p)) h x (Some h) ->
  exists p', load_loop fuel (Some (start l h)) p = (NoFuel, p').
Proof.
  revert fuel p l0. induction l as [|y l IH]; intros fuel p l0 Ho Hl Hto Hx; [by eapply load_cycle|].
  destruct Hto as [Hy Hto]. destruct fuel as [|fuel]; [by eexists|]. cbn [start].
  destruct (load_step p fuel (hash_of y) y _ l0 Ho Hl Hy) as (p1 & -> & Hl1 & _ & Ed & _). eapply IH; rewrite ?Ed; done.
Qed.

Lemma entries_lead m m' l x : entries m (l ++ [x]) -> (forall y, y ∈ l -> m' !! MempoolNodeKey (hash_of y) = m !! MempoolNodeKey (hash_of y)) ->
  leads_to m' l (hash_of x).
Proof.
  induction l as [|y l IH]; intros He Hk; [done|]. cbn [app entries leads_to] in *. destruct He as [Hy He]. split.
  - eapply entry_frame; [apply Hk; left|]. by destruct l.
  - apply IH; [done|]. intros z Hz. apply Hk. by right.
Qed.

(** C36: a pool that got the same transaction twice in a row can never be loaded
    again: the entry of the transaction in the database then refers to itself, and
    [LoadFromDB] does not end, however long it runs. *)
Theorem duplicate_never_loads d l x : db_ok d (l ++ [x]) -> Forall storable (l ++ [x]) -> NoDup (hash_of <$> (l ++ [x])) ->
  exists d', writeToDB x d = (Ok tt, d') /\ forall fuel max, exists p', LoadFromDB fuel (New d' max) = (NoFuel, p').
Proof.
  intros [Hm He Hh Ht Hl] Hst Hnd. rewrite Forall_app, Forall_singleton in Hst. destruct Hst as [_ Hx].
  assert (Hmap : kv_map d = default ∅ (memory.db d)) by done.
  destruct (writeToDB_run d _ x (Some x) (Z.of_nat (length (l ++ [x]))) Hm Hx) as (d' & E & Ho & _ & H' & _ & [Hself _] & Hkeep).
  { split; [done|]. rewrite <- Hmap, Ht, last_snoc. split; [done|]. exists None. by apply (entries_last _ l). }
  { exact Hl. }
  exists d'. split; [done|]. intros fuel max. unfold LoadFromDB, mbind, SE_bind, get_state. cbn [sp_db New].
  unfold GetHeadValue. rewrite pool_Get_map, H', <- Hmap, Hh by done.
  assert (Ehead : (fun y => felt_Bytes (hash_of y)) <$> head (l ++ [x]) = Some (felt_Bytes (start l (hash_of x)))) by (by destruct l).
  rewrite Ehead. unfold mbind, outcome_bind. rewrite felt_SetBytes_Bytes.
  apply (leads_cycle l (hash_of x) x fuel (New d' max) []); try done; [apply emptyList_ok|].
  apply (entries_lead (kv_map d)); [done|]. rewrite fmap_app in Hnd. apply NoDup_app in Hnd as (_ & Hnot & _).
  assert (Hne : forall y, y ∈ l -> hash_of y <> hash_of x).
  { intros y Hy Eh. apply (Hnot (hash_of y)); [apply list_elem_of_fmap; by exists y|]. rewrite Eh. left. }
  intros y Hy. apply Hkeep; [by apply Hne|]. intros z [= <-]. by apply Hne.
Qed.

(** ** Runs of the pool *)

Inductive pool_op :=
| PoolPush (head : headState (F:=F)) (between : nat) (x : txn)
| PoolPop
| PoolPopBatch (n : Z)
| PoolWriter.

(** The state after an operation, the transaction it accepted, and whether it
    was accepted although the channel to the writer was full. *)
Definition pool_step (op : pool_op) p : pool * list txn * nat :=
  match op with
  | PoolPush head between x =>
      match Push head between x p with
      | (Ok _, p') => (p', [x], if Z.of_nat (length (sp_chan p)) <? sp_maxNumTxns p then 0%nat else 1%nat)
      | (_, p') => (p', [], 0%nat)
      end
  | PoolPop => ((Pop p).2, [], 0%nat)
  | PoolPopBatch n => ((PopBatch n p).2, [], 0%nat)
  | PoolWriter => ((writer_step p).2, [], 0%nat)
  end.

Fixpoint run_pool (ops : list pool_op) p : pool * list txn * nat :=
  match ops with
  | [] => (p, [], 0%nat)
  | op :: ops' =>
      let '(p1, acc, full) := pool_step op p in
      let '(p2, acc', full') := run_pool ops' p1 in (p2, acc ++ acc', (full + full')%nat)
  end.

Definition pushes (op : pool_op) : list txn := match op with PoolPush _ _ x => [x] | _ => [] end.

(** The transactions that are written, with the writer or in the channel: those
    that will be in the database. *)
Definition kept p (l : list txn) : Prop := exists dn, db_ok (sp_db p) dn /\ l = dn ++ option_list (sp_hand p) ++ sp_chan p.

(** They are accepted transactions; a push that finds the channel full loses at
    most two. *)
Record pool_inv p (acc : list txn) (full : nat) : Prop := {
  pi_db : exists l, kept p l /\ l `sublist_of` acc /\ (length acc <= length l + 2 * full)%nat;
  pi_list : exists mem, list_ok (sp_list p) mem /\ (length mem <= length acc)%nat;
}.

Definition good (l : list txn) : Prop := Forall storable l /\ NoDup (hash_of <$> l) /\ Z.of_nat (length l) < 2 ^ 61.

Lemma good_sublist l l' : l `sublist_of` l' -> good l' -> good l.
Proof.
  intros Hs (Hst & Hnd & Hb). pose proof (sublist_length _ _ Hs). split_and!; [| |lia].
  - rewrite Forall_forall in *. intros x Hx. apply Hst. by eapply elem_of_sublist.
  - eapply sublist_NoDup; [done|]. by apply fmap_sublist.
Qed.

(** Steps until the writer has nothing left. *)
Definition pending_steps p : nat := (2 * length (sp_chan p) + length (option_list (sp_hand p)))%nat.

Lemma writer_step_kept p l : kept p l -> good l -> exists p', writer_step p = (Ok tt, p') /\ kept p' l /\
  sp_maxNumTxns p' = sp_maxNumTxns p /\ sp_closed p' = sp_closed p /\ sp_list p' = sp_list p /\ pending_steps p' = pred (pending_steps p).
Proof.
  intros (dn & Hd & Ea) (Hst & Hnd & Hb). unfold writer_step, mbind, SE_bind, get_state, pending_steps.
  destruct (sp_hand p) as [x|] eqn:Eh; unfold option_list in *; cbn [option_rect app] in Ea |- *.
  - subst l. rewrite Forall_app, Forall_cons in Hst. destruct Hst as (Hdn & Hx & _).
    replace (dn ++ x :: sp_chan p) with ((dn ++ [x]) ++ sp_chan p) in Hnd by (by rewrite <- app_assoc).
    rewrite fmap_app in Hnd. apply NoDup_app in Hnd as (Hnd & _ & _). rewrite length_app in Hb. cbn [length] in Hb.
    destruct (writeToDB_ok (sp_db p) dn x Hd Hdn Hx Hnd) as (d' & Ew & Hd'); [lia|]. rewrite Ew. eexists. split; [reflexivity|].
    split; [|cbn; split_and!; (done || lia)]. exists (dn ++ [x]). split; [done|]. cbn. by rewrite <- app_assoc.
  - destruct (sp_chan p) as [|x rest] eqn:Ec.
    + exists p. split; [done|]. rewrite Eh, Ec. split; [|done]. exists dn. rewrite Eh, Ec. done.
    + eexists. split; [reflexivity|]. split; [|cbn; split_and!; (done || lia)]. exists dn. done.
Qed.

Lemma writer_steps_kept n p l : kept p l -> good l -> exists p', writer_steps n p = (Ok tt, p') /\ kept p' l /\
  sp_maxNumTxns p' = sp_maxNumTxns p /\ sp_closed p' = sp_closed p /\ sp_list p' = sp_list p.
Proof.
  revert p. induction n as [|n IH]; intros p Hp Hg; [by exists p|].
  destruct (writer_step_kept p l Hp Hg) as (p1 & E & Hp1 & E1 & E2 & E3 & _). cbn [writer_steps]. unfold mbind, SE_bind. rewrite E.
  destruct (IH p1 Hp1 Hg) as (p2 & E' & Hp2 & F1 & F2 & F3). exists p2. split_and!; [done|done|congruence..].
Qed.

(** The writer ends with everything in the database. *)
Lemma writer_drains n p l : kept p l -> good l -> (pending_steps p <= n)%nat ->
  exists p', writer_steps n p = (Ok tt, p') /\ db_ok (sp_db p') l.
Proof.
  revert p. induction n as [|n IH]; intros p Hp Hg Hn.
  - exists p. split; [done|]. destruct Hp as (dn & Hd & ->). unfold pending_steps in Hn.
    destruct (sp_chan p), (sp_hand p); cbn in Hn; try lia. cbn. by rewrite app_nil_r.
  - destruct (writer_step_kept p l Hp Hg) as (p1 & E & Hp1 & _ & _ & _ & Hs). cbn [writer_steps]. unfold mbind, SE_bind. rewrite E. apply IH; [done|done|lia].
Qed.

Lemma pool_inv_list p p' acc full l :
  pool_inv p acc full -> same_rest p p' -> list_ok (sp_list p') l -> (length l <= length acc)%nat -> pool_inv p' acc full.
Proof.
  intros [Hd Hm] (E1 & E2 & E3 & E4 & E5) Hl Hle. split; [unfold kept; by rewrite E1, E3, E5|eauto].
Qed.

Lemma on_list_run {A} (m : SE (memTxnList (F:=F) (C:=C)) poolError A) p :
  (on_list m p).2 = mkPool (sp_db p) (m (sp_list p)).2 (sp_maxNumTxns p) (sp_chan p) (sp_closed p) (sp_hand p) (sp_pushed p).
Proof. unfold on_list, zoom. destruct (m (sp_list p)) as [[] t]; done. Qed.

Lemma queue_shorter l op l' o : (forall x, op <> QPush x) -> queue_spec l op = (o, l') -> (length l' <= length l)%nat.
Proof.
  intros Hne. destruct op as [x| |n]; cbn; [by destruct (Hne x)|destruct l; intros [= <- <-]; cbn; lia|].
  destruct (n <=? 0); [intros [= <- <-]; lia|]. destruct l; intros [= <- <-]; rewrite ?length_drop; cbn; lia.
Qed.

(** Transactions leave the list. *)
Lemma pool_remove_inv p acc full op : pool_inv p acc full -> good acc -> (forall x, op <> QPush x) ->
  pool_inv (mkPool (sp_db p) (list_op op (sp_list p)).2 (sp_maxNumTxns p) (sp_chan p) (sp_closed p) (sp_hand p) (sp_pushed p)) acc full.
Proof.
  intros Hp (_ & _ & Hb) Hne. destruct (pi_list _ _ _ Hp) as (mem & Hl & Hle). destruct (list_op_refines (sp_list p) mem op Hl ltac:(lia)) as [_ Hl'].
  destruct (queue_spec mem op) as [o mem'] eqn:Es. pose proof (queue_shorter mem op mem' o Hne Es).
  eapply (pool_inv_list p _ acc full mem' Hp); [done|exact Hl'|lia].
Qed.

Lemma Pop_run p : (Pop p).2 = mkPool (sp_db p) (list_op QPop (sp_list p)).2 (sp_maxNumTxns p) (sp_chan p) (sp_closed p) (sp_hand p) (sp_pushed p).
Proof. unfold Pop. rewrite on_list_run. f_equal. cbn. unfold mbind, SE_bind. by destruct (list_pop (sp_list p)) as [[] t]. Qed.

Lemma PopBatch_run n p : (PopBatch n p).2 = mkPool (sp_db p) (list_op (QPopBatch n) (sp_list p)).2 (sp_maxNumTxns p) (sp_chan p) (sp_closed p) (sp_hand p) (sp_pushed p).
Proof. unfold PopBatch. cbn [list_op]. destruct (n <=? 0); [by destruct p|]. by rewrite on_list_run. Qed.

Lemma option_list_app {A} (o : option A) : (length (option_list o) <= 1)%nat.
Proof. destruct o; cbn; lia. Qed.

(** What a push does to the channel. *)
Lemma send_kept p l between x : kept p l -> good l -> sp_closed p = false ->
  exists p' l', send_to_writer between x p = (Ok tt, p') /\ kept p' l' /\ sp_maxNumTxns p' = sp_maxNumTxns p /\ sp_closed p' = false /\
    sp_list p' = sp_list p /\
    if Z.of_nat (length (sp_chan p)) <? sp_maxNumTxns p then l' = l ++ [x] else l' `sublist_of` l /\ (length l <= S (length l'))%nat.
Proof.
  intros Hk Hg Hc. unfold send_to_writer, mbind, SE_bind, get_state. rewrite Hc. destruct (_ <? sp_maxNumTxns p).
  - destruct Hk as (dn & Hd & ->). unfold set_chan, modify. eexists _, _. split; [reflexivity|]. split_and!; try done.
    exists dn. cbn. by rewrite <- !app_assoc.
  - destruct (writer_steps_kept between p l Hk Hg) as (p1 & E & (dn & Hd & ->) & E1 & E2 & E3). rewrite E.
    unfold set_chan, modify. exists (mkPool (sp_db p1) (sp_list p1) (sp_maxNumTxns p1) (drop 1 (sp_chan p1)) (sp_closed p1) (sp_hand p1) (sp_pushed p1)).
    exists (dn ++ option_list (sp_hand p1) ++ drop 1 (sp_chan p1)). split; [reflexivity|].
    split_and!; [by exists dn|done|cbn; congruence|done| |rewrite !length_app, length_drop; lia].
    apply sublist_app; [done|]. apply sublist_app; [done|]. apply sublist_drop.
Qed.

(** A push that is accepted puts the transaction in the channel, or finds it full. *)
Lemma push_inv p acc full head between x : pool_inv p acc full -> sp_closed p = false -> good (acc ++ [x]) ->
  let '(p', new, f) := pool_step (PoolPush head between x) p in
  (new = [x] \/ new = []) /\ pool_inv p' (acc ++ new) (full + f) /\ sp_closed p' = false.
Proof.
  intros Hp Hc Hgx. assert (Hg : good acc) by (eapply good_sublist; [|done]; by apply sublist_inserts_r).
  destruct Hgx as (_ & _ & Hb). rewrite length_app in Hb. cbn [length] in Hb. cbn [pool_step]. unfold Push, mbind, SE_bind, get_state, lift.
  destruct (pool_validate head p x) as [[]|e| |]; [|rewrite app_nil_r, Nat.add_0_r; by auto..].
  destruct Hp as [(l & Hk & Hs & Hlen) (mem & Hl & Hle)].
  destruct (send_kept p l between x Hk (good_sublist _ _ Hs Hg) Hc) as (p1 & l1 & E & Hk1 & E1 & E2 & E3 & Hl1). rewrite E.
  rewrite <- E3 in Hl. pose proof (wp_mem_push p1 mem x (lk_linked _ _ Hl)) as Hw.
  apply wp_elim in Hw as ([] & p2 & Ep & Hl2 & Hlen2 & (F1 & F2 & F3 & F4 & F5)). rewrite Ep.
  split; [by left|]. split; [|cbn; congruence]. split.
  - exists l1. split; [destruct Hk1 as (dn & Hd & ->); exists dn; cbn; by rewrite F1, F3, F5|]. rewrite length_app. cbn [length].
    destruct (_ <? sp_maxNumTxns p); [subst l1; rewrite length_app; cbn [length]; split; [by apply sublist_app|lia]|].
    destruct Hl1 as [Hs1 Hlen1]. split; [etrans; [done|]; etrans; [done|]; by apply sublist_inserts_r|lia].
  - exists (mem ++ [x]). rewrite !length_app. cbn [length]. split; [|lia]. split; [|done]. rewrite length_app. cbn [length sp_list modify].
    rewrite Hlen2, (proj1 (lk_len _ _ Hl)), i64_small by lia. lia.
Qed.

Lemma run_pool_inv ops p acc full : pool_inv p acc full -> sp_closed p = false -> good (acc ++ (ops ≫= pushes)) ->
  let '(p', new, f) := run_pool ops p in pool_inv p' (acc ++ new) (full + f) /\ good (acc ++ new) /\ sp_closed p' = false.
Proof.
  revert p acc full. induction ops as [|op ops IH]; intros p acc full Hp Hcl Hg.
  { cbn in *. rewrite app_nil_r, Nat.add_0_r in *. auto. }
  cbn [run_pool mbind list_bind] in *.
  assert (Hga : good acc) by (eapply good_sublist; [|done]; by apply sublist_inserts_r).
  assert (Hstep : let '(p1, new, f) := pool_step op p in
    pool_inv p1 (acc ++ new) (full + f) /\ sp_closed p1 = false /\ (new = pushes op \/ new = [])).
  { destruct op as [head between x| |n|]; cbn [pushes app] in *.
    - assert (Hg1 : good (acc ++ [x])) by (apply (good_sublist _ (acc ++ [x] ++ (ops ≫= pushes))); [rewrite app_assoc; by apply sublist_inserts_r|done]).
      pose proof (push_inv p acc full head between x Hp Hcl Hg1) as Hs. destruct (pool_step (PoolPush head between x) p) as [[p1 new] f].
      destruct Hs as (Hor & Hp1 & Hc1). done.
    - cbn [pool_step]. rewrite app_nil_r, Nat.add_0_r, Pop_run. split_and!; [by apply pool_remove_inv|done|by left].
    - cbn [pool_step]. rewrite app_nil_r, Nat.add_0_r, PopBatch_run. split_and!; [by apply pool_remove_inv|done|by left].
    - cbn [pool_step]. destruct Hp as [(l & Hk & Hs & Hlen) Hm].
      destruct (writer_step_kept p l Hk (good_sublist _ _ Hs Hga)) as (p1 & E & Hk1 & _ & Hc1 & El & _).
      rewrite E, app_nil_r, Nat.add_0_r. cbn [snd]. rewrite Hc1. split_and!; [|done|by left]. split; [eauto|by rewrite El]. }
  destruct (pool_step op p) as [[p1 new] f]. destruct Hstep as (Hp1 & Hc1 & Hor).
  assert (Hg1 : good ((acc ++ new) ++ (ops ≫= pushes))).
  { apply (good_sublist _ (acc ++ pushes op ++ (ops ≫= pushes))); [|done]. rewrite <- app_assoc. apply sublist_app; [done|]. apply sublist_app; [|done].
    destruct Hor as [-> | ->]; [done|apply sublist_nil_l]. }
  specialize (IH p1 (acc ++ new) _ Hp1 Hc1 Hg1). destruct (run_pool ops p1) as [[p2 new'] f'].
  by rewrite app_assoc, Nat.add_assoc.
Qed.

(** Closing the pool writes what is left. *)
Lemma close_writes p l : kept p l -> good l -> sp_closed p = false ->
  exists p', pool_Close p = (Ok tt, p') /\ db_ok (sp_db p') l.
Proof.
  intros Hp Hg Hc. unfold pool_Close, mbind, SE_bind, get_state. rewrite Hc. unfold modify.
  apply writer_drains with (l := l); [exact Hp|done|]. unfold pending_steps. cbn.
  pose proof (option_list_app (sp_hand p)). lia.
Qed.

Lemma sublist_full {T} (l l' : list T) : l `sublist_of` l' -> (length l' <= length l)%nat -> l = l'.
Proof.
  induction 1 as [|x l l' Hs IH|x l l' Hs IH]; cbn; intros Hl; [done|f_equal; apply IH; lia|].
  pose proof (sublist_length _ _ Hs). lia.
Qed.

(** C35: transactions with different hashes are pushed, popped and refused, while
    the writer runs at any pace.  A new pool on the database of the closed one
    loads only transactions that were accepted, in the order they were pushed; all
    of them when no push found the channel to the writer full, and otherwise each
    push that found it full loses at most two, its own transaction and one that
    was waiting. *)
Theorem restored_pool ops d max : db_ok d [] -> Forall storable (ops ≫= pushes) -> NoDup (hash_of <$> (ops ≫= pushes)) ->
  Z.of_nat (length (ops ≫= pushes)) < 2 ^ 61 ->
  let '(p, acc, full) := run_pool ops (New d max) in
  exists p1 p2 l, pool_Close p = (Ok tt, p1) /\ LenDB p1 = Ok (Z.of_nat (length l)) /\
    LoadFromDB (length l) (New (sp_db p1) max) = (Ok tt, p2) /\ list_ok (sp_list p2) l /\
    l `sublist_of` acc /\ (length acc <= length l + 2 * full)%nat /\ (full = 0%nat -> l = acc).
Proof.
  intros Hd Hst Hnd Hmax. assert (Hinv : pool_inv (New d max) [] 0).
  { split; [exists []; split_and!; [by exists []|done|done]|exists []; split; [apply emptyList_ok|done]]. }
  pose proof (run_pool_inv ops (New d max) [] 0 Hinv eq_refl) as Hrun. cbn [app Nat.add] in Hrun.
  destruct (run_pool ops (New d max)) as [[p acc] full]. destruct Hrun as (Hp & Hg & Hc); [split_and!; done|].
  destruct (pi_db _ _ _ Hp) as (l & Hk & Hs & Hlen). pose proof (good_sublist _ _ Hs Hg) as Hgl.
  destruct (close_writes p l Hk Hgl Hc) as (p1 & E1 & Hd1).
  destruct (LoadFromDB_ok (sp_db p1) l max (length l) Hd1) as (p2 & E2 & Hl); [destruct Hgl as (_ & _ & ?); lia|lia|].
  exists p1, p2, l. split_and!; [done|apply (do_len _ _ Hd1)|done|done|done|done|].
  intros ->. apply sublist_full; [done|lia].
Qed.

End pool.

(** ** A pool at concrete inputs *)

Section witness.

(** A transaction with nothing but a hash, and a codec of such transactions. *)
Definition hash_txn (h : StarkField) : BroadcastedTransaction (F:=StarkField) (C:=unit) :=
  mkBroadcasted (TxL1Handler (mkL1Handler (Some h) None None None [] None)) None None [].

#[local] Instance hash_codec : PoolCodec (F:=StarkField) (C:=unit) := {|
  item_Marshal item := Some (felt_Bytes (default felt_Zero (bt_Hash (dn_Txn item))) ++
    match dn_NextHash item with Some h => felt_Bytes h | None => [] end);
  item_Unmarshal b := Some (mkDbTxn (hash_txn (felt_SetBytes (take 32 b)))
    match drop 32 b with [] => None | rest => Some (felt_SetBytes rest) end);
|}.

Lemma hash_txn_storable h : storable (hash_txn h).
Proof.
  split; [by eexists|]. intros next. eexists. split; [reflexivity|]. cbn [item_Unmarshal hash_codec dn_Txn dn_NextHash hash_txn bt_Hash tx_Hash bt_Transaction l1_TransactionHash default].
  pose proof (felt_bytes_length h) as Hl. rewrite take_app_length', drop_app_length' by done. rewrite felt_SetBytes_Bytes.
  destruct next as [h'|]; [|done]. pose proof (felt_bytes_length h') as Hl'. destruct (felt_Bytes h') as [|b bs] eqn:E; [done|].
  by rewrite <- E, felt_SetBytes_Bytes.
Qed.

Definition tx (n : Z) : BroadcastedTransaction (F:=StarkField) (C:=unit) := hash_txn (stark n).

Definition no_nonces : headState (F:=StarkField) := Ok (fun _ => Ok felt_Zero).

Definition queue_ops : list (queue_op (F:=StarkField) (C:=unit)) := [QPush (tx 1); QPush (tx 2); QPush (tx 3); QPopBatch 2; QPop; QPop].

Lemma pool_is_fifo_witness : run_list emptyList queue_ops = run_spec [] queue_ops /\
  run_spec [] queue_ops = [Ok []; Ok []; Ok []; Ok [tx 1; tx 2]; Ok [tx 3]; Err ErrTxnPoolEmpty].
Proof. split; [apply (pool_is_fifo queue_ops); reflexivity|reflexivity]. Defined.

Lemma empty_pool_db : db_ok memory.New ([] : list (BroadcastedTransaction (F:=StarkField) (C:=unit))).
Proof. split; try done. Qed.

(** The third push finds the channel full: its transaction and the first one are
    lost. *)
Definition pool_ops : list (pool_op (F:=StarkField) (C:=unit)) :=
  [PoolPush no_nonces 0 (tx 1); PoolPop; PoolPush no_nonces 0 (tx 2); PoolPop; PoolPush no_nonces 0 (tx 3); PoolWriter].

Lemma three_hashes : NoDup (hash_of <$> [tx 1; tx 2; tx 3]).
Proof.
  apply NoDup_cons. split; [|apply NoDup_cons; split; [|apply NoDup_singleton]].
  all: intros Hin; rewrite ?elem_of_cons, ?elem_of_nil in Hin; destruct_or? Hin; try done;
    apply (f_equal proj1_sig) in Hin; vm_compute in Hin; discriminate.
Qed.

Lemma restored_pool_witness :
  let '(p, acc, full) := run_pool pool_ops (New memory.New 2) in
  exists p1 p2 l, pool_Close p = (Ok tt, p1) /\ LenDB p1 = Ok (Z.of_nat (length l)) /\
    LoadFromDB (length l) (New (sp_db p1) 2) = (Ok tt, p2) /\ list_ok (sp_list p2) l /\
    l `sublist_of` acc /\ (length acc <= length l + 2 * full)%nat /\ (full = 0%nat -> l = acc).
Proof.
  apply (restored_pool pool_ops memory.New 2); [apply empty_pool_db| |exact three_hashes|reflexivity].
  repeat constructor; apply hash_txn_storable.
Defined.

Example pool_ops_accepted :
  (run_pool pool_ops (New memory.New 2)).1.2 = [tx 1; tx 2; tx 3] /\ (run_pool pool_ops (New memory.New 2)).2 = 1%nat.
Proof. split; reflexivity. Qed.

Definition one_txn_db : disk := (writeToDB (tx 1) memory.New).2.

Lemma one_txn_ok : db_ok one_txn_db ([] ++ [tx 1]).
Proof.
  destruct (writeToDB_ok memory.New [] (tx 1)) as (d' & E & Hd); [apply empty_pool_db|constructor|apply hash_txn_storable|apply NoDup_singleton|reflexivity|].
  unfold one_txn_db. by rewrite E.
Qed.

Lemma duplicate_never_loads_witness :
  exists d', writeToDB (tx 1) one_txn_db = (Ok tt, d') /\ forall fuel max, exists p', LoadFromDB fuel (New d' max) = (NoFuel, p').
Proof.
  apply (duplicate_never_loads one_txn_db [] (tx 1)); [exact one_txn_ok| |apply NoDup_singleton].
  constructor; [apply hash_txn_storable|constructor].
Defined.

End witness.
