(* ===== verification/WalCodec.v ===== *)
(** * Records of the write-ahead log

    [src/consensus/walstore/record.go] and [codec.go]: the envelopes of log
    entries and prune marks, and their encoding.

    Hashes and addresses are arrays of four 64-bit limbs.  A value is inspected
    by reflection and must be such an array too ([v_array]).  A decoder is the
    sequence of the bytes it has not read yet.  The second part proves that what is
    written is read back. *)
From stdpp Require Import prelude gmap list.
From Stdlib Require Import ZArith Lia.
From S2P Require Import Prelude ConsensusTypes Felt.

Local Open Scope Z_scope.

(** ** Bytes *)

(** [binary.LittleEndian] *)
Definition le_bytes (n : nat) (v : Z) : list Z := reverse (be_bytes n v).
Definition le_val (l : list Z) : Z := be_val (reverse l).
#[global] Arguments le_bytes : simpl never.
#[global] Arguments le_val : simpl never.

(** A type of arrays of four [uint64]. *)
Class Limbs (T : Type) := {
  limbs : T -> list Z;
  of_limbs : list Z -> T;
}.

Class WALValue (V : Type) := {
  v_array : bool; (* the type is an array of four [uint64] *)
  v_limbs : V -> list Z;
  v_of_limbs : list Z -> V;
}.

Inductive walError : Type :=
| ErrUnexpectedEOF
| InvalidPresence (b : Z)
| UnknownRecordKind (k : Z)
| UnknownEntryKind (k : Z)
| UnexpectedRemaining (n : Z)
| UnsupportedValue
| TooManyRecords
| BatchError
| CountMismatch (count seen : Z)
| UnexpectedKeyKind (k : Z).

(** ** [record.go] *)

Definition walRecordEntry : Z := 1.
Definition walRecordPruneUpToHeight : Z := 2.

Definition walEntryStart : Z := 1.
Definition walEntryProposal : Z := 2.
Definition walEntryPrevote : Z := 3.
Definition walEntryPrecommit : Z := 4.
Definition walEntryTimeout : Z := 5.

Section definitions.
Context {V H A : Type} `{!Limbs H} `{!Limbs A} `{!WALValue V}.

Record walRecordEnvelope := mkEnvelope {
  Kind : Z;
  EntryKind : Z;
  StartHeight : Z;
  ProposalEntry : option (Proposal V A);
  PrevoteEntry : option (Vote H A);
  PrecommitEntry : option (Vote H A);
  TimeoutEntry : option Timeout;
  env_Height : Z;
}.

(** An envelope of a kind with the other fields at their zero values. *)
Definition new_envelope (k : Z) : walRecordEnvelope := mkEnvelope k 0 0 None None None None 0.

Definition with_height (e : walRecordEnvelope) (h : Z) : walRecordEnvelope :=
  mkEnvelope (Kind e) (EntryKind e) (StartHeight e) (ProposalEntry e) (PrevoteEntry e)
    (PrecommitEntry e) (TimeoutEntry e) h.

(** [setEntry] copies what the entry points to: a start entry of the state
    machine points to its height field, whose content is [own]. *)
Definition setEntry (own : Z) (e : walRecordEnvelope) (entry : walEntry V H A) : walRecordEnvelope :=
  match entry with
  | WALStart p =>
      mkEnvelope (Kind e) walEntryStart (match p with OwnHeight => own | AtHeight h => h end)
        (ProposalEntry e) (PrevoteEntry e) (PrecommitEntry e) (TimeoutEntry e) (env_Height e)
  | WALProposal p =>
      mkEnvelope (Kind e) walEntryProposal (StartHeight e) (Some p) (PrevoteEntry e)
        (PrecommitEntry e) (TimeoutEntry e) (env_Height e)
  | WALPrevote v =>
      mkEnvelope (Kind e) walEntryPrevote (StartHeight e) (ProposalEntry e) (Some v)
        (PrecommitEntry e) (TimeoutEntry e) (env_Height e)
  | WALPrecommit v =>
      mkEnvelope (Kind e) walEntryPrecommit (StartHeight e) (ProposalEntry e) (PrevoteEntry e)
        (Some v) (TimeoutEntry e) (env_Height e)
  | WALTimeout t =>
      mkEnvelope (Kind e) walEntryTimeout (StartHeight e) (ProposalEntry e) (PrevoteEntry e)
        (PrecommitEntry e) (Some t) (env_Height e)
  end.

(** A nil pointer of the envelope. *)
Definition or_panic {E T U} (f : T -> U) (o : option T) : outcome E U :=
  match o with Some x => Ok (f x) | None => Panic end.

Definition entry {E} (e : walRecordEnvelope) : outcome E (walEntry V H A) :=
  if EntryKind e =? walEntryStart then Ok (WALStart (AtHeight (StartHeight e)))
  else if EntryKind e =? walEntryProposal then or_panic WALProposal (ProposalEntry e)
  else if EntryKind e =? walEntryPrevote then or_panic WALPrevote (PrevoteEntry e)
  else if EntryKind e =? walEntryPrecommit then or_panic WALPrecommit (PrecommitEntry e)
  else if EntryKind e =? walEntryTimeout then or_panic WALTimeout (TimeoutEntry e)
  else Panic.

(** ** [codec.go]: encoding *)

Definition appendUint64 (payload : list Z) (v : Z) : list Z := payload ++ le_bytes 8 v.
Definition appendInt64 (payload : list Z) (v : Z) : list Z := appendUint64 payload (u64 v).

Definition appendUint64Array {T} `{!Limbs T} (payload : list Z) (v : T) : list Z :=
  foldl appendUint64 payload (limbs v).

Definition valueToUint64Array (v : V) : outcome walError (list Z) :=
  if v_array then Ok (v_limbs v) else Err UnsupportedValue.

Definition uint64ArrayToValue (l : list Z) : outcome walError V :=
  if v_array then Ok (v_of_limbs l) else Err UnsupportedValue.

Definition appendValue (payload : list Z) (v : V) : outcome walError (list Z) :=
  l ← valueToUint64Array v; mret (foldl appendUint64 payload l).

Definition appendMessageHeader (payload : list Z) (hd : MessageHeader A) : list Z :=
  appendUint64Array (appendInt64 (appendUint64 payload (Height hd)) (Round hd)) (Sender hd).

Definition appendVotePayload (payload : list Z) (v : Vote H A) : list Z :=
  let payload := appendMessageHeader payload (vote_header v) in
  match ID v with
  | None => payload ++ [0]
  | Some id => appendUint64Array (payload ++ [1]) id
  end.

Definition appendProposalPayload (payload : list Z) (p : Proposal V A) : outcome walError (list Z) :=
  let payload := appendMessageHeader payload (proposal_header p) in
  let payload := appendInt64 payload (ValidRound p) in
  match Value p with
  | None => Ok (payload ++ [0])
  | Some v => appendValue (payload ++ [1]) v
  end.

Definition appendTimeoutPayload (payload : list Z) (t : Timeout) : list Z :=
  appendInt64 (appendUint64 (payload ++ [tm_Step t]) (tm_Height t)) (tm_Round t).

(** A nil entry is dereferenced. *)
Definition with_entry {T} (o : option T) (k : T -> outcome walError (list Z)) : outcome walError (list Z) :=
  match o with Some x => k x | None => Panic end.

Definition appendWALRecordPayload (payload : list Z) (r : walRecordEnvelope) : outcome walError (list Z) :=
  let payload := payload ++ [Kind r] in
  if Kind r =? walRecordEntry then
    let payload := payload ++ [EntryKind r] in
    if EntryKind r =? walEntryStart then Ok (appendUint64 payload (StartHeight r))
    else if EntryKind r =? walEntryProposal then
      with_entry (ProposalEntry r) (appendProposalPayload payload)
    else if EntryKind r =? walEntryPrevote then
      with_entry (PrevoteEntry r) (fun v => Ok (appendVotePayload payload v))
    else if EntryKind r =? walEntryPrecommit then
      with_entry (PrecommitEntry r) (fun v => Ok (appendVotePayload payload v))
    else if EntryKind r =? walEntryTimeout then
      with_entry (TimeoutEntry r) (fun t => Ok (appendTimeoutPayload payload t))
    else Err (UnknownEntryKind (EntryKind r))
  else if Kind r =? walRecordPruneUpToHeight then Ok (appendUint64 payload (env_Height r))
  else Err (UnknownRecordKind (Kind r)).

(** Five bytes with seven bits each, the first four with the continuation bit. *)
Definition putFixedUvarint32 (v : Z) : list Z :=
  [Z.lor (u8 v) 128; Z.lor (u8 (Z.shiftr v 7)) 128; Z.lor (u8 (Z.shiftr v 14)) 128;
   Z.lor (u8 (Z.shiftr v 21)) 128; u8 (Z.shiftr v 28)].

Definition u32 (x : Z) : Z := x mod 2 ^ 32.

(** [keyKindSet] is Pebble's [InternalKeyKindSet]. *)
Variable keyKindSet : Z.

(** The records of a batch from the index [i] on. *)
Fixpoint encodeRecords (i : Z) (records : list walRecordEnvelope) : outcome walError (list Z) :=
  match records with
  | [] => Ok []
  | r :: records' =>
      payload ← appendWALRecordPayload [] r;
      rest ← encodeRecords (i + 1) records';
      mret ([keyKindSet; 4] ++ be_bytes 4 (u32 i) ++
            putFixedUvarint32 (u32 (Z.of_nat (length payload))) ++ payload ++ rest)
  end.

Definition encodeBatch (records : list walRecordEnvelope) (seqNum : Z) : outcome walError (list Z) :=
  if 2 ^ 32 - 1 <? Z.of_nat (length records) then Err TooManyRecords
  else
    body ← encodeRecords 0 records;
    mret (le_bytes 8 seqNum ++ le_bytes 4 (Z.of_nat (length records)) ++ body).

(** ** [codec.go]: decoding *)

Abbreviation decoder := (SE (list Z) walError).

Definition remaining : decoder Z := gets (fun d => Z.of_nat (length d)).

Definition readByte : decoder Z :=
  d ← get_state;
  match d with
  | [] => fail ErrUnexpectedEOF
  | b :: d' => put_state d';; mret b
  end.

Definition readPresenceByte : decoder bool :=
  b ← readByte;
  if b =? 0 then mret false else if b =? 1 then mret true else fail (InvalidPresence b).

Definition readUint64 : decoder Z :=
  n ← remaining;
  if n <? 8 then fail ErrUnexpectedEOF
  else
    d ← get_state;
    put_state (drop 8 d);; mret (le_val (take 8 d)).

Definition readHeight : decoder Z := readUint64.
Definition readRound : decoder Z := v ← readUint64; mret (i64 v).

Definition readUint64Array : decoder (list Z) :=
  a ← readUint64; b ← readUint64; c ← readUint64; d ← readUint64; mret [a; b; c; d].

Definition readMessageHeader : decoder (MessageHeader A) :=
  h ← readHeight; r ← readRound; s ← readUint64Array; mret (mkHeader h r (of_limbs s)).

Definition readValue : decoder V := l ← readUint64Array; lift (uint64ArrayToValue l).

Definition decodeProposalRecord : decoder (Proposal V A) :=
  hd ← readMessageHeader;
  vr ← readRound;
  hasValue ← readPresenceByte;
  if (hasValue : bool) then v ← readValue; mret (mkProposal hd vr (Some v))
  else mret (mkProposal hd vr None).

Definition decodeVotePayload : decoder (Vote H A) :=
  hd ← readMessageHeader;
  hasID ← readPresenceByte;
  if (hasID : bool) then l ← readUint64Array; mret (mkVote hd (Some (of_limbs l)))
  else mret (mkVote hd None).

Definition decodeTimeoutRecord : decoder Timeout :=
  s ← readByte; h ← readHeight; r ← readRound; mret (mkTimeout s h r).

Definition decodeWALEntryRecord (k : Z) : decoder walRecordEnvelope :=
  entryKind ← readByte;
  if entryKind =? walEntryStart then
    h ← readHeight; mret (mkEnvelope k entryKind h None None None None 0)
  else if entryKind =? walEntryProposal then
    p ← decodeProposalRecord; mret (mkEnvelope k entryKind 0 (Some p) None None None 0)
  else if entryKind =? walEntryPrevote then
    v ← decodeVotePayload; mret (mkEnvelope k entryKind 0 None (Some v) None None 0)
  else if entryKind =? walEntryPrecommit then
    v ← decodeVotePayload; mret (mkEnvelope k entryKind 0 None None (Some v) None 0)
  else if entryKind =? walEntryTimeout then
    t ← decodeTimeoutRecord; mret (mkEnvelope k entryKind 0 None None None (Some t) 0)
  else fail (UnknownEntryKind entryKind).

Definition decode_record : decoder walRecordEnvelope :=
  kind ← readByte;
  r ← (if kind =? walRecordEntry then decodeWALEntryRecord kind
       else if kind =? walRecordPruneUpToHeight then
         h ← readHeight; mret (with_height (new_envelope kind) h)
       else fail (UnknownRecordKind kind));
  n ← remaining;
  if negb (n =? 0) then fail (UnexpectedRemaining n) else mret r.

Definition decodeWALRecord (payload : list Z) : outcome walError walRecordEnvelope :=
  (decode_record payload).1.

End definitions.

(** * Reading the log back

    Decoding the payload of a record gives the record, for every entry the
    state machine logs and every prune mark. *)

Class LimbsLaws (T : Type) `{!Limbs T} : Prop := {
  limbs_length (x : T) : length (limbs x) = 4%nat;
  limbs_range (x : T) : Forall (fun v => is_u64 v) (limbs x);
  of_limbs_limbs (x : T) : of_limbs (limbs x) = x;
}.

Class WALValueLaws (V : Type) `{!WALValue V} : Prop := {
  v_is_array : v_array = true;
  v_limbs_length (x : V) : length (v_limbs x) = 4%nat;
  v_limbs_range (x : V) : Forall (fun v => is_u64 v) (v_limbs x);
  v_of_limbs_limbs (x : V) : v_of_limbs (v_limbs x) = x;
}.

(** ** Little-endian bytes *)

Lemma length_le_bytes n v : length (le_bytes n v) = n.
Proof. unfold le_bytes. by rewrite length_reverse, length_be_bytes. Qed.

Lemma le_val_bytes n v : 0 <= v < 256 ^ Z.of_nat n -> le_val (le_bytes n v) = v.
Proof.
  intros Hv. unfold le_val, le_bytes. rewrite reverse_involutive, be_val_bytes. by apply Z.mod_small.
Qed.

Lemma i64_u64 r : is_i64 r -> i64 (u64 r) = r.
Proof.
  intros Hr. unfold i64, u64. rewrite Zplus_mod_idemp_l, Z.mod_small by lia. lia.
Qed.

(** ** Readers *)

Lemma bind_ok {S E B C} (m : SE S E B) (k : B -> SE S E C) s a s' :
  m s = (Ok a, s') -> (m ≫= k) s = k a s'.
Proof. unfold mbind, SE_bind. by intros ->. Qed.

Section readers.
Context {V H A : Type} `{!Limbs H} `{!Limbs A} `{!WALValue V}
  `{!LimbsLaws H} `{!LimbsLaws A} `{!WALValueLaws V}.

Abbreviation env := (walRecordEnvelope (V:=V) (H:=H) (A:=A)).

Lemma readByte_cons b d : readByte (b :: d) = (Ok b, d).
Proof. done. Qed.

Lemma readUint64_le v d : is_u64 v -> readUint64 (le_bytes 8 v ++ d) = (Ok v, d).
Proof.
  intros Hv. unfold readUint64, remaining.
  rewrite (bind_ok _ _ _ (Z.of_nat (length (le_bytes 8 v ++ d))) (le_bytes 8 v ++ d)) by done.
  rewrite length_app, length_le_bytes. destruct (Z.ltb_spec (Z.of_nat (8 + length d)) 8); [lia|].
  rewrite (bind_ok get_state _ _ (le_bytes 8 v ++ d) (le_bytes 8 v ++ d)) by done.
  rewrite (bind_ok _ _ _ tt (drop 8 (le_bytes 8 v ++ d))) by done.
  rewrite take_app_length', drop_app_length' by (by rewrite length_le_bytes).
  rewrite le_val_bytes by (change (256 ^ Z.of_nat 8) with (2 ^ 64); lia). done.
Qed.

Lemma readRound_le r d : is_i64 r -> readRound (le_bytes 8 (u64 r) ++ d) = (Ok r, d).
Proof.
  intros Hr. unfold readRound. rewrite (bind_ok _ _ _ (u64 r) d) by (apply readUint64_le, u64_range).
  by rewrite i64_u64.
Qed.

(** The bytes of four limbs. *)
Definition limb_bytes (l : list Z) : list Z := l ≫= le_bytes 8.

Lemma foldl_append l p : foldl appendUint64 p l = p ++ limb_bytes l.
Proof.
  revert p. induction l as [|v l IH]; intros p; simpl; [by rewrite app_nil_r|].
  rewrite IH. unfold appendUint64. by rewrite <- app_assoc.
Qed.

Lemma readUint64Array_limbs l d :
  length l = 4%nat -> Forall (fun v => is_u64 v) l -> readUint64Array (limb_bytes l ++ d) = (Ok l, d).
Proof.
  intros Hl Hr. destruct l as [|a [|b [|c [|e [|]]]]]; simpl in Hl; try lia.
  apply Forall_cons in Hr as [Ha Hr]. apply Forall_cons in Hr as [Hb Hr].
  apply Forall_cons in Hr as [Hc Hr]. apply Forall_cons in Hr as [He _].
  change (limb_bytes [a; b; c; e]) with (le_bytes 8 a ++ le_bytes 8 b ++ le_bytes 8 c ++ le_bytes 8 e ++ []).
  unfold readUint64Array. rewrite <- !app_assoc.
  rewrite (bind_ok _ _ _ a _ (readUint64_le a _ Ha)), (bind_ok _ _ _ b _ (readUint64_le b _ Hb)).
  rewrite (bind_ok _ _ _ c _ (readUint64_le c _ Hc)), (bind_ok _ _ _ e _ (readUint64_le e _ He)). done.
Qed.

Definition header_ok (hd : MessageHeader A) : Prop := is_u64 (Height hd) /\ is_i64 (Round hd).

Definition header_bytes (hd : MessageHeader A) : list Z :=
  le_bytes 8 (Height hd) ++ le_bytes 8 (u64 (Round hd)) ++ limb_bytes (limbs (Sender hd)).

Lemma appendMessageHeader_bytes p hd : appendMessageHeader p hd = p ++ header_bytes hd.
Proof.
  unfold appendMessageHeader, appendUint64Array. rewrite foldl_append.
  unfold appendInt64, appendUint64, header_bytes. by rewrite <- !app_assoc.
Qed.

Lemma readMessageHeader_bytes hd d :
  header_ok hd -> readMessageHeader (header_bytes hd ++ d) = (Ok hd, d).
Proof.
  intros [Hh Hr]. unfold readMessageHeader, header_bytes. rewrite <- !app_assoc.
  rewrite (bind_ok _ _ _ _ _ (readUint64_le _ _ Hh)), (bind_ok _ _ _ _ _ (readRound_le _ _ Hr)).
  rewrite (bind_ok _ _ _ _ _ (readUint64Array_limbs _ _ (limbs_length _) (limbs_range _))).
  rewrite of_limbs_limbs. by destruct hd.
Qed.

(** ** Entries *)

Definition vote_ok (v : Vote H A) : Prop := header_ok (vote_header v).
Definition proposal_ok (p : Proposal V A) : Prop := header_ok (proposal_header p) /\ is_i64 (ValidRound p).
Definition timeout_ok (t : Timeout) : Prop := is_u8 (tm_Step t) /\ is_u64 (tm_Height t) /\ is_i64 (tm_Round t).

Definition vote_bytes (v : Vote H A) : list Z :=
  header_bytes (vote_header v) ++
    match ID v with None => [0] | Some id => 1 :: limb_bytes (limbs id) end.

Lemma appendVotePayload_bytes p v : appendVotePayload p v = p ++ vote_bytes v.
Proof.
  unfold appendVotePayload, vote_bytes. rewrite appendMessageHeader_bytes.
  destruct (ID v); unfold appendUint64Array; rewrite ?foldl_append, <- !app_assoc; done.
Qed.

Lemma decodeVotePayload_bytes v d : vote_ok v -> decodeVotePayload (vote_bytes v ++ d) = (Ok v, d).
Proof.
  intros Hv. unfold decodeVotePayload, vote_bytes. rewrite <- app_assoc.
  rewrite (bind_ok _ _ _ _ _ (readMessageHeader_bytes _ _ Hv)).
  destruct v as [hd [id|]]; simpl ID; simpl vote_header.
  - rewrite (bind_ok _ _ _ true (limb_bytes (limbs id) ++ d)) by done.
    rewrite (bind_ok _ _ _ _ _ (readUint64Array_limbs _ _ (limbs_length _) (limbs_range _))).
    by rewrite of_limbs_limbs.
  - by rewrite (bind_ok _ _ _ false d) by done.
Qed.

Definition proposal_bytes (p : Proposal V A) : list Z :=
  header_bytes (proposal_header p) ++ le_bytes 8 (u64 (ValidRound p)) ++
    match Value p with None => [0] | Some v => 1 :: limb_bytes (v_limbs v) end.

Lemma appendProposalPayload_bytes b (p : Proposal V A) :
  appendProposalPayload b p = Ok (b ++ proposal_bytes p).
Proof.
  unfold appendProposalPayload, proposal_bytes. rewrite appendMessageHeader_bytes.
  unfold appendInt64, appendUint64. destruct (Value p) as [v|].
  - unfold appendValue, valueToUint64Array. rewrite v_is_array. simpl. rewrite foldl_append.
    unfold mret, outcome_ret. f_equal. by rewrite <- !app_assoc.
  - f_equal. by rewrite <- !app_assoc.
Qed.

Lemma decodeProposalRecord_bytes (p : Proposal V A) d :
  proposal_ok p -> decodeProposalRecord (proposal_bytes p ++ d) = (Ok p, d).
Proof.
  intros [Hh Hr]. unfold decodeProposalRecord, proposal_bytes. rewrite <- !app_assoc.
  rewrite (bind_ok _ _ _ _ _ (readMessageHeader_bytes _ _ Hh)), (bind_ok _ _ _ _ _ (readRound_le _ _ Hr)).
  destruct p as [hd vr [v|]]; simpl Value; simpl proposal_header; simpl ValidRound.
  - rewrite (bind_ok _ _ _ true (limb_bytes (v_limbs v) ++ d)) by done.
    rewrite (bind_ok readValue _ _ v d); [done|]. unfold readValue.
    rewrite (bind_ok _ _ _ _ _ (readUint64Array_limbs _ _ (v_limbs_length _) (v_limbs_range _))).
    unfold uint64ArrayToValue. by rewrite v_is_array, v_of_limbs_limbs.
  - by rewrite (bind_ok _ _ _ false d) by done.
Qed.

Definition timeout_bytes (t : Timeout) : list Z :=
  tm_Step t :: le_bytes 8 (tm_Height t) ++ le_bytes 8 (u64 (tm_Round t)).

Lemma appendTimeoutPayload_bytes b t : appendTimeoutPayload b t = b ++ timeout_bytes t.
Proof.
  unfold appendTimeoutPayload, appendInt64, appendUint64, timeout_bytes. by rewrite <- !app_assoc.
Qed.

Lemma decodeTimeoutRecord_bytes t d : timeout_ok t -> decodeTimeoutRecord (timeout_bytes t ++ d) = (Ok t, d).
Proof.
  intros (_ & Hh & Hr). unfold decodeTimeoutRecord, timeout_bytes. cbn [app]. rewrite <- app_assoc.
  rewrite (bind_ok _ _ _ _ _ (readByte_cons _ _)), (bind_ok _ _ _ _ _ (readUint64_le _ _ Hh)).
  rewrite (bind_ok _ _ _ _ _ (readRound_le _ _ Hr)). by destruct t.
Qed.

(** ** Records *)

(** The entries the state machine and the driver produce. *)
Definition entry_ok (own : Z) (e : walEntry V H A) : Prop :=
  match e with
  | WALStart OwnHeight => is_u64 own
  | WALStart (AtHeight h) => is_u64 h
  | WALProposal p => proposal_ok p
  | WALPrevote v | WALPrecommit v => vote_ok v
  | WALTimeout t => timeout_ok t
  end.

(** The entry with the height a start entry refers to. *)
Definition settled (own : Z) (e : walEntry V H A) : walEntry V H A :=
  match e with
  | WALStart OwnHeight => WALStart (AtHeight own)
  | _ => e
  end.

(** A record of the store. *)
Inductive record_ok : env -> Prop :=
| record_entry own e : entry_ok own e -> record_ok (setEntry own (new_envelope walRecordEntry) e)
| record_prune h : is_u64 h -> record_ok (with_height (new_envelope walRecordPruneUpToHeight) h).

Definition payload_bytes (r : env) : list Z :=
  Kind r :: (if Kind r =? walRecordEntry then
    EntryKind r ::
      (if EntryKind r =? walEntryStart then le_bytes 8 (StartHeight r)
       else default [] (
         (proposal_bytes <$> ProposalEntry r) ∪ (vote_bytes <$> PrevoteEntry r) ∪
         (vote_bytes <$> PrecommitEntry r) ∪ (timeout_bytes <$> TimeoutEntry r)))
   else le_bytes 8 (env_Height r)).

Lemma append_payload b r : record_ok r -> appendWALRecordPayload b r = Ok (b ++ payload_bytes r).
Proof.
  intros [own e He|h Hh]; [destruct e as [p|p|v|v|t]|]; unfold appendWALRecordPayload, payload_bytes; simpl.
  - unfold appendUint64. by rewrite <- !app_assoc.
  - rewrite appendProposalPayload_bytes. by rewrite <- !app_assoc.
  - rewrite appendVotePayload_bytes. by rewrite <- !app_assoc.
  - rewrite appendVotePayload_bytes. by rewrite <- !app_assoc.
  - rewrite appendTimeoutPayload_bytes. by rewrite <- !app_assoc.
  - unfold appendUint64. by rewrite <- !app_assoc.
Qed.

Lemma decode_end (k : SE (list Z) walError env) d r :
  k d = (Ok r, []) ->
  (r ← k; n ← remaining; if negb (n =? 0) then fail (UnexpectedRemaining n) else mret r) d = (Ok r, []).
Proof. intros E. by rewrite (bind_ok _ _ _ _ _ E). Qed.

Lemma decode_payload r : record_ok r -> decodeWALRecord (payload_bytes r) = Ok r.
Proof.
  assert (Hnil : forall (l : list Z), l = l ++ []) by (intros; by rewrite app_nil_r).
  intros Hr. enough (E : decode_record (payload_bytes r) = (Ok r, [])) by (unfold decodeWALRecord; by rewrite E).
  destruct Hr as [own e He|h Hh]; [destruct e as [p|p|v|v|t]|]; unfold decode_record, payload_bytes; simpl;
    rewrite (bind_ok _ _ _ _ _ (readByte_cons _ _)); simpl; apply decode_end; try unfold decodeWALEntryRecord;
    try rewrite (bind_ok _ _ _ _ _ (readByte_cons _ _)); simpl.
  - assert (Hp : is_u64 (match p with OwnHeight => own | AtHeight h => h end)) by (by destruct p).
    rewrite (Hnil (le_bytes _ _)). by rewrite (bind_ok _ _ _ _ _ (readUint64_le _ _ Hp)).
  - rewrite (Hnil (proposal_bytes _)). by rewrite (bind_ok _ _ _ _ _ (decodeProposalRecord_bytes _ _ He)).
  - rewrite (Hnil (vote_bytes _)). by rewrite (bind_ok _ _ _ _ _ (decodeVotePayload_bytes _ _ He)).
  - rewrite (Hnil (vote_bytes _)). by rewrite (bind_ok _ _ _ _ _ (decodeVotePayload_bytes _ _ He)).
  - rewrite (Hnil (timeout_bytes _)). by rewrite (bind_ok _ _ _ _ _ (decodeTimeoutRecord_bytes _ _ He)).
  - rewrite (Hnil (le_bytes _ _)). by rewrite (bind_ok _ _ _ _ _ (readUint64_le _ _ Hh)).
Qed.

Lemma entry_setEntry {E} own e k :
  entry (E:=E) (setEntry own (new_envelope k) e) = Ok (settled own e).
Proof. by destruct e as [[]| | | |]. Qed.

(** every entry the state machine logs is encoded without an error, and
    decoding the bytes gives back the record and from it the entry, a start
    entry with the height it referred to when it was logged. *)
Theorem wal_record_roundtrip own e :
  entry_ok own e ->
  exists payload,
    appendWALRecordPayload [] (setEntry own (new_envelope walRecordEntry) e) = Ok payload /\
    decodeWALRecord payload = Ok (setEntry own (new_envelope walRecordEntry) e) /\
    entry (E:=walError) (setEntry own (new_envelope walRecordEntry) e) = Ok (settled own e).
Proof.
  intros He%record_entry. exists ([] ++ payload_bytes (setEntry own (new_envelope walRecordEntry) e)).
  split_and!; [by apply append_payload|by apply decode_payload|apply entry_setEntry].
Qed.

End readers.
