(* ===== verification/WalStore.v ===== *)
(** * The write-ahead log of the consensus

    [src/consensus/walstore]: the index of live entries ([wal_index.go]), the
    writer of log files ([wal_writer.go]), the store ([wal_store.go]), the
    prune watermark and the recovery from the files ([replay.go]).

    The directory of the log is part of the state: the bytes of every file and the
    prune watermark.  Every operation that does I/O takes the outcomes of the calls
    ([io]); any of them may fail.  Pebble's format of log files and its batch
    reader are parameters. *)
From stdpp Require Import prelude gmap list sorting strings.
From Stdlib Require Import ZArith Lia.
From S2P Require Import Prelude Felt ConsensusTypes WalCodec.

Local Open Scope Z_scope.

(** ** [wal_index.go]: sets of file numbers *)

Record walNumSet := mkNumSet {
  first : Z;
  rest : list Z;
}.

Definition emptyNumSet : walNumSet := mkNumSet 0 [].

Definition addIfMissing (s : walNumSet) (walNum : Z) : bool * walNumSet :=
  if first s =? 0 then (true, mkNumSet walNum (rest s))
  else if (first s =? walNum) || bool_decide (walNum ∈ rest s) then (false, s)
  else (true, mkNumSet (first s) (rest s ++ [walNum])).

(** [rangeOver]: the numbers the function is called with. *)
Definition rangeOver (s : walNumSet) : list Z :=
  if first s =? 0 then [] else first s :: rest s.

(** ** Pebble's log files

    The bytes of a record that is written at an offset of a file, the bytes that
    closing a file appends, and reading a file from an offset: a record and the
    offset after it, the end, an invalid record or an error. *)

Inductive readResult : Type :=
| ReadRecord (b : list Z) (next : Z)
| ReadEof
| ReadInvalid
| ReadFailed.

Class PebbleLog := {
  pl_frame : Z -> list Z -> list Z;
  pl_trailer : Z -> list Z;
  pl_next : list Z -> Z -> readResult;
}.

(** ** The directory *)

Record walDir := mkDir {
  d_logs : list (Z * list Z); (* number and bytes of each file, by increasing number *)
  d_watermark : option (list Z); (* the content of the file of the watermark *)
}.

Definition emptyDir : walDir := mkDir [] None.

Definition lookup_file (n : Z) (logs : list (Z * list Z)) : option (list Z) :=
  head (omap (fun x => if x.1 =? n then Some x.2 else None) logs).

Definition alter_file (n : Z) (f : list Z -> list Z) (logs : list (Z * list Z)) : list (Z * list Z) :=
  (fun x => if x.1 =? n then (x.1, f x.2) else x) <$> logs.

(** The file of the watermark is replaced, or left alone, or replaced although
    its directory cannot be synced. *)
Inductive watermarkIO : Type := WatermarkOk | WatermarkFailed | WatermarkUnsynced.

(** A file is truncated, or left alone, or truncated although it cannot be synced
    or closed. *)
Inductive repairIO : Type := RepairOk | RepairFailed | RepairUnsynced.

(** The outcomes of the calls of one operation. *)
Record io := mkIO {
  io_create : bool; (* a log file is created *)
  io_write : bool; (* the batch is written and synced *)
  io_left : nat; (* how many bytes a failed write or close leaves in the file *)
  io_close : bool; (* the file is closed *)
  io_repair : repairIO;
  io_watermark : watermarkIO;
  io_obsolete : option (list Z); (* the files the manager lets the store remove *)
  io_remove : Z -> bool; (* the file is removed *)
  io_manager : bool; (* the manager is closed *)
}.

Definition io_ok : io := mkIO true true 0 true RepairOk WatermarkOk (Some []) (fun _ => true) true.

(** ** [wal_writer.go] *)

Record walWriter := mkWriter {
  dir : walDir;
  nextWALNum : Z;
  writerOpen : bool; (* [writer != nil] *)
  currentWALNum : Z;
  currentWALSyncedOffset : Z;
  repairRequired : bool;
}.

Inductive storeError : Type :=
| ErrClosed
| ErrEncode (e : walError)
| ErrRepairRequired
| ErrRepair
| ErrReadWAL (walNum : Z)
| ErrCreate
| ErrWrite
| ErrWatermark
| ErrWatermarkSize (n : Z)
| ErrWatermarkHeader
| ErrRotate
| ErrObsolete
| ErrRemove (walNum : Z)
| ErrReplay (e : walError).

Definition newWALWriter (d : walDir) (next : Z) : walWriter := mkWriter d next false 0 0 false.

Definition initialWALNum : Z := 1.
Definition initialSeqNum : Z := 1.
Definition cleanupPruneRecordInterval : Z := 256.

(** One more than the largest number. *)
Definition nextWALNum_of (logs : list (Z * list Z)) : Z :=
  foldl (fun next x => if next <? u64 (x.1 + 1) then u64 (x.1 + 1) else next) initialWALNum logs.

Abbreviation WM := (SE walWriter storeError).

(** [repairWALTail]: whether it returned an error, and the directory. *)
Definition repairWALTail (r : repairIO) (walNum syncedOffset : Z) (d : walDir) : bool * walDir :=
  match lookup_file walNum (d_logs d) with
  | None => (false, d)
  | Some bytes =>
      let size := Z.of_nat (length bytes) in
      let syncedOffset := if size <? syncedOffset then size else syncedOffset in
      let cut := mkDir (alter_file walNum (take (Z.to_nat syncedOffset)) (d_logs d)) (d_watermark d) in
      match r with
      | RepairOk => (false, cut)
      | RepairFailed => (true, d)
      | RepairUnsynced => (true, cut)
      end
  end.

Definition repairWALTailIfLonger (r : repairIO) (walNum syncedOffset : Z) (d : walDir) : bool * walDir :=
  match lookup_file walNum (d_logs d) with
  | None => (false, d)
  | Some bytes =>
      if Z.of_nat (length bytes) <=? syncedOffset then (false, d) else repairWALTail r walNum syncedOffset d
  end.

Definition ensureWriter (i : io) : WM Z :=
  w ← get_state;
  if repairRequired w then fail ErrRepairRequired
  else if writerOpen w then mret (currentWALNum w)
  else if io_create i then
    let d := dir w in
    put_state (mkWriter (mkDir (d_logs d ++ [(nextWALNum w, [])]) (d_watermark d))
                 (u64 (nextWALNum w + 1)) true (nextWALNum w) 0 (repairRequired w));;
    mret (nextWALNum w)
  else fail ErrCreate.

(** [closeCurrent]: whether it returned an error.  [left] is what reaches the file
    until it is closed. *)
Definition closeCurrent (i : io) (left : list Z) (w : walWriter) : bool * walWriter :=
  if negb (writerOpen w) then (false, w)
  else
    let d := dir w in
    (negb (io_close i),
     mkWriter (mkDir (alter_file (currentWALNum w) (fun bytes => bytes ++ left) (d_logs d)) (d_watermark d))
       (nextWALNum w) false 0 0 (repairRequired w)).

Definition set_repair (w : walWriter) (d : walDir) (b : bool) : walWriter :=
  mkWriter d (nextWALNum w) (writerOpen w) (currentWALNum w) (currentWALSyncedOffset w) b.

(** Whether it returned an error. *)
Definition closeAndRepairCurrent (i : io) (left : list Z) (repairOffset : Z) (forceRepair : bool)
    (w : walWriter) : bool * walWriter :=
  if negb (writerOpen w) then (false, w)
  else
    let walNum := currentWALNum w in
    let '(closeErr, w) := closeCurrent i left w in
    if negb closeErr && negb forceRepair then (false, set_repair w (dir w) false)
    else
      let '(repairErr, d) := repairWALTail (io_repair i) walNum repairOffset (dir w) in
      if (repairErr : bool) then (true, set_repair w d true) else (closeErr, set_repair w d false).

Section writer.
Context {PL : PebbleLog}.

(** The size of the open file. *)
Definition current_size (w : walWriter) : Z :=
  match lookup_file (currentWALNum w) (d_logs (dir w)) with Some bytes => Z.of_nat (length bytes) | None => 0 end.

(** Closing a file appends its trailer; an error may leave a part of it. *)
Definition closing (i : io) (w : walWriter) : list Z :=
  if io_close i then pl_trailer (current_size w) else take (io_left i) (pl_trailer (current_size w)).

Definition rotateAfterSynced (i : io) (w : walWriter) : bool * walWriter :=
  closeAndRepairCurrent i (closing i w) (currentWALSyncedOffset w) false w.
Definition abortUncommitted (i : io) (left : list Z) (w : walWriter) : bool * walWriter :=
  closeAndRepairCurrent i left (currentWALSyncedOffset w) true w.
Definition wal_close (i : io) (w : walWriter) : bool * walWriter :=
  closeAndRepairCurrent i (closing i w) (currentWALSyncedOffset w) false w.

(** [appendSync]: a failed write or sync, and the close after it, leave a part of
    what was to be written. *)
Definition appendSync (i : io) (encodedBatch : list Z) : WM Z :=
  walNum ← ensureWriter i;
  w ← get_state;
  let d := dir w in
  let size := current_size w in
  let bytes := pl_frame size encodedBatch in
  let logicalOffset := size + Z.of_nat (length bytes) in
  if io_write i then
    put_state (mkWriter (mkDir (alter_file walNum (fun x => x ++ bytes) (d_logs d)) (d_watermark d))
                 (nextWALNum w) (writerOpen w) (currentWALNum w) logicalOffset (repairRequired w));;
    mret walNum
  else
    put_state (abortUncommitted i (take (io_left i) (bytes ++ pl_trailer logicalOffset)) w).2;;
    fail ErrWrite.

(** [recoverLatestWALTail]: the last file is read to its end, and what is behind
    the last record is cut off. *)
Definition repaired (x : bool * walDir) : outcome storeError unit * walDir :=
  (if x.1 then Err ErrRepair else Ok tt, x.2).

Fixpoint recover_loop (fuel : nat) (r : repairIO) (walNum : Z) (bytes : list Z) (offset : Z)
  : SE walDir storeError unit := fun d =>
  match fuel with
  | O => (NoFuel, d)
  | S fuel' =>
      match pl_next bytes offset with
      | ReadRecord _ next => recover_loop fuel' r walNum bytes next d
      | ReadEof => repaired (repairWALTailIfLonger r walNum offset d)
      | ReadInvalid => repaired (repairWALTail r walNum offset d)
      | ReadFailed => (Err (ErrReadWAL walNum), d)
      end
  end.

Definition recoverLatestWALTail (r : repairIO) : SE walDir storeError unit := fun d =>
  match last (d_logs d) with
  | None => (Ok tt, d)
  | Some (walNum, bytes) => recover_loop (S (length bytes)) r walNum bytes 0 d
  end.

End writer.

Definition minLiveWALNum (w : walWriter) : Z :=
  if writerOpen w && (currentWALNum w <? nextWALNum w) then currentWALNum w else nextWALNum w.

(** ** [prune_watermark.go] *)

Definition pruneWatermarkHeader : list Z :=
  (fun c => Z.of_N (Ascii.N_of_ascii c)) <$> String.list_ascii_of_string "juno-wal-prune-watermark-v1"%string.

Definition pruneWatermarkSize : Z := Z.of_nat (length pruneWatermarkHeader) + 8.

Definition loadPruneWatermark (d : walDir) : outcome storeError Z :=
  match d_watermark d with
  | None => Ok 0
  | Some data =>
      let n := length pruneWatermarkHeader in
      if negb (Z.of_nat (length data) =? pruneWatermarkSize) then Err (ErrWatermarkSize (Z.of_nat (length data)))
      else if negb (bool_decide (take n data = pruneWatermarkHeader)) then Err ErrWatermarkHeader
      else Ok (be_val (drop n data))
  end.

(** Whether it returned an error, and the new directory. *)
Definition writePruneWatermark (i : io) (height : Z) (d : walDir) : bool * walDir :=
  let replaced := mkDir (d_logs d) (Some (pruneWatermarkHeader ++ be_bytes 8 height)) in
  match io_watermark i with
  | WatermarkOk => (false, replaced)
  | WatermarkFailed => (true, d)
  | WatermarkUnsynced => (true, replaced)
  end.

(** ** [wal_store.go] *)

Section store.
Context {V H A : Type} `{!Limbs H} `{!Limbs A} `{!WALValue V} {PL : PebbleLog}.
Variable keyKindSet : Z.
(** Pebble's [batchrepr]: the header (sequence number and count), and the
    records of a batch (kind and value) with whether the iteration fails. *)
Variable readHeader : list Z -> option (Z * Z).
Variable readRecords : list Z -> list (Z * list Z) * bool.

Abbreviation env := (walRecordEnvelope (V:=V) (H:=H) (A:=A)).
Abbreviation went := (walEntry V H A).

Record tendermintWALStore := mkStore {
  closed : bool;
  wal : walWriter;
  nextBatchSeqNum : Z;
  entriesByHeight : gmap Z (list went);
  walFilesByHeight : gmap Z walNumSet;
  walHeightRefs : gmap Z Z;
  prunedUpToHeight : Z;
  pendingRecords : list env;
  pruneRecordsSinceCleanup : Z;
}.

Abbreviation ST := (SE tendermintWALStore storeError).

Definition set_wal (s : tendermintWALStore) (w : walWriter) : tendermintWALStore :=
  mkStore (closed s) w (nextBatchSeqNum s) (entriesByHeight s) (walFilesByHeight s) (walHeightRefs s)
    (prunedUpToHeight s) (pendingRecords s) (pruneRecordsSinceCleanup s).

Definition set_seq (s : tendermintWALStore) (n : Z) : tendermintWALStore :=
  mkStore (closed s) (wal s) n (entriesByHeight s) (walFilesByHeight s) (walHeightRefs s)
    (prunedUpToHeight s) (pendingRecords s) (pruneRecordsSinceCleanup s).

Definition set_index (s : tendermintWALStore) (es : gmap Z (list went)) (fs : gmap Z walNumSet)
    (refs : gmap Z Z) (pruned : Z) : tendermintWALStore :=
  mkStore (closed s) (wal s) (nextBatchSeqNum s) es fs refs pruned (pendingRecords s)
    (pruneRecordsSinceCleanup s).

Definition set_pendingRecords (s : tendermintWALStore) (l : list env) : tendermintWALStore :=
  mkStore (closed s) (wal s) (nextBatchSeqNum s) (entriesByHeight s) (walFilesByHeight s) (walHeightRefs s)
    (prunedUpToHeight s) l (pruneRecordsSinceCleanup s).

Definition set_cleanup (s : tendermintWALStore) (n : Z) : tendermintWALStore :=
  mkStore (closed s) (wal s) (nextBatchSeqNum s) (entriesByHeight s) (walFilesByHeight s) (walHeightRefs s)
    (prunedUpToHeight s) (pendingRecords s) n.

Definition set_closed (s : tendermintWALStore) : tendermintWALStore :=
  mkStore true (wal s) (nextBatchSeqNum s) (entriesByHeight s) (walFilesByHeight s) (walHeightRefs s)
    (prunedUpToHeight s) (pendingRecords s) (pruneRecordsSinceCleanup s).

(** *** The index *)

(** The height of an entry of the log: it does not point to the state machine. *)
Definition entry_height (e : went) : Z := GetHeight 0 e.

Definition addLiveEntry (walNum : Z) (e : went) (s : tendermintWALStore) : tendermintWALStore :=
  let h := entry_height e in
  let es := <[h := default [] (entriesByHeight s !! h) ++ [e]]> (entriesByHeight s) in
  let '(added, referencedWALs) := addIfMissing (default emptyNumSet (walFilesByHeight s !! h)) walNum in
  if added then
    set_index s es (<[h := referencedWALs]> (walFilesByHeight s))
      (<[walNum := default 0 (walHeightRefs s !! walNum) + 1]> (walHeightRefs s)) (prunedUpToHeight s)
  else set_index s es (walFilesByHeight s) (walHeightRefs s) (prunedUpToHeight s).

(** One reference less. *)
Definition unref (refs : gmap Z Z) (walNum : Z) : gmap Z Z :=
  let n := default 0 (refs !! walNum) - 1 in
  if n =? 0 then delete walNum refs else <[walNum := n]> refs.

Definition deleteLiveHeight (s : tendermintWALStore) (h : Z) : tendermintWALStore :=
  let referencedWALs := default emptyNumSet (walFilesByHeight s !! h) in
  set_index s (delete h (entriesByHeight s)) (delete h (walFilesByHeight s))
    (foldl unref (walHeightRefs s) (rangeOver referencedWALs)) (prunedUpToHeight s).

(** The map is iterated while heights are deleted from it. *)
Definition pruneLiveEntriesUpTo (h : Z) (s : tendermintWALStore) : tendermintWALStore :=
  if h <=? prunedUpToHeight s then s
  else
    let s := set_index s (entriesByHeight s) (walFilesByHeight s) (walHeightRefs s) h in
    foldl deleteLiveHeight s (filter (fun x => x <= h) (map_to_list (entriesByHeight s)).*1).

(** A committed or recovered record.  The panic is the one of [entry]. *)
Definition applyRecord (walNum : Z) (r : env) : ST unit :=
  if Kind r =? walRecordEntry then
    match entry (E:=storeError) r with
    | Ok e =>
        s ← get_state;
        if entry_height e <=? prunedUpToHeight s then mret tt
        else modify (addLiveEntry walNum e)
    | Err e => fail e
    | Panic => panic
    | NoFuel => out_of_fuel
    end
  else if Kind r =? walRecordPruneUpToHeight then modify (pruneLiveEntriesUpTo (env_Height r))
  else mret tt.

Fixpoint updateIndexesFromCommittedRecords (walNum : Z) (records : list env) : ST unit :=
  match records with
  | [] => mret tt
  | r :: records' => applyRecord walNum r;; updateIndexesFromCommittedRecords walNum records'
  end.

(** *** Operations *)

Definition SetWALEntry (own : Z) (e : went) : ST unit :=
  s ← get_state;
  if closed s then fail ErrClosed
  else
    let record := setEntry own (new_envelope walRecordEntry) e in
    if GetHeight own e <=? prunedUpToHeight s then mret tt
    else modify (fun s => set_pendingRecords s (pendingRecords s ++ [record])).

(** The first pending prune record, if any, is raised to the height. *)
Fixpoint raisePrune (h : Z) (l : list env) : option (list env) :=
  match l with
  | [] => None
  | r :: l' =>
      if Kind r =? walRecordPruneUpToHeight then Some (with_height r (Z.max (env_Height r) h) :: l')
      else l'' ← raisePrune h l'; Some (r :: l'')
  end.

Definition DeleteWALEntries (h : Z) : ST unit :=
  s ← get_state;
  if closed s then fail ErrClosed
  else if h <=? prunedUpToHeight s then mret tt
  else
    match raisePrune h (pendingRecords s) with
    | Some l => modify (fun s => set_pendingRecords s l)
    | None =>
        modify (fun s => set_pendingRecords s
          (pendingRecords s ++ [with_height (new_envelope walRecordPruneUpToHeight) h]))
    end.

Definition countPruneRecords (records : list env) : Z :=
  Z.of_nat (length (filter (fun r => Kind r = walRecordPruneUpToHeight) records)).

(** The smallest number a live height refers to, or the writer's. *)
Definition minLive (s : tendermintWALStore) : Z :=
  foldl (fun m n => if n <? m then n else m) (minLiveWALNum (wal s)) (map_to_list (walHeightRefs s)).*1.

(** Remove files until one cannot be removed. *)
Fixpoint removeFiles (remove : Z -> bool) (ns : list Z) (logs : list (Z * list Z))
  : option Z * list (Z * list Z) :=
  match ns with
  | [] => (None, logs)
  | n :: ns' =>
      if remove n then removeFiles remove ns' (filter (fun x => x.1 ≠ n) logs) else (Some n, logs)
  end.

Definition set_dir (w : walWriter) (d : walDir) : walWriter :=
  mkWriter d (nextWALNum w) (writerOpen w) (currentWALNum w) (currentWALSyncedOffset w) (repairRequired w).

(** Whether it returned an error, and the new state.  The manager is asked for
    the files below [minLive]. *)
Definition cleanupObsoleteWALs (i : io) (s : tendermintWALStore) : bool * tendermintWALStore :=
  match io_obsolete i with
  | None => (true, s)
  | Some ns =>
      let w := wal s in
      let '(failed, logs) :=
        removeFiles (io_remove i) (filter (fun n => n < minLive s) ns) (d_logs (dir w)) in
      (bool_decide (is_Some failed),
       set_wal s (set_dir w (mkDir logs (d_watermark (dir w)))))
  end.

Definition removeObsoleteWALFiles (i : io) (pruneRecordCount : Z) (s : tendermintWALStore)
  : bool * tendermintWALStore :=
  if pruneRecordCount =? 0 then (false, s)
  else
    let s := set_cleanup s (u64 (pruneRecordsSinceCleanup s + pruneRecordCount)) in
    if pruneRecordsSinceCleanup s <? cleanupPruneRecordInterval then (false, s)
    else
      let '(watermarkErr, d) := writePruneWatermark i (prunedUpToHeight s) (dir (wal s)) in
      let s := set_wal s (set_dir (wal s) d) in
      if (watermarkErr : bool) then (true, s)
      else
        let '(rotateErr, w) := rotateAfterSynced i (wal s) in
        let '(cleanupErr, s) := cleanupObsoleteWALs i (set_wal s w) in
        (rotateErr || cleanupErr,
         if rotateErr || cleanupErr then s else set_cleanup s 0).

(** Run a computation of the writer in the store. *)
Definition in_writer {T} (m : WM T) : ST T :=
  fun s => let '(o, w) := m (wal s) in (o, set_wal s w).

Definition lift_encode {T} (o : outcome walError T) : ST T :=
  match o with
  | Ok x => mret x
  | Err e => fail (ErrEncode e)
  | Panic => panic
  | NoFuel => out_of_fuel
  end.

(** An error after the commit is returned with the records committed. *)
Definition flushLocked (i : io) : ST unit :=
  s ← get_state;
  if closed s then fail ErrClosed
  else
    match pendingRecords s with
    | [] => mret tt
    | records =>
        encodedBatch ← lift_encode (encodeBatch keyKindSet records (nextBatchSeqNum s));
        walNum ← in_writer (appendSync i encodedBatch);
        modify (fun s => set_seq s (u64 (nextBatchSeqNum s + u32 (Z.of_nat (length records)))));;
        updateIndexesFromCommittedRecords walNum records;;
        s ← get_state;
        let '(cleanupErr, s) := removeObsoleteWALFiles i (countPruneRecords records) s in
        put_state (set_pendingRecords s []);;
        if (cleanupErr : bool) then fail ErrRotate else mret tt
    end.

Definition Flush (i : io) : ST unit := flushLocked i.

(** The entries by increasing height, in the order they were logged. *)
Definition LoadAllEntries (s : tendermintWALStore) : list went :=
  merge_sort Z.le (map_to_list (entriesByHeight s)).*1 ≫= fun h => default [] (entriesByHeight s !! h).

(** The flush is attempted, then the store is closed. *)
Definition Close (i : io) (s : tendermintWALStore) : outcome storeError unit * tendermintWALStore :=
  if closed s then (Ok tt, s)
  else
    let '(flushErr, s) := flushLocked i s in
    let s := set_closed s in
    let '(closeErr, w) := wal_close i (wal s) in
    (match flushErr with
     | Ok _ => if (closeErr || negb (io_manager i) : bool) then Err ErrRotate else Ok tt
     | e => e
     end, set_wal s w).

(** *** [replay.go] *)

Definition applyEncodedRecord (walNum : Z) (value : list Z) : ST unit :=
  match decodeWALRecord value with
  | Ok r =>
      if (Kind r =? walRecordEntry) || (Kind r =? walRecordPruneUpToHeight) then applyRecord walNum r
      else fail (ErrReplay (UnknownRecordKind (Kind r)))
  | Err e => fail (ErrReplay e)
  | Panic => panic
  | NoFuel => out_of_fuel
  end.

Fixpoint applyRecords (walNum count seen : Z) (items : list (Z * list Z)) (failed : bool) : ST unit :=
  match items with
  | [] =>
      if failed then fail (ErrReplay BatchError)
      else if negb (seen =? count) then fail (ErrReplay (CountMismatch count seen))
      else mret tt
  | (kind, value) :: items' =>
      if negb (kind =? keyKindSet) then fail (ErrReplay (UnexpectedKeyKind kind))
      else
        applyEncodedRecord walNum value;;
        applyRecords walNum count (u32 (seen + 1)) items' failed
  end.

Definition applyEncodedBatch (walNum : Z) (encodedBatch : list Z) : ST unit :=
  match readHeader encodedBatch with
  | None => fail (ErrReplay BatchError)
  | Some (seqNum, count) =>
      modify (fun s => let nextSeq := u64 (seqNum + count) in
        if nextBatchSeqNum s <? nextSeq then set_seq s nextSeq else s);;
      let '(items, failed) := readRecords encodedBatch in
      applyRecords walNum count 0 items failed
  end.

(** An invalid record ends the last file; in an earlier one it is an error. *)
Fixpoint loadLogicalLog (fuel : nat) (walNum : Z) (tolerateTail : bool) (bytes : list Z) (offset : Z) : ST unit :=
  match fuel with
  | O => out_of_fuel
  | S fuel' =>
      match pl_next bytes offset with
      | ReadRecord encodedBatch next =>
          applyEncodedBatch walNum encodedBatch;; loadLogicalLog fuel' walNum tolerateTail bytes next
      | ReadEof => mret tt
      | ReadInvalid => if tolerateTail then mret tt else fail (ErrReadWAL walNum)
      | ReadFailed => fail (ErrReadWAL walNum)
      end
  end.

Fixpoint loadExistingEntries (logs : list (Z * list Z)) : ST unit :=
  match logs with
  | [] => mret tt
  | (walNum, bytes) :: logs' =>
      loadLogicalLog (S (length bytes)) walNum (bool_decide (logs' = [])) bytes 0;; loadExistingEntries logs'
  end.

(** The errors of creating and scanning the directory are left out: the store
    does not exist then. *)
Definition NewTendermintWALStore (r : repairIO) (d : walDir)
  : outcome storeError unit * tendermintWALStore :=
  let '(o, d) := recoverLatestWALTail r d in
  let fresh pruned := mkStore false (newWALWriter d (nextWALNum_of (d_logs d))) initialSeqNum ∅ ∅ ∅ pruned [] 0 in
  match o with
  | Ok _ =>
      match loadPruneWatermark d with
      | Ok prunedUpToHeight => loadExistingEntries (d_logs d) (fresh prunedUpToHeight)
      | Err e => (Err e, fresh 0)
      | Panic => (Panic, fresh 0)
      | NoFuel => (NoFuel, fresh 0)
      end
  | Err e => (Err e, fresh 0)
  | Panic => (Panic, fresh 0)
  | NoFuel => (NoFuel, fresh 0)
  end.

End store.
