(* ===== verification/WalIndexFacts.v ===== *)
(** * The index of the write-ahead log

    The index is determined by the records that were applied: the entries above
    the watermark, by height, and for every height the files that hold its
    entries, with exact reference counts. *)
From stdpp Require Import prelude gmap list sorting fin_maps.
From Stdlib Require Import ZArith Lia.
From S2P Require Import Prelude Felt ConsensusTypes WalCodec WalStore.

Local Open Scope Z_scope.

(** ** Sets of file numbers *)

Definition num_ok (s : walNumSet) : Prop :=
  NoDup (rangeOver s) /\ (first s = 0 -> rest s = []) /\ Forall (fun n => 1 <= n) (rangeOver s).

Lemma emptyNumSet_ok : num_ok emptyNumSet.
Proof. split_and!; [apply NoDup_nil_2|done|constructor]. Qed.

Lemma addIfMissing_spec s n :
  num_ok s -> 1 <= n ->
  num_ok (addIfMissing s n).2 /\
  (addIfMissing s n).1 = bool_decide (n ∉ rangeOver s) /\
  (forall m, m ∈ rangeOver (addIfMissing s n).2 <-> m = n \/ m ∈ rangeOver s).
Proof.
  intros (Hd & Hr & Hp) Hn. unfold addIfMissing, num_ok, rangeOver in *.
  destruct (Z.eqb_spec (first s) 0) as [E|E]; simpl.
  - rewrite Hr by done. destruct (Z.eqb_spec n 0); [lia|]. split; [|split].
    + split_and!; [apply NoDup_singleton|lia|repeat constructor; lia].
    + done.
    + intros m. set_solver.
  - destruct (Z.eqb_spec (first s) n) as [E'|E']; simpl.
    { destruct (Z.eqb_spec (first s) 0); [lia|]. split; [done|split; [|set_solver]].
      symmetry. apply bool_decide_eq_false_2. set_solver. }
    destruct (bool_decide (n ∈ rest s)) eqn:Eb; simpl.
    { apply bool_decide_eq_true_1 in Eb. destruct (Z.eqb_spec (first s) 0); [lia|].
      split; [done|split; [|set_solver]]. symmetry. apply bool_decide_eq_false_2. set_solver. }
    apply bool_decide_eq_false_1 in Eb. destruct (Z.eqb_spec (first s) 0); [lia|]. split; [|split].
    + split_and!; [|lia|].
      * apply NoDup_cons in Hd as [Hf Hd]. apply NoDup_cons. split; [set_solver|].
        apply NoDup_app. split_and!; [done|set_solver|apply NoDup_singleton].
      * apply Forall_cons in Hp as [? ?]. apply Forall_cons. split; [done|].
        apply Forall_app. split; [done|repeat constructor; lia].
    + symmetry. apply bool_decide_eq_true_2. set_solver.
    + intros m. set_solver.
Qed.

(** ** The invariant of the index *)

Section index.
Context {V H A : Type}.

Abbreviation went := (walEntry V H A).
Abbreviation store := (tendermintWALStore (V:=V) (H:=H) (A:=A)).

(** The entries of a height among the entries and their files. *)
Definition at_height (h : Z) (L : list (Z * went)) : list went :=
  (filter (fun x => entry_height x.2 = h) L).*2.

Definition nonempty {T} (l : list T) : option (list T) := match l with [] => None | _ => Some l end.

(** The number of heights that refer to a file. *)
Definition ref_count (fs : gmap Z walNumSet) (n : Z) : Z :=
  Z.of_nat (size (filter (fun x => n ∈ rangeOver x.2) fs)).

Definition pos_count (c : Z) : option Z := if c =? 0 then None else Some c.

Record index_ok (s : store) (L : list (Z * went)) : Prop := {
  ix_entries h :
    entriesByHeight s !! h = if prunedUpToHeight s <? h then nonempty (at_height h L) else None;
  ix_files_num h ns : walFilesByHeight s !! h = Some ns -> num_ok ns;
  ix_files n e :
    (n, e) ∈ L -> prunedUpToHeight s < entry_height e ->
    exists ns, walFilesByHeight s !! entry_height e = Some ns /\ n ∈ rangeOver ns;
  ix_refs n : walHeightRefs s !! n = pos_count (ref_count (walFilesByHeight s) n);
}.

Lemma at_height_app h L n e :
  at_height h (L ++ [(n, e)]) = at_height h L ++ (if decide (entry_height e = h) then [e] else []).
Proof.
  unfold at_height. rewrite filter_app, fmap_app. f_equal. rewrite filter_cons, filter_nil. simpl.
  by destruct (decide _).
Qed.

Lemma nonempty_default {T} (l : list T) : default [] (nonempty l) = l.
Proof. by destruct l. Qed.

Lemma nonempty_snoc {T} (l : list T) x : nonempty (l ++ [x]) = Some (l ++ [x]).
Proof. by destruct l. Qed.

(** ** Reference counts *)

Lemma ref_count_insert_fresh fs h ns n :
  fs !! h = None ->
  ref_count (<[h := ns]> fs) n = ref_count fs n + (if decide (n ∈ rangeOver ns) then 1 else 0).
Proof.
  intros Hh. unfold ref_count. destruct (decide (n ∈ rangeOver ns)) as [E|E].
  - rewrite map_filter_insert_True by done. rewrite map_size_insert_None; [lia|].
    by apply map_lookup_filter_None_2; left.
  - rewrite map_filter_insert_False by done. rewrite delete_id by done. lia.
Qed.

Lemma ref_count_delete fs h ns n :
  fs !! h = Some ns ->
  ref_count fs n = ref_count (delete h fs) n + (if decide (n ∈ rangeOver ns) then 1 else 0).
Proof.
  intros Hh. rewrite <- (insert_delete_id fs h ns Hh) at 1.
  by rewrite ref_count_insert_fresh by apply lookup_delete_eq.
Qed.

Lemma ref_count_insert fs h ns n :
  ref_count (<[h := ns]> fs) n =
    ref_count fs n - (if decide (n ∈ rangeOver (default emptyNumSet (fs !! h))) then 1 else 0)
      + (if decide (n ∈ rangeOver ns) then 1 else 0).
Proof.
  rewrite <- insert_delete_eq, ref_count_insert_fresh by apply lookup_delete_eq.
  destruct (fs !! h) as [ns0|] eqn:E; simpl.
  - rewrite (ref_count_delete fs h ns0 n E). lia.
  - rewrite delete_id by done. lia.
Qed.

Lemma ref_count_nonneg fs n : 0 <= ref_count fs n.
Proof. unfold ref_count. lia. Qed.

Lemma unref_lookup refs m n :
  unref refs m !! n =
    if decide (n = m) then pos_count (default 0 (refs !! m) - 1) else refs !! n.
Proof.
  unfold unref, pos_count. destruct (decide (n = m)) as [->|Hne];
    destruct (Z.eqb_spec (default 0 (refs !! m) - 1) 0).
  - by rewrite lookup_delete_eq.
  - by rewrite lookup_insert_eq.
  - by rewrite lookup_delete_ne.
  - by rewrite lookup_insert_ne.
Qed.

Lemma foldl_unref l refs n :
  NoDup l ->
  foldl unref refs l !! n =
    if decide (n ∈ l) then pos_count (default 0 (refs !! n) - 1) else refs !! n.
Proof.
  revert refs. induction l as [|m l IH]; intros refs Hd; [done|]. cbn [foldl].
  apply NoDup_cons in Hd as [Hm Hd]. rewrite IH, unref_lookup by done.
  destruct (decide (n = m)) as [->|Hne].
  - rewrite decide_False, decide_True by set_solver. done.
  - destruct (decide (n ∈ l)); [by rewrite decide_True by set_solver|].
    by rewrite decide_False by set_solver.
Qed.

Lemma pos_count_default c : 0 <= c -> default 0 (pos_count c) = c.
Proof. unfold pos_count. by destruct (Z.eqb_spec c 0). Qed.

(** ** Operations on the index *)

(** Only the index is changed. *)
Definition index_frame (s s' : store) : Prop :=
  closed s' = closed s /\ wal s' = wal s /\ nextBatchSeqNum s' = nextBatchSeqNum s /\
  pendingRecords s' = pendingRecords s /\ pruneRecordsSinceCleanup s' = pruneRecordsSinceCleanup s.

Lemma index_frame_refl s : index_frame s s.
Proof. done. Qed.

Lemma index_frame_trans s1 s2 s3 : index_frame s1 s2 -> index_frame s2 s3 -> index_frame s1 s3.
Proof. unfold index_frame. naive_solver congruence. Qed.

Lemma addLiveEntry_ok s L n e :
  index_ok s L -> 1 <= n -> prunedUpToHeight s < entry_height e ->
  index_ok (addLiveEntry n e s) (L ++ [(n, e)]) /\ index_frame s (addLiveEntry n e s) /\
  prunedUpToHeight (addLiveEntry n e s) = prunedUpToHeight s.
Proof.
  intros [He Hnum Hf Hr] Hn Hlt. set (h := entry_height e) in *.
  set (fs0 := default emptyNumSet (walFilesByHeight s !! h)).
  assert (Hok0 : num_ok fs0).
  { unfold fs0. destruct (walFilesByHeight s !! h) eqn:E; [by eapply Hnum|apply emptyNumSet_ok]. }
  destruct (addIfMissing_spec fs0 n Hok0 Hn) as (Hok1 & Ha & Hm).
  assert (Hent : forall h', <[h := default [] (entriesByHeight s !! h) ++ [e]]> (entriesByHeight s) !! h' =
            if prunedUpToHeight s <? h' then nonempty (at_height h' (L ++ [(n, e)])) else None).
  { intros h'. rewrite at_height_app. fold h. destruct (decide (h = h')) as [<-|Hne].
    - rewrite lookup_insert_eq, He. destruct (Z.ltb_spec (prunedUpToHeight s) h); [|lia].
      by rewrite nonempty_default, nonempty_snoc.
    - rewrite lookup_insert_ne by done. by rewrite He, app_nil_r. }
  unfold addLiveEntry. fold h fs0. destruct (addIfMissing fs0 n) as [added ns] eqn:Eadd. simpl in Hok1, Ha, Hm.
  destruct added; (split; [|done]); split; simpl; try done.
  - intros h' ns'. destruct (decide (h = h')) as [<-|Hne].
    + rewrite lookup_insert_eq. by intros [= <-].
    + rewrite lookup_insert_ne by done. apply Hnum.
  - intros n' e' [Hin|Hin%list_elem_of_singleton]%elem_of_app Hlt'.
    + destruct (Hf n' e' Hin Hlt') as (ns' & E & Hns). destruct (decide (h = entry_height e')) as [Eh|Hne].
      * exists ns. rewrite <- Eh, lookup_insert_eq. split; [done|]. apply Hm. right. unfold fs0. by rewrite Eh, E.
      * exists ns'. by rewrite lookup_insert_ne.
    + injection Hin as -> ->. exists ns. rewrite lookup_insert_eq. split; [done|]. apply Hm. by left.
  - intros n'. rewrite ref_count_insert. fold fs0. symmetry in Ha. apply bool_decide_eq_true_1 in Ha.
    pose proof (ref_count_nonneg (walFilesByHeight s) n').
    destruct (decide (n' = n)) as [->|Hne].
    + rewrite lookup_insert_eq, Hr, pos_count_default by done.
      rewrite decide_False by done. rewrite decide_True by (apply Hm; by left).
      unfold pos_count. destruct (Z.eqb_spec (ref_count (walFilesByHeight s) n - 0 + 1) 0); [lia|]. f_equal. lia.
    + rewrite lookup_insert_ne, Hr by done. f_equal.
      destruct (decide (n' ∈ rangeOver fs0)), (decide (n' ∈ rangeOver ns)) as [Hi|Hi]; try lia.
      * destruct Hi. apply Hm. by right.
      * apply Hm in Hi as [?|?]; done.
  - intros n' e' [Hin|Hin%list_elem_of_singleton]%elem_of_app Hlt'; [by apply Hf|].
    injection Hin as -> ->. symmetry in Ha. apply bool_decide_eq_false_1, dec_stable in Ha.
    unfold fs0 in Ha. fold h. destruct (walFilesByHeight s !! h) as [ns'|] eqn:E; simpl in Ha; [by exists ns'|].
    by apply elem_of_nil in Ha.
Qed.

Lemma index_ok_skip s L n e :
  index_ok s L -> entry_height e <= prunedUpToHeight s -> index_ok s (L ++ [(n, e)]).
Proof.
  intros [He Hnum Hf Hr] Hle. split; [|done| |done].
  - intros h. rewrite He, at_height_app. destruct (Z.ltb_spec (prunedUpToHeight s) h); [|done].
    rewrite decide_False by lia. by rewrite app_nil_r.
  - intros n' e' [Hin|Hin%list_elem_of_singleton]%elem_of_app Hlt'; [by apply Hf|].
    injection Hin as -> ->. lia.
Qed.

(** Deleting heights: the entries and files of the others are kept. *)
Lemma delete_heights l s :
  (forall h ns, walFilesByHeight s !! h = Some ns -> num_ok ns) ->
  (forall n, walHeightRefs s !! n = pos_count (ref_count (walFilesByHeight s) n)) ->
  let s' := foldl deleteLiveHeight s l in
  (forall h, entriesByHeight s' !! h = if decide (h ∈ l) then None else entriesByHeight s !! h) /\
  (forall h, walFilesByHeight s' !! h = if decide (h ∈ l) then None else walFilesByHeight s !! h) /\
  (forall n, walHeightRefs s' !! n = pos_count (ref_count (walFilesByHeight s') n)) /\
  prunedUpToHeight s' = prunedUpToHeight s /\ index_frame s s'.
Proof.
  revert s. induction l as [|h l IH]; intros s Hnum Hr s'; [by split_and!|].
  assert (Hdel : forall T (m : gmap Z T) h', delete h m !! h' = if decide (h' = h) then None else m !! h').
  { intros T m h'. destruct (decide (h' = h)) as [->|]; [by rewrite lookup_delete_eq|by rewrite lookup_delete_ne]. }
  destruct (IH (deleteLiveHeight s h)) as (He & Hf & Hr' & Hp & Hfr); simpl.
  - intros h' ns. rewrite Hdel. destruct (decide (h' = h)); [done|apply Hnum].
  - intros n. destruct (walFilesByHeight s !! h) as [ns|] eqn:E; simpl.
    + rewrite foldl_unref by (by apply (Hnum _ _ E)). rewrite Hr.
      pose proof (ref_count_nonneg (walFilesByHeight s) n). rewrite pos_count_default by done.
      rewrite (ref_count_delete _ _ _ n E). destruct (decide (n ∈ rangeOver ns)); f_equal; lia.
    + by rewrite Hr, delete_id.
  - unfold s'. cbn [foldl].
    assert (Hin : forall T (a b : option T) h',
      (if decide (h' ∈ h :: l) then a else b) = if decide (h' ∈ l) then a else if decide (h' = h) then a else b).
    { intros T a b h'. destruct (decide (h' ∈ l)); [by rewrite decide_True by set_solver|].
      destruct (decide (h' = h)); [by rewrite decide_True by set_solver|by rewrite decide_False by set_solver]. }
    split_and!; [| |done..].
    + intros h'. by rewrite He, Hin; simpl; rewrite Hdel.
    + intros h'. by rewrite Hf, Hin; simpl; rewrite Hdel.
Qed.

Lemma prune_ok s L h :
  index_ok s L ->
  index_ok (pruneLiveEntriesUpTo h s) L /\ index_frame s (pruneLiveEntriesUpTo h s) /\
  prunedUpToHeight (pruneLiveEntriesUpTo h s) = Z.max (prunedUpToHeight s) h.
Proof.
  intros Hs. pose proof Hs as [He Hnum Hf Hr]. unfold pruneLiveEntriesUpTo.
  destruct (Z.leb_spec h (prunedUpToHeight s)); [split_and!; [done|done|lia]|].
  set (s0 := set_index s _ _ _ h).
  set (l := filter _ _).
  destruct (delete_heights l s0 Hnum Hr) as (He' & Hf' & Hr' & Hp & Hfr).
  assert (Hl : forall h', h' ∈ l <-> is_Some (entriesByHeight s !! h') /\ h' <= h).
  { intros h'. unfold l. rewrite list_elem_of_filter, list_elem_of_fmap. split.
    - intros [Hle ([k x] & -> & Hin)]. apply elem_of_map_to_list in Hin. eauto.
    - intros [[x Hx] Hle]. split; [done|]. exists (h', x). split; [done|]. by apply elem_of_map_to_list. }
  split_and!; [|done|rewrite Hp; simpl; lia]. split.
  - intros h'. rewrite He', Hp. simpl. destruct (decide (h' ∈ l)) as [Hi|Hi].
    + apply Hl in Hi as [_ ?]. destruct (Z.ltb_spec h h'); [lia|done].
    + rewrite He. destruct (Z.ltb_spec h h').
      * by destruct (Z.ltb_spec (prunedUpToHeight s) h'); [|lia].
      * destruct (Z.ltb_spec (prunedUpToHeight s) h') as [Hlt|]; [|done].
        destruct (nonempty (at_height h' L)) eqn:E; [|done]. destruct Hi. apply Hl. split; [|lia].
        rewrite He. destruct (Z.ltb_spec (prunedUpToHeight s) h'); [by rewrite E|lia].
  - intros h' ns. rewrite Hf'. destruct (decide (h' ∈ l)); [done|]. apply Hnum.
  - intros n e Hin. rewrite Hp. simpl. intros Hlt. destruct (Hf n e Hin) as (ns & E & Hns); [lia|].
    exists ns. split; [|done]. rewrite Hf', decide_False; [done|]. intros [_ ?]%Hl. lia.
  - done.
Qed.

(** ** Records *)

(** The entries of a record, and the height it prunes up to. *)
Definition record_entries (r : walRecordEnvelope (V:=V) (H:=H) (A:=A)) : list went :=
  if Kind r =? walRecordEntry then match entry (E:=Empty_set) r with Ok e => [e] | _ => [] end else [].

Definition record_prune_height (r : walRecordEnvelope (V:=V) (H:=H) (A:=A)) : Z :=
  if Kind r =? walRecordPruneUpToHeight then env_Height r else 0.

Abbreviation env := (walRecordEnvelope (V:=V) (H:=H) (A:=A)).

Definition located (n : Z) (rs : list env) : list (Z * went) := (fun e => (n, e)) <$> (rs ≫= record_entries).

Definition prune_max (W : Z) (rs : list env) : Z := foldl (fun W r => Z.max W (record_prune_height r)) W rs.

Lemma wp_applyRecord s L n r :
  record_ok r -> index_ok s L -> 1 <= n -> 0 <= prunedUpToHeight s ->
  wp (applyRecord n r) (fun _ s' =>
    index_ok s' (L ++ located n [r]) /\ index_frame s s' /\
    prunedUpToHeight s' = Z.max (prunedUpToHeight s) (record_prune_height r)) s.
Proof.
  intros Hr Hs Hn Hp. destruct Hr as [own e He|h Hh].
  - assert (Ee : forall E, entry (E:=E) (setEntry own (new_envelope walRecordEntry) e) = Ok (settled own e))
      by (intros; apply entry_setEntry).
    assert (Ek : Kind (setEntry own (new_envelope walRecordEntry) e) = walRecordEntry) by (by destruct e).
    assert (El : located n [setEntry own (new_envelope walRecordEntry) e] = [(n, settled own e)])
      by (unfold located, record_entries; simpl; by rewrite Ek, Ee).
    unfold applyRecord, record_prune_height. rewrite El, Ek, Ee. simpl.
    wp_step. wp_step. wp_step; wp_step; bool_hyps.
    + split_and!; [by apply index_ok_skip|done|lia].
    + destruct (addLiveEntry_ok s L n (settled own e)) as (Hok & Hfr & Hpr); [done|done|lia|].
      split_and!; [done|done|lia].
  - unfold applyRecord, located, record_prune_height. simpl. wp_step.
    destruct (prune_ok s L h Hs) as (Hok & Hfr & Hpr). rewrite app_nil_r. done.
Qed.

Lemma located_app n rs rs' : located n (rs ++ rs') = located n rs ++ located n rs'.
Proof. unfold located. by rewrite bind_app, fmap_app. Qed.

Lemma prune_max_ge W rs : W <= prune_max W rs.
Proof.
  unfold prune_max. revert W. induction rs as [|r rs IH]; intros W; simpl; [lia|].
  specialize (IH (Z.max W (record_prune_height r))). lia.
Qed.

Lemma wp_updateIndexes rs s L n :
  Forall record_ok rs -> index_ok s L -> 1 <= n -> 0 <= prunedUpToHeight s ->
  wp (updateIndexesFromCommittedRecords n rs) (fun _ s' =>
    index_ok s' (L ++ located n rs) /\ index_frame s s' /\
    prunedUpToHeight s' = prune_max (prunedUpToHeight s) rs) s.
Proof.
  intros Hrs. revert s L. induction Hrs as [|r rs Hr _ IH]; intros s L Hs Hn Hp; simpl.
  - wp_step. rewrite app_nil_r. done.
  - wp_step. eapply wp_mono; [by apply wp_applyRecord|]. intros _ s1 (Hs1 & Hf1 & Hp1).
    eapply wp_mono; [apply (IH s1 _ Hs1); lia|]. intros _ s2 (Hs2 & Hf2 & Hp2).
    change (r :: rs) with ([r] ++ rs). rewrite located_app, app_assoc. split_and!; [done| |].
    + by eapply index_frame_trans.
    + by rewrite Hp2, Hp1.
Qed.

End index.
