(* ===== verification/WalStoreFacts.v ===== *)
(** * Recovery of the write-ahead log

    Whatever I/O fails, the directory of the log always holds the entries of
    the index: a store that is opened on it after a crash has the same entries
    and the same watermark, and only the records of a failed write whose file was
    not repaired may be there in addition.  Removing obsolete files never removes
    a live entry.  What is used of Pebble's log files is [PebbleLogLaws]. *)
From stdpp Require Import prelude gmap list sorting fin_maps.
From Stdlib Require Import ZArith Lia.
From S2P Require Import Prelude Felt ConsensusTypes WalCodec WalStore WalIndexFacts.

Local Open Scope Z_scope.

(** ** Pebble's batch format

    A batch is a header of 12 bytes (sequence number and count) followed by its
    records: a kind, the key and the value, each with its length before it as a
    variable-length integer. *)

(** Seven bits per byte, the highest bit set in all but the last. *)
Fixpoint uvarint_val (l : list Z) : option Z :=
  match l with
  | [] => None
  | b :: l' =>
      if b <? 128 then match l' with [] => Some b | _ => None end
      else m ← uvarint_val l'; Some (b - 128 + 128 * m)
  end.

Record item := mkItem {
  it_kind : Z;
  it_keylen : list Z;
  it_key : list Z;
  it_valuelen : list Z;
  it_value : list Z;
}.

Definition item_bytes (i : item) : list Z :=
  [it_kind i] ++ it_keylen i ++ it_key i ++ it_valuelen i ++ it_value i.

Definition item_ok (i : item) : Prop :=
  uvarint_val (it_keylen i) = Some (Z.of_nat (length (it_key i))) /\
  uvarint_val (it_valuelen i) = Some (Z.of_nat (length (it_value i))).

(** What Pebble documents of its reader. *)
Definition pebble_reads (readHeader : list Z -> option (Z * Z))
    (readRecords : list Z -> list (Z * list Z) * bool) : Prop :=
  forall seq items, is_u64 seq -> Z.of_nat (length items) < 2 ^ 32 -> Forall item_ok items ->
    let b := le_bytes 8 seq ++ le_bytes 4 (Z.of_nat (length items)) ++ concat (item_bytes <$> items) in
    readHeader b = Some (seq, Z.of_nat (length items)) /\
    readRecords b = ((fun i => (it_kind i, it_value i)) <$> items, false).

Lemma lor_128 x : Z.lor (u8 x) 128 = x mod 128 + 128.
Proof.
  assert (E : Z.lor (u8 x) 128 = Z.lor (x mod 128) (Z.shiftl 1 7)).
  { apply Z.bits_inj'. intros i Hi. unfold u8. change 128 with (2 ^ 7).
    rewrite !Z.lor_spec, !testbit_mod_pow2, Z.shiftl_spec, Z.pow2_bits_eqb by lia.
    change 1 with (2 ^ 0) at 1. rewrite Z.pow2_bits_eqb by lia.
    destruct (Z.eqb_spec 7 i) as [<-|]; [by rewrite !orb_true_r|].
    destruct (Z.eqb_spec 0 (i - 7)); [lia|]. rewrite !orb_false_r. bool_cases; done. }
  rewrite E. pose proof (Z.mod_pos_bound x 128).
  assert (Hl : Z.land (x mod 128) (Z.shiftl 1 7) = 0).
  { apply Z.bits_inj'. intros i Hi. rewrite Z.land_spec, Z.bits_0, Z.shiftl_spec by lia.
    change 128 with (2 ^ 7). rewrite testbit_mod_pow2 by lia. change 1 with (2 ^ 0).
    rewrite Z.pow2_bits_eqb by lia. bool_cases; by rewrite ?andb_false_r. }
  pose proof (Z.add_lor_land (x mod 128) (Z.shiftl 1 7)) as Ha. rewrite Hl in Ha.
  change (Z.shiftl 1 7) with 128 in *. lia.
Qed.

Lemma putFixedUvarint32_val v : 0 <= v < 2 ^ 32 -> uvarint_val (putFixedUvarint32 v) = Some v.
Proof.
  intros Hv. unfold putFixedUvarint32. rewrite !lor_128. rewrite !Z.shiftr_div_pow2 by lia.
  assert (Hu : u8 (v / 2 ^ 28) = v / 2 ^ 28).
  { apply u8_small. split; [apply Z.div_pos; lia|apply Z.div_lt_upper_bound; lia]. }
  assert (v / 2 ^ 28 < 16) by (apply Z.div_lt_upper_bound; lia).
  rewrite Hu. cbn [uvarint_val].
  assert (Hm : forall x, (x mod 128 + 128 <? 128) = false).
  { intros x. pose proof (Z.mod_pos_bound x 128). apply Z.ltb_ge. lia. }
  rewrite !Hm. destruct (Z.ltb_spec (v / 2 ^ 28) 128); [|lia]. simpl. f_equal.
  assert (Hd : forall k, 0 <= k -> v / 2 ^ k = 128 * (v / 2 ^ (k + 7)) + (v / 2 ^ k) mod 128).
  { intros k Hk. rewrite Z.pow_add_r, <- Z.div_div by lia. apply Z.div_mod. lia. }
  pose proof (Hd 0 ltac:(lia)) as Hq0. pose proof (Hd 7 ltac:(lia)) as Hq1.
  pose proof (Hd 14 ltac:(lia)) as Hq2. pose proof (Hd 21 ltac:(lia)) as Hq3.
  change (0 + 7) with 7 in Hq0. change (7 + 7) with 14 in Hq1. change (14 + 7) with 21 in Hq2.
  change (21 + 7) with 28 in Hq3.
  rewrite Z.pow_0_r, Z.div_1_r in Hq0.
  clear Hd Hm Hu. generalize dependent (v / 2 ^ 28). generalize dependent (v / 2 ^ 21).
  generalize dependent (v / 2 ^ 14). generalize dependent (v / 2 ^ 7).
  intros a Ha b Hb c Hc d. intros. lia.
Qed.

(** ** Pebble's log files *)

Section files.
Context {PL : PebbleLog}.

Definition len {T} (l : list T) : Z := Z.of_nat (length l).

(** The bytes of a file with these records. *)
Definition add_frame (c b : list Z) : list Z := c ++ pl_frame (len c) b.
Definition content (bs : list (list Z)) : list Z := foldl add_frame [] bs.

(** What Pebble documents of its files: a record is read back whatever follows it;
    a part of a record, or of the trailer of a file, reads as the end of the file
    or as an invalid record; after the last record, or with the whole trailer, a
    file is at its end. *)
Class PebbleLogLaws : Prop := {
  pl_frame_bytes o b : pl_frame o b ≠ [];
  pl_next_record bs b rest :
    pl_next (content (bs ++ [b]) ++ rest) (len (content bs)) = ReadRecord b (len (content (bs ++ [b])));
  pl_next_torn bs b k : (k < length (pl_frame (len (content bs)) b))%nat ->
    let c := content bs ++ take k (pl_frame (len (content bs)) b) in
    pl_next c (len (content bs)) = ReadEof \/ pl_next c (len (content bs)) = ReadInvalid;
  pl_next_closing bs k :
    let c := content bs ++ take k (pl_trailer (len (content bs))) in
    pl_next c (len (content bs)) = ReadEof \/ pl_next c (len (content bs)) = ReadInvalid;
  pl_next_closed bs : pl_next (content bs ++ pl_trailer (len (content bs))) (len (content bs)) = ReadEof;
  pl_next_end bs : pl_next (content bs) (len (content bs)) = ReadEof;
}.

Context {PLL : PebbleLogLaws}.

Lemma content_snoc bs b : content (bs ++ [b]) = content bs ++ pl_frame (len (content bs)) b.
Proof. unfold content. by rewrite foldl_snoc. Qed.

Lemma content_prefix bs bs' : exists r, content (bs ++ bs') = content bs ++ r.
Proof.
  induction bs' as [|b bs' [r E]] using rev_ind; [exists []; by rewrite !app_nil_r|].
  rewrite app_assoc, content_snoc, E. eexists. by rewrite <- app_assoc.
Qed.

Lemma content_length bs : (length bs <= length (content bs))%nat.
Proof.
  induction bs as [|b bs IH] using rev_ind; [done|]. rewrite content_snoc, !length_app.
  pose proof (pl_frame_bytes (len (content bs)) b). destruct (pl_frame _ b); [done|]. cbn [length]. lia.
Qed.

(** Reading the bytes [c] from an offset gives the records [bs] and ends at [stop]
    with [e]. *)
Inductive reads (c : list Z) : Z -> list (list Z) -> Z -> readResult -> Prop :=
| reads_end off e : pl_next c off = e -> e = ReadEof \/ e = ReadInvalid -> reads c off [] off e
| reads_record off b next bs stop e :
    pl_next c off = ReadRecord b next -> reads c next bs stop e -> reads c off (b :: bs) stop e.

(** The records of a file, and something behind them that is no record. *)
Definition loose (c : list Z) (bs : list (list Z)) : Prop :=
  exists t, c = content bs ++ t /\
    (pl_next c (len (content bs)) = ReadEof \/ pl_next c (len (content bs)) = ReadInvalid).

(** The records and nothing else, or the trailer of a closed file. *)
Definition clean (c : list Z) (bs : list (list Z)) : Prop :=
  c = content bs \/ c = content bs ++ pl_trailer (len (content bs)).

Lemma reads_rest c bs bs' e t :
  c = content (bs ++ bs') ++ t -> pl_next c (len (content (bs ++ bs'))) = e -> e = ReadEof \/ e = ReadInvalid ->
  reads c (len (content bs)) bs' (len (content (bs ++ bs'))) e.
Proof.
  revert bs. induction bs' as [|b bs' IH]; intros bs Ec En He; [rewrite app_nil_r in *; by constructor|].
  rewrite (app_assoc bs [b] bs' : bs ++ b :: bs' = _) in *.
  econstructor; [|by apply IH]. destruct (content_prefix (bs ++ [b]) bs') as [r E].
  rewrite Ec, E, <- app_assoc. apply pl_next_record.
Qed.

Lemma loose_reads c bs : loose c bs -> exists e, reads c 0 bs (len (content bs)) e /\ (e = ReadEof \/ e = ReadInvalid).
Proof. intros (t & Ec & He). eexists. split; [by apply (reads_rest c [] bs _ t)|done]. Qed.

Lemma clean_next c bs : clean c bs -> pl_next c (len (content bs)) = ReadEof.
Proof. intros [->| ->]; [apply pl_next_end|apply pl_next_closed]. Qed.

Lemma clean_reads c bs : clean c bs -> reads c 0 bs (len (content bs)) ReadEof.
Proof.
  intros Hc. pose proof (clean_next c bs Hc) as He.
  destruct Hc as [Ec|Ec]; [apply (reads_rest c [] bs _ []); rewrite ?app_nil_r|eapply (reads_rest c [] bs)]; eauto.
Qed.

Lemma clean_loose c bs : clean c bs -> loose c bs.
Proof.
  intros Hc. pose proof (clean_next c bs Hc). destruct Hc as [Ec|Ec]; [exists []; by rewrite app_nil_r; auto|eexists; eauto].
Qed.

(** What a failed write leaves: the file as it was, or the whole record. *)
Lemma torn_loose bs b k :
  let c := content bs ++ take k (pl_frame (len (content bs)) b ++ pl_trailer (len (content (bs ++ [b])))) in
  loose c bs \/ loose c (bs ++ [b]).
Proof.
  intros c. destruct (Nat.lt_ge_cases k (length (pl_frame (len (content bs)) b))) as [Hk|Hk].
  - left. eexists. split; [done|]. unfold c. rewrite take_app_le by lia. by apply pl_next_torn.
  - right. unfold c. rewrite take_app_ge, app_assoc, <- content_snoc by lia.
    eexists. split; [done|]. apply pl_next_closing.
Qed.

Lemma closing_loose bs k : loose (content bs ++ take k (pl_trailer (len (content bs)))) bs.
Proof. eexists. split; [done|]. apply pl_next_closing. Qed.

(** ** Files by number *)

Lemma alter_last n f c (pre : list (Z * list Z)) :
  n ∉ pre.*1 -> alter_file n f (pre ++ [(n, c)]) = pre ++ [(n, f c)].
Proof.
  intros Hn. unfold alter_file. rewrite fmap_app. f_equal.
  - rewrite <- (list_fmap_id pre) at 2. apply list_fmap_ext. intros i [m x] Hx. simpl.
    destruct (Z.eqb_spec m n) as [->|]; [|done]. destruct Hn.
    apply list_elem_of_lookup_2 in Hx. apply list_elem_of_fmap. by exists (n, x).
  - simpl. by rewrite Z.eqb_refl.
Qed.

Lemma lookup_last n c (pre : list (Z * list Z)) : n ∉ pre.*1 -> lookup_file n (pre ++ [(n, c)]) = Some c.
Proof.
  unfold lookup_file. induction pre as [|[m x] pre IH]; intros Hn; simpl; [by rewrite Z.eqb_refl|].
  apply not_elem_of_cons in Hn as [Hm Hn]. simpl in Hm. destruct (Z.eqb_spec m n); [congruence|]. by apply IH.
Qed.

(** Truncating the last file to its records. *)
Lemma repair_last r n pre bs t wm :
  n ∉ pre.*1 ->
  repairWALTail r n (len (content bs)) (mkDir (pre ++ [(n, content bs ++ t)]) wm) =
    match r with
    | RepairOk => (false, mkDir (pre ++ [(n, content bs)]) wm)
    | RepairFailed => (true, mkDir (pre ++ [(n, content bs ++ t)]) wm)
    | RepairUnsynced => (true, mkDir (pre ++ [(n, content bs)]) wm)
    end.
Proof.
  intros Hn. unfold repairWALTail. cbn [d_logs d_watermark]. rewrite lookup_last by done.
  assert (Hle : (Z.of_nat (length (content bs ++ t)) <? len (content bs)) = false).
  { apply Z.ltb_ge. unfold len. rewrite length_app. lia. }
  rewrite Hle, alter_last by done. unfold len. rewrite Nat2Z.id, take_app_length. by destruct r.
Qed.

Lemma recover_loop_reads c off bs stop e r n d fuel :
  reads c off bs stop e -> (length bs < fuel)%nat ->
  recover_loop fuel r n c off d =
    repaired (match e with ReadEof => repairWALTailIfLonger r n stop d | _ => repairWALTail r n stop d end).
Proof.
  intros Hr. revert fuel. induction Hr as [off e En He|off b next bs stop e En _ IH]; intros [|k] Hk; cbn [length] in Hk; try lia.
  - cbn [recover_loop]. rewrite En. by destruct He as [-> | ->].
  - cbn [recover_loop]. rewrite En. apply IH. lia.
Qed.

(** A recovery cuts the last file to its records. *)
Lemma recover_last r n pre c bs wm :
  n ∉ pre.*1 -> loose c bs ->
  let d := mkDir (pre ++ [(n, c)]) wm in
  recoverLatestWALTail r d = (Ok tt, mkDir (pre ++ [(n, content bs)]) wm) \/
  r ≠ RepairOk /\ exists d', recoverLatestWALTail r d = (Err ErrRepair, d').
Proof.
  intros Hn Hl d. destruct (loose_reads c bs Hl) as (e & Hr & He). destruct Hl as (t & -> & _).
  unfold recoverLatestWALTail, d. cbn [d_logs]. rewrite last_snoc.
  rewrite (recover_loop_reads _ _ _ _ _ _ _ _ _ Hr) by (pose proof (content_length bs); rewrite length_app; lia).
  assert (Hrep : repaired (repairWALTail r n (len (content bs)) (mkDir (pre ++ [(n, content bs ++ t)]) wm)) =
      (Ok tt, mkDir (pre ++ [(n, content bs)]) wm) \/
    r ≠ RepairOk /\ exists d', repaired (repairWALTail r n (len (content bs)) (mkDir (pre ++ [(n, content bs ++ t)]) wm)) =
      (Err ErrRepair, d')).
  { rewrite repair_last by done. destruct r; [by left|right; split; [done|by eexists]..]. }
  destruct He as [-> | ->]; [|done]. unfold repairWALTailIfLonger. cbn [d_logs]. rewrite lookup_last by done.
  destruct (Z.leb_spec (Z.of_nat (length (content bs ++ t))) (len (content bs))) as [Hle|]; [|done]. left.
  unfold len in Hle. rewrite length_app in Hle. assert (t = []) as -> by (apply nil_length_inv; lia). by rewrite app_nil_r.
Qed.

End files.

Section recovery.
Context {V H A : Type} `{!Limbs H} `{!Limbs A} `{!WALValue V}
  `{!LimbsLaws H} `{!LimbsLaws A} `{!WALValueLaws V} {PL : PebbleLog} {PLL : PebbleLogLaws}.
Variable keyKindSet : Z.
Variable readHeader : list Z -> option (Z * Z).
Variable readRecords : list Z -> list (Z * list Z) * bool.
Hypothesis pebble : pebble_reads readHeader readRecords.

Abbreviation env := (walRecordEnvelope (V:=V) (H:=H) (A:=A)).
Abbreviation went := (walEntry V H A).
Abbreviation store := (tendermintWALStore (V:=V) (H:=H) (A:=A)).

Implicit Types (s : store) (r : env) (rs : list env) (e : went).

(** ** Batches *)

Definition record_item (i : Z) (r : env) : item :=
  mkItem keyKindSet [4] (be_bytes 4 (u32 i)) (putFixedUvarint32 (u32 (Z.of_nat (length (payload_bytes r)))))
    (payload_bytes r).

Fixpoint record_items (i : Z) (rs : list env) : list item :=
  match rs with [] => [] | r :: rs' => record_item i r :: record_items (i + 1) rs' end.

Lemma length_limb_bytes l : length l = 4%nat -> length (limb_bytes l) = 32%nat.
Proof.
  intros Hl. destruct l as [|a [|b [|c [|d [|]]]]]; simpl in Hl; try lia.
  change (limb_bytes [a; b; c; d]) with (le_bytes 8 a ++ le_bytes 8 b ++ le_bytes 8 c ++ le_bytes 8 d ++ []).
  by rewrite !length_app, !length_le_bytes.
Qed.

Lemma length_header hd : length (header_bytes (A:=A) hd) = 48%nat.
Proof.
  unfold header_bytes. by rewrite !length_app, !length_le_bytes, length_limb_bytes by apply limbs_length.
Qed.

Lemma length_vote v : (length (vote_bytes (H:=H) (A:=A) v) <= 81)%nat.
Proof.
  unfold vote_bytes. rewrite length_app, length_header. destruct (ID v); simpl; [|lia].
  rewrite length_limb_bytes by apply limbs_length. lia.
Qed.

(** No record is longer than a few machine words. *)
Lemma length_payload (r : env) : record_ok r -> (length (payload_bytes r) <= 91)%nat.
Proof.
  intros [own e He|h Hh]; [destruct e as [p|p|v|v|t]|]; unfold payload_bytes;
    cbn -[le_bytes proposal_bytes vote_bytes timeout_bytes].
  - rewrite length_le_bytes. lia.
  - unfold proposal_bytes. rewrite !length_app, length_header, length_le_bytes.
    destruct (Value p); cbn [length]; [rewrite length_limb_bytes by apply v_limbs_length|]; lia.
  - pose proof (length_vote v). lia.
  - pose proof (length_vote v). lia.
  - unfold timeout_bytes. cbn [length]. rewrite length_app, !length_le_bytes. lia.
  - rewrite length_le_bytes. lia.
Qed.

Lemma record_item_ok i (r : env) : record_ok r -> item_ok (record_item i r).
Proof.
  intros Hr. pose proof (length_payload r Hr). split; unfold record_item;
    cbn [it_keylen it_key it_valuelen it_value].
  - by rewrite length_be_bytes.
  - unfold u32. rewrite Z.mod_small by lia. apply putFixedUvarint32_val. lia.
Qed.

Lemma encodeRecords_items rs i :
  Forall record_ok rs ->
  encodeRecords keyKindSet i rs = Ok (concat (item_bytes <$> record_items i rs)) /\
  Forall item_ok (record_items i rs) /\ length (record_items i rs) = length rs /\
  (fun x => (it_kind x, it_value x)) <$> record_items i rs = (fun r => (keyKindSet, payload_bytes r)) <$> rs.
Proof.
  intros Hrs. revert i. induction Hrs as [|r rs Hr _ IH]; intros i; [done|].
  destruct (IH (i + 1)) as (E & Hok & Hl & Hk). cbn [encodeRecords record_items].
  rewrite append_payload by done. unfold mbind, outcome_bind. rewrite E, !app_nil_l. split_and!.
  - reflexivity.
  - constructor; [by apply record_item_ok|done].
  - cbn [length]. by rewrite Hl.
  - cbn [fmap list_fmap]. by rewrite Hk.
Qed.

(** A batch of the log and its records. *)
Definition batch_enc (b : list Z) (rs : list env) : Prop :=
  exists seq, is_u64 seq /\ encodeBatch keyKindSet rs seq = Ok b /\ Forall record_ok rs.

Lemma batch_reads b rs :
  batch_enc b rs ->
  exists seq, readHeader b = Some (seq, Z.of_nat (length rs)) /\ Z.of_nat (length rs) < 2 ^ 32 /\
    readRecords b = ((fun r => (keyKindSet, payload_bytes r)) <$> rs, false).
Proof using Type*.
  intros (seq & Hs & E & Hrs). unfold encodeBatch in E.
  destruct (Z.ltb_spec (2 ^ 32 - 1) (Z.of_nat (length rs))); [done|].
  destruct (encodeRecords_items rs 0 Hrs) as (E1 & Hok & Hl & Hk). rewrite E1 in E. simpl in E.
  injection E as <-. exists seq. rewrite <- Hk, <- Hl.
  destruct (pebble seq (record_items 0 rs)) as [Ph Pr]; [done|lia|done|]. split_and!; [exact Ph|lia|exact Pr].
Qed.

(** ** Loading *)

(** What loading a log leaves alone. *)
Definition load_frame (s s' : store) : Prop :=
  closed s' = closed s /\ wal s' = wal s /\ pendingRecords s' = pendingRecords s /\
  pruneRecordsSinceCleanup s' = pruneRecordsSinceCleanup s /\
  (is_u64 (nextBatchSeqNum s) -> is_u64 (nextBatchSeqNum s')).

Lemma index_load_frame s s' : index_frame s s' -> load_frame s s'.
Proof. unfold index_frame, load_frame. naive_solver congruence. Qed.

Lemma load_frame_trans s1 s2 s3 : load_frame s1 s2 -> load_frame s2 s3 -> load_frame s1 s3.
Proof. unfold load_frame. intros. destruct_and!. split_and!; try congruence. auto. Qed.

Lemma index_ok_seq s L n : index_ok s L -> index_ok (set_seq s n) L.
Proof. intros [He Hn Hf Hr]. by split. Qed.

Lemma record_kind (r : env) :
  record_ok r -> (Kind r =? walRecordEntry) || (Kind r =? walRecordPruneUpToHeight) = true.
Proof. by intros [own [] ?|h ?]. Qed.

Lemma wp_applyRecords rs count seen s L n :
  Forall record_ok rs -> index_ok s L -> 1 <= n -> 0 <= prunedUpToHeight s ->
  0 <= seen -> seen + Z.of_nat (length rs) = count -> count < 2 ^ 32 ->
  wp (applyRecords keyKindSet n count seen ((fun r => (keyKindSet, payload_bytes r)) <$> rs) false) (fun _ s' =>
    index_ok s' (L ++ located n rs) /\ load_frame s s' /\
    prunedUpToHeight s' = prune_max (prunedUpToHeight s) rs) s.
Proof.
  intros Hrs. revert seen s L. induction Hrs as [|r rs Hr _ IH]; intros seen s L Hs Hn Hp Hseen Hc Hlt; simpl.
  - simpl in Hc. destruct (Z.eqb_spec seen count); [|lia]. simpl. wp_step. rewrite app_nil_r.
    split_and!; [done|by apply index_load_frame|done].
  - rewrite Z.eqb_refl. simpl. wp_step. unfold applyEncodedRecord. rewrite decode_payload by done.
    rewrite record_kind by done.
    eapply wp_mono; [by apply wp_applyRecord|]. intros _ s1 (Hs1 & Hf1 & Hp1).
    assert (Eu : u32 (seen + 1) = seen + 1) by (apply Z.mod_small; simpl in Hc; lia). rewrite Eu.
    eapply wp_mono; [apply (IH (seen + 1) s1 _ Hs1); simpl in Hc; lia|]. intros _ s2 (Hs2 & Hf2 & Hp2).
    change (r :: rs) with ([r] ++ rs). rewrite located_app, app_assoc. split_and!; [done| |].
    + eapply load_frame_trans; [by apply index_load_frame|done].
    + by rewrite Hp2, Hp1.
Qed.

Lemma wp_applyEncodedBatch b rs s L n :
  batch_enc b rs -> index_ok s L -> 1 <= n -> 0 <= prunedUpToHeight s ->
  wp (applyEncodedBatch keyKindSet readHeader readRecords n b) (fun _ s' =>
    index_ok s' (L ++ located n rs) /\ load_frame s s' /\
    prunedUpToHeight s' = prune_max (prunedUpToHeight s) rs) s.
Proof using Type*.
  intros Hb Hs Hn Hp. destruct (batch_reads b rs Hb) as (seq & E1 & Hlt & E2).
  destruct Hb as (_ & _ & _ & Hrs). unfold applyEncodedBatch. rewrite E1, E2. wp_step. wp_step.
  set (s1 := if _ : bool then _ else s).
  assert (Hs1 : index_ok s1 L /\ load_frame s s1 /\ prunedUpToHeight s1 = prunedUpToHeight s).
  { unfold s1. destruct (nextBatchSeqNum s <? _).
    - split_and!; [by apply index_ok_seq| |done]. split_and!; try done. intros _. apply u64_range.
    - split_and!; [done|by apply index_load_frame|done]. }
  destruct Hs1 as (Hs1 & Hf1 & Hp1).
  eapply wp_mono; [apply (wp_applyRecords rs _ 0 s1 L n); try done; lia|].
  intros _ s2 (Hs2 & Hf2 & Hp2). split_and!; [done|by eapply load_frame_trans|by rewrite Hp2, Hp1].
Qed.

Lemma prune_max_app W rs rs' : prune_max W (rs ++ rs') = prune_max (prune_max W rs) rs'.
Proof. apply foldl_app. Qed.

Lemma wp_loadLogicalLog c off bs rss stop res tol fuel s L n :
  reads c off bs stop res -> (res = ReadEof \/ tol = true) -> (length bs < fuel)%nat ->
  Forall2 batch_enc bs rss -> index_ok s L -> 1 <= n -> 0 <= prunedUpToHeight s ->
  wp (loadLogicalLog keyKindSet readHeader readRecords fuel n tol c off) (fun _ s' =>
    index_ok s' (L ++ located n (concat rss)) /\ load_frame s s' /\
    prunedUpToHeight s' = prune_max (prunedUpToHeight s) (concat rss)) s.
Proof using Type*.
  intros Hr He. revert fuel rss s L.
  induction Hr as [off res En Hend|off b next bs stop res En _ IH]; intros [|k] rss s L Hk Hb Hs Hn Hp; cbn [length] in Hk; try lia;
    cbn [loadLogicalLog]; rewrite En.
  - apply Forall2_nil_inv_l in Hb as ->. cbn [concat located]. unfold located. simpl. rewrite app_nil_r.
    assert (Hpost : index_ok s L /\ load_frame s s /\ prunedUpToHeight s = prune_max (prunedUpToHeight s) ([] : list env))
      by (split_and!; [done|by apply index_load_frame|done]).
    destruct Hend as [-> | ->]; [by wp_steps|]. destruct He as [?| ->]; [done|]. by wp_steps.
  - apply Forall2_cons_inv_l in Hb as (rs & rss' & Hb & Hbs & ->). cbn [concat].
    wp_step. eapply wp_mono; [by apply (wp_applyEncodedBatch b rs)|]. intros _ s1 (Hs1 & Hf1 & Hp1).
    pose proof (prune_max_ge (prunedUpToHeight s) rs).
    eapply wp_mono; [apply (IH He k rss' s1 _ ltac:(lia) Hbs Hs1); lia|]. intros _ s2 (Hs2 & Hf2 & Hp2).
    rewrite located_app, app_assoc, prune_max_app, <- Hp1.
    split_and!; [done|by eapply load_frame_trans|done].
Qed.

(** The records of the files. *)
Definition log_enc (x : Z * list (list Z)) (y : Z * list (list env)) : Prop :=
  x.1 = y.1 /\ Forall2 batch_enc x.2 y.2.

Definition all_entries (C : list (Z * list (list env))) : list (Z * went) :=
  C ≫= fun x => located x.1 (concat x.2).

Definition all_records (C : list (Z * list (list env))) : list env := C ≫= fun x => concat x.2.

(** The bytes of a file that was closed or recovered. *)
Definition file_clean (x : Z * list Z) (y : Z * list (list Z)) : Prop := x.1 = y.1 /\ clean x.2 y.2.

Lemma wp_loadExistingEntries logs D C s L :
  Forall2 file_clean logs D -> Forall2 log_enc D C -> index_ok s L -> Forall (fun x => 1 <= x.1) logs ->
  0 <= prunedUpToHeight s ->
  wp (loadExistingEntries keyKindSet readHeader readRecords logs) (fun _ s' =>
    index_ok s' (L ++ all_entries C) /\ load_frame s s' /\
    prunedUpToHeight s' = prune_max (prunedUpToHeight s) (all_records C)) s.
Proof using Type*.
  intros Hc. revert C s L. induction Hc as [|[n c] [n' bs] logs D [En Hc] _ IH]; intros C s L HC Hs Hn Hp; simpl.
  - apply Forall2_nil_inv_l in HC as ->. wp_step. rewrite app_nil_r. split_and!; [done|by apply index_load_frame|done].
  - apply Forall2_cons_inv_l in HC as ([n1 rss] & C' & [En1 Hb] & HC & ->).
    apply Forall_cons in Hn as [Hn Hns]. simpl in *. subst n' n1. wp_step.
    eapply wp_mono; [eapply (wp_loadLogicalLog c 0 bs rss _ ReadEof _ (S (length c))); try done;
      [by apply clean_reads|by left|]|].
    { pose proof (content_length bs). destruct Hc as [->| ->]; rewrite ?length_app; lia. }
    intros _ s1 (Hs1 & Hf1 & Hp1). pose proof (prune_max_ge (prunedUpToHeight s) (concat rss)).
    eapply wp_mono; [apply (IH C' s1 _ HC Hs1 Hns); lia|]. intros _ s2 (Hs2 & Hf2 & Hp2).
    change (all_entries ((n, rss) :: C')) with (located n (concat rss) ++ all_entries C').
    change (all_records ((n, rss) :: C')) with (concat rss ++ all_records C').
    rewrite app_assoc, prune_max_app, <- Hp1.
    split_and!; [done|by eapply load_frame_trans|done].
Qed.

(** ** The invariant of the store *)

(** The watermark in the directory. *)
Definition watermark (w : walWriter) : Z :=
  match loadPruneWatermark (dir w) with Ok h => h | _ => 0 end.

Lemma load_written i h d b d' :
  is_u64 h -> writePruneWatermark i h d = (b, d') ->
  d_logs d' = d_logs d /\
  (b = true /\ d' = d \/ loadPruneWatermark d' = Ok h).
Proof.
  intros Hh. unfold writePruneWatermark.
  assert (E : loadPruneWatermark (mkDir (d_logs d) (Some (pruneWatermarkHeader ++ be_bytes 8 h))) = Ok h).
  { unfold loadPruneWatermark. cbn [d_watermark]. rewrite length_app, length_be_bytes.
    rewrite take_app_length, drop_app_length, bool_decide_true, be_val_bytes, Z.mod_small by done. done. }
  destruct (io_watermark i); intros [= <- <-]; auto.
Qed.

(** The files are numbered below the next number. *)
Record writer_ok (w : walWriter) : Prop := {
  wr_next : 1 <= nextWALNum w < 2 ^ 64;
  wr_nums : Forall (fun x => 1 <= x.1 < nextWALNum w) (d_logs (dir w));
  wr_distinct : NoDup (d_logs (dir w)).*1;
  wr_open : writerOpen w = true -> repairRequired w = false;
  wr_watermark : loadPruneWatermark (dir w) = Ok (watermark w) /\ is_u64 (watermark w);
}.

(** The files hold the batches [D], with nothing behind them but in the last file,
    which may end with the batch [ub] that was not acknowledged. *)
Definition logs_hold (logs : list (Z * list Z)) (D : list (Z * list (list Z))) (ub : option (list Z)) : Prop :=
  Forall2 file_clean logs D \/
  exists pre Dp n c bs, logs = pre ++ [(n, c)] /\ D = Dp ++ [(n, bs)] /\ Forall2 file_clean pre Dp /\
    (loose c bs \/ exists b, ub = Some b /\ loose c (bs ++ [b])).

Record holds (w : walWriter) (D : list (Z * list (list Z))) (ub : option (list Z)) : Prop := {
  hl_logs : logs_hold (d_logs (dir w)) D ub;
  hl_clean : repairRequired w = false -> Forall2 file_clean (d_logs (dir w)) D;
  hl_open : writerOpen w = true -> exists pre Dp bs,
    d_logs (dir w) = pre ++ [(currentWALNum w, content bs)] /\ D = Dp ++ [(currentWALNum w, bs)] /\
    Forall2 file_clean pre Dp /\ currentWALSyncedOffset w = len (content bs);
}.

(** The directory holds the live entries and the watermark; [u] are the records
    of a batch that was not acknowledged and may be in the last file. *)
Definition dir_ok (s : store) (u : option (list env)) : Prop :=
  exists D C ub, holds (wal s) D ub /\ (forall b, ub = Some b -> exists rs, u = Some rs /\ batch_enc b rs) /\
    Forall2 log_enc D C /\ index_ok s (all_entries C) /\
    prunedUpToHeight s = prune_max (watermark (wal s)) (all_records C).

Record store_inv (s : store) (u : option (list env)) : Prop := {
  si_writer : writer_ok (wal s);
  si_dir : dir_ok s u;
  si_pending : Forall record_ok (pendingRecords s);
  si_seq : is_u64 (nextBatchSeqNum s);
}.

(** Without a file that needs repair, nothing unacknowledged is left. *)
Lemma holds_clean w D ub ub' : holds w D ub -> repairRequired w = false -> holds w D ub'.
Proof. intros [Hl Hc Ho] Hr. split; [left; by apply Hc|done|done]. Qed.

Lemma dir_ok_clean s u u' : dir_ok s u -> repairRequired (wal s) = false -> dir_ok s u'.
Proof.
  intros (D & C & ub & Hh & _ & HC & Hi & Hp) Hr. exists D, C, None.
  split_and!; [by eapply holds_clean|done|done|done|done].
Qed.

Lemma prune_max_le W rs r : r ∈ rs -> record_prune_height r <= prune_max W rs.
Proof.
  revert W. induction rs as [|r' rs IH]; intros W Hin; [by apply elem_of_nil in Hin|].
  unfold prune_max. cbn [foldl]. apply elem_of_cons in Hin as [->|Hin].
  - pose proof (prune_max_ge (Z.max W (record_prune_height r')) rs). unfold prune_max in *. lia.
  - by apply IH.
Qed.

Lemma prune_max_stay W rs : Forall (fun r => record_prune_height r <= W) rs -> prune_max W rs = W.
Proof.
  unfold prune_max. induction 1 as [|r rs Hr _ IH]; simpl; [done|]. by rewrite Z.max_l by lia.
Qed.

Lemma prune_max_u64 W rs : is_u64 W -> Forall record_ok rs -> is_u64 (prune_max W rs).
Proof.
  intros HW Hrs. revert W HW. unfold prune_max.
  induction Hrs as [|r rs Hr _ IH]; intros W HW; simpl; [done|]. apply IH.
  assert (record_prune_height r < 2 ^ 64); [|lia].
  destruct Hr as [own e He|h Hh]; unfold record_prune_height; simpl; [by destruct e|lia].
Qed.

Lemma log_records_ok logs C : Forall2 log_enc logs C -> Forall record_ok (all_records C).
Proof.
  induction 1 as [|[n bs] [n' rss] logs C [_ Hb] _ IH]; [constructor|]. unfold all_records. rewrite bind_cons.
  apply Forall_app. split; [|done]. simpl in Hb. induction Hb as [|b rs bs rss (seq & _ & _ & Hrs) _ IHb]; [constructor|].
  simpl. by apply Forall_app.
Qed.

Lemma dir_ok_pruned s u : writer_ok (wal s) -> dir_ok s u -> is_u64 (prunedUpToHeight s).
Proof.
  intros Hw (D & C & ub & _ & _ & HC & _ & ->). apply prune_max_u64; [apply (wr_watermark _ Hw)|by eapply log_records_ok].
Qed.

Lemma store_inv_pruned s u : store_inv s u -> 0 <= prunedUpToHeight s.
Proof. intros [Hw Hd _ _]. pose proof (dir_ok_pruned s u Hw Hd). lia. Qed.

(** ** Writing a batch *)

(** The batches with [b] appended to the last file, or to a new one. *)
Definition appended (D D' : list (Z * list (list Z))) (n : Z) (b : list Z) : Prop :=
  exists Dp bs, D' = Dp ++ [(n, bs ++ [b])] /\ (D = Dp ++ [(n, bs)] \/ (D = Dp /\ bs = [])) /\ 1 <= n.

(** The batches, with a new file or not. *)
Definition maybe_new (D D' : list (Z * list (list Z))) : Prop := D' = D \/ exists n, 1 <= n /\ D' = D ++ [(n, [])].

Lemma file_clean_nums logs D : Forall2 file_clean logs D -> logs.*1 = D.*1.
Proof. induction 1 as [|x y logs D [E _] _ IH]; [done|]. cbn. by rewrite E, IH. Qed.

Lemma file_clean_snoc pre Dp n c bs :
  Forall2 file_clean pre Dp -> clean c bs -> Forall2 file_clean (pre ++ [(n, c)]) (Dp ++ [(n, bs)]).
Proof. intros Hf Hc. apply Forall2_app; [done|]. constructor; [done|constructor]. Qed.

Lemma wpe_ensureWriter i w D ub :
  writer_ok w -> holds w D ub -> nextWALNum w < 2 ^ 64 - 1 ->
  wpe (ensureWriter i) (fun n w' =>
    writer_ok w' /\ watermark w' = watermark w /\ writerOpen w' = true /\ currentWALNum w' = n /\ 1 <= n /\
    repairRequired w = false /\ exists D', holds w' D' None /\ (D' = D \/ D' = D ++ [(n, [])]))
    (fun err w' => w' = w /\ err ≠ ErrWrite) w.
Proof.
  intros Hw Hh Hn. unfold ensureWriter, wpe, mbind, SE_bind, get_state.
  destruct (repairRequired w) eqn:Er; [done|]. destruct (writerOpen w) eqn:Eo.
  { split_and!; try done.
    - destruct (hl_open _ _ _ Hh Eo) as (pre & Dp & bs & El & _). pose proof (wr_nums _ Hw) as Hns. rewrite El in Hns.
      apply Forall_app in Hns as [_ Hns]. apply Forall_cons in Hns as [? _]. simpl in *. lia.
    - exists D. split; [by eapply holds_clean|by left]. }
  destruct (io_create i); [|done]. simpl. pose proof (hl_clean _ _ _ Hh Er) as Hc. destruct Hw as [Hnx Hnums Hd Ho Hwm].
  split_and!; [|done|done|done|lia|done|].
  - split; simpl; [rewrite u64_small by lia; lia| | |done|done].
    + rewrite u64_small by lia. apply Forall_app. split; [|repeat constructor; simpl; lia].
      eapply Forall_impl; [done|]. simpl. intros; lia.
    + rewrite fmap_app. apply NoDup_app. split_and!; [done| |apply NoDup_singleton].
      intros x Hx ->%list_elem_of_singleton. apply list_elem_of_fmap in Hx as (y & Ey & Hy).
      eapply Forall_forall in Hnums; [|done]. simpl in Ey. lia.
  - exists (D ++ [(nextWALNum w, [])]). split; [|by right].
    assert (Hf : Forall2 file_clean (d_logs (dir w) ++ [(nextWALNum w, [])]) (D ++ [(nextWALNum w, [])])).
    { apply file_clean_snoc; [done|by left]. }
    split; simpl; [by left|done|]. intros _. by exists (d_logs (dir w)), D, [].
Qed.

Lemma NoDup_nums_last {T} (pre : list (Z * T)) n x : NoDup (pre ++ [(n, x)]).*1 -> n ∉ pre.*1.
Proof. rewrite fmap_app. intros (_ & Hd & _)%NoDup_app Hn. apply (Hd n Hn). simpl. set_solver. Qed.

(** Changing the bytes of the last file keeps the writer well-formed. *)
Lemma writer_ok_logs w w' pre n c c' :
  writer_ok w -> d_logs (dir w) = pre ++ [(n, c)] -> d_logs (dir w') = pre ++ [(n, c')] ->
  nextWALNum w' = nextWALNum w -> d_watermark (dir w') = d_watermark (dir w) ->
  (writerOpen w' = true -> repairRequired w' = false) -> writer_ok w' /\ watermark w' = watermark w.
Proof.
  intros [Hnx Hnums Hd _ Hwm] El El' En Ewm Ho. rewrite El in Hnums, Hd.
  assert (Eload : loadPruneWatermark (dir w') = loadPruneWatermark (dir w)) by (unfold loadPruneWatermark; by rewrite Ewm).
  assert (Ewm' : watermark w' = watermark w) by (unfold watermark; by rewrite Eload).
  split; [|done]. split; rewrite ?El', ?En, ?Ewm', ?Eload; try done.
  - apply Forall_app in Hnums as [? Hl]. apply Forall_app. split; [done|].
    apply Forall_cons in Hl as [? _]. by apply Forall_singleton.
  - by rewrite fmap_app in *.
Qed.

(** Closing the open file, whatever it leaves: the batches are there, with the
    unacknowledged one or not. *)
Lemma closeAndRepair_ok i left force w D ub pre Dp bs :
  writer_ok w -> writerOpen w = true ->
  d_logs (dir w) = pre ++ [(currentWALNum w, content bs)] -> D = Dp ++ [(currentWALNum w, bs)] ->
  Forall2 file_clean pre Dp -> currentWALSyncedOffset w = len (content bs) ->
  (loose (content bs ++ left) bs \/ exists b, ub = Some b /\ loose (content bs ++ left) (bs ++ [b])) ->
  (force = false -> io_close i = true -> clean (content bs ++ left) bs) ->
  let w' := (closeAndRepairCurrent i left (currentWALSyncedOffset w) force w).2 in
  writer_ok w' /\ writerOpen w' = false /\ holds w' D ub /\ watermark w' = watermark w.
Proof.
  intros Hw Eo El ED Hf Eoff Hloose Hclean.
  assert (Hn : currentWALNum w ∉ pre.*1) by (pose proof (wr_distinct _ Hw) as Hd; rewrite El in Hd; by eapply NoDup_nums_last).
  unfold closeAndRepairCurrent, closeCurrent. rewrite Eo, El, alter_last by done. cbn [negb].
  assert (Hok : forall c b, let w' := set_repair (mkWriter (mkDir (pre ++ [(currentWALNum w, content bs ++ left)]) (d_watermark (dir w)))
       (nextWALNum w) false 0 0 (repairRequired w)) (mkDir (pre ++ [(currentWALNum w, c)]) (d_watermark (dir w))) b in
     (loose c bs \/ exists b, ub = Some b /\ loose c (bs ++ [b])) -> (b = false -> clean c bs) ->
     writer_ok w' /\ writerOpen w' = false /\ holds w' D ub /\ watermark w' = watermark w).
  { intros c b w' Hl Hc. destruct (writer_ok_logs w w' pre (currentWALNum w) (content bs) c) as [Hw' Ewm]; try done.
    split_and!; [done|done| |done]. split; [right; by exists pre, Dp, (currentWALNum w), c, bs| |done].
    intros Hb. cbn. rewrite ED. apply file_clean_snoc; [done|by apply Hc]. }
  assert (Hcut : forall b, (b : bool) = b -> loose (content bs) bs /\ clean (content bs) bs).
  { intros _ _. assert (clean (content bs) bs) by (by left). split; [by apply clean_loose|done]. }
  destruct (Hcut false eq_refl) as [Hl0 Hc0]. clear Hcut.
  cbn [negb]. rewrite negb_involutive. destruct (io_close i && negb force) eqn:Ec.
  - cbn [snd]. apply andb_prop in Ec as [Ec Efo%negb_true_iff]. by apply (Hok (content bs ++ left) false); [|intros _; apply Hclean].
  - cbn [dir]. rewrite Eoff, repair_last by done. destruct (io_repair i); cbn [snd].
    + by apply (Hok (content bs) false); [left|].
    + by apply (Hok (content bs ++ left) true).
    + by apply (Hok (content bs) true); [left|].
Qed.

Lemma current_size_last w pre bs :
  writer_ok w -> d_logs (dir w) = pre ++ [(currentWALNum w, content bs)] -> current_size w = len (content bs).
Proof.
  intros Hw El. pose proof (wr_distinct _ Hw) as Hd. unfold current_size. rewrite El in *.
  by rewrite lookup_last by (by eapply NoDup_nums_last).
Qed.

(** Closing the file after a successful write. *)
Lemma close_synced_ok i w D ub :
  writer_ok w -> holds w D ub ->
  let w' := (rotateAfterSynced i w).2 in
  writer_ok w' /\ writerOpen w' = false /\ holds w' D ub /\ watermark w' = watermark w.
Proof.
  intros Hw Hh. unfold rotateAfterSynced. destruct (writerOpen w) eqn:Eo.
  2:{ unfold closeAndRepairCurrent. by rewrite Eo. }
  destruct (hl_open _ _ _ Hh Eo) as (pre & Dp & bs & El & ED & Hf & Eoff).
  assert (Es : current_size w = len (content bs)) by (by eapply current_size_last).
  eapply closeAndRepair_ok; try done.
  - left. unfold closing. rewrite Es. destruct (io_close i); [apply clean_loose; by right|apply closing_loose].
  - intros _ Ec. unfold closing. rewrite Ec, Es. by right.
Qed.

Lemma wpe_appendSync i b w D ub :
  writer_ok w -> holds w D ub -> nextWALNum w < 2 ^ 64 - 1 ->
  wpe (appendSync i b) (fun n w' => writer_ok w' /\ watermark w' = watermark w /\ repairRequired w' = false /\
      exists D', holds w' D' None /\ appended D D' n b)
    (fun err w' => writer_ok w' /\ watermark w' = watermark w /\
       (w' = w /\ err ≠ ErrWrite \/
        err = ErrWrite /\ repairRequired w = false /\ exists D', maybe_new D D' /\ holds w' D' (Some b))) w.
Proof.
  intros Hw Hh Hn. unfold appendSync. apply wpe_bind. eapply wpe_mono; [by eapply wpe_ensureWriter| |].
  2:{ intros err w' [-> He]. split_and!; [done|done|by left]. }
  intros n w1 (Hw1 & Hwm & Eo & Ec & Hn1 & Er & D1 & Hh1 & HD). unfold mbind, SE_bind, get_state, wpe.
  destruct (hl_open _ _ _ Hh1 Eo) as (pre & Dp & bs & El & ED & Hf & Eoff). rewrite (current_size_last w1 pre bs) by done.
  assert (Hni : n ∉ pre.*1) by (pose proof (wr_distinct _ Hw1) as Hd; rewrite El, Ec in Hd; by eapply NoDup_nums_last).
  assert (Esz : len (content bs) + Z.of_nat (length (pl_frame (len (content bs)) b)) = len (content (bs ++ [b]))).
  { rewrite content_snoc. unfold len. rewrite length_app. lia. }
  rewrite Esz. destruct (io_write i); simpl.
  - rewrite El, Ec, alter_last, <- content_snoc by done.
    match goal with |- writer_ok ?w2 /\ _ => destruct (writer_ok_logs w1 w2 pre n (content bs) (content (bs ++ [b]))) as [Hw2 Ewm2];
      [done|by rewrite El, Ec|done|done|done|by intros _; apply (wr_open _ Hw1)|] end.
    split_and!; [done|by rewrite Ewm2|by apply (wr_open _ Hw1)|].
    assert (Hf2 : Forall2 file_clean (pre ++ [(n, content (bs ++ [b]))]) (Dp ++ [(n, bs ++ [b])])).
    { apply file_clean_snoc; [done|by left]. }
    exists (Dp ++ [(n, bs ++ [b])]). split; [split; [by left|done|]|].
    + intros _. exists pre, Dp, (bs ++ [b]). done.
    + exists Dp, bs. split_and!; [done| |done]. rewrite ED, Ec in HD. destruct HD as [HD|HD]; [by left|right].
      apply app_inj_2 in HD as [-> [= ->]]; done.
  - destruct (closeAndRepair_ok i (take (io_left i) (pl_frame (len (content bs)) b ++ pl_trailer (len (content (bs ++ [b])))))
      true w1 D1 (Some b) pre Dp bs) as (Hw2 & _ & Hh2 & Ewm2); try done.
    { destruct (torn_loose bs b (io_left i)); [by left|right; eauto]. }
    unfold abortUncommitted. split_and!; [done|by rewrite Ewm2|right]. split_and!; [done|done|].
    exists D1. split; [|done]. destruct HD as [->| ->]; [by left|right; eauto].
Qed.

(** ** Removing files *)

Definition kept {T} (gone : list Z) (l : list (Z * T)) : list (Z * T) := filter (fun x => x.1 ∉ gone) l.

Lemma kept_all {T} (l : list (Z * T)) : kept [] l = l.
Proof. unfold kept. induction l as [|x l IH]; [done|]. rewrite filter_cons, decide_True by set_solver. by rewrite IH. Qed.

Lemma kept_cons {T} n gone (l : list (Z * T)) : kept gone (filter (fun x => x.1 ≠ n) l) = kept (n :: gone) l.
Proof.
  unfold kept. induction l as [|x l IH]; [done|]. rewrite !filter_cons.
  destruct (decide (x.1 ≠ n)) as [Hn|Hn].
  - rewrite filter_cons. destruct (decide (x.1 ∉ gone)), (decide (x.1 ∉ n :: gone)); rewrite ?IH; try done; set_solver.
  - destruct (decide (x.1 ∉ n :: gone)); [|done]. apply dec_stable in Hn. set_solver.
Qed.

Lemma removeFiles_kept remove ns logs :
  exists gone, Forall (fun n => n ∈ ns) gone /\ (removeFiles remove ns logs).2 = kept gone logs.
Proof.
  revert logs. induction ns as [|n ns IH]; intros logs; simpl; [by exists []; rewrite kept_all|].
  destruct (remove n); [|by exists []; rewrite kept_all].
  destruct (IH (filter (fun x => x.1 ≠ n) logs)) as (gone & Hg & E). exists (n :: gone). split.
  - constructor; [set_solver|]. eapply Forall_impl; [done|]. set_solver.
  - by rewrite E, kept_cons.
Qed.

Lemma log_enc_kept gone logs C : Forall2 log_enc logs C -> Forall2 log_enc (kept gone logs) (kept gone C).
Proof.
  induction 1 as [|x y logs C [E Hb] _ IH]; [constructor|]. unfold kept in *. rewrite !filter_cons, E.
  destruct (decide (y.1 ∉ gone)); [|done]. by constructor.
Qed.

Lemma kept_located gone n rs : kept gone (located n rs) = if decide (n ∈ gone) then [] else located n rs.
Proof.
  unfold kept, located. induction (rs ≫= record_entries) as [|e l IH]; [by destruct (decide _)|].
  rewrite fmap_cons, filter_cons, IH. cbn [fst].
  by destruct (decide (n ∉ gone)), (decide (n ∈ gone)).
Qed.

Lemma all_entries_kept gone (C : list (Z * list (list env))) : all_entries (kept gone C) = kept gone (all_entries C).
Proof.
  induction C as [|[n rss] C IH]; [done|].
  change (all_entries ((n, rss) :: C)) with (located n (concat rss) ++ all_entries C).
  unfold kept at 2. rewrite filter_app. fold (kept gone (located n (concat rss))) (kept gone (all_entries C)).
  rewrite kept_located. unfold kept at 1. rewrite filter_cons. simpl. fold (kept gone C).
  destruct (decide (n ∉ gone)), (decide (n ∈ gone)); try done.
  change (all_entries ((n, rss) :: kept gone C)) with (located n (concat rss) ++ all_entries (kept gone C)).
  by rewrite IH.
Qed.

Lemma all_records_kept gone (C : list (Z * list (list env))) r :
  r ∈ all_records (kept gone C) -> r ∈ all_records C.
Proof.
  unfold all_records. rewrite !list_elem_of_bind. intros (x & Hr & Hx). exists x. split; [done|].
  by apply list_elem_of_filter in Hx as [_ ?].
Qed.

Lemma at_height_kept gone h (L : list (Z * went)) :
  (forall n e, (n, e) ∈ L -> entry_height e = h -> n ∉ gone) -> at_height h (kept gone L) = at_height h L.
Proof.
  intros Hg. unfold at_height. f_equal. induction L as [|[n e] L IH]; [done|].
  assert (IH' : filter (fun x => entry_height x.2 = h) (kept gone L) = filter (fun x => entry_height x.2 = h) L).
  { apply IH. intros n' e' Hin. apply Hg. set_solver. }
  unfold kept. rewrite !filter_cons. cbn [fst snd]. fold (kept gone L).
  destruct (decide (entry_height e = h)) as [He|He].
  - rewrite decide_True by (apply (Hg n e); [set_solver|done]). rewrite filter_cons. cbn [snd].
    rewrite decide_True by done. by rewrite IH'.
  - destruct (decide (n ∉ gone)); [|done]. rewrite filter_cons. cbn [snd]. by rewrite decide_False.
Qed.

Lemma index_ok_kept s L gone :
  index_ok s L -> (forall n e, (n, e) ∈ L -> n ∈ gone -> entry_height e <= prunedUpToHeight s) ->
  index_ok s (kept gone L).
Proof.
  intros [He Hn Hf Hr] Hg. split; [|done| |done].
  - intros h. rewrite He. destruct (Z.ltb_spec (prunedUpToHeight s) h); [|done].
    rewrite at_height_kept; [done|]. intros n e Hin <- Hgone. specialize (Hg n e Hin Hgone). lia.
  - intros n e Hin. apply Hf. by apply list_elem_of_filter in Hin as [_ ?].
Qed.

Lemma foldl_min_le (l : list Z) m :
  foldl (fun m n => if n <? m then n else m) m l <= m /\
  forall n, n ∈ l -> foldl (fun m n => if n <? m then n else m) m l <= n.
Proof.
  revert m. induction l as [|x l IH]; intros m; simpl; [split; [lia|set_solver]|].
  destruct (IH (if x <? m then x else m)) as [H1 H2]. split; [bool_cases; lia|].
  intros n [->|Hn]%elem_of_cons; [bool_cases; lia|by apply H2].
Qed.

(** A file with a live entry is not below the smallest live number. *)
Lemma minLive_le s L n e :
  index_ok s L -> (n, e) ∈ L -> prunedUpToHeight s < entry_height e -> minLive s <= n.
Proof.
  intros [He Hnum Hf Hr] Hin Hlt. destruct (Hf n e Hin Hlt) as (ns & E & Hns).
  unfold minLive. apply foldl_min_le. apply list_elem_of_fmap.
  assert (Hc : 0 < ref_count (walFilesByHeight s) n).
  { rewrite (ref_count_delete _ _ _ n E), decide_True by done.
    pose proof (ref_count_nonneg (delete (entry_height e) (walFilesByHeight s)) n). lia. }
  exists (n, ref_count (walFilesByHeight s) n). split; [done|]. apply elem_of_map_to_list.
  rewrite Hr. unfold pos_count. by destruct (Z.eqb_spec (ref_count (walFilesByHeight s) n) 0); [lia|].
Qed.

Lemma writer_ok_kept w gone :
  writer_ok w -> writerOpen w = false ->
  writer_ok (set_dir w (mkDir (kept gone (d_logs (dir w))) (d_watermark (dir w)))).
Proof.
  intros [Hnx Hnums Hd Ho Hwm] Ec. split; simpl; try done; [|].
  - apply Forall_forall. intros x Hx. apply list_elem_of_filter in Hx as [_ Hx].
    by eapply Forall_forall in Hnums.
  - clear -Hd. unfold kept. induction (d_logs (dir w)) as [|x l IH]; [done|].
    rewrite fmap_cons in Hd. apply NoDup_cons in Hd as [Hx Hd]. rewrite filter_cons.
    destruct (decide (x.1 ∉ gone)); [|by apply IH]. rewrite fmap_cons. apply NoDup_cons. split; [|by apply IH].
    intros (y & Ey & Hy)%list_elem_of_fmap. apply Hx, list_elem_of_fmap. exists y. split; [done|].
    by apply list_elem_of_filter in Hy as [_ ?].
Qed.

Lemma file_clean_kept gone logs D : Forall2 file_clean logs D -> Forall2 file_clean (kept gone logs) (kept gone D).
Proof.
  induction 1 as [|x y logs D [E Hb] _ IH]; [constructor|]. unfold kept in *. rewrite !filter_cons, E.
  destruct (decide (y.1 ∉ gone)); [|done]. by constructor.
Qed.

Lemma kept_snoc {T} gone (l : list (Z * T)) n x :
  kept gone (l ++ [(n, x)]) = if decide (n ∈ gone) then kept gone l else kept gone l ++ [(n, x)].
Proof.
  unfold kept. rewrite filter_app, filter_cons, filter_nil. cbn [fst].
  destruct (decide (n ∉ gone)), (decide (n ∈ gone)); try done; by rewrite app_nil_r.
Qed.

Lemma logs_hold_kept gone logs D ub : logs_hold logs D ub -> logs_hold (kept gone logs) (kept gone D) ub.
Proof.
  intros [Hc|(pre & Dp & n & c & bs & -> & -> & Hf & Hl)]; [left; by apply file_clean_kept|].
  rewrite !kept_snoc. pose proof (file_clean_kept gone _ _ Hf). destruct (decide (n ∈ gone)); [by left|right].
  by exists (kept gone pre), (kept gone Dp), n, c, bs.
Qed.

Lemma holds_kept w D ub gone :
  holds w D ub -> writerOpen w = false ->
  holds (set_dir w (mkDir (kept gone (d_logs (dir w))) (d_watermark (dir w)))) (kept gone D) ub.
Proof.
  intros [Hl Hc Ho] Eo. split; simpl; [by apply logs_hold_kept|intros Hr; by apply file_clean_kept, Hc|congruence].
Qed.

(** The parts of the state the invariant of the index does not depend on. *)
Lemma index_ok_ext s s' L :
  index_ok s L -> entriesByHeight s' = entriesByHeight s -> walFilesByHeight s' = walFilesByHeight s ->
  walHeightRefs s' = walHeightRefs s -> prunedUpToHeight s' = prunedUpToHeight s -> index_ok s' L.
Proof. intros [He Hn Hf Hr] E1 E2 E3 E4. split; rewrite ?E1, ?E2, ?E3, ?E4; done. Qed.

(** What cleaning up keeps. *)
Definition cleaned (s s' : store) : Prop :=
  closed s' = closed s /\ nextBatchSeqNum s' = nextBatchSeqNum s /\ pendingRecords s' = pendingRecords s /\
  entriesByHeight s' = entriesByHeight s /\ walFilesByHeight s' = walFilesByHeight s /\
  walHeightRefs s' = walHeightRefs s /\ prunedUpToHeight s' = prunedUpToHeight s.

Lemma cleanup_ok i s u :
  writer_ok (wal s) -> dir_ok s u -> writerOpen (wal s) = false ->
  prunedUpToHeight s = watermark (wal s) ->
  let s' := (cleanupObsoleteWALs i s).2 in
  writer_ok (wal s') /\ dir_ok s' u /\ cleaned s s'.
Proof.
  intros Hw (D & C & ub & Hh & Hu & HC & Hi & Hp) Eo Ewm. unfold cleanupObsoleteWALs.
  destruct (io_obsolete i) as [ns|]; [|split; [done|split; [by exists D, C, ub|done]]].
  destruct (removeFiles_kept (io_remove i) (filter (fun n => n < minLive s) ns) (d_logs (dir (wal s))))
    as (gone & Hg & E).
  destruct (removeFiles _ _ _) as [failed logs]. simpl in E. subst logs. simpl.
  assert (Hlow : forall n, n ∈ gone -> n < minLive s).
  { intros n Hn. eapply Forall_forall in Hg; [|done]. by apply list_elem_of_filter in Hg as [? _]. }
  split; [by apply writer_ok_kept|split; [|done]]. exists (kept gone D), (kept gone C), ub.
  split_and!; [by apply holds_kept|done|by apply log_enc_kept| |].
  - rewrite all_entries_kept. apply (index_ok_ext s); [|done..]. apply index_ok_kept; [done|].
    intros n e Hin Hgone. destruct (Z.lt_ge_cases (prunedUpToHeight s) (entry_height e)) as [Hlt|]; [|done].
    pose proof (minLive_le s _ n e Hi Hin Hlt). pose proof (Hlow n Hgone). lia.
  - simpl. change (watermark _) with (watermark (wal s)). rewrite Ewm at 1. symmetry. apply prune_max_stay.
    apply Forall_forall. intros r Hr%all_records_kept. rewrite <- Ewm, Hp. by apply prune_max_le.
Qed.

(** The directory and the index after a change of the other parts. *)
Lemma dir_ok_ext s s' u :
  dir_ok s u -> (forall D ub, holds (wal s) D ub -> holds (wal s') D ub) -> watermark (wal s') = watermark (wal s) ->
  entriesByHeight s' = entriesByHeight s -> walFilesByHeight s' = walFilesByHeight s ->
  walHeightRefs s' = walHeightRefs s -> prunedUpToHeight s' = prunedUpToHeight s -> dir_ok s' u.
Proof.
  intros (D & C & ub & Hh & Hu & HC & Hi & Hp) Hwal Ew E1 E2 E3 E4. exists D, C, ub. rewrite Ew, E4.
  split_and!; [by apply Hwal|done|done|by eapply index_ok_ext|done].
Qed.

(** The watermark is at least as high as all prune marks that were committed. *)
Lemma watermark_written i s u b d' :
  writer_ok (wal s) -> dir_ok s u -> writePruneWatermark i (prunedUpToHeight s) (dir (wal s)) = (b, d') ->
  let w' := set_dir (wal s) d' in
  writer_ok w' /\ dir_ok (set_wal s w') u /\ (b = false -> watermark w' = prunedUpToHeight s).
Proof.
  intros Hw Hd Ewr w'. pose proof (dir_ok_pruned s u Hw Hd) as Hp0.
  destruct (load_written _ _ _ _ _ Hp0 Ewr) as (El & [[-> ->]|E]).
  { split; [by destruct Hw; split|]. split; [apply (dir_ok_ext s); try done; intros D ub [? ? ?]; by split|done]. }
  assert (Ewm : watermark w' = prunedUpToHeight s) by (unfold watermark, w'; simpl; by rewrite E).
  split_and!; [|destruct Hd as (D & C & ub & Hh & Hu & HC & Hi & Hp); exists D, C, ub; simpl|done].
  - destruct Hw. split; unfold w'; simpl; rewrite ?El; try done.
    change (loadPruneWatermark d' = Ok (watermark w') /\ is_u64 (watermark w')). by rewrite Ewm.
  - split_and!; [|done|done|by apply (index_ok_ext s)|].
    + destruct Hh as [Hl Hc Ho]. by split; unfold w'; simpl; rewrite El.
    + rewrite Ewm. symmetry. apply prune_max_stay. apply Forall_forall. intros r Hr. rewrite Hp. by apply prune_max_le.
Qed.

Lemma removeObsolete_ok i k s u :
  writer_ok (wal s) -> dir_ok s u ->
  let s' := (removeObsoleteWALFiles i k s).2 in
  writer_ok (wal s') /\ dir_ok s' u /\ cleaned s s'.
Proof.
  intros Hw Hd. unfold removeObsoleteWALFiles. destruct (k =? 0); [done|]. simpl.
  destruct (_ <? cleanupPruneRecordInterval).
  { split; [done|]. split; [by eapply dir_ok_ext|done]. }
  destruct (writePruneWatermark i (prunedUpToHeight s) (dir (wal s))) as [b d'] eqn:Ewr.
  destruct (watermark_written i s u b d' Hw Hd Ewr) as (Hw1 & Hd1 & Ewm1).
  destruct b; simpl; [split; [done|]; split; [by apply (dir_ok_ext _ _ _ Hd1)|done]|]. specialize (Ewm1 eq_refl).
  set (w1 := set_dir (wal s) d') in *. set (s1 := set_wal s w1) in *.
  destruct (rotateAfterSynced i w1) as [rotateErr w2] eqn:Erot.
  assert (Hrot : forall D ub, holds w1 D ub -> writer_ok w2 /\ writerOpen w2 = false /\ holds w2 D ub /\ watermark w2 = watermark w1).
  { intros D ub Hh. pose proof (close_synced_ok i w1 D ub Hw1 Hh) as Hc. by rewrite Erot in Hc. }
  assert (Hw2 : writer_ok w2 /\ writerOpen w2 = false /\ watermark w2 = watermark w1).
  { destruct Hd1 as (D & C & ub & Hh & _). destruct (Hrot D ub Hh) as (? & ? & _ & ?). done. }
  destruct Hw2 as (Hw2 & Eo & Ewm). set (s2 := set_wal _ w2).
  assert (Hd2 : dir_ok s2 u) by (apply (dir_ok_ext _ _ _ Hd1); try done; intros D ub Hh; by destruct (Hrot D ub Hh) as (_ & _ & ? & _)).
  destruct (cleanup_ok i s2 u) as (Hw3 & Hd3 & Hc3); [done|done|done|by transitivity (watermark w1)|].
  destruct (cleanupObsoleteWALs i s2) as [cleanupErr s3]. simpl in *.
  destruct (rotateErr || cleanupErr); simpl; [done|]. split; [done|]. split; [by apply (dir_ok_ext s3)|done].
Qed.

(** ** Flushing *)

(** The records were added to the index, with their prune marks. *)
Definition extended (s : store) (rs : list env) (s' : store) : Prop :=
  prunedUpToHeight s' = prune_max (prunedUpToHeight s) rs /\
  forall h, entriesByHeight s' !! h =
    if prunedUpToHeight s' <? h then
      nonempty (default [] (entriesByHeight s !! h) ++ filter (fun e => entry_height e = h) (rs ≫= record_entries))
    else None.

(** The pending records became entries of the index. *)
Definition flushed (s s' : store) : Prop := pendingRecords s' = [] /\ extended s (pendingRecords s) s'.

(** Nothing became visible, and the records are still pending. *)
Definition untouched (s s' : store) : Prop :=
  pendingRecords s' = pendingRecords s /\ entriesByHeight s' = entriesByHeight s /\
  prunedUpToHeight s' = prunedUpToHeight s.

Lemma at_height_located h L n rs :
  at_height h (L ++ located n rs) =
    at_height h L ++ filter (fun e => entry_height e = h) (rs ≫= record_entries).
Proof.
  unfold at_height, located. rewrite filter_app, fmap_app. f_equal.
  induction (rs ≫= record_entries) as [|e l IH]; [done|]. rewrite fmap_cons, !filter_cons. cbn [snd].
  destruct (decide (entry_height e = h)); [|done]. rewrite fmap_cons. by rewrite IH.
Qed.

Lemma index_extended s s' L n rs :
  index_ok s L -> index_ok s' (L ++ located n rs) ->
  prunedUpToHeight s' = prune_max (prunedUpToHeight s) rs -> extended s rs s'.
Proof.
  intros Hs Hs' Hp. split; [done|]. intros h. rewrite (ix_entries _ _ Hs'), (ix_entries _ _ Hs), at_height_located.
  pose proof (prune_max_ge (prunedUpToHeight s) rs).
  destruct (Z.ltb_spec (prunedUpToHeight s') h); [|done].
  destruct (Z.ltb_spec (prunedUpToHeight s) h); [|lia]. by rewrite nonempty_default.
Qed.

(** The records after a batch was appended to the last file. *)
Lemma records_appended D D' C n b rs :
  Forall2 log_enc D C -> appended D D' n b -> batch_enc b rs ->
  exists C', Forall2 log_enc D' C' /\ all_entries C' = all_entries C ++ located n rs /\ all_records C' = all_records C ++ rs.
Proof.
  intros HC (Dp & bs & -> & HD & _) Hb. destruct HD as [-> |[-> ->]].
  - apply Forall2_app_inv_l in HC as (Cp & Cl & Hpre & Hl & ->).
    apply Forall2_cons_inv_l in Hl as ([n' rss] & Cl' & [En Hbs] & Hnil & ->). simpl in En, Hbs. subst n'.
    apply Forall2_nil_inv_l in Hnil as ->. exists (Cp ++ [(n, rss ++ [rs])]). split_and!.
    + apply Forall2_app; [done|]. constructor; [|constructor]. split; [done|].
      apply Forall2_app; [done|]. by repeat constructor.
    + unfold all_entries. rewrite !bind_app. simpl. rewrite !app_nil_r, concat_app, located_app. simpl.
      by rewrite app_nil_r, app_assoc.
    + unfold all_records. rewrite !bind_app. simpl. rewrite !app_nil_r, concat_app. simpl.
      by rewrite app_nil_r, app_assoc.
  - exists (C ++ [(n, [rs])]). split_and!.
    + apply Forall2_app; [done|]. constructor; [|constructor]. split; [done|]. by repeat constructor.
    + unfold all_entries. rewrite bind_app. simpl. by rewrite !app_nil_r.
    + unfold all_records. rewrite bind_app. simpl. by rewrite !app_nil_r.
Qed.

Lemma records_new D D' C :
  Forall2 log_enc D C -> maybe_new D D' ->
  exists C', Forall2 log_enc D' C' /\ all_entries C' = all_entries C /\ all_records C' = all_records C.
Proof.
  intros HC [->|(n & _ & ->)]; [eauto|]. exists (C ++ [(n, [])]). split_and!.
  - apply Forall2_app; [done|]. constructor; [|constructor]. by split.
  - unfold all_entries. rewrite bind_app. simpl. by rewrite !app_nil_r.
  - unfold all_records. rewrite bind_app. simpl. by rewrite !app_nil_r.
Qed.

Lemma encodeBatch_cases rs seq :
  Forall record_ok rs -> is_u64 seq ->
  (exists b, encodeBatch keyKindSet rs seq = Ok b /\ batch_enc b rs) \/
  encodeBatch keyKindSet rs seq = Err TooManyRecords.
Proof.
  intros Hrs Hs. destruct (encodeBatch keyKindSet rs seq) as [b|e| |] eqn:E;
    [left; exists b; split; [done|by exists seq]|right..];
    unfold encodeBatch in E; destruct (2 ^ 32 - 1 <? _); simplify_eq; try done;
    destruct (encodeRecords_items rs 0 Hrs) as (E1 & _); rewrite E1 in E; done.
Qed.

Lemma flush_committed i s u w' n b D D' ub C :
  store_inv s u -> writer_ok w' -> watermark w' = watermark (wal s) -> repairRequired w' = false ->
  holds (wal s) D ub -> Forall2 log_enc D C -> index_ok s (all_entries C) ->
  prunedUpToHeight s = prune_max (watermark (wal s)) (all_records C) ->
  holds w' D' None -> appended D D' n b -> batch_enc b (pendingRecords s) ->
  wpe (modify (fun s0 => set_seq s0 (u64 (nextBatchSeqNum s0 + u32 (Z.of_nat (length (pendingRecords s))))));;
       updateIndexesFromCommittedRecords n (pendingRecords s);;
       s' ← get_state;
       let '(cleanupErr, s') := removeObsoleteWALFiles i (countPruneRecords (pendingRecords s)) s' in
       put_state (set_pendingRecords s' []);;
       if (cleanupErr : bool) then fail ErrRotate else mret tt)
    (fun _ s' => store_inv s' None /\ flushed s s') (fun err s' => err = ErrRotate /\ store_inv s' None /\ flushed s s') (set_wal s w').
Proof.
  intros Hinv Hw' Ewm Er Hh HC Hi Hp Hh' Happ Hb. pose proof (store_inv_pruned s u Hinv) as Hp0. pose proof Hinv as [_ _ Hpe _].
  assert (Hn : 1 <= n) by (by destruct Happ as (_ & _ & _ & _ & ?)).
  destruct (records_appended D D' C n b _ HC Happ Hb) as (C' & HC' & EL & ER).
  apply wpe_bind. unfold wpe at 1, modify. set (s1 := set_seq _ _).
  apply wpe_bind. apply wpe_wp.
  assert (Hi1 : index_ok s1 (all_entries C)) by (by apply (index_ok_ext s)).
  eapply wp_mono; [by apply (wp_updateIndexes (pendingRecords s) s1 (all_entries C) n)|].
  intros _ s2 (Hi2 & (Ecl & Ewal & Eseq & Epe & _) & Hp2).
  change (prunedUpToHeight s1) with (prunedUpToHeight s) in Hp2.
  apply wpe_bind. unfold wpe at 1, get_state.
  assert (Hw2 : writer_ok (wal s2)) by (by rewrite Ewal).
  assert (Hd2 : dir_ok s2 None).
  { exists D', C', None. rewrite Ewal, EL, ER. simpl. split_and!; [done|done|done|done|]. rewrite prune_max_app, Ewm, <- Hp. done. }
  destruct (removeObsolete_ok i (countPruneRecords (pendingRecords s)) s2 None Hw2 Hd2) as (Hw3 & Hd3 & Hc3).
  destruct (removeObsoleteWALFiles i _ s2) as [cleanupErr s3]. simpl in Hw3, Hd3, Hc3.
  destruct Hc3 as (_ & Eseq3 & _ & E1 & E2 & E3 & E4).
  assert (Hfin : store_inv (set_pendingRecords s3 []) None /\ flushed s (set_pendingRecords s3 [])).
  { split.
    - split; simpl; [done|by apply (dir_ok_ext s3)|constructor|]. rewrite Eseq3, Eseq. simpl. apply u64_range.
    - split; [done|]. destruct (index_extended s s2 (all_entries C) n (pendingRecords s) Hi Hi2 Hp2) as [Hx1 Hx2].
      split; [by simpl; rewrite E4|]. intros h. simpl. rewrite E1, E4. apply Hx2. }
  apply wpe_bind. unfold wpe at 1, put_state. by destruct cleanupErr.
Qed.

Lemma extended_nil s u : store_inv s u -> extended s [] s.
Proof.
  intros [_ (D & C & ub & _ & _ & _ & Hi & _) _ _]. apply (index_extended s s (all_entries C) 1); [done| |done].
  unfold located. simpl. by rewrite app_nil_r.
Qed.

(** The records of a failed write that is not repaired may be in the file. *)
Definition unacked (u : option (list env)) (s : store) (o : outcome storeError unit) (s' : store) : option (list env) :=
  if repairRequired (wal s) then u
  else match o with
       | Err ErrWrite => if repairRequired (wal s') then Some (pendingRecords s) else None
       | _ => None
       end.

Lemma unacked_same s u o : store_inv s u -> o ≠ Err ErrWrite -> store_inv s (unacked u s o s).
Proof.
  intros [Hw Hd Hpe Hs] Ho. split; [done| |done|done]. unfold unacked. destruct (repairRequired (wal s)) eqn:Er; [done|].
  by eapply dir_ok_clean.
Qed.

(** A flush commits the pending records or leaves everything as it was. *)
Lemma wpe_flush i s u :
  store_inv s u -> nextWALNum (wal s) < 2 ^ 64 - 1 ->
  wpe (flushLocked keyKindSet i) (fun _ s' => store_inv s' (unacked u s (Ok tt) s') /\ flushed s s')
    (fun err s' => store_inv s' (unacked u s (Err err) s') /\ (flushed s s' \/ untouched s s')) s.
Proof.
  intros Hinv Hn. unfold flushLocked. apply wpe_bind. unfold wpe at 1, get_state.
  destruct (closed s). { split; [by apply unacked_same|by right]. }
  destruct (pendingRecords s) as [|r rs] eqn:Epe.
  { split; [by apply unacked_same|]. split; [done|]. rewrite Epe. by eapply extended_nil. }
  rewrite <- Epe. pose proof Hinv as [Hw (D & C & ub & Hh & Hu & HC & Hi & Hp) Hpe Hs].
  destruct (encodeBatch_cases (pendingRecords s) (nextBatchSeqNum s) Hpe Hs) as [(b & Eb & Hb)|Eb];
    rewrite Eb; simpl lift_encode.
  2:{ apply wpe_bind. split; [by apply unacked_same|by right]. }
  apply wpe_bind. unfold wpe at 1, mret, SE_ret.
  apply wpe_bind. unfold wpe at 1, in_writer.
  pose proof (wpe_appendSync i b (wal s) D ub Hw Hh Hn) as Ha. unfold wpe in Ha.
  destruct (appendSync i b (wal s)) as [[n|e| |] w'] eqn:Eapp; try done.
  - destruct Ha as (Hw' & Ewm & Er & D' & Hh' & Happ).
    assert (Er0 : repairRequired (wal s) = false).
    { destruct (repairRequired (wal s)) eqn:Er0; [|done]. revert Eapp. unfold appendSync, ensureWriter, mbind, SE_bind, get_state. by rewrite Er0. }
    eapply wpe_mono; [by eapply (flush_committed i s u w' n b D D' ub C)| |]; unfold unacked; rewrite Er0.
    + done.
    + intros err s' (-> & ? & ?). auto.
  - destruct Ha as (Hw' & Ewm & [[-> He]|(-> & Er & D' & HD & Hh')]).
    + assert (Es : set_wal s (wal s) = s) by (by destruct s). rewrite Es. split; [apply unacked_same; [done|congruence]|by right].
    + split; [|by right]. unfold unacked. rewrite Er. destruct (records_new D D' C HC HD) as (C' & HC' & EL & ER).
      split; [done| |done|done].
      assert (Hd : forall u', (forall b', Some b = Some b' -> exists rs, u' = Some rs /\ batch_enc b' rs) -> dir_ok (set_wal s w') u').
      { intros u' Hu'. exists D', C', (Some b). rewrite EL, ER. simpl. split_and!; [done|done|done|by apply (index_ok_ext s)|by rewrite Ewm]. }
      simpl. destruct (repairRequired w') eqn:Er'.
      * apply Hd. intros b' [= <-]. eauto.
      * eapply (dir_ok_clean _ (Some (pendingRecords s))); [|done]. apply Hd. intros b' [= <-]. eauto.
Qed.

(** ** The other operations *)

Lemma wpe_SetWALEntry own e s u :
  store_inv s u -> entry_ok own e ->
  wpe (SetWALEntry own e) (fun _ s' => store_inv s' u /\ wal s' = wal s /\ entriesByHeight s' = entriesByHeight s)
    (fun _ s' => s' = s) s.
Proof.
  intros Hinv He. unfold SetWALEntry. apply wpe_bind. unfold wpe at 1, get_state. destruct (closed s); [done|].
  destruct (GetHeight own e <=? prunedUpToHeight s); [done|]. unfold wpe, modify. simpl.
  split_and!; [|done|done]. destruct Hinv as [Hw Hd Hpe Hs]. split; simpl; [done|by apply (dir_ok_ext s)| |done].
  apply Forall_app. split; [done|]. repeat constructor. done.
Qed.

Lemma raisePrune_ok h rs rs' :
  is_u64 h -> Forall record_ok rs -> raisePrune h rs = Some rs' -> Forall record_ok rs'.
Proof.
  intros Hh Hrs. revert rs'. induction Hrs as [|r rs Hr Hrs IH]; intros rs'; [done|]. simpl.
  destruct (Z.eqb_spec (Kind r) walRecordPruneUpToHeight) as [Ek|].
  - intros [= <-]. constructor; [|done]. destruct Hr as [own e He|h' Hh']; [by destruct e|].
    simpl. change (with_height (with_height ?x h') ?y) with (with_height x y).
    apply (record_prune (Z.max h' h)). lia.
  - intros (l & El & [= <-])%bind_Some. constructor; [done|]. by apply IH.
Qed.

Lemma wpe_DeleteWALEntries h s u :
  store_inv s u -> is_u64 h ->
  wpe (DeleteWALEntries h) (fun _ s' => store_inv s' u /\ wal s' = wal s /\ entriesByHeight s' = entriesByHeight s)
    (fun _ s' => s' = s) s.
Proof.
  intros Hinv Hh. unfold DeleteWALEntries. apply wpe_bind. unfold wpe at 1, get_state. destruct (closed s); [done|].
  destruct (h <=? prunedUpToHeight s); [done|]. destruct Hinv as [Hw Hd Hpe Hs].
  destruct (raisePrune h (pendingRecords s)) as [l|] eqn:El; unfold wpe, modify; simpl.
  - split_and!; [|done|done]. split; simpl; [done|by apply (dir_ok_ext s)| |done].
    by apply (raisePrune_ok h (pendingRecords s)).
  - split_and!; [|done|done]. split; simpl; [done|by apply (dir_ok_ext s)| |done].
    apply Forall_app. split; [done|]. repeat constructor; lia.
Qed.

(** ** Opening the store *)

Lemma nextWALNum_of_spec (logs : list (Z * list Z)) N :
  Forall (fun x => 1 <= x.1 < N) logs -> 1 <= N < 2 ^ 64 ->
  1 <= nextWALNum_of logs <= N /\ Forall (fun x => x.1 < nextWALNum_of logs) logs.
Proof.
  intros Hl HN. unfold nextWALNum_of.
  assert (Hgen : forall l m, Forall (fun x : Z * list Z => 1 <= x.1 < N) l -> 1 <= m <= N ->
    let f := foldl (fun next x => if next <? u64 (x.1 + 1) then u64 (x.1 + 1) else next) m l in
    m <= f <= N /\ Forall (fun x => x.1 < f) l).
  { induction l as [|x l IH]; intros m Hl' Hm; simpl; [split; [lia|constructor]|].
    apply Forall_cons in Hl' as [Hx Hl']. rewrite u64_small by lia.
    destruct (IH (if m <? x.1 + 1 then x.1 + 1 else m) Hl') as [Hr Hf]; [bool_cases; lia|].
    split; [revert Hr; bool_cases; lia|]. constructor; [revert Hr; bool_cases; lia|done]. }
  destruct (Hgen logs initialWALNum Hl) as [H1 H2]; [unfold initialWALNum; lia|].
  split; [unfold initialWALNum in *; lia|done].
Qed.

(** The entries are a function of the records and the watermark. *)
Lemma index_entries_eq s s' L :
  index_ok s L -> index_ok s' L -> prunedUpToHeight s' = prunedUpToHeight s ->
  entriesByHeight s' = entriesByHeight s.
Proof. intros Hs Hs' Hp. apply map_eq. intros h. by rewrite (ix_entries _ _ Hs), (ix_entries _ _ Hs'), Hp. Qed.

Abbreviation open_store := (NewTendermintWALStore (V:=V) (H:=H) (A:=A) keyKindSet readHeader readRecords).

Lemma empty_index_ok w W : index_ok (mkStore false w initialSeqNum ∅ ∅ ∅ W [] 0 : store) [].
Proof.
  split; simpl.
  - intros h. rewrite lookup_empty. by destruct (W <? h).
  - intros h ns. by rewrite lookup_empty.
  - intros n e Hin. by apply elem_of_nil in Hin.
  - intros n. unfold ref_count. by rewrite map_filter_empty, map_size_empty, lookup_empty.
Qed.

(** What a recovery makes of the files: the unacknowledged batch becomes one of
    the batches, or it is cut off. *)
Lemma recover_holds (r : repairIO) d D ub :
  logs_hold (d_logs d) D ub -> NoDup (d_logs d).*1 -> Forall (fun x => 1 <= x.1) (d_logs d) ->
  exists D', (D' = D \/ exists b n, ub = Some b /\ appended D D' n b) /\
    ((exists d', recoverLatestWALTail r d = (Ok tt, d') /\ d_watermark d' = d_watermark d /\
        (d_logs d').*1 = (d_logs d).*1 /\ Forall2 file_clean (d_logs d') D') \/
     r ≠ RepairOk /\ exists d', recoverLatestWALTail r d = (Err ErrRepair, d')).
Proof.
  destruct d as [logs wm]. cbn [d_logs d_watermark]. intros Hl Hd Hn.
  assert (Hcases : Forall2 file_clean logs D /\ logs = [] \/ exists pre Dp n c bs, logs = pre ++ [(n, c)] /\ D = Dp ++ [(n, bs)] /\
    Forall2 file_clean pre Dp /\ (loose c bs \/ exists b, ub = Some b /\ loose c (bs ++ [b]))).
  { destruct Hl as [Hc|Hl]; [|by right]. destruct logs as [|[n c] pre _] using rev_ind; [by left|right].
    apply Forall2_app_inv_l in Hc as (Dp & Dl & Hf & Hlast & ->).
    apply Forall2_cons_inv_l in Hlast as ([n' bs] & Dl' & [En Hc] & Hnil & ->). apply Forall2_nil_inv_l in Hnil as ->.
    simpl in En. subst n'. exists pre, Dp, n, c, bs. split_and!; [done|done|done|left; by apply clean_loose]. }
  destruct Hcases as [[Hc ->]|(pre & Dp & n & c & bs & -> & -> & Hf & Hlo)].
  { exists D. split; [by left|left]. by eexists. }
  apply NoDup_nums_last in Hd. apply Forall_app in Hn as [_ Hn]. apply Forall_cons in Hn as [Hn _].
  assert (Hrec : exists bs', loose c bs' /\ (bs' = bs \/ exists b, ub = Some b /\ bs' = bs ++ [b])) by naive_solver.
  destruct Hrec as (bs' & Hlo' & Hbs'). exists (Dp ++ [(n, bs')]). split.
  { destruct Hbs' as [->|(b & -> & ->)]; [by left|right]. exists b, n. split; [done|]. exists Dp, bs. auto. }
  destruct (recover_last r n pre c bs' wm Hd Hlo') as [E|(Hr & d' & E)]; [left|by right; eauto].
  eexists. split_and!; [exact E|done|cbn [d_logs]; by rewrite !fmap_app|]. apply file_clean_snoc; [done|by left].
Qed.

(** Opening the directory of a store: its entries, or those with the
    unacknowledged batch. *)
Definition reopened (s : store) (u : option (list env)) (s' : store) : Prop :=
  store_inv s' None /\ pendingRecords s' = [] /\ repairRequired (wal s') = false /\
  (entriesByHeight s' = entriesByHeight s /\ prunedUpToHeight s' = prunedUpToHeight s \/
   exists rs, u = Some rs /\ extended s rs s').

Lemma open_recovered (r : repairIO) s u :
  store_inv s u ->
  (exists s', open_store r (dir (wal s)) = (Ok tt, s') /\ reopened s u s') \/
  r ≠ RepairOk /\ exists s', open_store r (dir (wal s)) = (Err ErrRepair, s').
Proof using Type*.
  intros [Hw (D & C & ub & Hh & Hu & HC & Hi & Hp) _ _]. pose proof Hw as [Hnx Hnums Hd _ [Eload Hwm]].
  assert (Hn1 : Forall (fun x => 1 <= x.1) (d_logs (dir (wal s)))) by (eapply Forall_impl; [exact Hnums|]; intros x Hx; simpl in *; lia).
  destruct (recover_holds r (dir (wal s)) D ub (hl_logs _ _ _ Hh) Hd Hn1) as (D' & HD & [Hok|(Hr & d' & E)]).
  2:{ right. split; [done|]. unfold NewTendermintWALStore. rewrite E. eauto. }
  left. destruct Hok as (d' & E & Ewm & Enums & Hclean). unfold NewTendermintWALStore. rewrite E.
  assert (Eload' : loadPruneWatermark d' = Ok (watermark (wal s))) by (unfold loadPruneWatermark; rewrite Ewm; exact Eload).
  rewrite Eload'. set (s0 := mkStore _ _ _ _ _ _ _ _ _).
  assert (HC' : exists C', Forall2 log_enc D' C' /\
    (C' = C \/ exists rs n, u = Some rs /\ all_entries C' = all_entries C ++ located n rs /\ all_records C' = all_records C ++ rs)).
  { destruct HD as [->|(b & n & Eb & Happ)]; [eauto|]. destruct (Hu b Eb) as (rs & -> & Hb).
    destruct (records_appended D D' C n b rs HC Happ Hb) as (C' & HC' & EL & ER). exists C'. split; [done|right; eauto]. }
  destruct HC' as (C' & HC' & Hcase).
  assert (Hn1' : Forall (fun x => 1 <= x.1) (d_logs d') /\ Forall (fun x => 1 <= x.1 < nextWALNum (wal s)) (d_logs d')).
  { clear -Enums Hnums. assert (Hf : Forall (fun n => 1 <= n < nextWALNum (wal s)) (d_logs d').*1).
    { rewrite Enums. apply Forall_fmap. exact Hnums. }
    apply Forall_fmap in Hf. split; [|exact Hf]. eapply Forall_impl; [exact Hf|]. intros x Hx. simpl in Hx. lia. }
  destruct Hn1' as [Hn1' Hnums'].
  destruct (wp_elim _ _ _ (wp_loadExistingEntries _ D' C' s0 [] Hclean HC' (empty_index_ok _ _) Hn1' (proj1 Hwm)))
    as ([] & s' & Eo & Hi' & (Ecl & Ewal & Epe & _ & Eseq) & Hp').
  exists s'. rewrite app_nil_l in Hi'. split; [done|].
  destruct (nextWALNum_of_spec _ _ Hnums' Hnx) as [Hnx' Hlt].
  split_and!; [|by rewrite Epe|by rewrite Ewal|].
  - assert (Ewm' : watermark (wal s') = watermark (wal s)) by (rewrite Ewal; unfold watermark at 1; simpl; by rewrite Eload').
    split.
    + rewrite Ewal in *. split; simpl; [lia| |by rewrite Enums|done|].
      * apply Forall_forall. intros x Hx. eapply Forall_forall in Hn1'; [|done]. eapply Forall_forall in Hlt; [|done]. simpl in *. lia.
      * change (loadPruneWatermark d' = Ok (watermark (wal s0)) /\ is_u64 (watermark (wal s0))). by rewrite Ewm'.
    + exists D', C', None. split_and!; [|done|done|done|by rewrite Ewm', Hp'].
      rewrite Ewal. split; simpl; [by left|done|done].
    + by rewrite Epe.
    + apply Eseq. unfold s0. simpl. unfold initialSeqNum. lia.
  - simpl in Hp'. destruct Hcase as [->|(rs & n & Eu & EL & ER)].
    + left. assert (Hpr : prunedUpToHeight s' = prunedUpToHeight s) by (rewrite Hp', Hp; done).
      split; [by eapply index_entries_eq|done].
    + right. exists rs. split; [done|]. apply (index_extended s s' (all_entries C) n); [done|by rewrite <- EL|].
      by rewrite Hp', ER, prune_max_app, Hp.
Qed.

(** ** Runs of the store *)

(** Operations, any of whose I/O may fail, and crashes after which the store is
    opened again on its directory.  [u] are the records of the flush whose write
    failed in a file that could not be repaired, if there is one. *)
Inductive store_run : store -> option (list env) -> Prop :=
| run_open (r : repairIO) s : open_store r emptyDir = (Ok tt, s) -> store_run s None
| run_set own e s u o s' :
    store_run s u -> entry_ok own e -> SetWALEntry own e s = (o, s') -> store_run s' u
| run_delete h s u o s' :
    store_run s u -> is_u64 h -> DeleteWALEntries h s = (o, s') -> store_run s' u
| run_flush i s u o s' :
    store_run s u -> nextWALNum (wal s) < 2 ^ 64 - 1 -> flushLocked keyKindSet i s = (o, s') ->
    store_run s' (unacked u s o s')
| run_close i s u o s' :
    store_run s u -> nextWALNum (wal s) < 2 ^ 64 - 1 -> closed s = false -> Close keyKindSet i s = (o, s') ->
    store_run s' (unacked u s (flushLocked keyKindSet i s).1 (flushLocked keyKindSet i s).2)
| run_crash (r : repairIO) s u s' :
    store_run s u -> open_store r (dir (wal s)) = (Ok tt, s') -> store_run s' None.

Lemma empty_dir_inv : store_inv (mkStore false (newWALWriter emptyDir 1) initialSeqNum ∅ ∅ ∅ 0 [] 0 : store) None.
Proof.
  split; simpl; [|exists [], [], None|done|unfold initialSeqNum; lia].
  - split; simpl; try done; apply NoDup_nil_2.
  - split_and!; [split; simpl; [left; constructor|constructor|done]|done|constructor|apply empty_index_ok|done].
Qed.

(** Closing the store after its flush. *)
Lemma close_inv i s u :
  store_inv s u -> store_inv (set_wal (set_closed s) (wal_close i (wal s)).2) u.
Proof.
  intros [Hw (D & C & ub & Hh & Hu & HC & Hi & Hp) Hpe Hs].
  destruct (close_synced_ok i (wal s) D ub Hw Hh) as (Hw' & _ & Hh' & Ewm). unfold rotateAfterSynced in *.
  split; simpl; [done| |done|done]. exists D, C, ub. simpl. unfold wal_close. rewrite Ewm.
  split_and!; [done|done|done|by apply (index_ok_ext s)|done].
Qed.

Lemma run_inv s u : store_run s u -> store_inv s u.
Proof using Type*.
  induction 1 as [r s E|own e s u o s' _ IH He E|h s u o s' _ IH Hh E|i s u o s' _ IH Hn E|i s u o s' _ IH Hn Hc E|r s u s' _ IH E].
  - destruct (open_recovered r _ None empty_dir_inv) as [(s' & E' & Hinv & _)|(_ & s' & E')]; simpl in E'; congruence.
  - destruct (wpe_elim _ _ _ _ _ _ (wpe_SetWALEntry own e s u IH He) E) as [(_ & _ & Hs & _)|(_ & _ & ->)]; done.
  - destruct (wpe_elim _ _ _ _ _ _ (wpe_DeleteWALEntries h s u IH Hh) E) as [(_ & _ & Hs & _)|(_ & _ & ->)]; done.
  - destruct (wpe_elim _ _ _ _ _ _ (wpe_flush i s u IH Hn) E) as [([] & -> & Hs & _)|(err & -> & Hs & _)]; done.
  - unfold Close in E. rewrite Hc in E. destruct (flushLocked keyKindSet i s) as [fo s1] eqn:Ef.
    assert (Hs1 : store_inv s1 (unacked u s fo s1)).
    { destruct (wpe_elim _ _ _ _ _ _ (wpe_flush i s u IH Hn) Ef) as [([] & -> & Hs & _)|(err & -> & Hs & _)]; done. }
    pose proof (close_inv i s1 _ Hs1) as Hcl. simpl in E. change (wal (set_closed s1)) with (wal s1) in E.
    destruct (wal_close i (wal s1)) as [closeErr w]. injection E as _ <-. exact Hcl.
  - destruct (open_recovered r s u IH) as [(s2 & E2 & Hs2 & _)|(_ & s2 & E2)]; congruence.
Qed.

(** C37: whatever sequence of operations, of I/O failures and of crashes a
    store went through, a store can be opened on its directory, and it has exactly
    the entries and the watermark of the store: everything flushed survives,
    nothing pruned comes back, the bytes of a torn write are cut off, and the
    removal of obsolete files loses nothing.  There is one exception: when a write
    failed and its file could not be repaired, the store that is opened may have
    the records of this write too, all of them. *)
Theorem wal_recovers s u :
  store_run s u ->
  exists s', open_store RepairOk (dir (wal s)) = (Ok tt, s') /\
    (LoadAllEntries s' = LoadAllEntries s /\ prunedUpToHeight s' = prunedUpToHeight s \/
     exists rs, u = Some rs /\ extended s rs s').
Proof using Type*.
  intros Hs%run_inv. destruct (open_recovered RepairOk s u Hs) as [(s' & E & _ & _ & _ & Hc)|(Hr & _)]; [|done].
  exists s'. split; [done|]. destruct Hc as [[He Hp]|?]; [left|by right]. unfold LoadAllEntries. by rewrite He.
Qed.

(** C38: a flush makes all pending records visible, in their order and with
    the prune marks applied, or none of them; it never panics, and when it
    returns without an error the records are committed. *)
Theorem flush_atomic i s u o s' :
  store_run s u -> nextWALNum (wal s) < 2 ^ 64 - 1 -> flushLocked keyKindSet i s = (o, s') ->
  (o = Ok tt /\ flushed s s') \/ (exists err : storeError, o = Err err /\ (flushed s s' \/ untouched s s')).
Proof using Type*.
  intros Hs%run_inv Hn E.
  destruct (wpe_elim _ _ _ _ _ _ (wpe_flush i s u Hs Hn) E) as [([] & -> & _ & Hf)|(e & -> & _ & Hf)]; eauto.
Qed.

(** ** The order of the entries *)

Lemma filter_bind_height s h hs :
  (forall k e, e ∈ default [] (entriesByHeight s !! k) -> entry_height e = k) -> NoDup hs ->
  filter (fun e => entry_height e = h) (hs ≫= fun k => default [] (entriesByHeight s !! k)) =
    if decide (h ∈ hs) then default [] (entriesByHeight s !! h) else [].
Proof.
  intros Hk Hd. induction hs as [|k hs IH]; [done|]. apply NoDup_cons in Hd as [Hn Hd].
  rewrite bind_cons, filter_app, IH by done.
  assert (Hf : filter (fun e => entry_height e = h) (default [] (entriesByHeight s !! k)) =
            if decide (h = k) then default [] (entriesByHeight s !! k) else []).
  { specialize (Hk k). induction (default [] (entriesByHeight s !! k)) as [|e l IHl]; [by destruct (decide (h = k))|].
    rewrite filter_cons, IHl by (intros e' He'; apply Hk; set_solver).
    rewrite (Hk e) by set_solver. by destruct (decide (k = h)), (decide (h = k)); try congruence. }
  rewrite Hf. destruct (decide (h = k)) as [->|].
  - rewrite decide_False, decide_True by set_solver. by rewrite app_nil_r.
  - destruct (decide (h ∈ hs)); [by rewrite decide_True by set_solver|by rewrite decide_False by set_solver].
Qed.

(** [LoadAllEntries] returns the live entries by increasing height and,
    for each height, in the order in which they were logged. *)
Theorem entries_ordered s u :
  store_run s u ->
  StronglySorted Z.le (entry_height <$> LoadAllEntries s) /\
  forall h, filter (fun e => entry_height e = h) (LoadAllEntries s) = default [] (entriesByHeight s !! h).
Proof using Type*.
  intros [_ (D & C & ub & _ & _ & _ & Hi & _) _ _]%run_inv.
  assert (Hk : forall k e, e ∈ default [] (entriesByHeight s !! k) -> entry_height e = k).
  { intros k e. rewrite (ix_entries _ _ Hi). destruct (prunedUpToHeight s <? k); [|by intros ?%elem_of_nil].
    rewrite nonempty_default. unfold at_height. intros ([n e'] & -> & Hin)%list_elem_of_fmap.
    by apply list_elem_of_filter in Hin as [? _]. }
  unfold LoadAllEntries. set (ks := (map_to_list (entriesByHeight s)).*1).
  assert (Hperm : merge_sort Z.le ks ≡ₚ ks) by apply merge_sort_Permutation.
  assert (Hsort : StronglySorted Z.le (merge_sort Z.le ks)) by (apply StronglySorted_merge_sort; apply _).
  split.
  - clear Hperm. induction Hsort as [|k l Hs IH Hall]; [constructor|].
    rewrite bind_cons, fmap_app. clear Hs.
    assert (Hin : forall x, x ∈ (entry_height <$> (l ≫= fun k => default [] (entriesByHeight s !! k))) -> k <= x).
    { intros x (e & -> & He)%list_elem_of_fmap. apply list_elem_of_bind in He as (k' & He & Hk').
      rewrite (Hk _ _ He). by eapply Forall_forall in Hall. }
    specialize (Hk k). induction (default [] (entriesByHeight s !! k)) as [|e es IHes]; [done|].
    rewrite fmap_cons. simpl. constructor.
    + apply IHes. intros e' He'. apply Hk. set_solver.
    + rewrite (Hk e) by set_solver. apply Forall_forall. intros x [Hx|Hx]%elem_of_app; [|by apply Hin].
      apply list_elem_of_fmap in Hx as (e' & -> & He'). rewrite (Hk e') by set_solver. lia.
  - intros h. rewrite filter_bind_height; [|done|rewrite Hperm; apply NoDup_fst_map_to_list].
    destruct (decide _) as [|Hn]; [done|]. destruct (entriesByHeight s !! h) as [x|] eqn:E; [|done].
    destruct Hn. rewrite Hperm. apply list_elem_of_fmap. exists (h, x). split; [done|].
    by apply elem_of_map_to_list.
Qed.

End recovery.
