(* ===== verification/Driver.v ===== *)
(** * The driver of the consensus

    [src/consensus/driver/driver.go]: it feeds events to the state machine,
    executes the actions it returns and keeps the write-ahead log.

    The effects of the driver are recorded in a trace: entries given to the log,
    flushes, broadcasts, timers, commits and requests for blocks.  What the
    channels deliver are the inputs of the functions; the outcomes of the I/O of
    the log and of the commit listener are parameters, indexed by the number of
    the call.  The block of a synchronised height is fetched by another
    goroutine that writes to the same channel: the request is an effect, the
    reply an input.  The second part proves the order of the effects: the log is
    flushed before what depends on it, and a replay logs nothing. *)
From stdpp Require Import prelude gmap list.
From Stdlib Require Import ZArith Lia.
From S2P Require Import Prelude ConsensusTypes VoteCounter Tendermint WalCodec WalStore.

Local Open Scope Z_scope.

#[export] Instance Timeout_countable : Countable Timeout.
Proof.
  apply (inj_countable' (fun t => (tm_Step t, tm_Height t, tm_Round t))
    (fun '(a, b, c) => mkTimeout a b c)). by intros [].
Defined.

Section driver.
Context {V H A AS : Type} `{!Hashable V H} `{Countable H} `{Countable A}
  `{!Validators A} `{!Application V AS} `{!Limbs H} `{!Limbs A} `{!WALValue V} {PL : PebbleLog}.
Variable keyKindSet : Z.
(** The I/O of the [n]-th flush, and whether the [n]-th commit is accepted. *)
Variable io_at : nat -> io.
Variable onCommit : nat -> bool.

Abbreviation sm := (stateMachine (V:=V) (H:=H) (A:=A) (AS:=AS)).
Abbreviation action := (Action V H A).
Abbreviation store := (tendermintWALStore (V:=V) (H:=H) (A:=A)).

Inductive effect : Type :=
| EffLog (e : walEntry V H A)
| EffFlush
| EffBroadcastProposal (p : Proposal V A)
| EffBroadcastPrevote (v : Vote H A)
| EffBroadcastPrecommit (v : Vote H A)
| EffTimer (tm : Timeout)
| EffCommit (p : Proposal V A)
| EffFetch (h : Z).

Record Driver := mkDriver {
  db : store;
  machine : sm;
  scheduledTms : gset Timeout;
  driverLastQuorum : Z;
  flushes : nat; (* the flushes and commits that were attempted *)
  trace : list effect;
}.

Inductive driverError : Type :=
| ErrFlushing (e : storeError)
| ErrWriting (e : storeError)
| ErrDeleting (e : storeError)
| ErrCommitListener
| ErrClosing (e : storeError).

Abbreviation DM := (SE Driver driverError).

Definition set_db (d : Driver) (s : store) : Driver :=
  mkDriver s (machine d) (scheduledTms d) (driverLastQuorum d) (flushes d) (trace d).
Definition set_machine (d : Driver) (s : sm) : Driver :=
  mkDriver (db d) s (scheduledTms d) (driverLastQuorum d) (flushes d) (trace d).
Definition set_tms (d : Driver) (x : gset Timeout) : Driver :=
  mkDriver (db d) (machine d) x (driverLastQuorum d) (flushes d) (trace d).
Definition set_quorum (d : Driver) (h : Z) : Driver :=
  mkDriver (db d) (machine d) (scheduledTms d) h (flushes d) (trace d).
Definition tick (d : Driver) : Driver :=
  mkDriver (db d) (machine d) (scheduledTms d) (driverLastQuorum d) (S (flushes d)) (trace d).
Definition add_effect (d : Driver) (x : effect) : Driver :=
  mkDriver (db d) (machine d) (scheduledTms d) (driverLastQuorum d) (flushes d) (trace d ++ [x]).

Definition emit (x : effect) : DM unit := modify (fun d => add_effect d x).

(** A call of the log. *)
Definition on_db {T} (err : storeError -> driverError) (m : SE store storeError T) : DM T :=
  fun d => let '(o, s) := m (db d) in
    (match o with Ok x => Ok x | Err e => Err (err e) | Panic => Panic | NoFuel => NoFuel end, set_db d s).

(** A call of the state machine. *)
Definition on_machine {T} (m : SE sm Empty_set T) : DM T :=
  fun d => let '(o, s) := m (machine d) in
    (match o with Ok x => Ok x | Err e => match e with end | Panic => Panic | NoFuel => NoFuel end,
     set_machine d s).

Definition smHeight (d : Driver) : Z := height (st (machine d)).

(** A successful flush is an effect. *)
Definition flush : DM unit :=
  d ← get_state;
  modify tick;;
  on_db ErrFlushing (Flush keyKindSet (io_at (flushes d)));;
  emit EffFlush.

Definition hasFutureQuorum (d : Driver) : bool := smHeight d <? driverLastQuorum d.

Definition syncCurrentHeight : DM unit :=
  d ← get_state;
  if negb (hasFutureQuorum d) then mret tt else emit (EffFetch (smHeight d)).

Definition driver_triggerSync (stop : Z) : DM unit :=
  d ← get_state;
  let currentlyHasFutureQuorum := hasFutureQuorum d in
  modify (fun d => set_quorum d (Z.max (driverLastQuorum d) stop));;
  if negb currentlyHasFutureQuorum then syncCurrentHeight else mret tt.

Definition driver_scheduleTimeout (tm : Timeout) : DM unit :=
  modify (fun d => set_tms d ({[tm]} ∪ scheduledTms d));; emit (EffTimer tm).

(** The value is dereferenced for the listener. *)
Definition commit (p : Proposal V A) : DM unit :=
  match Value p with
  | None => panic
  | Some _ =>
      d ← get_state;
      modify tick;;
      if negb (onCommit (flushes d)) then fail ErrCommitListener
      else
        emit (EffCommit p);;
        on_db ErrDeleting (DeleteWALEntries (Height (proposal_header p)));;
        flush
  end.

(** An action; [Some b] when [execute] returns.  The entry of a [WriteWAL] is
    read when it is written: a start entry points to the height field of the
    state machine. *)
Definition execute_action (isReplaying : bool) (a : action) : DM (option bool) :=
  (if negb isReplaying && RequiresWALFlush a then flush else mret tt);;
  match a with
  | WriteWAL e =>
      if negb isReplaying then
        d ← get_state;
        on_db ErrWriting (SetWALEntry (smHeight d) e);;
        emit (EffLog e);;
        mret None
      else mret None
  | BroadcastProposal p => emit (EffBroadcastProposal p);; mret None
  | BroadcastPrevote v => emit (EffBroadcastPrevote v);; mret None
  | BroadcastPrecommit v => emit (EffBroadcastPrecommit v);; mret None
  | ScheduleTimeout tm => driver_scheduleTimeout tm;; mret None
  | Commit p => commit p;; mret (Some true)
  | TriggerSync _ stop => driver_triggerSync stop;; mret None
  end.

(** Whether a commit was executed. *)
Fixpoint execute (isReplaying : bool) (resultActions : list action) : DM bool :=
  match resultActions with
  | [] => mret false
  | a :: rest =>
      r ← execute_action isReplaying a;
      match r with
      | Some b => mret b
      | None => execute isReplaying rest
      end
  end.

(** The entries are those of the log when the replay starts. *)
Fixpoint replay_entries (entries : list (walEntry V H A)) : DM unit :=
  match entries with
  | [] => mret tt
  | e :: rest =>
      d ← get_state;
      (if entry_height e <? smHeight d then mret tt
       else
         acts ← on_machine (ProcessWAL e);
         _ ← execute true acts;
         mret tt);;
      replay_entries rest
  end.

Definition replay : DM unit := d ← get_state; replay_entries (LoadAllEntries (db d)).

(** What the channels of [listen] deliver. *)
Inductive input : Type :=
| InTimeout (tm : Timeout)
| InProposal (p : Proposal V A)
| InPrevote (v : Vote H A)
| InPrecommit (v : Vote H A)
| InSync (p : Proposal V A) (precommits : list (Vote H A)) (* the extracted messages *)
| InSyncError.

(** The start of a height: the actions of the state machine and whether they
    commit. *)
Definition listen_start : DM (list action * bool) :=
  acts ← on_machine (ProcessStart 0);
  isCommitted ← execute false acts;
  mret (acts, isCommitted).

(** One turn of the inner loop: the variable [actions] keeps its content when
    the turn does not assign it. *)
Definition listen_input (i : input) (acts : list action) : DM (list action * bool) :=
  acts ←
    match i with
    | InTimeout tm =>
        modify (fun d => set_tms d (scheduledTms d ∖ {[tm]}));; on_machine (ProcessTimeout tm)
    | InProposal p => on_machine (ProcessProposal p)
    | InPrevote v => on_machine (ProcessPrevote v)
    | InPrecommit v => on_machine (ProcessPrecommit v)
    | InSync p pcs => on_machine (ProcessSync p pcs)
    | InSyncError => syncCurrentHeight;; mret acts
    end;
  isCommitted ← execute false acts;
  mret (acts, isCommitted).

(** The loops of [listen] over the inputs the channels deliver.  A new height
    is started after every commit; each start takes a unit of fuel. *)
Fixpoint listen_inputs (fuel : nat) (inputs : list input) (acts : list action) (isCommitted : bool) : DM unit :=
  match fuel with
  | O => out_of_fuel
  | S k =>
      if isCommitted then
        syncCurrentHeight;;
        '(acts, c) ← listen_start;
        listen_inputs k inputs acts c
      else
        match inputs with
        | [] => mret tt (* the context is done *)
        | i :: inputs' =>
            '(acts, c) ← listen_input i acts;
            listen_inputs k inputs' acts c
        end
  end.

Definition listen (fuel : nat) (inputs : list input) : DM unit :=
  '(acts, c) ← listen_start;
  listen_inputs fuel inputs acts c.

(** [Run]: the log is replayed, then the channels are listened to; the log is
    closed at the end in any case. *)
Definition Run (fuel : nat) (inputs : list input) : DM unit := fun d =>
  let '(o, d) := (replay;; listen fuel inputs) d in
  let '(c, s) := Close keyKindSet (io_at (flushes d)) (db d) in
  (match o, c with
   | Ok _, Err e => Err (ErrClosing e)
   | _, _ => o
   end, set_db d s).

Definition new_driver (s : store) (m : sm) : Driver := mkDriver s m ∅ 0 0 [].

End driver.

(** * What the driver guarantees

    Broadcasts and commits happen only when every entry given to the log before
    has been flushed, and a replay adds nothing to the log. *)

Section facts.
Context {V H A AS : Type} `{!Hashable V H} `{Countable H} `{Countable A}
  `{!Validators A} `{!Application V AS} `{!Limbs H} `{!Limbs A} `{!WALValue V} {PL : PebbleLog}.
Variable keyKindSet : Z.
Variable io_at : nat -> io.
Variable onCommit : nat -> bool.

Abbreviation driver := (Driver (V:=V) (H:=H) (A:=A) (AS:=AS)).
Abbreviation eff := (effect (V:=V) (H:=H) (A:=A)).
Abbreviation DM := (SE driver driverError).
Implicit Types (d : driver) (t : list eff).

(** ** Traces *)

(** An entry was given to the log after its last flush. *)
Definition dirty_after (b : bool) (x : eff) : bool :=
  match x with EffLog _ => true | EffFlush => false | _ => b end.

Definition dirty t : bool := foldl dirty_after false t.

(** Effects other nodes or the chain can see. *)
Definition visible (x : eff) : bool :=
  match x with
  | EffBroadcastProposal _ | EffBroadcastPrevote _ | EffBroadcastPrecommit _ | EffCommit _ => true
  | _ => false
  end.

(** Every visible effect comes after a flush of everything that was logged. *)
Definition write_ahead t : Prop :=
  forall t1 x t2, t = t1 ++ x :: t2 -> visible x = true -> dirty t1 = false.

Lemma dirty_snoc t x : dirty (t ++ [x]) = dirty_after (dirty t) x.
Proof. unfold dirty. by rewrite foldl_app. Qed.

Lemma write_ahead_nil : write_ahead [].
Proof. intros t1 x t2 E. by destruct t1. Qed.

Lemma write_ahead_snoc t x : write_ahead t -> (visible x = true -> dirty t = false) -> write_ahead (t ++ [x]).
Proof.
  intros Ht Hx t1 y t2 E Hy. destruct t2 as [|z t2 _] using rev_ind.
  - apply app_inj_tail in E as [-> ->]. by apply Hx.
  - rewrite app_comm_cons, app_assoc in E. apply app_inj_tail in E as [E ->]. by eapply Ht.
Qed.

(** ** Computations *)

Definition settled_log d : Prop := dirty (trace d) = false.

(** The trace is ordered; during a replay nothing is logged. *)
Definition ordered (isReplaying : bool) d : Prop :=
  write_ahead (trace d) /\ (isReplaying = true -> settled_log d).

Definition keeps {T} (isReplaying : bool) (m : DM T) : Prop :=
  forall d, ordered isReplaying d -> ordered isReplaying (m d).2.

Lemma keeps_bind {T U} b (m : DM T) (k : T -> DM U) :
  keeps b m -> (forall x, keeps b (k x)) -> keeps b (m ≫= k).
Proof.
  intros Hm Hk d Hd. specialize (Hm d Hd). unfold mbind, SE_bind.
  destruct (m d) as [[x|e| |] d']; [by apply Hk|done..].
Qed.

Lemma keeps_trace {T} b (m : DM T) : (forall d, trace (m d).2 = trace d) -> keeps b m.
Proof. intros E d [Ho Hs]. unfold ordered, settled_log. rewrite E. done. Qed.

Lemma keeps_ret {T} b (x : T) : keeps b (mret x).
Proof. by apply keeps_trace. Qed.

Lemma keeps_get b : keeps b get_state.
Proof. by apply keeps_trace. Qed.

Lemma keeps_on_db {T} b err (m : SE _ storeError T) : keeps b (on_db err m).
Proof. apply keeps_trace. intros d. unfold on_db. by destruct (m (db d)). Qed.

Lemma keeps_on_machine {T} b (m : SE _ Empty_set T) : keeps b (on_machine m).
Proof. apply keeps_trace. intros d. unfold on_machine. by destruct (m (machine d)) as [[|[]| |] s]. Qed.

(** An effect that nobody sees and that is not an entry. *)
Lemma keeps_emit b x : visible x = false -> (forall z, dirty_after z x = z) -> keeps b (emit x).
Proof.
  intros Hv Hx d [Ho Hs]. unfold ordered, settled_log in *. simpl. rewrite dirty_snoc, Hx. split; [|done].
  apply write_ahead_snoc; [done|congruence].
Qed.

Lemma flush_ordered b d :
  ordered b d ->
  ordered b (flush keyKindSet io_at d).2 /\
  ((flush keyKindSet io_at d).1 = Ok tt -> settled_log (flush keyKindSet io_at d).2).
Proof.
  intros [Ho Hs]. unfold flush, mbind, SE_bind, get_state, modify, on_db. simpl.
  destruct (Flush keyKindSet (io_at (flushes d)) (db d)) as [[[]|e| |] s]; simpl; [|by split..].
  unfold ordered, settled_log. simpl. rewrite !dirty_snoc. split; [|done]. split; [|done].
  by apply write_ahead_snoc.
Qed.

Lemma keeps_flush b : keeps b (flush keyKindSet io_at).
Proof. intros d Hd. by apply flush_ordered. Qed.

(** A visible effect after the flush the driver does for it. *)
Lemma keeps_visible {T} b x (k : DM T) :
  visible x = true -> keeps b k ->
  keeps b ((if negb b && true then flush keyKindSet io_at else mret tt);; emit x;; k).
Proof.
  intros Hv Hk d Hd.
  assert (Hemit : forall d1, ordered b d1 -> settled_log d1 -> ordered b ((emit x;; k) d1).2).
  { intros d1 [Ho1 _] Hc. apply Hk. unfold ordered, settled_log. simpl.
    rewrite dirty_snoc. split; [by apply write_ahead_snoc|]. intros _. destruct x; try done. }
  destruct b; simpl.
  - apply Hemit; [done|]. by apply Hd.
  - destruct (flush_ordered false d Hd) as [Ho Hc]. unfold mbind at 1, SE_bind at 1.
    destruct (flush keyKindSet io_at d) as [[[]|e| |] d1]; simpl in *; [|done..]. by apply Hemit; [|apply Hc].
Qed.

Lemma keeps_sync b : keeps b syncCurrentHeight.
Proof.
  apply keeps_bind; [apply keeps_get|]. intros d. destruct (negb _); [apply keeps_ret|]. by apply keeps_emit.
Qed.

Lemma commit_after_flush b p d :
  ordered b d -> settled_log d -> ordered b (commit keyKindSet io_at onCommit p d).2.
Proof.
  intros Hd Hc. unfold commit. destruct (Value p); [|done]. unfold mbind at 1, SE_bind at 1, get_state at 1.
  unfold mbind at 1, SE_bind at 1, modify at 1. destruct (onCommit (flushes d)); simpl; [|done].
  assert (Hk : keeps b (on_db (AS:=AS) ErrDeleting (DeleteWALEntries (Height (proposal_header p)));;
                        flush keyKindSet io_at)).
  { apply keeps_bind; [apply keeps_on_db|]. intros _. apply keeps_flush. }
  apply (Hk (add_effect (tick d) (EffCommit p))). unfold ordered, settled_log in *. simpl.
  rewrite dirty_snoc. split; [|by intros _]. by apply write_ahead_snoc; [apply Hd|].
Qed.

Lemma keeps_action b a : keeps b (execute_action keyKindSet io_at onCommit b a).
Proof.
  destruct a as [e|p|v|v|tm|p|start stop]; unfold execute_action; simpl RequiresWALFlush.
  - rewrite andb_false_r. apply keeps_bind; [apply keeps_ret|]. intros _. destruct b; simpl; [apply keeps_ret|].
    apply keeps_bind; [apply keeps_get|]. intros d0. apply keeps_bind; [apply keeps_on_db|]. intros _.
    apply keeps_bind; [|intros _; apply keeps_ret]. intros d [Ho _]. split; [|done].
    by apply write_ahead_snoc.
  - apply (keeps_visible b (EffBroadcastProposal p)); [done|apply keeps_ret].
  - apply (keeps_visible b (EffBroadcastPrevote v)); [done|apply keeps_ret].
  - apply (keeps_visible b (EffBroadcastPrecommit v)); [done|apply keeps_ret].
  - rewrite andb_false_r. apply keeps_bind; [apply keeps_ret|]. intros _.
    apply keeps_bind; [|intros _; apply keeps_ret].
    apply keeps_bind; [by apply keeps_trace|]. intros _. by apply keeps_emit.
  - intros d Hd.
    assert (Hcom : forall d1, ordered b d1 -> settled_log d1 ->
              ordered b ((commit keyKindSet io_at onCommit p;; mret (Some true)) d1).2).
    { intros d1 Ho Hc. pose proof (commit_after_flush b p d1 Ho Hc) as Hp. unfold mbind, SE_bind.
      by destruct (commit keyKindSet io_at onCommit p d1) as [[] d2]. }
    destruct b; simpl.
    + apply Hcom; [done|]. by apply Hd.
    + destruct (flush_ordered false d Hd) as [Ho Hc]. unfold mbind at 1, SE_bind at 1.
      destruct (flush keyKindSet io_at d) as [[[]|e| |] d1]; simpl in *; [|done..]. by apply Hcom; [|apply Hc].
  - rewrite andb_false_r. apply keeps_bind; [apply keeps_ret|]. intros _.
    apply keeps_bind; [|intros _; apply keeps_ret].
    apply keeps_bind; [apply keeps_get|]. intros d. apply keeps_bind; [by apply keeps_trace|]. intros _.
    destruct (negb _); [apply keeps_sync|apply keeps_ret].
Qed.

Lemma keeps_execute b acts : keeps b (execute keyKindSet io_at onCommit b acts).
Proof.
  induction acts as [|a acts IH]; simpl; [apply keeps_ret|].
  apply keeps_bind; [apply keeps_action|]. intros [c|]; [apply keeps_ret|done].
Qed.

Lemma keeps_replay : keeps true (replay keyKindSet io_at onCommit).
Proof.
  apply keeps_bind; [apply keeps_get|]. intros d0. generalize (LoadAllEntries (db d0)). clear d0.
  induction l as [|e es IH]; simpl; [apply keeps_ret|].
  apply keeps_bind; [apply keeps_get|]. intros d. apply keeps_bind; [|done].
  destruct (entry_height e <? smHeight d); [apply keeps_ret|].
  apply keeps_bind; [apply keeps_on_machine|]. intros acts. apply keeps_bind; [apply keeps_execute|].
  intros _. apply keeps_ret.
Qed.

Lemma keeps_listen_start : keeps false (listen_start keyKindSet io_at onCommit).
Proof.
  apply keeps_bind; [apply keeps_on_machine|]. intros acts. apply keeps_bind; [apply keeps_execute|].
  intros c. apply keeps_ret.
Qed.

Lemma keeps_listen_input i acts : keeps false (listen_input keyKindSet io_at onCommit i acts).
Proof.
  apply keeps_bind.
  - destruct i; try apply keeps_on_machine.
    + apply keeps_bind; [by apply keeps_trace|]. intros _. apply keeps_on_machine.
    + apply keeps_bind; [apply keeps_sync|]. intros _. apply keeps_ret.
  - intros acts'. apply keeps_bind; [apply keeps_execute|]. intros c. apply keeps_ret.
Qed.

Lemma keeps_listen fuel inputs : keeps false (listen keyKindSet io_at onCommit fuel inputs).
Proof.
  assert (Hl : forall fuel inputs acts c, keeps false (listen_inputs keyKindSet io_at onCommit fuel inputs acts c)).
  { clear. induction fuel as [|k IH]; intros inputs acts c; simpl; [by apply keeps_trace|]. destruct c.
    - apply keeps_bind; [apply keeps_sync|]. intros _. apply keeps_bind; [apply keeps_listen_start|].
      intros [acts' c]. apply IH.
    - destruct inputs as [|i inputs]; [apply keeps_ret|].
      apply keeps_bind; [apply keeps_listen_input|]. intros [acts' c]. apply IH. }
  apply keeps_bind; [apply keeps_listen_start|]. intros [acts c]. apply Hl.
Qed.

(** C39: from the start of the driver on any log, whatever the replay finds,
    the channels deliver and the I/O of the log does, every broadcast and every
    commit comes after a successful flush of all the entries that were given to
    the log before it. *)
Theorem driver_write_ahead fuel inputs s m :
  write_ahead (trace (Run keyKindSet io_at onCommit fuel inputs (new_driver s m)).2).
Proof.
  unfold Run.
  assert (Hr : ordered false ((replay keyKindSet io_at onCommit;; listen keyKindSet io_at onCommit fuel inputs)
            (new_driver s m)).2).
  { assert (H0' : ordered true (new_driver s m)) by (split; [apply write_ahead_nil|done]).
    pose proof (keeps_replay _ H0') as [Hw _]. unfold mbind, SE_bind.
    destruct (replay keyKindSet io_at onCommit (new_driver s m)) as [[x|e| |] d']; simpl in *;
      [|by split..]. by apply keeps_listen. }
  revert Hr. generalize ((replay keyKindSet io_at onCommit;; listen keyKindSet io_at onCommit fuel inputs)
    (new_driver s m)). intros [o d] Hr. destruct (Close _ _ _) as [c s']. apply Hr.
Qed.

(** ** Replays *)

(** Nothing is logged, and the log only changes with a commit. *)
Definition quiet (s0 : tendermintWALStore (V:=V) (H:=H) (A:=A)) d : Prop :=
  (forall e, EffLog e ∉ trace d) /\ ((forall p, EffCommit p ∉ trace d) -> db d = s0).

Definition stays_quiet {T} (m : DM T) : Prop := forall s0 d, quiet s0 d -> quiet s0 (m d).2.

Lemma quiet_bind {T U} (m : DM T) (k : T -> DM U) :
  stays_quiet m -> (forall x, stays_quiet (k x)) -> stays_quiet (m ≫= k).
Proof.
  intros Hm Hk s0 d Hd. specialize (Hm s0 d Hd). unfold mbind, SE_bind.
  destruct (m d) as [[x|e| |] d']; [by apply Hk|done..].
Qed.

Lemma quiet_same {T} (m : DM T) :
  (forall d, trace (m d).2 = trace d /\ db (m d).2 = db d) -> stays_quiet m.
Proof. intros E s0 d [Hl Hc]. destruct (E d) as [Et Ed]. unfold quiet. by rewrite Et, Ed. Qed.

Lemma quiet_emit x : (forall e, x ≠ EffLog e) -> stays_quiet (emit x).
Proof.
  intros Hx s0 d [Hl Hc]. split; simpl.
  - intros e [He|He%list_elem_of_singleton]%elem_of_app; [by apply (Hl e)|]. by apply (Hx e).
  - intros Hp. apply Hc. intros p Hin. apply (Hp p). set_solver.
Qed.

(** After a commit the log may change. *)
Lemma quiet_committed {T} p (m : DM T) :
  (forall d, exists t, trace (m d).2 = trace d ++ t /\ forall e, EffLog e ∉ t) -> stays_quiet (emit (EffCommit p);; m).
Proof.
  intros Hm s0 d [Hl Hc]. unfold mbind, SE_bind. simpl. destruct (Hm (add_effect d (EffCommit p))) as (t & E & Ht).
  simpl in E. split; rewrite E.
  - intros e. rewrite !elem_of_app, list_elem_of_singleton. intros [[?|?]|?]; [by apply (Hl e)|done|by apply (Ht e)].
  - intros Hp. destruct (Hp p). set_solver.
Qed.

Lemma flush_trace d : exists t, trace (flush keyKindSet io_at d).2 = trace d ++ t /\ forall e, EffLog e ∉ t.
Proof.
  unfold flush, mbind, SE_bind, get_state, modify, on_db. simpl.
  destruct (Flush keyKindSet (io_at (flushes d)) (db d)) as [[[]|e| |] s]; simpl;
    [exists [EffFlush]; split; [done|set_solver]|exists []; by rewrite app_nil_r; split; [|set_solver]..].
Qed.

Lemma quiet_commit p : stays_quiet (commit keyKindSet io_at onCommit p).
Proof.
  unfold commit. destruct (Value p); [|by apply quiet_same].
  apply quiet_bind; [by apply quiet_same|]. intros d0. apply quiet_bind; [by apply quiet_same|]. intros _.
  destruct (negb _); [by apply quiet_same|]. apply quiet_committed. intros d. unfold mbind, SE_bind.
  pose proof (fun x => flush_trace x) as Hf. unfold on_db at 1.
  destruct (DeleteWALEntries _ (db d)) as [[[]|e| |] s]; simpl;
    [apply (Hf (set_db d s))|exists []; by rewrite app_nil_r; split; [|set_solver]..].
Qed.

Lemma quiet_sync : stays_quiet syncCurrentHeight.
Proof.
  apply quiet_bind; [by apply quiet_same|]. intros d. destruct (negb _); [by apply quiet_same|].
  by apply quiet_emit.
Qed.

Lemma quiet_execute acts : stays_quiet (execute keyKindSet io_at onCommit true acts).
Proof.
  assert (Hr : forall T (x : T), stays_quiet (mret x)) by (intros; by apply quiet_same).
  induction acts as [|a acts IH]; simpl; [apply Hr|].
  apply quiet_bind; [|intros [c|]; [apply Hr|done]]. apply quiet_bind; [apply Hr|]. intros _.
  destruct a; simpl; [apply Hr|..]; (apply quiet_bind; [|intros _; apply Hr]).
  1-3: by apply quiet_emit.
  - apply quiet_bind; [by apply quiet_same|]. intros _. by apply quiet_emit.
  - apply quiet_commit.
  - apply quiet_bind; [by apply quiet_same|]. intros d. apply quiet_bind; [by apply quiet_same|]. intros _.
    destruct (negb _); [apply quiet_sync|apply Hr].
Qed.

(** A replay gives nothing to the log, and leaves the log as it was
    unless the replayed messages commit a height. *)
Theorem replay_keeps_log s m :
  let d := (replay keyKindSet io_at onCommit (new_driver s m)).2 in
  (forall e, EffLog e ∉ trace d) /\ ((forall p, EffCommit p ∉ trace d) -> db d = s).
Proof.
  assert (Hq : stays_quiet (replay keyKindSet io_at onCommit)).
  { apply quiet_bind; [by apply quiet_same|]. intros d0. generalize (LoadAllEntries (db d0)). clear d0.
    induction l as [|e es IH]; simpl; [by apply quiet_same|].
    apply quiet_bind; [by apply quiet_same|]. intros d. apply quiet_bind; [|done].
    destruct (entry_height e <? smHeight d); [by apply quiet_same|].
    apply quiet_bind.
    - apply quiet_same. intros d'. unfold on_machine. by destruct (ProcessWAL e (machine d')) as [[|[]| |] ?].
    - intros acts. apply quiet_bind; [apply quiet_execute|]. intros _. by apply quiet_same. }
  apply (Hq s (new_driver s m)). split; [set_solver|done].
Qed.

End facts.
