(* ===== verification/DriverWitness.v ===== *)
(** * The log and the driver on concrete inputs

    A reader for Pebble's batch format, a simple format of log files, a store of
    small entries, and drivers of
    the network of four validators: a driver that is restarted, and one whose
    request for a block fails. *)
From stdpp Require Import prelude gmap list sorting.
From Stdlib Require Import ZArith Lia.
From S2P Require Import Prelude Felt ConsensusTypes VoteCounter Tendermint ConsensusWitness.
From S2P Require Import WalCodec WalStore WalIndexFacts WalStoreFacts Driver.

Local Open Scope Z_scope.

(** ** A reader of batches *)

Fixpoint read_uvarint (l : list Z) : option (Z * list Z) :=
  match l with
  | [] => None
  | b :: l' =>
      if b <? 128 then Some (b, l')
      else '(m, rest) ← read_uvarint l'; Some (b - 128 + 128 * m, rest)
  end.

(** The bytes a length in front of them announces. *)
Definition read_sized (l : list Z) : option (list Z * list Z) :=
  '(n, l') ← read_uvarint l; Some (take (Z.to_nat n) l', drop (Z.to_nat n) l').

Fixpoint read_items (fuel : nat) (l : list Z) : list (Z * list Z) * bool :=
  match fuel, l with
  | _, [] => ([], false)
  | O, _ => ([], true)
  | S k, kind :: l1 =>
      match read_sized l1 with
      | Some (_, l2) =>
          match read_sized l2 with
          | Some (value, l3) => let '(items, failed) := read_items k l3 in ((kind, value) :: items, failed)
          | None => ([], true)
          end
      | None => ([], true)
      end
  end.

Definition batch_header (b : list Z) : option (Z * Z) :=
  if (length b <? 12)%nat then None else Some (le_val (take 8 b), le_val (take 4 (drop 8 b))).

Definition batch_records (b : list Z) : list (Z * list Z) * bool := read_items (length b) (drop 12 b).

Lemma read_uvarint_app l n rest : uvarint_val l = Some n -> read_uvarint (l ++ rest) = Some (n, rest).
Proof.
  revert n. induction l as [|b l IH]; intros n; [done|]. cbn [uvarint_val read_uvarint app].
  destruct (b <? 128).
  - destruct l; [|done]. intros [= ->]. done.
  - intros (m & Em & [= <-])%bind_Some. rewrite (IH m Em). done.
Qed.

Lemma read_sized_app l bytes rest :
  uvarint_val l = Some (Z.of_nat (length bytes)) -> read_sized (l ++ bytes ++ rest) = Some (bytes, rest).
Proof.
  intros E. unfold read_sized. rewrite (read_uvarint_app _ _ _ E). simpl.
  by rewrite Nat2Z.id, take_app_length, drop_app_length.
Qed.

Lemma read_items_all items fuel :
  Forall item_ok items -> (length items <= fuel)%nat ->
  read_items fuel (concat (item_bytes <$> items)) = ((fun i => (it_kind i, it_value i)) <$> items, false).
Proof.
  intros Hok. revert fuel. induction Hok as [|i items [Hk Hv] _ IH]; intros fuel Hf; [by destruct fuel|].
  destruct fuel as [|k]; [simpl in Hf; lia|]. rewrite fmap_cons. cbn [concat].
  unfold item_bytes at 1. rewrite <- !app_assoc. cbn [app read_items].
  rewrite (read_sized_app _ _ _ Hk), (read_sized_app _ _ _ Hv), IH by (simpl in Hf; lia). done.
Qed.

Lemma batch_reader_ok : pebble_reads batch_header batch_records.
Proof.
  intros seq items Hs Hn Hok b.
  assert (Hlen : (length items <= length (concat (item_bytes <$> items)))%nat).
  { clear. induction items as [|i items IH]; [done|]. rewrite fmap_cons. cbn [concat length].
    rewrite length_app. unfold item_bytes at 1. cbn [app length]. lia. }
  split.
  - unfold batch_header, b. rewrite !length_app, !length_le_bytes.
    destruct (Nat.ltb_spec (8 + (4 + length (concat (item_bytes <$> items)))) 12); [lia|].
    rewrite take_app_length', drop_app_length', take_app_length' by (by rewrite length_le_bytes).
    rewrite !le_val_bytes; [done|change (256 ^ Z.of_nat 4) with (2 ^ 32); lia|
      change (256 ^ Z.of_nat 8) with (2 ^ 64); lia].
  - unfold batch_records, b. rewrite app_assoc, drop_app_length'.
    2:{ by rewrite length_app, !length_le_bytes. }
    rewrite <- app_assoc, !length_app. apply read_items_all; [done|lia].
Qed.

(** ** A format of log files

    A record is its length in unary, a zero and its bytes; a closed file ends with
    a two. *)

Fixpoint ones (l : list Z) : nat * list Z :=
  match l with 1 :: l' => let '(k, r) := ones l' in (S k, r) | _ => (0%nat, l) end.

Definition parse_record (l : list Z) (off : Z) : readResult :=
  match ones l with
  | (k, 0 :: r) => if (k <=? length r)%nat then ReadRecord (take k r) (off + 2 * Z.of_nat k + 1) else ReadInvalid
  | _ => ReadInvalid
  end.

Definition file_next (l : list Z) (off : Z) : readResult :=
  match l with [] => ReadEof | x :: _ => if x =? 2 then ReadEof else parse_record l off end.

#[export] Instance unary_log : PebbleLog := {|
  pl_frame _ b := replicate (length b) 1 ++ 0 :: b;
  pl_trailer _ := [2];
  pl_next c off := file_next (drop (Z.to_nat off) c) off;
|}.

Lemma ones_replicate k l : (forall l', l ≠ 1 :: l') -> ones (replicate k 1 ++ l) = (k, l).
Proof.
  intros Hl. induction k as [|k IH]; [|cbn; by rewrite IH]. cbn. destruct l as [|x l]; [done|]. cbn.
  destruct x as [|[| |]|]; try done. by destruct (Hl l).
Qed.

Lemma unary_next c t : pl_next (c ++ t) (len c) = file_next t (len c).
Proof. cbn [pl_next unary_log]. unfold len. by rewrite Nat2Z.id, drop_app_length. Qed.

#[export] Instance unary_log_laws : PebbleLogLaws.
Proof.
  split.
  - intros o b. cbn. by destruct (length b).
  - intros bs b rest. rewrite content_snoc, <- app_assoc, unary_next. cbn [pl_frame unary_log]. rewrite <- app_assoc.
    assert (Ep : parse_record (replicate (length b) 1 ++ (0 :: b) ++ rest) (len (content bs)) =
      ReadRecord b (len (content bs ++ replicate (length b) 1 ++ 0 :: b))).
    { unfold parse_record. rewrite ones_replicate by done. cbn [app]. rewrite length_app.
      destruct (Nat.leb_spec (length b) (length b + length rest)); [|lia]. rewrite take_app_length. f_equal.
      unfold len. rewrite !length_app, length_replicate. cbn [length]. lia. }
    revert Ep. by destruct (length b).
  - intros bs b k Hk c. unfold c. rewrite unary_next. cbn [pl_frame unary_log] in *. rewrite length_app, length_replicate in Hk. cbn [length] in Hk.
    assert (Ep : k ≠ 0%nat -> parse_record (take k (replicate (length b) 1 ++ 0 :: b)) (len (content bs)) = ReadInvalid).
    { intros Hk0. unfold parse_record. destruct (Nat.le_gt_cases k (length b)) as [Hle|Hgt].
      - rewrite take_app_le by (rewrite length_replicate; lia). rewrite take_replicate, Nat.min_l by lia.
        rewrite <- (app_nil_r (replicate k 1)), ones_replicate by done. done.
      - rewrite take_app_ge by (rewrite length_replicate; lia). rewrite length_replicate.
        destruct (k - length b)%nat as [|j] eqn:Ej; [lia|]. cbn [take]. rewrite ones_replicate by done.
        destruct (Nat.leb_spec (length b) (length (take j b))) as [Hl|]; [|done]. rewrite length_take in Hl. lia. }
    destruct k as [|k]; [by left|]. specialize (Ep ltac:(done)). revert Ep.
    destruct (length b); cbn [replicate app take]; auto.
  - intros bs k c. left. unfold c. rewrite unary_next. by destruct k as [|[|]].
  - intros bs. by rewrite unary_next.
  - intros bs. rewrite <- (app_nil_r (content bs)) at 1. by rewrite unary_next.
Qed.

(** ** Booleans as values, hashes and addresses *)

#[export] Instance bool_limbs : Limbs bool := {|
  limbs b := [Z.b2z b; 0; 0; 0];
  of_limbs l := match l with 1 :: _ => true | _ => false end;
|}.

#[export] Instance bool_limbs_laws : LimbsLaws bool.
Proof. split; [done|intros []; repeat constructor; simpl; lia|by intros []]. Qed.

#[export] Instance bool_value : WALValue bool := {|
  v_array := true;
  v_limbs b := [Z.b2z b; 0; 0; 0];
  v_of_limbs l := match l with 1 :: _ => true | _ => false end;
|}.

#[export] Instance bool_value_laws : WALValueLaws bool.
Proof. split; [done|done|intros []; repeat constructor; simpl; lia|by intros []]. Qed.

(** ** The log *)

Abbreviation bentry := (walEntry bool bool bool).
Abbreviation bstore := (tendermintWALStore (V:=bool) (H:=bool) (A:=bool)).

Definition open_empty : bstore := (NewTendermintWALStore 1 batch_header batch_records RepairOk emptyDir).2.

Definition vote_at (h : Z) : bentry := WALPrevote (mkVote (mkHeader h 0 true) (Some false)).

(** Two writes, a prune of the first height and a flush that succeeds; then a
    write whose flush fails and leaves [n] bytes behind. *)
Definition torn (n : nat) : io := mkIO true false n true RepairFailed WatermarkOk (Some []) (fun _ => true) true.

Definition after {T} (m : SE bstore storeError T) (s : bstore) : bstore := (m s).2.

Definition logged : bstore :=
  after (DeleteWALEntries 1)
    (after (SetWALEntry 2 (vote_at 2)) (after (SetWALEntry 1 (WALStart OwnHeight)) open_empty)).
Definition synced : bstore := after (flushLocked 1 io_ok) logged.
Definition third : bstore := after (SetWALEntry 3 (WALStart OwnHeight)) synced.
Definition broken (n : nat) : bstore := after (flushLocked 1 (torn n)) third.

Lemma run_logged : store_run 1 batch_header batch_records logged None.
Proof.
  assert (Ho : store_run 1 batch_header batch_records open_empty None) by (by apply (run_open _ _ _ RepairOk)).
  unfold logged, after.
  eapply (run_delete _ _ _ 1); [|lia|apply surjective_pairing].
  eapply (run_set _ _ _ 2 (vote_at 2)); [|simpl; unfold vote_ok, header_ok; simpl; lia|apply surjective_pairing].
  eapply (run_set _ _ _ 1 (WALStart OwnHeight)); [done|simpl; lia|apply surjective_pairing].
Qed.

Lemma run_synced : store_run 1 batch_header batch_records synced None.
Proof.
  pose proof (run_flush _ _ _ io_ok logged None _ synced run_logged ltac:(vm_compute; reflexivity) (surjective_pairing _)) as Hr.
  by vm_compute in Hr |- *.
Qed.

Lemma run_third : store_run 1 batch_header batch_records third None.
Proof.
  unfold third, after. eapply (run_set _ _ _ 3 (WALStart OwnHeight)); [apply run_synced|simpl; lia|apply surjective_pairing].
Qed.

Lemma run_broken n : store_run 1 batch_header batch_records (broken n)
  (unacked None third (flushLocked 1 (torn n) third).1 (broken n)).
Proof.
  unfold broken, after. eapply (run_flush _ _ _ (torn n)); [apply run_third|vm_compute; reflexivity|apply surjective_pairing].
Qed.

(** The write is torn after five bytes: it is cut off.  The whole batch is left in
    the file: its entry is recovered too. *)
Lemma wal_recovers_witness :
  repairRequired (wal (broken 5)) = true /\ LoadAllEntries (broken 5) = [vote_at 2] /\
  LoadAllEntries (NewTendermintWALStore 1 batch_header batch_records RepairOk (dir (wal (broken 5)))).2 = [vote_at 2] /\
  LoadAllEntries (NewTendermintWALStore 1 batch_header batch_records RepairOk (dir (wal (broken 500)))).2 =
    [vote_at 2; WALStart (AtHeight 3)] /\
  exists s', NewTendermintWALStore 1 batch_header batch_records RepairOk (dir (wal (broken 5))) = (Ok tt, s') /\
    (LoadAllEntries s' = LoadAllEntries (broken 5) /\ prunedUpToHeight s' = prunedUpToHeight (broken 5) \/
     exists rs, unacked None third (flushLocked 1 (torn 5) third).1 (broken 5) = Some rs /\ extended (broken 5) rs s').
Proof.
  split; [vm_compute; reflexivity|]. split; [vm_compute; reflexivity|]. split; [vm_compute; reflexivity|].
  split; [vm_compute; reflexivity|].
  apply (wal_recovers 1 batch_header batch_records batch_reader_ok (broken 5)
    (unacked None third (flushLocked 1 (torn 5) third).1 (broken 5)) (run_broken 5)).
Defined.

Lemma flush_atomic_witness :
  (exists err : storeError, flushLocked 1 (torn 5) third = (Err err, broken 5)) /\
  exists o, (flushLocked 1 io_ok logged = (o, synced)) /\
  ((o = Ok tt /\ flushed logged synced) \/
   (exists err : storeError, o = Err err /\ (flushed logged synced \/ untouched logged synced))).
Proof.
  split; [exists ErrWrite; vm_compute; reflexivity|]. exists (Ok tt). split; [vm_compute; reflexivity|].
  apply (flush_atomic 1 batch_header batch_records batch_reader_ok io_ok logged None); [apply run_logged|vm_compute; reflexivity..].
Defined.

Lemma entries_ordered_witness :
  LoadAllEntries synced = [vote_at 2] /\
  StronglySorted Z.le (entry_height <$> LoadAllEntries synced) /\
  forall h, filter (fun e => entry_height e = h) (LoadAllEntries synced) = default [] (entriesByHeight synced !! h).
Proof.
  split; [reflexivity|].
  apply (entries_ordered 1 batch_header batch_records batch_reader_ok synced None run_synced).
Defined.

Lemma wal_record_roundtrip_witness :
  exists payload,
    appendWALRecordPayload [] (setEntry 2 (new_envelope walRecordEntry) (vote_at 2)) = Ok payload /\
    decodeWALRecord payload = Ok (setEntry 2 (new_envelope walRecordEntry) (vote_at 2)) /\
    entry (E:=walError) (setEntry 2 (new_envelope walRecordEntry) (vote_at 2)) = Ok (settled 2 (vote_at 2)).
Proof.
  apply (wal_record_roundtrip 2 (vote_at 2)). simpl. unfold vote_ok, header_ok. simpl. lia.
Defined.

(** ** Drivers of the network of four validators *)

#[export] Instance int_limbs : Limbs Z := {| limbs z := [z; 0; 0; 0]; of_limbs l := default 0 (head l) |}.
#[export] Instance int_value : WALValue Z := {|
  v_array := true; v_limbs z := [z; 0; 0; 0]; v_of_limbs l := default 0 (head l);
|}.

(** An application that proposes its state and does not repeat itself. *)
#[export] Instance fresh_values : Application Z Z := {|
  app_Value s := (s, s + 1);
  app_Valid _ v := v <? 100;
|}.

Abbreviation zdriver := (Driver (V:=Z) (H:=Z) (A:=Z) (AS:=Z)).
Abbreviation zinput := (input (V:=Z) (H:=Z) (A:=Z)).

Definition reopen (d : walDir) : tendermintWALStore (V:=Z) (H:=Z) (A:=Z) :=
  (NewTendermintWALStore 1 batch_header batch_records RepairOk d).2.

(** A life of a node at height 1, from a directory and a state of the application. *)
Definition life (d : walDir) (addr app : Z) (inputs : list zinput) : zdriver :=
  (Run 1 (fun _ => io_ok) (fun _ => true) 20 inputs (new_driver (reopen d) (New addr app 1))).2.

Definition proposals (d : zdriver) : list (option Z) :=
  omap (fun x => match x with EffBroadcastProposal p => Some (Value p) | _ => None end) (trace d).
Definition prevotes (d : zdriver) : list (Vote Z Z) :=
  omap (fun x => match x with EffBroadcastPrevote v => Some v | _ => None end) (trace d).
Definition entries_logged (d : zdriver) : list (walEntry Z Z Z) :=
  omap (fun x => match x with EffLog e => Some e | _ => None end) (trace d).

(** The proposal of validator 1, and the first life of validator 1. *)
Definition proposal_9 : Proposal Z Z := mkProposal (mkHeader 1 0 1) (-1) (Some 9).
Definition first_life : zdriver := life emptyDir 1 7 [].

Lemma driver_write_ahead_witness :
  trace first_life =
    [EffLog (WALStart OwnHeight); EffFlush;
     EffBroadcastProposal (mkProposal (mkHeader 1 0 1) (-1) (Some 7)); EffFlush;
     EffBroadcastPrevote (mkVote (mkHeader 1 0 1) (Some 7))] /\
  write_ahead (trace first_life).
Proof.
  split; [vm_compute; reflexivity|].
  apply (driver_write_ahead 1 (fun _ => io_ok) (fun _ => true) 20 [] (reopen emptyDir) (New 1 7 1)).
Defined.

(** A replay of the log of the first life. *)
Lemma replay_keeps_log_witness :
  LoadAllEntries (reopen (dir (wal (db first_life)))) = [WALStart (AtHeight 1)] /\
  let s := reopen (dir (wal (db first_life))) in
  let d := (replay 1 (fun _ => io_ok) (fun _ => true) (new_driver s (New 1 7 1))).2 in
  (forall e, EffLog e ∉ trace d) /\ ((forall p, EffCommit p ∉ trace d) -> db d = s).
Proof.
  split; [vm_compute; reflexivity|].
  apply (replay_keeps_log 1 (fun _ => io_ok) (fun _ => true) (reopen (dir (wal (db first_life)))) (New 1 7 1)).
Defined.

(** A proposer that is restarted can contradict itself.  Its own
    proposal is not in the log: the replay of the start entry asks the
    application for a value again, and a proposal and a prevote for another
    value of the same height and round are broadcast. *)
Example replay_can_equivocate :
  let second_life := life (dir (wal (db first_life))) 1 50 [] in
  proposals first_life = [Some 7] /\ prevotes first_life = [mkVote (mkHeader 1 0 1) (Some 7)] /\
  proposals second_life = [Some 50] /\ prevotes second_life = [mkVote (mkHeader 1 0 1) (Some 50)].
Proof. vm_compute. done. Qed.

(** when a block cannot be fetched, the actions of the turn before are
    executed again: the entry of a received proposal is logged twice and the
    prevote is broadcast twice. *)
Theorem sync_error_repeats_actions :
  let once := life emptyDir 3 7 [InProposal proposal_9] in
  let twice := life emptyDir 3 7 [InProposal proposal_9; InSyncError] in
  entries_logged once = [WALStart OwnHeight; WALProposal proposal_9] /\
  prevotes once = [mkVote (mkHeader 1 0 3) (Some 9)] /\
  entries_logged twice = [WALStart OwnHeight; WALProposal proposal_9; WALProposal proposal_9] /\
  prevotes twice = [mkVote (mkHeader 1 0 3) (Some 9); mkVote (mkHeader 1 0 3) (Some 9)].
Proof. vm_compute. done. Qed.
